(* ===== verification/_CoqProject ===== *)
-Q . S2P
Prelude.v
BTree.v
Spans.v
Json.v
Digits.v
Segments.v
ObjectKey.v
Hash.v
Relation.v
ObjectKeyProofs.v
Manifest.v
Capability.v
ObjectStore.v
CheckpointIndex.v
Publisher.v
CheckpointAdmin.v
PublisherProofs.v
CheckpointAdminProofs.v
Serde.v
JsonText.v
JsonRead.v
Codec.v
IngestEnvelope.v
StandingProgram.v
MetaTypes.v
SourceCut.v
SourceCutProofs.v
RelationCutProofs.v
ViewBootstrap.v
MetaRequests.v
MetaStore.v
MetaMachine.v
MetaFencing.v
MetaViews.v
MetaIngest.v
MetaRelation.v
ArrowState.v
SnapshotCodec.v
RhizaKv.v
RhizaSnapshot.v
RhizaMeta.v
RhizaDb.v
RhizaInvariant.v
RhizaPrograms.v
RhizaSystem.v
RhizaDurable.v
AppendOnly.v
CatalogRegistry.v
IngestLog.v
IngestLogProofs.v
IngestAdmission.v
IngestAdmissionProofs.v
IngestSamples.v
MetaSamples.v
RelationPublisher.v
RelationPublisherProofs.v
RelationPublisherSamples.v
RhizaSamples.v
Text.v
Delta.v
Join.v
JoinProofs.v
Decimal.v
Aggregate.v
AggregateProofs.v
AggregateState.v
Engine.v
Frontier.v
Overlay.v
Recursive.v
JoinIndex.v
Lease.v
LeasedCheckpoint.v
Checkpoints.v
CheckpointSamples.v
KubeLease.v
KubeLeaseProofs.v
KubeServer.v
Window.v
Reachability.v
