(* ===== verification/Prelude.v ===== *)
(** * Velorix: a verification development

    Velorix keeps SQL views up to date over streams of weighted rows. Batches of
    inserted and retracted rows come in per stream partition; operators turn them
    into batches of changes of a view; the owner of a partition, elected by a
    lease, writes the state of the operators and a checkpoint manifest to an
    object store, from which another process can take over. This library models
    those parts as executable definitions and proves what makes each of them
    correct. Names are those of the source; [src/crates] is left out of paths.

    ** The parts and their files

    Data.
    - [BTree], [Json], [Digits], [Segments], [Serde]: the parts of the standard
      library and of the JSON values that the code relies on: ordered maps,
      values, decimal texts, string operations, how values are written.
    - [Codec], [Text]: the row encodings of [velorix-core/src/delta.rs] and
      [canonical_json] of [operator.rs].
    - [Delta]: batches of weighted rows, [velorix-core/src/delta.rs].
    - [Decimal]: decimal sums, [velorix-core/src/operator.rs].

    Operators.
    - [Join], [JoinProofs]: the equi-join of [operator.rs]. Its state is the two
      sides as maps from keys to weighted rows; a prepared epoch works on
      overlays and is committed later.
    - [Aggregate], [AggregateProofs], [AggregateState]: the sum and count
      aggregate of [operator.rs], with extrema, and its saved state.
    - [Engine]: the [IncrementalEngine] trait and the aggregate kernel of
      [velorix-core/src/engine.rs], with checkpoints.
    - [Spans]: processed ordinals, [velorix-core/src/processed_spans.rs].
    - [Frontier], [Overlay], [Recursive], [JoinIndex], [Window]: the files
      [frontier_conformance.rs], [epoch_overlay.rs], [recursive_frontier.rs],
      [join_index.rs] and [window_partition_state.rs] of [velorix-runtime/src].

    Ownership.
    - [Lease]: the lease client trait of [velorix-control/src/lease.rs], its
      fencing contract, and the in-memory client.
    - [KubeLease], [KubeLeaseProofs], [KubeServer]: the Kubernetes client of
      [velorix-k8s/src/lease.rs] against any API server with optimistic
      concurrency, and one such server.

    Checkpoints, in [velorix-storage/src].
    - [ObjectKey], [ObjectKeyProofs]: [object_key.rs], the constructors of all
      keys and the readers.
    - [Manifest]: [manifest.rs] and [ownership.rs].
    - [Capability]: the profiles of [capability.rs].
    - [ObjectStore]: programs that make requests to an object store. A store is a
      class; its law is that every answer and its effect are as documented for
      the current objects. A program is proved correct with a weakest
      precondition under interference: between two requests the objects may
      change as a relation allows, and every request must respect a guarantee.
    - [CheckpointIndex], [Publisher], [CheckpointAdmin]: [checkpoint_index.rs],
      [gc.rs], [state.rs] and [state_store.rs], one program per [async fn].
    - [PublisherProofs], [CheckpointAdminProofs]: what every operation keeps and
      what it establishes, whatever runs next to it.
    - [LeasedCheckpoint]: [velorix-control/src/leased_checkpoint.rs] and the
      ownership records of [velorix-k8s/src/lease.rs].
    - [Checkpoints]: the theorems; [CheckpointSamples]: a store on which they are
      applied.
    - [Reachability]: the collector of [reachability_gc.rs].

    Ingest, in [velorix-storage/src] unless said otherwise.
    - [Hash]: SHA-256 texts. [Relation]: the types, schemas and catalogs of
      [velorix-core/src/relation.rs]. [JsonText], [JsonRead]: the texts of JSON
      values and a reader of them, for the instances.
    - [IngestEnvelope]: [ingest_envelope.rs], header, digest and payload of a batch.
    - [CatalogRegistry]: [relation_catalog_registry.rs].
    - [IngestLog], [IngestAdmission]: [log.rs]. A batch is committed under the key
      of its range after its range was reserved in an index and an admission
      record was stored; the first file has the records, the log and replay, the
      second [DurableIngestAdmission] and [IngestAdmissionCoordinator].
    - [AppendOnly]: programs that only read and create objects, next to others
      that do. [IngestLogProofs], [IngestAdmissionProofs]: the theorems;
      [IngestSamples]: the instances they are applied to.

    Metadata, in [velorix-meta/src] unless said otherwise. The service keeps the
    catalogs of relations, the ranges of ingest, the authorities over partitions, the
    owners and checkpoint pointers of views, their bootstraps and their registry.
    - [StandingProgram]: input coverage and causal cuts of
      [velorix-core/src/standing_program.rs].
    - [MetaTypes], [MetaRequests]: the records of [lib.rs], [source_cut.rs],
      [view_bootstrap.rs], [published_input_bootstrap.rs] and of
      [velorix-storage/src/materialized_view_registry.rs], and the validation of
      requests. [SourceCut], [ViewBootstrap]: the functions of the files of those names.
    - [MetaStore]: the operations of [InMemoryMetaStore], each a state transformer with
      an error. [MetaMachine]: commands, what each of them does to the state as an
      abstract effect, that the operations have these effects, and the states that
      are reached.
    - [SourceCutProofs], [RelationCutProofs], [MetaFencing], [MetaViews], [MetaIngest],
      [MetaRelation]: the theorems by subject; [MetaSamples]: runs they
      are applied to.
    - [ArrowState]: [velorix-core/src/arrow_state.rs] with its [value.rs], [serializer.rs] and
      [deserializer.rs]: a state as a tree, the tree as rows, the rows as an Arrow stream,
      and the bounded way back.
    - [SnapshotCodec], [RhizaKv], [RhizaSnapshot], [RhizaMeta]: [rhiza_snapshot.rs],
      [rhiza_kv.rs], [rhiza_kv_snapshot.rs] and [rhiza_meta.rs], the store that keeps
      the state as pages and a root in a replicated database and replaces the root by
      compare-and-set. An [async fn] is a program, a tree of calls.
    - [RhizaDb]: what the database promises about its calls, and a system of processes
      that call operations, make their calls in any order, lose answers and stop.
    - [RhizaInvariant], [RhizaPrograms]: what holds of the database, and what every
      program does to it next to others. [RhizaSystem],
      [RhizaDurable]: the theorems; [RhizaSamples]: a run they are applied to.
    - [RelationPublisher]: [velorix-control/src/relation_ingest_publisher.rs], the client
      that reserves, stages and publishes batches of relation ingest, as programs over
      the metadata service and the object store. [RelationPublisherProofs]: publishers
      next to each other; [RelationPublisherSamples]: a run with a restart.

    ** What the theorems show

    - Operators: outputs of the join and the aggregate add up to the join and
      the aggregate of everything that came in; a prepared epoch equals direct
      application; restoring a state gives the operator that was saved; an
      engine restored from a checkpoint and fed the remaining batches cannot be
      told from one that never stopped.
    - Encodings: equal bytes mean equal rows, with the exceptions proved next to
      them.
    - Leases: epochs granted for a key never decrease and one epoch has one
      owner, under any interleaving of calls, crashes and lost answers; nobody
      takes over a lease that is not over.
    - Keys: a key determines the artifact it was built for, and [parse] accepts
      exactly the keys of the known layouts.
    - Checkpoints: any number of publishers build one chain of manifests, each
      with all its objects and with the input progress of its parent; a
      superseded owner writes nothing; readers find the newest manifest; a
      collection plan spares what the retained manifests refer to, and no plan
      is executed.
    - Collection, frontiers, overlays, indices, windows: exact results against
      plain definitions.
    - Ingest: envelopes are read back as they were written and their digest
      determines them; a valid catalog has an Arrow schema; listing and replay
      return exactly the committed batches, also while others append; the
      admitted replay returns only batches with a matching admission record;
      objects of the log are never changed. When the calls of a partition
      are made one at a time, its committed ranges never overlap, wherever a call
      stops. Across processes the index alone does not give that: three writers
      that commit overlapping ranges are exhibited.
    - Metadata: superseded owners and authorities are fenced for good; the
      checkpoint pointers of a view are one chain; a view is active only on a
      checkpoint that covers its cuts; bootstraps and registries change only as they
      may; source cuts are exact; an offset is published at most once. Two ways are
      exhibited in which ranges are admitted that the documentation excludes.
    - Replicated metadata: the published roots are one history of commands, whatever
      processes do; a mutation takes effect as its answer says and at most once; reads
      are answered in a state of that history of a moment of the call; what is
      published can be loaded, within all limits; an owner that is superseded in the
      history is fenced in every process. All of it unless two of the texts that were
      hashed collide.
      A snapshot is read back as the state it was made of, through the Arrow form, whose
      bounds every snapshot that is written respects.
    - Relation ingest: a batch that a publisher acknowledges is published and staged for
      good, and nothing is published that is not staged. A retry under a later epoch
      than the one of the reservation is turned down, which the documentation of
      [publish] excludes.

    ** Parameters, bounds and fuel

    Integers are [Z], with the checked, saturating or wrapping operation of the
    source written out at its width. Code of other crates, and what their derive
    macros generate for the large records, is a parameter with
    its documented behaviour as a law: number and string printing of the JSON
    library ([Serde]), the JSON forms of checkpoint records
    ([CheckpointCodecLaws]: a document is read back as it was written and has
    the types of the fields), the JSON forms of relations, envelope headers and
    admission records ([RelationCodecLaws], [EnvelopeCodecLaws],
    [IngestCodecLaws]), the Arrow stream format ([ArrowIpcLaws]), SHA-256 (a
    function to 32 bytes; a theorem that needs more names the two texts that would
    have to collide), the object store ([ObjectStoreLaws]), the API server and the clock library of the
    Kubernetes client, the plans and bindings of views and the parser of endpoints
    ([ViewBindings], [MetaEnv]), base64, the reader of manifests, the JSON form
    of the metadata state and the writer and reader of Arrow streams ([Base64Laws],
    [ManifestReaderLaws], [SnapshotFormatLaws], [ArrowStreamsLaws]), and the replicated
    database, whose promises are the relations of [RhizaDb] and whose refusing error codes
    are given by [Refusals], about which nothing is assumed. Every theorem with such a parameter is applied to an
    instance. [encode_varint] has fuel 10, enough for 64 bits in groups of 7;
    decimal texts have at most 39 digits, enough for 128 bits; the
    traversal of [Reachability] has the number of keys as fuel, and it is proved
    that it ends within them; so has the walk along the transitions of the admission
    index, whose fuel is the number of transitions; a snapshot is cut into at most as
    many pages as it has bytes; a tree is read with the number of its rows as fuel, and it
    is proved that this is enough, and its rows are walked over with the depth that is left;
    the third round over the messages of a stream ends it. A root is replaced in at most 8 attempts and a reservation in the index is tried
    at most 10,000 times, as in the source.

    ** Not modelled

    - The segmented tree manifests of [manifest.rs], the object-store registry of views,
      and the probe of [capability.rs], which needs version tags. Of [log.rs]: the
      listing of staged objects by age and the mutex of a partition, whose effect,
      one call at a time, is an assumption of the theorem on ranges.
    - The adapters of [relation.rs] that read the columns of Arrow batches. Of
      [arrow_state.rs]: enum variants and integers of other widths in the serializer and
      deserializer, the reading of single fields, and the accounting of allocated bytes.
    - The SQL planner and what drives planned views: they work on the syntax
      trees of a third-party parser and the buffers of a columnar library.
    - Of the metadata service: the gRPC server and client and the SQL transport, which
      convert messages, the store over an object store, the reports of
      capabilities, and the batch read of demand metadata. The locks of a process are
      left out where they only order its own operations.
    - The HTTP API, the Kubernetes operator and the process entry points: request
      handling over the parts above. Of the control plane: the records of authority
      and readiness and the reconciliation plans.
    - Text of error messages where the code only stores it for a reader, time
      and memory use, and concurrency inside one call: independent reads that the
      source issues at once are issued one after the other. *)
From stdpp Require Export base list gmap strings.
From Stdlib Require Export ZArith Lia.

Open Scope Z_scope.
Set Default Proof Using "Type".

(** * Results *)

(** [Result<A, E>]. *)
Inductive result (E A : Type) : Type :=
| Ok (a : A)
| Err (e : E).
Arguments Ok {E A} a.
Arguments Err {E A} e.

#[export] Instance result_ret E : MRet (result E) := fun A a => Ok a.
#[export] Instance result_bind E : MBind (result E) := fun A B f m =>
  match m with Ok a => f a | Err e => Err e end.
#[export] Instance result_fmap E : FMap (result E) := fun A B f m =>
  match m with Ok a => Ok (f a) | Err e => Err e end.
#[export] Instance result_eq_dec `{EqDecision E, EqDecision A} :
  EqDecision (result E A).
Proof. solve_decision. Defined.

(** [Option::ok_or]. *)
Definition ok_or {E A} (e : E) (o : option A) : result E A :=
  match o with Some a => Ok a | None => Err e end.

(** [Result::map_err]. *)
Definition map_err {E F A} (f : E -> F) (r : result E A) : result F A :=
  match r with Ok a => Ok a | Err e => Err (f e) end.

(** [if cond { return Err(e) }]. *)
Definition fail_if {E} (b : bool) (e : E) : result E unit :=
  if b then Err e else Ok tt.

(** [for x in xs { state = step(state, x)?; }]. *)
Fixpoint try_fold {E A S} (f : S -> A -> result E S) (s : S) (l : list A) :
    result E S :=
  match l with
  | [] => Ok s
  | x :: l => s' ← f s x; try_fold f s' l
  end.

(** [iter.map(f).collect::<Result<Vec<_>, _>>()]. *)
Fixpoint try_map {E A B} (f : A -> result E B) (l : list A) : result E (list B) :=
  match l with
  | [] => Ok []
  | x :: l => y ← f x; ys ← try_map f l; Ok (y :: ys)
  end.

Definition is_ok {E A} (r : result E A) : bool := match r with Ok _ => true | Err _ => false end.

Section results.
Context {E : Type}.

Lemma is_ok_exists {A} (r : result E A) : is_ok r = true -> exists a, r = Ok a.
Proof. destruct r; [eauto|done]. Qed.

#[export] Instance Ok_inj {A} : Inj (=) (=) (@Ok E A).
Proof. by intros a b [= ->]. Qed.

Lemma Ok_bind {A B} (a : A) (f : A -> result E B) : Ok a ≫= f = f a.
Proof. done. Qed.
Lemma Ok_fmap {A B} (a : A) (f : A -> B) : f <$> (Ok a : result E A) = Ok (f a).
Proof. done. Qed.

Lemma bind_ok {A B} (m : result E A) (f : A -> result E B) b :
  m ≫= f = Ok b <-> exists a, m = Ok a /\ f a = Ok b.
Proof. destruct m; simpl; naive_solver. Qed.

Lemma bind_err {A B} (m : result E A) (f : A -> result E B) e :
  m ≫= f = Err e <-> m = Err e \/ exists a, m = Ok a /\ f a = Err e.
Proof. destruct m; simpl; naive_solver. Qed.

Lemma bind_unit_ok {A} (m : result E unit) (k : result E A) a :
  (_ ← m; k) = Ok a <-> m = Ok tt /\ k = Ok a.
Proof. destruct m as [[]|]; cbn; naive_solver. Qed.

Lemma ok_or_ok {A} (e : E) (o : option A) a : ok_or e o = Ok a <-> o = Some a.
Proof. destruct o; simpl; naive_solver. Qed.

Lemma ok_or_err {A} (e e' : E) (o : option A) :
  ok_or e o = Err e' <-> o = None /\ e' = e.
Proof. destruct o; simpl; naive_solver. Qed.

Lemma fail_if_ok b (e : E) u : fail_if b e = Ok u <-> b = false.
Proof. destruct b, u; simpl; naive_solver. Qed.

Lemma fail_if_err b (e e' : E) : fail_if b e = Err e' <-> b = true /\ e' = e.
Proof. destruct b; simpl; naive_solver. Qed.

Lemma try_fold_app {A S} (f : S -> A -> result E S) s l1 l2 :
  try_fold f s (l1 ++ l2) = s' ← try_fold f s l1; try_fold f s' l2.
Proof. revert s. induction l1 as [|x l1 IH]; intros s; simpl; [done|]. destruct (f s x); simpl; auto. Qed.

(** The loop rule: an invariant kept by every successful iteration holds when
    the loop returns. *)
Lemma try_fold_inv {A S} (P : S -> Prop) (f : S -> A -> result E S) l s s' :
  P s -> (forall s1 x s2, x ∈ l -> P s1 -> f s1 x = Ok s2 -> P s2) ->
  try_fold f s l = Ok s' -> P s'.
Proof.
  revert s. induction l as [|x l IH]; intros s Hs Hstep; simpl; [naive_solver|].
  intros (s1 & H1 & H2)%bind_ok. eapply IH; [| |exact H2].
  - eapply Hstep; [left|..]; eauto.
  - intros; eapply Hstep; [right|..]; eauto.
Qed.

(** Every iteration of a loop that returns succeeded. *)
Lemma try_fold_steps {A S} (f : S -> A -> result E S) l s s' x :
  try_fold f s l = Ok s' -> x ∈ l -> exists s1 s2, f s1 x = Ok s2.
Proof.
  revert s. induction l as [|y l IH]; intros s; simpl; [set_solver|].
  intros (s1 & H1 & H2)%bind_ok [->|Hx]%elem_of_cons; eauto.
Qed.

Lemma try_map_ok {A B} (f : A -> result E B) l ys :
  try_map f l = Ok ys <-> Forall2 (fun x y => f x = Ok y) l ys.
Proof.
  revert ys. induction l as [|x l IH]; intros ys; simpl.
  - split; [by intros [= <-]|]. by inversion 1.
  - rewrite bind_ok. setoid_rewrite bind_ok. setoid_rewrite IH. split.
    + intros (y & ? & ys' & ? & [= <-]). by constructor.
    + inversion 1; naive_solver.
Qed.

Lemma try_map_total {A B} (f : A -> result E B) l :
  (forall x, x ∈ l -> exists y, f x = Ok y) -> exists ys, try_map f l = Ok ys.
Proof.
  induction l as [|x l IH]; intros Hl; simpl; [eauto|].
  destruct (Hl x) as [y ->]; [left|]. destruct IH as [ys ->]; [|eexists; done].
  intros; apply Hl. by right.
Qed.

Lemma try_map_pure {A B} (f : A -> result E B) (g : A -> B) l :
  (forall x, x ∈ l -> f x = Ok (g x)) -> try_map f l = Ok (g <$> l).
Proof.
  intros Hl. apply try_map_ok. induction l as [|x l IH]; simpl; constructor.
  - apply Hl. left.
  - apply IH. intros; apply Hl. by right.
Qed.

End results.

(** Case analysis on the monadic structure of hypotheses. *)
Ltac simplify_res_step :=
  match goal with
  | H : _ ≫= _ = Ok _ |- _ =>
      let x := fresh "x" in apply bind_ok in H as (x & ? & H)
  | H : ok_or _ _ = Ok _ |- _ => apply ok_or_ok in H
  | H : fail_if _ _ = Ok _ |- _ => apply fail_if_ok in H
  | H : Ok _ = Ok _ |- _ => injection H as H
  | H : Err _ = Err _ |- _ => injection H as H
  | H : Ok _ = Err _ |- _ => discriminate H
  | H : Err _ = Ok _ |- _ => discriminate H
  end.
Ltac simplify_res := repeat (simplify_res_step; simplify_eq/=).

(** * Machine integers *)

(** A value of a [w]-bit integer type is a [Z] in the type's range; every
    operation that can leave the range says what the source does then. *)
Definition u32_max : Z := 2 ^ 32 - 1.
Definition u64_max : Z := 2 ^ 64 - 1.
Definition i64_min : Z := - 2 ^ 63.
Definition i64_max : Z := 2 ^ 63 - 1.
Definition i128_min : Z := - 2 ^ 127.
Definition i128_max : Z := 2 ^ 127 - 1.

Definition in_range (lo hi z : Z) : bool := (lo <=? z) && (z <=? hi).
Definition is_u32 (z : Z) : bool := in_range 0 u32_max z.
Definition is_u64 (z : Z) : bool := in_range 0 u64_max z.
Definition is_i64 (z : Z) : bool := in_range i64_min i64_max z.
Definition is_i128 (z : Z) : bool := in_range i128_min i128_max z.

(** [checked_add], [checked_mul], [try_into] and the like: the exact result
    when it fits the type. *)
Definition checked_u64 (z : Z) : option Z := if is_u64 z then Some z else None.
Definition checked_i64 (z : Z) : option Z := if is_i64 z then Some z else None.
Definition checked_i128 (z : Z) : option Z := if is_i128 z then Some z else None.

(** [u64::saturating_add], [u64::saturating_sub], [wrapping_add(1)]. *)
Definition saturating_add_u64 (a b : Z) : Z := Z.min u64_max (a + b).
Definition saturating_sub_u64 (a b : Z) : Z := Z.max 0 (a - b).
Definition wrapping_add_u64 (a b : Z) : Z := (a + b) mod 2 ^ 64.

Ltac unfold_ints :=
  unfold is_u32, is_u64, is_i64, is_i128, in_range, saturating_add_u64,
    saturating_sub_u64, u32_max, u64_max, i64_min, i64_max, i128_min, i128_max in *.

Lemma in_range_true lo hi z : in_range lo hi z = true <-> lo <= z <= hi.
Proof. unfold in_range. rewrite andb_true_iff, !Z.leb_le. done. Qed.

Lemma checked_u64_some z z' : checked_u64 z = Some z' <-> z' = z /\ is_u64 z = true.
Proof. unfold checked_u64. destruct (is_u64 z); naive_solver. Qed.
Lemma checked_i64_some z z' : checked_i64 z = Some z' <-> z' = z /\ is_i64 z = true.
Proof. unfold checked_i64. destruct (is_i64 z); naive_solver. Qed.
Lemma checked_i128_some z z' : checked_i128 z = Some z' <-> z' = z /\ is_i128 z = true.
Proof. unfold checked_i128. destruct (is_i128 z); naive_solver. Qed.

(** Decides range side conditions: booleans to inequalities, then [lia]. *)
Ltac range :=
  repeat match goal with
  | H : checked_u64 _ = Some _ |- _ => apply checked_u64_some in H as [-> H]
  | H : checked_i64 _ = Some _ |- _ => apply checked_i64_some in H as [-> H]
  | H : checked_i128 _ = Some _ |- _ => apply checked_i128_some in H as [-> H]
  end;
  unfold_ints; rewrite ?andb_true_iff, ?Z.leb_le, ?Z.leb_gt, ?Z.ltb_lt in *; lia.

(** * Sums over lists *)

Lemma head_fmap {A B} (f : A -> B) (l : list A) : head (f <$> l) = f <$> head l.
Proof. by destruct l. Qed.

Lemma omap_fmap {A B C} (g : A -> B) (f : B -> option C) (l : list A) :
  omap f (g <$> l) = omap (fun x => f (g x)) l.
Proof. induction l as [|x l IH]; [done|]. csimpl. by rewrite IH. Qed.

Fixpoint zsum (l : list Z) : Z :=
  match l with [] => 0 | x :: l => x + zsum l end.

Lemma zsum_app l1 l2 : zsum (l1 ++ l2) = zsum l1 + zsum l2.
Proof. induction l1; simpl; lia. Qed.

#[export] Instance zsum_perm : Proper ((≡ₚ) ==> (=)) zsum.
Proof. intros l1 l2 Hl. induction Hl; simpl; lia. Qed.

Lemma zsum_ext {A} (f g : A -> Z) l :
  (forall x, x ∈ l -> f x = g x) -> zsum (f <$> l) = zsum (g <$> l).
Proof.
  induction l as [|x l IH]; intros Hl; [done|]. rewrite !fmap_cons; simpl.
  rewrite (Hl x) by left. rewrite IH; [done|]. intros; apply Hl; by right.
Qed.

Lemma zsum_zero {A} (f : A -> Z) l :
  (forall x, x ∈ l -> f x = 0) -> zsum (f <$> l) = 0.
Proof.
  intros Hl. rewrite (zsum_ext f (fun _ => 0)) by done. clear. by induction l.
Qed.

Lemma zsum_add {A} (f g : A -> Z) l :
  zsum ((fun x => f x + g x) <$> l) = zsum (f <$> l) + zsum (g <$> l).
Proof. induction l as [|x l IH]; rewrite ?fmap_cons; simpl; lia. Qed.

Lemma zsum_mul {A} c (f : A -> Z) l :
  zsum ((fun x => c * f x) <$> l) = c * zsum (f <$> l).
Proof. induction l as [|x l IH]; rewrite ?fmap_cons; simpl; lia. Qed.

Lemma zsum_swap {A B} (f : A -> B -> Z) l l' :
  zsum ((fun x => zsum (f x <$> l')) <$> l) = zsum ((fun y => zsum ((fun x => f x y) <$> l)) <$> l').
Proof.
  induction l as [|x l IH]; rewrite ?fmap_cons; simpl.
  - symmetry. by apply zsum_zero.
  - rewrite IH, <-zsum_add. apply zsum_ext. done.
Qed.

Create HintDb velorix.
Create Rewrite HintDb velorix.
#[export] Hint Rewrite zsum_app @zsum_add @zsum_mul : velorix.
