(* ===== verification/BTree.v ===== *)
(** [std::collections::BTreeMap]: finite maps whose iteration order is the
    order of the keys.

    A [btree K A] is a strictly sorted association list. It is a [FinMap], so
    every lemma and tactic of the finite-map library applies to it, and
    [entries] gives what [iter()] gives: the bindings in key order. *)
From stdpp Require Import sorting fin_maps.
From S2P Require Import Prelude.

(** * Total orders: the [Ord] trait *)

Class Ord (K : Type) := {
  cmp : K -> K -> comparison;
  cmp_eq x y : cmp x y = Eq <-> x = y;
  cmp_antisym x y : cmp y x = CompOpp (cmp x y);
  cmp_lt_trans x y z : cmp x y = Lt -> cmp y z = Lt -> cmp x z = Lt
}.

Definition ltb `{Ord K} (x y : K) : bool :=
  match cmp x y with Lt => true | _ => false end.
Definition leb `{Ord K} (x y : K) : bool :=
  match cmp x y with Gt => false | _ => true end.

#[export] Instance Z_ord : Ord Z.
Proof.
  refine {| cmp := Z.compare |}.
  - apply Z.compare_eq_iff.
  - intros; apply Z.compare_antisym.
  - intros x y z. rewrite !Z.compare_lt_iff. lia.
Defined.

(** Bytes of a [String] compare as unsigned integers. *)
Definition ascii_cmp (x y : Ascii.ascii) : comparison :=
  N.compare (Ascii.N_of_ascii x) (Ascii.N_of_ascii y).

Lemma ascii_cmp_eq x y : ascii_cmp x y = Eq <-> x = y.
Proof.
  unfold ascii_cmp. rewrite N.compare_eq_iff. split; [|congruence].
  intros Heq. rewrite <-(Ascii.ascii_N_embedding x), <-(Ascii.ascii_N_embedding y). congruence.
Qed.
Lemma ascii_cmp_antisym x y : ascii_cmp y x = CompOpp (ascii_cmp x y).
Proof. apply N.compare_antisym. Qed.
Lemma ascii_cmp_trans x y z : ascii_cmp x y = Lt -> ascii_cmp y z = Lt -> ascii_cmp x z = Lt.
Proof. unfold ascii_cmp. rewrite !N.compare_lt_iff. lia. Qed.

#[export] Instance ascii_ord : Ord Ascii.ascii := {|
  cmp := ascii_cmp; cmp_eq := ascii_cmp_eq; cmp_antisym := ascii_cmp_antisym; cmp_lt_trans := ascii_cmp_trans
|}.

(** Lexicographic composition, as [#[derive(Ord)]] and [Ordering::then_with]. *)
Definition lex (c d : comparison) : comparison :=
  match c with Eq => d | _ => c end.

Section prod_order.
Context `{Ord A, Ord B}.
Definition prod_cmp (x y : A * B) : comparison := lex (cmp x.1 y.1) (cmp x.2 y.2).

Lemma prod_cmp_eq x y : prod_cmp x y = Eq <-> x = y.
Proof.
  unfold prod_cmp. destruct x as [a b], y as [a' b']; simpl. destruct (cmp a a') eqn:Ha; simpl.
  - apply cmp_eq in Ha as ->. rewrite cmp_eq. naive_solver.
  - split; [done|]. intros [= -> ->]. by rewrite (proj2 (cmp_eq a' a')) in Ha.
  - split; [done|]. intros [= -> ->]. by rewrite (proj2 (cmp_eq a' a')) in Ha.
Qed.
Lemma prod_cmp_antisym x y : prod_cmp y x = CompOpp (prod_cmp x y).
Proof.
  unfold prod_cmp. rewrite (cmp_antisym x.1 y.1), (cmp_antisym x.2 y.2). by destruct (cmp x.1 y.1).
Qed.
Lemma prod_cmp_trans x y z : prod_cmp x y = Lt -> prod_cmp y z = Lt -> prod_cmp x z = Lt.
Proof.
  unfold prod_cmp. destruct x as [a b], y as [a' b'], z as [a'' b'']; simpl.
  destruct (cmp a a') eqn:Ha; simpl; [| |done].
  - apply cmp_eq in Ha as ->. destruct (cmp a' a''); simpl; try done. apply cmp_lt_trans.
  - intros _. destruct (cmp a' a'') eqn:Ha'; simpl; [| |done].
    + apply cmp_eq in Ha' as ->. by rewrite Ha.
    + by rewrite (cmp_lt_trans _ _ _ Ha Ha').
Qed.

#[export] Instance prod_ord : Ord (A * B) := {|
  cmp := prod_cmp; cmp_eq := prod_cmp_eq; cmp_antisym := prod_cmp_antisym; cmp_lt_trans := prod_cmp_trans
|}.
End prod_order.

Section list_order.
Context `{Ord A}.
Fixpoint list_cmp (x y : list A) : comparison :=
  match x, y with
  | [], [] => Eq
  | [], _ :: _ => Lt
  | _ :: _, [] => Gt
  | a :: x, b :: y => lex (cmp a b) (list_cmp x y)
  end.

Lemma list_cmp_eq x y : list_cmp x y = Eq <-> x = y.
Proof.
  revert y. induction x as [|a x IH]; intros [|b y]; simpl; try done.
  destruct (cmp a b) eqn:Hab; simpl.
  - apply cmp_eq in Hab as ->. rewrite IH. naive_solver.
  - split; [done|]. intros [= -> ->]. by rewrite (proj2 (cmp_eq b b)) in Hab.
  - split; [done|]. intros [= -> ->]. by rewrite (proj2 (cmp_eq b b)) in Hab.
Qed.
Lemma list_cmp_antisym x y : list_cmp y x = CompOpp (list_cmp x y).
Proof.
  revert y. induction x as [|a x IH]; intros [|b y]; simpl; try done.
  rewrite (cmp_antisym a b), IH. by destruct (cmp a b).
Qed.
Lemma list_cmp_trans x y z : list_cmp x y = Lt -> list_cmp y z = Lt -> list_cmp x z = Lt.
Proof.
  revert y z. induction x as [|a x IH]; intros [|b y] [|c z]; simpl; try done.
  destruct (cmp a b) eqn:Ha; simpl; [| |done].
  - apply cmp_eq in Ha as ->. destruct (cmp b c); simpl; try done. apply IH.
  - intros _. destruct (cmp b c) eqn:Ha'; simpl; [| |done].
    + apply cmp_eq in Ha' as ->. by rewrite Ha.
    + by rewrite (cmp_lt_trans _ _ _ Ha Ha').
Qed.

#[export] Instance list_ord : Ord (list A) := {|
  cmp := list_cmp; cmp_eq := list_cmp_eq; cmp_antisym := list_cmp_antisym; cmp_lt_trans := list_cmp_trans
|}.
End list_order.

Fixpoint string_cmp (x y : string) : comparison :=
  match x, y with
  | EmptyString, EmptyString => Eq
  | EmptyString, String _ _ => Lt
  | String _ _, EmptyString => Gt
  | String a x, String b y => lex (cmp a b) (string_cmp x y)
  end.

Lemma string_cmp_list x y :
  string_cmp x y = list_cmp (String.list_ascii_of_string x) (String.list_ascii_of_string y).
Proof. revert y. induction x as [|a x IH]; intros [|b y]; simpl; by rewrite ?IH. Qed.

Lemma list_ascii_of_string_inj x y :
  String.list_ascii_of_string x = String.list_ascii_of_string y -> x = y.
Proof.
  intros Heq. rewrite <-(String.string_of_list_ascii_of_string x), Heq.
  apply String.string_of_list_ascii_of_string.
Qed.

Lemma string_cmp_eq x y : string_cmp x y = Eq <-> x = y.
Proof.
  rewrite string_cmp_list, list_cmp_eq. split; [apply list_ascii_of_string_inj|by intros ->].
Qed.
Lemma string_cmp_antisym x y : string_cmp y x = CompOpp (string_cmp x y).
Proof. rewrite !string_cmp_list. apply list_cmp_antisym. Qed.
Lemma string_cmp_trans x y z : string_cmp x y = Lt -> string_cmp y z = Lt -> string_cmp x z = Lt.
Proof. rewrite !string_cmp_list. apply list_cmp_trans. Qed.

#[export] Instance string_ord : Ord string := {|
  cmp := string_cmp; cmp_eq := string_cmp_eq; cmp_antisym := string_cmp_antisym; cmp_lt_trans := string_cmp_trans
|}.

Section order.
Context `{Ord K}.
Implicit Types x y z : K.

Lemma cmp_refl x : cmp x x = Eq.
Proof. by apply cmp_eq. Qed.

Lemma ltb_lt x y : ltb x y = true <-> cmp x y = Lt.
Proof. unfold ltb. by destruct (cmp x y). Qed.

Lemma cmp_gt x y : cmp x y = Gt <-> cmp y x = Lt.
Proof. rewrite (cmp_antisym x y). destruct (cmp x y); simpl; split; congruence. Qed.

Lemma cmp_lt_ne x y : cmp x y = Lt -> x <> y.
Proof. intros Hlt ->. by rewrite cmp_refl in Hlt. Qed.

Lemma leb_cases x y : leb x y = true <-> cmp x y = Lt \/ x = y.
Proof.
  unfold leb. pose proof (cmp_eq x y) as Hxy. destruct (cmp x y); naive_solver.
Qed.

Lemma leb_total x y : leb x y = true \/ leb y x = true.
Proof. unfold leb. rewrite (cmp_antisym x y). destruct (cmp x y); auto. Qed.

Lemma leb_trans x y z : leb x y = true -> leb y z = true -> leb x z = true.
Proof.
  rewrite !leb_cases. intros [?|?] [?|?]; subst; eauto using cmp_lt_trans.
Qed.

Lemma leb_antisym x y : leb x y = true -> leb y x = true -> x = y.
Proof.
  rewrite !leb_cases. intros [Hxy|Hxy] [Hyx|Hyx]; try done.
  by rewrite <-cmp_gt, Hxy in Hyx.
Qed.

#[export] Instance ltb_trans' : Transitive (fun x y => cmp x y = Lt).
Proof. intros x y z. apply cmp_lt_trans. Qed.
End order.

(** * Strictly sorted association lists *)

Section alist.
Context `{Ord K} {A : Type}.
Implicit Types l : list (K * A).

(** [k] precedes every key of [l]. *)
Definition below (k : K) l : Prop := Forall (fun p => cmp k p.1 = Lt) l.

Fixpoint sortedb l : bool :=
  match l with
  | (k, _) :: (((k', _) :: _) as l') => ltb k k' && sortedb l'
  | _ => true
  end.

Fixpoint al_get (k : K) l : option A :=
  match l with
  | [] => None
  | (k', a) :: l =>
      match cmp k k' with Lt => None | Eq => Some a | Gt => al_get k l end
  end.

(** One pass to the position of [k]; [f] decides what stands there. *)
Fixpoint al_alter (f : option A -> option A) (k : K) l : list (K * A) :=
  match l with
  | [] => match f None with Some a => [(k, a)] | None => [] end
  | (k', a') :: l' =>
      match cmp k k' with
      | Lt => match f None with Some a => (k, a) :: l | None => l end
      | Eq => match f (Some a') with Some a => (k, a) :: l' | None => l' end
      | Gt => (k', a') :: al_alter f k l'
      end
  end.

Lemma sortedb_cons k a l :
  sortedb ((k, a) :: l) = true <-> below k l /\ sortedb l = true.
Proof.
  unfold below. revert k a. induction l as [|[k' a'] l IH]; intros k a.
  - simpl. naive_solver.
  - change (sortedb ((k, a) :: (k', a') :: l))
      with (ltb k k' && sortedb ((k', a') :: l)).
    rewrite andb_true_iff, ltb_lt, Forall_cons. simpl fst.
    specialize (IH k' a'). split; [|naive_solver].
    intros [Hlt Hs]. split; [split; [done|]|done].
    apply IH in Hs as [Hb _]. eapply Forall_impl; [exact Hb|].
    intros p. by apply cmp_lt_trans.
Qed.

Lemma below_alter f k k' l : cmp k k' = Lt -> below k l -> below k (al_alter f k' l).
Proof.
  unfold below. intros Hlt Hb. induction Hb as [|[k1 a1] l H1 Hb IH]; simpl.
  - destruct (f None); repeat constructor; done.
  - destruct (cmp k' k1); repeat case_match; repeat constructor; auto.
Qed.

Lemma al_get_below k l : below k l -> al_get k l = None.
Proof. intros [|[k' a] l' Hlt _]; simpl in *; [done|]. by rewrite Hlt. Qed.

Lemma sortedb_alter f k l : sortedb l = true -> sortedb (al_alter f k l) = true.
Proof.
  induction l as [|[k' a'] l IH]; intros Hs.
  - simpl. by destruct (f None).
  - pose proof Hs as [Hb Hs']%sortedb_cons. simpl. destruct (cmp k k') eqn:Hk.
    + apply cmp_eq in Hk as ->. destruct (f (Some a')); [|done].
      by apply sortedb_cons.
    + destruct (f None); [|done]. apply sortedb_cons. split; [|done].
      constructor; [done|]. eapply Forall_impl; [exact Hb|].
      intros p. by apply cmp_lt_trans.
    + apply sortedb_cons. split; [|auto]. apply below_alter; [by apply cmp_gt|done].
Qed.

Lemma al_get_alter f k l :
  sortedb l = true -> al_get k (al_alter f k l) = f (al_get k l).
Proof.
  induction l as [|[k' a'] l IH]; intros Hs; simpl.
  - destruct (f None); simpl; [by rewrite cmp_refl|done].
  - apply sortedb_cons in Hs as [Hb Hs]. destruct (cmp k k') eqn:Hk; simpl.
    + apply cmp_eq in Hk as ->. destruct (f (Some a')); simpl.
      * by rewrite cmp_refl.
      * by apply al_get_below.
    + destruct (f None) eqn:Hf; simpl; [by rewrite cmp_refl|]. by rewrite Hk.
    + rewrite Hk. auto.
Qed.

Lemma al_get_alter_ne f k j l :
  sortedb l = true -> k <> j -> al_get j (al_alter f k l) = al_get j l.
Proof.
  intros Hs Hne. induction l as [|[k' a'] l IH]; simpl.
  - destruct (f None); simpl; [|done].
    destruct (cmp j k) eqn:Hj; try done. by apply cmp_eq in Hj as ->.
  - apply sortedb_cons in Hs as [Hb Hs]. destruct (cmp k k') eqn:Hk; simpl.
    + apply cmp_eq in Hk as ->. destruct (cmp j k') eqn:Hj.
      * by apply cmp_eq in Hj as ->.
      * destruct (f (Some a')); simpl; [by rewrite Hj|]. apply al_get_below.
        eapply Forall_impl; [exact Hb|]. intros p; by apply cmp_lt_trans.
      * destruct (f (Some a')); simpl; by rewrite ?Hj.
    + destruct (f None); simpl; [|done].
      destruct (cmp j k) eqn:Hj; [by apply cmp_eq in Hj as ->| |done].
      by rewrite (cmp_lt_trans _ _ _ Hj Hk).
    + destruct (cmp j k'); auto.
Qed.

Lemma al_get_elem k a l : sortedb l = true -> al_get k l = Some a <-> (k, a) ∈ l.
Proof.
  induction l as [|[k' a'] l IH]; intros Hs; simpl; [set_solver|].
  apply sortedb_cons in Hs as [Hb Hs]. specialize (IH Hs).
  rewrite elem_of_cons, <-IH. destruct (cmp k k') eqn:Hk.
  - apply cmp_eq in Hk as ->. rewrite al_get_below by done. naive_solver.
  - rewrite al_get_below; [|eapply Forall_impl; [exact Hb|]; intros p; by apply cmp_lt_trans].
    split; [done|]. intros [[= <- <-]|]; [|done]. by rewrite cmp_refl in Hk.
  - split; [by right|]. intros [[= <- <-]|]; [|done]. by rewrite cmp_refl in Hk.
Qed.

Lemma al_ext l1 l2 :
  sortedb l1 = true -> sortedb l2 = true ->
  (forall k, al_get k l1 = al_get k l2) -> l1 = l2.
Proof.
  revert l2. induction l1 as [|[k1 a1] l1 IH]; intros [|[k2 a2] l2] Hs1 Hs2 Heq.
  - done.
  - specialize (Heq k2). simpl in Heq. by rewrite cmp_refl in Heq.
  - specialize (Heq k1). simpl in Heq. by rewrite cmp_refl in Heq.
  - apply sortedb_cons in Hs1 as [Hb1 Hs1]. apply sortedb_cons in Hs2 as [Hb2 Hs2].
    assert (k1 = k2) as <-.
    { pose proof (Heq k1) as E1. pose proof (Heq k2) as E2. simpl in E1, E2.
      rewrite cmp_refl in E1, E2. rewrite (cmp_antisym k1 k2) in E2.
      destruct (cmp k1 k2) eqn:Hk; simpl in *; [by apply cmp_eq|done|done]. }
    pose proof (Heq k1) as E. simpl in E. rewrite cmp_refl in E.
    injection E as <-. f_equal. apply IH; [done..|]. intros k.
    specialize (Heq k). simpl in Heq. destruct (cmp k k1) eqn:Hk; [| |done].
    + apply cmp_eq in Hk as ->. by rewrite !al_get_below.
    + rewrite !al_get_below; [done|..];
        (eapply Forall_impl; [eassumption|]; intros p; by apply cmp_lt_trans).
Qed.
End alist.

#[global] Arguments sortedb : simpl never.

(** * The map type *)

Record btree (K : Type) `{Ord K} (A : Type) := BTree {
  entries : list (K * A);
  entries_sorted : Is_true (sortedb entries)
}.
Arguments BTree {K _ A} _ _.
Arguments entries {K _ A} _.
Arguments entries_sorted {K _ A} _.

(** Sortedness proofs of closed maps evaluate to [I]. *)
Definition min_proof (b : bool) : Is_true b -> Is_true b :=
  match b with true => fun _ => I | false => fun p => p end.

Lemma to_Is_true b : b = true -> Is_true b.
Proof. by intros ->. Qed.
Lemma of_Is_true b : Is_true b -> b = true.
Proof. by destruct b. Qed.

Section btree.
Context `{Ord K}.

Definition mk {A} (l : list (K * A)) (Hl : sortedb l = true) : btree K A :=
  BTree l (min_proof _ (to_Is_true _ Hl)).

Lemma sorted_of {A} (m : btree K A) : sortedb (entries m) = true.
Proof. apply of_Is_true, entries_sorted. Qed.

Lemma btree_eq {A} (m1 m2 : btree K A) : entries m1 = entries m2 -> m1 = m2.
Proof.
  destruct m1 as [l1 H1], m2 as [l2 H2]; simpl. intros ->. f_equal. apply proof_irrel.
Qed.

Lemma sortedb_omap {A B} (f : K -> A -> option B) (l : list (K * A)) :
  sortedb l = true ->
  sortedb (omap (fun p => pair p.1 <$> f p.1 p.2) l) = true.
Proof.
  induction l as [|[k a] l IH]; intros Hs; [done|].
  apply sortedb_cons in Hs as [Hb Hs]. csimpl.
  destruct (f k a) eqn:Hf; simpl; [|by apply IH].
  apply sortedb_cons. split; [|by apply IH]. unfold below.
  rewrite Forall_forall. intros p. rewrite list_elem_of_omap. unfold below in Hb.
  rewrite Forall_forall in Hb. intros ([k' a'] & Hin & Hp). simpl in *.
  destruct (f k' a'); simplify_eq/=. by apply Hb in Hin.
Qed.

#[export] Instance btree_lookup {A} : Lookup K A (btree K A) :=
  fun k m => al_get k (entries m).
#[export] Instance btree_empty {A} : Empty (btree K A) := mk [] eq_refl.
#[export] Instance btree_partial_alter {A} : PartialAlter K A (btree K A) :=
  fun f k m => mk (al_alter f k (entries m)) (sortedb_alter f k _ (sorted_of m)).

(** [iter().filter_map(..).collect()] and its special cases. *)
Definition filter_map {A B} (f : K -> A -> option B) (m : btree K A) : btree K B :=
  mk _ (sortedb_omap f _ (sorted_of m)).
#[export] Instance btree_omap : OMap (btree K) :=
  fun A B f => filter_map (fun _ a => f a).
#[export] Instance btree_fmap : FMap (btree K) :=
  fun A B f => filter_map (fun _ a => Some (f a)).
#[export] Instance btree_merge : Merge (btree K) := fun A B C f m1 m2 =>
  foldr (fun k m => partial_alter (fun _ => diag_None f (m1 !! k) (m2 !! k)) k m) ∅
    ((entries m1).*1 ++ (entries m2).*1).
#[export] Instance btree_fold {A} : MapFold K A (btree K A) :=
  fun B f b m => foldr (fun p => f p.1 p.2) b (entries m).

Lemma elem_of_entries {A} (m : btree K A) k a : (k, a) ∈ entries m <-> m !! k = Some a.
Proof. symmetry. apply al_get_elem, sorted_of. Qed.

Lemma lookup_filter_map {A B} (f : K -> A -> option B) (m : btree K A) k :
  filter_map f m !! k = m !! k ≫= f k.
Proof.
  apply option_eq. intros b. rewrite <-elem_of_entries, bind_Some. simpl.
  rewrite list_elem_of_omap. setoid_rewrite <-elem_of_entries. split.
  - intros ([k' a] & Hin & Heq). simpl in Heq.
    destruct (f k' a) eqn:?; simplify_eq/=. eauto.
  - intros (a & Hin & Hf). exists (k, a). simpl. by rewrite Hf.
Qed.

Lemma key_not_elem {A} (m : btree K A) k : k ∉ (entries m).*1 -> m !! k = None.
Proof.
  intros Hk. destruct (m !! k) eqn:Hm; [|done].
  apply elem_of_entries in Hm. destruct Hk. by apply (list_elem_of_fmap_2 fst) in Hm.
Qed.
End btree.

Section finmap.
Context `{Ord K, EqDecision K}.

Lemma lookup_btree_merge {A B C} (f : option A -> option B -> option C)
    (m1 : btree K A) (m2 : btree K B) k :
  merge f m1 m2 !! k = diag_None f (m1 !! k) (m2 !! k).
Proof.
  unfold merge, btree_merge.
  assert (forall ks, foldr (fun k m => partial_alter
      (fun _ => diag_None f (m1 !! k) (m2 !! k)) k m) (∅ : btree K C) ks !! k
    = if decide (k ∈ ks) then diag_None f (m1 !! k) (m2 !! k) else None) as Hks.
  { induction ks as [|k' ks IH]; simpl; [done|].
    unfold lookup, btree_lookup, partial_alter at 1, btree_partial_alter; simpl.
    destruct (decide (k' = k)) as [->|Hne].
    - rewrite al_get_alter by apply sorted_of.
      rewrite decide_True by left. done.
    - rewrite al_get_alter_ne by (try apply sorted_of; done).
      etrans; [exact IH|]. repeat case_decide; set_solver. }
  rewrite Hks. case_decide as Hk; [done|].
  rewrite elem_of_app in Hk. rewrite !key_not_elem by naive_solver. done.
Qed.

#[export] Instance btree_finmap : FinMap K (btree K).
Proof.
  split.
  - intros A m1 m2 Heq. apply btree_eq, al_ext; [apply sorted_of..|apply Heq].
  - done.
  - intros A f m k. apply al_get_alter, sorted_of.
  - intros A f m k j Hne. by apply al_get_alter_ne; [apply sorted_of|].
  - intros A B f m k. unfold fmap at 1, btree_fmap. rewrite lookup_filter_map.
    by destruct (m !! k).
  - intros A B f m k. unfold omap at 1, btree_omap. by rewrite lookup_filter_map.
  - intros A B C f m1 m2 k. apply lookup_btree_merge.
  - done.
  - intros A P Hemp Hins [l Hl]. induction l as [|[k a] l IH].
    + replace (BTree [] Hl) with (∅ : btree K A) by by apply btree_eq. done.
    + pose proof Hl as [Hb Hs]%of_Is_true%sortedb_cons.
      set (m := mk l Hs). replace (BTree ((k, a) :: l) Hl) with (<[k:=a]> m).
      2:{ apply btree_eq; simpl. destruct l as [|[k' a'] l]; [done|].
          simpl. inversion Hb as [|? ? Hk]; simplify_eq/=. by rewrite Hk. }
      apply Hins.
      * by apply al_get_below.
      * intros A' B f g b x'. unfold map_fold, btree_fold.
        unfold insert, map_insert, partial_alter, btree_partial_alter; simpl.
        destruct l as [|[k' a'] l']; [done|]. csimpl.
        inversion Hb as [|? ? Hk]; simplify_eq/=. by rewrite Hk.
      * subst m. replace (mk l Hs) with (BTree l (to_Is_true _ Hs)) by by apply btree_eq.
        apply IH.
Qed.

(** [iter()] yields the bindings of the map, each once. *)
Lemma entries_NoDup {A} (m : btree K A) : NoDup (entries m).*1.
Proof.
  pose proof (sorted_of m) as Hs. revert Hs. generalize (entries m). clear m.
  induction l as [|[k a] l IH]; intros Hs; csimpl; [constructor|].
  apply sortedb_cons in Hs as [Hb Hs]. constructor; [|auto].
  intros ([k' a'] & -> & Hin)%list_elem_of_fmap. unfold below in Hb.
  rewrite Forall_forall in Hb. apply Hb in Hin. simpl in Hin. by rewrite cmp_refl in Hin.
Qed.

Lemma entries_StronglySorted {A} (m : btree K A) :
  StronglySorted (fun p q => cmp p.1 q.1 = Lt) (entries m).
Proof.
  pose proof (sorted_of m) as Hs. revert Hs. generalize (entries m). clear m.
  induction l as [|[k a] l IH]; intros Hs; [constructor|].
  apply sortedb_cons in Hs as [Hb Hs]. constructor; [auto|exact Hb].
Qed.

Lemma map_to_list_entries {A} (m : btree K A) : map_to_list m ≡ₚ entries m.
Proof.
  apply NoDup_Permutation.
  - apply NoDup_map_to_list.
  - eapply NoDup_fmap_1, entries_NoDup.
  - intros [k a]. by rewrite elem_of_map_to_list, elem_of_entries.
Qed.

Lemma entries_empty_iff {A} (m : btree K A) : entries m = [] <-> m = ∅.
Proof. split; [intros; by apply btree_eq|by intros ->]. Qed.

Lemma entries_filter_map {A B} (f : K -> A -> option B) (m : btree K A) :
  entries (filter_map f m) = omap (fun p => pair p.1 <$> f p.1 p.2) (entries m).
Proof. done. Qed.

Lemma entries_fmap {A B} (f : A -> B) (m : btree K A) :
  entries (f <$> m) = prod_map id f <$> entries m.
Proof.
  change (f <$> m) with (filter_map (fun _ a => Some (f a)) m). rewrite entries_filter_map.
  induction (entries m) as [|[k a] l IH]; [done|]. rewrite fmap_cons, <-IH. done.
Qed.

Lemma entries_insert_perm {A} (m : btree K A) k a :
  m !! k = None -> entries (<[k:=a]> m) ≡ₚ (k, a) :: entries m.
Proof. intros Hk. by rewrite <-!map_to_list_entries, map_to_list_insert. Qed.

(** Two sorted maps with the same bindings iterate alike. *)
Lemma entries_ext {A} (m1 m2 : btree K A) :
  entries m1 = entries m2 <-> forall k, m1 !! k = m2 !! k.
Proof.
  split; [|intros Heq; by rewrite (map_eq m1 m2)].
  intros Heq k. unfold lookup, btree_lookup. by rewrite Heq.
Qed.

(** [for (k, v) in map { .. }], where each iteration changes what [get] reads at
    its own key only; fallible iterations stop at the first error. *)
Lemma try_fold_entries {E A S B} (get : S -> K -> B) (upd : K -> B -> A -> B)
    (step : S -> K * A -> result E S) (m : btree K A) s s' k :
  (forall s p s' k, p ∈ entries m -> step s p = Ok s' ->
     get s' k = if decide (k = p.1) then upd k (get s k) p.2 else get s k) ->
  try_fold step s (entries m) = Ok s' ->
  get s' k = match m !! k with Some a => upd k (get s k) a | None => get s k end.
Proof.
  intros Hstep Hrun. pose proof (entries_NoDup m) as Hnd.
  assert (Hgen : forall l s, (forall p, p ∈ l -> p ∈ entries m) -> NoDup l.*1 ->
    try_fold step s l = Ok s' ->
    (forall a, (k, a) ∈ l -> get s' k = upd k (get s k) a) /\
    (k ∉ l.*1 -> get s' k = get s k)).
  { clear Hrun s Hnd. induction l as [|[k' a'] l IH]; intros s Hsub Hnd Hrun; simpl in Hrun.
    - injection Hrun as <-. set_solver.
    - apply bind_ok in Hrun as (s1 & H1 & Hrun).
      change (NoDup (k' :: l.*1)) in Hnd. apply NoDup_cons in Hnd as [Hk' Hl].
      destruct (IH s1) as [Hin Hout]; [intros; apply Hsub; by right|done..|].
      specialize (Hstep s (k', a') s1 k (Hsub _ ltac:(left)) H1). simpl in Hstep. split.
      + intros a [[= -> ->]|Ha]%elem_of_cons.
        * rewrite decide_True in Hstep by done. by rewrite Hout.
        * rewrite decide_False in Hstep; [by rewrite (Hin a), Hstep|].
          intros ->. apply Hk'. by apply (list_elem_of_fmap_2 fst l (k', a)).
      + change (((k', a') :: l).*1) with (k' :: l.*1). intros [Hne Hk]%not_elem_of_cons.
        rewrite decide_False in Hstep by done. by rewrite Hout. }
  destruct (Hgen (entries m) s) as [Hin Hout]; [done..|]. destruct (m !! k) as [a|] eqn:Hk.
  - apply Hin. by apply elem_of_entries.
  - apply Hout. intros ([k' a] & -> & Ha%elem_of_entries)%list_elem_of_fmap_1. simpl in *. congruence.
Qed.

(** Such a loop succeeds when every iteration does on the initial value at its key. *)
Lemma try_fold_entries_total {E A S B} (get : S -> K -> B) (step : S -> K * A -> result E S)
    (m : btree K A) s0 :
  (forall s p, p ∈ entries m -> get s p.1 = get s0 p.1 -> exists s', step s p = Ok s') ->
  (forall s p s' k, step s p = Ok s' -> k <> p.1 -> get s' k = get s k) ->
  exists s', try_fold step s0 (entries m) = Ok s'.
Proof.
  intros Hok Hloc. pose proof (entries_NoDup m) as Hnd.
  assert (Hgen : forall l s, (forall p, p ∈ l -> p ∈ entries m) -> NoDup l.*1 ->
    (forall k, k ∈ l.*1 -> get s k = get s0 k) -> exists s', try_fold step s l = Ok s').
  { clear Hnd. induction l as [|[k a] l IH]; intros s Hsub Hnd Hget; simpl; [eauto|].
    change (((k, a) :: l).*1) with (k :: l.*1) in *. apply NoDup_cons in Hnd as [Hk Hnd].
    destruct (Hok s (k, a)) as [s1 H1]; [apply Hsub; left|apply Hget; left|].
    rewrite H1. apply IH; [intros; apply Hsub; by right|done|].
    intros k' Hk'. rewrite (Hloc _ _ _ k' H1) by (simpl; intros ->; done). apply Hget. by right. }
  by apply (Hgen (entries m) s0).
Qed.

Lemma foldl_entries {A S B} (get : S -> K -> B) (upd : B -> A -> B) (step : S -> K * A -> S)
    (m : btree K A) s k :
  (forall s p k, get (step s p) k = if decide (k = p.1) then upd (get s k) p.2 else get s k) ->
  get (foldl step s (entries m)) k =
    match m !! k with Some a => upd (get s k) a | None => get s k end.
Proof.
  intros Hstep.
  apply (try_fold_entries (E := unit) get (fun _ => upd) (fun s p => Ok (step s p))).
  - intros s1 p s2 k' _ [= <-]. apply Hstep.
  - generalize (entries m). intros l. revert s. induction l as [|p l IH]; intros s; simpl; [done|apply IH].
Qed.

(** A loop that inserts the bindings of a map, one at a time, rebuilds it. *)
Lemma rebuild {E A S B} (inj : btree K A -> S) (g : K * A -> B) (f : S -> B -> result E S) (m : btree K A) :
  (forall acc k a, m !! k = Some a -> acc !! k = None ->
     f (inj acc) (g (k, a)) = Ok (inj (<[k:=a]> acc))) ->
  try_fold f (inj ∅) (g <$> entries m) = Ok (inj m).
Proof.
  intros Hf.
  assert (Hgen : forall l acc, (forall p, p ∈ l -> p ∈ entries m) -> NoDup l.*1 ->
    (forall k, k ∈ l.*1 -> acc !! k = None) ->
    try_fold f (inj acc) (g <$> l) = Ok (inj (foldl (fun acc p => <[p.1:=p.2]> acc) acc l))).
  { induction l as [|[k a] l IH]; intros acc Hsub Hnd Hfresh; [done|].
    rewrite fmap_cons. cbn [try_fold foldl fst snd].
    change (((k, a) :: l).*1) with (k :: l.*1) in *. apply NoDup_cons in Hnd as [Hk Hnd].
    rewrite Hf; [|by apply elem_of_entries, Hsub; left|by apply Hfresh; left].
    rewrite Ok_bind. apply IH; [by intros; apply Hsub; right|done|].
    intros k' Hk'. rewrite lookup_insert_ne by (intros ->; done). apply Hfresh. by right. }
  rewrite Hgen; [|done|apply entries_NoDup|intros; apply lookup_empty].
  do 2 f_equal. apply map_eq. intros k.
  rewrite (foldl_entries (fun s k => s !! k) (fun _ a => Some a)).
  - rewrite lookup_empty. by destruct (m !! k).
  - intros s [k' a] k''. simpl. destruct (decide (k'' = k')) as [->|];
      [apply lookup_insert_eq|by apply lookup_insert_ne].
Qed.

(** The first binding is the least, the last the greatest. *)
Lemma entries_head {A} (m : btree K A) k a k' :
  head (entries m) = Some (k, a) -> is_Some (m !! k') -> m !! k = Some a /\ leb k k' = true.
Proof.
  intros Hhd [a' Ha'%elem_of_entries]. pose proof (entries_StronglySorted m) as Hs.
  rewrite <-elem_of_entries. destruct (entries m) as [|[k1 a1] l]; [done|]. injection Hhd as -> ->.
  split; [left|]. apply StronglySorted_inv in Hs as [_ Hs]. rewrite Forall_forall in Hs.
  apply leb_cases. apply elem_of_cons in Ha' as [[= -> _]|Hin]; [by right|left; by apply Hs in Hin].
Qed.

Lemma entries_last {A} (m : btree K A) k a k' :
  last (entries m) = Some (k, a) -> is_Some (m !! k') -> m !! k = Some a /\ leb k' k = true.
Proof.
  intros Hlast [a' Ha'%elem_of_entries]. pose proof (entries_StronglySorted m) as Hs.
  rewrite <-elem_of_entries. revert Hlast Ha' Hs. induction (entries m) as [|[k1 a1] l IH]; [done|].
  intros Hlast Ha' Hs. apply StronglySorted_inv in Hs as [Hs Hall]. rewrite Forall_forall in Hall.
  destruct l as [|p l].
  - injection Hlast as -> ->. split; [left|]. apply list_elem_of_singleton in Ha' as [= -> _].
    apply leb_cases. by right.
  - assert (Hin : (k, a) ∈ p :: l) by (apply last_Some_elem_of; exact Hlast).
    split; [by right|]. apply elem_of_cons in Ha' as [[= -> _]|Ha'].
    + apply leb_cases. left. by apply Hall in Hin.
    + by apply IH.
Qed.

(** * Sums over a map *)

Definition msum {A} (f : K -> A -> Z) (m : btree K A) : Z :=
  zsum ((fun p => f p.1 p.2) <$> entries m).

Lemma msum_empty {A} (f : K -> A -> Z) : msum f ∅ = 0.
Proof. done. Qed.

Lemma msum_insert_new {A} (f : K -> A -> Z) m k a :
  m !! k = None -> msum f (<[k:=a]> m) = f k a + msum f m.
Proof. intros Hk. unfold msum. by rewrite entries_insert_perm. Qed.

Lemma msum_delete {A} (f : K -> A -> Z) m k :
  msum f (delete k m) = msum f m - default 0 (f k <$> m !! k).
Proof.
  destruct (m !! k) as [a|] eqn:Hk; simpl.
  - rewrite <-(insert_id m k a Hk) at 2. rewrite <-insert_delete_eq.
    rewrite msum_insert_new by apply lookup_delete_eq. lia.
  - rewrite delete_id by done. lia.
Qed.

Lemma msum_insert {A} (f : K -> A -> Z) m k a :
  msum f (<[k:=a]> m) = msum f m - default 0 (f k <$> m !! k) + f k a.
Proof.
  rewrite <-insert_delete_eq, msum_insert_new by apply lookup_delete_eq.
  rewrite msum_delete. lia.
Qed.

Lemma msum_ext {A} (f g : K -> A -> Z) m :
  (forall k a, m !! k = Some a -> f k a = g k a) -> msum f m = msum g m.
Proof.
  intros Heq. apply zsum_ext. intros [k a] Hin. apply Heq. by apply elem_of_entries.
Qed.

Lemma msum_zero {A} (f : K -> A -> Z) m :
  (forall k a, m !! k = Some a -> f k a = 0) -> msum f m = 0.
Proof.
  intros Heq. apply zsum_zero. intros [k a] Hin. apply Heq. by apply elem_of_entries.
Qed.

Lemma msum_only {A} (f : K -> A -> Z) m k :
  (forall j a, j <> k -> m !! j = Some a -> f j a = 0) ->
  msum f m = default 0 (f k <$> m !! k).
Proof.
  intros Hz. destruct (m !! k) as [a|] eqn:Hk; simpl.
  - rewrite <-(insert_id m k a Hk), <-insert_delete_eq.
    rewrite msum_insert_new by apply lookup_delete_eq.
    rewrite msum_zero; [lia|]. intros j a' [? ?]%lookup_delete_Some. eauto.
  - apply msum_zero. intros j a' Hj. apply (Hz j); [congruence|done].
Qed.
End finmap.
#[global] Arguments btree_lookup : simpl never.
#[global] Arguments btree_partial_alter : simpl never.
#[global] Arguments btree_fmap : simpl never.
#[global] Arguments btree_omap : simpl never.
#[global] Arguments btree_merge : simpl never.

(** * Stable sorting: [sort_by_key], [sort] *)

Section sorting.
Context {A : Type}.

Fixpoint insert_by (le : A -> A -> bool) (x : A) (l : list A) : list A :=
  match l with
  | [] => [x]
  | y :: l' => if le x y then x :: l else y :: insert_by le x l'
  end.

Definition sort_by (le : A -> A -> bool) (l : list A) : list A :=
  foldr (insert_by le) [] l.

Definition sort_on `{Ord K} (key : A -> K) : list A -> list A :=
  sort_by (fun x y => leb (key x) (key y)).

Lemma insert_by_perm le x l : insert_by le x l ≡ₚ x :: l.
Proof.
  induction l as [|y l IH]; simpl; [done|]. destruct (le x y); [done|].
  rewrite IH. apply perm_swap.
Qed.

Lemma sort_by_perm le l : sort_by le l ≡ₚ l.
Proof. induction l as [|x l IH]; simpl; [done|]. by rewrite insert_by_perm, IH. Qed.

Context `{Ord K} (key : A -> K).
Abbreviation le_key := (fun x y => leb (key x) (key y) = true).

Lemma sort_on_perm l : sort_on key l ≡ₚ l.
Proof. apply sort_by_perm. Qed.

Lemma sort_on_sorted l : StronglySorted le_key (sort_on key l).
Proof.
  unfold sort_on. induction l as [|x l IH]; simpl; [constructor|].
  induction IH as [|y l' Hs IH' Hy]; simpl; [repeat constructor|].
  destruct (leb (key x) (key y)) eqn:Hxy; constructor.
  - by constructor.
  - constructor; [done|]. eapply Forall_impl; [exact Hy|]. intros z; by apply leb_trans.
  - done.
  - rewrite Forall_forall in *. intros z. rewrite insert_by_perm, elem_of_cons.
    intros [->|Hz]; [|by apply Hy]. destruct (leb_total (key x) (key y)); congruence.
Qed.

(** Sorting forgets the order of the input, when no two elements share a key. *)
Lemma sort_on_ext l1 l2 :
  l1 ≡ₚ l2 -> NoDup (key <$> l1) -> sort_on key l1 = sort_on key l2.
Proof.
  intros Hp Hnd. eapply StronglySorted_unique_strong; [|apply sort_on_sorted..|].
  - intros x y Hx%(elem_of_Permutation_proper _ _ _ (sort_on_perm l1))
      Hy%(elem_of_Permutation_proper _ _ _ (sort_on_perm l2)) Hxy Hyx.
    rewrite <-Hp in Hy. apply list_elem_of_lookup in Hx as [i Hi], Hy as [j Hj].
    assert (key x = key y) as Hkey by by apply leb_antisym.
    assert (i = j) as <-; [|congruence].
    eapply NoDup_lookup; [exact Hnd| |]; rewrite list_lookup_fmap.
    + by rewrite Hi.
    + rewrite Hj. simpl. by rewrite Hkey.
  - by rewrite !sort_on_perm.
Qed.
End sorting.

(** Sorting a list of [Ord] elements: no distinctness is needed. *)
Lemma sort_ext `{Ord K} (l1 l2 : list K) :
  l1 ≡ₚ l2 -> sort_on id l1 = sort_on id l2.
Proof.
  intros Hp. eapply StronglySorted_unique_strong; [|apply sort_on_sorted..|].
  - intros x y _ _. apply leb_antisym.
  - by rewrite !sort_on_perm.
Qed.

(** [map] commutes with sorting, when it keeps the order or the keys. *)
Lemma sort_by_fmap {A B} (f : A -> B) leA leB (l : list A) :
  (forall x y, leB (f x) (f y) = leA x y) -> sort_by leB (f <$> l) = f <$> sort_by leA l.
Proof.
  intros Hk. induction l as [|x l IH]; [done|]. rewrite fmap_cons. cbn [sort_by foldr].
  change (foldr _ [] (f <$> l)) with (sort_by leB (f <$> l)).
  change (foldr _ [] l) with (sort_by leA l).
  rewrite IH. generalize (sort_by leA l). clear -Hk.
  induction l as [|y l IH]; [done|]. csimpl. rewrite !Hk.
  destruct (leA x y); [done|]. csimpl. by rewrite IH.
Qed.

Lemma sort_on_fmap `{Ord K} {A B} (f : A -> B) (ka : A -> K) (kb : B -> K) (l : list A) :
  (forall x, kb (f x) = ka x) -> sort_on kb (f <$> l) = f <$> sort_on ka l.
Proof. intros Hk. apply sort_by_fmap. intros x y. by rewrite !Hk. Qed.

Lemma StronglySorted_omap {A B} (R : A -> A -> Prop) (S : B -> B -> Prop) (f : A -> option B) l :
  (forall x y x' y', x ∈ l -> y ∈ l -> f x = Some x' -> f y = Some y' -> R x y -> S x' y') ->
  StronglySorted R l -> StronglySorted S (omap f l).
Proof.
  intros HS Hl. induction Hl as [|x l Hl IH Hx]; csimpl; [constructor|].
  assert (IH' : StronglySorted S (omap f l)).
  { apply IH. intros; eapply HS; eauto; by right. }
  destruct (f x) as [x'|] eqn:Hfx; [|done]. constructor; [done|].
  apply Forall_forall. intros y' (y & Hy & Hfy)%list_elem_of_omap.
  apply (HS x y); [left|by right|done|done|by eapply Forall_forall in Hx].
Qed.
