(* ===== verification/Spans.v ===== *)
(** [velorix-core/src/processed_spans.rs]: sparse ordinal progress within one
    immutable artifact.

    [ProcessedSpans] keeps the processed ordinals [0 <= o < rows_total] as
    half-open spans. Operations that take [&mut self] return the new value; an
    [Err] leaves the old one in place. Ordinals are [u64]: the operations never
    leave the range, since every bound they build is a bound they were given. *)
From S2P Require Import Prelude.

Module ProcessedSpans.

Inductive ProcessedSpansError := InvalidBounds | NonCanonical.

Abbreviation span := (Z * Z)%type.

Record ProcessedSpans := Mk { rows_total : Z; spans : list span }.

Definition new (rows_total : Z) : ProcessedSpans := Mk rows_total [].

(** The loop of [from_spans] over [spans], carrying [previous_end]. *)
Fixpoint check_spans (rows_total : Z) (previous_end : option Z) (l : list span) :
    result ProcessedSpansError unit :=
  match l with
  | [] => Ok tt
  | (start, stop) :: l =>
      _ ← fail_if ((stop <=? start) || (rows_total <? stop)) InvalidBounds;
      _ ← fail_if (match previous_end with
                   | Some previous => start <=? previous
                   | None => false
                   end) NonCanonical;
      check_spans rows_total (Some stop) l
  end.

Definition from_spans (rows_total : Z) (l : list span) :
    result ProcessedSpansError ProcessedSpans :=
  _ ← check_spans rows_total None l; Ok (Mk rows_total l).

Definition from_prefix (rows_total count : Z) :
    result ProcessedSpansError ProcessedSpans :=
  _ ← fail_if (rows_total <? count) InvalidBounds;
  from_spans rows_total (if count =? 0 then [] else [(0, count)]).

(** One pass over the old spans: those before the new interval are kept, those
    that overlap or touch it are merged into it, and the first one after it
    takes over as the pending span. *)
Fixpoint merge_spans (merged_start merged_end : Z) (l : list span) : list span :=
  match l with
  | [] => [(merged_start, merged_end)]
  | (start, stop) :: l =>
      if stop <? merged_start then (start, stop) :: merge_spans merged_start merged_end l
      else if merged_end <? start then (merged_start, merged_end) :: merge_spans start stop l
      else merge_spans (Z.min merged_start start) (Z.max merged_end stop) l
  end.

Definition insert (self : ProcessedSpans) (start stop : Z) :
    result ProcessedSpansError ProcessedSpans :=
  _ ← fail_if ((stop <=? start) || (rows_total self <? stop)) InvalidBounds;
  Ok (Mk (rows_total self) (merge_spans start stop (spans self))).

Definition in_span (ordinal : Z) (s : span) : bool :=
  (s.1 <=? ordinal) && (ordinal <? s.2).

Definition contains (self : ProcessedSpans) (ordinal : Z) : bool :=
  existsb (in_span ordinal) (spans self).

(** The closure of the [fold]; [None] is the panic of either [expect]. *)
Definition add_span_len (sum : option Z) (s : span) : option Z :=
  sum ← sum; len ← checked_u64 (s.2 - s.1); checked_u64 (sum + len).

Definition processed_len (self : ProcessedSpans) : option Z :=
  foldl add_span_len (Some 0) (spans self).

Definition contiguous_frontier (self : ProcessedSpans) : Z :=
  match spans self with
  | (start, stop) :: _ => if start =? 0 then stop else 0
  | [] => 0
  end.

Definition is_complete (self : ProcessedSpans) : bool :=
  contiguous_frontier self =? rows_total self.

Fixpoint runs_from (cursor rows_total : Z) (l : list span) : list span :=
  match l with
  | [] => if cursor <? rows_total then [(cursor, rows_total)] else []
  | (start, stop) :: l =>
      (if cursor <? start then [(cursor, start)] else []) ++ runs_from stop rows_total l
  end.

Definition unprocessed_runs (self : ProcessedSpans) : list span :=
  runs_from 0 (rows_total self) (spans self).

Definition as_spans (self : ProcessedSpans) : list span := spans self.

(** * Well-formedness *)

(** Sorted, nonempty, separated by at least one ordinal, after [lo] and up to
    [hi]: the canonical form of a set of ordinals. *)
Fixpoint canonical (lo hi : Z) (l : list span) : Prop :=
  match l with
  | [] => True
  | (s, e) :: l => lo <= s /\ s < e /\ e <= hi /\ canonical (e + 1) hi l
  end.

Definition wf (self : ProcessedSpans) : Prop :=
  0 <= rows_total self <= u64_max /\ canonical 0 (rows_total self) (spans self).

(** * Canonical span lists *)

(** [existsb (in_span o)] over a list. *)
Definition mem (o : Z) (l : list span) : bool := existsb (in_span o) l.

Ltac bools :=
  unfold in_span in *;
  rewrite ?orb_true_iff, ?orb_false_iff, ?andb_true_iff, ?andb_false_iff,
    ?Z.ltb_lt, ?Z.ltb_ge, ?Z.leb_le, ?Z.leb_gt in *; simpl in *.

Lemma canonical_weaken lo lo' hi l : lo' <= lo -> canonical lo hi l -> canonical lo' hi l.
Proof. destruct l as [|[s e] l]; simpl; [done|]. intros ? (?&?&?&?). repeat split; lia || done. Qed.

Lemma mem_lower lo hi l o : canonical lo hi l -> mem o l = true -> lo <= o.
Proof.
  revert lo. induction l as [|[s e] l IH]; intros lo; simpl; [done|].
  intros (?&?&?&Hc) [Hm|Hm]%orb_true_iff; [bools; lia|].
  apply (IH _ Hc) in Hm. lia.
Qed.

Lemma mem_upper lo hi l o : canonical lo hi l -> mem o l = true -> o < hi.
Proof.
  revert lo. induction l as [|[s e] l IH]; intros lo; simpl; [done|].
  intros (?&?&?&Hc) [Hm|Hm]%orb_true_iff; [bools; lia|]. by eapply IH.
Qed.

Lemma mem_below lo hi l o : canonical lo hi l -> o < lo -> mem o l = false.
Proof.
  intros Hc Ho. destruct (mem o l) eqn:Hm; [|done].
  eapply mem_lower in Hc; [|done]. lia.
Qed.

(** A canonical list is determined by its members. *)
Lemma canonical_ext lo lo' hi l1 l2 :
  canonical lo hi l1 -> canonical lo' hi l2 ->
  (forall o, mem o l1 = mem o l2) -> l1 = l2.
Proof.
  revert lo lo' l2. induction l1 as [|[s1 e1] l1 IH]; intros lo lo' [|[s2 e2] l2]; simpl.
  - done.
  - intros _ (?&?&?&?) Heq. specialize (Heq s2). symmetry in Heq. bools. lia.
  - intros (?&?&?&?) _ Heq. specialize (Heq s1). bools. lia.
  - intros (Hs1&Hl1&He1&Hc1) (Hs2&Hl2&He2&Hc2) Heq. simpl in Heq.
    assert (Hmem : forall o, in_span o (s1, e1) || mem o l1 = in_span o (s2, e2) || mem o l2)
      by exact Heq. clear Heq.
    assert (s1 = s2) as <-.
    { pose proof (Hmem (Z.min s1 s2)) as Hm.
      rewrite (mem_below _ _ l1 _ Hc1), (mem_below _ _ l2 _ Hc2) in Hm by lia.
      unfold in_span in Hm; simpl in Hm.
      destruct (s1 <=? Z.min s1 s2) eqn:?, (s2 <=? Z.min s1 s2) eqn:?,
        (Z.min s1 s2 <? e1) eqn:?, (Z.min s1 s2 <? e2) eqn:?; try done; lia. }
    assert (e1 = e2) as <-.
    { pose proof (Hmem (Z.min e1 e2)) as Hm.
      rewrite (mem_below _ _ l1 _ Hc1), (mem_below _ _ l2 _ Hc2) in Hm by lia.
      unfold in_span in Hm; simpl in Hm.
      destruct (s1 <=? Z.min e1 e2) eqn:?, (Z.min e1 e2 <? e1) eqn:?,
        (Z.min e1 e2 <? e2) eqn:?; try done; lia. }
    f_equal. eapply IH; [done..|]. intros o. specialize (Hmem o).
    destruct (in_span o (s1, e1)) eqn:Ho; [|done]. bools.
    by rewrite (mem_below _ _ l1 _ Hc1), (mem_below _ _ l2 _ Hc2) by lia.
Qed.

Lemma canonical_past lo hi l : hi < lo -> canonical lo hi l -> l = [].
Proof. destruct l as [|[s e] l]; [done|]. intros ? (?&?&?&?). lia. Qed.

Lemma canonical_nonneg lo hi l :
  0 <= lo -> canonical lo hi l -> Forall (fun s => 0 <= s.1) l.
Proof.
  revert lo. induction l as [|[s e] l IH]; intros lo Hlo; simpl; [by constructor|].
  intros (?&?&?&?). constructor; [simpl; lia|]. apply (IH (e + 1)); [lia|done].
Qed.

Lemma merge_canonical lo hi ms me l :
  canonical lo hi l -> ms < me -> me <= hi -> lo <= ms ->
  canonical lo hi (merge_spans ms me l).
Proof.
  revert lo ms me. induction l as [|[s e] l IH]; intros lo ms me; simpl.
  - intros; repeat split; done.
  - intros (?&?&?&Hc) ? ? ?. destruct (Z.ltb_spec e ms); simpl.
    { repeat split; [done..|]. apply IH; [done|lia..]. }
    destruct (Z.ltb_spec me s); simpl.
    { repeat split; [lia..|]. apply IH; [|lia..]. eapply canonical_weaken; [|done]. lia. }
    apply IH; [|lia..]. eapply canonical_weaken; [|done]. lia.
Qed.

Lemma merge_mem lo hi ms me l o :
  canonical lo hi l -> ms < me ->
  mem o (merge_spans ms me l) = in_span o (ms, me) || mem o l.
Proof.
  revert lo ms me. induction l as [|[s e] l IH]; intros lo ms me; [done|].
  simpl. intros (?&?&?&Hc) ?. destruct (Z.ltb_spec e ms); simpl.
  { rewrite (IH _ _ _ Hc) by done. by rewrite !orb_assoc, (orb_comm (in_span o (s, e))). }
  destruct (Z.ltb_spec me s); simpl.
  { by rewrite (IH _ _ _ Hc) by done. }
  rewrite (IH _ _ _ Hc) by lia. rewrite orb_assoc. f_equal. unfold in_span; simpl.
  apply eq_true_iff_eq. bools. lia.
Qed.

Lemma check_spans_ok hi prev l :
  Forall (fun s => 0 <= s.1) l -> (forall p, prev = Some p -> 0 <= p) ->
  check_spans hi prev l = Ok tt <->
  canonical (match prev with Some p => p + 1 | None => 0 end) hi l.
Proof.
  revert prev. induction l as [|[s e] l IH]; intros prev Hpos Hp; simpl; [done|].
  apply Forall_cons in Hpos as [Hs Hpos]; simpl in Hs.
  rewrite bind_ok. setoid_rewrite bind_ok. setoid_rewrite fail_if_ok. split.
  - intros (_ & Hb & _ & Hprev & Hc). bools. destruct Hb.
    apply IH in Hc; [|done|intros ? [= <-]; lia].
    destruct prev; bools; repeat split; lia || done.
  - intros (Hlo&?&?&Hc). exists tt. split; [bools; lia|]. exists tt. split.
    + destruct prev; bools; [lia|done].
    + apply IH; [done|intros ? [= <-]; lia|done].
Qed.

(** * Theorems *)

Lemma insert_spec (self : ProcessedSpans) (start stop : Z) :
  wf self -> 0 <= start ->
  match insert self start stop with
  | Ok self' =>
      start < stop <= rows_total self /\ wf self' /\
      rows_total self' = rows_total self /\
      forall o, contains self' o = in_span o (start, stop) || contains self o
  | Err e => e = InvalidBounds /\ ~ (start < stop <= rows_total self)
  end.
Proof.
  intros [Hrows Hc] Hstart. unfold insert.
  destruct ((stop <=? start) || (rows_total self <? stop)) eqn:Hb; simpl.
  - split; [done|]. bools. lia.
  - bools. repeat split; try (simpl; lia).
    + simpl. apply merge_canonical; lia || done.
    + intros o. by eapply merge_mem; [|lia].
Qed.

(** C29: On a canonical value, [insert] succeeds exactly on nonempty intervals
    inside the artifact, and then the processed ordinals become the union of
    the old ones and the interval, again in canonical form; otherwise it
    reports [InvalidBounds] (and the value is left as it was). *)
Theorem insert_union (self : ProcessedSpans) (start stop : Z) :
  wf self -> 0 <= start ->
  match insert self start stop with
  | Ok self' =>
      start < stop <= rows_total self /\ wf self' /\
      rows_total self' = rows_total self /\
      forall o, contains self' o = in_span o (start, stop) || contains self o
  | Err e => e = InvalidBounds /\ ~ (start < stop <= rows_total self)
  end.
Proof. apply insert_spec. Qed.

Lemma insert_union_witness :
  exists s', insert (Mk 20 [(2, 4); (8, 10)]) 4 8 = Ok s' /\ spans s' = [(2, 10)] /\
    match insert (Mk 20 [(2, 4); (8, 10)]) 4 8 with
    | Ok self' =>
        4 < 8 <= 20 /\ wf self' /\ rows_total self' = 20 /\
        forall o, contains self' o
          = in_span o (4, 8) || contains (Mk 20 [(2, 4); (8, 10)]) o
    | Err e => e = InvalidBounds /\ ~ (4 < 8 <= 20)
    end.
Proof.
  eexists. split; [reflexivity|]. split; [reflexivity|].
  apply (insert_union (Mk 20 [(2, 4); (8, 10)]) 4 8).
  - split; unfold u64_max; simpl; lia.
  - lia.
Defined.

(** The state reached by inserting intervals one after another. *)
Definition insert_all (self : ProcessedSpans) (l : list span) :
    result ProcessedSpansError ProcessedSpans :=
  try_fold (fun s i => insert s i.1 i.2) self l.

Lemma insert_all_spec l self :
  wf self -> Forall (fun i => 0 <= i.1) l ->
  match insert_all self l with
  | Ok self' =>
      Forall (fun i => i.1 < i.2 <= rows_total self) l /\ wf self' /\
      rows_total self' = rows_total self /\
      forall o, contains self' o = existsb (in_span o) l || contains self o
  | Err _ => ~ Forall (fun i => i.1 < i.2 <= rows_total self) l
  end.
Proof.
  revert self. induction l as [|[a b] l IH]; intros self Hwf Hpos; [done|].
  apply Forall_cons in Hpos as [Ha Hpos]; simpl in Ha.
  unfold insert_all in *; simpl. pose proof (insert_spec self a b Hwf Ha) as Hi.
  destruct (insert self a b) as [s1|] eqn:Hins; simpl in *.
  - destruct Hi as (Hab & Hwf1 & Hrows & Hmem). specialize (IH s1 Hwf1 Hpos).
    destruct (try_fold _ s1 l) as [s2|].
    + destruct IH as (Hl & Hwf2 & Hrows2 & Hmem2). rewrite Hrows in *.
      split; [by constructor|]. split; [done|]. split; [done|].
      intros o. rewrite Hmem2, Hmem. simpl.
      by rewrite orb_assoc, (orb_comm (existsb _ l)), <-orb_assoc.
    + rewrite Hrows in IH. by intros [_ ?]%Forall_cons.
  - destruct Hi as [_ Hi]. by intros [? _]%Forall_cons.
Qed.

Lemma wf_ext s1 s2 :
  wf s1 -> wf s2 -> rows_total s1 = rows_total s2 ->
  (forall o, contains s1 o = contains s2 o) -> s1 = s2.
Proof.
  destruct s1 as [r1 l1], s2 as [r2 l2]. intros [_ H1] [_ H2] Hr Hm; simpl in *. subst r2.
  f_equal. eapply canonical_ext; [exact H1|exact H2|exact Hm].
Qed.

(** Inserting the same intervals in any order gives the same stored value
    (not merely the same set), so retried and reordered progress reports
    converge. *)
Theorem insert_order_irrelevant (self self' : ProcessedSpans) (l1 l2 : list span) :
  wf self -> Forall (fun i => 0 <= i.1) l1 -> l1 ≡ₚ l2 ->
  insert_all self l1 = Ok self' -> insert_all self l2 = Ok self'.
Proof.
  intros Hwf Hpos Hperm Hok.
  pose proof (insert_all_spec l1 self Hwf Hpos) as H1. rewrite Hok in H1.
  destruct H1 as (Hb & Hwf1 & Hr1 & Hm1).
  pose proof (insert_all_spec l2 self Hwf ltac:(by rewrite <-Hperm)) as H2. destruct (insert_all self l2) as [s2|].
  - destruct H2 as (_ & Hwf2 & Hr2 & Hm2). f_equal. apply wf_ext; [done..|congruence|].
    intros o. rewrite Hm1, Hm2. f_equal. apply eq_true_iff_eq. rewrite !existsb_exists.
    setoid_rewrite <-list_elem_of_In. by setoid_rewrite Hperm.
  - destruct H2. by rewrite <-Hperm.
Qed.

Lemma insert_order_irrelevant_witness :
  insert_all (new 20) [(8, 10); (2, 4); (4, 8)] = Ok (Mk 20 [(2, 10)]).
Proof.
  apply (insert_order_irrelevant (new 20) (Mk 20 [(2, 10)]) [(2, 4); (4, 8); (8, 10)]).
  - split; unfold u64_max; simpl; lia.
  - repeat constructor; simpl; lia.
  - apply (Permutation_app_comm [(2, 4); (4, 8)] [(8, 10)]).
  - reflexivity.
Defined.

Lemma runs_canonical cursor lo hi l :
  cursor <= lo -> canonical lo hi l -> cursor < lo \/ l = [] \/ lo = cursor ->
  canonical cursor hi (runs_from cursor hi l).
Proof.
  revert cursor lo. induction l as [|[s e] l IH]; intros cursor lo Hle Hc Hor; simpl.
  - destruct (Z.ltb_spec cursor hi); simpl; repeat split; lia || done.
  - destruct Hc as (?&?&?&Hc).
    assert (canonical e hi (runs_from e hi l)) by (apply (IH e (e + 1)); [lia|done|lia]).
    destruct (Z.ltb_spec cursor s); simpl.
    + repeat split; [lia..|]. eapply canonical_weaken; [|done]. lia.
    + eapply canonical_weaken; [|done]. lia.
Qed.

Lemma runs_mem cursor lo hi l o :
  cursor <= lo -> canonical lo hi l -> cursor <= o ->
  mem o (runs_from cursor hi l) = (o <? hi) && negb (mem o l).
Proof.
  revert cursor lo. induction l as [|[s e] l IH]; intros cursor lo Hle Hc Ho; simpl.
  - rewrite andb_true_r. destruct (Z.ltb_spec cursor hi); simpl;
      apply eq_true_iff_eq; bools; lia.
  - destruct Hc as (?&?&?&Hc). unfold mem. rewrite existsb_app. fold (mem o).
    assert (Hcase : o < e \/ e <= o) by lia. destruct Hcase as [Hoe|Hoe].
    + assert (Htail : mem o (runs_from e hi l) = false).
      { eapply mem_below; [|exact Hoe].
        apply (runs_canonical e (e + 1)); [lia|done|lia]. }
      change (existsb (in_span o)) with (mem o). rewrite Htail.
      rewrite (mem_below _ _ _ _ Hc) by lia.
      destruct (Z.ltb_spec cursor s); simpl; apply eq_true_iff_eq;
        rewrite ?orb_false_r, ?andb_true_iff, ?negb_true_iff; bools; lia.
    + change (existsb (in_span o)) with (mem o). rewrite (IH e (e + 1)) by (lia || done).
      replace (in_span o (s, e)) with false by (symmetry; bools; lia). simpl.
      destruct (Z.ltb_spec cursor s); simpl; [|done].
      replace (in_span o (cursor, s)) with false by (symmetry; bools; lia). done.
Qed.

(** [unprocessed_runs] is the complement: an ordinal of the artifact lies
    in a run exactly when it is not processed, and the runs are themselves a
    canonical span list, which [from_spans] accepts. *)
Theorem unprocessed_runs_complement (self : ProcessedSpans) :
  wf self ->
  (forall o, existsb (in_span o) (unprocessed_runs self)
     = (0 <=? o) && (o <? rows_total self) && negb (contains self o)) /\
  from_spans (rows_total self) (unprocessed_runs self)
    = Ok (Mk (rows_total self) (unprocessed_runs self)).
Proof.
  intros [Hr Hc]. assert (Hcan : canonical 0 (rows_total self) (unprocessed_runs self)).
  { apply (runs_canonical 0 0); [lia|done|lia]. }
  split.
  - intros o. destruct (Z.leb_spec 0 o); simpl.
    + unfold unprocessed_runs. by eapply runs_mem; [|done|done].
    + by eapply mem_below.
  - unfold from_spans. assert (check_spans (rows_total self) None (unprocessed_runs self) = Ok tt) as ->;
      [|done]. apply check_spans_ok; [|done|done].
    clear Hc. revert Hcan. generalize (unprocessed_runs self) as l. intros l. by apply canonical_nonneg.
Qed.

Lemma unprocessed_runs_complement_witness :
  unprocessed_runs (Mk 20 [(2, 4); (8, 20)]) = [(0, 2); (4, 8)] /\
  from_spans 20 [(0, 2); (4, 8)] = Ok (Mk 20 [(0, 2); (4, 8)]).
Proof.
  split; [reflexivity|].
  apply (unprocessed_runs_complement (Mk 20 [(2, 4); (8, 20)])).
  split; unfold u64_max; simpl; lia.
Defined.

(** Sum of the span lengths, without overflow. *)
Definition total_len (l : list span) : Z := zsum ((fun s => s.2 - s.1) <$> l).

Lemma total_len_bound lo hi l :
  canonical lo hi l -> 0 <= total_len l /\ (lo <= hi -> total_len l <= hi - lo).
Proof.
  unfold total_len. revert lo. induction l as [|[s e] l IH]; intros lo; [simpl; lia|].
  rewrite fmap_cons; simpl. intros (?&?&?&Hc). destruct (IH _ Hc) as [IH1 IH2]. split; [lia|]. intros.
  destruct (Z.leb_spec (e + 1) hi); [lia|]. assert (e = hi) by lia. subst.
  apply canonical_past in Hc as ->; [|lia]. simpl. lia.
Qed.

Lemma processed_len_total self : wf self -> processed_len self = Some (total_len (spans self)).
Proof.
  intros [Hr Hc]. unfold processed_len.
  assert (Hgen : forall l lo acc, 0 <= acc <= lo -> acc <= rows_total self ->
    canonical lo (rows_total self) l ->
    foldl add_span_len (Some acc) l = Some (acc + total_len l)).
  { unfold total_len. induction l as [|[s e] l IH]; intros lo acc Hacc Ha Hl.
    - simpl. f_equal; lia.
    - destruct Hl as (?&?&?&Hl).
      assert (add_span_len (Some acc) (s, e) = Some (acc + (e - s))) as Hstep.
      { unfold add_span_len, checked_u64; simpl.
        replace (is_u64 (e - s)) with true by (symmetry; range). simpl.
        by replace (is_u64 (acc + (e - s))) with true by (symmetry; range). }
      cbn [foldl]. rewrite Hstep, (IH (e + 1)) by (done || lia).
      rewrite fmap_cons; simpl. f_equal. lia. }
  rewrite (Hgen _ 0) by (done || lia). done.
Qed.

(** Number of members of a span list among the ordinals [0 .. n-1]. *)
Definition members (n : Z) (l : list span) : Z :=
  zsum ((fun o => Z.b2z (mem o l)) <$> seqZ 0 n).

Lemma members_split a b l :
  0 <= a -> 0 <= b ->
  members (a + b) l = members a l + zsum ((fun o => Z.b2z (mem o l)) <$> seqZ a b).
Proof.
  intros. unfold members. rewrite seqZ_app, fmap_app, zsum_app by lia.
  do 4 f_equal.
Qed.

Lemma zsum_const (c a b : Z) (f : Z -> Z) :
  0 <= b -> (forall o, a <= o < a + b -> f o = c) -> zsum (f <$> seqZ a b) = c * b.
Proof.
  intros Hb Hf. rewrite (zsum_ext f (fun _ => c)).
  2:{ intros o Ho%elem_of_seqZ. by apply Hf. }
  rewrite <-(Z2Nat.id b) by done. clear. revert a.
  induction (Z.to_nat b) as [|n IH]; intros a; [simpl; lia|].
  rewrite seqZ_S. rewrite fmap_app, zsum_app, IH. simpl. lia.
Qed.

Lemma members_total hi l lo :
  0 <= lo <= hi + 1 -> canonical lo hi l -> 0 <= hi -> members hi l = total_len l.
Proof.
  intros Hlo Hc Hhi.
  assert (Hgen : forall l lo, 0 <= lo -> canonical lo hi l -> lo <= hi ->
    zsum ((fun o => Z.b2z (mem o l)) <$> seqZ lo (hi - lo)) = total_len l).
  { clear. unfold total_len. induction l as [|[s e] l IH]; intros lo Hlo Hc Hle.
    - rewrite (zsum_const 0); [done|lia|done].
    - destruct Hc as (?&?&?&Hc). rewrite fmap_cons; simpl.
      replace (hi - lo) with ((s - lo) + ((e - s) + (hi - e))) by lia.
      rewrite !seqZ_app, !fmap_app, !zsum_app by lia.
      replace (lo + (s - lo)) with s by lia. replace (s + (e - s)) with e by lia.
      rewrite (zsum_const 0); [|lia|].
      2:{ intros o Ho. rewrite (mem_below _ _ _ _ Hc) by lia.
          replace (in_span o (s, e)) with false; [done|]. symmetry; bools; lia. }
      rewrite (zsum_const 1 s); [|lia|].
      2:{ intros o Ho. replace (in_span o (s, e)) with true; [done|]. symmetry; bools; lia. }
      rewrite (zsum_ext _ (fun o => Z.b2z (mem o l))).
      2:{ intros o Ho%elem_of_seqZ. replace (in_span o (s, e)) with false; [done|].
          symmetry; bools; lia. }
      destruct (Z.eq_dec e hi) as [->|Hne].
      { rewrite Z.sub_diag. apply canonical_past in Hc as ->; [|lia]. simpl. lia. }
      replace (hi - e) with (1 + (hi - (e + 1))) by lia.
      rewrite seqZ_app, fmap_app, zsum_app by lia.
      rewrite (IH (e + 1)) by (done || lia). simpl.
      rewrite (mem_below _ _ _ _ Hc) by lia. simpl. lia. }
  unfold members. rewrite <-(Hgen l 0); [by rewrite Z.sub_0_r|lia| |lia].
  eapply canonical_weaken; [|done]. lia.
Qed.

(** On a canonical value [processed_len] never panics, whatever the u64
    row count: it is the number of processed ordinals; it reaches [rows_total]
    exactly when [is_complete] answers yes. *)
Theorem processed_len_counts (self : ProcessedSpans) :
  wf self ->
  processed_len self
    = Some (zsum ((fun o => Z.b2z (contains self o)) <$> seqZ 0 (rows_total self))) /\
  (processed_len self = Some (rows_total self) <-> is_complete self = true).
Proof.
  intros Hwf. pose proof (processed_len_total self Hwf) as Hlen.
  destruct Hwf as [Hr Hc]. split.
  - rewrite Hlen. f_equal. symmetry.
    apply (members_total _ _ 0); [lia|done|lia].
  - rewrite Hlen. unfold is_complete, contiguous_frontier, total_len.
    rewrite Z.eqb_eq. destruct (spans self) as [|[s e] l].
    { simpl. split; [by intros [= <-]|by intros <-]. }
    rewrite fmap_cons; simpl. destruct Hc as (?&?&?&Hc). destruct (total_len_bound _ _ _ Hc) as [Hb1 Hb2].
    unfold total_len in *. split.
    + intros [= Heq]. destruct (Z.leb_spec (e + 1) (rows_total self)); [lia|].
      assert (e = rows_total self) by lia. subst.
      apply canonical_past in Hc as ->; [|lia].
      simpl in *. destruct (Z.eqb_spec s 0); lia.
    + destruct (Z.eqb_spec s 0); [|lia]. intros Heq.
      apply canonical_past in Hc as ->; [|lia].
      simpl. f_equal. lia.
Qed.

Lemma processed_len_counts_witness :
  processed_len (Mk u64_max [(0, u64_max)]) = Some u64_max /\
  (processed_len (Mk u64_max [(0, u64_max)]) = Some u64_max <->
   is_complete (Mk u64_max [(0, u64_max)]) = true).
Proof.
  split; [reflexivity|].
  apply (processed_len_counts (Mk u64_max [(0, u64_max)])).
  split; unfold u64_max; simpl; lia.
Defined.

(** [contiguous_frontier] is the processed prefix: everything before it is
    processed, and it is either the end of the artifact or a hole; sparse work
    beyond the first hole never moves it. *)
Theorem contiguous_frontier_prefix (self : ProcessedSpans) :
  wf self ->
  let f := contiguous_frontier self in
  0 <= f <= rows_total self /\
  (forall o, 0 <= o < f -> contains self o = true) /\
  contains self f = false.
Proof.
  intros [Hr Hc]. unfold contiguous_frontier, contains.
  destruct (spans self) as [|[s e] l]; simpl in *; [split; [lia|split; [lia|done]]|].
  destruct Hc as (?&?&?&Hc). pose proof (mem_below _ _ _ e Hc) as He.
  pose proof (mem_below _ _ _ 0 Hc) as Hz. unfold mem in He, Hz.
  destruct (Z.eqb_spec s 0) as [->|Hs]; (split; [lia|split]).
  - intros o Ho. apply orb_true_iff. left. bools. lia.
  - rewrite He by lia. rewrite orb_false_r. bools. lia.
  - lia.
  - rewrite Hz by lia. rewrite orb_false_r. bools. lia.
Qed.

Lemma contiguous_frontier_prefix_witness :
  contiguous_frontier (Mk 20 [(0, 4); (6, 9)]) = 4 /\
  contains (Mk 20 [(0, 4); (6, 9)]) 4 = false.
Proof.
  split; [reflexivity|].
  apply (contiguous_frontier_prefix (Mk 20 [(0, 4); (6, 9)])).
  split; unfold u64_max; simpl; lia.
Defined.

End ProcessedSpans.
