(* ===== verification/Json.v ===== *)
(** JSON values, as [serde_json::Value] gives them to the program, and the
    shape shared by the program's JSON printers.

    The build resolves [serde_json] with [preserve_order] (its lock entry
    depends on [indexmap]), so an object is a list of fields in insertion
    order, with distinct names. Two values are the same JSON value when they
    have the same [normalize]d form, in which fields are sorted by name.

    How [serde_json] prints a number and escapes a string is not in this
    repository: it is the parameter [SerdeJson], with the documented facts the
    program relies on in [SerdeJsonLaws]. *)
From stdpp Require Import sorting pretty.
From S2P Require Import Prelude BTree.

(** * Values *)

(** [serde_json::Number] without [arbitrary_precision]: an unsigned integer, a
    negative integer, or a finite [f64] given by its 64 bits. *)
Inductive Number : Type :=
| PosInt (n : Z)
| NegInt (n : Z)
| Float (bits : Z).

Unset Elimination Schemes.
Inductive Value : Type :=
| JNull
| JBool (b : bool)
| JNumber (n : Number)
| JString (s : string)
| JArray (l : list Value)
| JObject (fields : list (string * Value)).
Set Elimination Schemes.

#[export] Instance Number_eq_dec : EqDecision Number.
Proof. solve_decision. Defined.

Section value_ind.
Variable P : Value -> Prop.
Hypothesis HNull : P JNull.
Hypothesis HBool : forall b, P (JBool b).
Hypothesis HNumber : forall n, P (JNumber n).
Hypothesis HString : forall s, P (JString s).
Hypothesis HArray : forall l, Forall P l -> P (JArray l).
Hypothesis HObject : forall fs, Forall (fun f => P f.2) fs -> P (JObject fs).

(** Induction with hypotheses for the elements of arrays and objects. *)
Fixpoint Value_ind' (v : Value) : P v :=
  match v with
  | JNull => HNull
  | JBool b => HBool b
  | JNumber n => HNumber n
  | JString s => HString s
  | JArray l => HArray l
      ((fix go l : Forall P l := match l with
        | [] => Forall_nil_2 P
        | v :: l => Forall_cons_2 P v l (Value_ind' v) (go l) end) l)
  | JObject fs => HObject fs
      ((fix go fs : Forall (fun f => P f.2) fs := match fs with
        | [] => Forall_nil_2 _
        | (k, v) :: fs => Forall_cons_2 (fun f => P f.2) (k, v) fs (Value_ind' v) (go fs)
        end) fs)
  end.
End value_ind.

(** Structural equality, decided recursively. *)
Lemma Value_eq_dec_aux (v w : Value) : {v = w} + {v <> w}.
Proof.
  revert v w. fix IH 1. intros v w.
  destruct v as [|b|n|s|l|fs], w as [|b'|n'|s'|l'|fs']; try (by right); try (by left).
  - destruct (decide (b = b')); [left|right]; congruence.
  - destruct (decide (n = n')); [left|right]; congruence.
  - destruct (decide (s = s')); [left|right]; congruence.
  - assert ({l = l'} + {l <> l'}) as [->|]; [|by left|right; congruence].
    revert l'. induction l as [|x l IHl]; intros [|y l']; [by left|by right|by right|].
    destruct (IH x y); [|right; congruence]. destruct (IHl l'); [left|right]; congruence.
  - assert ({fs = fs'} + {fs <> fs'}) as [->|]; [|by left|right; congruence].
    revert fs'. induction fs as [|[k x] fs IHl]; intros [|[k' y] fs']; [by left|by right|by right|].
    destruct (decide (k = k')); [|right; congruence].
    destruct (IH x y); [|right; congruence]. destruct (IHl fs'); [left|right]; congruence.
Defined.
#[export] Instance Value_eq_dec : EqDecision Value := Value_eq_dec_aux.

(** Values the type [serde_json::Value] can hold. *)
Definition wf_number (n : Number) : bool :=
  match n with
  | PosInt n => in_range 0 u64_max n
  | NegInt n => in_range i64_min (-1) n
  | Float b => in_range 0 u64_max b && negb (Z.land (Z.shiftr b 52) 2047 =? 2047)
  end.

Fixpoint nodupb (l : list string) : bool :=
  match l with [] => true | x :: l => negb (existsb (String.eqb x) l) && nodupb l end.

Fixpoint wf_value (v : Value) : bool :=
  match v with
  | JNumber n => wf_number n
  | JArray l => forallb wf_value l
  | JObject fs => nodupb fs.*1 && forallb (fun f => wf_value f.2) fs
  | _ => true
  end.

(** [Number::as_i64]. *)
Definition as_i64 (n : Number) : option Z :=
  match n with
  | PosInt n => checked_i64 n
  | NegInt n => Some n
  | Float _ => None
  end.

(** [n as f64] on an integer of at most 64 bits, as the bits of the result:
    round to nearest, ties to even. *)
Definition f64_of_int (n : Z) : Z :=
  if n =? 0 then 0 else
  let m := Z.abs n in
  let e := Z.log2 m in
  let mant :=
    if e <=? 52 then m * 2 ^ (52 - e) else
    let d := 2 ^ (e - 52) in
    let q := m / d in
    let r := m mod d in
    if (2 * r <? d) || ((2 * r =? d) && Z.even q) then q else q + 1 in
  (if n <? 0 then 2 ^ 63 else 0) + (1023 + e) * 2 ^ 52 + (mant - 2 ^ 52).

(** [Number::as_f64]. *)
Definition as_f64 (n : Number) : option Z :=
  match n with
  | PosInt n | NegInt n => Some (f64_of_int n)
  | Float b => Some b
  end.

(** [Value::get], on an object; [None] on any other value. *)
Definition get_field (name : string) (v : Value) : option Value :=
  match v with
  | JObject fs => snd <$> List.find (fun f => String.eqb f.1 name) fs
  | _ => None
  end.

(** [json!(n)] of an [i64]. *)
Definition json_of_i64 (n : Z) : Value :=
  JNumber (if n <? 0 then NegInt n else PosInt n).

(** [Value::as_i64], [as_str], [as_array], [as_object]. *)
Definition value_as_i64 (v : Value) : option Z :=
  match v with JNumber n => as_i64 n | _ => None end.
Definition value_as_str (v : Value) : option string :=
  match v with JString s => Some s | _ => None end.
Definition value_as_array (v : Value) : option (list Value) :=
  match v with JArray l => Some l | _ => None end.

(** The representative of a JSON value: fields sorted by name. *)
Fixpoint normalize (v : Value) : Value :=
  match v with
  | JArray l => JArray (normalize <$> l)
  | JObject fs => JObject (sort_on fst ((fun f => (f.1, normalize f.2)) <$> fs))
  | _ => v
  end.

(** * Bytes of text *)

Abbreviation bytes := (list Z).

Definition byte_of_ascii (c : Ascii.ascii) : Z := Z.of_N (Ascii.N_of_ascii c).

(** [str::as_bytes]. *)
Definition as_bytes (s : string) : bytes := byte_of_ascii <$> String.list_ascii_of_string s.

#[export] Instance byte_of_ascii_inj : Inj (=) (=) byte_of_ascii.
Proof.
  intros a b Heq. unfold byte_of_ascii in Heq. apply N2Z.inj in Heq.
  rewrite <-(Ascii.ascii_N_embedding a), <-(Ascii.ascii_N_embedding b). congruence.
Qed.

Lemma as_bytes_app s t : as_bytes (s +:+ t) = as_bytes s ++ as_bytes t.
Proof.
  unfold as_bytes. induction s as [|c s IH]; [done|]. simpl. f_equal. exact IH.
Qed.

Lemma length_as_bytes s : length (as_bytes s) = String.length s.
Proof. unfold as_bytes. rewrite length_fmap. induction s; simpl; auto. Qed.

#[export] Instance as_bytes_inj : Inj (=) (=) as_bytes.
Proof.
  intros s t Heq. unfold as_bytes in Heq. apply (inj _) in Heq.
  by apply list_ascii_of_string_inj.
Qed.

(** * JSON printers *)

Definition join (sep : bytes) (items : list bytes) : bytes :=
  match items with
  | [] => []
  | x :: items => x ++ concat ((fun y => sep ++ y) <$> items)
  end.

(** The characters a JSON number is written with. *)
Definition numeric (c : Z) : bool :=
  ((48 <=? c) && (c <=? 57)) || existsb (Z.eqb c) [43; 45; 46; 69; 101].

(** What may follow a value: nothing, or a character no number contains. *)
Definition delimited (r : bytes) : Prop :=
  match r with [] => True | c :: _ => numeric c = false end.

(** A printer is given by how it writes numbers, strings and field names, and
    by the order in which it writes the fields of an object. *)
Section printer.
Context (pnum : Number -> bytes) (pstr pkey : string -> bytes).
Context (arrange : list (string * bytes) -> list (string * bytes)).

Definition pfield (f : string * bytes) : bytes := pkey f.1 ++ [58] ++ f.2.

Fixpoint text (v : Value) : bytes :=
  match v with
  | JNull => as_bytes "null"
  | JBool false => as_bytes "false"
  | JBool true => as_bytes "true"
  | JNumber n => pnum n
  | JString s => pstr s
  | JArray l => [91] ++ join [44] (text <$> l) ++ [93]
  | JObject fs =>
      [123] ++ join [44] (pfield <$> arrange ((fun f => (f.1, text f.2)) <$> fs)) ++ [125]
  end.

(** What the printer's parts must satisfy for its output to determine the
    value: [ok_num] and [ok_key] are the numbers and field names covered. *)
Record printer_ok (ok_num : Number -> bool) (ok_key : string -> bool) : Prop := {
  pnum_numeric n : forallb numeric (pnum n) = true;
  pnum_nonempty n : pnum n <> [];
  pnum_inj n m : ok_num n = true -> ok_num m = true -> pnum n = pnum m -> n = m;
  pstr_head s : exists t, pstr s = 34 :: t;
  pstr_prefix s s' r r' : pstr s ++ r = pstr s' ++ r' -> s = s' /\ r = r';
  pkey_head k : exists t, pkey k = 34 :: t;
  pkey_prefix k k' r r' : ok_key k = true -> ok_key k' = true ->
    pkey k ++ 58 :: r = pkey k' ++ 58 :: r' -> k = k' /\ r = r';
  arrange_perm l : arrange l ≡ₚ l
}.
End printer.

(** Values whose numbers and field names a printer covers. *)
Fixpoint covered (ok_num : Number -> bool) (ok_key : string -> bool) (v : Value) : bool :=
  match v with
  | JNumber n => ok_num n
  | JArray l => forallb (covered ok_num ok_key) l
  | JObject fs =>
      nodupb fs.*1 && forallb (fun f => ok_key f.1 && covered ok_num ok_key f.2) fs
  | _ => true
  end.

Lemma nodupb_NoDup l : nodupb l = true <-> NoDup l.
Proof.
  induction l as [|x l IH]; simpl; [split; [constructor|done]|].
  rewrite andb_true_iff, negb_true_iff, IH, NoDup_cons, <-not_true_iff_false, existsb_exists.
  setoid_rewrite String.eqb_eq. setoid_rewrite <-list_elem_of_In. naive_solver.
Qed.

(** First characters tell the kinds of values apart. *)
Definition shape (v : Value) : Z :=
  match v with
  | JNull => 0 | JBool false => 1 | JBool true => 2 | JNumber _ => 3
  | JString _ => 4 | JArray _ => 5 | JObject _ => 6
  end.
Definition head_shape (c : Z) : Z :=
  if numeric c then 3 else
  if c =? 110 then 0 else if c =? 102 then 1 else if c =? 116 then 2 else
  if c =? 34 then 4 else if c =? 91 then 5 else if c =? 123 then 6 else 7.

(** ** A separated list between brackets can be read back *)

Lemma fmap_perm_transfer {A B C} (g : A -> B) (h : A -> C) l l' :
  (forall x y, x ∈ l -> y ∈ l' -> g x = g y -> h x = h y) ->
  g <$> l ≡ₚ g <$> l' -> h <$> l ≡ₚ h <$> l'.
Proof.
  intros Hgh (l3 & Heq & Hp)%Permutation_map_inv. rewrite Hp.
  assert (h <$> l = h <$> l3) as ->; [|done]. assert (Hin : forall y, y ∈ l3 -> y ∈ l') by (by intros; rewrite Hp).
  clear Hp. revert l3 Heq Hin. induction l as [|x l IH]; intros [|y l3] Heq Hin; try done.
  simpl in Heq. injection Heq as Hxy Heq. rewrite !fmap_cons. f_equal.
  - apply Hgh; [left|apply Hin; left|done].
  - apply IH; [|done|].
    + intros; apply Hgh; [by right|done..].
    + intros; apply Hin; by right.
Qed.

Lemma span_numeric (n m r r' : bytes) :
  forallb numeric n = true -> forallb numeric m = true ->
  delimited r -> delimited r' -> n ++ r = m ++ r' -> n = m /\ r = r'.
Proof.
  revert m. induction n as [|c n IH]; intros [|d m] Hn Hm Hr Hr' Heq; simpl in *.
  - done.
  - subst r. simpl in Hr. apply andb_true_iff in Hm as [Hd _]. congruence.
  - subst r'. simpl in Hr'. apply andb_true_iff in Hn as [Hc _]. congruence.
  - injection Heq as -> Heq. apply andb_true_iff in Hn as [_ Hn], Hm as [_ Hm].
    destruct (IH m Hn Hm Hr Hr' Heq) as [-> ->]. done.
Qed.

Section separated.
Context {A : Type} (T : A -> bytes) (close : Z).
Hypothesis close_delim : numeric close = false.
Hypothesis close_comma : close <> 44.

(** [T] can be read back on the elements of [l] and [l']. *)
Definition readable (l l' : list A) : Prop :=
  forall x y r r', x ∈ l -> y ∈ l' -> delimited r -> delimited r' ->
    T x ++ r = T y ++ r' -> T x = T y /\ r = r'.

Lemma rest_readable l l' r r' :
  readable l l' ->
  concat ((fun y => [44] ++ y) <$> (T <$> l)) ++ close :: r
    = concat ((fun y => [44] ++ y) <$> (T <$> l')) ++ close :: r' ->
  T <$> l = T <$> l' /\ r = r'.
Proof.
  assert (Hdel : forall l r, delimited
    (concat ((fun y => [44] ++ y) <$> (T <$> l)) ++ close :: r)).
  { intros [|x l0] r0; [done|]. done. }
  revert l'. induction l as [|x l IH]; intros [|y l'] Hread Heq.
  - simpl in Heq. by injection Heq as ->.
  - simpl in Heq. injection Heq as ? _. done.
  - simpl in Heq. injection Heq as ? _. done.
  - rewrite !fmap_cons in Heq. cbn [concat] in Heq. simpl in Heq.
    injection Heq as Heq. rewrite <-!(assoc_L (++)) in Heq.
    destruct (Hread x y _ _ ltac:(left) ltac:(left) (Hdel l r) (Hdel l' r') Heq) as [HT Hrest].
    destruct (IH l') as [Htl ->]; [|done|].
    + intros a b ? ? Ha Hb. apply Hread; by right.
    + rewrite !fmap_cons, HT, Htl. done.
Qed.

Lemma join_readable l l' r r' :
  readable l l' ->
  (forall x, x ∈ l ++ l' -> exists c t, T x = c :: t /\ c <> close) ->
  join [44] (T <$> l) ++ close :: r = join [44] (T <$> l') ++ close :: r' ->
  T <$> l = T <$> l' /\ r = r'.
Proof.
  intros Hread Hhead Heq. destruct l as [|x l], l' as [|y l'].
  - simpl in Heq. by injection Heq as ->.
  - destruct (Hhead y) as (c & t & Hy & Hc); [set_solver|].
    simpl in Heq. rewrite Hy in Heq. simpl in Heq. congruence.
  - destruct (Hhead x) as (c & t & Hx & Hc); [set_solver|].
    simpl in Heq. rewrite Hx in Heq. simpl in Heq. congruence.
  - rewrite !fmap_cons in Heq. cbn [join] in Heq.
    rewrite <-!(assoc_L (++)) in Heq.
    assert (Hdel : forall l r, delimited
      (concat ((fun y => [44] ++ y) <$> (T <$> l)) ++ close :: r)).
    { intros [|z l0] r0; [done|]. done. }
    destruct (Hread x y _ _ ltac:(left) ltac:(left) (Hdel l r) (Hdel l' r') Heq) as [HT Hrest].
    apply rest_readable in Hrest as [Htl ->].
    + rewrite !fmap_cons, HT, Htl. done.
    + intros a b ? ? Ha Hb. apply Hread; by right.
Qed.
End separated.

(** ** Printed text determines the value *)

Section injectivity.
Context {pnum : Number -> bytes} {pstr pkey : string -> bytes}.
Context {arrange : list (string * bytes) -> list (string * bytes)}.
Context {ok_num : Number -> bool} {ok_key : string -> bool}.
Hypothesis Hok : printer_ok pnum pstr pkey arrange ok_num ok_key.
Local Abbreviation txt := (text pnum pstr pkey arrange).
Local Abbreviation cov := (covered ok_num ok_key).

Lemma text_head v : exists c t, txt v = c :: t /\ head_shape c = shape v.
Proof.
  destruct v as [|[]|n|s|l|fs]; simpl; eauto.
  - destruct (pnum n) as [|c t] eqn:Hn; [by destruct (pnum_nonempty _ _ _ _ _ _ Hok n)|].
    exists c, t. split; [done|]. pose proof (pnum_numeric _ _ _ _ _ _ Hok n) as Hc.
    rewrite Hn in Hc. simpl in Hc. apply andb_true_iff in Hc as [Hc _].
    unfold head_shape. by rewrite Hc.
  - destruct (pstr_head _ _ _ _ _ _ Hok s) as [t ->]. eauto.
Qed.

Lemma text_shape v w r r' : txt v ++ r = txt w ++ r' -> shape v = shape w.
Proof.
  destruct (text_head v) as (c & t & -> & <-), (text_head w) as (c' & t' & -> & <-).
  simpl. by intros [= -> _].
Qed.

(** [v] can be read back against every other value; only a number needs
    something after it to end it. *)
Definition unique_text (v : Value) : Prop := forall w r r',
  cov v = true -> cov w = true -> (shape v = 3 -> delimited r /\ delimited r') ->
  txt v ++ r = txt w ++ r' -> normalize v = normalize w /\ r = r'.

Lemma unique_text_text v w r r' :
  unique_text v -> cov v = true -> cov w = true -> delimited r -> delimited r' ->
  txt v ++ r = txt w ++ r' -> txt v = txt w /\ r = r'.
Proof.
  intros Hu Hv Hw Hr Hr' Heq. destruct (Hu w r r') as [_ ->]; [done..|].
  split; [|done]. by apply app_inv_tail in Heq.
Qed.

Lemma unique_text_array l : Forall unique_text l -> unique_text (JArray l).
Proof.
  intros IH w r r' Hv Hw Hr Heq. pose proof (text_shape _ _ _ _ Heq) as Hsh.
  destruct w as [| | | |l'|]; simpl in Hsh; try (done || by destruct b).
  simpl in Hv, Hw, Heq. rewrite forallb_forall in Hv, Hw.
  setoid_rewrite <-list_elem_of_In in Hv. setoid_rewrite <-list_elem_of_In in Hw.
  rewrite Forall_forall in IH. injection Heq as Heq.
  rewrite <-!(assoc_L (++)) in Heq. simpl in Heq.
  apply join_readable in Heq as [Heq ->]; [|done..| |].
  - split; [|done]. simpl. f_equal. clear Hr. revert l' Hw Heq.
    induction l as [|x l IHl]; intros [|y l'] Hw Heq; try done.
    rewrite !fmap_cons in Heq. injection Heq as Hxy Heq. rewrite !fmap_cons. f_equal.
    + destruct (IH x ltac:(left) y [] []) as [? _]; [..|done];
        [apply Hv; left|apply Hw; left|done..|by rewrite Hxy].
    + apply IHl; [| | |done].
      * intros z Hz. apply IH. by right.
      * intros z Hz. apply Hv. by right.
      * intros z Hz. apply Hw. by right.
  - intros x y s s' Hx Hy Hs Hs'. apply unique_text_text; auto.
  - intros x _. destruct (text_head x) as (c & t & Ht & Hc). exists c, t.
    split; [done|]. intros ->. by destruct x as [|[]|?|?|?|?].
Qed.

Lemma unique_text_object fs :
  Forall (fun f => unique_text f.2) fs -> unique_text (JObject fs).
Proof.
  intros IH w r r' Hv Hw Hr Heq. pose proof (text_shape _ _ _ _ Heq) as Hsh.
  destruct w as [| | | | |fs']; simpl in Hsh; try (done || by destruct b).
  simpl in Hv, Hw, Heq. apply andb_true_iff in Hv as [Hnd Hv], Hw as [Hnd' Hw].
  apply nodupb_NoDup in Hnd, Hnd'. rewrite forallb_forall in Hv, Hw.
  setoid_rewrite <-list_elem_of_In in Hv. setoid_rewrite <-list_elem_of_In in Hw.
  setoid_rewrite andb_true_iff in Hv. setoid_rewrite andb_true_iff in Hw.
  rewrite Forall_forall in IH. injection Heq as Heq.
  rewrite <-!(assoc_L (++)) in Heq. simpl in Heq.
  set (g := fun f : string * Value => (f.1, txt f.2)) in *.
  assert (Hfield : forall f f' s s', f ∈ fs -> f' ∈ fs' -> delimited s -> delimited s' ->
    pfield pkey (g f) ++ s = pfield pkey (g f') ++ s' -> g f = g f' /\ s = s').
  { intros [k v] [k' v'] s s' Hf Hf' Hs Hs' Hpf. unfold pfield, g in *; simpl in *.
    rewrite <-!(assoc_L (++)) in Hpf. simpl in Hpf.
    destruct (pkey_prefix _ _ _ _ _ _ Hok k k' _ _ (proj1 (Hv _ Hf)) (proj1 (Hw _ Hf')) Hpf)
      as [-> Ht].
    destruct (unique_text_text v v' s s') as [-> ->]; [|..|done];
      [by apply (IH (k', v))|by apply (Hv (k', v))|by apply (Hw (k', v'))|done..]. }
  assert (Hin : forall fs0 x, x ∈ arrange (g <$> fs0) -> exists f, x = g f /\ f ∈ fs0).
  { intros fs0 x. rewrite (arrange_perm _ _ _ _ _ _ Hok). apply list_elem_of_fmap_1. }
  apply join_readable in Heq as [Heq ->]; [|done..| |].
  - split; [|done]. simpl. f_equal. apply sort_on_ext.
    + apply (fmap_perm_transfer g).
      * intros [k v] [k' v'] Hf Hf' Hg. unfold g in Hg. simpl in *.
        injection Hg as -> Ht. f_equal.
        destruct (IH (k', v) Hf v' [] []) as [? _]; [..|done];
          [by apply (Hv (k', v))|by apply (Hw (k', v'))|done|by f_equal].
      * rewrite <-(arrange_perm _ _ _ _ _ _ Hok (g <$> fs)).
        rewrite <-(arrange_perm _ _ _ _ _ _ Hok (g <$> fs')).
        enough (arrange (g <$> fs) = arrange (g <$> fs')) as -> by done.
        pose proof (Hin fs) as Hin1. pose proof (Hin fs') as Hin2. revert Heq Hin1 Hin2.
        generalize (arrange (g <$> fs)) (arrange (g <$> fs')).
        clear -Hfield. induction l as [|x l IHl]; intros [|y l'] Heq Hin1 Hin2; try done.
        rewrite !fmap_cons in Heq. injection Heq as Hxy Heq. f_equal.
        -- destruct (Hin1 x) as (f & -> & Hf); [left|].
           destruct (Hin2 y) as (f' & -> & Hf'); [left|].
           destruct (Hfield f f' [] [] Hf Hf') as [? _]; [done..|by rewrite Hxy|done].
        -- apply IHl; [done|..]; intros z Hz; [apply Hin1|apply Hin2]; by right.
    + rewrite <-list_fmap_compose. exact Hnd.
  - intros x y s s' Hx Hy Hs Hs' Hxy. apply Hin in Hx as (f & -> & Hf), Hy as (f' & -> & Hf').
    destruct (Hfield f f' s s' Hf Hf' Hs Hs' Hxy) as [-> ->]. done.
  - intros [k t] _. destruct (pkey_head _ _ _ _ _ _ Hok k) as [t' Ht'].
    unfold pfield; simpl. rewrite Ht'. simpl. eauto.
Qed.

Lemma text_unique v : unique_text v.
Proof.
  induction v as [| | n | s | l IH | fs IH] using Value_ind'.
  5:{ by apply unique_text_array. }
  5:{ by apply unique_text_object. }
  all: intros w r r' Hv Hw Hr Heq; pose proof (text_shape _ _ _ _ Heq) as Hsh.
  - destruct w as [|[]| | | |]; simpl in Hsh; try done.
    simpl in Heq. by injection Heq as ->.
  - destruct b, w as [|[]| | | |]; simpl in Hsh; try done;
      simpl in Heq; by injection Heq as ->.
  - destruct w as [|[]|m| | |]; simpl in Hsh; try done. simpl in *.
    apply span_numeric in Heq as [Hnm ->]; [|apply (pnum_numeric _ _ _ _ _ _ Hok)..|by apply Hr|by apply Hr].
    apply (pnum_inj _ _ _ _ _ _ Hok) in Hnm as ->; done.
  - destruct w as [|[]| |s'| |]; simpl in Hsh; try done. simpl in Heq.
    by apply (pstr_prefix _ _ _ _ _ _ Hok) in Heq as [-> ->].
Qed.
End injectivity.

(** ** Equal values have equal text *)

Section determinism.
Context (pnum : Number -> bytes) (pstr pkey : string -> bytes).
Context (arrange : list (string * bytes) -> list (string * bytes)).
Hypothesis arrange_ext : forall l1 l2,
  l1 ≡ₚ l2 -> NoDup l1.*1 -> arrange l1 = arrange l2.
Local Abbreviation txt := (text pnum pstr pkey arrange).

Lemma text_normalize ok_num ok_key v :
  covered ok_num ok_key v = true -> txt (normalize v) = txt v.
Proof.
  induction v as [| | | |l IH|fs IH] using Value_ind'; intros Hv; try done.
  - simpl in *. rewrite forallb_forall in Hv. rewrite Forall_forall in IH.
    do 2 f_equal. f_equal. rewrite <-list_fmap_compose. apply list_fmap_ext.
    intros i x Hi%list_elem_of_lookup_2. apply IH; [done|]. apply Hv. by apply list_elem_of_In.
  - simpl in *. apply andb_true_iff in Hv as [Hnd Hv]. apply nodupb_NoDup in Hnd.
    rewrite forallb_forall in Hv. rewrite Forall_forall in IH.
    do 4 f_equal. apply arrange_ext.
    + rewrite sort_on_perm, <-list_fmap_compose. apply Permutation_refl'.
      apply list_fmap_ext. intros i [k v] Hi%list_elem_of_lookup_2. simpl. f_equal.
      apply (IH (k, v)); [done|]. apply list_elem_of_In, Hv, andb_true_iff in Hi as [_ ?]. done.
    + rewrite <-list_fmap_compose. rewrite sort_on_perm, <-list_fmap_compose. exact Hnd.
Qed.

(** The text of a value is a function of the JSON value it denotes. *)
Lemma text_proper ok_num ok_key v w :
  covered ok_num ok_key v = true -> covered ok_num ok_key w = true ->
  normalize v = normalize w -> txt v = txt w.
Proof.
  intros Hv Hw Heq. rewrite <-(text_normalize _ _ v Hv), Heq. by eapply text_normalize.
Qed.
End determinism.
