(* ===== verification/Digits.v ===== *)
(** Decimal text of integers: [to_string] and [str::parse] of the integer
    types, on digit lists and on strings. *)
From S2P Require Import Prelude BTree Json.

(** Digits of [n >= 0], most significant first, at most [fuel] of them. *)
Fixpoint digits_fuel (fuel : nat) (n : Z) (acc : list Z) : list Z :=
  match fuel with
  | O => acc
  | S fuel =>
      if n <? 10 then n :: acc
      else digits_fuel fuel (n / 10) (n mod 10 :: acc)
  end.

(** 39 digits are enough for [u128]. *)
Definition digits (n : Z) : list Z := digits_fuel 39 n [].

(** The number a digit list denotes. *)
Definition undigits (l : list Z) : Z := foldl (fun a d => 10 * a + d) 0 l.

Definition digit (d : Z) : Prop := 0 <= d <= 9.

Definition digit_char (d : Z) : Ascii.ascii := Ascii.ascii_of_N (Z.to_N (48 + d)).
Definition char_digit (c : Ascii.ascii) : Z := byte_of_ascii c - 48.
Definition is_ascii_digit (c : Ascii.ascii) : bool :=
  (48 <=? byte_of_ascii c) && (byte_of_ascii c <=? 57).

Fixpoint digits_string (l : list Z) : string :=
  match l with [] => EmptyString | d :: l => String (digit_char d) (digits_string l) end.
Fixpoint string_digits (s : string) : list Z :=
  match s with EmptyString => [] | String c s => char_digit c :: string_digits s end.
Fixpoint all_digits (s : string) : bool :=
  match s with EmptyString => true | String c s => is_ascii_digit c && all_digits s end.

(** [n.to_string()] for [n >= 0], and for a signed integer. *)
Definition nat_to_string (n : Z) : string := digits_string (digits n).
Definition int_to_string (n : Z) : string :=
  if n <? 0 then "-" +:+ nat_to_string (- n) else nat_to_string n.

Lemma undigits_acc l a : foldl (fun a d => 10 * a + d) a l = a * 10 ^ Z.of_nat (length l) + undigits l.
Proof.
  unfold undigits. revert a. induction l as [|d l IH]; intros a; [simpl; lia|].
  cbn [foldl length]. rewrite (IH (10 * a + d)), (IH (10 * 0 + d)).
  rewrite Nat2Z.inj_succ, Z.pow_succ_r; lia.
Qed.

Lemma undigits_app l1 l2 :
  undigits (l1 ++ l2) = undigits l1 * 10 ^ Z.of_nat (length l2) + undigits l2.
Proof. unfold undigits at 1. rewrite foldl_app. apply undigits_acc. Qed.

Lemma undigits_cons d l : undigits (d :: l) = d * 10 ^ Z.of_nat (length l) + undigits l.
Proof. apply (undigits_app [d]). Qed.

Lemma undigits_single d : undigits [d] = d.
Proof. rewrite undigits_cons. unfold undigits; cbn. lia. Qed.

Lemma undigits_bound l :
  Forall digit l -> 0 <= undigits l < 10 ^ Z.of_nat (length l).
Proof.
  induction 1 as [|d l Hd _ IH]; [done|]. rewrite undigits_cons. simpl length.
  rewrite Nat2Z.inj_succ, Z.pow_succ_r by lia. unfold digit in Hd. nia.
Qed.

Lemma digits_fuel_spec fuel n acc :
  fuel <> O -> 0 <= n < 10 ^ Z.of_nat fuel ->
  exists l, digits_fuel fuel n acc = l ++ acc /\ Forall digit l /\ undigits l = n /\
    (length l <= fuel)%nat /\
    ((n < 10 /\ l = [n]) \/ (10 <= n /\ exists d l', l = d :: l' /\ 1 <= d)).
Proof.
  revert n acc. induction fuel as [|fuel IH]; intros n acc Hf Hn; [done|].
  rewrite Nat2Z.inj_succ, Z.pow_succ_r in Hn by lia. simpl.
  destruct (Z.ltb_spec n 10).
  - exists [n]. split_and!; [done| |apply undigits_single|simpl; lia|by left].
    constructor; [unfold digit; lia|done].
  - destruct (IH (n / 10) (n mod 10 :: acc)) as (l & -> & Hl & Hu & Hlen & Hhd).
    { intros ->. simpl in Hn. lia. }
    { split; [apply Z.div_pos; lia|]. apply Z.div_lt_upper_bound; lia. }
    pose proof (Z.mod_pos_bound n 10). pose proof (Z.div_mod n 10).
    exists (l ++ [n mod 10]). rewrite <-(assoc_L (++)). split_and!; [done|..].
    + apply Forall_app. split; [done|]. constructor; [unfold digit; lia|done].
    + rewrite undigits_app, Hu, undigits_single. simpl length. lia.
    + rewrite length_app. simpl. lia.
    + right. split; [done|]. destruct Hhd as [[? ->]|(? & d & l' & -> & ?)].
      * exists (n / 10), [n mod 10]. split; [done|].
        assert (1 <= n / 10) by (apply Z.div_le_lower_bound; lia). lia.
      * eexists d, _. by split.
Qed.

Section digits.
Variable n : Z.
Hypothesis Hn : 0 <= n < 10 ^ 39.

Lemma digits_spec : Forall digit (digits n) /\ undigits (digits n) = n.
Proof.
  unfold digits. destruct (digits_fuel_spec 39 n [] ltac:(done) Hn) as (l & -> & ? & ? & _).
  by rewrite app_nil_r.
Qed.

Lemma digits_nonempty : digits n <> [].
Proof.
  unfold digits. destruct (digits_fuel_spec 39 n [] ltac:(done) Hn) as (l & -> & _ & _ & _ & Hl).
  rewrite app_nil_r. destruct Hl as [[_ ->]|(_ & d & l' & -> & _)]; done.
Qed.

(** No leading zero, except for zero itself. *)
Lemma digits_head : (n < 10 /\ digits n = [n]) \/
  (10 <= n /\ exists d l, digits n = d :: l /\ 1 <= d).
Proof.
  unfold digits. destruct (digits_fuel_spec 39 n [] ltac:(done) Hn) as (l & -> & _ & _ & _ & Hl).
  by rewrite app_nil_r.
Qed.

(** The digit count is [ilog10 + 1]. *)
Lemma digits_length :
  n <> 0 -> 10 ^ (Z.of_nat (length (digits n)) - 1) <= n < 10 ^ Z.of_nat (length (digits n)).
Proof.
  intros Hn0. destruct digits_spec as [Hd Hu].
  pose proof (undigits_bound _ Hd) as Hb. rewrite Hu in Hb. split; [|lia].
  destruct digits_head as [[? Heq]|(? & d & l & Heq & Hd1)]; rewrite Heq in *.
  - simpl length. change (10 ^ (Z.of_nat 1 - 1)) with 1. lia.
  - rewrite <-Hu, undigits_cons. simpl length.
    replace (Z.of_nat (S (length l)) - 1) with (Z.of_nat (length l)) by lia.
    apply Forall_cons in Hd as [_ Hd]. pose proof (undigits_bound _ Hd). nia.
Qed.
End digits.

(** ** Digit strings *)

Lemma digit_char_byte d : digit d -> byte_of_ascii (digit_char d) = 48 + d.
Proof.
  unfold digit, byte_of_ascii, digit_char. intros Hd.
  rewrite Ascii.N_ascii_embedding; lia.
Qed.

Lemma digit_char_digit d : digit d -> char_digit (digit_char d) = d.
Proof. intros Hd. unfold char_digit. rewrite digit_char_byte by done. lia. Qed.

Lemma char_digit_char c : is_ascii_digit c = true -> digit_char (char_digit c) = c.
Proof.
  intros Hc. unfold is_ascii_digit in Hc. apply (inj byte_of_ascii).
  rewrite digit_char_byte; unfold char_digit, digit; lia.
Qed.

Lemma string_digits_string l : Forall digit l -> string_digits (digits_string l) = l.
Proof.
  induction 1 as [|d l Hd _ IH]; simpl; [done|]. by rewrite digit_char_digit, IH.
Qed.

Lemma digits_string_digits s : all_digits s = true -> digits_string (string_digits s) = s.
Proof.
  induction s as [|c s IH]; simpl; [done|]. intros [Hc Hs]%andb_true_iff.
  by rewrite char_digit_char, IH.
Qed.

Lemma all_digits_string l : Forall digit l -> all_digits (digits_string l) = true.
Proof.
  induction 1 as [|d l Hd _ IH]; simpl; [done|]. rewrite IH, andb_true_r.
  unfold is_ascii_digit. rewrite digit_char_byte by done. unfold digit in Hd. lia.
Qed.

Lemma string_digits_digit s : all_digits s = true -> Forall digit (string_digits s).
Proof.
  induction s as [|c s IH]; simpl; [constructor|]. intros [Hc Hs]%andb_true_iff.
  constructor; [|auto]. unfold is_ascii_digit, digit, char_digit in *. lia.
Qed.

Lemma length_digits_string l : String.length (digits_string l) = length l.
Proof. induction l; simpl; congruence. Qed.

Lemma length_string_digits s : length (string_digits s) = String.length s.
Proof. induction s; simpl; congruence. Qed.

Lemma digits_string_app l1 l2 :
  digits_string (l1 ++ l2) = digits_string l1 +:+ digits_string l2.
Proof. induction l1 as [|d l1 IH]; [done|]. simpl. by rewrite IH. Qed.

Lemma length_nat_to_string n k :
  0 <= n < 10 ^ 39 -> n < 10 ^ Z.of_nat k -> k <> O -> (String.length (nat_to_string n) <= k)%nat.
Proof.
  intros Hn Hk Hpos. assert (String.length (nat_to_string n) = length (digits n)) as ->.
  { unfold nat_to_string. induction (digits n); simpl; congruence. }
  destruct (decide (n = 0)) as [->|Hn0]; [simpl; lia|]. pose proof (digits_length n Hn Hn0) as [Hlo _].
  destruct (Nat.le_gt_cases (length (digits n)) k) as [|Hgt]; [done|].
  assert (10 ^ Z.of_nat k <= 10 ^ (Z.of_nat (length (digits n)) - 1)) by (apply Z.pow_le_mono_r; lia). lia.
Qed.

Lemma nat_to_string_inj n m :
  0 <= n < 10 ^ 39 -> 0 <= m < 10 ^ 39 -> nat_to_string n = nat_to_string m -> n = m.
Proof.
  intros Hn Hm Heq. destruct (digits_spec n Hn) as [Hdn <-], (digits_spec m Hm) as [Hdm <-].
  f_equal. rewrite <-(string_digits_string _ Hdn), <-(string_digits_string _ Hdm).
  unfold nat_to_string in Heq. by rewrite Heq.
Qed.

Lemma nat_to_string_numeric n :
  0 <= n < 10 ^ 39 -> forallb numeric (as_bytes (nat_to_string n)) = true.
Proof.
  intros Hn. destruct (digits_spec n Hn) as [Hd _]. unfold nat_to_string.
  induction Hd as [|d l Hd _ IH]; [done|]. unfold as_bytes in *. simpl.
  rewrite digit_char_byte by done. unfold digit in Hd.
  apply andb_true_iff. split; [|exact IH]. unfold numeric. lia.
Qed.
