(* ===== verification/Segments.v ===== *)
(** The [str] operations object keys are written and read with: splitting,
    prefixes and suffixes, and fixed-width decimal numbers. *)
From S2P Require Import Prelude BTree Json Digits.

(** * Operations *)

(** [s.bytes().all(p)]. *)
Fixpoint all_bytes (p : Ascii.ascii -> bool) (s : string) : bool :=
  match s with EmptyString => true | String c s => p c && all_bytes p s end.

(** [s.split(c)]: never empty. *)
Fixpoint split (c : Ascii.ascii) (s : string) : list string :=
  match s with
  | EmptyString => [EmptyString]
  | String a s =>
      if Ascii.eqb a c then EmptyString :: split c s
      else match split c s with
           | piece :: pieces => String a piece :: pieces
           | [] => [String a EmptyString]
           end
  end.

(** [s.split_once(c)]. *)
Fixpoint split_once (c : Ascii.ascii) (s : string) : option (string * string) :=
  match s with
  | EmptyString => None
  | String a s =>
      if Ascii.eqb a c then Some (EmptyString, s)
      else match split_once c s with
           | Some (before, after) => Some (String a before, after)
           | None => None
           end
  end.

(** [s.strip_prefix(prefix)] and [s.starts_with(prefix)]. *)
Fixpoint strip_prefix (prefix s : string) : option string :=
  match prefix, s with
  | EmptyString, _ => Some s
  | String a prefix, String b s => if Ascii.eqb a b then strip_prefix prefix s else None
  | String _ _, EmptyString => None
  end.
Definition starts_with (prefix s : string) : bool := bool_decide (is_Some (strip_prefix prefix s)).

(** [s.strip_suffix(suffix)]. *)
Fixpoint strip_suffix (suffix s : string) : option string :=
  if String.eqb s suffix then Some EmptyString
  else match s with
       | EmptyString => None
       | String a s => String a <$> strip_suffix suffix s
       end.

Definition ends_with (suffix s : string) : bool := bool_decide (is_Some (strip_suffix suffix s)).

(** [format!("{n:0width$}")] of an unsigned integer. *)
Definition zero_padded (width : nat) (n : Z) : string :=
  digits_string (replicate (width - length (digits n)) 0 ++ digits n).

(** [s.parse::<uN>()] of a non-empty digit string. *)
Definition parse_unsigned (max : Z) (s : string) : option Z :=
  let n := undigits (string_digits s) in
  if negb (String.eqb s "") && all_digits s && (n <=? max) then Some n else None.

(** The UTF-8 encodings of the characters with the [White_Space] property. *)
Definition strip_white (s : bytes) : option bytes :=
  match s with
  | b :: r => if in_range 9 13 b || (b =? 32) then Some r else
    match s with
    | 0xC2 :: b :: r => if (b =? 0x85) || (b =? 0xA0) then Some r else None
    | 0xE1 :: 0x9A :: 0x80 :: r => Some r
    | 0xE2 :: 0x80 :: b :: r =>
        if in_range 0x80 0x8A b || (b =? 0xA8) || (b =? 0xA9) || (b =? 0xAF) then Some r else None
    | 0xE2 :: 0x81 :: 0x9F :: r => Some r
    | 0xE3 :: 0x80 :: 0x80 :: r => Some r
    | _ => None
    end
  | [] => None
  end.

Fixpoint blank_fuel (fuel : nat) (s : bytes) : bool :=
  match s, fuel with
  | [], _ => true
  | _, O => false
  | _, S fuel => match strip_white s with Some r => blank_fuel fuel r | None => false end
  end.

(** [s.trim().is_empty()]; every step drops a byte at least. *)
Definition is_blank (s : string) : bool := blank_fuel (String.length s) (as_bytes s).

(** The text with the pieces separated by [c]. *)
Definition joined (c : Ascii.ascii) (pieces : list string) : string :=
  String.concat (String c EmptyString) pieces.

(** The string has no byte [c]. *)
Definition lacks (c : Ascii.ascii) (s : string) : bool := all_bytes (fun a => negb (Ascii.eqb a c)) s.

(** * Lemmas *)

Lemma append_cons x a b : String x a +:+ b = String x (a +:+ b).
Proof. done. Qed.
Lemma append_nil_l b : "" +:+ b = b.
Proof. done. Qed.

Lemma append_assoc a b c : (a +:+ b) +:+ c = a +:+ (b +:+ c).
Proof. induction a as [|x a IH]; [done|]. by rewrite !append_cons, IH. Qed.

Lemma append_empty_r a : a +:+ "" = a.
Proof. induction a as [|x a IH]; [done|]. by rewrite append_cons, IH. Qed.

Lemma append_length a b : String.length (a +:+ b) = (String.length a + String.length b)%nat.
Proof. induction a as [|x a IH]; [done|]. rewrite append_cons. simpl. by rewrite IH. Qed.

Lemma append_cancel_r a b c : a +:+ c = b +:+ c -> a = b.
Proof.
  intros Heq. assert (String.length a = String.length b) as Hlen.
  { apply (f_equal String.length) in Heq. rewrite !append_length in Heq. lia. }
  revert b Heq Hlen. induction a as [|x a IH]; intros [|y b] Heq Hlen; try done.
  rewrite !append_cons in Heq. injection Heq as -> Heq. injection Hlen as Hlen. f_equal. by apply IH.
Qed.

Lemma all_bytes_app p a b : all_bytes p (a +:+ b) = all_bytes p a && all_bytes p b.
Proof. induction a as [|x a IH]; [done|]. rewrite append_cons. simpl. by rewrite IH, andb_assoc. Qed.

Lemma all_bytes_weaken (p q : Ascii.ascii -> bool) s :
  (forall c, p c = true -> q c = true) -> all_bytes p s = true -> all_bytes q s = true.
Proof.
  intros Hpq. induction s as [|c s IH]; [done|]. simpl. rewrite !andb_true_iff. naive_solver.
Qed.

Lemma all_digits_bytes s : all_digits s = all_bytes is_ascii_digit s.
Proof. induction s as [|c s IH]; [done|]. simpl. by rewrite IH. Qed.

Lemma split_nonempty c s : exists piece pieces, split c s = piece :: pieces.
Proof.
  induction s as [|a s (p & ps & IH)]; simpl; [eauto|].
  destruct (Ascii.eqb a c); [eauto|]. rewrite IH. eauto.
Qed.

Lemma split_lacks c s : lacks c s = true -> split c s = [s].
Proof.
  unfold lacks. induction s as [|a s IH]; [done|]. simpl.
  intros [Ha Hs]%andb_true_iff. apply negb_true_iff in Ha. by rewrite Ha, IH.
Qed.

Lemma split_app c s r : lacks c s = true -> split c (s +:+ String c r) = s :: split c r.
Proof.
  unfold lacks. induction s as [|a s IH]; rewrite ?append_nil_l, ?append_cons; simpl; [by rewrite Ascii.eqb_refl|].
  intros [Ha Hs]%andb_true_iff. apply negb_true_iff in Ha. by rewrite Ha, IH.
Qed.

Lemma joined_cons c p q ps : joined c (p :: q :: ps) = p +:+ String c (joined c (q :: ps)).
Proof. done. Qed.

Lemma joined_one c p : joined c [p] = p.
Proof. done. Qed.

(** Splitting inverts joining pieces that lack the separator, and joining
    inverts splitting. *)
Lemma split_joined c p ps :
  lacks c p = true -> Forall (fun s => lacks c s = true) ps -> split c (joined c (p :: ps)) = p :: ps.
Proof.
  intros Hp Hps. revert p Hp. induction Hps as [|q ps Hq _ IH]; intros p Hp; [by apply split_lacks|].
  by rewrite joined_cons, split_app, IH.
Qed.

Lemma joined_split c s : joined c (split c s) = s.
Proof.
  induction s as [|a s IH]; [done|]. simpl.
  destruct (split_nonempty c s) as (p & ps & Heq). rewrite Heq in *.
  destruct (Ascii.eqb a c) eqn:Ha.
  - apply Ascii.eqb_eq in Ha as ->. by rewrite joined_cons, IH.
  - rewrite <-IH. by destruct ps.
Qed.

Lemma split_pieces_lack c s : Forall (fun p => lacks c p = true) (split c s).
Proof.
  induction s as [|a s IH]; simpl; [by repeat constructor|].
  destruct (Ascii.eqb a c) eqn:Ha; [by constructor|].
  destruct (split c s) as [|p ps]; [constructor|]; [unfold lacks; simpl; by rewrite Ha|done|].
  apply Forall_cons in IH as [Hp Hps]. constructor; [|done]. unfold lacks in *. simpl. by rewrite Ha.
Qed.

Lemma split_once_some c s a b :
  split_once c s = Some (a, b) <-> s = a +:+ String c b /\ lacks c a = true.
Proof.
  revert a. induction s as [|x s IH]; intros a; simpl.
  - split; [done|]. intros [Heq _]. by destruct a.
  - destruct (Ascii.eqb x c) eqn:Hx.
    + apply Ascii.eqb_eq in Hx as ->. split; [by intros [= <- <-]|].
      intros [Heq Ha]. destruct a as [|y a]; [rewrite append_nil_l in Heq; by simplify_eq|]. rewrite append_cons in Heq. injection Heq as <- _.
      unfold lacks in Ha. simpl in Ha. by rewrite Ascii.eqb_refl in Ha.
    + split.
      * destruct (split_once c s) as [[p q]|]; [|done]. intros [= <- <-].
        destruct (proj1 (IH p)) as [-> Hp]; [done|]. split; [done|].
        unfold lacks in *. simpl. by rewrite Hx.
      * intros [Heq Ha]. destruct a as [|y a]; rewrite ?append_nil_l, ?append_cons in Heq; simplify_eq.
        { by rewrite Ascii.eqb_refl in Hx. }
        unfold lacks in Ha. simpl in Ha. apply andb_true_iff in Ha as [_ Ha].
        rewrite (proj2 (IH a)); done.
Qed.

Lemma strip_prefix_some p s r : strip_prefix p s = Some r <-> s = p +:+ r.
Proof.
  revert s. induction p as [|a p IH]; intros s; simpl; [rewrite append_nil_l; split; congruence|].
  destruct s as [|b s]; [done|]. rewrite append_cons. destruct (Ascii.eqb a b) eqn:Hab.
  - apply Ascii.eqb_eq in Hab as ->. rewrite IH. split; [by intros ->|by intros [= ->]].
  - split; [done|]. intros [= -> _]. by rewrite Ascii.eqb_refl in Hab.
Qed.

Lemma starts_with_app p s : starts_with p (p +:+ s) = true.
Proof. unfold starts_with. apply bool_decide_eq_true. exists s. by apply strip_prefix_some. Qed.

Lemma starts_with_true p s : starts_with p s = true <-> exists r, s = p +:+ r.
Proof.
  unfold starts_with. rewrite bool_decide_eq_true. unfold is_Some.
  by setoid_rewrite strip_prefix_some.
Qed.

Lemma strip_suffix_cons q a s : strip_suffix q (String a s) =
  if String.eqb (String a s) q then Some "" else String a <$> strip_suffix q s.
Proof. done. Qed.

Lemma strip_suffix_self q s : strip_suffix q (s +:+ q) = Some s.
Proof.
  induction s as [|a s IH].
  - rewrite append_nil_l. destruct q as [|b q]; [done|]. by rewrite strip_suffix_cons, String.eqb_refl.
  - rewrite append_cons, strip_suffix_cons, IH.
    destruct (String.eqb_spec (String a (s +:+ q)) q) as [Heq|]; [|done].
    apply (f_equal String.length) in Heq. simpl in Heq. rewrite append_length in Heq. lia.
Qed.

Lemma strip_suffix_some q s r : strip_suffix q s = Some r <-> s = r +:+ q.
Proof.
  split; [|intros ->; apply strip_suffix_self].
  revert r. induction s as [|a s IH]; intros r.
  - unfold strip_suffix. destruct (String.eqb_spec "" q) as [<-|]; [by intros [= <-]|done].
  - rewrite strip_suffix_cons. destruct (String.eqb_spec (String a s) q) as [<-|]; [by intros [= <-]|].
    intros (r' & Hr & ->)%fmap_Some. by rewrite append_cons, <-(IH r').
Qed.

(** ** Fixed-width numbers *)

Section fixed_width.
Variables (width : nat) (n : Z).
Hypothesis Hwidth : (0 < width <= 39)%nat.
Hypothesis Hn : 0 <= n < 10 ^ Z.of_nat width.

Lemma padded_digits_spec :
  let l := replicate (width - length (digits n)) 0 ++ digits n in
  Forall digit l /\ undigits l = n /\ length l = width.
Proof using Hwidth Hn.
  assert (0 <= n < 10 ^ 39) as Hn39.
  { split; [lia|]. eapply Z.lt_le_trans; [apply Hn|]. apply Z.pow_le_mono_r; lia. }
  destruct (digits_spec n Hn39) as [Hd Hu]. cbv zeta. split_and!.
  - apply Forall_app. split; [|done]. apply Forall_replicate. unfold digit. lia.
  - rewrite undigits_app, Hu.
    assert (forall k, undigits (replicate k 0) = 0) as ->; [|lia].
    intros k. induction k as [|k IH]; [done|]. cbn [replicate]. rewrite undigits_cons, IH. lia.
  - rewrite length_app, length_replicate.
    assert (length (digits n) <= width)%nat; [|lia].
    destruct (decide (n = 0)) as [->|Hn0]; [vm_compute; lia|].
    pose proof (digits_length n Hn39 Hn0) as [Hlow _].
    assert (Z.of_nat (length (digits n)) - 1 < Z.of_nat width); [|lia].
    apply (Z.pow_lt_mono_r_iff 10); lia.
Qed.

Lemma zero_padded_digits : all_digits (zero_padded width n) = true.
Proof using Hwidth Hn. apply all_digits_string, padded_digits_spec. Qed.

Lemma zero_padded_length : String.length (zero_padded width n) = width.
Proof using Hwidth Hn. unfold zero_padded. rewrite length_digits_string. apply padded_digits_spec. Qed.

Lemma zero_padded_value : undigits (string_digits (zero_padded width n)) = n.
Proof using Hwidth Hn.
  unfold zero_padded. destruct padded_digits_spec as (Hd & Hu & _). by rewrite string_digits_string.
Qed.
End fixed_width.

Lemma undigits_inj l1 l2 : Forall digit l1 -> Forall digit l2 -> length l1 = length l2 ->
  undigits l1 = undigits l2 -> l1 = l2.
Proof.
  intros H1. revert l2. induction H1 as [|d l1 Hd Hl1 IH]; intros [|e l2] H2 Hlen Heq; try done.
  apply Forall_cons in H2 as [He Hl2]. injection Hlen as Hlen. rewrite !undigits_cons, Hlen in Heq.
  pose proof (undigits_bound _ Hl1) as Hb1. pose proof (undigits_bound _ Hl2) as Hb2. rewrite Hlen in Hb1.
  assert (d = e) as -> by nia. f_equal. apply IH; [done..|]. lia.
Qed.

(** The fixed-width text of a number is the only digit string of that width
    with its value. *)
Lemma zero_padded_unique width s : (0 < width <= 39)%nat -> all_digits s = true ->
  String.length s = width -> s = zero_padded width (undigits (string_digits s)).
Proof.
  intros Hw Hs Hlen. pose proof (string_digits_digit s Hs) as Hd.
  pose proof (undigits_bound _ Hd) as Hb. rewrite length_string_digits, Hlen in Hb.
  destruct (padded_digits_spec width _ Hw Hb) as (Hd' & Hu & Hl).
  rewrite <-(digits_string_digits s Hs) at 1. unfold zero_padded. f_equal.
  apply undigits_inj; [done..| |done]. rewrite length_string_digits. congruence.
Qed.

Lemma zero_padded_inj width n m : (0 < width <= 39)%nat ->
  0 <= n < 10 ^ Z.of_nat width -> 0 <= m < 10 ^ Z.of_nat width ->
  zero_padded width n = zero_padded width m -> n = m.
Proof.
  intros Hw Hn Hm Heq. rewrite <-(zero_padded_value width n Hw Hn), Heq. by apply zero_padded_value.
Qed.

(** Byte order on fixed-width numbers is the numeric order. *)
Lemma digits_string_cmp l1 l2 : Forall digit l1 -> Forall digit l2 -> length l1 = length l2 ->
  string_cmp (digits_string l1) (digits_string l2) = Z.compare (undigits l1) (undigits l2).
Proof.
  intros H1. revert l2. induction H1 as [|d l1 Hd Hl1 IH]; intros [|e l2] H2 Hlen; try done.
  apply Forall_cons in H2 as [He Hl2]. injection Hlen as Hlen. cbn [digits_string string_cmp].
  rewrite !undigits_cons, Hlen, IH by done.
  pose proof (undigits_bound _ Hl1) as Hb1. pose proof (undigits_bound _ Hl2) as Hb2. rewrite Hlen in Hb1.
  assert (cmp (digit_char d) (digit_char e) = Z.compare d e) as ->.
  { change (cmp (digit_char d) (digit_char e)) with
      (N.compare (Ascii.N_of_ascii (digit_char d)) (Ascii.N_of_ascii (digit_char e))).
    unfold digit, digit_char in *. rewrite !Ascii.N_ascii_embedding by lia.
    rewrite <-N2Z.inj_compare, !Z2N.id by lia. destruct (Z.compare_spec d e);
      [subst; apply Z.compare_refl|apply Z.compare_lt_iff; lia|apply Z.compare_gt_iff; lia]. }
  destruct (Z.compare_spec d e) as [->|Hlt|Hgt]; cbn [lex].
  - destruct (Z.compare_spec (undigits l1) (undigits l2)); symmetry;
      [apply Z.compare_eq_iff|apply Z.compare_lt_iff|apply Z.compare_gt_iff]; lia.
  - symmetry. apply Z.compare_lt_iff. nia.
  - symmetry. apply Z.compare_gt_iff. nia.
Qed.

Lemma zero_padded_cmp width n m : (0 < width <= 39)%nat ->
  0 <= n < 10 ^ Z.of_nat width -> 0 <= m < 10 ^ Z.of_nat width ->
  string_cmp (zero_padded width n) (zero_padded width m) = Z.compare n m.
Proof.
  intros Hw Hn Hm. destruct (padded_digits_spec width n Hw Hn) as (? & Hun & ?).
  destruct (padded_digits_spec width m Hw Hm) as (? & Hum & ?).
  unfold zero_padded. rewrite digits_string_cmp, Hun, Hum; [done..|]. congruence.
Qed.

Lemma string_cmp_app_l p a b : string_cmp (p +:+ a) (p +:+ b) = string_cmp a b.
Proof.
  induction p as [|c p IH]; [done|]. rewrite !append_cons. cbn [string_cmp].
  by rewrite (proj2 (cmp_eq c c) eq_refl).
Qed.

Lemma string_cmp_app_r a b q : String.length a = String.length b ->
  string_cmp (a +:+ q) (b +:+ q) = string_cmp a b.
Proof.
  revert b. induction a as [|c a IH]; intros [|d b] Hlen; try done.
  - simpl. apply string_cmp_eq. done.
  - injection Hlen as Hlen. rewrite !append_cons. cbn [string_cmp]. by rewrite IH.
Qed.
