(* ===== verification/ObjectKey.v ===== *)
(** Object keys, [velorix-storage/src/object_key.rs].

    A key is built from its parts by one constructor per kind of artifact, and
    read back by [parse], which accepts the known layouts only. The layouts are
    slash-separated segments with fixed-width decimal numbers. The Rust slice
    patterns of [validate_known_layout] distinguish layouts by their second
    segment first, and so does the definition here. *)
From Stdlib Require Import Ascii.
From S2P Require Import Prelude BTree Json Digits Segments.

Definition PARTITION_WIDTH : nat := 10.
Definition CHECKPOINT_WIDTH : nat := 20.
Definition OFFSET_WIDTH : nat := 20.

Record ObjectKey := Key { as_str : string }.

#[export] Instance ObjectKey_eq_dec : EqDecision ObjectKey.
Proof. solve_decision. Defined.
#[export] Instance ObjectKey_countable : Countable ObjectKey.
Proof. by refine (inj_countable' as_str Key _); intros []. Defined.

(** * Parts *)

Record IngestBatchKeyParts := IngestBatchKey {
  ib_stream_id : string;
  ib_partition_id : Z;
  ib_start_offset_inclusive : Z;
  ib_end_offset_exclusive : Z
}.

Record IngestStagingKeyParts := IngestStagingKey {
  is_stream_id : string;
  is_partition_id : Z;
  is_start_offset_inclusive : Z;
  is_end_offset_exclusive : Z;
  is_staging_id : string
}.

Record OutputObjectKeyParts := OutputObjectKey {
  oo_stream_id : string;
  oo_partition_id : Z;
  oo_checkpoint_version : Z;
  oo_start_offset_inclusive : Z;
  oo_end_offset_exclusive : Z;
  oo_object_id : string
}.

Record OwnershipEpochRecordKeyParts := OwnershipEpochRecordKey {
  oe_stream_id : string;
  oe_partition_id : Z;
  oe_owner_epoch : Z
}.


Record StandingRuntimeCheckpointKeyParts := StandingRuntimeCheckpointKey {
  sc_tenant_id : string;
  sc_program_id : string;
  sc_view_id : string;
  sc_logical_epoch : Z;
  sc_content_hash : string
}.


Record StandingRuntimeStatePayloadKeyParts := StandingRuntimeStatePayloadKey {
  sp_tenant_id : string;
  sp_program_id : string;
  sp_view_id : string;
  sp_logical_epoch : Z;
  sp_state_content_hash : string
}.


Record StandingRuntimeOutputManifestKeyParts := StandingRuntimeOutputManifestKey {
  so_tenant_id : string;
  so_program_id : string;
  so_view_id : string;
  so_logical_epoch : Z;
  so_output_content_hash : string
}.


Record StandingRuntimeOutputPageKeyParts := StandingRuntimeOutputPageKey {
  sg_tenant_id : string;
  sg_program_id : string;
  sg_view_id : string;
  sg_logical_epoch : Z;
  sg_page_index : Z;
  sg_page_content_hash : string
}.


Record StandingRuntimeOutputDeltaKeyParts := StandingRuntimeOutputDeltaKey {
  sd_tenant_id : string;
  sd_program_id : string;
  sd_view_id : string;
  sd_logical_epoch : Z;
  sd_delta_content_hash : string
}.


Inductive ObjectKeyError :=
| EmptySegment (name : string)
| UnsafeSegment (name value : string)
| InvalidOffsetRange (start_offset_inclusive end_offset_exclusive : Z)
| InvalidExternalKey (value : string).

(** * Validators *)

Definition is_ascii_alphanumeric (c : Ascii.ascii) : bool :=
  let b := byte_of_ascii c in
  ((48 <=? b) && (b <=? 57)) || ((65 <=? b) && (b <=? 90)) || ((97 <=? b) && (b <=? 122)).

Definition is_ascii_hexdigit (c : Ascii.ascii) : bool :=
  let b := byte_of_ascii c in
  ((48 <=? b) && (b <=? 57)) || ((65 <=? b) && (b <=? 70)) || ((97 <=? b) && (b <=? 102)).

(** [byte.is_ascii_alphanumeric() || matches!(byte, b'-' | b'_' | b'.')]. *)
Definition segment_byte (c : Ascii.ascii) : bool :=
  is_ascii_alphanumeric c || Ascii.eqb c "-"%char || Ascii.eqb c "_"%char || Ascii.eqb c "."%char.

Definition validate_segment (name value : string) : result ObjectKeyError unit :=
  if String.eqb value "" then Err (EmptySegment name)
  else if String.eqb value "." || String.eqb value ".." || negb (all_bytes segment_byte value)
  then Err (UnsafeSegment name value)
  else Ok tt.

Definition validate_offset_range (start_offset_inclusive end_offset_exclusive : Z) :
    result ObjectKeyError unit :=
  fail_if (end_offset_exclusive <=? start_offset_inclusive)
    (InvalidOffsetRange start_offset_inclusive end_offset_exclusive).

Definition validate_sha256_hex (hash : string) : result ObjectKeyError unit :=
  if (String.length hash =? 64)%nat && all_bytes is_ascii_hexdigit hash then Ok tt
  else Err (UnsafeSegment "artifact_hash" hash).

Definition parse_sha256_hash_segment (artifact_hash : string) : result ObjectKeyError string :=
  hash ← ok_or (UnsafeSegment "artifact_hash" artifact_hash) (strip_prefix "sha256:" artifact_hash);
  _ ← validate_sha256_hex hash;
  Ok hash.

Definition parse_view_spec_hash_segment (spec_hash : string) : result ObjectKeyError string :=
  hash ← ok_or (UnsafeSegment "spec_hash" spec_hash)
    (strip_prefix "velorix-view-spec-sha256-v1:" spec_hash);
  _ ← map_err (fun _ => UnsafeSegment "spec_hash" hash) (validate_sha256_hex hash);
  Ok hash.

Definition is_fixed_width_digits (value : string) (width : nat) : bool :=
  (String.length value =? width)%nat && all_bytes is_ascii_digit value.

Definition parse_fixed_u32 (name value : string) (width : nat) : result ObjectKeyError Z :=
  if negb (is_fixed_width_digits value width) then Err (UnsafeSegment name value)
  else ok_or (InvalidExternalKey value) (parse_unsigned u32_max value).

Definition parse_fixed_u64 (name value : string) (width : nat) : result ObjectKeyError Z :=
  if negb (is_fixed_width_digits value width) then Err (UnsafeSegment name value)
  else ok_or (InvalidExternalKey value) (parse_unsigned u64_max value).

Definition parse_prefixed_u32 (name value prefix : string) (width : nat) : result ObjectKeyError Z :=
  value ← ok_or (InvalidExternalKey value) (strip_prefix prefix value);
  parse_fixed_u32 name value width.

Definition parse_prefixed_u64 (name value prefix : string) (width : nat) : result ObjectKeyError Z :=
  value ← ok_or (InvalidExternalKey value) (strip_prefix prefix value);
  parse_fixed_u64 name value width.

Definition parse_offset_range (value range : string) : result ObjectKeyError (Z * Z) :=
  '(start, stop) ← ok_or (InvalidExternalKey value) (split_once "-"%char range);
  start_offset_inclusive ← parse_fixed_u64 "start_offset_inclusive" start OFFSET_WIDTH;
  end_offset_exclusive ← parse_fixed_u64 "end_offset_exclusive" stop OFFSET_WIDTH;
  _ ← validate_offset_range start_offset_inclusive end_offset_exclusive;
  Ok (start_offset_inclusive, end_offset_exclusive).

(** * Constructors *)

Definition ingest_batch (stream_id : string)
    (partition_id start_offset_inclusive end_offset_exclusive : Z) :
    result ObjectKeyError ObjectKey :=
  _ ← validate_segment "stream_id" stream_id;
  _ ← validate_offset_range start_offset_inclusive end_offset_exclusive;
  Ok (Key ("v1/ingest/" +:+ stream_id +:+ "/p=" +:+ zero_padded PARTITION_WIDTH partition_id +:+
    "/" +:+ zero_padded OFFSET_WIDTH start_offset_inclusive +:+ "-" +:+
    zero_padded OFFSET_WIDTH end_offset_exclusive +:+ ".batch")).

Definition ingest_staging (stream_id : string)
    (partition_id start_offset_inclusive end_offset_exclusive : Z) (staging_id : string) :
    result ObjectKeyError ObjectKey :=
  _ ← validate_segment "stream_id" stream_id;
  _ ← validate_segment "staging_id" staging_id;
  _ ← validate_offset_range start_offset_inclusive end_offset_exclusive;
  Ok (Key ("v1/ingest-staging/" +:+ stream_id +:+ "/p=" +:+
    zero_padded PARTITION_WIDTH partition_id +:+ "/" +:+
    zero_padded OFFSET_WIDTH start_offset_inclusive +:+ "-" +:+
    zero_padded OFFSET_WIDTH end_offset_exclusive +:+ "/" +:+ staging_id +:+ ".stage")).

Definition ingest_staging_object (stream_id : string)
    (partition_id start_offset_inclusive end_offset_exclusive : Z) (staging_id : string) :
    result ObjectKeyError ObjectKey :=
  ingest_staging stream_id partition_id start_offset_inclusive end_offset_exclusive staging_id.

Definition ingest_admission_record (stream_id : string)
    (partition_id start_offset_inclusive end_offset_exclusive : Z) :
    result ObjectKeyError ObjectKey :=
  _ ← validate_segment "stream_id" stream_id;
  _ ← validate_offset_range start_offset_inclusive end_offset_exclusive;
  Ok (Key ("v1/ingest-admission/" +:+ stream_id +:+ "/p=" +:+
    zero_padded PARTITION_WIDTH partition_id +:+ "/ranges/" +:+
    zero_padded OFFSET_WIDTH start_offset_inclusive +:+ "-" +:+
    zero_padded OFFSET_WIDTH end_offset_exclusive +:+ ".admission.json")).

Definition ingest_admission_orphan_expiry_decision (stream_id : string)
    (partition_id start_offset_inclusive end_offset_exclusive : Z) (decision_id : string) :
    result ObjectKeyError ObjectKey :=
  _ ← validate_segment "stream_id" stream_id;
  _ ← validate_segment "decision_id" decision_id;
  _ ← validate_offset_range start_offset_inclusive end_offset_exclusive;
  Ok (Key ("v1/ingest-admission/" +:+ stream_id +:+ "/p=" +:+
    zero_padded PARTITION_WIDTH partition_id +:+ "/ranges/" +:+
    zero_padded OFFSET_WIDTH start_offset_inclusive +:+ "-" +:+
    zero_padded OFFSET_WIDTH end_offset_exclusive +:+ "/expiry-decisions/" +:+
    decision_id +:+ ".expiry.json")).

Definition ingest_epoch_manifest (epoch_manifest_id : string) :
    result ObjectKeyError ObjectKey :=
  hash ← parse_sha256_hash_segment epoch_manifest_id;
  Ok (Key ("v1/ingest-epochs/sha256/" +:+ hash +:+ ".epoch.json")).

Definition ingest_epoch_view_convergence (epoch_manifest_id tenant_id program_id view_id : string) :
    result ObjectKeyError ObjectKey :=
  hash ← parse_sha256_hash_segment epoch_manifest_id;
  _ ← validate_segment "tenant_id" tenant_id;
  _ ← validate_segment "program_id" program_id;
  _ ← validate_segment "view_id" view_id;
  Ok (Key ("v1/ingest-epoch-convergence/sha256/" +:+ hash +:+ "/" +:+ tenant_id +:+ "/" +:+
    program_id +:+ "/" +:+ view_id +:+ ".convergence.json")).

Definition ingest_epoch_view_runtime_failure
    (epoch_manifest_id tenant_id program_id view_id : string) :
    result ObjectKeyError ObjectKey :=
  hash ← parse_sha256_hash_segment epoch_manifest_id;
  _ ← validate_segment "tenant_id" tenant_id;
  _ ← validate_segment "program_id" program_id;
  _ ← validate_segment "view_id" view_id;
  Ok (Key ("v1/ingest-epoch-runtime-failures/sha256/" +:+ hash +:+ "/" +:+ tenant_id +:+ "/" +:+
    program_id +:+ "/" +:+ view_id +:+ ".failure.json")).

Definition state_object (owner : string) (partition_id checkpoint_version : Z)
    (object_id : string) :
    result ObjectKeyError ObjectKey :=
  _ ← validate_segment "owner" owner;
  _ ← validate_segment "object_id" object_id;
  Ok (Key ("v1/state/" +:+ owner +:+ "/p=" +:+ zero_padded PARTITION_WIDTH partition_id +:+
    "/chk=" +:+ zero_padded CHECKPOINT_WIDTH checkpoint_version +:+ "/" +:+ object_id +:+
    ".state")).

Definition output_object (stream_id : string)
    (partition_id checkpoint_version start_offset_inclusive end_offset_exclusive : Z) (object_id : string) :
    result ObjectKeyError ObjectKey :=
  _ ← validate_segment "stream_id" stream_id;
  _ ← validate_segment "object_id" object_id;
  _ ← validate_offset_range start_offset_inclusive end_offset_exclusive;
  Ok (Key ("v1/outputs/" +:+ stream_id +:+ "/p=" +:+ zero_padded PARTITION_WIDTH partition_id +:+
    "/chk=" +:+ zero_padded CHECKPOINT_WIDTH checkpoint_version +:+ "/" +:+
    zero_padded OFFSET_WIDTH start_offset_inclusive +:+ "-" +:+
    zero_padded OFFSET_WIDTH end_offset_exclusive +:+ "/" +:+ object_id +:+ ".output")).

Definition temp_publish (checkpoint_version : Z) (attempt_or_object_id kind : string) :
    result ObjectKeyError ObjectKey :=
  _ ← validate_segment "attempt_or_object_id" attempt_or_object_id;
  _ ← validate_segment "kind" kind;
  Ok (Key ("v1/tmp/" +:+ zero_padded CHECKPOINT_WIDTH checkpoint_version +:+ "/" +:+
    attempt_or_object_id +:+ "/" +:+ kind)).

Definition checkpoint_manifest (checkpoint_version : Z) : ObjectKey :=
  Key ("v1/checkpoints/" +:+ zero_padded CHECKPOINT_WIDTH checkpoint_version +:+ ".manifest").

Definition checkpoint_latest_candidate_marker : ObjectKey :=
  Key ("v1/checkpoint-index/latest-candidate.json").

Definition checkpoint_lifecycle_record (checkpoint_version : Z) : ObjectKey :=
  Key ("v1/checkpoint-lifecycle/" +:+ zero_padded CHECKPOINT_WIDTH checkpoint_version +:+
    ".status.json").

Definition checkpoint_gc_transition_record (checkpoint_version : Z) (transition_id : string) :
    result ObjectKeyError ObjectKey :=
  _ ← validate_segment "transition_id" transition_id;
  Ok (Key ("v1/checkpoint-gc-transitions/" +:+ zero_padded CHECKPOINT_WIDTH checkpoint_version +:+
    "/transitions/" +:+ transition_id +:+ ".transition.json")).

Definition checkpoint_retention_record (checkpoint_version : Z) : ObjectKey :=
  Key ("v1/checkpoint-retention/" +:+ zero_padded CHECKPOINT_WIDTH checkpoint_version +:+
    ".retention.json").

Definition checkpoint_recovery_transition_record (checkpoint_version : Z) (transition_id : string) :
    result ObjectKeyError ObjectKey :=
  _ ← validate_segment "transition_id" transition_id;
  Ok (Key ("v1/checkpoint-recovery/" +:+ zero_padded CHECKPOINT_WIDTH checkpoint_version +:+
    "/transitions/" +:+ transition_id +:+ ".transition.json")).

Definition garbage_collection_run (run_id : string) :
    result ObjectKeyError ObjectKey :=
  _ ← validate_segment "run_id" run_id;
  Ok (Key ("v1/gc-runs/" +:+ run_id +:+ ".run.json")).

Definition ownership_epoch_record (stream_id : string) (partition_id owner_epoch : Z) :
    result ObjectKeyError ObjectKey :=
  _ ← validate_segment "stream_id" stream_id;
  Ok (Key ("v1/ownership/" +:+ stream_id +:+ "/p=" +:+ zero_padded PARTITION_WIDTH partition_id +:+
    "/epoch=" +:+ zero_padded CHECKPOINT_WIDTH owner_epoch +:+ ".claim")).

Definition query_policy (tenant_id query_policy_id : string) :
    result ObjectKeyError ObjectKey :=
  _ ← validate_segment "tenant_id" tenant_id;
  _ ← validate_segment "query_policy_id" query_policy_id;
  Ok (Key ("v1/query-policy/" +:+ tenant_id +:+ "/" +:+ query_policy_id +:+ ".json")).

Definition materialized_view (view_id spec_hash : string) :
    result ObjectKeyError ObjectKey :=
  _ ← validate_segment "view_id" view_id;
  hash ← parse_view_spec_hash_segment spec_hash;
  Ok (Key ("v1/views/" +:+ view_id +:+ "/spec-sha256/" +:+ hash +:+ ".view.json")).

Definition active_materialized_view (view_id : string) :
    result ObjectKeyError ObjectKey :=
  _ ← validate_segment "view_id" view_id;
  Ok (Key ("v1/views/" +:+ view_id +:+ "/active.json")).

Definition standing_runtime_checkpoint (tenant_id program_id view_id : string) (logical_epoch : Z)
    (content_hash : string) :
    result ObjectKeyError ObjectKey :=
  _ ← validate_segment "tenant_id" tenant_id;
  _ ← validate_segment "program_id" program_id;
  _ ← validate_segment "view_id" view_id;
  hash ← parse_sha256_hash_segment content_hash;
  Ok (Key ("v1/standing-runtime-checkpoints/" +:+ tenant_id +:+ "/" +:+ program_id +:+ "/" +:+
    view_id +:+ "/epochs/" +:+ zero_padded CHECKPOINT_WIDTH logical_epoch +:+ "/sha256/" +:+
    hash +:+ ".checkpoint.arrow")).

Definition standing_runtime_latest_checkpoint (tenant_id program_id view_id : string) :
    result ObjectKeyError ObjectKey :=
  _ ← validate_segment "tenant_id" tenant_id;
  _ ← validate_segment "program_id" program_id;
  _ ← validate_segment "view_id" view_id;
  Ok (Key ("v1/standing-runtime-checkpoints/" +:+ tenant_id +:+ "/" +:+ program_id +:+ "/" +:+
    view_id +:+ "/latest.json")).

Definition standing_runtime_state_payload (tenant_id program_id view_id : string)
    (logical_epoch : Z) (state_content_hash : string) :
    result ObjectKeyError ObjectKey :=
  _ ← validate_segment "tenant_id" tenant_id;
  _ ← validate_segment "program_id" program_id;
  _ ← validate_segment "view_id" view_id;
  hash ← parse_sha256_hash_segment state_content_hash;
  Ok (Key ("v1/standing-runtime-state-payloads/" +:+ tenant_id +:+ "/" +:+ program_id +:+ "/" +:+
    view_id +:+ "/epochs/" +:+ zero_padded CHECKPOINT_WIDTH logical_epoch +:+ "/sha256/" +:+
    hash +:+ ".state-payload.arrow")).

Definition standing_runtime_output_manifest (tenant_id program_id view_id : string)
    (logical_epoch : Z) (output_content_hash : string) :
    result ObjectKeyError ObjectKey :=
  _ ← validate_segment "tenant_id" tenant_id;
  _ ← validate_segment "program_id" program_id;
  _ ← validate_segment "view_id" view_id;
  hash ← parse_sha256_hash_segment output_content_hash;
  Ok (Key ("v1/standing-runtime-output-manifests/" +:+ tenant_id +:+ "/" +:+ program_id +:+ "/" +:+
    view_id +:+ "/epochs/" +:+ zero_padded CHECKPOINT_WIDTH logical_epoch +:+ "/sha256/" +:+
    hash +:+ ".output-manifest.json")).

Definition standing_runtime_output_page (tenant_id program_id view_id : string)
    (logical_epoch page_index : Z) (page_content_hash : string) :
    result ObjectKeyError ObjectKey :=
  _ ← validate_segment "tenant_id" tenant_id;
  _ ← validate_segment "program_id" program_id;
  _ ← validate_segment "view_id" view_id;
  hash ← parse_sha256_hash_segment page_content_hash;
  Ok (Key ("v1/standing-runtime-output-pages/" +:+ tenant_id +:+ "/" +:+ program_id +:+ "/" +:+
    view_id +:+ "/epochs/" +:+ zero_padded CHECKPOINT_WIDTH logical_epoch +:+ "/pages/" +:+
    zero_padded PARTITION_WIDTH page_index +:+ "/sha256/" +:+ hash +:+ ".output-page.arrow")).

Definition standing_runtime_output_delta (tenant_id program_id view_id : string)
    (logical_epoch : Z) (delta_content_hash : string) :
    result ObjectKeyError ObjectKey :=
  _ ← validate_segment "tenant_id" tenant_id;
  _ ← validate_segment "program_id" program_id;
  _ ← validate_segment "view_id" view_id;
  hash ← parse_sha256_hash_segment delta_content_hash;
  Ok (Key ("v1/standing-runtime-output-deltas/" +:+ tenant_id +:+ "/" +:+ program_id +:+ "/" +:+
    view_id +:+ "/epochs/" +:+ zero_padded CHECKPOINT_WIDTH logical_epoch +:+ "/sha256/" +:+
    hash +:+ ".output-delta.arrow")).

Definition output_chunk (chunk_hash : string) :
    result ObjectKeyError ObjectKey :=
  hash ← parse_sha256_hash_segment chunk_hash;
  Ok (Key ("v1/output-chunks/sha256/" +:+ hash +:+ ".chunk.arrow-ipc")).

(** [OutputChunkKeyParts]. *)
Record OutputChunkKeyParts := OutputChunkKey { chunk_hash : string }.

Definition object_key (parts : OutputChunkKeyParts) : result ObjectKeyError ObjectKey :=
  output_chunk (chunk_hash parts).

Definition relation_catalog (relation_id relation_version : string) :
    result ObjectKeyError ObjectKey :=
  _ ← validate_segment "relation_id" relation_id;
  _ ← validate_segment "relation_version" relation_version;
  Ok (Key ("v1/relations/" +:+ relation_id +:+ "/versions/" +:+ relation_version +:+ ".relation.json")).

(** * Reading the parts of a key *)

(** [x.strip_suffix(suffix).ok_or_else(|| InvalidExternalKey(value))?]. *)
Definition file_stem (value suffix file : string) : result ObjectKeyError string :=
  ok_or (InvalidExternalKey value) (strip_suffix suffix file).

(** [validate_sha256_hex(hash).map_err(|_| InvalidExternalKey(value))?]. *)
Definition external_sha256_hex (value hash : string) : result ObjectKeyError unit :=
  map_err (fun _ => InvalidExternalKey value) (validate_sha256_hex hash).

Definition parse_ingest_batch_parts (value stream_id partition range : string) :
    result ObjectKeyError IngestBatchKeyParts :=
  _ ← validate_segment "stream_id" stream_id;
  partition_id ← parse_prefixed_u32 "partition_id" partition "p=" PARTITION_WIDTH;
  range ← file_stem value ".batch" range;
  '(start_offset_inclusive, end_offset_exclusive) ← parse_offset_range value range;
  Ok (IngestBatchKey stream_id partition_id start_offset_inclusive end_offset_exclusive).

Definition parse_ingest_staging_parts (value stream_id partition range staging_file : string) :
    result ObjectKeyError IngestStagingKeyParts :=
  _ ← validate_segment "stream_id" stream_id;
  partition_id ← parse_prefixed_u32 "partition_id" partition "p=" PARTITION_WIDTH;
  '(start_offset_inclusive, end_offset_exclusive) ← parse_offset_range value range;
  staging_id ← file_stem value ".stage" staging_file;
  _ ← validate_segment "staging_id" staging_id;
  Ok (IngestStagingKey stream_id partition_id start_offset_inclusive end_offset_exclusive staging_id).

Definition parse_standing_runtime_checkpoint_parts
    (value tenant_id program_id view_id logical_epoch checkpoint_file : string) :
    result ObjectKeyError StandingRuntimeCheckpointKeyParts :=
  _ ← validate_segment "tenant_id" tenant_id;
  _ ← validate_segment "program_id" program_id;
  _ ← validate_segment "view_id" view_id;
  logical_epoch ← parse_fixed_u64 "logical_epoch" logical_epoch CHECKPOINT_WIDTH;
  hash ← file_stem value ".checkpoint.arrow" checkpoint_file;
  _ ← external_sha256_hex value hash;
  Ok (StandingRuntimeCheckpointKey tenant_id program_id view_id logical_epoch
        ("sha256:" +:+ hash)).

Definition parse_standing_runtime_state_payload_parts
    (value tenant_id program_id view_id logical_epoch state_payload_file : string) :
    result ObjectKeyError StandingRuntimeStatePayloadKeyParts :=
  _ ← validate_segment "tenant_id" tenant_id;
  _ ← validate_segment "program_id" program_id;
  _ ← validate_segment "view_id" view_id;
  logical_epoch ← parse_fixed_u64 "logical_epoch" logical_epoch CHECKPOINT_WIDTH;
  hash ← file_stem value ".state-payload.arrow" state_payload_file;
  _ ← external_sha256_hex value hash;
  Ok (StandingRuntimeStatePayloadKey tenant_id program_id view_id logical_epoch
        ("sha256:" +:+ hash)).

Definition parse_standing_runtime_output_manifest_parts
    (value tenant_id program_id view_id logical_epoch output_manifest_file : string) :
    result ObjectKeyError StandingRuntimeOutputManifestKeyParts :=
  _ ← validate_segment "tenant_id" tenant_id;
  _ ← validate_segment "program_id" program_id;
  _ ← validate_segment "view_id" view_id;
  logical_epoch ← parse_fixed_u64 "logical_epoch" logical_epoch CHECKPOINT_WIDTH;
  hash ← file_stem value ".output-manifest.json" output_manifest_file;
  _ ← external_sha256_hex value hash;
  Ok (StandingRuntimeOutputManifestKey tenant_id program_id view_id logical_epoch
        ("sha256:" +:+ hash)).

Definition parse_standing_runtime_output_page_parts
    (value tenant_id program_id view_id logical_epoch page_index output_page_file : string) :
    result ObjectKeyError StandingRuntimeOutputPageKeyParts :=
  _ ← validate_segment "tenant_id" tenant_id;
  _ ← validate_segment "program_id" program_id;
  _ ← validate_segment "view_id" view_id;
  logical_epoch ← parse_fixed_u64 "logical_epoch" logical_epoch CHECKPOINT_WIDTH;
  page_index ← parse_fixed_u32 "page_index" page_index PARTITION_WIDTH;
  hash ← file_stem value ".output-page.arrow" output_page_file;
  _ ← external_sha256_hex value hash;
  Ok (StandingRuntimeOutputPageKey tenant_id program_id view_id logical_epoch page_index
        ("sha256:" +:+ hash)).

Definition parse_standing_runtime_output_delta_parts
    (value tenant_id program_id view_id logical_epoch output_delta_file : string) :
    result ObjectKeyError StandingRuntimeOutputDeltaKeyParts :=
  _ ← validate_segment "tenant_id" tenant_id;
  _ ← validate_segment "program_id" program_id;
  _ ← validate_segment "view_id" view_id;
  logical_epoch ← parse_fixed_u64 "logical_epoch" logical_epoch CHECKPOINT_WIDTH;
  hash ← file_stem value ".output-delta.arrow" output_delta_file;
  _ ← external_sha256_hex value hash;
  Ok (StandingRuntimeOutputDeltaKey tenant_id program_id view_id logical_epoch
        ("sha256:" +:+ hash)).

Definition parse_output_object_parts (value stream_id partition checkpoint range object_file : string) :
    result ObjectKeyError OutputObjectKeyParts :=
  _ ← validate_segment "stream_id" stream_id;
  partition_id ← parse_prefixed_u32 "partition_id" partition "p=" PARTITION_WIDTH;
  checkpoint_version ← parse_prefixed_u64 "checkpoint_version" checkpoint "chk=" CHECKPOINT_WIDTH;
  '(start_offset_inclusive, end_offset_exclusive) ← parse_offset_range value range;
  object_id ← file_stem value ".output" object_file;
  _ ← validate_segment "object_id" object_id;
  Ok (OutputObjectKey stream_id partition_id checkpoint_version start_offset_inclusive
        end_offset_exclusive object_id).

Definition parse_ownership_epoch_record_parts (value stream_id partition epoch_file : string) :
    result ObjectKeyError OwnershipEpochRecordKeyParts :=
  _ ← validate_segment "stream_id" stream_id;
  partition_id ← parse_prefixed_u32 "partition_id" partition "p=" PARTITION_WIDTH;
  owner_epoch ← file_stem value ".claim" epoch_file;
  owner_epoch ← parse_prefixed_u64 "owner_epoch" owner_epoch "epoch=" CHECKPOINT_WIDTH;
  Ok (OwnershipEpochRecordKey stream_id partition_id owner_epoch).

(** * The known layouts *)

(** The segments of a key after ["v1"] and the namespace. *)
Definition known_layout (value namespace : string) (rest : list string) : result ObjectKeyError unit :=
  let invalid := Err (InvalidExternalKey value) in
  if String.eqb namespace "ingest" then
    match rest with
    | [stream_id; partition; range] =>
        _ ← parse_ingest_batch_parts value stream_id partition range;
        Ok tt
    | _ => invalid
    end
  else if String.eqb namespace "ingest-staging" then
    match rest with
    | [stream_id; partition; range; staging_file] =>
        _ ← parse_ingest_staging_parts value stream_id partition range staging_file;
        Ok tt
    | _ => invalid
    end
  else if String.eqb namespace "ingest-admission" then
    match rest with
    | [stream_id; partition; ranges; admission_file] =>
        if negb (String.eqb ranges "ranges") then invalid else
        _ ← validate_segment "stream_id" stream_id;
        _ ← parse_prefixed_u32 "partition_id" partition "p=" PARTITION_WIDTH;
        range ← file_stem value ".admission.json" admission_file;
        _ ← parse_offset_range value range;
        Ok tt
    | [stream_id; partition; ranges; range; expiry_decisions; decision_file] =>
        if negb (String.eqb ranges "ranges" && String.eqb expiry_decisions "expiry-decisions") then invalid else
        _ ← validate_segment "stream_id" stream_id;
        _ ← parse_prefixed_u32 "partition_id" partition "p=" PARTITION_WIDTH;
        _ ← parse_offset_range value range;
        decision_id ← file_stem value ".expiry.json" decision_file;
        _ ← validate_segment "decision_id" decision_id;
        Ok tt
    | _ => invalid
    end
  else if String.eqb namespace "ingest-epochs" then
    match rest with
    | [sha256; manifest_file] =>
        if negb (String.eqb sha256 "sha256") then invalid else
        hash ← file_stem value ".epoch.json" manifest_file;
        _ ← external_sha256_hex value hash;
        Ok tt
    | _ => invalid
    end
  else if String.eqb namespace "ingest-epoch-convergence" then
    match rest with
    | [sha256; hash; tenant_id; program_id; convergence_file] =>
        if negb (String.eqb sha256 "sha256") then invalid else
        _ ← external_sha256_hex value hash;
        _ ← validate_segment "tenant_id" tenant_id;
        _ ← validate_segment "program_id" program_id;
        view_id ← file_stem value ".convergence.json" convergence_file;
        _ ← validate_segment "view_id" view_id;
        Ok tt
    | _ => invalid
    end
  else if String.eqb namespace "ingest-epoch-runtime-failures" then
    match rest with
    | [sha256; hash; tenant_id; program_id; failure_file] =>
        if negb (String.eqb sha256 "sha256") then invalid else
        _ ← external_sha256_hex value hash;
        _ ← validate_segment "tenant_id" tenant_id;
        _ ← validate_segment "program_id" program_id;
        view_id ← file_stem value ".failure.json" failure_file;
        _ ← validate_segment "view_id" view_id;
        Ok tt
    | _ => invalid
    end
  else if String.eqb namespace "state" then
    match rest with
    | [owner; partition; checkpoint; object_file] =>
        _ ← validate_segment "owner" owner;
        _ ← parse_prefixed_u32 "partition_id" partition "p=" PARTITION_WIDTH;
        _ ← parse_prefixed_u64 "checkpoint_version" checkpoint "chk=" CHECKPOINT_WIDTH;
        object_id ← file_stem value ".state" object_file;
        _ ← validate_segment "object_id" object_id;
        Ok tt
    | _ => invalid
    end
  else if String.eqb namespace "outputs" then
    match rest with
    | [stream_id; partition; checkpoint; range; object_file] =>
        _ ← parse_output_object_parts value stream_id partition checkpoint range object_file;
        Ok tt
    | _ => invalid
    end
  else if String.eqb namespace "tmp" then
    match rest with
    | [checkpoint; attempt_or_object_id; kind] =>
        _ ← parse_fixed_u64 "checkpoint_version" checkpoint CHECKPOINT_WIDTH;
        _ ← validate_segment "attempt_or_object_id" attempt_or_object_id;
        _ ← validate_segment "kind" kind;
        Ok tt
    | _ => invalid
    end
  else if String.eqb namespace "checkpoints" then
    match rest with
    | [manifest_file] =>
        checkpoint ← file_stem value ".manifest" manifest_file;
        _ ← parse_fixed_u64 "checkpoint_version" checkpoint CHECKPOINT_WIDTH;
        Ok tt
    | _ => invalid
    end
  else if String.eqb namespace "checkpoint-index" then
    match rest with
    | [file] =>
        if negb (String.eqb file "latest-candidate.json") then invalid else
        Ok tt
    | _ => invalid
    end
  else if String.eqb namespace "checkpoint-lifecycle" then
    match rest with
    | [status_file] =>
        checkpoint ← file_stem value ".status.json" status_file;
        _ ← parse_fixed_u64 "checkpoint_version" checkpoint CHECKPOINT_WIDTH;
        Ok tt
    | _ => invalid
    end
  else if String.eqb namespace "checkpoint-gc-transitions" then
    match rest with
    | [checkpoint; transitions; transition_file] =>
        if negb (String.eqb transitions "transitions") then invalid else
        _ ← parse_fixed_u64 "checkpoint_version" checkpoint CHECKPOINT_WIDTH;
        transition_id ← file_stem value ".transition.json" transition_file;
        _ ← validate_segment "transition_id" transition_id;
        Ok tt
    | _ => invalid
    end
  else if String.eqb namespace "checkpoint-retention" then
    match rest with
    | [retention_file] =>
        checkpoint ← file_stem value ".retention.json" retention_file;
        _ ← parse_fixed_u64 "checkpoint_version" checkpoint CHECKPOINT_WIDTH;
        Ok tt
    | _ => invalid
    end
  else if String.eqb namespace "checkpoint-recovery" then
    match rest with
    | [checkpoint; transitions; transition_file] =>
        if negb (String.eqb transitions "transitions") then invalid else
        _ ← parse_fixed_u64 "checkpoint_version" checkpoint CHECKPOINT_WIDTH;
        transition_id ← file_stem value ".transition.json" transition_file;
        _ ← validate_segment "transition_id" transition_id;
        Ok tt
    | _ => invalid
    end
  else if String.eqb namespace "gc-runs" then
    match rest with
    | [run_file] =>
        run_id ← file_stem value ".run.json" run_file;
        _ ← validate_segment "run_id" run_id;
        Ok tt
    | _ => invalid
    end
  else if String.eqb namespace "ownership" then
    match rest with
    | [stream_id; partition; epoch_file] =>
        _ ← parse_ownership_epoch_record_parts value stream_id partition epoch_file;
        Ok tt
    | _ => invalid
    end
  else if String.eqb namespace "queries" then
    match rest with
    | [query_file] =>
        query_id ← file_stem value ".query.json" query_file;
        _ ← validate_segment "query_id" query_id;
        Ok tt
    | _ => invalid
    end
  else if String.eqb namespace "tables" then
    match rest with
    | [table_file] =>
        table_id ← file_stem value ".table.json" table_file;
        _ ← validate_segment "table_id" table_id;
        Ok tt
    | _ => invalid
    end
  else if String.eqb namespace "query-policy" then
    match rest with
    | [tenant_id; policy_file] =>
        _ ← validate_segment "tenant_id" tenant_id;
        query_policy_id ← file_stem value ".json" policy_file;
        _ ← validate_segment "query_policy_id" query_policy_id;
        Ok tt
    | _ => invalid
    end
  else if String.eqb namespace "views" then
    match rest with
    | [view_id; file] =>
        if negb (String.eqb file "active.json") then invalid else
        _ ← validate_segment "view_id" view_id;
        Ok tt
    | [view_id; kind; view_file] =>
        if negb (String.eqb kind "spec-sha256") then invalid else
        _ ← validate_segment "view_id" view_id;
        hash ← file_stem value ".view.json" view_file;
        _ ← external_sha256_hex value hash;
        Ok tt
    | _ => invalid
    end
  else if String.eqb namespace "standing-runtime-checkpoints" then
    match rest with
    | [tenant_id; program_id; view_id; epochs; logical_epoch; sha256; checkpoint_file] =>
        if negb (String.eqb epochs "epochs" && String.eqb sha256 "sha256") then invalid else
        _ ← parse_standing_runtime_checkpoint_parts value tenant_id program_id view_id logical_epoch checkpoint_file;
        Ok tt
    | [tenant_id; program_id; view_id; file] =>
        if negb (String.eqb file "latest.json") then invalid else
        _ ← validate_segment "tenant_id" tenant_id;
        _ ← validate_segment "program_id" program_id;
        _ ← validate_segment "view_id" view_id;
        Ok tt
    | _ => invalid
    end
  else if String.eqb namespace "standing-runtime-state-payloads" then
    match rest with
    | [tenant_id; program_id; view_id; epochs; logical_epoch; sha256; state_payload_file] =>
        if negb (String.eqb epochs "epochs" && String.eqb sha256 "sha256") then invalid else
        _ ← parse_standing_runtime_state_payload_parts value tenant_id program_id view_id logical_epoch state_payload_file;
        Ok tt
    | _ => invalid
    end
  else if String.eqb namespace "standing-runtime-output-manifests" then
    match rest with
    | [tenant_id; program_id; view_id; epochs; logical_epoch; sha256; output_manifest_file] =>
        if negb (String.eqb epochs "epochs" && String.eqb sha256 "sha256") then invalid else
        _ ← parse_standing_runtime_output_manifest_parts value tenant_id program_id view_id logical_epoch output_manifest_file;
        Ok tt
    | _ => invalid
    end
  else if String.eqb namespace "standing-runtime-output-pages" then
    match rest with
    | [tenant_id; program_id; view_id; epochs; logical_epoch; pages; page_index; sha256; output_page_file] =>
        if negb (String.eqb epochs "epochs" && String.eqb pages "pages" && String.eqb sha256 "sha256") then invalid else
        _ ← parse_standing_runtime_output_page_parts value tenant_id program_id view_id logical_epoch page_index output_page_file;
        Ok tt
    | _ => invalid
    end
  else if String.eqb namespace "standing-runtime-output-deltas" then
    match rest with
    | [tenant_id; program_id; view_id; epochs; logical_epoch; sha256; output_delta_file] =>
        if negb (String.eqb epochs "epochs" && String.eqb sha256 "sha256") then invalid else
        _ ← parse_standing_runtime_output_delta_parts value tenant_id program_id view_id logical_epoch output_delta_file;
        Ok tt
    | _ => invalid
    end
  else if String.eqb namespace "relations" then
    match rest with
    | [relation_id; versions; relation_file] =>
        if negb (String.eqb versions "versions") then invalid else
        _ ← validate_segment "relation_id" relation_id;
        relation_version ← file_stem value ".relation.json" relation_file;
        _ ← validate_segment "relation_version" relation_version;
        Ok tt
    | _ => invalid
    end
  else invalid.

Definition validate_known_layout (value : string) : result ObjectKeyError unit :=
  match split "/"%char value with
  | version :: namespace :: rest =>
      if String.eqb version "v1" then known_layout value namespace rest
      else Err (InvalidExternalKey value)
  | _ => Err (InvalidExternalKey value)
  end.

Definition parse (value : string) : result ObjectKeyError ObjectKey :=
  if starts_with "/" value || negb (starts_with "v1/" value) ||
     existsb (fun segment => String.eqb segment "") (split "/"%char value)
  then Err (InvalidExternalKey value)
  else
    _ ← validate_known_layout value;
    Ok (Key value).

(** [ObjectKey::deserialize], on the string of the document. *)
Definition deserialize (value : string) : option ObjectKey :=
  match parse value with Ok key => Some key | Err _ => None end.

Definition parse_ingest_batch_layout (value : string) : result ObjectKeyError IngestBatchKeyParts :=
  match split "/"%char value with
  | [version; namespace; stream_id; partition; range] =>
      if String.eqb version "v1" && String.eqb namespace "ingest"
      then parse_ingest_batch_parts value stream_id partition range
      else Err (InvalidExternalKey value)
  | _ => Err (InvalidExternalKey value)
  end.

Definition parse_ingest_batch (value : string) : result ObjectKeyError (ObjectKey * IngestBatchKeyParts) :=
  key ← parse value;
  parts ← parse_ingest_batch_layout value;
  Ok (key, parts).

Definition parse_ingest_staging_layout (value : string) : result ObjectKeyError IngestStagingKeyParts :=
  match split "/"%char value with
  | [version; namespace; stream_id; partition; range; staging_file] =>
      if String.eqb version "v1" && String.eqb namespace "ingest-staging"
      then parse_ingest_staging_parts value stream_id partition range staging_file
      else Err (InvalidExternalKey value)
  | _ => Err (InvalidExternalKey value)
  end.

Definition parse_ingest_staging (value : string) : result ObjectKeyError (ObjectKey * IngestStagingKeyParts) :=
  key ← parse value;
  parts ← parse_ingest_staging_layout value;
  Ok (key, parts).

Definition parse_output_object_layout (value : string) : result ObjectKeyError OutputObjectKeyParts :=
  match split "/"%char value with
  | [version; namespace; stream_id; partition; checkpoint; range; object_file] =>
      if String.eqb version "v1" && String.eqb namespace "outputs"
      then parse_output_object_parts value stream_id partition checkpoint range object_file
      else Err (InvalidExternalKey value)
  | _ => Err (InvalidExternalKey value)
  end.

Definition parse_output_object (value : string) : result ObjectKeyError (ObjectKey * OutputObjectKeyParts) :=
  key ← parse value;
  parts ← parse_output_object_layout value;
  Ok (key, parts).

Definition parse_ownership_epoch_record_layout (value : string) : result ObjectKeyError OwnershipEpochRecordKeyParts :=
  match split "/"%char value with
  | [version; namespace; stream_id; partition; epoch_file] =>
      if String.eqb version "v1" && String.eqb namespace "ownership"
      then parse_ownership_epoch_record_parts value stream_id partition epoch_file
      else Err (InvalidExternalKey value)
  | _ => Err (InvalidExternalKey value)
  end.

Definition parse_ownership_epoch_record (value : string) : result ObjectKeyError (ObjectKey * OwnershipEpochRecordKeyParts) :=
  key ← parse value;
  parts ← parse_ownership_epoch_record_layout value;
  Ok (key, parts).

Definition parse_standing_runtime_checkpoint_layout (value : string) : result ObjectKeyError StandingRuntimeCheckpointKeyParts :=
  match split "/"%char value with
  | [version; namespace; tenant_id; program_id; view_id; epochs; logical_epoch; sha256; checkpoint_file] =>
      if String.eqb version "v1" && String.eqb namespace "standing-runtime-checkpoints" && String.eqb epochs "epochs" &&
         String.eqb sha256 "sha256"
      then parse_standing_runtime_checkpoint_parts value tenant_id program_id view_id logical_epoch checkpoint_file
      else Err (InvalidExternalKey value)
  | _ => Err (InvalidExternalKey value)
  end.

Definition parse_standing_runtime_checkpoint (value : string) : result ObjectKeyError (ObjectKey * StandingRuntimeCheckpointKeyParts) :=
  key ← parse value;
  parts ← parse_standing_runtime_checkpoint_layout value;
  Ok (key, parts).

Definition parse_standing_runtime_state_payload_layout (value : string) : result ObjectKeyError StandingRuntimeStatePayloadKeyParts :=
  match split "/"%char value with
  | [version; namespace; tenant_id; program_id; view_id; epochs; logical_epoch; sha256; state_payload_file] =>
      if String.eqb version "v1" && String.eqb namespace "standing-runtime-state-payloads" && String.eqb epochs "epochs" &&
         String.eqb sha256 "sha256"
      then parse_standing_runtime_state_payload_parts value tenant_id program_id view_id logical_epoch state_payload_file
      else Err (InvalidExternalKey value)
  | _ => Err (InvalidExternalKey value)
  end.

Definition parse_standing_runtime_state_payload (value : string) : result ObjectKeyError (ObjectKey * StandingRuntimeStatePayloadKeyParts) :=
  key ← parse value;
  parts ← parse_standing_runtime_state_payload_layout value;
  Ok (key, parts).

Definition parse_standing_runtime_output_manifest_layout (value : string) : result ObjectKeyError StandingRuntimeOutputManifestKeyParts :=
  match split "/"%char value with
  | [version; namespace; tenant_id; program_id; view_id; epochs; logical_epoch; sha256; output_manifest_file] =>
      if String.eqb version "v1" && String.eqb namespace "standing-runtime-output-manifests" && String.eqb epochs "epochs" &&
         String.eqb sha256 "sha256"
      then parse_standing_runtime_output_manifest_parts value tenant_id program_id view_id logical_epoch output_manifest_file
      else Err (InvalidExternalKey value)
  | _ => Err (InvalidExternalKey value)
  end.

Definition parse_standing_runtime_output_manifest (value : string) : result ObjectKeyError (ObjectKey * StandingRuntimeOutputManifestKeyParts) :=
  key ← parse value;
  parts ← parse_standing_runtime_output_manifest_layout value;
  Ok (key, parts).

Definition parse_standing_runtime_output_page_layout (value : string) : result ObjectKeyError StandingRuntimeOutputPageKeyParts :=
  match split "/"%char value with
  | [version; namespace; tenant_id; program_id; view_id; epochs; logical_epoch; pages; page_index; sha256; output_page_file] =>
      if String.eqb version "v1" && String.eqb namespace "standing-runtime-output-pages" && String.eqb epochs "epochs" &&
         String.eqb pages "pages" && String.eqb sha256 "sha256"
      then parse_standing_runtime_output_page_parts value tenant_id program_id view_id logical_epoch page_index output_page_file
      else Err (InvalidExternalKey value)
  | _ => Err (InvalidExternalKey value)
  end.

Definition parse_standing_runtime_output_page (value : string) : result ObjectKeyError (ObjectKey * StandingRuntimeOutputPageKeyParts) :=
  key ← parse value;
  parts ← parse_standing_runtime_output_page_layout value;
  Ok (key, parts).

Definition parse_standing_runtime_output_delta_layout (value : string) : result ObjectKeyError StandingRuntimeOutputDeltaKeyParts :=
  match split "/"%char value with
  | [version; namespace; tenant_id; program_id; view_id; epochs; logical_epoch; sha256; output_delta_file] =>
      if String.eqb version "v1" && String.eqb namespace "standing-runtime-output-deltas" && String.eqb epochs "epochs" &&
         String.eqb sha256 "sha256"
      then parse_standing_runtime_output_delta_parts value tenant_id program_id view_id logical_epoch output_delta_file
      else Err (InvalidExternalKey value)
  | _ => Err (InvalidExternalKey value)
  end.

Definition parse_standing_runtime_output_delta (value : string) : result ObjectKeyError (ObjectKey * StandingRuntimeOutputDeltaKeyParts) :=
  key ← parse value;
  parts ← parse_standing_runtime_output_delta_layout value;
  Ok (key, parts).

Definition parse_ingest_staging_object (value : string) :
    result ObjectKeyError (ObjectKey * IngestStagingKeyParts) :=
  parse_ingest_staging value.
