(* ===== verification/Hash.v ===== *)
(** SHA-256, a parameter: the digest comes from the crate [sha2]. *)
From S2P Require Import Prelude BTree Json Digits Segments ObjectKey.

Class Sha256 := { sha256 : bytes -> bytes }.

(** A digest has 32 bytes. *)
Class Sha256Laws `{Sha256} : Prop := {
  sha256_length b : length (sha256 b) = 32%nat;
  sha256_bytes b : Forall (fun x => 0 <= x < 256) (sha256 b)
}.

(** Two given texts that differ and have one digest. *)
Definition collide `{Sha256} (a b : bytes) : Prop := a <> b /\ sha256 a = sha256 b.

(** [{byte:02x}]. *)
Definition hex_byte (b : Z) : string :=
  let hex (n : Z) := digit_char (if n <? 10 then n else n - 10 + 49) in
  String (hex (b / 16)) (String (hex (b mod 16)) "").

(** [format!("sha256:{}", hex)] of the digest of the concatenated parts. *)
Definition sha256_text `{Sha256} (parts : bytes) : string :=
  "sha256:" +:+ String.concat "" (hex_byte <$> sha256 parts).

(** [sha256:<64 hex chars>]. *)
Definition is_sha256_text (value : string) : bool :=
  match strip_prefix "sha256:" value with
  | Some hex => (String.length hex =? 64)%nat && all_bytes is_ascii_hexdigit hex
  | None => false
  end.

Lemma hex_byte_shape b : 0 <= b < 256 ->
  String.length (hex_byte b) = 2%nat /\ all_bytes is_ascii_hexdigit (hex_byte b) = true.
Proof.
  intros Hb. assert (forallb (fun b => (String.length (hex_byte b) =? 2)%nat && all_bytes is_ascii_hexdigit (hex_byte b))
    (seqZ 0 256) = true) as Hall by (vm_compute; reflexivity).
  rewrite forallb_forall in Hall. specialize (Hall b). rewrite <-list_elem_of_In, elem_of_seqZ in Hall.
  specialize (Hall ltac:(lia)). apply andb_true_iff in Hall as [?%Nat.eqb_eq ?]. done.
Qed.

Lemma hex_byte_inj a b : 0 <= a < 256 -> 0 <= b < 256 -> hex_byte a = hex_byte b -> a = b.
Proof.
  intros Ha Hb. assert (forallb (fun a => forallb (fun b => negb (String.eqb (hex_byte a) (hex_byte b)) || (a =? b))
    (seqZ 0 256)) (seqZ 0 256) = true) as Hall by (vm_compute; reflexivity).
  rewrite forallb_forall in Hall. specialize (Hall a). rewrite <-list_elem_of_In, elem_of_seqZ in Hall.
  specialize (Hall ltac:(lia)). rewrite forallb_forall in Hall. specialize (Hall b).
  rewrite <-list_elem_of_In, elem_of_seqZ in Hall. specialize (Hall ltac:(lia)).
  intros Heq. rewrite Heq, String.eqb_refl in Hall. by apply Z.eqb_eq.
Qed.

Lemma concat_cons s l : String.concat "" (s :: l) = s +:+ String.concat "" l.
Proof. destruct l; cbn [String.concat]; [by rewrite append_empty_r|done]. Qed.

Section laws.
Context `{Sha256Laws}.

Lemma sha256_text_shape b : is_sha256_text (sha256_text b) = true.
Proof.
  unfold is_sha256_text, sha256_text. rewrite (proj2 (strip_prefix_some _ _ _) eq_refl).
  assert (forall l, Forall (fun x => 0 <= x < 256) l ->
    String.length (String.concat "" (hex_byte <$> l)) = (2 * length l)%nat /\
    all_bytes is_ascii_hexdigit (String.concat "" (hex_byte <$> l)) = true) as Hl.
  { induction 1 as [|x l Hx _ [IH1 IH2]]; [done|]. rewrite fmap_cons, concat_cons, append_length, all_bytes_app, IH1, IH2.
    destruct (hex_byte_shape x Hx) as [-> ->]. cbn [length]. split; [lia|done]. }
  destruct (Hl _ (sha256_bytes b)) as [-> ->]. by rewrite sha256_length.
Qed.

Lemma sha256_text_inj a b : sha256_text a = sha256_text b -> sha256 a = sha256 b.
Proof.
  unfold sha256_text. intros Heq. apply (inj (String.append "sha256:")) in Heq.
  pose proof (sha256_bytes a) as Ha. pose proof (sha256_bytes b) as Hb. revert Heq Ha Hb.
  generalize (sha256 a) (sha256 b). induction l as [|x l IH]; intros [|y l'] Heq Ha Hb; [done| | |];
    rewrite ?fmap_cons, ?concat_cons in Heq; try done.
  apply Forall_cons in Ha as [Hx Ha], Hb as [Hy Hb]. injection Heq as H1 H2 Heq.
  f_equal; [|by apply IH]. apply hex_byte_inj; [done..|]. unfold hex_byte. by rewrite H1, H2.
Qed.

(** Texts with one digest are equal or collide. *)
Lemma sha256_text_eq a b : sha256_text a = sha256_text b -> a = b \/ collide a b.
Proof. intros Heq%sha256_text_inj. destruct (decide (a = b)); [by left|by right]. Qed.
End laws.
