(* ===== verification/Relation.v ===== *)
(** Relation schemas and catalogs, [velorix-core/src/relation.rs].

    A catalog names the columns of a relation, their logical and Arrow types, the
    key and the weight column, and carries a fingerprint of the schema. A Rust
    type name that several enums share has the letter of its enum in front: [L]
    for logical types, [P] for physical Arrow types, [D] for Arrow's own. The JSON
    text of schemas and catalogs and the digest are parameters. *)
From Stdlib Require Import Ascii.
From S2P Require Import Prelude BTree Json Digits Segments ObjectKey Hash.

(** * Types *)

Inductive DictionaryKeyTypeV1 := KInt8 | KInt16 | KInt32 | KInt64.

Unset Elimination Schemes.
Inductive VelorixLogicalTypeV1 :=
| LBool | LInt8 | LInt16 | LInt32 | LInt64 | LUInt8 | LUInt16 | LUInt32 | LUInt64
| LFloat32 | LFloat64
| LDecimal (precision scale : Z)
| LChar (length : option Z)
| LUtf8
| LBinary (length : Z)
| LVarbinary | LDate | LTime
| LTimestamp (timezone : option string)
| LUuid | LJson
| LArray (element_type : VelorixLogicalTypeV1)
| LStruct (fields : list (string * VelorixLogicalTypeV1 * bool))
| LMap (key_type value_type : VelorixLogicalTypeV1).

Inductive ArrowPhysicalTypeV1 :=
| PBoolean | PInt8 | PInt16 | PInt32 | PInt64 | PUInt8 | PUInt16 | PUInt32 | PUInt64
| PFloat32 | PFloat64
| PDecimal128 (precision scale : Z)
| PUtf8 | PBinary | PDate32 | PTime64Nanosecond
| PTimestampNanosecond (timezone : option string)
| PDictionaryUtf8 (key_type : DictionaryKeyTypeV1) (ordered : bool)
| PJsonUtf8
| PList (element_type : ArrowPhysicalTypeV1)
| PStruct (fields : list (string * ArrowPhysicalTypeV1 * bool))
| PMap (key_type value_type : ArrowPhysicalTypeV1).

(** [arrow::datatypes::DataType], with one constructor for the types that no catalog
    can name, and [arrow::datatypes::Field]. *)
Inductive DataType :=
| DBoolean | DInt8 | DInt16 | DInt32 | DInt64 | DUInt8 | DUInt16 | DUInt32 | DUInt64
| DFloat32 | DFloat64
| DDecimal128 (precision scale : Z)
| DUtf8 | DBinary | DDate32 | DTime64Nanosecond
| DTimestampNanosecond (timezone : option string)
| DDictionary (key value : DataType)
| DList (element : Field)
| DStruct (fields : list Field)
| DMap (entries : Field) (sorted : bool)
| DOther (description : string)
with Field := ArrowField (name : string) (data_type : DataType) (nullable : bool) (metadata : gmap string string).
Set Elimination Schemes.

(** [Field::new]: no metadata. *)
Definition new_field (name : string) (data_type : DataType) (nullable : bool) : Field := ArrowField name data_type nullable ∅.
Definition field_name (f : Field) : string := let 'ArrowField name _ _ _ := f in name.
Definition field_nullable (f : Field) : bool := let 'ArrowField _ _ nullable _ := f in nullable.
Definition field_metadata (f : Field) : gmap string string := let 'ArrowField _ _ _ metadata := f in metadata.

(** Induction on a type, with the hypothesis for the types of struct fields. *)
Section induction.
Variable P : VelorixLogicalTypeV1 -> Prop.
Hypothesis Pbase : forall t, (forall e, t <> LArray e) -> (forall fs, t <> LStruct fs) ->
  (forall k v, t <> LMap k v) -> P t.
Hypothesis Parray : forall e, P e -> P (LArray e).
Hypothesis Pstruct : forall fs, Forall (fun f => P f.1.2) fs -> P (LStruct fs).
Hypothesis Pmap : forall k v, P k -> P v -> P (LMap k v).

Fixpoint logical_type_ind (t : VelorixLogicalTypeV1) : P t.
Proof.
  destruct t as [| | | | | | | | | | | | | | | | | | | | |e|fs|k v].
  all: try by apply Pbase.
  - apply Parray, logical_type_ind.
  - apply Pstruct. induction fs as [|[[n t] b] fs IH]; [constructor|].
    constructor; [apply (logical_type_ind t)|exact IH].
  - apply Pmap; apply logical_type_ind.
Qed.
End induction.

Section physical_induction.
Variable P : ArrowPhysicalTypeV1 -> Prop.
Hypothesis Pbase : forall t, (forall e, t <> PList e) -> (forall fs, t <> PStruct fs) ->
  (forall k v, t <> PMap k v) -> P t.
Hypothesis Plist : forall e, P e -> P (PList e).
Hypothesis Pstruct : forall fs, Forall (fun f => P f.1.2) fs -> P (PStruct fs).
Hypothesis Pmap : forall k v, P k -> P v -> P (PMap k v).

Fixpoint physical_type_ind (t : ArrowPhysicalTypeV1) : P t.
Proof.
  destruct t as [| | | | | | | | | | | | | | | | | | |e|fs|k v].
  all: try by apply Pbase.
  - apply Plist, physical_type_ind.
  - apply Pstruct. induction fs as [|[[n t] b] fs IH]; [constructor|].
    constructor; [apply (physical_type_ind t)|exact IH].
  - apply Pmap; apply physical_type_ind.
Qed.
End physical_induction.

#[export] Instance DictionaryKeyTypeV1_eq_dec : EqDecision DictionaryKeyTypeV1.
Proof. solve_decision. Defined.

(** Equality of fields, from equality of their types. *)
Definition fields_eq_dec {T} (go : forall t u : T, Decision (t = u)) :
  forall a b : list (string * T * bool), Decision (a = b).
Proof.
  fix fields_eq 1. intros a b. destruct a as [|[[n t] x] a], b as [|[[m u] y] b];
    [left; reflexivity|right; discriminate|right; discriminate|].
  refine (cast_if_and4 (decide (n = m)) (go t u) (decide (x = y)) (fields_eq a b)); congruence.
Defined.

Ltac same_constructor go :=
  try (left; reflexivity);
  match goal with
  | |- Decision (?f ?a ?b = ?f ?c ?d) =>
      first [refine (cast_if_and (go a c) (go b d)) | refine (cast_if_and (decide (a = c)) (decide (b = d)))]; congruence
  | |- Decision (?f ?a = ?f ?b) =>
      first [refine (cast_if (go a b)) | refine (cast_if (fields_eq_dec go a b)) | refine (cast_if (decide (a = b)))]; congruence
  end.

#[export] Instance VelorixLogicalTypeV1_eq_dec : EqDecision VelorixLogicalTypeV1.
Proof.
  unfold EqDecision. fix go 1. intros t u.
  destruct t, u; try (right; discriminate); same_constructor go.
Defined.

#[export] Instance ArrowPhysicalTypeV1_eq_dec : EqDecision ArrowPhysicalTypeV1.
Proof.
  unfold EqDecision. fix go 1. intros t u.
  destruct t, u; try (right; discriminate); same_constructor go.
Defined.

Definition list_eq_dec_with {A} (go : forall a b : A, Decision (a = b)) : forall l k : list A, Decision (l = k).
Proof.
  fix list_eq 1. intros l k. destruct l as [|a l], k as [|b k]; [left; reflexivity|right; discriminate|right; discriminate|].
  refine (cast_if_and (go a b) (list_eq l k)); congruence.
Defined.

Fixpoint data_type_eq (t u : DataType) {struct t} : Decision (t = u)
with field_eq (f g : Field) {struct f} : Decision (f = g).
Proof.
  - destruct t, u; try (right; discriminate); try (left; reflexivity).
    + refine (cast_if_and (decide (precision = precision0)) (decide (scale = scale0))); congruence.
    + refine (cast_if (decide (timezone = timezone0))); congruence.
    + refine (cast_if_and (data_type_eq t1 u1) (data_type_eq t2 u2)); congruence.
    + refine (cast_if (field_eq element element0)); congruence.
    + refine (cast_if (list_eq_dec_with field_eq fields fields0)); congruence.
    + refine (cast_if_and (field_eq entries entries0) (decide (sorted = sorted0))); congruence.
    + refine (cast_if (decide (description = description0))); congruence.
  - destruct f as [name t b metadata], g as [name0 u b0 metadata0].
    refine (cast_if_and4 (decide (name = name0)) (data_type_eq t u) (decide (b = b0)) (decide (metadata = metadata0))); congruence.
Defined.
#[export] Instance DataType_eq_dec : EqDecision DataType := data_type_eq.
#[export] Instance Field_eq_dec : EqDecision Field := field_eq.

(** * Schemas and catalogs *)

Inductive RelationSemanticRoleV1 := PrimaryKey | ValueRole | Weight | EventTime | Metadata.
Inductive RelationOperationV1 := InsertOp | DeleteOp | UpdateOp | UpsertOp.

Record RelationColumnV1 := Column {
  column_id : string;
  column_name : string;
  logical_type : VelorixLogicalTypeV1;
  physical_arrow_type : ArrowPhysicalTypeV1;
  nullable : bool;
  ordinal : Z;
  semantic_role : RelationSemanticRoleV1
}.

Record VelorixRelationSchemaV1 := RelationSchema {
  rs_relation_id : string;
  rs_relation_name : string;
  rs_relation_version : string;
  columns : list RelationColumnV1;
  primary_key_column_ids : list string;
  weight_column_id : string;
  allowed_operations : list RelationOperationV1;
  event_time_column_id : option string
}.

Inductive DataFusionRegistrationModeV1 := TableMode | ViewMode.
Inductive VelorixRelationSourceV1 :=
| SourceRelation
| PublishedViewOutput (producer_view_id : string) (producer_view_generation : Z) (output_stream_id : string).

(** The registration name and mode, the relation id and fingerprint of the
    incremental relation and the adapter id are the fields of three small
    structs of the source. *)
Record VelorixRelationCatalogV1 := Catalog {
  rc_schema_version : Z;
  relation_schema : VelorixRelationSchemaV1;
  rc_schema_fingerprint : string;
  registration_name : string;
  registration_mode : DataFusionRegistrationModeV1;
  incremental_relation_id : string;
  incremental_schema_fingerprint : string;
  adapter_id : string;
  relation_source : VelorixRelationSourceV1
}.

Inductive RelationSchemaError :=
| UnsupportedCatalogVersion (found : Z)
| MissingIdentityField (field : string)
| InvalidRelationSchema (field : string)
| RelationIdentityMismatch (field : string)
| SchemaFingerprintMismatch (field : string)
| SchemaSerialization.

#[export] Instance RelationSemanticRoleV1_eq_dec : EqDecision RelationSemanticRoleV1.
Proof. solve_decision. Defined.
#[export] Instance RelationOperationV1_eq_dec : EqDecision RelationOperationV1.
Proof. solve_decision. Defined.
#[export] Instance RelationColumnV1_eq_dec : EqDecision RelationColumnV1.
Proof. solve_decision. Defined.
#[export] Instance VelorixRelationSchemaV1_eq_dec : EqDecision VelorixRelationSchemaV1.
Proof. solve_decision. Defined.
#[export] Instance DataFusionRegistrationModeV1_eq_dec : EqDecision DataFusionRegistrationModeV1.
Proof. solve_decision. Defined.
#[export] Instance VelorixRelationSourceV1_eq_dec : EqDecision VelorixRelationSourceV1.
Proof. solve_decision. Defined.
#[export] Instance VelorixRelationCatalogV1_eq_dec : EqDecision VelorixRelationCatalogV1.
Proof. solve_decision. Defined.

Definition RELATION_SCHEMA_VERSION_V1 : Z := 1.
Definition MAX_RELATION_TYPE_NESTING_DEPTH : Z := 16.
Definition MAX_RELATION_STRUCT_FIELDS : nat := 256.

(** * Checking types *)

Abbreviation checked := (result RelationSchemaError unit).

Definition require_non_empty (field value : string) : checked :=
  fail_if (is_blank value) (MissingIdentityField field).

Definition validate_decimal (precision scale : Z) : checked :=
  fail_if ((precision =? 0) || (38 <? precision) || (precision <? scale)) (InvalidRelationSchema "decimal").

Definition validate_timezone (timezone : option string) : checked :=
  fail_if (match timezone with Some timezone => is_blank timezone | None => false end)
    (InvalidRelationSchema "timestamp.timezone").

(** The loop over struct fields: named, distinct names, and valid types. *)
Definition validate_fields {T} (validate : T -> checked) (name_field : string) :
    list string -> list (string * T * bool) -> checked :=
  fix loop names fields :=
    match fields with
    | [] => Ok tt
    | (name, t, _) :: fields =>
        _ ← require_non_empty name_field name;
        _ ← fail_if (bool_decide (name ∈ names)) (InvalidRelationSchema name_field);
        _ ← validate t;
        loop (name :: names) fields
    end.

(** [validate_logical_struct_fields] and [validate_arrow_struct_fields] up to
    their field texts. *)
Definition validate_struct_fields {T} (validate : T -> checked) (fields_field name_field : string)
    (fields : list (string * T * bool)) : checked :=
  _ ← fail_if (bool_decide (fields = []%list \/ (MAX_RELATION_STRUCT_FIELDS < length fields)%nat))
    (InvalidRelationSchema fields_field);
  validate_fields validate name_field [] fields.

Fixpoint validate_logical_with_depth (depth : Z) (t : VelorixLogicalTypeV1) : checked :=
  if MAX_RELATION_TYPE_NESTING_DEPTH <? depth then Err (InvalidRelationSchema "logical_type.depth") else
  match t with
  | LDecimal precision scale => validate_decimal precision scale
  | LChar (Some 0) => Err (InvalidRelationSchema "char_length")
  | LTimestamp timezone => validate_timezone timezone
  | LBinary length => fail_if (length =? 0) (InvalidRelationSchema "binary_length")
  | LArray element_type => validate_logical_with_depth (depth + 1) element_type
  | LStruct fields => validate_struct_fields (validate_logical_with_depth (depth + 1))
      "logical_type.struct.fields" "logical_type.struct.field.name" fields
  | LMap key_type value_type =>
      _ ← validate_logical_with_depth (depth + 1) key_type;
      validate_logical_with_depth (depth + 1) value_type
  | _ => Ok tt
  end.

Fixpoint validate_physical_with_depth (depth : Z) (t : ArrowPhysicalTypeV1) : checked :=
  if MAX_RELATION_TYPE_NESTING_DEPTH <? depth then Err (InvalidRelationSchema "physical_arrow_type.depth") else
  match t with
  | PDecimal128 precision scale => validate_decimal precision scale
  | PTimestampNanosecond timezone => validate_timezone timezone
  | PList element_type => validate_physical_with_depth (depth + 1) element_type
  | PStruct fields => validate_struct_fields (validate_physical_with_depth (depth + 1))
      "physical_arrow_type.struct.fields" "physical_arrow_type.struct.field.name" fields
  | PMap key_type value_type =>
      _ ← validate_physical_with_depth (depth + 1) key_type;
      validate_physical_with_depth (depth + 1) value_type
  | _ => Ok tt
  end.

(** [a.len() == b.len() && a.iter().zip(b).all(f)]. *)
Definition fields_match {T U} (types_match : T -> U -> bool) :
    list (string * T * bool) -> list (string * U * bool) -> bool :=
  fix loop a b :=
    match a, b with
    | [], [] => true
    | (n, t, x) :: a, (m, u, y) :: b => String.eqb n m && Bool.eqb x y && types_match t u && loop a b
    | _, _ => false
    end.

(** Whether [validate_logical_physical_type_pair] accepts. *)
Fixpoint types_match (l : VelorixLogicalTypeV1) (p : ArrowPhysicalTypeV1) : bool :=
  match l, p with
  | LBool, PBoolean => true
  | LInt8, PInt8 | LInt16, PInt16 | LInt32, PInt32 | LInt64, PInt64 => true
  | LUInt8, PUInt8 | LUInt16, PUInt16 | LUInt32, PUInt32 | LUInt64, PUInt64 => true
  | LFloat32, PFloat32 | LFloat64, PFloat64 => true
  | LDecimal precision scale, PDecimal128 precision' scale' => (precision =? precision') && (scale =? scale')
  | LUtf8, PUtf8 | LUtf8, PDictionaryUtf8 _ _ => true
  | LChar _, PUtf8 | LChar _, PDictionaryUtf8 _ _ => true
  | LUuid, PUtf8 => true
  | LBinary _, PBinary | LVarbinary, PBinary => true
  | LDate, PDate32 => true
  | LTime, PTime64Nanosecond => true
  | LTimestamp timezone, PTimestampNanosecond timezone' => bool_decide (timezone = timezone')
  | LJson, PJsonUtf8 => true
  | LArray element, PList element' => types_match element element'
  | LStruct fields, PStruct fields' => fields_match types_match fields fields'
  | LMap key value, PMap key' value' => types_match key key' && types_match value value'
  | _, _ => false
  end.

Definition validate_logical_physical_type_pair (l : VelorixLogicalTypeV1) (p : ArrowPhysicalTypeV1) : checked :=
  fail_if (negb (types_match l p)) (InvalidRelationSchema "logical_physical_type").

Definition validate_column (c : RelationColumnV1) : checked :=
  _ ← require_non_empty "column.column_id" (column_id c);
  _ ← require_non_empty "column.name" (column_name c);
  _ ← validate_logical_with_depth 0 (logical_type c);
  _ ← validate_physical_with_depth 0 (physical_arrow_type c);
  validate_logical_physical_type_pair (logical_type c) (physical_arrow_type c).

(** * Checking schemas *)

(** The columns seen so far: ids, names, ordinals and their number. *)
Definition check_column (seen : list string * list string * list Z * Z) (c : RelationColumnV1) :
    result RelationSchemaError (list string * list string * list Z * Z) :=
  let '(ids, names, ordinals, index) := seen in
  _ ← validate_column c;
  _ ← fail_if (bool_decide (column_id c ∈ ids)) (InvalidRelationSchema "duplicate_column_id");
  _ ← fail_if (bool_decide (column_name c ∈ names)) (InvalidRelationSchema "duplicate_column_name");
  _ ← fail_if (bool_decide (ordinal c ∈ ordinals)) (InvalidRelationSchema "duplicate_ordinal");
  _ ← fail_if (negb (ordinal c =? index)) (InvalidRelationSchema "ordinal");
  Ok (column_id c :: ids, column_name c :: names, ordinal c :: ordinals, index + 1).

Definition require_column (field : string) (ids : list string) (_ : unit) (id : string) : checked :=
  _ ← require_non_empty field id;
  fail_if (negb (bool_decide (id ∈ ids))) (InvalidRelationSchema field).

Definition validate_schema (s : VelorixRelationSchemaV1) : checked :=
  _ ← require_non_empty "relation_id" (rs_relation_id s);
  _ ← require_non_empty "relation_name" (rs_relation_name s);
  _ ← require_non_empty "relation_version" (rs_relation_version s);
  _ ← fail_if (bool_decide (columns s = [])) (InvalidRelationSchema "columns");
  _ ← require_non_empty "weight_column_id" (weight_column_id s);
  _ ← fail_if (bool_decide (allowed_operations s = [])) (InvalidRelationSchema "allowed_operations");
  '(ids, _, _, _) ← try_fold check_column ([], [], [], 0) (columns s);
  _ ← try_fold (require_column "primary_key_column_ids" ids) tt (primary_key_column_ids s);
  _ ← fail_if (negb (bool_decide (weight_column_id s ∈ ids))) (InvalidRelationSchema "weight_column_id");
  match event_time_column_id s with
  | Some id => require_column "event_time_column_id" ids tt id
  | None => Ok tt
  end.

Definition validate_schema_fingerprint (field fingerprint : string) : checked :=
  if is_blank fingerprint then Err (MissingIdentityField field)
  else fail_if (negb (is_sha256_text fingerprint)) (InvalidRelationSchema field).

Definition is_ascii_alphabetic (c : Ascii.ascii) : bool :=
  let b := byte_of_ascii c in ((65 <=? b) && (b <=? 90)) || ((97 <=? b) && (b <=? 122)).

Definition to_ascii_lowercase_byte (c : Ascii.ascii) : Ascii.ascii :=
  let b := byte_of_ascii c in
  if (65 <=? b) && (b <=? 90) then Ascii.ascii_of_N (Z.to_N (b + 32)) else c.
Fixpoint to_ascii_lowercase (s : string) : string :=
  match s with EmptyString => EmptyString | String c s => String (to_ascii_lowercase_byte c) (to_ascii_lowercase s) end.

Definition validate_datafusion_registration_name (name : string) : checked :=
  match name with
  | EmptyString => Err (MissingIdentityField "datafusion_registration.name")
  | String first rest =>
      if negb (is_ascii_alphabetic first || Ascii.eqb first "_"%char) ||
         negb (all_bytes (fun c => is_ascii_alphanumeric c || Ascii.eqb c "_"%char) rest)
      then Err (InvalidRelationSchema "datafusion_registration.name")
      else fail_if (bool_decide (to_ascii_lowercase name ∈ ["input"; "information_schema"; "datafusion"]))
             (InvalidRelationSchema "datafusion_registration.name")
  end.

(** * Adapters *)

Inductive SupportedIncrementalAdapterSpec := ScalarSumCount | RowKeySumCount | Generic.

Definition is_scalar_sum_count_adapter_id (adapter_id : string) : bool :=
  match strip_prefix "incremental-adapter-" adapter_id ≫= strip_suffix "-sum-count-v1" with
  | None => false
  | Some name =>
      negb (String.eqb name "") && negb (starts_with "-" name) && negb (ends_with "-" name) &&
      all_bytes (fun c => let b := byte_of_ascii c in
        ((97 <=? b) && (b <=? 122)) || ((48 <=? b) && (b <=? 57)) || Ascii.eqb c "-"%char) name
  end.

Definition supported_incremental_adapter_spec (adapter_id : string) : option SupportedIncrementalAdapterSpec :=
  if String.eqb adapter_id "incremental-adapter-row-key-sum-count-v1" then Some RowKeySumCount
  else if String.eqb adapter_id "incremental-adapter-generic-v1" then Some Generic
  else if is_scalar_sum_count_adapter_id adapter_id then Some ScalarSumCount
  else None.

Definition has_role (role : RelationSemanticRoleV1) (c : RelationColumnV1) : Prop := semantic_role c = role.
#[export] Instance has_role_dec role c : Decision (has_role role c).
Proof. unfold has_role. apply _. Defined.

Definition validate_single_value_column_for_adapter (s : VelorixRelationSchemaV1) : checked :=
  match filter (has_role ValueRole) (columns s) with
  | [] => Err (InvalidRelationSchema "incremental_adapter.value_column")
  | [_] => Ok tt
  | _ => Err (InvalidRelationSchema "incremental_adapter.value_columns")
  end.

(** [columns.iter().find(|column| column.column_id == id)]. *)
Definition find_column (s : VelorixRelationSchemaV1) (id : string) : option RelationColumnV1 :=
  snd <$> list_find (fun c => column_id c = id) (columns s).

Definition validate_generic_ingest_relation (s : VelorixRelationSchemaV1) : checked :=
  weight_column ← ok_or (InvalidRelationSchema "weight_column_id") (find_column s (weight_column_id s));
  _ ← fail_if (negb (bool_decide (logical_type weight_column = LInt64)) ||
               negb (bool_decide (physical_arrow_type weight_column = PInt64)))
    (InvalidRelationSchema "generic_adapter.weight_column.type");
  _ ← fail_if (nullable weight_column) (InvalidRelationSchema "generic_adapter.weight_column.nullable");
  _ ← fail_if (bool_decide (weight_column_id s ∈ primary_key_column_ids s))
    (InvalidRelationSchema "generic_adapter.weight_column.primary_key");
  fail_if (negb (bool_decide (InsertOp ∈ allowed_operations s)))
    (InvalidRelationSchema "generic_adapter.allowed_operations.insert").

(** * Arrow schemas *)

Definition dictionary_key_data_type (k : DictionaryKeyTypeV1) : DataType :=
  match k with KInt8 => DInt8 | KInt16 => DInt16 | KInt32 => DInt32 | KInt64 => DInt64 end.

(** [fields.iter().map(f).collect::<Result<Vec<_>, _>>()] on the types of fields. *)
Definition map_fields {E T U} (f : T -> result E U) :
    list (string * T * bool) -> result E (list (string * U * bool)) :=
  fix loop fields :=
    match fields with
    | [] => Ok []
    | (name, t, nullable) :: fields =>
        u ← f t;
        rest ← loop fields;
        Ok ((name, u, nullable) :: rest)
    end.

Fixpoint data_type_for_arrow_physical_type (p : ArrowPhysicalTypeV1) : result RelationSchemaError DataType :=
  match p with
  | PBoolean => Ok DBoolean
  | PInt8 => Ok DInt8 | PInt16 => Ok DInt16 | PInt32 => Ok DInt32 | PInt64 => Ok DInt64
  | PUInt8 => Ok DUInt8 | PUInt16 => Ok DUInt16 | PUInt32 => Ok DUInt32 | PUInt64 => Ok DUInt64
  | PFloat32 => Ok DFloat32 | PFloat64 => Ok DFloat64
  | PDecimal128 precision scale =>
      if scale <=? 127 then Ok (DDecimal128 precision scale)
      else Err (InvalidRelationSchema "unsupported_arrow_physical_type")
  | PUtf8 | PJsonUtf8 => Ok DUtf8
  | PBinary => Ok DBinary
  | PDate32 => Ok DDate32
  | PTime64Nanosecond => Ok DTime64Nanosecond
  | PTimestampNanosecond timezone => Ok (DTimestampNanosecond timezone)
  | PDictionaryUtf8 key_type _ => Ok (DDictionary (dictionary_key_data_type key_type) DUtf8)
  | PList element_type =>
      element ← data_type_for_arrow_physical_type element_type;
      Ok (DList (new_field "item" element true))
  | PStruct fields =>
      fields ← map_fields data_type_for_arrow_physical_type fields;
      Ok (DStruct ((fun '(name, data_type, nullable) => new_field name data_type nullable) <$> fields))
  | PMap key_type value_type =>
      keys ← data_type_for_arrow_physical_type key_type;
      values ← data_type_for_arrow_physical_type value_type;
      Ok (DMap (new_field "entries" (DStruct [new_field "keys" keys false; new_field "values" values true]) false) false)
  end.

Definition column_field (c : RelationColumnV1) : result RelationSchemaError Field :=
  data_type ← data_type_for_arrow_physical_type (physical_arrow_type c);
  Ok (new_field (column_name c) data_type (nullable c)).

(** * Catalogs *)

(** [serde_json::to_vec] and [from_slice] of schemas and catalogs. *)
Class RelationCodec := {
  schema_to_vec : VelorixRelationSchemaV1 -> option bytes;
  catalog_to_vec : VelorixRelationCatalogV1 -> option bytes;
  catalog_from_slice : bytes -> option VelorixRelationCatalogV1
}.

Section catalogs.
Context `{Sha256, RelationCodec}.

Definition SCHEMA_FINGERPRINT_V1_DOMAIN : bytes := as_bytes "velorix-relation-schema-v1" ++ [0].

Definition for_relation_schema (s : VelorixRelationSchemaV1) : result RelationSchemaError string :=
  _ ← validate_schema s;
  canonical_json ← ok_or SchemaSerialization (schema_to_vec s);
  Ok (sha256_text (SCHEMA_FINGERPRINT_V1_DOMAIN ++ canonical_json)).

Definition validate_catalog (c : VelorixRelationCatalogV1) : checked :=
  _ ← fail_if (negb (rc_schema_version c =? RELATION_SCHEMA_VERSION_V1))
    (UnsupportedCatalogVersion (rc_schema_version c));
  computed ← for_relation_schema (relation_schema c);
  _ ← validate_schema_fingerprint "schema_fingerprint" (rc_schema_fingerprint c);
  _ ← fail_if (bool_decide (relation_source c = SourceRelation) &&
               negb (String.eqb (rc_schema_fingerprint c) computed))
    (SchemaFingerprintMismatch "catalog");
  _ ← require_non_empty "datafusion_registration.name" (registration_name c);
  _ ← validate_datafusion_registration_name (registration_name c);
  _ ← require_non_empty "incremental_relation.relation_id" (incremental_relation_id c);
  _ ← fail_if (negb (String.eqb (incremental_relation_id c) (rs_relation_id (relation_schema c))))
    (RelationIdentityMismatch "incremental_relation.relation_id");
  _ ← validate_schema_fingerprint "incremental_relation.schema_fingerprint" (incremental_schema_fingerprint c);
  _ ← fail_if (negb (String.eqb (incremental_schema_fingerprint c) (rc_schema_fingerprint c)))
    (SchemaFingerprintMismatch "incremental_relation");
  require_non_empty "incremental_adapter.adapter_id" (adapter_id c).

Definition validate_supported_incremental_adapter_scope (c : VelorixRelationCatalogV1) :
    result RelationSchemaError SupportedIncrementalAdapterSpec :=
  _ ← validate_catalog c;
  spec ← ok_or (InvalidRelationSchema "incremental_adapter.adapter_id")
    (supported_incremental_adapter_spec (adapter_id c));
  let keys := length (primary_key_column_ids (relation_schema c)) in
  match spec with
  | ScalarSumCount =>
      _ ← fail_if (negb (keys =? 1)%nat) (InvalidRelationSchema "incremental_adapter.primary_key_column_ids");
      Ok spec
  | RowKeySumCount =>
      _ ← fail_if (keys =? 0)%nat (InvalidRelationSchema "incremental_adapter.primary_key_column_ids");
      _ ← validate_single_value_column_for_adapter (relation_schema c);
      Ok spec
  | Generic =>
      _ ← validate_generic_ingest_relation (relation_schema c);
      Ok spec
  end.

Definition validate_ingest_adapter_scope (c : VelorixRelationCatalogV1) :
    result RelationSchemaError SupportedIncrementalAdapterSpec :=
  _ ← validate_catalog c;
  spec ← ok_or (InvalidRelationSchema "incremental_adapter.adapter_id")
    (supported_incremental_adapter_spec (adapter_id c));
  match spec with
  | ScalarSumCount | RowKeySumCount => validate_supported_incremental_adapter_scope c
  | Generic =>
      _ ← validate_generic_ingest_relation (relation_schema c);
      Ok spec
  end.

Definition from_relation_schema (s : VelorixRelationSchemaV1) (adapter : string) :
    result RelationSchemaError VelorixRelationCatalogV1 :=
  schema_fingerprint ← for_relation_schema s;
  let catalog := Catalog RELATION_SCHEMA_VERSION_V1 s schema_fingerprint (rs_relation_name s) TableMode
    (rs_relation_id s) schema_fingerprint adapter SourceRelation in
  _ ← validate_ingest_adapter_scope catalog;
  Ok catalog.

(** The fields and the metadata of the schema. *)
Definition datafusion_schema_from_catalog (c : VelorixRelationCatalogV1) :
    result RelationSchemaError (list Field * gmap string string) :=
  _ ← validate_catalog c;
  fields ← try_map column_field (columns (relation_schema c));
  Ok (fields, <["velorix.schema_fingerprint" := rc_schema_fingerprint c]>
    (<["velorix.relation_version" := rs_relation_version (relation_schema c)]>
    (<["velorix.relation_id" := rs_relation_id (relation_schema c)]> ∅))).

(** [batch_fields] are the fields of the batch's schema. *)
Definition validate_record_batch_matches_catalog (c : VelorixRelationCatalogV1) (batch_fields : list Field) : checked :=
  expected ← datafusion_schema_from_catalog c;
  fail_if (negb (bool_decide (batch_fields = expected.1))) (InvalidRelationSchema "batch_schema").

End catalogs.

(** * What validation establishes *)

(** The ordinals of [n] columns. *)
Definition ordinals (n : nat) : list Z := seqZ 0 (Z.of_nat n).

(** A schema [validate_schema] accepts. *)
Definition valid_schema (s : VelorixRelationSchemaV1) : Prop :=
  is_blank (rs_relation_id s) = false /\ is_blank (rs_relation_name s) = false /\
  is_blank (rs_relation_version s) = false /\ columns s <> [] /\ allowed_operations s <> [] /\
  Forall (fun c => validate_column c = Ok tt) (columns s) /\
  NoDup (column_id <$> columns s) /\ NoDup (column_name <$> columns s) /\
  (ordinal <$> columns s) = ordinals (length (columns s)) /\
  Forall (fun id => is_blank id = false /\ id ∈ (column_id <$> columns s))
    (weight_column_id s :: option_list (event_time_column_id s) ++ primary_key_column_ids s).

Lemma require_non_empty_ok field value : require_non_empty field value = Ok tt <-> is_blank value = false.
Proof. apply fail_if_ok. Qed.

Lemma require_column_ok field ids id : require_column field ids tt id = Ok tt <-> is_blank id = false /\ id ∈ ids.
Proof.
  unfold require_column, require_non_empty. destruct (is_blank id); cbn; [naive_solver|].
  rewrite fail_if_ok, negb_false_iff, bool_decide_eq_true. naive_solver.
Qed.

Lemma require_columns_ok field ids l :
  try_fold (require_column field ids) tt l = Ok tt <-> Forall (fun id => is_blank id = false /\ id ∈ ids) l.
Proof.
  induction l as [|id l IH]; [by split|]. rewrite Forall_cons, <-IH, <-(require_column_ok field). cbn [try_fold].
  destruct (require_column field ids tt id) as [[]|e]; cbn; naive_solver.
Qed.

Lemma check_column_ok seen c seen' : check_column seen c = Ok seen' <->
  validate_column c = Ok tt /\ column_id c ∉ seen.1.1.1 /\ column_name c ∉ seen.1.1.2 /\ ordinal c ∉ seen.1.2 /\
  ordinal c = seen.2 /\
  seen' = (column_id c :: seen.1.1.1, column_name c :: seen.1.1.2, ordinal c :: seen.1.2, seen.2 + 1).
Proof.
  destruct seen as [[[ids names] ordinals] index]. unfold check_column. cbn.
  destruct (validate_column c) as [[]|e]; cbn; [|naive_solver].
  repeat case_bool_decide; cbn; try naive_solver. destruct (Z.eqb_spec (ordinal c) index); cbn; naive_solver.
Qed.

Lemma check_columns_ok l seen seen' : (forall o, o ∈ seen.1.2 -> o < seen.2) -> NoDup seen.1.1.1 -> NoDup seen.1.1.2 ->
  try_fold check_column seen l = Ok seen' <->
  Forall (fun c => validate_column c = Ok tt) l /\
  NoDup (reverse (column_id <$> l) ++ seen.1.1.1) /\ NoDup (reverse (column_name <$> l) ++ seen.1.1.2) /\
  (ordinal <$> l) = seqZ seen.2 (Z.of_nat (length l)) /\
  seen' = (reverse (column_id <$> l) ++ seen.1.1.1, reverse (column_name <$> l) ++ seen.1.1.2,
    reverse (ordinal <$> l) ++ seen.1.2, seen.2 + Z.of_nat (length l)).
Proof.
  revert seen. induction l as [|c l IH]; intros seen Hord Hids Hnames.
  - destruct seen as [[[? ?] ?] ?]. cbn in *. rewrite Z.add_0_r. naive_solver.
  - cbn [try_fold]. rewrite !fmap_cons, !reverse_cons, <-!app_assoc, Forall_cons. cbn [app].
    cbn [length]. cbn [length]. rewrite Nat2Z.inj_succ, seqZ_cons, Z.pred_succ by lia.
    destruct (check_column seen c) as [seen1|e] eqn:Hc; cbn [mbind result_bind].
    + apply check_column_ok in Hc as (Hv & Hi & Hn & Ho & Heq & ->).
      rewrite IH; cbn; [|set_solver by lia|by constructor|by constructor].
      replace (Z.succ seen.2) with (seen.2 + 1) by lia. replace (seen.2 + 1 + Z.of_nat (length l)) with (seen.2 + Z.succ (Z.of_nat (length l))) by lia.
      rewrite Heq. split; [intros (? & ? & ? & -> & ->); by split_and!|].
      by intros ((_ & ?) & ? & ? & [= ?] & ->).
    + split; [done|]. intros ((Hv & _) & Hi & Hn & Ho & _). exfalso.
      apply NoDup_app in Hi as (_ & _ & [? _]%NoDup_cons), Hn as (_ & _ & [? _]%NoDup_cons). injection Ho as Ho _.
      assert (exists s, check_column seen c = Ok s) as [s Hs]; [|congruence].
      eexists. apply check_column_ok. split_and!; try done. intros Hin%Hord. lia.
Qed.

Lemma columns_checked l ids names ords n :
  try_fold check_column ([], [], [], 0) l = Ok (ids, names, ords, n) <->
  Forall (fun c => validate_column c = Ok tt) l /\ NoDup (column_id <$> l) /\ NoDup (column_name <$> l) /\
  (ordinal <$> l) = ordinals (length l) /\
  (ids, names, ords, n) = (reverse (column_id <$> l), reverse (column_name <$> l), reverse (ordinal <$> l), Z.of_nat (length l)).
Proof.
  rewrite check_columns_ok by (cbn; set_solver || constructor). cbn [fst snd].
  assert (forall l : list string, NoDup (reverse l) <-> NoDup l) as Hr by (intros; by rewrite reverse_Permutation).
  by rewrite !app_nil_r, !Hr.
Qed.

Lemma validate_schema_ok s : validate_schema s = Ok tt <-> valid_schema s.
Proof.
  unfold validate_schema, valid_schema. rewrite !bind_unit_ok, !require_non_empty_ok, !fail_if_ok, !bool_decide_eq_false.
  rewrite Forall_cons, Forall_app.
  assert (forall id, id ∈ reverse (column_id <$> columns s) <-> id ∈ column_id <$> columns s) as Hids
    by (intros; by rewrite reverse_Permutation).
  assert (forall l, Forall (fun id => is_blank id = false /\ id ∈ reverse (column_id <$> columns s)) l <->
    Forall (fun id => is_blank id = false /\ id ∈ column_id <$> columns s) l) as Hl.
  { intros l. rewrite !Forall_forall. by setoid_rewrite Hids. }
  split.
  - intros (H1 & H2 & H3 & H4 & H5 & H6 & Hc). destruct (try_fold check_column _ _) as [[[[ids names] ords] n]|] eqn:Hf; [|done].
    apply columns_checked in Hf as (Hv & Hi & Hn & Ho & [= -> -> -> ->]). cbn [mbind result_bind] in Hc.
    rewrite !bind_unit_ok, require_columns_ok, Hl, fail_if_ok, negb_false_iff, bool_decide_eq_true, Hids in Hc.
    destruct Hc as (Hk & Hw & He). split_and!; try done.
    destruct (event_time_column_id s) as [id|]; cbn; [|constructor]. rewrite require_column_ok, Hids in He. by constructor.
  - intros (H1 & H2 & H3 & H4 & H5 & Hv & Hi & Hn & Ho & [H6 Hw] & He & Hk).
    rewrite (proj2 (columns_checked (columns s) _ _ _ _)) by done. cbn [mbind result_bind].
    rewrite !bind_unit_ok, require_columns_ok, Hl, fail_if_ok, negb_false_iff, bool_decide_eq_true, Hids.
    split_and!; try done.
    destruct (event_time_column_id s) as [id|]; cbn in He; [|done]. rewrite require_column_ok, Hids. by apply Forall_cons in He as [? _].
Qed.

(** ** Arrow schemas *)

Lemma validate_fields_ok {T} (validate : T -> checked) field names fields :
  validate_fields validate field names fields = Ok tt -> Forall (fun f => validate f.1.2 = Ok tt) fields.
Proof.
  revert names. induction fields as [|[[name t] b] fields IH]; intros names; cbn [validate_fields]; [done|].
  rewrite !bind_unit_ok. intros (_ & _ & Ht & Hfs). constructor; [done|eauto].
Qed.

Lemma map_fields_total {E T U} (f : T -> result E U) fields :
  Forall (fun x => exists u, f x.1.2 = Ok u) fields -> exists us, map_fields f fields = Ok us.
Proof.
  induction 1 as [|[[name t] b] fields [u Hu] _ [us IH]]; cbn in *; [by eexists|].
  rewrite Hu. cbn. rewrite IH. by eexists.
Qed.

Lemma data_type_total p depth : validate_physical_with_depth depth p = Ok tt ->
  exists d, data_type_for_arrow_physical_type p = Ok d.
Proof.
  revert depth. induction p as [p Hl Hs Hm|e IH|fs IH|k v IHk IHv] using physical_type_ind; intros depth.
  - destruct p; cbn; try (intros; eexists; reflexivity); try (by destruct (Hl p)); try (by destruct (Hs fields));
      try (by destruct (Hm p1 p2)).
    case_match; [done|]. unfold validate_decimal. rewrite fail_if_ok, !orb_false_iff, !Z.ltb_ge. intros [[_ ?] ?].
    destruct (Z.leb_spec scale 127); [by eexists|lia].
  - cbn. case_match; [done|]. intros [d ->]%IH. by eexists.
  - cbn [validate_physical_with_depth]. case_match; [done|]. unfold validate_struct_fields.
    rewrite bind_unit_ok. intros [_ Hok].
    cbn [data_type_for_arrow_physical_type]. destruct (map_fields_total data_type_for_arrow_physical_type fs) as [us ->]; [|by eexists].
    apply Forall_forall. intros f Hf. rewrite Forall_forall in IH. apply (IH f Hf (depth + 1)).
    apply validate_fields_ok in Hok. rewrite Forall_forall in Hok. by apply Hok.
  - cbn [validate_physical_with_depth]. case_match; [done|]. rewrite bind_unit_ok. intros [Hk Hv].
    destruct (IHk _ Hk) as [d Hd], (IHv _ Hv) as [d' Hd']. cbn. rewrite Hd, Hd'. by eexists.
Qed.

(** The fields a batch of a valid catalog has. *)
Definition arrow_fields (c : VelorixRelationCatalogV1) : list Field :=
  match try_map column_field (columns (relation_schema c)) with Ok fields => fields | Err _ => [] end.

(** JSON text determines the schema. *)
Class RelationCodecLaws `{RelationCodec} : Prop := {
  schema_to_vec_inj s t b : schema_to_vec s = Some b -> schema_to_vec t = Some b -> s = t
}.

Section catalog_proofs.
Context `{Sha256Laws, RelationCodecLaws}.

Lemma validate_catalog_schema c : validate_catalog c = Ok tt -> valid_schema (relation_schema c).
Proof.
  unfold validate_catalog, for_relation_schema. rewrite bind_unit_ok. intros [_ (? & [Hs _]%bind_unit_ok & _)%bind_ok].
  by apply validate_schema_ok.
Qed.

Lemma arrow_fields_total c : validate_catalog c = Ok tt ->
  try_map column_field (columns (relation_schema c)) = Ok (arrow_fields c).
Proof.
  intros (_ & _ & _ & _ & _ & Hcols & _)%validate_catalog_schema. unfold arrow_fields.
  destruct (try_map_total column_field (columns (relation_schema c))) as [fields ->]; [|done].
  intros col Hcol. rewrite Forall_forall in Hcols. apply Hcols in Hcol. unfold validate_column in Hcol.
  rewrite !bind_unit_ok in Hcol. destruct Hcol as (_ & _ & _ & Hp & _).
  destruct (data_type_total _ _ Hp) as [d Hd]. unfold column_field. rewrite Hd. by eexists.
Qed.

(** C30: A catalog that passes validation has an Arrow schema: the conversion of its
    column types never fails, the fields have the names and nullability of the
    columns, in order, with distinct names and without metadata of their own, and a
    record batch matches the catalog exactly when it has those fields. *)
Theorem valid_catalog_arrow_schema c : validate_catalog c = Ok tt ->
  (exists metadata, datafusion_schema_from_catalog c = Ok (arrow_fields c, metadata)) /\
  ((fun f => (field_name f, field_nullable f)) <$> arrow_fields c) =
    ((fun col => (column_name col, nullable col)) <$> columns (relation_schema c)) /\
  NoDup (field_name <$> arrow_fields c) /\ Forall (fun f => field_metadata f = ∅) (arrow_fields c) /\
  forall fields, validate_record_batch_matches_catalog c fields = Ok tt <-> fields = arrow_fields c.
Proof.
  intros Hc. pose proof (arrow_fields_total c Hc) as Hf. pose proof (validate_catalog_schema c Hc) as (_&_&_&_&_&_&_&Hn&_).
  assert (exists metadata, datafusion_schema_from_catalog c = Ok (arrow_fields c, metadata)) as [metadata Hs].
  { unfold datafusion_schema_from_catalog. rewrite Hc, Hf. by eexists. }
  assert (((fun f => (field_name f, field_nullable f)) <$> arrow_fields c) =
    ((fun col => (column_name col, nullable col)) <$> columns (relation_schema c)) /\
    Forall (fun f => field_metadata f = ∅) (arrow_fields c)) as [Hnames Hmeta].
  { apply try_map_ok in Hf. clear -Hf. revert Hf. generalize (columns (relation_schema c)) (arrow_fields c).
    induction 1 as [|col f cols fields Hcol _ [IH ?]]; [done|]. rewrite !fmap_cons, IH.
    apply bind_ok in Hcol as (d & _ & [= <-]). split; [done|by constructor]. }
  split_and!; [by exists metadata|done| |done|].
  - replace (field_name <$> arrow_fields c) with (fst <$> ((fun f => (field_name f, field_nullable f)) <$> arrow_fields c));
      [|by rewrite <-list_fmap_compose]. by rewrite Hnames, <-list_fmap_compose.
  - intros fields. unfold validate_record_batch_matches_catalog. rewrite Hs. cbn.
    rewrite fail_if_ok, negb_false_iff, bool_decide_eq_true. done.
Qed.

(** The fingerprint of a registered relation pins its schema: two valid catalogs
    of source relations with one fingerprint have the same schema, or the texts of
    the two schemas collide. *)
Theorem fingerprint_pins_schema c d : validate_catalog c = Ok tt -> validate_catalog d = Ok tt ->
  relation_source c = SourceRelation -> relation_source d = SourceRelation ->
  rc_schema_fingerprint c = rc_schema_fingerprint d ->
  relation_schema c = relation_schema d \/
  exists b b', schema_to_vec (relation_schema c) = Some b /\ schema_to_vec (relation_schema d) = Some b' /\
    collide (SCHEMA_FINGERPRINT_V1_DOMAIN ++ b) (SCHEMA_FINGERPRINT_V1_DOMAIN ++ b').
Proof.
  intros Hc Hd Sc Sd Heq. assert (forall c, validate_catalog c = Ok tt -> relation_source c = SourceRelation ->
    exists b, schema_to_vec (relation_schema c) = Some b /\ rc_schema_fingerprint c = sha256_text (SCHEMA_FINGERPRINT_V1_DOMAIN ++ b)) as Hfp.
  { clear. intros c Hc Hs. unfold validate_catalog, for_relation_schema in Hc. rewrite bind_unit_ok in Hc.
    destruct Hc as [_ (fp & Hfp & Hc)%bind_ok]. rewrite bind_unit_ok in Hfp.
    destruct Hfp as [_ (b & Hb%ok_or_ok & [= <-])%bind_ok].
    rewrite !bind_unit_ok in Hc. destruct Hc as (_ & Heq%fail_if_ok & _). rewrite bool_decide_true in Heq by done.
    exists b. split; [done|]. by apply String.eqb_eq, negb_false_iff. }
  destruct (Hfp c Hc Sc) as (b & Hb & Eb), (Hfp d Hd Sd) as (b' & Hb' & Eb').
  rewrite Eb, Eb' in Heq. apply sha256_text_eq in Heq as [Heq|?]; [|right; by exists b, b'].
  apply (inj (app _)) in Heq as <-. left. by eapply schema_to_vec_inj.
Qed.
End catalog_proofs.
