(* ===== verification/ObjectKeyProofs.v ===== *)
(** Correctness of the object keys of [ObjectKey.v].

    [artifact] enumerates the key constructors with their arguments. A key is
    its artifact's segments joined by slashes ([build_ok]); the segments lack
    slashes, so the key determines them, and they determine the artifact. *)
From Stdlib Require Import Ascii.
From S2P Require Import Prelude BTree Json Digits Segments ObjectKey.

(** * Segments *)

(** A non-empty name of letters, digits, dashes, underscores and dots that is
    not a relative path. *)
Definition safe_segment (s : string) : Prop :=
  s <> "" /\ s <> "." /\ s <> ".." /\ all_bytes segment_byte s = true.
Definition sha256_hex (s : string) : Prop := String.length s = 64%nat /\ all_bytes is_ascii_hexdigit s = true.
Definition sha256_hash (s : string) : Prop := exists hex, s = "sha256:" +:+ hex /\ sha256_hex hex.
Definition view_spec_hash (s : string) : Prop :=
  exists hex, s = "velorix-view-spec-sha256-v1:" +:+ hex /\ sha256_hex hex.

Definition partition_text (p : Z) : string := zero_padded PARTITION_WIDTH p.
Definition version_text (v : Z) : string := zero_padded CHECKPOINT_WIDTH v.
Definition range (lo hi : Z) : string := zero_padded OFFSET_WIDTH lo +:+ "-" +:+ zero_padded OFFSET_WIDTH hi.
Definition sha256_part (s : string) : string := default "" (strip_prefix "sha256:" s).
Definition view_spec_part (s : string) : string := default "" (strip_prefix "velorix-view-spec-sha256-v1:" s).

(** One constructor per key constructor of [ObjectKey], with its arguments. *)
Inductive artifact :=
| IngestBatch (stream : string) (p lo hi : Z)
| IngestStaging (stream : string) (p lo hi : Z) (id : string)
| IngestAdmissionRecord (stream : string) (p lo hi : Z)
| IngestAdmissionOrphanExpiryDecision (stream : string) (p lo hi : Z) (id : string)
| IngestEpochManifest (hash : string)
| IngestEpochViewConvergence (hash tenant program view : string)
| IngestEpochViewRuntimeFailure (hash tenant program view : string)
| StateObject (owner : string) (p version : Z) (id : string)
| OutputObject (stream : string) (p version lo hi : Z) (id : string)
| TempPublish (version : Z) (attempt kind : string)
| CheckpointManifestObject (version : Z)
| CheckpointLatestCandidateMarker
| CheckpointLifecycleObject (version : Z)
| CheckpointGcTransitionRecord (version : Z) (id : string)
| CheckpointRetentionRecord (version : Z)
| CheckpointRecoveryTransitionRecord (version : Z) (id : string)
| GarbageCollectionRun (id : string)
| OwnershipEpochRecordObject (stream : string) (p epoch : Z)
| QueryPolicy (tenant id : string)
| MaterializedView (view hash : string)
| ActiveMaterializedView (view : string)
| StandingRuntimeCheckpoint (tenant program view : string) (epoch : Z) (hash : string)
| StandingRuntimeLatestCheckpoint (tenant program view : string)
| StandingRuntimeStatePayload (tenant program view : string) (epoch : Z) (hash : string)
| StandingRuntimeOutputManifest (tenant program view : string) (epoch : Z) (hash : string)
| StandingRuntimeOutputPage (tenant program view : string) (epoch page : Z) (hash : string)
| StandingRuntimeOutputDelta (tenant program view : string) (epoch : Z) (hash : string)
| OutputChunk (hash : string)
| RelationCatalog (relation version : string).

(** The key of an artifact: the constructor applied to its arguments. *)
Definition build (a : artifact) : result ObjectKeyError ObjectKey :=
  match a with
  | IngestBatch stream p lo hi => ingest_batch stream p lo hi
  | IngestStaging stream p lo hi id => ingest_staging stream p lo hi id
  | IngestAdmissionRecord stream p lo hi => ingest_admission_record stream p lo hi
  | IngestAdmissionOrphanExpiryDecision stream p lo hi id =>
      ingest_admission_orphan_expiry_decision stream p lo hi id
  | IngestEpochManifest hash => ingest_epoch_manifest hash
  | IngestEpochViewConvergence hash tenant program view =>
      ingest_epoch_view_convergence hash tenant program view
  | IngestEpochViewRuntimeFailure hash tenant program view =>
      ingest_epoch_view_runtime_failure hash tenant program view
  | StateObject owner p version id => state_object owner p version id
  | OutputObject stream p version lo hi id => output_object stream p version lo hi id
  | TempPublish version attempt kind => temp_publish version attempt kind
  | CheckpointManifestObject version => Ok (checkpoint_manifest version)
  | CheckpointLatestCandidateMarker => Ok checkpoint_latest_candidate_marker
  | CheckpointLifecycleObject version => Ok (checkpoint_lifecycle_record version)
  | CheckpointGcTransitionRecord version id => checkpoint_gc_transition_record version id
  | CheckpointRetentionRecord version => Ok (checkpoint_retention_record version)
  | CheckpointRecoveryTransitionRecord version id =>
      checkpoint_recovery_transition_record version id
  | GarbageCollectionRun id => garbage_collection_run id
  | OwnershipEpochRecordObject stream p epoch => ownership_epoch_record stream p epoch
  | QueryPolicy tenant id => query_policy tenant id
  | MaterializedView view hash => materialized_view view hash
  | ActiveMaterializedView view => active_materialized_view view
  | StandingRuntimeCheckpoint tenant program view epoch hash =>
      standing_runtime_checkpoint tenant program view epoch hash
  | StandingRuntimeLatestCheckpoint tenant program view =>
      standing_runtime_latest_checkpoint tenant program view
  | StandingRuntimeStatePayload tenant program view epoch hash =>
      standing_runtime_state_payload tenant program view epoch hash
  | StandingRuntimeOutputManifest tenant program view epoch hash =>
      standing_runtime_output_manifest tenant program view epoch hash
  | StandingRuntimeOutputPage tenant program view epoch page hash =>
      standing_runtime_output_page tenant program view epoch page hash
  | StandingRuntimeOutputDelta tenant program view epoch hash =>
      standing_runtime_output_delta tenant program view epoch hash
  | OutputChunk hash => output_chunk hash
  | RelationCatalog relation version => relation_catalog relation version
  end.

(** The arguments are values of their Rust types. *)
Definition typed (a : artifact) : Prop :=
  match a with
  | IngestBatch _ p lo hi => is_u32 p = true /\ is_u64 lo = true /\ is_u64 hi = true
  | IngestStaging _ p lo hi _ => is_u32 p = true /\ is_u64 lo = true /\ is_u64 hi = true
  | IngestAdmissionRecord _ p lo hi => is_u32 p = true /\ is_u64 lo = true /\ is_u64 hi = true
  | IngestAdmissionOrphanExpiryDecision _ p lo hi _ =>
      is_u32 p = true /\ is_u64 lo = true /\ is_u64 hi = true
  | StateObject _ p version _ => is_u32 p = true /\ is_u64 version = true
  | OutputObject _ p version lo hi _ =>
      is_u32 p = true /\ is_u64 version = true /\ is_u64 lo = true /\ is_u64 hi = true
  | TempPublish version _ _ => is_u64 version = true
  | CheckpointManifestObject version => is_u64 version = true
  | CheckpointLifecycleObject version => is_u64 version = true
  | CheckpointGcTransitionRecord version _ => is_u64 version = true
  | CheckpointRetentionRecord version => is_u64 version = true
  | CheckpointRecoveryTransitionRecord version _ => is_u64 version = true
  | OwnershipEpochRecordObject _ p epoch => is_u32 p = true /\ is_u64 epoch = true
  | StandingRuntimeCheckpoint _ _ _ epoch _ => is_u64 epoch = true
  | StandingRuntimeStatePayload _ _ _ epoch _ => is_u64 epoch = true
  | StandingRuntimeOutputManifest _ _ _ epoch _ => is_u64 epoch = true
  | StandingRuntimeOutputPage _ _ _ epoch page _ => is_u64 epoch = true /\ is_u32 page = true
  | StandingRuntimeOutputDelta _ _ _ epoch _ => is_u64 epoch = true
  | _ => True
  end.

(** What the constructor checks. *)
Definition admissible (a : artifact) : Prop :=
  match a with
  | IngestBatch stream _ lo hi => safe_segment stream /\ lo < hi
  | IngestStaging stream _ lo hi id => safe_segment stream /\ safe_segment id /\ lo < hi
  | IngestAdmissionRecord stream _ lo hi => safe_segment stream /\ lo < hi
  | IngestAdmissionOrphanExpiryDecision stream _ lo hi id =>
      safe_segment stream /\ safe_segment id /\ lo < hi
  | IngestEpochManifest hash => sha256_hash hash
  | IngestEpochViewConvergence hash tenant program view =>
      sha256_hash hash /\ safe_segment tenant /\ safe_segment program /\ safe_segment view
  | IngestEpochViewRuntimeFailure hash tenant program view =>
      sha256_hash hash /\ safe_segment tenant /\ safe_segment program /\ safe_segment view
  | StateObject owner _ _ id => safe_segment owner /\ safe_segment id
  | OutputObject stream _ _ lo hi id => safe_segment stream /\ safe_segment id /\ lo < hi
  | TempPublish _ attempt kind => safe_segment attempt /\ safe_segment kind
  | CheckpointGcTransitionRecord _ id => safe_segment id
  | CheckpointRecoveryTransitionRecord _ id => safe_segment id
  | GarbageCollectionRun id => safe_segment id
  | OwnershipEpochRecordObject stream _ _ => safe_segment stream
  | QueryPolicy tenant id => safe_segment tenant /\ safe_segment id
  | MaterializedView view hash => safe_segment view /\ view_spec_hash hash
  | ActiveMaterializedView view => safe_segment view
  | StandingRuntimeCheckpoint tenant program view _ hash =>
      safe_segment tenant /\ safe_segment program /\ safe_segment view /\ sha256_hash hash
  | StandingRuntimeLatestCheckpoint tenant program view =>
      safe_segment tenant /\ safe_segment program /\ safe_segment view
  | StandingRuntimeStatePayload tenant program view _ hash =>
      safe_segment tenant /\ safe_segment program /\ safe_segment view /\ sha256_hash hash
  | StandingRuntimeOutputManifest tenant program view _ hash =>
      safe_segment tenant /\ safe_segment program /\ safe_segment view /\ sha256_hash hash
  | StandingRuntimeOutputPage tenant program view _ _ hash =>
      safe_segment tenant /\ safe_segment program /\ safe_segment view /\ sha256_hash hash
  | StandingRuntimeOutputDelta tenant program view _ hash =>
      safe_segment tenant /\ safe_segment program /\ safe_segment view /\ sha256_hash hash
  | OutputChunk hash => sha256_hash hash
  | RelationCatalog relation version => safe_segment relation /\ safe_segment version
  | _ => True
  end.

(** The segments of an artifact's key after ["v1"]. *)
Definition segments (a : artifact) : list string :=
  match a with
  | IngestBatch stream p lo hi =>
      ["ingest"; stream; "p=" +:+ partition_text p; range lo hi +:+ ".batch"]
  | IngestStaging stream p lo hi id =>
      ["ingest-staging"; stream; "p=" +:+ partition_text p; range lo hi; id +:+ ".stage"]
  | IngestAdmissionRecord stream p lo hi =>
      ["ingest-admission"; stream; "p=" +:+ partition_text p; "ranges";
       range lo hi +:+ ".admission.json"]
  | IngestAdmissionOrphanExpiryDecision stream p lo hi id =>
      ["ingest-admission"; stream; "p=" +:+ partition_text p; "ranges"; range lo hi;
       "expiry-decisions"; id +:+ ".expiry.json"]
  | IngestEpochManifest hash => ["ingest-epochs"; "sha256"; sha256_part hash +:+ ".epoch.json"]
  | IngestEpochViewConvergence hash tenant program view =>
      ["ingest-epoch-convergence"; "sha256"; sha256_part hash; tenant; program;
       view +:+ ".convergence.json"]
  | IngestEpochViewRuntimeFailure hash tenant program view =>
      ["ingest-epoch-runtime-failures"; "sha256"; sha256_part hash; tenant; program;
       view +:+ ".failure.json"]
  | StateObject owner p version id =>
      ["state"; owner; "p=" +:+ partition_text p; "chk=" +:+ version_text version;
       id +:+ ".state"]
  | OutputObject stream p version lo hi id =>
      ["outputs"; stream; "p=" +:+ partition_text p; "chk=" +:+ version_text version;
       range lo hi; id +:+ ".output"]
  | TempPublish version attempt kind => ["tmp"; version_text version; attempt; kind]
  | CheckpointManifestObject version => ["checkpoints"; version_text version +:+ ".manifest"]
  | CheckpointLatestCandidateMarker => ["checkpoint-index"; "latest-candidate.json"]
  | CheckpointLifecycleObject version =>
      ["checkpoint-lifecycle"; version_text version +:+ ".status.json"]
  | CheckpointGcTransitionRecord version id =>
      ["checkpoint-gc-transitions"; version_text version; "transitions";
       id +:+ ".transition.json"]
  | CheckpointRetentionRecord version =>
      ["checkpoint-retention"; version_text version +:+ ".retention.json"]
  | CheckpointRecoveryTransitionRecord version id =>
      ["checkpoint-recovery"; version_text version; "transitions"; id +:+ ".transition.json"]
  | GarbageCollectionRun id => ["gc-runs"; id +:+ ".run.json"]
  | OwnershipEpochRecordObject stream p epoch =>
      ["ownership"; stream; "p=" +:+ partition_text p;
       ("epoch=" +:+ version_text epoch) +:+ ".claim"]
  | QueryPolicy tenant id => ["query-policy"; tenant; id +:+ ".json"]
  | MaterializedView view hash =>
      ["views"; view; "spec-sha256"; view_spec_part hash +:+ ".view.json"]
  | ActiveMaterializedView view => ["views"; view; "active.json"]
  | StandingRuntimeCheckpoint tenant program view epoch hash =>
      ["standing-runtime-checkpoints"; tenant; program; view; "epochs"; version_text epoch;
       "sha256"; sha256_part hash +:+ ".checkpoint.arrow"]
  | StandingRuntimeLatestCheckpoint tenant program view =>
      ["standing-runtime-checkpoints"; tenant; program; view; "latest.json"]
  | StandingRuntimeStatePayload tenant program view epoch hash =>
      ["standing-runtime-state-payloads"; tenant; program; view; "epochs"; version_text epoch;
       "sha256"; sha256_part hash +:+ ".state-payload.arrow"]
  | StandingRuntimeOutputManifest tenant program view epoch hash =>
      ["standing-runtime-output-manifests"; tenant; program; view; "epochs"; version_text epoch;
       "sha256"; sha256_part hash +:+ ".output-manifest.json"]
  | StandingRuntimeOutputPage tenant program view epoch page hash =>
      ["standing-runtime-output-pages"; tenant; program; view; "epochs"; version_text epoch;
       "pages"; partition_text page; "sha256"; sha256_part hash +:+ ".output-page.arrow"]
  | StandingRuntimeOutputDelta tenant program view epoch hash =>
      ["standing-runtime-output-deltas"; tenant; program; view; "epochs"; version_text epoch;
       "sha256"; sha256_part hash +:+ ".output-delta.arrow"]
  | OutputChunk hash => ["output-chunks"; "sha256"; sha256_part hash +:+ ".chunk.arrow-ipc"]
  | RelationCatalog relation version =>
      ["relations"; relation; "versions"; version +:+ ".relation.json"]
  end.

Definition slash : Ascii.ascii := "/"%char.

Definition key_text (a : artifact) : string := joined slash ("v1" :: segments a).

(** ** What the validators and readers accept *)

Lemma validate_segment_ok name v u : validate_segment name v = Ok u <-> safe_segment v.
Proof.
  unfold validate_segment, safe_segment. destruct u, (String.eqb_spec v ""); simpl; [naive_solver|].
  destruct (String.eqb_spec v "."), (String.eqb_spec v ".."), (all_bytes segment_byte v); simpl; naive_solver.
Qed.

Lemma validate_offset_range_ok lo hi u : validate_offset_range lo hi = Ok u <-> lo < hi.
Proof. unfold validate_offset_range. rewrite fail_if_ok. lia. Qed.

Lemma validate_sha256_hex_ok h u : validate_sha256_hex h = Ok u <-> sha256_hex h.
Proof.
  unfold validate_sha256_hex, sha256_hex. destruct u, (Nat.eqb_spec (String.length h) 64); simpl; [|naive_solver].
  destruct (all_bytes is_ascii_hexdigit h); naive_solver.
Qed.

Lemma map_err_ok {E F A} (f : E -> F) (r : result E A) a : map_err f r = Ok a <-> r = Ok a.
Proof. destruct r; simpl; naive_solver. Qed.

Lemma external_sha256_hex_ok v h u : external_sha256_hex v h = Ok u <-> sha256_hex h.
Proof. unfold external_sha256_hex. by rewrite map_err_ok, validate_sha256_hex_ok. Qed.

Lemma parse_sha256_hash_segment_ok s h :
  parse_sha256_hash_segment s = Ok h <-> s = "sha256:" +:+ h /\ sha256_hex h.
Proof.
  unfold parse_sha256_hash_segment. rewrite bind_ok. setoid_rewrite bind_ok.
  setoid_rewrite ok_or_ok. setoid_rewrite strip_prefix_some. setoid_rewrite validate_sha256_hex_ok.
  split; [intros (? & ? & [] & ? & [= <-]); eauto|]. intros [-> ?]. eexists; split; [done|]. by exists tt.
Qed.

Lemma parse_view_spec_hash_segment_ok s h :
  parse_view_spec_hash_segment s = Ok h <-> s = "velorix-view-spec-sha256-v1:" +:+ h /\ sha256_hex h.
Proof.
  unfold parse_view_spec_hash_segment. rewrite bind_ok. setoid_rewrite bind_ok.
  setoid_rewrite ok_or_ok. setoid_rewrite strip_prefix_some. setoid_rewrite map_err_ok.
  setoid_rewrite validate_sha256_hex_ok.
  split; [intros (? & ? & [] & ? & [= <-]); eauto|]. intros [-> ?]. eexists; split; [done|]. by exists tt.
Qed.

Lemma fixed_digits_ok max width v n : (0 < width <= 39)%nat -> 0 <= max < 10 ^ Z.of_nat width ->
  is_fixed_width_digits v width = true /\ parse_unsigned max v = Some n <->
  v = zero_padded width n /\ 0 <= n <= max.
Proof.
  intros Hw Hmax. unfold is_fixed_width_digits, parse_unsigned. rewrite andb_true_iff, Nat.eqb_eq, <-all_digits_bytes.
  split.
  - intros [[Hlen Hd] Hp]. rewrite Hd in Hp.
    destruct (String.eqb_spec v ""); [done|]. simpl in Hp.
    destruct (Z.leb_spec (undigits (string_digits v)) max); simplify_eq.
    pose proof (undigits_bound _ (string_digits_digit _ Hd)). split; [by apply zero_padded_unique|lia].
  - intros [-> Hn]. assert (0 <= n < 10 ^ Z.of_nat width) as Hn' by lia.
    rewrite (zero_padded_length width n Hw Hn'), (zero_padded_digits width n Hw Hn'),
      (zero_padded_value width n Hw Hn').
    destruct (String.eqb_spec (zero_padded width n) "") as [Heq|].
    + pose proof (zero_padded_length width n Hw Hn') as Hlen. rewrite Heq in Hlen. simpl in Hlen. lia.
    + rewrite (proj2 (Z.leb_le n max)) by lia. done.
Qed.

Lemma parse_fixed_u64_ok name v n :
  parse_fixed_u64 name v CHECKPOINT_WIDTH = Ok n <-> v = version_text n /\ is_u64 n = true.
Proof.
  unfold parse_fixed_u64. rewrite (in_range_true 0 u64_max n).
  rewrite <-(fixed_digits_ok u64_max CHECKPOINT_WIDTH v n); [|unfold CHECKPOINT_WIDTH; lia|by vm_compute].
  destruct (is_fixed_width_digits v CHECKPOINT_WIDTH); simpl; [rewrite ok_or_ok|]; naive_solver.
Qed.

Lemma parse_fixed_u32_ok name v n :
  parse_fixed_u32 name v PARTITION_WIDTH = Ok n <-> v = partition_text n /\ is_u32 n = true.
Proof.
  unfold parse_fixed_u32. rewrite (in_range_true 0 u32_max n).
  rewrite <-(fixed_digits_ok u32_max PARTITION_WIDTH v n); [|unfold PARTITION_WIDTH; lia|by vm_compute].
  destruct (is_fixed_width_digits v PARTITION_WIDTH); simpl; [rewrite ok_or_ok|]; naive_solver.
Qed.

Lemma parse_prefixed_u32_ok name v prefix n :
  parse_prefixed_u32 name v prefix PARTITION_WIDTH = Ok n <->
  v = prefix +:+ partition_text n /\ is_u32 n = true.
Proof.
  unfold parse_prefixed_u32. rewrite bind_ok. setoid_rewrite ok_or_ok.
  setoid_rewrite strip_prefix_some. setoid_rewrite parse_fixed_u32_ok.
  split; [intros (? & -> & -> & ?); done|intros [-> ?]; eauto].
Qed.

Lemma parse_prefixed_u64_ok name v prefix n :
  parse_prefixed_u64 name v prefix CHECKPOINT_WIDTH = Ok n <->
  v = prefix +:+ version_text n /\ is_u64 n = true.
Proof.
  unfold parse_prefixed_u64. rewrite bind_ok. setoid_rewrite ok_or_ok.
  setoid_rewrite strip_prefix_some. setoid_rewrite parse_fixed_u64_ok.
  split; [intros (? & -> & -> & ?); done|intros [-> ?]; eauto].
Qed.

Lemma file_stem_ok v suffix file stem : file_stem v suffix file = Ok stem <-> file = stem +:+ suffix.
Proof. unfold file_stem. by rewrite ok_or_ok, strip_suffix_some. Qed.

Lemma parse_offset_range_ok v r lo hi :
  parse_offset_range v r = Ok (lo, hi) <->
  r = range lo hi /\ is_u64 lo = true /\ is_u64 hi = true /\ lo < hi.
Proof.
  unfold parse_offset_range. change OFFSET_WIDTH with CHECKPOINT_WIDTH. rewrite bind_ok.
  setoid_rewrite ok_or_ok. split.
  - intros ([a b] & [-> Ha]%split_once_some & H). simplify_res.
    rewrite parse_fixed_u64_ok, validate_offset_range_ok in *. by destruct_and!; subst.
  - intros (-> & Hlo & Hhi & Hlt). exists (version_text lo, version_text hi). split.
    + apply split_once_some. split; [done|]. eapply all_bytes_weaken; [|rewrite <-all_digits_bytes; apply zero_padded_digits].
      * intros c Hc. apply negb_true_iff, Ascii.eqb_neq. by intros ->.
      * unfold CHECKPOINT_WIDTH; lia.
      * change (10 ^ Z.of_nat CHECKPOINT_WIDTH) with 100000000000000000000. range.
    + rewrite (proj2 (parse_fixed_u64_ok _ (version_text lo) lo)), Ok_bind by done.
      rewrite (proj2 (parse_fixed_u64_ok _ (version_text hi) hi)), Ok_bind by done.
      by rewrite (proj2 (validate_offset_range_ok lo hi tt)).
Qed.

(** ** Clean segments *)

(** A segment that survives joining and splitting. *)
Definition clean (s : string) : Prop := s <> "" /\ lacks slash s = true.

Lemma clean_app_l a b : clean a -> lacks slash b = true -> clean (a +:+ b).
Proof.
  intros [Ha Hl] Hb. split; [by destruct a|]. unfold lacks in *. by rewrite all_bytes_app, Hl, Hb.
Qed.
Lemma clean_app_r a b : lacks slash a = true -> clean b -> clean (a +:+ b).
Proof.
  intros Hl [Hb Hlb]. split; [by destruct a|]. unfold lacks in *. by rewrite all_bytes_app, Hl, Hlb.
Qed.

Lemma lacks_weaken p s : p slash = false -> all_bytes p s = true -> lacks slash s = true.
Proof.
  intros Hp. apply all_bytes_weaken. intros c Hc. apply negb_true_iff, Ascii.eqb_neq. congruence.
Qed.

Lemma clean_safe s : safe_segment s -> clean s.
Proof. intros (? & _ & _ & Hs). split; [done|]. by apply (lacks_weaken segment_byte). Qed.
Lemma clean_hex s : sha256_hex s -> clean s.
Proof. intros [Hl Hs]. split; [by intros ->|]. by apply (lacks_weaken is_ascii_hexdigit). Qed.

Lemma clean_padded width n : (0 < width <= 39)%nat -> 0 <= n < 10 ^ Z.of_nat width -> clean (zero_padded width n).
Proof.
  intros Hw Hn. split.
  - pose proof (zero_padded_length width n Hw Hn) as Hlen. intros Heq. rewrite Heq in Hlen. simpl in Hlen. lia.
  - eapply (lacks_weaken is_ascii_digit); [done|]. rewrite <-all_digits_bytes. by apply zero_padded_digits.
Qed.

Lemma u64_padded n : is_u64 n = true -> 0 <= n < 10 ^ Z.of_nat CHECKPOINT_WIDTH.
Proof. change (10 ^ Z.of_nat CHECKPOINT_WIDTH) with 100000000000000000000. intros. range. Qed.
Lemma u32_padded n : is_u32 n = true -> 0 <= n < 10 ^ Z.of_nat PARTITION_WIDTH.
Proof. change (10 ^ Z.of_nat PARTITION_WIDTH) with 10000000000. intros. range. Qed.

Lemma clean_version n : is_u64 n = true -> clean (version_text n).
Proof. intros. apply clean_padded; [unfold CHECKPOINT_WIDTH; lia|by apply u64_padded]. Qed.
Lemma clean_partition n : is_u32 n = true -> clean (partition_text n).
Proof. intros. apply clean_padded; [unfold PARTITION_WIDTH; lia|by apply u32_padded]. Qed.
Lemma clean_range lo hi : is_u64 lo = true -> is_u64 hi = true -> clean (range lo hi).
Proof.
  intros. unfold range. change OFFSET_WIDTH with CHECKPOINT_WIDTH. apply clean_app_l; [by apply clean_version|].
  by apply clean_app_r, clean_version.
Qed.
Lemma clean_sha256 s : sha256_hash s -> clean (sha256_part s).
Proof.
  intros (h & -> & Hh). unfold sha256_part. rewrite (proj2 (strip_prefix_some _ _ h)) by done. by apply clean_hex.
Qed.
Lemma clean_view_spec s : view_spec_hash s -> clean (view_spec_part s).
Proof.
  intros (h & -> & Hh). unfold view_spec_part. rewrite (proj2 (strip_prefix_some _ _ h)) by done. by apply clean_hex.
Qed.

(** Proves that a segment is clean from what is known of its parts. *)
Ltac clean :=
  match goal with
  | |- clean (String _ _) => split; [discriminate|reflexivity]
  | |- clean (String _ _ +:+ _) => apply clean_app_r; [reflexivity|clean]
  | |- clean (_ +:+ String _ _) => apply clean_app_l; [clean|reflexivity]
  | |- _ => auto using clean_safe, clean_hex, clean_version, clean_partition, clean_range,
              clean_sha256, clean_view_spec
  end.

Lemma segments_clean a : typed a -> admissible a -> Forall clean (segments a).
Proof. destruct a; simpl; intros; destruct_and?; repeat apply Forall_cons_2; try apply Forall_nil_2; clean. Qed.

(** ** Keys are joined segments *)

Lemma sha256_part_app h : sha256_part ("sha256:" +:+ h) = h.
Proof. done. Qed.
Lemma view_spec_part_app h : view_spec_part ("velorix-view-spec-sha256-v1:" +:+ h) = h.
Proof. done. Qed.

(** Turns the successful checks among the hypotheses into what they check. *)
Ltac key_inv :=
  repeat (simplify_res;
  match goal with
  | H : (_ * _)%type |- _ => destruct H
  | H : validate_segment _ _ = Ok _ |- _ => apply validate_segment_ok in H
  | H : validate_offset_range _ _ = Ok _ |- _ => apply validate_offset_range_ok in H
  | H : parse_sha256_hash_segment _ = Ok _ |- _ => apply parse_sha256_hash_segment_ok in H as [-> H]
  | H : parse_view_spec_hash_segment _ = Ok _ |- _ => apply parse_view_spec_hash_segment_ok in H as [-> H]
  | H : external_sha256_hex _ _ = Ok _ |- _ => apply external_sha256_hex_ok in H
  | H : file_stem _ _ _ = Ok _ |- _ => apply file_stem_ok in H as ->
  | H : parse_offset_range _ _ = Ok _ |- _ => apply parse_offset_range_ok in H as (-> & ? & ? & H)
  | H : parse_prefixed_u32 _ _ _ PARTITION_WIDTH = Ok _ |- _ => apply parse_prefixed_u32_ok in H as [-> H]
  | H : parse_prefixed_u64 _ _ _ CHECKPOINT_WIDTH = Ok _ |- _ => apply parse_prefixed_u64_ok in H as [-> H]
  | H : parse_fixed_u32 _ _ PARTITION_WIDTH = Ok _ |- _ => apply parse_fixed_u32_ok in H as [-> H]
  | H : parse_fixed_u64 _ _ CHECKPOINT_WIDTH = Ok _ |- _ => apply parse_fixed_u64_ok in H as [-> H]
  end); simplify_res.

(** Performs the checks whose conditions are among the hypotheses. *)
Ltac key_run :=
  repeat match goal with
  | H : sha256_hash _ |- _ => destruct H as (? & -> & ?)
  | H : view_spec_hash _ |- _ => destruct H as (? & -> & ?)
  end;
  repeat first
    [ rewrite Ok_bind
    | rewrite (proj2 (validate_segment_ok _ _ tt)) by assumption
    | rewrite (proj2 (validate_offset_range_ok _ _ tt)) by assumption
    | rewrite (proj2 (external_sha256_hex_ok _ _ tt)) by assumption
    | erewrite (proj2 (parse_sha256_hash_segment_ok _ _)) by (split; [reflexivity|assumption])
    | erewrite (proj2 (parse_view_spec_hash_segment_ok _ _)) by (split; [reflexivity|assumption])
    | erewrite (proj2 (file_stem_ok _ _ _ _)) by reflexivity
    | erewrite (proj2 (parse_offset_range_ok _ _ _ _)) by (split_and!; [reflexivity|assumption..])
    | erewrite (proj2 (parse_prefixed_u32_ok _ _ _ _)) by (split; [reflexivity|assumption])
    | erewrite (proj2 (parse_prefixed_u64_ok _ _ _ _)) by (split; [reflexivity|assumption])
    | erewrite (proj2 (parse_fixed_u32_ok _ _ _)) by (split; [reflexivity|assumption])
    | erewrite (proj2 (parse_fixed_u64_ok _ _ _)) by (split; [reflexivity|assumption]) ].

Ltac key_text_eq :=
  unfold key_text; cbn [segments];
  rewrite ?joined_cons, ?joined_one, ?sha256_part_app, ?view_spec_part_app;
  unfold range, partition_text, version_text; rewrite ?append_assoc; reflexivity.

Lemma build_text a k : build a = Ok k -> admissible a /\ k = Key (key_text a).
Proof.
  unfold build. intros H. destruct a; cbn [admissible];
    match type of H with
    | Ok _ = _ => idtac
    | ?f _ _ _ _ _ _ = _ => unfold f in H | ?f _ _ _ _ _ = _ => unfold f in H
    | ?f _ _ _ _ = _ => unfold f in H | ?f _ _ _ = _ => unfold f in H
    | ?f _ _ = _ => unfold f in H | ?f _ = _ => unfold f in H
    end; key_inv; (split; [unfold sha256_hash, view_spec_hash; by eauto 10|f_equal; key_text_eq]).
Qed.

Lemma build_total a : admissible a -> build a = Ok (Key (key_text a)).
Proof.
  destruct a; cbn [admissible build]; intros; destruct_and?;
    match goal with
    | |- Ok _ = _ => idtac
    | |- ?f _ _ _ _ _ _ = _ => unfold f | |- ?f _ _ _ _ _ = _ => unfold f
    | |- ?f _ _ _ _ = _ => unfold f | |- ?f _ _ _ = _ => unfold f
    | |- ?f _ _ = _ => unfold f | |- ?f _ = _ => unfold f
    end; key_run; f_equal; key_text_eq.
Qed.

Lemma split_key a : typed a -> admissible a -> split slash (key_text a) = "v1" :: segments a.
Proof.
  intros Ht Ha. apply split_joined; [done|].
  eapply Forall_impl; [by apply segments_clean|]. by intros s [_ ?].
Qed.

(** ** Segments determine the artifact *)

Lemma version_text_inj n m : is_u64 n = true -> is_u64 m = true -> version_text n = version_text m -> n = m.
Proof.
  intros Hn Hm. apply zero_padded_inj; [unfold CHECKPOINT_WIDTH; lia|by apply u64_padded..].
Qed.
Lemma partition_text_inj n m : is_u32 n = true -> is_u32 m = true -> partition_text n = partition_text m -> n = m.
Proof.
  intros Hn Hm. apply zero_padded_inj; [unfold PARTITION_WIDTH; lia|by apply u32_padded..].
Qed.
Lemma range_inj lo hi lo' hi' : is_u64 lo = true -> is_u64 hi = true -> is_u64 lo' = true -> is_u64 hi' = true ->
  lo < hi -> lo' < hi' -> range lo hi = range lo' hi' -> lo = lo' /\ hi = hi'.
Proof.
  intros ?????? Heq.
  assert (parse_offset_range "" (range lo hi) = Ok (lo, hi)) as Hr1 by by apply parse_offset_range_ok.
  assert (parse_offset_range "" (range lo' hi') = Ok (lo', hi')) as Hr2 by by apply parse_offset_range_ok.
  rewrite Heq in Hr1. rewrite Hr1 in Hr2. by injection Hr2.
Qed.
Lemma sha256_part_inj s t : sha256_hash s -> sha256_hash t -> sha256_part s = sha256_part t -> s = t.
Proof. intros (? & -> & _) (? & -> & _). by rewrite !sha256_part_app; intros ->. Qed.
Lemma view_spec_part_inj s t : view_spec_hash s -> view_spec_hash t -> view_spec_part s = view_spec_part t -> s = t.
Proof. intros (? & -> & _) (? & -> & _). by rewrite !view_spec_part_app; intros ->. Qed.
Lemma append_cancel_l a b c : a +:+ b = a +:+ c -> b = c.
Proof. induction a as [|x a IH]; [done|]. rewrite !append_cons. injection 1 as Heq. auto. Qed.

(** Reduces an equation between segments to equations between their parts. *)
Ltac segments_eq :=
  repeat match goal with
  | H : ?a +:+ _ = ?a +:+ _ |- _ => apply append_cancel_l in H
  | H : _ +:+ ?b = _ +:+ ?b |- _ => apply append_cancel_r in H
  | H : version_text _ = version_text _ |- _ => apply version_text_inj in H; [|assumption..]
  | H : partition_text _ = partition_text _ |- _ => apply partition_text_inj in H; [|assumption..]
  | H : range _ _ = range _ _ |- _ => apply range_inj in H as [? ?]; [|assumption..]
  | H : sha256_part _ = sha256_part _ |- _ => apply sha256_part_inj in H; [|assumption..]
  | H : view_spec_part _ = view_spec_part _ |- _ => apply view_spec_part_inj in H; [|assumption..]
  end.

Lemma segments_inj a b : typed a -> admissible a -> typed b -> admissible b -> segments a = segments b -> a = b.
Proof.
  intros Ha Ha' Hb Hb' Heq.
  destruct a, b; cbn [segments] in Heq; try discriminate Heq; cbn [typed admissible] in *; destruct_and?;
    repeat match goal with H : _ :: _ = _ :: _ |- _ => injection H; clear H; intros end; segments_eq; congruence.
Qed.

(** ** Reading keys *)

Lemma parse_split v k : parse v = Ok k <->
  k = Key v /\ Forall (fun s => s <> "") (split slash v) /\
  exists namespace rest, split slash v = "v1" :: namespace :: rest /\ known_layout v namespace rest = Ok tt.
Proof.
  unfold parse, validate_known_layout. change "/"%char with slash.
  assert (existsb (fun segment => String.eqb segment "") (split slash v) = false <->
          Forall (fun s => s <> "") (split slash v)) as Hempty.
  { induction (split slash v) as [|s l IH]; simpl; [done|].
    rewrite orb_false_iff, IH, String.eqb_neq, Forall_cons. done. }
  pose proof (joined_split slash v) as Hv. pose proof (split_pieces_lack slash v) as Hl.
  split.
  - destruct (_ || _ || _) eqn:He; [done|]. apply orb_false_iff in He as [_ He%Hempty].
    destruct (split slash v) as [|version [|namespace rest]]; simpl; try done.
    destruct (String.eqb_spec version "v1") as [->|]; [|done].
    intros H. simplify_res. split_and!; [done..|]. destruct x. eauto.
  - intros (-> & Hne & namespace & rest & Heq & Hk). rewrite Heq in Hv, Hl.
    rewrite <-Hv at 1 2. rewrite joined_cons.
    change ("v1" +:+ String slash ?s) with ("v1/" +:+ s) at 2. rewrite starts_with_app.
    rewrite (proj2 Hempty Hne). simpl. by rewrite Heq, Hk.
Qed.

(** Every key has a layout that [parse] knows, output chunks excepted. *)
Definition readable (a : artifact) : Prop :=
  match a with OutputChunk _ => False | _ => True end.

(** Decides the comparisons of literal segments. *)
Ltac literals :=
  repeat match goal with
  | |- context [String.eqb (String ?x ?a) (String ?y ?b)] =>
      let r := eval vm_compute in (String.eqb (String x a) (String y b)) in
      change (String.eqb (String x a) (String y b)) with r; cbn [andb negb]; cbn match
  end.

Ltac unfold_parts :=
  unfold parse_ingest_batch_parts, parse_ingest_staging_parts, parse_output_object_parts,
    parse_ownership_epoch_record_parts, parse_standing_runtime_checkpoint_parts,
    parse_standing_runtime_state_payload_parts, parse_standing_runtime_output_manifest_parts,
    parse_standing_runtime_output_page_parts, parse_standing_runtime_output_delta_parts in *.

Lemma known_layout_accepts v a : typed a -> admissible a -> readable a ->
  exists namespace rest, segments a = namespace :: rest /\ known_layout v namespace rest = Ok tt.
Proof.
  intros Ht Ha Hr. destruct a; try done; cbn [typed admissible] in *; destruct_and?;
    (eexists _, _; split; [reflexivity|]);
    repeat match goal with
    | H : sha256_hash _ |- _ => destruct H as (? & -> & H)
    | H : view_spec_hash _ |- _ => destruct H as (? & -> & H)
    end; rewrite ?sha256_part_app, ?view_spec_part_app;
    unfold known_layout; literals; unfold_parts; key_run; reflexivity.
Qed.

(** The layouts [parse] accepts that no constructor writes. *)
Definition unwritten (namespace : string) (rest : list string) : Prop :=
  exists id, safe_segment id /\
    ((namespace = "queries" /\ rest = [id +:+ ".query.json"]) \/
     (namespace = "tables" /\ rest = [id +:+ ".table.json"])).

(** Names the artifact of a list of segments. *)
Tactic Notation "found" open_constr(a) :=
  exists a; cbn [typed admissible readable]; split_and!;
  [..|reflexivity]; unfold sha256_hash, view_spec_hash; eauto.
Ltac find_artifact :=
  first
    [ found (IngestBatch _ _ _ _) | found (IngestStaging _ _ _ _ _)
    | found (IngestAdmissionRecord _ _ _ _)
    | found (IngestAdmissionOrphanExpiryDecision _ _ _ _ _)
    | found (IngestEpochManifest ("sha256:" +:+ _))
    | found (IngestEpochViewConvergence ("sha256:" +:+ _) _ _ _)
    | found (IngestEpochViewRuntimeFailure ("sha256:" +:+ _) _ _ _) | found (StateObject _ _ _ _)
    | found (OutputObject _ _ _ _ _ _) | found (TempPublish _ _ _)
    | found (CheckpointManifestObject _) | found CheckpointLatestCandidateMarker
    | found (CheckpointLifecycleObject _) | found (CheckpointGcTransitionRecord _ _)
    | found (CheckpointRetentionRecord _) | found (CheckpointRecoveryTransitionRecord _ _)
    | found (GarbageCollectionRun _) | found (OwnershipEpochRecordObject _ _ _)
    | found (QueryPolicy _ _) | found (MaterializedView _ ("velorix-view-spec-sha256-v1:" +:+ _))
    | found (ActiveMaterializedView _)
    | found (StandingRuntimeCheckpoint _ _ _ _ ("sha256:" +:+ _))
    | found (StandingRuntimeLatestCheckpoint _ _ _)
    | found (StandingRuntimeStatePayload _ _ _ _ ("sha256:" +:+ _))
    | found (StandingRuntimeOutputManifest _ _ _ _ ("sha256:" +:+ _))
    | found (StandingRuntimeOutputPage _ _ _ _ _ ("sha256:" +:+ _))
    | found (StandingRuntimeOutputDelta _ _ _ _ ("sha256:" +:+ _)) | found (RelationCatalog _ _) ].

Lemma known_layout_inv v namespace rest : known_layout v namespace rest = Ok tt ->
  (exists a, typed a /\ admissible a /\ readable a /\ segments a = namespace :: rest) \/ unwritten namespace rest.
Proof.
  unfold known_layout, unwritten. intros H. cbv zeta in H.
  repeat match type of H with
  | (if String.eqb namespace ?literal then _ else _) = _ =>
      destruct (String.eqb_spec namespace literal) as [->|_]
  end; [..|done].
  all: repeat match type of H with
    | match ?l with [] => _ | _ :: _ => _ end = _ => is_var l; destruct l; try discriminate H
    end.
  all: repeat match type of H with
    | context [String.eqb ?a ?b] =>
        destruct (String.eqb a b) eqn:?; [|discriminate H]
    end; rewrite ?String.eqb_eq in *; subst; cbn [negb andb] in H.
  all: unfold_parts; key_inv; try (left; find_artifact); right; eauto 10.
Qed.

(** * Theorems *)

Lemma parse_readable a : typed a -> admissible a -> readable a -> parse (key_text a) = Ok (Key (key_text a)).
Proof.
  intros Ht Ha Hr. apply parse_split. rewrite split_key by done.
  pose proof (segments_clean a Ht Ha) as Hc. split_and!; [done| |].
  - constructor; [done|]. eapply Forall_impl; [exact Hc|]. by intros s [? _].
  - destruct (known_layout_accepts (key_text a) a Ht Ha Hr) as (namespace & rest & -> & ?). eauto.
Qed.

Lemma split_key_text a v : split slash v = "v1" :: segments a -> v = key_text a.
Proof. intros Heq. unfold key_text. by rewrite <-Heq, joined_split. Qed.

(** C34: [parse] reads exactly the keys the constructors write, apart from the
    output chunks it rejects and the query and table documents that no
    constructor writes. *)
Theorem parse_accepts_exactly v k :
  parse v = Ok k <->
  k = Key v /\
  ((exists a, typed a /\ readable a /\ build a = Ok k) \/
   (exists id, validate_segment "id" id = Ok tt /\
      (v = "v1/queries/" +:+ id +:+ ".query.json" \/ v = "v1/tables/" +:+ id +:+ ".table.json"))).
Proof.
  split.
  - intros (-> & _ & namespace & rest & Hs & Hk)%parse_split. split; [done|].
    destruct (known_layout_inv _ _ _ Hk) as [(a & Ht & Ha & Hr & Heq)|(id & Hid & Hu)].
    + left. exists a. rewrite <-Heq in Hs. apply split_key_text in Hs as ->. by rewrite build_total.
    + right. exists id. rewrite validate_segment_ok. split; [done|].
      rewrite <-(joined_split slash v), Hs. destruct Hu as [[-> ->]|[-> ->]]; [by left|by right].
  - intros [-> [(a & Ht & Hr & Hb)|(id & Hid & Hv)]].
    + apply build_text in Hb as [Ha [= ->]]. by apply parse_readable.
    + apply validate_segment_ok in Hid as Hsafe. destruct (clean_safe id Hsafe) as [Hne Hl].
      assert (exists namespace suffix, v = joined slash ["v1"; namespace; id +:+ suffix] /\
        clean namespace /\ lacks slash suffix = true /\
        known_layout v namespace [id +:+ suffix] = Ok tt) as (namespace & suffix & -> & Hns & Hsuf & Hk).
      { destruct Hv as [-> | ->]; [exists "queries", ".query.json"|exists "tables", ".table.json"];
          (split_and!; [done|split; [discriminate|done]|done|]); unfold known_layout; literals; by key_run. }
      pose proof (clean_app_l id suffix (conj Hne Hl) Hsuf) as [??]. destruct Hns.
      apply parse_split. rewrite split_joined; [|done|by repeat constructor].
      split_and!; [done|by repeat constructor|eauto].
Qed.

Lemma build_inj a b k : typed a -> typed b -> build a = Ok k -> build b = Ok k -> a = b.
Proof.
  intros Ha Hb [Ha' ->]%build_text [Hb' [= Heq]]%build_text.
  apply segments_inj; [done..|]. apply (f_equal (split slash)) in Heq.
  rewrite !split_key in Heq by done. by injection Heq.
Qed.

(** C33: Two artifacts with the same key are the same artifact: no constructor
    writes over the object of another, nor over its own for other arguments. *)
Theorem keys_identify a b k : typed a -> typed b -> build a = Ok k -> build b = Ok k -> a = b.
Proof. apply build_inj. Qed.

(** The key of an output chunk does not deserialize. *)
Theorem output_chunk_unreadable parts k : object_key parts = Ok k -> deserialize (as_str k) = None.
Proof.
  unfold object_key, deserialize. intros Hb. change (output_chunk _) with (build (OutputChunk (chunk_hash parts))) in Hb.
  apply build_text in Hb as [Ha ->]. destruct (parse _) as [k|] eqn:Hp; [|done].
  apply parse_split in Hp as (_ & _ & namespace & rest & Hs & Hk). cbn [as_str] in *.
  rewrite split_key in Hs by done. cbn [segments] in Hs. injection Hs as <- <-. discriminate Hk.
Qed.

(** ** Parts *)

(** The artifact of the parts of a key. *)
Definition ingest_batch_artifact (p : IngestBatchKeyParts) : artifact :=
  IngestBatch (ib_stream_id p) (ib_partition_id p) (ib_start_offset_inclusive p)
    (ib_end_offset_exclusive p).
Definition ingest_staging_artifact (p : IngestStagingKeyParts) : artifact :=
  IngestStaging (is_stream_id p) (is_partition_id p) (is_start_offset_inclusive p)
    (is_end_offset_exclusive p) (is_staging_id p).
Definition output_object_artifact (p : OutputObjectKeyParts) : artifact :=
  OutputObject (oo_stream_id p) (oo_partition_id p) (oo_checkpoint_version p)
    (oo_start_offset_inclusive p) (oo_end_offset_exclusive p) (oo_object_id p).
Definition ownership_epoch_record_artifact (p : OwnershipEpochRecordKeyParts) : artifact :=
  OwnershipEpochRecordObject (oe_stream_id p) (oe_partition_id p) (oe_owner_epoch p).
Definition standing_runtime_checkpoint_artifact (p : StandingRuntimeCheckpointKeyParts) : artifact :=
  StandingRuntimeCheckpoint (sc_tenant_id p) (sc_program_id p) (sc_view_id p)
    (sc_logical_epoch p) (sc_content_hash p).
Definition standing_runtime_state_payload_artifact (p : StandingRuntimeStatePayloadKeyParts) : artifact :=
  StandingRuntimeStatePayload (sp_tenant_id p) (sp_program_id p) (sp_view_id p)
    (sp_logical_epoch p) (sp_state_content_hash p).
Definition standing_runtime_output_manifest_artifact (p : StandingRuntimeOutputManifestKeyParts) : artifact :=
  StandingRuntimeOutputManifest (so_tenant_id p) (so_program_id p) (so_view_id p)
    (so_logical_epoch p) (so_output_content_hash p).
Definition standing_runtime_output_page_artifact (p : StandingRuntimeOutputPageKeyParts) : artifact :=
  StandingRuntimeOutputPage (sg_tenant_id p) (sg_program_id p) (sg_view_id p)
    (sg_logical_epoch p) (sg_page_index p) (sg_page_content_hash p).
Definition standing_runtime_output_delta_artifact (p : StandingRuntimeOutputDeltaKeyParts) : artifact :=
  StandingRuntimeOutputDelta (sd_tenant_id p) (sd_program_id p) (sd_view_id p)
    (sd_logical_epoch p) (sd_delta_content_hash p).

Section parts.
Context {Parts : Type} (layout : string -> result ObjectKeyError Parts) (artifact_of : Parts -> artifact).

(** What a reader of parts does for its kind of artifact. *)
Definition reads : Prop := forall v k parts,
  (key ← parse v; parts ← layout v; Ok (key, parts)) = Ok (k, parts) <->
  k = Key v /\ typed (artifact_of parts) /\ build (artifact_of parts) = Ok k.

Hypothesis artifact_readable : forall parts, readable (artifact_of parts).
Hypothesis layout_reads : forall parts, typed (artifact_of parts) -> admissible (artifact_of parts) ->
  split slash (key_text (artifact_of parts)) = "v1" :: segments (artifact_of parts) ->
  layout (key_text (artifact_of parts)) = Ok parts.
Hypothesis layout_inv : forall v parts, layout v = Ok parts ->
  typed (artifact_of parts) /\ admissible (artifact_of parts) /\
  split slash v = "v1" :: segments (artifact_of parts).

Lemma layout_round_trip : reads.
Proof using All.
  intros v k parts. split.
  - intros H. simplify_res. apply parse_split in H0 as (-> & _).
    match goal with H : layout _ = Ok _ |- _ => apply layout_inv in H as (? & ? & ->%split_key_text) end.
    by rewrite build_total.
  - intros (-> & Ht & [Ha [= ->]]%build_text). rewrite parse_readable, Ok_bind by done.
    rewrite layout_reads; [done..|by apply split_key].
Qed.
End parts.

(** Proves the premises of [layout_round_trip] for a reader and its artifact. *)
Ltac parts_round_trip layout artifact_of :=
  apply layout_round_trip;
  [ done
  | intros [] Ht Ha Hs; unfold layout, artifact_of in *; cbn in Ht, Ha; destruct_and?;
    change "/"%char with slash; rewrite Hs; cbn [segments];
    repeat match goal with H : sha256_hash _ |- _ => destruct H as (? & H & ?); rewrite H in * end;
    rewrite ?sha256_part_app; literals; unfold_parts; key_run; done
  | intros v parts H; unfold layout in H; change "/"%char with slash in H;
    destruct (split slash v) eqn:Hs; [done|];
    repeat match type of H with
    | match ?l with [] => _ | _ :: _ => _ end = _ => is_var l; destruct l; try discriminate H
    end;
    repeat match type of H with
    | context [String.eqb ?a ?b] => destruct (String.eqb a b) eqn:?; [|discriminate H]
    end; rewrite ?String.eqb_eq in *; subst; cbn [negb andb] in H;
    unfold_parts; key_inv; unfold artifact_of; cbn;
    split_and!; unfold sha256_hash; eauto ].

Lemma parse_ingest_batch_reads : reads parse_ingest_batch_layout ingest_batch_artifact.
Proof. parts_round_trip parse_ingest_batch_layout ingest_batch_artifact. Qed.
Lemma parse_ingest_staging_reads : reads parse_ingest_staging_layout ingest_staging_artifact.
Proof. parts_round_trip parse_ingest_staging_layout ingest_staging_artifact. Qed.
Lemma parse_output_object_reads : reads parse_output_object_layout output_object_artifact.
Proof. parts_round_trip parse_output_object_layout output_object_artifact. Qed.
Lemma parse_ownership_epoch_record_reads : reads parse_ownership_epoch_record_layout ownership_epoch_record_artifact.
Proof. parts_round_trip parse_ownership_epoch_record_layout ownership_epoch_record_artifact. Qed.
Lemma parse_standing_runtime_checkpoint_reads : reads parse_standing_runtime_checkpoint_layout standing_runtime_checkpoint_artifact.
Proof. parts_round_trip parse_standing_runtime_checkpoint_layout standing_runtime_checkpoint_artifact. Qed.
Lemma parse_standing_runtime_state_payload_reads : reads parse_standing_runtime_state_payload_layout standing_runtime_state_payload_artifact.
Proof. parts_round_trip parse_standing_runtime_state_payload_layout standing_runtime_state_payload_artifact. Qed.
Lemma parse_standing_runtime_output_manifest_reads : reads parse_standing_runtime_output_manifest_layout standing_runtime_output_manifest_artifact.
Proof. parts_round_trip parse_standing_runtime_output_manifest_layout standing_runtime_output_manifest_artifact. Qed.
Lemma parse_standing_runtime_output_page_reads : reads parse_standing_runtime_output_page_layout standing_runtime_output_page_artifact.
Proof. parts_round_trip parse_standing_runtime_output_page_layout standing_runtime_output_page_artifact. Qed.
Lemma parse_standing_runtime_output_delta_reads : reads parse_standing_runtime_output_delta_layout standing_runtime_output_delta_artifact.
Proof. parts_round_trip parse_standing_runtime_output_delta_layout standing_runtime_output_delta_artifact. Qed.

(** Every reader of parts returns the parts the key was built from: it accepts
    exactly the keys of its constructor, and building from the parts it returns
    gives the key back. *)
Theorem key_parts_round_trip :
  (forall v k p, parse_ingest_batch v = Ok (k, p) <->
     k = Key v /\ typed (ingest_batch_artifact p) /\ build (ingest_batch_artifact p) = Ok k) /\
  (forall v k p, parse_ingest_staging v = Ok (k, p) <->
     k = Key v /\ typed (ingest_staging_artifact p) /\ build (ingest_staging_artifact p) = Ok k) /\
  (forall v k p, parse_output_object v = Ok (k, p) <->
     k = Key v /\ typed (output_object_artifact p) /\ build (output_object_artifact p) = Ok k) /\
  (forall v k p, parse_ownership_epoch_record v = Ok (k, p) <->
     k = Key v /\ typed (ownership_epoch_record_artifact p) /\ build (ownership_epoch_record_artifact p) = Ok k) /\
  (forall v k p, parse_standing_runtime_checkpoint v = Ok (k, p) <->
     k = Key v /\ typed (standing_runtime_checkpoint_artifact p) /\ build (standing_runtime_checkpoint_artifact p) = Ok k) /\
  (forall v k p, parse_standing_runtime_state_payload v = Ok (k, p) <->
     k = Key v /\ typed (standing_runtime_state_payload_artifact p) /\ build (standing_runtime_state_payload_artifact p) = Ok k) /\
  (forall v k p, parse_standing_runtime_output_manifest v = Ok (k, p) <->
     k = Key v /\ typed (standing_runtime_output_manifest_artifact p) /\ build (standing_runtime_output_manifest_artifact p) = Ok k) /\
  (forall v k p, parse_standing_runtime_output_page v = Ok (k, p) <->
     k = Key v /\ typed (standing_runtime_output_page_artifact p) /\ build (standing_runtime_output_page_artifact p) = Ok k) /\
  (forall v k p, parse_standing_runtime_output_delta v = Ok (k, p) <->
     k = Key v /\ typed (standing_runtime_output_delta_artifact p) /\ build (standing_runtime_output_delta_artifact p) = Ok k).
Proof.
  split_and!; [exact parse_ingest_batch_reads|exact parse_ingest_staging_reads|exact parse_output_object_reads
    |exact parse_ownership_epoch_record_reads|exact parse_standing_runtime_checkpoint_reads
    |exact parse_standing_runtime_state_payload_reads|exact parse_standing_runtime_output_manifest_reads
    |exact parse_standing_runtime_output_page_reads|exact parse_standing_runtime_output_delta_reads].
Qed.

Lemma manifest_keys_cmp v w : is_u64 v = true -> is_u64 w = true ->
  string_cmp (as_str (checkpoint_manifest v)) (as_str (checkpoint_manifest w)) = Z.compare v w.
Proof.
  intros Hv Hw. unfold checkpoint_manifest; cbn [as_str].
  rewrite string_cmp_app_l, string_cmp_app_r.
  - apply zero_padded_cmp; [unfold CHECKPOINT_WIDTH; lia|by apply u64_padded..].
  - rewrite (zero_padded_length CHECKPOINT_WIDTH v), (zero_padded_length CHECKPOINT_WIDTH w);
      [done|unfold CHECKPOINT_WIDTH; lia|by apply u64_padded|unfold CHECKPOINT_WIDTH; lia|by apply u64_padded].
Qed.

(** The byte order of checkpoint manifest keys is the order of their versions,
    so a listing in key order is in version order. *)
Theorem manifest_keys_ordered v w : is_u64 v = true -> is_u64 w = true ->
  cmp (as_str (checkpoint_manifest v)) (as_str (checkpoint_manifest w)) = Z.compare v w.
Proof. apply manifest_keys_cmp. Qed.

(** * Witnesses *)

Definition sample_output : artifact := OutputObject "orders" 3 7 0 10 "part-0".
Definition sample_output_key : ObjectKey :=
  Key "v1/outputs/orders/p=0000000003/chk=00000000000000000007/00000000000000000000-00000000000000000010/part-0.output".
Definition sample_hex : string := "0123456789abcdef0123456789abcdef0123456789abcdef0123456789abcdef".
Definition sample_chunk : OutputChunkKeyParts := OutputChunkKey ("sha256:" +:+ sample_hex).

Lemma keys_identify_witness :
  build sample_output = Ok sample_output_key /\ sample_output = OutputObject "orders" 3 7 0 10 "part-0".
Proof.
  split; [vm_compute; reflexivity|].
  apply (keys_identify _ _ sample_output_key); [done|done|vm_compute; reflexivity..].
Defined.

Lemma output_chunk_unreadable_witness :
  deserialize ("v1/output-chunks/sha256/" +:+ sample_hex +:+ ".chunk.arrow-ipc") = None.
Proof.
  apply (output_chunk_unreadable sample_chunk (Key ("v1/output-chunks/sha256/" +:+ sample_hex +:+ ".chunk.arrow-ipc"))).
  vm_compute; reflexivity.
Defined.

Lemma manifest_keys_ordered_witness :
  cmp (as_str (checkpoint_manifest 9)) (as_str (checkpoint_manifest 10)) = Lt.
Proof. rewrite (manifest_keys_ordered 9 10) by reflexivity. reflexivity. Defined.
