(* ===== verification/Manifest.v ===== *)
(** Checkpoint manifests and ownership epoch records,
    [velorix-storage/src/manifest.rs] and [ownership.rs]. *)
From stdpp Require Import sorting.
From S2P Require Import Prelude BTree Json Digits Segments ObjectKey ObjectKeyProofs.

(** * Data *)

Record PartitionOwnerClaim := OwnerClaim { claim_owner_id : string; claim_owner_epoch : Z }.
#[export] Instance PartitionOwnerClaim_eq_dec : EqDecision PartitionOwnerClaim.
Proof. solve_decision. Defined.

Record InputRange := Input {
  in_stream_id : string;
  in_partition_id : Z;
  in_start_offset_inclusive : Z;
  in_end_offset_exclusive : Z
}.
#[export] Instance InputRange_eq_dec : EqDecision InputRange.
Proof. solve_decision. Defined.

Record StateObjectRef := StateRef {
  sr_object_id : string;
  sr_object_key : ObjectKey;
  sr_owner : string;
  sr_partition_id : Z;
  sr_checkpoint_version : Z;
  sr_owner_claim : option PartitionOwnerClaim
}.
#[export] Instance StateObjectRef_eq_dec : EqDecision StateObjectRef.
Proof. solve_decision. Defined.

Record OutputObjectRef := OutputRef {
  or_object_id : string;
  or_object_key : ObjectKey;
  or_stream_id : string;
  or_partition_id : Z;
  or_checkpoint_version : Z;
  or_start_offset_inclusive : Z;
  or_end_offset_exclusive : Z;
  or_owner_claim : option PartitionOwnerClaim
}.
#[export] Instance OutputObjectRef_eq_dec : EqDecision OutputObjectRef.
Proof. solve_decision. Defined.

Record CheckpointManifest := Manifest {
  schema_version : Z;
  checkpoint_version : Z;
  input_ranges : list InputRange;
  state_objects : list StateObjectRef;
  output_objects : list OutputObjectRef;
  parent_checkpoint : option Z;
  created_at : string;
  relation_id : option string;
  relation_version : option string;
  schema_fingerprint : option string
}.

Inductive ManifestError :=
| UnsupportedSchemaVersion (version : Z)
| MissingInputProgress
| MissingStateObjects
| InvalidInputRange (stream_id : string) (partition_id start_offset_inclusive end_offset_exclusive : Z)
| DuplicateInputRange (stream_id : string) (partition_id : Z)
| InputRangesNotSorted
| InvalidParentCheckpoint (parent_checkpoint checkpoint_version : Z)
| MissingParentCheckpoint (checkpoint_version : Z)
| UnexpectedGenesisParent
| StateObjectCheckpointMismatch (object_id : string) (state_version manifest_version : Z)
| StateObjectKeyMismatch (object_id : string) (expected actual : ObjectKey)
| MissingOwnerClaim (object_id : string)
| OwnerClaimMismatch (object_id : string) (expected actual : PartitionOwnerClaim)
| MissingOutputOwnerClaim (object_id : string)
| OutputOwnerClaimMismatch (object_id : string) (expected actual : PartitionOwnerClaim)
| InvalidOutputRange (object_id : string) (start_offset_inclusive end_offset_exclusive : Z)
| OutputObjectCheckpointMismatch (object_id : string) (output_version manifest_version : Z)
| OutputObjectKeyMismatch (object_id : string) (expected actual : ObjectKey)
| DuplicateObjectId (object_id : string)
| DuplicateObjectKey (object_key : ObjectKey)
| MissingCreationTimestamp.

(** * Validation *)

Definition manifest_key (m : CheckpointManifest) : ObjectKey := checkpoint_manifest (checkpoint_version m).

(** The [u64] match of the source, on the version and the declared parent. *)
Definition validate_parent_checkpoint (m : CheckpointManifest) : result ManifestError unit :=
  let version := checkpoint_version m in
  match parent_checkpoint m with
  | None => if version =? 0 then Ok tt else Err (MissingParentCheckpoint version)
  | Some parent =>
      if version =? 0 then Err UnexpectedGenesisParent
      else if version - 1 =? parent then Ok tt
      else Err (InvalidParentCheckpoint parent version)
  end.

(** One iteration of the loop of [validate_input_ranges]: the previous
    stream and partition, and the ones seen. *)
Definition validate_input_range
    (state : option (string * Z) * gset (string * Z)) (range : InputRange) :
    result ManifestError (option (string * Z) * gset (string * Z)) :=
  let '(previous, seen) := state in
  _ ← fail_if (in_end_offset_exclusive range <=? in_start_offset_inclusive range)
    (InvalidInputRange (in_stream_id range) (in_partition_id range)
       (in_start_offset_inclusive range) (in_end_offset_exclusive range));
  let current := (in_stream_id range, in_partition_id range) in
  _ ← match previous with
      | Some previous =>
          fail_if (match cmp previous current with Gt => true | _ => false end) InputRangesNotSorted
      | None => Ok tt
      end;
  _ ← fail_if (bool_decide (current ∈ seen))
    (DuplicateInputRange (in_stream_id range) (in_partition_id range));
  Ok (Some current, {[current]} ∪ seen).

Definition validate_input_ranges (m : CheckpointManifest) : result ManifestError unit :=
  match input_ranges m with
  | [] => Err MissingInputProgress
  | ranges => _ ← try_fold validate_input_range (None, ∅) ranges; Ok tt
  end.

Definition validate_state_object (version : Z) (_ : unit) (s : StateObjectRef) : result ManifestError unit :=
  _ ← fail_if (negb (sr_checkpoint_version s =? version))
    (StateObjectCheckpointMismatch (sr_object_id s) (sr_checkpoint_version s) version);
  expected ← map_err (fun _ => StateObjectKeyMismatch (sr_object_id s) (sr_object_key s) (sr_object_key s))
    (state_object (sr_owner s) (sr_partition_id s) (sr_checkpoint_version s) (sr_object_id s));
  fail_if (bool_decide (sr_object_key s <> expected))
    (StateObjectKeyMismatch (sr_object_id s) expected (sr_object_key s)).

Definition validate_state_objects (m : CheckpointManifest) : result ManifestError unit :=
  match state_objects m with
  | [] => Err MissingStateObjects
  | objects => try_fold (validate_state_object (checkpoint_version m)) tt objects
  end.

Definition validate_output_object (version : Z) (_ : unit) (o : OutputObjectRef) : result ManifestError unit :=
  _ ← fail_if (or_end_offset_exclusive o <=? or_start_offset_inclusive o)
    (InvalidOutputRange (or_object_id o) (or_start_offset_inclusive o) (or_end_offset_exclusive o));
  expected ← map_err (fun _ => OutputObjectKeyMismatch (or_object_id o) (or_object_key o) (or_object_key o))
    (output_object (or_stream_id o) (or_partition_id o) (or_checkpoint_version o)
       (or_start_offset_inclusive o) (or_end_offset_exclusive o) (or_object_id o));
  _ ← fail_if (bool_decide (or_object_key o <> expected))
    (OutputObjectKeyMismatch (or_object_id o) expected (or_object_key o));
  fail_if (negb (or_checkpoint_version o =? version))
    (OutputObjectCheckpointMismatch (or_object_id o) (or_checkpoint_version o) version).

Definition validate_output_objects (m : CheckpointManifest) : result ManifestError unit :=
  try_fold (validate_output_object (checkpoint_version m)) tt (output_objects m).

(** [ObjectRef]: the id and key of a state or output object. *)
Definition object_refs (m : CheckpointManifest) : list (string * ObjectKey) :=
  ((fun s => (sr_object_id s, sr_object_key s)) <$> state_objects m) ++
  ((fun o => (or_object_id o, or_object_key o)) <$> output_objects m).

Definition validate_unique_object_ref
    (state : gset string * gset ObjectKey) (ref : string * ObjectKey) :
    result ManifestError (gset string * gset ObjectKey) :=
  let '(object_ids, object_keys) := state in
  _ ← fail_if (bool_decide (ref.1 ∈ object_ids)) (DuplicateObjectId ref.1);
  _ ← fail_if (bool_decide (ref.2 ∈ object_keys)) (DuplicateObjectKey ref.2);
  Ok ({[ref.1]} ∪ object_ids, {[ref.2]} ∪ object_keys).

Definition validate_unique_object_refs (m : CheckpointManifest) : result ManifestError unit :=
  _ ← try_fold validate_unique_object_ref (∅, ∅) (object_refs m); Ok tt.

(** [CheckpointManifest::validate]. *)
Definition validate (m : CheckpointManifest) : result ManifestError unit :=
  _ ← fail_if (negb (schema_version m =? 1)) (UnsupportedSchemaVersion (schema_version m));
  _ ← fail_if (String.eqb (created_at m) "") MissingCreationTimestamp;
  _ ← validate_parent_checkpoint m;
  _ ← validate_input_ranges m;
  _ ← validate_state_objects m;
  _ ← validate_unique_object_refs m;
  validate_output_objects m.

(** [CheckpointManifest::validate_owner_claim]. *)
Definition validate_state_claim (claim : PartitionOwnerClaim) (_ : unit) (s : StateObjectRef) :
    result ManifestError unit :=
  match sr_owner_claim s with
  | Some actual =>
      if decide (actual = claim) then Ok tt else Err (OwnerClaimMismatch (sr_object_id s) claim actual)
  | None => Err (MissingOwnerClaim (sr_object_id s))
  end.

Definition validate_output_claim (claim : PartitionOwnerClaim) (_ : unit) (o : OutputObjectRef) :
    result ManifestError unit :=
  match or_owner_claim o with
  | Some actual =>
      if decide (actual = claim) then Ok tt else Err (OutputOwnerClaimMismatch (or_object_id o) claim actual)
  | None => Err (MissingOutputOwnerClaim (or_object_id o))
  end.

Definition validate_owner_claim (m : CheckpointManifest) (claim : PartitionOwnerClaim) :
    result ManifestError unit :=
  _ ← try_fold (validate_state_claim claim) tt (state_objects m);
  try_fold (validate_output_claim claim) tt (output_objects m).

(** [ValidatedCheckpointManifest::try_new]. *)
Record ValidatedCheckpointManifest := Validated { validated_manifest : CheckpointManifest }.

Definition try_new (m : CheckpointManifest) : result ManifestError ValidatedCheckpointManifest :=
  _ ← validate m; Ok (Validated m).

(** * Ownership epoch records *)

Record OwnershipEpochRecord := EpochRecord {
  er_stream_id : string;
  er_partition_id : Z;
  er_owner_id : string;
  er_owner_epoch : Z;
  er_lease_identity : string;
  er_created_at : string;
  er_previous_epoch : option Z;
  er_previous_checkpoint_version : option Z
}.
#[export] Instance OwnershipEpochRecord_eq_dec : EqDecision OwnershipEpochRecord.
Proof. solve_decision. Defined.

Inductive OwnershipEpochRecordError :=
| RecordObjectKey (error : ObjectKeyError)
| RecordMissingOwnerId
| RecordMissingLeaseIdentity
| RecordMissingCreationTimestamp
| RecordObjectKeyMismatch (object_key body_key : ObjectKey)
| RecordOwnerClaimMismatch (object_key : ObjectKey) (expected_owner_id : string)
    (expected_owner_epoch : Z) (actual_owner_id : string) (actual_owner_epoch : Z).

Definition record_object_key (r : OwnershipEpochRecord) : result ObjectKeyError ObjectKey :=
  ownership_epoch_record (er_stream_id r) (er_partition_id r) (er_owner_epoch r).

Definition validate_record (r : OwnershipEpochRecord) : result OwnershipEpochRecordError unit :=
  _ ← map_err RecordObjectKey (record_object_key r);
  _ ← fail_if (String.eqb (er_owner_id r) "") RecordMissingOwnerId;
  _ ← fail_if (String.eqb (er_lease_identity r) "") RecordMissingLeaseIdentity;
  fail_if (String.eqb (er_created_at r) "") RecordMissingCreationTimestamp.

Definition validate_object_key (r : OwnershipEpochRecord) (object_key : ObjectKey) :
    result OwnershipEpochRecordError unit :=
  _ ← validate_record r;
  body_key ← map_err RecordObjectKey (record_object_key r);
  fail_if (bool_decide (body_key <> object_key)) (RecordObjectKeyMismatch object_key body_key).

Definition validate_record_owner_claim
    (r : OwnershipEpochRecord) (object_key : ObjectKey) (owner_id : string) (owner_epoch : Z) :
    result OwnershipEpochRecordError unit :=
  _ ← validate_object_key r object_key;
  fail_if (bool_decide (er_owner_id r <> owner_id) || negb (er_owner_epoch r =? owner_epoch))
    (RecordOwnerClaimMismatch object_key owner_id owner_epoch (er_owner_id r) (er_owner_epoch r)).

(** * What validation establishes *)

(** The fields are values of their Rust types. *)
Definition typed_state (s : StateObjectRef) : Prop :=
  is_u32 (sr_partition_id s) = true /\ is_u64 (sr_checkpoint_version s) = true.
Definition typed_output (o : OutputObjectRef) : Prop :=
  is_u32 (or_partition_id o) = true /\ is_u64 (or_checkpoint_version o) = true /\
  is_u64 (or_start_offset_inclusive o) = true /\ is_u64 (or_end_offset_exclusive o) = true.
Definition typed_manifest (m : CheckpointManifest) : Prop :=
  is_u64 (checkpoint_version m) = true /\
  Forall typed_state (state_objects m) /\ Forall typed_output (output_objects m).

Definition input_key (r : InputRange) : string * Z := (in_stream_id r, in_partition_id r).

Definition state_ok (version : Z) (s : StateObjectRef) : Prop :=
  sr_checkpoint_version s = version /\
  state_object (sr_owner s) (sr_partition_id s) version (sr_object_id s) = Ok (sr_object_key s).
Definition output_ok (version : Z) (o : OutputObjectRef) : Prop :=
  or_checkpoint_version o = version /\
  output_object (or_stream_id o) (or_partition_id o) version (or_start_offset_inclusive o)
    (or_end_offset_exclusive o) (or_object_id o) = Ok (or_object_key o).

(** A manifest that may be published: the progress of every stream partition
    once, in order, as a non-empty range, and objects of this version under
    their own keys with ids of their own. *)
Record valid (m : CheckpointManifest) : Prop := {
  valid_schema : schema_version m = 1;
  valid_created : created_at m <> "";
  valid_parent : parent_checkpoint m = if checkpoint_version m =? 0 then None else Some (checkpoint_version m - 1);
  valid_inputs : input_ranges m <> [];
  valid_ranges : Forall (fun r => in_start_offset_inclusive r < in_end_offset_exclusive r) (input_ranges m);
  valid_sorted : StronglySorted (fun a b => cmp a b = Lt) (input_key <$> input_ranges m);
  valid_states : state_objects m <> [];
  valid_state_objects : Forall (state_ok (checkpoint_version m)) (state_objects m);
  valid_output_objects : Forall (output_ok (checkpoint_version m)) (output_objects m);
  valid_ids : NoDup (object_refs m).*1;
  valid_keys : NoDup (object_refs m).*2
}.

(** ** Loops of checks *)

Lemma try_fold_unit {E A} (f : unit -> A -> result E unit) l :
  try_fold f tt l = Ok tt <-> Forall (fun x => f tt x = Ok tt) l.
Proof.
  induction l as [|x l IH]; simpl; [done|]. rewrite bind_ok, Forall_cons. split.
  - intros ([] & ? & ?). by rewrite <-IH.
  - intros [? ?]. exists tt. by rewrite IH.
Qed.

(** A check before the rest of a function. *)
Lemma bind_unit {E A} (m : result E unit) (k : result E A) a :
  (_ ← m; k) = Ok a <-> m = Ok tt /\ k = Ok a.
Proof. rewrite bind_ok. split; [by intros ([] & ? & ?)|intros []; by exists tt]. Qed.

Lemma unit_ok {E} (r : result E unit) u : r = Ok u <-> r = Ok tt.
Proof. by destruct u. Qed.

#[local] Arguments cmp : simpl never.

Definition seen_inv (previous : option (string * Z)) (seen : gset (string * Z)) : Prop :=
  match previous with
  | None => seen = ∅
  | Some p => p ∈ seen /\ forall k, k ∈ seen -> cmp k p <> Gt
  end.
Definition after (previous : option (string * Z)) (k : string * Z) : Prop :=
  match previous with None => True | Some p => cmp p k = Lt end.

Lemma cmp_not_gt_lt {A} `{Ord A} (a b c : A) : cmp a b <> Gt -> cmp b c = Lt -> cmp a c = Lt.
Proof.
  intros Hab Hbc. destruct (cmp a b) eqn:Heq; [|by eapply cmp_lt_trans|done].
  apply cmp_eq in Heq as ->. done.
Qed.

Lemma validate_input_range_ok previous seen r s : seen_inv previous seen ->
  validate_input_range (previous, seen) r = Ok s <->
  in_start_offset_inclusive r < in_end_offset_exclusive r /\ after previous (input_key r) /\
  s = (Some (input_key r), {[input_key r]} ∪ seen).
Proof.
  intros Hinv. unfold validate_input_range. change (in_stream_id r, in_partition_id r) with (input_key r).
  destruct (_ <=? _) eqn:Hr; simpl; [split; [done|intros [? _]; lia]|].
  assert (in_start_offset_inclusive r < in_end_offset_exclusive r) as Hlt by lia.
  destruct previous as [p|]; simpl in *.
  - destruct Hinv as [Hp Hle]. destruct (cmp p (input_key r)) eqn:Hc; simpl.
    + apply cmp_eq in Hc as <-. rewrite bool_decide_true by done. simpl.
      split; [done|by intros (_ & ? & _)].
    + rewrite bool_decide_false; simpl; [|intros Hin%Hle; by apply Hin, cmp_gt].
      split; [by intros [= <-]|by intros (_ & _ & ->)].
    + split; [done|by intros (_ & ? & _)].
  - subst seen. rewrite bool_decide_false by set_solver. simpl.
    split; [by intros [= <-]|by intros (_ & _ & ->)].
Qed.

Lemma seen_inv_step previous seen k : seen_inv previous seen -> after previous k ->
  seen_inv (Some k) ({[k]} ∪ seen).
Proof.
  intros Hinv Ha. split; [set_solver|]. intros k' [->%elem_of_singleton|Hk]%elem_of_union; [by rewrite cmp_refl|].
  destruct previous as [p|]; simpl in *; [|set_solver]. destruct Hinv as [_ Hle].
  rewrite (cmp_not_gt_lt k' p k); auto.
Qed.

Lemma input_loop_ok previous seen l : seen_inv previous seen ->
  is_ok (try_fold validate_input_range (previous, seen) l) = true <->
  Forall (fun r => in_start_offset_inclusive r < in_end_offset_exclusive r) l /\
  StronglySorted (fun a b => cmp a b = Lt) (input_key <$> l) /\ Forall (after previous) (input_key <$> l).
Proof.
  revert previous seen. induction l as [|r l IH]; intros previous seen Hinv.
  - simpl. split; [by repeat constructor|done].
  - rewrite fmap_cons. cbn [try_fold]. split.
    + intros (s & (s1 & (Hr & Ha & ->)%validate_input_range_ok & Hs)%bind_ok)%is_ok_exists; [|done].
      assert (is_ok (Ok (E := ManifestError) s) = true) as Hok by done. rewrite <-Hs in Hok.
      apply IH in Hok as (Hl & Hss & Haft); [|by eapply seen_inv_step].
      split_and!; [by constructor|by constructor|]. constructor; [done|]. eapply Forall_impl; [exact Haft|].
      intros k Hk. destruct previous as [p|]; [|done]. simpl in *. by eapply cmp_lt_trans.
    + intros ([Hr Hl]%Forall_cons & [Hss Hk]%StronglySorted_inv & [Ha _]%Forall_cons).
      rewrite (proj2 (validate_input_range_ok _ _ _ _ Hinv) (conj Hr (conj Ha eq_refl))), Ok_bind.
      apply IH; [by eapply seen_inv_step|done].
Qed.

Lemma validate_input_ranges_ok m : validate_input_ranges m = Ok tt <->
  input_ranges m <> [] /\
  Forall (fun r => in_start_offset_inclusive r < in_end_offset_exclusive r) (input_ranges m) /\
  StronglySorted (fun a b => cmp a b = Lt) (input_key <$> input_ranges m).
Proof.
  unfold validate_input_ranges. destruct (input_ranges m) as [|r l]; [naive_solver|].
  pose proof (input_loop_ok None ∅ (r :: l) eq_refl) as Hloop.
  assert (Forall (after None) (input_key <$> (r :: l))) as Ha by by apply Forall_true.
  destruct (try_fold _ _ _); simpl in *; naive_solver.
Qed.

Lemma unique_loop_ok ids keys (l : list (string * ObjectKey)) :
  is_ok (try_fold validate_unique_object_ref (ids, keys) l) = true <->
  NoDup l.*1 /\ NoDup l.*2 /\ (forall x, x ∈ l.*1 -> x ∉ ids) /\ (forall x, x ∈ l.*2 -> x ∉ keys).
Proof.
  revert ids keys. induction l as [|[i k] l IH]; intros ids keys.
  - simpl. split; [intros _|done]. split_and!; [constructor..| |]; intros x Hx; by apply elem_of_nil in Hx.
  - rewrite !fmap_cons, !NoDup_cons. cbn [try_fold validate_unique_object_ref fst snd].
    setoid_rewrite elem_of_cons. destruct (bool_decide_reflect (i ∈ ids)); simpl; [naive_solver|].
    destruct (bool_decide_reflect (k ∈ keys)); simpl; [naive_solver|]. rewrite IH. set_solver.
Qed.

Lemma fail_unless {E} (P : Prop) `{Decision P} (e : E) : fail_if (bool_decide (~ P)) e = Ok tt <-> P.
Proof. rewrite fail_if_ok, bool_decide_eq_false. split; [apply dec_stable|by intros ? []]. Qed.

Lemma validate_state_object_ok version s :
  validate_state_object version tt s = Ok tt <-> state_ok version s.
Proof.
  unfold validate_state_object, state_ok. split.
  - intros H. apply bind_ok in H as (u & Hv%fail_if_ok & (k & Hk%map_err_ok & Heq)%bind_ok).
    apply fail_unless in Heq as <-. apply negb_false_iff, Z.eqb_eq in Hv. by rewrite <-Hv.
  - intros [<- Hk]. rewrite Z.eqb_refl, Hk. by apply fail_unless.
Qed.

Lemma validate_output_object_ok version o :
  validate_output_object version tt o = Ok tt <-> output_ok version o.
Proof.
  unfold validate_output_object, output_ok. split.
  - intros H. apply bind_ok in H as (u & _ & (k & Hk%map_err_ok & (u' & Heq & Hv%fail_if_ok)%bind_ok)%bind_ok).
    rewrite unit_ok in Heq. apply fail_unless in Heq as <-.
    apply negb_false_iff, Z.eqb_eq in Hv. by rewrite <-Hv.
  - intros [<- Hk]. assert (or_start_offset_inclusive o < or_end_offset_exclusive o) as Hr.
    { apply (build_text (OutputObject _ _ _ _ _ _)) in Hk as [Ha _]. apply Ha. }
    rewrite (proj2 (Z.leb_gt _ _) Hr), Hk. cbn [fail_if map_err]. rewrite !Ok_bind.
    rewrite (proj2 (fail_unless (or_object_key o = or_object_key o) _)), Z.eqb_refl by done. done.
Qed.

Lemma validate_state_objects_ok m : validate_state_objects m = Ok tt <->
  state_objects m <> [] /\ Forall (state_ok (checkpoint_version m)) (state_objects m).
Proof.
  unfold validate_state_objects. destruct (state_objects m) as [|s l]; [naive_solver|].
  rewrite try_fold_unit, (Forall_iff _ _ (state_ok (checkpoint_version m))) by apply validate_state_object_ok.
  naive_solver.
Qed.

Lemma validate_output_objects_ok m : validate_output_objects m = Ok tt <->
  Forall (output_ok (checkpoint_version m)) (output_objects m).
Proof. unfold validate_output_objects. rewrite try_fold_unit. apply Forall_iff, validate_output_object_ok. Qed.

Lemma validate_unique_object_refs_ok m : validate_unique_object_refs m = Ok tt <->
  NoDup (object_refs m).*1 /\ NoDup (object_refs m).*2.
Proof.
  unfold validate_unique_object_refs. pose proof (unique_loop_ok ∅ ∅ (object_refs m)) as Hloop.
  destruct (try_fold _ _ _); simpl in *; split; intros H; try done.
  - destruct (proj1 Hloop eq_refl) as (? & ? & _). done.
  - destruct H. assert (false = true); [|done]. apply Hloop. split_and!; [done..| |]; set_solver.
Qed.

Lemma validate_parent_checkpoint_ok m : validate_parent_checkpoint m = Ok tt <->
  parent_checkpoint m = if checkpoint_version m =? 0 then None else Some (checkpoint_version m - 1).
Proof.
  unfold validate_parent_checkpoint.
  destruct (parent_checkpoint m) as [p|], (checkpoint_version m =? 0); try done.
  destruct (Z.eqb_spec (checkpoint_version m - 1) p); split; congruence.
Qed.

Lemma validate_owner_claim_ok m claim : validate_owner_claim m claim = Ok tt <->
  Forall (fun s => sr_owner_claim s = Some claim) (state_objects m) /\
  Forall (fun o => or_owner_claim o = Some claim) (output_objects m).
Proof.
  assert (validate_owner_claim m claim = Ok tt <->
    try_fold (validate_state_claim claim) tt (state_objects m) = Ok tt /\
    try_fold (validate_output_claim claim) tt (output_objects m) = Ok tt) as ->.
  { unfold validate_owner_claim. rewrite bind_ok. split; [by intros ([] & ? & ?)|intros []; by exists tt]. }
  rewrite !try_fold_unit.
  assert (forall s, validate_state_claim claim tt s = Ok tt <-> sr_owner_claim s = Some claim) as H1.
  { intros s. unfold validate_state_claim. destruct (sr_owner_claim s) as [c|]; [|done]. case_decide; naive_solver. }
  assert (forall o, validate_output_claim claim tt o = Ok tt <-> or_owner_claim o = Some claim) as H2.
  { intros o. unfold validate_output_claim. destruct (or_owner_claim o) as [c|]; [|done]. case_decide; naive_solver. }
  by rewrite (Forall_iff _ _ _ H2), (Forall_iff _ _ _ H1).
Qed.

Lemma validate_valid m : validate m = Ok tt <-> valid m.
Proof.
  unfold validate. split.
  - intros H. apply bind_ok in H as (? & Hs%fail_if_ok & H). apply bind_ok in H as (? & Hc%fail_if_ok & H).
    apply bind_ok in H as (? & Hp & H). apply bind_ok in H as (? & Hi & H). apply bind_ok in H as (? & Ho & H).
    apply bind_ok in H as (? & Hu & H). rewrite !unit_ok in *.
    apply validate_parent_checkpoint_ok in Hp. apply validate_input_ranges_ok in Hi as (? & ? & ?).
    apply validate_state_objects_ok in Ho as [? ?]. apply validate_unique_object_refs_ok in Hu as [? ?].
    apply validate_output_objects_ok in H. constructor; try done.
    + lia.
    + by apply String.eqb_neq.
  - intros []. rewrite valid_schema0, (proj2 (String.eqb_neq _ _)) by done. cbn.
    rewrite (proj2 (validate_parent_checkpoint_ok m)), (proj2 (validate_input_ranges_ok m)) by done. cbn.
    rewrite (proj2 (validate_state_objects_ok m)), (proj2 (validate_unique_object_refs_ok m)) by done. cbn.
    by apply validate_output_objects_ok.
Qed.

(** [validate] accepts exactly the valid manifests. *)
Theorem validate_exact m : validate m = Ok tt <-> valid m.
Proof. apply validate_valid. Qed.
