(* ===== verification/Capability.v ===== *)
(** Capability profiles of object stores,
    [velorix-storage/src/capability.rs]: the checks a process makes before it
    publishes to a store. *)
From stdpp Require Import gmap.
From S2P Require Import Prelude.

Module Capability.

Record ObjectStoreCapabilityProfile := Profile {
  backend_name : string;
  conditional_create : bool;
  conditional_update : bool;
  atomic_visibility : bool;
  list_after_write : bool;
  read_after_write : bool
}.

Inductive AuthoritativeNamespace :=
| Ingest | IngestAdmission | IngestAdmissionIndex | State | Output | Checkpoint | CheckpointIndex
| CheckpointLifecycle | CheckpointRetention | CheckpointGcTransition | CheckpointRecovery | Ownership
| TableCatalog | RelationCatalog | ArtifactCatalog | BenchmarkEvidence | GcRuns | Queries | QueryPolicy.

#[export] Instance AuthoritativeNamespace_eq_dec : EqDecision AuthoritativeNamespace.
Proof. solve_decision. Defined.

(** [AuthoritativeNamespace::all]. *)
Definition all : list AuthoritativeNamespace :=
  [Ingest; IngestAdmission; IngestAdmissionIndex; State; Output; Checkpoint; CheckpointIndex;
   CheckpointLifecycle; CheckpointRetention; CheckpointGcTransition; CheckpointRecovery; Ownership;
   TableCatalog; RelationCatalog; ArtifactCatalog; BenchmarkEvidence; GcRuns; Queries; QueryPolicy].

Lemma all_namespaces n : n ∈ all.
Proof. unfold all. destruct n; set_solver. Qed.

(** The discriminant. *)
Definition index (n : AuthoritativeNamespace) : nat := default 0%nat (fst <$> list_find (n =.) all).

#[export] Program Instance AuthoritativeNamespace_countable : Countable AuthoritativeNamespace :=
  inj_countable index (fun i => all !! i) _.
Next Obligation. by intros []. Qed.

Inductive RequiredObjectStoreCapability :=
| ConditionalCreate | ConditionalUpdate | AtomicVisibility | ListAfterWrite | ReadAfterWrite.

Record ObjectStoreCapabilityError := CapabilityError {
  error_backend_name : string;
  required_capability : RequiredObjectStoreCapability
}.

Inductive AuthoritativeObjectStoreCapabilityError :=
| MissingNamespace (namespace : AuthoritativeNamespace)
| NamespaceProfile (namespace : AuthoritativeNamespace) (source : ObjectStoreCapabilityError).

Record AuthoritativeObjectStoreCapabilitiesV1 := Capabilities {
  profiles : gmap AuthoritativeNamespace ObjectStoreCapabilityProfile
}.

Record ObjectStoreCapabilityDiagnostic := Diagnostic {
  diagnostic_namespace : AuthoritativeNamespace;
  diagnostic_backend_name : option string;
  diagnostic_missing : list RequiredObjectStoreCapability
}.

(** * Checks *)

Definition velorix_durability : list RequiredObjectStoreCapability :=
  [ConditionalCreate; AtomicVisibility; ListAfterWrite; ReadAfterWrite].

Definition has (p : ObjectStoreCapabilityProfile) (required_capability : RequiredObjectStoreCapability) : bool :=
  match required_capability with
  | ConditionalCreate => conditional_create p
  | ConditionalUpdate => conditional_update p
  | AtomicVisibility => atomic_visibility p
  | ListAfterWrite => list_after_write p
  | ReadAfterWrite => read_after_write p
  end.

Definition validate_for_velorix_durability (p : ObjectStoreCapabilityProfile) :
    result ObjectStoreCapabilityError unit :=
  try_fold (fun _ capability => fail_if (negb (has p capability)) (CapabilityError (backend_name p) capability))
    tt velorix_durability.

Definition validate_for_conditional_update (p : ObjectStoreCapabilityProfile) :
    result ObjectStoreCapabilityError unit :=
  fail_if (negb (conditional_update p)) (CapabilityError (backend_name p) ConditionalUpdate).

Definition local_development : ObjectStoreCapabilityProfile :=
  Profile "local-development" true true true true true.

Definition production (backend_name : string)
    (conditional_create conditional_update atomic_visibility list_after_write read_after_write : bool) :
    result ObjectStoreCapabilityError ObjectStoreCapabilityProfile :=
  let profile := Profile backend_name conditional_create conditional_update atomic_visibility
    list_after_write read_after_write in
  _ ← validate_for_velorix_durability profile;
  Ok profile.

Definition missing_capabilities (p : ObjectStoreCapabilityProfile) : list RequiredObjectStoreCapability :=
  filter (fun capability => has p capability = false) velorix_durability.

Definition validate_namespace (c : AuthoritativeObjectStoreCapabilitiesV1) (namespace : AuthoritativeNamespace) :
    result AuthoritativeObjectStoreCapabilityError ObjectStoreCapabilityProfile :=
  profile ← ok_or (MissingNamespace namespace) (profiles c !! namespace);
  _ ← map_err (NamespaceProfile namespace) (validate_for_velorix_durability profile);
  Ok profile.

Definition validate_for_startup (c : AuthoritativeObjectStoreCapabilitiesV1) :
    result AuthoritativeObjectStoreCapabilityError unit :=
  try_fold (fun _ namespace => _ ← validate_namespace c namespace; Ok tt) tt all.

(** What [CheckpointPublisher::new_authoritative] checks, in [state.rs]. *)
Definition validate_checkpoint_publisher_authoritative_namespaces
    (c : AuthoritativeObjectStoreCapabilitiesV1) : result AuthoritativeObjectStoreCapabilityError unit :=
  try_fold (fun _ namespace => _ ← validate_namespace c namespace; Ok tt) tt
    [Checkpoint; State; CheckpointIndex; CheckpointLifecycle; CheckpointRetention; CheckpointGcTransition;
     CheckpointRecovery; GcRuns].

Definition diagnostic (c : AuthoritativeObjectStoreCapabilitiesV1) (namespace : AuthoritativeNamespace) :
    ObjectStoreCapabilityDiagnostic :=
  match profiles c !! namespace with
  | Some profile => Diagnostic namespace (Some (backend_name profile)) (missing_capabilities profile)
  | None => Diagnostic namespace None velorix_durability
  end.

Definition diagnostics (c : AuthoritativeObjectStoreCapabilitiesV1) : list ObjectStoreCapabilityDiagnostic :=
  diagnostic c <$> all.

(** * Correctness *)

Lemma durable_missing p : validate_for_velorix_durability p = Ok tt <-> missing_capabilities p = [].
Proof.
  unfold validate_for_velorix_durability, missing_capabilities, velorix_durability. cbn [try_fold].
  destruct p as [b [] u [] [] []]; vm_compute; split; (done || by intros [=]).
Qed.

Lemma namespace_missing c n :
  (exists p, validate_namespace c n = Ok p) <-> diagnostic_missing (diagnostic c n) = [].
Proof.
  unfold validate_namespace, diagnostic. destruct (profiles c !! n) as [p|]; cbn -[velorix_durability].
  - rewrite <-durable_missing. destruct (validate_for_velorix_durability p) as [[]|e]; cbn; naive_solver.
  - split; [by intros [? ?]|done].
Qed.

(** A process starts exactly when the diagnostics report nothing missing for
    any namespace, an absent profile counting as missing everything. *)
Theorem startup_accepts_exactly c :
  validate_for_startup c = Ok tt <-> Forall (fun d => diagnostic_missing d = []) (diagnostics c).
Proof.
  unfold validate_for_startup, diagnostics. rewrite Forall_fmap.
  assert (forall l, try_fold (fun _ n => _ ← validate_namespace c n; Ok tt) tt l = Ok tt <->
    Forall (fun n => exists p, validate_namespace c n = Ok p) l) as Hl.
  { induction l as [|n l IH]; cbn [try_fold]; [by split|].
    rewrite Forall_cons, <-IH. destruct (validate_namespace c n) as [p|e] eqn:Hn; cbn.
    - split; [by eauto|by intros [_ ?]].
    - split; [done|by intros [[p Hp] _]]. }
  rewrite Hl. apply Forall_proper; [|done]. intros n. apply namespace_missing.
Qed.

End Capability.
