(* ===== verification/ObjectStore.v ===== *)
(** Programs over an object store.

    The storage crate is written against [object_store::ObjectStore], a trait of
    a third-party crate. An [async] function that awaits store requests is a
    [prog]: a tree of requests, each with a continuation for every answer. Other
    writers can act between any two requests of a program.

    [ObjectStore] is the store as a parameter; [answers] states what its
    documentation promises about one request. [wp] is what a program guarantees
    under interference, and [exec] and [steps_to] are its runs. *)
From S2P Require Import Prelude BTree Json Digits Segments.

(** * Requests *)

Inductive store_error :=
| NotFound
| AlreadyExists
| NotSupported (source : string)
| NotImplemented (operation implementer : string)
| OtherFailure (message : string).

Inductive call :=
| Get (location : string)
| Head (location : string)
| PutCreate (location : string) (body : bytes)
| Put (location : string) (body : bytes)
| Delete (location : string)
| List (prefix : string)
| ListWithOffset (prefix offset : string)
| Now.

Definition answer (c : call) : Type :=
  match c with
  | Get _ => result store_error bytes
  | Head _ | PutCreate _ _ | Put _ _ | Delete _ => result store_error unit
  | List _ | ListWithOffset _ _ => result store_error (list string)
  | Now => Z * Z
  end.

(** Requests that can change the store. *)
Definition writes (c : call) : bool :=
  match c with PutCreate _ _ | Put _ _ | Delete _ => true | _ => false end.

Abbreviation objects := (gmap string bytes).

(** The location is under the prefix, segment by segment. *)
Definition under (prefix location : string) : bool := starts_with (prefix +:+ "/") location.

(** What a request may answer and do. A request that fails for a reason of its
    own may have been carried out. [Now] is a reading of the clock, in seconds
    and nanoseconds. *)
Definition answers (o : objects) (c : call) : answer c -> objects -> Prop :=
  match c with
  | Get location => fun r o' => o' = o /\
      match r with
      | Ok body => o !! location = Some body
      | Err NotFound => o !! location = None
      | Err _ => True
      end
  | Head location => fun r o' => o' = o /\
      match r with
      | Ok _ => is_Some (o !! location)
      | Err NotFound => o !! location = None
      | Err _ => True
      end
  | PutCreate location body => fun r o' =>
      match r with
      | Ok _ => o !! location = None /\ o' = <[location := body]> o
      | Err AlreadyExists => is_Some (o !! location) /\ o' = o
      | Err _ => o' = o \/ (o !! location = None /\ o' = <[location := body]> o)
      end
  | Put location body => fun r o' =>
      match r with
      | Ok _ => o' = <[location := body]> o
      | Err _ => o' = o \/ o' = <[location := body]> o
      end
  | Delete location => fun r o' =>
      match r with
      | Ok _ => o' = delete location o
      | Err NotFound => o !! location = None /\ o' = o
      | Err _ => o' = o \/ o' = delete location o
      end
  | List prefix => fun r o' => o' = o /\
      match r with
      | Ok locations => NoDup locations /\
          forall l, l ∈ locations <-> is_Some (o !! l) /\ under prefix l = true
      | Err _ => True
      end
  | ListWithOffset prefix offset => fun r o' => o' = o /\
      match r with
      | Ok locations => NoDup locations /\
          forall l, l ∈ locations <-> is_Some (o !! l) /\ under prefix l = true /\ cmp offset l = Lt
      | Err _ => True
      end
  | Now => fun r o' => o' = o /\ 0 <= r.1 /\ 0 <= r.2 < 1000000000
  end.

Class ObjectStore := {
  store : Type;
  content : store -> objects;
  serve : store -> forall c, answer c -> store -> Prop
}.

(** The store is linearizable: a served request has the documented answer and
    effect on the current objects. *)
Class ObjectStoreLaws `{ObjectStore} : Prop := {
  serve_answers s c r s' : serve s c r s' -> answers (content s) c r (content s')
}.

(** * Programs *)

Inductive prog (A : Type) : Type :=
| Ret (a : A)
| Call (c : call) (k : answer c -> prog A).
Arguments Ret {A} a.
Arguments Call {A} c k.

Fixpoint bind {A B} (p : prog A) (f : A -> prog B) : prog B :=
  match p with
  | Ret a => f a
  | Call c k => Call c (fun r => bind (k r) f)
  end.

Definition request (c : call) : prog (answer c) := Call c Ret.

(** [p.await?]: the error of a fallible program ends the function. *)
Definition and_then {E A B} (p : prog (result E A)) (f : A -> prog (result E B)) : prog (result E B) :=
  bind p (fun r => match r with Ok a => f a | Err e => Ret (Err e) end).

Declare Scope prog_scope.
Delimit Scope prog_scope with prog.
Notation "x ←! p ; k" := (and_then p (fun x => k))
  (at level 20, p at level 100, k at level 200, right associativity) : prog_scope.
Notation "' x ←! p ; k" := (and_then p (fun x => k))
  (at level 20, x pattern, p at level 100, k at level 200, right associativity) : prog_scope.
Open Scope prog_scope.

(** [for x in xs { f(x).await?; }]. *)
Fixpoint for_each {E A} (f : A -> prog (result E unit)) (l : list A) : prog (result E unit) :=
  match l with
  | [] => Ret (Ok tt)
  | x :: l => _ ←! f x; for_each f l
  end.

(** [for x in xs { out.push(f(x).await?); }]. *)
Fixpoint collect {E A B} (f : A -> prog (result E B)) (l : list A) : prog (result E (list B)) :=
  match l with
  | [] => Ret (Ok [])
  | x :: l => y ←! f x; ys ←! collect f l; Ret (Ok (y :: ys))
  end.

(** [stream::iter(xs.map(f)).buffer_unordered(n).collect()] and then [result?]
    on each: every program runs, in the order of [xs] here, and then the first
    error is reported. *)
Fixpoint gather {E A B} (f : A -> prog (result E B)) (l : list A) : prog (result E (list B)) :=
  match l with
  | [] => Ret (Ok [])
  | x :: l => bind (f x) (fun r => bind (gather f l) (fun rs => Ret (y ← r; ys ← rs; Ok (y :: ys))))
  end.

(** [for x in xs { state = f(state, x).await?; }]. *)
Fixpoint fold_each {E A S} (f : S -> A -> prog (result E S)) (s : S) (l : list A) : prog (result E S) :=
  match l with
  | [] => Ret (Ok s)
  | x :: l => s' ←! f s x; fold_each f s' l
  end.

(** ** Programs that only read *)

Fixpoint read_only {A} (p : prog A) : Prop :=
  match p with
  | Ret _ => True
  | Call c k => writes c = false /\ forall r, read_only (k r)
  end.

Lemma read_only_bind {A B} (p : prog A) (f : A -> prog B) :
  read_only p -> (forall a, read_only (f a)) -> read_only (bind p f).
Proof. intros Hp Hf. induction p as [a|c k IH]; cbn in *; naive_solver. Qed.

Lemma read_only_and_then {E A B} (p : prog (result E A)) (f : A -> prog (result E B)) :
  read_only p -> (forall a, read_only (f a)) -> read_only (x ←! p; f x).
Proof. intros Hp Hf. apply read_only_bind; [done|]. by intros [a|e]; [apply Hf|]. Qed.

Lemma read_only_request c : writes c = false -> read_only (request c).
Proof. by cbn. Qed.

Lemma read_only_for_each {E A} (f : A -> prog (result E unit)) l :
  (forall x, read_only (f x)) -> read_only (for_each f l).
Proof. intros Hf. induction l; cbn [for_each]; [done|]. by apply read_only_and_then. Qed.

Lemma read_only_gather {E A B} (f : A -> prog (result E B)) l :
  (forall x, read_only (f x)) -> read_only (gather f l).
Proof.
  intros Hf. induction l; cbn [gather]; [done|]. apply read_only_bind; [done|]. intros r. by apply read_only_bind.
Qed.
Lemma read_only_collect {E A B} (f : A -> prog (result E B)) l :
  (forall x, read_only (f x)) -> read_only (collect f l).
Proof.
  intros Hf. induction l; cbn [collect]; [done|]. apply read_only_and_then; [done|].
  intros y. by apply read_only_and_then.
Qed.

Lemma read_only_fold_each {E A S} (f : S -> A -> prog (result E S)) s l :
  (forall s x, read_only (f s x)) -> read_only (fold_each f s l).
Proof. intros Hf. revert s. induction l; intros s; cbn [fold_each]; [done|]. by apply read_only_and_then. Qed.

Create HintDb programs.
#[export] Hint Resolve read_only_bind read_only_and_then read_only_request read_only_for_each
  read_only_collect read_only_gather read_only_fold_each : programs.

Lemma answers_read o c r o' : writes c = false -> answers o c r o' -> o' = o.
Proof. destruct c; try done; by intros _ [-> _]. Qed.

(** * What a program guarantees *)

(** [R] relates the objects before and after steps of others, and of the
    program itself; [G] is what each request of the program does. *)
Section wp.
Context (R : relation objects) (G : objects -> call -> objects -> Prop).

Fixpoint wp {A} (p : prog A) (post : A -> objects -> Prop) (o : objects) : Prop :=
  match p with
  | Ret a => post a o
  | Call c k => forall o1 r o2, R o o1 -> answers o1 c r o2 ->
      G o1 c o2 /\ wp (k r) post o2
  end.

Definition stable {A} (post : A -> objects -> Prop) : Prop :=
  forall a o o', R o o' -> post a o -> post a o'.

Lemma wp_mono {A} (p : prog A) (post post' : A -> objects -> Prop) o :
  (forall a o', post a o' -> post' a o') -> wp p post o -> wp p post' o.
Proof.
  intros Hpost. revert o. induction p as [a|c k IH]; intros o; cbn [wp]; [auto|].
  intros Hp o1 r o2 HR Hans. destruct (Hp o1 r o2 HR Hans). auto.
Qed.

Lemma wp_bind {A B} (p : prog A) (f : A -> prog B) post o :
  wp p (fun a => wp (f a) post) o -> wp (bind p f) post o.
Proof.
  revert o. induction p as [a|c k IH]; intros o; cbn [wp bind]; [done|].
  intros Hp o1 r o2 HR Hans. destruct (Hp o1 r o2 HR Hans). auto.
Qed.

Lemma wp_and_then {E A B} (p : prog (result E A)) (f : A -> prog (result E B)) post o :
  wp p (fun r o' => match r with Ok a => wp (f a) post o' | Err e => post (Err e) o' end) o ->
  wp (x ←! p; f x) post o.
Proof.
  intros Hp. apply wp_bind. eapply wp_mono; [|exact Hp]. by intros [a|e] o'.
Qed.

Context `{!PreOrder R}.

Lemma wp_stable {A} (p : prog A) post o o' : stable post -> R o o' -> wp p post o -> wp p post o'.
Proof using Type*.
  intros Hst HR. destruct p as [a|c k]; cbn [wp]; [by apply Hst|].
  intros Hp o1 r o2 HR1 Hans. apply Hp; [by transitivity o'|done].
Qed.

Hypothesis G_R : forall o c o', G o c o' -> R o o'.

Hypothesis G_read : forall o c, writes c = false -> G o c o.

Lemma wp_read c post o : writes c = false ->
  (forall r o1, R o o1 -> answers o1 c r o1 -> post r o1) -> wp (request c) post o.
Proof using Type*.
  intros Hc Hpost o1 r o2 HR Hans. pose proof (answers_read _ _ _ _ Hc Hans) as ->. cbn. auto.
Qed.

Lemma wp_read_only {A} (p : prog A) o : read_only p -> wp p (fun _ _ => True) o.
Proof using Type*.
  revert o. induction p as [a|c k IH]; intros o; [done|]. intros [Hc Hk] o1 r o2 _ Hans.
  apply answers_read in Hans as ->; [|done]. auto.
Qed.

(** What [R] keeps and holds before a program holds after it. *)
Lemma wp_keep {A} (P : objects -> Prop) (p : prog A) post post' o :
  (forall o1 o2, R o1 o2 -> P o1 -> P o2) -> P o -> wp p post o ->
  (forall a o', P o' -> post a o' -> post' a o') -> wp p post' o.
Proof using Type*.
  intros HP Ho Hwp Hpost. revert o Ho Hwp. induction p as [a|c k IH]; intros o Ho; cbn [wp]; [auto|].
  intros Hp o1 r o2 HR Hans. destruct (Hp o1 r o2 HR Hans) as [HG Hk]. split; [done|].
  apply IH; [|done]. eapply HP; [eapply G_R, HG|]. by eapply HP.
Qed.

Lemma wp_reach {A} (p : prog A) post post' o :
  wp p post o -> (forall a o', R o o' -> post a o' -> post' a o') -> wp p post' o.
Proof using Type*.
  intros Hwp Hpost. eapply (wp_keep (R o)); [|done|exact Hwp|done].
  intros o1 o2 H12 ?. by transitivity o1.
Qed.

(** The loop rules: what each iteration establishes, and others keep, holds of
    every element when the loop succeeds. *)
Lemma wp_for_each {E A} (f : A -> prog (result E unit)) (P : A -> objects -> Prop) l o :
  (forall x o1 o2, R o1 o2 -> P x o1 -> P x o2) ->
  (forall x o', x ∈ l -> R o o' -> wp (f x) (fun r o2 => r = Ok tt -> P x o2) o') ->
  wp (for_each f l) (fun r o' => r = Ok tt -> forall x, x ∈ l -> P x o') o.
Proof using Type*.
  intros HP. revert o. induction l as [|x l IH]; intros o Hf; cbn [for_each].
  - cbn. intros _ x Hx. by apply elem_of_nil in Hx.
  - apply wp_and_then. eapply wp_reach; [apply (Hf x o); [left|done]|].
    intros [[]|e] o1 HR HPx; [|done]. specialize (HPx eq_refl).
    eapply (wp_keep (P x)); [eauto|exact HPx| |].
    { apply IH. intros y o2 Hy HR2. apply Hf; [by right|by transitivity o1]. }
    intros r o2 Hx Hl Hr y [->|Hy]%elem_of_cons; eauto.
Qed.

Lemma wp_collect {E A B} (f : A -> prog (result E B)) (P : A -> B -> objects -> Prop) l o :
  (forall x y o1 o2, R o1 o2 -> P x y o1 -> P x y o2) ->
  (forall x o', x ∈ l -> R o o' -> wp (f x) (fun r o2 => forall y, r = Ok y -> P x y o2) o') ->
  wp (collect f l) (fun r o' => forall ys, r = Ok ys -> Forall2 (fun x y => P x y o') l ys) o.
Proof using Type*.
  intros HP. revert o. induction l as [|x l IH]; intros o Hf; cbn [collect].
  - cbn. intros ys [= <-]. constructor.
  - apply wp_and_then. eapply wp_reach; [apply (Hf x o); [left|done]|].
    intros [y|e] o1 HR HPx; [|done]. specialize (HPx y eq_refl).
    apply wp_and_then. eapply (wp_keep (P x y)); [eauto|exact HPx| |].
    { apply IH. intros z o2 Hz HR2. apply Hf; [by right|by transitivity o1]. }
    intros [ys|e] o2 Hx Hl; [|done]. cbn. intros zs [= <-]. constructor; eauto.
Qed.

Lemma wp_gather {E A B} (f : A -> prog (result E B)) (P : A -> B -> objects -> Prop) l o :
  (forall x y o1 o2, R o1 o2 -> P x y o1 -> P x y o2) ->
  (forall x o', x ∈ l -> R o o' -> wp (f x) (fun r o2 => forall y, r = Ok y -> P x y o2) o') ->
  wp (gather f l) (fun r o' => forall ys, r = Ok ys -> Forall2 (fun x y => P x y o') l ys) o.
Proof using Type*.
  intros HP. revert o. induction l as [|x l IH]; intros o Hf; cbn [gather].
  - cbn. intros ys [= <-]. constructor.
  - apply wp_bind. eapply wp_reach; [apply (Hf x o); [left|done]|]. intros r o1 HR HPx. apply wp_bind.
    eapply (wp_keep (fun o' => forall y, r = Ok y -> P x y o')); [eauto|exact HPx| |].
    { apply IH. intros z o2 Hz HR2. apply Hf; [by right|by transitivity o1]. }
    intros rs o2 Hx Hl. cbn. destruct r as [y|e], rs as [ys|e']; cbn; intros zs [= <-]. constructor; eauto.
Qed.

(** What a fallible program establishes when it succeeds. *)
Definition ensures {E A} (p : prog (result E A)) (post : A -> objects -> Prop) (o : objects) : Prop :=
  wp p (fun r o' => forall a, r = Ok a -> post a o') o.

Lemma ensures_lift {E A} (r : result E A) (post : A -> objects -> Prop) o :
  (forall a, r = Ok a -> post a o) -> ensures (Ret r) post o.
Proof. done. Qed.

Lemma ensures_and_then {E A B} (p : prog (result E A)) (f : A -> prog (result E B)) P Q o :
  ensures p P o -> (forall a o', R o o' -> P a o' -> ensures (f a) Q o') -> ensures (x ←! p; f x) Q o.
Proof using Type*.
  intros Hp Hf. apply wp_and_then. eapply wp_reach; [exact Hp|].
  intros [a|e] o' HR HP; [|done]. by apply Hf; [|apply HP].
Qed.

Lemma ensures_mono {E A} (p : prog (result E A)) (P Q : A -> objects -> Prop) o :
  ensures p P o -> (forall a o', R o o' -> P a o' -> Q a o') -> ensures p Q o.
Proof using Type*. intros Hp HPQ. eapply wp_reach; [exact Hp|]. eauto. Qed.

Lemma ensures_for_each {E A} (f : A -> prog (result E unit)) (P : A -> objects -> Prop) l o :
  (forall x o1 o2, R o1 o2 -> P x o1 -> P x o2) ->
  (forall x o', x ∈ l -> R o o' -> ensures (f x) (fun _ => P x) o') ->
  ensures (for_each f l) (fun _ o' => forall x, x ∈ l -> P x o') o.
Proof using Type*.
  intros HP Hf. eapply wp_mono; [|apply (wp_for_each f P); [done|]].
  - intros [[]|] o' Hr a Ha; [|done]. by apply Hr.
  - intros x o' Hx HR. eapply wp_mono; [|by apply (Hf x o')]. naive_solver.
Qed.

(** What holds of the state and the elements done so far. *)
Lemma ensures_fold_each {E A S} (f : S -> A -> prog (result E S)) (P : list A -> S -> objects -> Prop) s l o :
  (forall xs s o1 o2, R o1 o2 -> P xs s o1 -> P xs s o2) -> P [] s o ->
  (forall xs x s o', x ∈ l -> R o o' -> P xs s o' -> ensures (f s x) (fun s' => P (xs ++ [x]) s') o') ->
  ensures (fold_each f s l) (fun s' => P l s') o.
Proof using Type*.
  intros HP Hs Hf.
  assert (forall xs l' s o1, l = xs ++ l' -> R o o1 -> P xs s o1 -> ensures (fold_each f s l') (fun s' => P l s') o1)
    as Hgen; [|by apply (Hgen [])].
  intros xs l'. revert xs. induction l' as [|x l' IH]; intros xs s' o1 -> HR Hxs; cbn [fold_each].
  - rewrite app_nil_r. by intros a [= <-].
  - eapply ensures_and_then; [apply (Hf xs x); [set_solver|done..]|].
    intros s2 o2 HR2 Hs2. apply (IH (xs ++ [x])); [by rewrite <-app_assoc|by transitivity o1|done].
Qed.

Lemma ensures_read_only {E A} (p : prog (result E A)) o : read_only p -> ensures p (fun _ _ => True) o.
Proof using Type*. intros Hp. eapply wp_mono; [|by apply wp_read_only]. done. Qed.
End wp.

(** * Runs *)

Section runs.
Context `{ObjectStoreLaws}.

(** A run of one program with steps of others in between, and the requests the
    program made. *)
Inductive exec (env : store -> store -> Prop) {A} : prog A -> store -> list call -> A -> store -> Prop :=
| exec_ret a s : exec env (Ret a) s [] a s
| exec_env p s s1 trace a s2 : env s s1 -> exec env p s1 trace a s2 -> exec env p s trace a s2
| exec_call c k s r s1 trace a s2 : serve s c r s1 -> exec env (k r) s1 trace a s2 ->
    exec env (Call c k) s (c :: trace) a s2.

Lemma exec_wp (R : relation objects) `{!PreOrder R} G env {A} (p : prog A) post s trace a s' :
  (forall o c o', G o c o' -> R o o') ->
  (forall s1 s2, env s1 s2 -> R (content s1) (content s2)) ->
  stable R post ->
  wp R G p post (content s) -> exec env p s trace a s' ->
  post a (content s') /\ R (content s) (content s') /\ Forall (fun c => exists o o', G o c o') trace.
Proof.
  intros HGR Henv Hst Hwp Hex. revert Hwp.
  induction Hex as [a s|p s s1 trace a s2 Hs _ IH|c k s r s1 trace a s2 Hserve _ IH]; intros Hwp.
  - done.
  - apply Henv in Hs. destruct IH as (? & ? & ?); [by eapply (wp_stable R)|].
    split_and!; [done|by etransitivity|done].
  - apply serve_answers in Hserve. destruct (Hwp _ _ _ ltac:(reflexivity) Hserve) as [HG Hk].
    destruct (IH Hk) as (? & ? & ?). split_and!; [done|etransitivity; [by eapply HGR|done]|].
    constructor; eauto.
Qed.

Lemma exec_ensures (R : relation objects) `{!PreOrder R} G env {E B} (p : prog (result E B)) post s trace b s' :
  (forall o c o', G o c o' -> R o o') ->
  (forall s1 s2, env s1 s2 -> R (content s1) (content s2)) ->
  stable R post -> ensures R G p post (content s) -> exec env p s trace (Ok b) s' ->
  post b (content s') /\ R (content s) (content s').
Proof.
  intros HGR Henv Hst Hp Hex. eapply (exec_wp R) in Hex as (Hpost & HR & _); [|exact HGR|exact Henv| |exact Hp].
  - split; [by apply Hpost|done].
  - intros r o o' Ho Hr c Hc. by eapply Hst; [|apply Hr].
Qed.

(** Any number of programs running at once: a program starts, or one of them
    makes its next request. A program that is never scheduled again has
    crashed. *)
Context {A : Type} (startable : prog A -> Prop).

Inductive step : store * list (prog A) -> store * list (prog A) -> Prop :=
| step_start s ps p : startable p -> step (s, ps) (s, ps ++ [p])
| step_call s ps i c k r s' : ps !! i = Some (Call c k) -> serve s c r s' ->
    step (s, ps) (s', <[i := k r]> ps).

Definition steps_to : relation (store * list (prog A)) := rtc step.

(** If every startable program is well behaved in every store that can arise,
    every step of every interleaving is. *)
Lemma steps_wp (R : relation objects) `{!PreOrder R} G s ps s' ps' :
  (forall o c o', G o c o' -> R o o') ->
  (forall p o, startable p -> wp R G p (fun _ _ => True) o) ->
  Forall (fun p => wp R G p (fun _ _ => True) (content s)) ps ->
  steps_to (s, ps) (s', ps') ->
  R (content s) (content s') /\ Forall (fun p => wp R G p (fun _ _ => True) (content s')) ps'.
Proof.
  intros HGR Hstart Hinit Hsteps. revert Hsteps.
  apply (rtc_ind_r (fun c => R (content s) (content c.1) /\
    Forall (fun p => wp R G p (fun _ _ => True) (content c.1)) c.2) (s, ps)); [done|].
  intros c1 c2 _ Hstep [HR Hps]. destruct Hstep as [s1 ps1 p Hp|s1 ps1 i c k r s2 Hi Hserve]; simpl in *.
  - split; [done|]. apply Forall_app_2; [done|]. constructor; [auto|done].
  - apply serve_answers in Hserve. rewrite Forall_lookup in Hps.
    destruct (Hps i _ Hi _ _ _ ltac:(reflexivity) Hserve) as [HG Hk].
    apply HGR in HG. split; [by etransitivity|]. apply Forall_insert; [|done].
    apply Forall_lookup. intros j p Hj. refine (wp_stable R G p _ _ _ _ HG (Hps j p Hj)). by intros ? ? ? ?.
Qed.
End runs.

(** * A store *)

(** The objects themselves, with requests that always succeed. *)
Definition memory_answer (o : objects) (c : call) : answer c * objects :=
  match c with
  | Get l => (ok_or NotFound (o !! l), o)
  | Head l => (match o !! l with Some _ => Ok tt | None => Err NotFound end, o)
  | PutCreate l body => match o !! l with Some _ => (Err AlreadyExists, o) | None => (Ok tt, <[l := body]> o) end
  | Put l body => (Ok tt, <[l := body]> o)
  | Delete l => match o !! l with Some _ => (Ok tt, delete l o) | None => (Err NotFound, o) end
  | List prefix => (Ok (filter (fun l => under prefix l = true) (map_to_list o).*1), o)
  | ListWithOffset prefix offset =>
      (Ok (filter (fun l => under prefix l = true /\ cmp offset l = Lt) (map_to_list o).*1), o)
  | Now => ((1700000000, 0), o)
  end.

#[export] Instance memory_store : ObjectStore := {
  store := objects;
  content o := o;
  serve o c r o' := memory_answer o c = (r, o')
}.

#[export] Instance memory_store_laws : ObjectStoreLaws.
Proof.
  constructor. intros s c r s'. cbn in *. change store with objects in *. assert (forall P `{forall l, Decision (P l)},
    NoDup (filter P (map_to_list s).*1) /\
    forall l, l ∈ filter P (map_to_list s).*1 <-> is_Some (s !! l) /\ P l) as Hlist.
  { intros P HP. split; [apply NoDup_filter, NoDup_fst_map_to_list|]. intros l.
    rewrite list_elem_of_filter, list_elem_of_fmap. split.
    - intros [? ([l' b] & -> & ?%elem_of_map_to_list)]. eauto.
    - intros [[b Hb] ?]. split; [done|]. exists (l, b). by rewrite elem_of_map_to_list. }
  destruct c as [l|l|l body|l body|l|prefix|prefix offset|]; cbn [memory_answer answers];
    try (destruct (s !! l) eqn:Hl); cbn [ok_or]; intros Heq; injection Heq as <- <-; eauto.
  by cbn.
Qed.

(** Running a program alone on it. *)
Fixpoint run {A} (p : prog A) (o : objects) : A * objects :=
  match p with
  | Ret a => (a, o)
  | Call c k => let '(r, o') := memory_answer o c in run (k r) o'
  end.

Lemma run_exec env {A} (p : prog A) o : exists trace, exec env p o trace (run p o).1 (run p o).2.
Proof.
  revert o. induction p as [a|c k IH]; intros o; cbn [run].
  - exists []. constructor.
  - destruct (memory_answer o c) as [r o'] eqn:Hc. destruct (IH r o') as [trace Ht].
    exists (c :: trace). eapply (exec_call _ c k o r o'); [exact Hc|exact Ht].
Qed.

(** A started program can run to its end. *)
Lemma run_steps {A} (startable : prog A -> Prop) (p : prog A) (o : objects) ps : startable p ->
  steps_to startable (o, ps) ((run p o).2, ps ++ [Ret (run p o).1]).
Proof.
  intros Hp. eapply rtc_l; [exact (@step_start memory_store A startable o ps p Hp)|]. clear Hp.
  revert o. induction p as [a|c k IH]; intros o; cbn [run]; [apply rtc_refl|].
  destruct (memory_answer o c) as [r o'] eqn:Hc. eapply rtc_l; [|apply (IH r o')].
  replace (ps ++ [k r]) with (<[length ps := k r]> (ps ++ [Call c k])).
  - apply (@step_call memory_store A startable o (ps ++ [Call c k]) (length ps) c k r o'); [|exact Hc].
    by rewrite lookup_app_r, Nat.sub_diag.
  - by rewrite insert_app_r_alt, Nat.sub_diag.
Qed.
