(* ===== verification/CheckpointIndex.v ===== *)
(** Records around a checkpoint manifest,
    [velorix-storage/src/checkpoint_index.rs] and [gc.rs].

    JSON text and SHA-256 come from other crates: they are the parameters
    [CheckpointCodec] and [Sha256]. *)
From S2P Require Import Prelude BTree Json Digits Segments ObjectKey Hash ObjectKeyProofs Manifest ObjectStore.

(** * Garbage collection *)

Definition GC_RUN_SCHEMA_VERSION : Z := 1.

Record GarbageCollectionPolicy := GcPolicy { retain_latest_manifests : nat }.
Inductive GarbageCollectionCandidateKind := RawStateObject | OutputObjectKind.
Record GarbageCollectionCandidate := GcCandidate {
  gc_object_key : ObjectKey;
  gc_kind : GarbageCollectionCandidateKind
}.
Record GarbageCollectionPlan := GcPlan {
  retained_manifest_versions : list Z;
  candidates : list GarbageCollectionCandidate
}.
Record GarbageCollectionReport := GcReport {
  deleted : list GarbageCollectionCandidate;
  skipped : list GarbageCollectionCandidate
}.
Record GarbageCollectionRunV1 := GcRun {
  gr_schema_version : Z;
  gr_run_id : string;
  gr_policy : GarbageCollectionPolicy;
  gr_plan : GarbageCollectionPlan;
  gr_report : GarbageCollectionReport
}.

#[export] Instance GarbageCollectionPolicy_eq_dec : EqDecision GarbageCollectionPolicy.
Proof. solve_decision. Defined.
#[export] Instance GarbageCollectionCandidateKind_eq_dec : EqDecision GarbageCollectionCandidateKind.
Proof. solve_decision. Defined.
#[export] Instance GarbageCollectionCandidate_eq_dec : EqDecision GarbageCollectionCandidate.
Proof. solve_decision. Defined.
#[export] Instance GarbageCollectionPlan_eq_dec : EqDecision GarbageCollectionPlan.
Proof. solve_decision. Defined.
#[export] Instance GarbageCollectionReport_eq_dec : EqDecision GarbageCollectionReport.
Proof. solve_decision. Defined.
#[export] Instance GarbageCollectionRunV1_eq_dec : EqDecision GarbageCollectionRunV1.
Proof. solve_decision. Defined.

Definition matches_key (kind : GarbageCollectionCandidateKind) (key : ObjectKey) : bool :=
  match kind with
  | RawStateObject => starts_with "v1/state/" (as_str key)
  | OutputObjectKind => starts_with "v1/outputs/" (as_str key)
  end.

(** The derived order: by key, then by kind. *)
Definition kind_index (kind : GarbageCollectionCandidateKind) : Z :=
  match kind with RawStateObject => 0 | OutputObjectKind => 1 end.
Definition candidate_le (a b : GarbageCollectionCandidate) : Prop :=
  cmp (as_str (gc_object_key a), kind_index (gc_kind a))
      (as_str (gc_object_key b), kind_index (gc_kind b)) <> Gt.
#[export] Instance candidate_le_dec : RelDecision candidate_le.
Proof. intros a b. unfold candidate_le. apply _. Defined.

(** * Records next to a manifest *)

Definition LATEST_CANDIDATE_SCHEMA_VERSION : Z := 1.
Definition CHECKPOINT_LIFECYCLE_SCHEMA_VERSION : Z := 1.
Definition CHECKPOINT_GC_TRANSITION_SCHEMA_VERSION : Z := 1.
Definition CHECKPOINT_RETENTION_SCHEMA_VERSION : Z := 1.
Definition CHECKPOINT_RECOVERY_TRANSITION_SCHEMA_VERSION : Z := 1.

Record LatestCandidateMarker := Marker {
  mk_schema_version : Z;
  mk_checkpoint_version : Z;
  mk_manifest_key : ObjectKey;
  mk_manifest_digest : string;
  mk_validated_parent_checkpoint : option Z;
  mk_updated_at : string
}.

Inductive CheckpointLifecycleStatus := Published.

Record CheckpointLifecycleRecord := Lifecycle {
  lc_schema_version : Z;
  lc_checkpoint_version : Z;
  lc_manifest_key : ObjectKey;
  lc_manifest_digest : string;
  lc_status : CheckpointLifecycleStatus;
  lc_status_updated_at : string
}.

Record CheckpointRetentionRecordV1 := Retention {
  rt_schema_version : Z;
  rt_checkpoint_version : Z;
  rt_manifest_key : ObjectKey;
  rt_manifest_digest : string;
  rt_gc_run_id : string;
  rt_policy : GarbageCollectionPolicy;
  rt_retained_manifest_versions : list Z;
  rt_deleted_candidate_keys : list ObjectKey;
  rt_retained_at : string
}.

Inductive CheckpointGcTransition := PayloadReleased.

Record CheckpointGcTransitionRecordV1 := GcTransition {
  gt_schema_version : Z;
  gt_checkpoint_version : Z;
  gt_transition_id : string;
  gt_manifest_key : ObjectKey;
  gt_manifest_digest : string;
  gt_transition : CheckpointGcTransition;
  gt_gc_run_id : string;
  gt_gc_run_key : ObjectKey;
  gt_gc_run_digest : string;
  gt_retention_record_key : ObjectKey;
  gt_retention_record_digest : string;
  gt_retained_manifest_versions : list Z;
  gt_released_payload_keys : list ObjectKey;
  gt_created_at : string;
  gt_emitter : string
}.

Inductive CheckpointRecoveryMode := LatestCandidate | SelectedCheckpoint.

Record CheckpointRecoveryTransitionRecordV1 := Recovery {
  rv_schema_version : Z;
  rv_checkpoint_version : Z;
  rv_transition_id : string;
  rv_manifest_key : ObjectKey;
  rv_manifest_digest : string;
  rv_recovery_mode : CheckpointRecoveryMode;
  rv_replay_checkpoint_count : Z;
  rv_replayed_batch_count : Z;
  rv_recovered_at : string
}.

(** * Parameters *)

(** [serde_json::to_vec] and [from_slice] at the types of the publisher. *)
Class CheckpointCodec := {
  manifest_to_vec : CheckpointManifest -> option bytes;
  manifest_from_slice : bytes -> option CheckpointManifest;
  record_to_vec : OwnershipEpochRecord -> option bytes;
  record_from_slice : bytes -> option OwnershipEpochRecord;
  marker_to_vec : LatestCandidateMarker -> option bytes;
  marker_from_slice : bytes -> option LatestCandidateMarker;
  lifecycle_to_vec : CheckpointLifecycleRecord -> option bytes;
  lifecycle_from_slice : bytes -> option CheckpointLifecycleRecord;
  retention_to_vec : CheckpointRetentionRecordV1 -> option bytes;
  retention_from_slice : bytes -> option CheckpointRetentionRecordV1;
  gc_transition_to_vec : CheckpointGcTransitionRecordV1 -> option bytes;
  gc_transition_from_slice : bytes -> option CheckpointGcTransitionRecordV1;
  recovery_to_vec : CheckpointRecoveryTransitionRecordV1 -> option bytes;
  recovery_from_slice : bytes -> option CheckpointRecoveryTransitionRecordV1;
  gc_run_to_vec : GarbageCollectionRunV1 -> option bytes;
  gc_run_from_slice : bytes -> option GarbageCollectionRunV1
}.

Section records.
Context `{Sha256}.

Definition manifest_body_digest (manifest_bytes : bytes) : string :=
  sha256_text (as_bytes "velorix.checkpoint-manifest.v1" ++ [0] ++ manifest_bytes).

Definition manifest_digest (manifest_bytes : bytes) : string := manifest_body_digest manifest_bytes.

Definition marker_updated_at_now : prog string :=
  bind (request Now) (fun '(secs, nanos) =>
    Ret ("unix:" +:+ nat_to_string secs +:+ "." +:+ zero_padded 9 nanos)).

(** [sequence] is the value [RECOVERY_TRANSITION_SEQUENCE.fetch_add] returns. *)
Definition recovery_transition_id_now (sequence : Z) : prog string :=
  bind (request Now) (fun '(secs, nanos) =>
    Ret ("recovery-" +:+ nat_to_string secs +:+ "-" +:+ zero_padded 9 nanos +:+ "-" +:+ zero_padded 16 sequence)).

Definition marker_for_manifest (m : CheckpointManifest) (manifest_bytes : bytes) (updated_at : string) :
    LatestCandidateMarker :=
  Marker LATEST_CANDIDATE_SCHEMA_VERSION (checkpoint_version m) (manifest_key m)
    (manifest_digest manifest_bytes) (parent_checkpoint m) updated_at.

Definition marker_validate_schema (k : LatestCandidateMarker) : bool :=
  mk_schema_version k =? LATEST_CANDIDATE_SCHEMA_VERSION.

Definition lifecycle_published (m : CheckpointManifest) (manifest_bytes : bytes) (status_updated_at : string) :
    CheckpointLifecycleRecord :=
  Lifecycle CHECKPOINT_LIFECYCLE_SCHEMA_VERSION (checkpoint_version m) (manifest_key m)
    (manifest_digest manifest_bytes) Published status_updated_at.

Definition lifecycle_validate_schema (r : CheckpointLifecycleRecord) : bool :=
  lc_schema_version r =? CHECKPOINT_LIFECYCLE_SCHEMA_VERSION.

Definition retention_for_manifest (m : CheckpointManifest) (manifest_bytes : bytes) (gc_run_id : string)
    (policy : GarbageCollectionPolicy) (retained : list Z) (deleted_candidate_keys : list ObjectKey)
    (retained_at : string) : CheckpointRetentionRecordV1 :=
  Retention CHECKPOINT_RETENTION_SCHEMA_VERSION (checkpoint_version m) (manifest_key m)
    (manifest_digest manifest_bytes) gc_run_id policy retained deleted_candidate_keys retained_at.

Definition retention_validate_schema (r : CheckpointRetentionRecordV1) : bool :=
  rt_schema_version r =? CHECKPOINT_RETENTION_SCHEMA_VERSION.

(** An error is the panic of [expect]: the run id of the record is not valid. *)
Definition payload_released_from_retention_record (retention : CheckpointRetentionRecordV1)
    (transition_id gc_run_digest retention_record_digest created_at emitter : string) :
    result ObjectKeyError CheckpointGcTransitionRecordV1 :=
  gc_run_key ← garbage_collection_run (rt_gc_run_id retention);
  Ok (GcTransition CHECKPOINT_GC_TRANSITION_SCHEMA_VERSION (rt_checkpoint_version retention)
    transition_id (rt_manifest_key retention) (rt_manifest_digest retention) PayloadReleased
    (rt_gc_run_id retention) gc_run_key gc_run_digest
    (checkpoint_retention_record (rt_checkpoint_version retention)) retention_record_digest
    (rt_retained_manifest_versions retention) (rt_deleted_candidate_keys retention) created_at emitter).

Definition gc_transition_validate_schema (r : CheckpointGcTransitionRecordV1) : bool :=
  gt_schema_version r =? CHECKPOINT_GC_TRANSITION_SCHEMA_VERSION.

Definition recovery_for_manifest (m : CheckpointManifest) (manifest_bytes : bytes) (transition_id : string)
    (recovery_mode : CheckpointRecoveryMode) (replay_checkpoint_count replayed_batch_count : Z)
    (recovered_at : string) : CheckpointRecoveryTransitionRecordV1 :=
  Recovery CHECKPOINT_RECOVERY_TRANSITION_SCHEMA_VERSION (checkpoint_version m) transition_id (manifest_key m)
    (manifest_digest manifest_bytes) recovery_mode replay_checkpoint_count replayed_batch_count recovered_at.

Definition recovery_validate_schema (r : CheckpointRecoveryTransitionRecordV1) : bool :=
  rv_schema_version r =? CHECKPOINT_RECOVERY_TRANSITION_SCHEMA_VERSION.

End records.
