(* ===== verification/Publisher.v ===== *)
(** The checkpoint publisher, [velorix-storage/src/state.rs], with the raw state
    store of [state_store.rs] as its state store.

    Every [async fn] of the publisher is a program over the object store. A
    [Path] is the text of the key it is made from: keys only have characters that
    a path keeps. Where the source issues independent reads concurrently and then
    reports the first error, [gather] issues all of them one after the other. *)
From stdpp Require Import sorting.
From S2P Require Import Prelude BTree Json Digits Segments ObjectKey Hash ObjectKeyProofs Manifest Capability ObjectStore CheckpointIndex.

(** * Errors *)

(** The offsets of a regressed boundary are kept as the two ranges. *)
Inductive CheckpointPublishError :=
| GarbageCollectionCoordinationRequired
| KeyFailure (error : ObjectKeyError)
| ManifestFailure (error : ManifestError)
| RecordFailure (error : OwnershipEpochRecordError)
| CapabilityFailure (error : Capability.ObjectStoreCapabilityError)
| AuthoritativeCapabilityFailure (error : Capability.AuthoritativeObjectStoreCapabilityError)
| StateObjectAlreadyExists (key : ObjectKey)
| OutputObjectAlreadyExists (key : ObjectKey)
| ManifestAlreadyExists (key : ObjectKey)
| CheckpointRecoveryTransitionAlreadyExists (key : ObjectKey)
| CheckpointGcTransitionConflict (key : ObjectKey)
| GarbageCollectionRunAlreadyExists (key : ObjectKey)
| GarbageCollectionPlanPolicyMismatch (retain_latest_manifests : nat)
    (expected_retained actual_retained : list Z) (expected_keys actual_keys : list ObjectKey)
| InvalidGarbageCollectionRunEvidence (object_key : ObjectKey) (reason : string)
| InvalidGarbageCollectionPolicy
| MissingGarbageCollectionRetainedManifest (checkpoint_version : Z)
| GarbageCollectionCandidateStillReferenced (object_key : ObjectKey) (checkpoint_version : Z)
| MissingOwnershipEpochRecord (key : ObjectKey)
| OwnershipEpochRecordConflict (key : ObjectKey)
| ManifestKeyMismatch (object_key body_key : ObjectKey)
| MissingParentManifest (checkpoint_version parent_checkpoint : Z)
| DroppedParentInputProgress (checkpoint_version parent_checkpoint : Z) (stream_id : string) (partition_id : Z)
| RegressedParentInputBoundary (checkpoint_version parent_checkpoint : Z) (parent child : InputRange)
| MissingStateObject (key : ObjectKey)
| MissingOutputObject (key : ObjectKey)
| StateOwnerClaimMismatch (key : ObjectKey) (expected : PartitionOwnerClaim) (actual : option PartitionOwnerClaim)
| OutputClaimMismatch (key : ObjectKey) (expected : PartitionOwnerClaim) (actual : option PartitionOwnerClaim)
| StaleOwnerClaim (partition_id : Z) (current attempted : PartitionOwnerClaim)
| FencedManifestPartitionNotClaimed (progress_kind : string) (partition_id : Z) (claim : PartitionOwnerClaim)
| JsonFailure
| ObjectStoreFailure (error : store_error).

Abbreviation publishing A := (prog (result CheckpointPublishError A)).

Section publisher.
Context `{Sha256, CheckpointCodec}.

(** A step without requests, and a request whose error is passed on. *)
Definition lift {A} (r : result CheckpointPublishError A) : publishing A := Ret r.
Definition fetch (location : string) : publishing bytes :=
  bind (request (Get location)) (fun r => Ret (map_err ObjectStoreFailure r)).
Definition listing (prefix : string) : publishing (list string) :=
  bind (request (List prefix)) (fun r => Ret (map_err ObjectStoreFailure r)).

(** * Writes *)

Record StateObjectWrite := StateWrite {
  sw_owner : string;
  sw_partition_id : Z;
  sw_checkpoint_version : Z;
  sw_object_id : string;
  sw_bytes : bytes;
  sw_object_key : ObjectKey;
  sw_owner_claim : option PartitionOwnerClaim
}.

Definition new_state_write (owner : string) (partition_id checkpoint_version : Z) (object_id : string)
    (body : bytes) : result CheckpointPublishError StateObjectWrite :=
  object_key ← map_err KeyFailure (state_object owner partition_id checkpoint_version object_id);
  Ok (StateWrite owner partition_id checkpoint_version object_id body object_key None).

Definition new_fenced_state_write (owner : string) (partition_id checkpoint_version : Z) (object_id : string)
    (owner_claim : PartitionOwnerClaim) (body : bytes) : result CheckpointPublishError StateObjectWrite :=
  state ← new_state_write owner partition_id checkpoint_version object_id body;
  Ok (StateWrite (sw_owner state) (sw_partition_id state) (sw_checkpoint_version state)
        (sw_object_id state) (sw_bytes state) (sw_object_key state) (Some owner_claim)).

Definition state_object_ref (w : StateObjectWrite) : StateObjectRef :=
  StateRef (sw_object_id w) (sw_object_key w) (sw_owner w) (sw_partition_id w)
    (sw_checkpoint_version w) (sw_owner_claim w).

Record OutputObjectWrite := OutputWrite {
  ow_stream_id : string;
  ow_partition_id : Z;
  ow_checkpoint_version : Z;
  ow_start_offset_inclusive : Z;
  ow_end_offset_exclusive : Z;
  ow_object_id : string;
  ow_bytes : bytes;
  ow_object_key : ObjectKey;
  ow_owner_claim : option PartitionOwnerClaim
}.

Definition new_output_write (stream_id : string)
    (partition_id checkpoint_version start_offset_inclusive end_offset_exclusive : Z)
    (object_id : string) (body : bytes) : result CheckpointPublishError OutputObjectWrite :=
  object_key ← map_err KeyFailure (output_object stream_id partition_id checkpoint_version
    start_offset_inclusive end_offset_exclusive object_id);
  Ok (OutputWrite stream_id partition_id checkpoint_version start_offset_inclusive
        end_offset_exclusive object_id body object_key None).

Record FencedOutputObjectWriteRequest := FencedOutputRequest {
  fr_stream_id : string;
  fr_partition_id : Z;
  fr_checkpoint_version : Z;
  fr_start_offset_inclusive : Z;
  fr_end_offset_exclusive : Z;
  fr_object_id : string;
  fr_owner_claim : PartitionOwnerClaim;
  fr_bytes : bytes
}.

Definition new_fenced_output_write (q : FencedOutputObjectWriteRequest) :
    result CheckpointPublishError OutputObjectWrite :=
  w ← new_output_write (fr_stream_id q) (fr_partition_id q) (fr_checkpoint_version q)
    (fr_start_offset_inclusive q) (fr_end_offset_exclusive q) (fr_object_id q) (fr_bytes q);
  Ok (OutputWrite (ow_stream_id w) (ow_partition_id w) (ow_checkpoint_version w)
        (ow_start_offset_inclusive w) (ow_end_offset_exclusive w) (ow_object_id w) (ow_bytes w)
        (ow_object_key w) (Some (fr_owner_claim q))).

Definition output_object_ref (w : OutputObjectWrite) : OutputObjectRef :=
  OutputRef (ow_object_id w) (ow_object_key w) (ow_stream_id w) (ow_partition_id w)
    (ow_checkpoint_version w) (ow_start_offset_inclusive w) (ow_end_offset_exclusive w) (ow_owner_claim w).

(** [RawObjectStateStore]. *)
Definition write_state_object (w : StateObjectWrite) : publishing StateObjectRef :=
  bind (request (PutCreate (as_str (sw_object_key w)) (sw_bytes w))) (fun r =>
    Ret (match r with
         | Ok _ => Ok (state_object_ref w)
         | Err AlreadyExists => Err (StateObjectAlreadyExists (sw_object_key w))
         | Err e => Err (ObjectStoreFailure e)
         end)).

Definition read_state_object (s : StateObjectRef) : publishing bytes := fetch (as_str (sr_object_key s)).

Definition state_object_exists (s : StateObjectRef) : publishing bool :=
  bind (request (Head (as_str (sr_object_key s)))) (fun r =>
    Ret (match r with
         | Ok _ => Ok true
         | Err NotFound => Ok false
         | Err e => Err (ObjectStoreFailure e)
         end)).

Definition write_output_object (w : OutputObjectWrite) : publishing OutputObjectRef :=
  bind (request (PutCreate (as_str (ow_object_key w)) (ow_bytes w))) (fun r =>
    Ret (match r with
         | Ok _ => Ok (output_object_ref w)
         | Err AlreadyExists => Err (OutputObjectAlreadyExists (ow_object_key w))
         | Err e => Err (ObjectStoreFailure e)
         end)).

(** * Lineage *)

(** [iter.map(..).collect::<HashMap<_, _>>()]: a later entry replaces an
    earlier one with the same key. *)
Definition collect_map {K A B} `{Countable K} (f : A -> K * B) (l : list A) : gmap K B :=
  foldl (fun acc x => <[(f x).1 := (f x).2]> acc) ∅ l.

Definition child_covers (child parent : CheckpointManifest) (child_ranges : gmap (string * Z) InputRange)
    (_ : unit) (range : InputRange) : result CheckpointPublishError unit :=
  match child_ranges !! input_key range with
  | None => Err (DroppedParentInputProgress (checkpoint_version child) (checkpoint_version parent)
                   (in_stream_id range) (in_partition_id range))
  | Some child_range =>
      fail_if ((in_start_offset_inclusive range <? in_start_offset_inclusive child_range) ||
               (in_end_offset_exclusive child_range <? in_end_offset_exclusive range))
        (RegressedParentInputBoundary (checkpoint_version child) (checkpoint_version parent) range child_range)
  end.

Definition validate_child_input_progress (child parent : CheckpointManifest) :
    result CheckpointPublishError unit :=
  let child_ranges := collect_map (fun range => (input_key range, range)) (input_ranges child) in
  try_fold (child_covers child parent child_ranges) tt (input_ranges parent).

Definition validate_lineage_of (by_checkpoint : gmap Z CheckpointManifest) (_ : unit) (m : CheckpointManifest) :
    result CheckpointPublishError unit :=
  match parent_checkpoint m with
  | None => Ok tt
  | Some parent_checkpoint =>
      match by_checkpoint !! parent_checkpoint with
      | None => Err (MissingParentManifest (checkpoint_version m) parent_checkpoint)
      | Some parent => validate_child_input_progress m parent
      end
  end.

Definition validate_manifest_lineage (ms : list CheckpointManifest) : result CheckpointPublishError unit :=
  try_fold (validate_lineage_of (collect_map (fun m => (checkpoint_version m, m)) ms)) tt ms.

(** * Reading manifests *)

Definition CHECKPOINT_PREFIX : string := "v1/checkpoints".

(** The manifest in the body of an object, checked against its key. *)
Definition decode_manifest (object_key : ObjectKey) (body : bytes) :
    result CheckpointPublishError CheckpointManifest :=
  m ← ok_or JsonFailure (manifest_from_slice body);
  _ ← map_err ManifestFailure (validate m);
  _ ← fail_if (bool_decide (object_key <> manifest_key m)) (ManifestKeyMismatch object_key (manifest_key m));
  Ok m.

Definition read_parent_manifest (checkpoint_version parent_checkpoint : Z) : publishing CheckpointManifest :=
  let object_key := checkpoint_manifest parent_checkpoint in
  body ←! bind (request (Get (as_str object_key))) (fun r =>
    Ret (map_err (fun e => match e with
                           | NotFound => MissingParentManifest checkpoint_version parent_checkpoint
                           | e => ObjectStoreFailure e
                           end) r));
  lift (decode_manifest object_key body).

Definition validate_parent_manifest_visible (m : CheckpointManifest) : publishing unit :=
  match parent_checkpoint m with
  | None => lift (Ok tt)
  | Some parent_checkpoint =>
      parent ←! read_parent_manifest (checkpoint_version m) parent_checkpoint;
      lift (validate_child_input_progress m parent)
  end.

Definition read_manifest_by_version (version : Z) : publishing CheckpointManifest :=
  body ←! fetch (as_str (checkpoint_manifest version));
  m ←! lift (ok_or JsonFailure (manifest_from_slice body));
  _ ←! lift (map_err ManifestFailure (validate m));
  lift (Ok m).

Definition read_listed_manifest (location : string) : publishing CheckpointManifest :=
  object_key ←! lift (map_err KeyFailure (parse location));
  body ←! fetch location;
  lift (decode_manifest object_key body).

Definition version_le (a b : CheckpointManifest) : Prop := checkpoint_version a <= checkpoint_version b.
#[export] Instance version_le_dec : RelDecision version_le.
Proof. intros a b. unfold version_le. apply _. Defined.

Definition list_published_manifests : publishing (list CheckpointManifest) :=
  locations ←! listing CHECKPOINT_PREFIX;
  manifests ←! gather read_listed_manifest locations;
  let manifests := merge_sort version_le manifests in
  _ ←! lift (validate_manifest_lineage manifests);
  lift (Ok manifests).

Definition validate_state_objects_exist (m : CheckpointManifest) : publishing unit :=
  for_each (fun s =>
    found ←! state_object_exists s;
    lift (fail_if (negb found) (MissingStateObject (sr_object_key s)))) (state_objects m).

Definition output_object_exists (o : OutputObjectRef) : publishing unit :=
  bind (request (Head (as_str (or_object_key o)))) (fun r =>
    Ret (map_err (fun e => match e with
                           | NotFound => MissingOutputObject (or_object_key o)
                           | e => ObjectStoreFailure e
                           end) r)).

Definition validate_output_objects_exist (m : CheckpointManifest) : publishing unit :=
  _ ←! gather output_object_exists (output_objects m);
  lift (Ok tt).

(** * Publication *)

Definition preflight_manifest_publication (m : CheckpointManifest) : publishing unit :=
  _ ←! lift (map_err ManifestFailure (validate m));
  validate_parent_manifest_visible m.

Definition best_effort_publish_lifecycle_record (m : CheckpointManifest) (manifest_bytes : bytes) : prog unit :=
  bind marker_updated_at_now (fun now =>
    match lifecycle_to_vec (lifecycle_published m manifest_bytes now) with
    | None => Ret tt
    | Some body =>
        bind (request (PutCreate (as_str (checkpoint_lifecycle_record (checkpoint_version m))) body))
          (fun _ => Ret tt)
    end).

(** An existing marker of this version or a later one is left alone. *)
Definition newer_marker (version : Z) (r : result store_error bytes) : bool :=
  match r with
  | Ok existing_bytes =>
      match marker_from_slice existing_bytes with
      | Some existing => version <=? mk_checkpoint_version existing
      | None => false
      end
  | Err _ => false
  end.

Definition best_effort_publish_latest_candidate_marker (m : CheckpointManifest) (manifest_bytes : bytes) :
    prog unit :=
  bind marker_updated_at_now (fun now =>
    let marker := marker_for_manifest m manifest_bytes now in
    let marker_path := as_str checkpoint_latest_candidate_marker in
    bind (request (Get marker_path)) (fun existing =>
      if newer_marker (mk_checkpoint_version marker) existing then Ret tt
      else match marker_to_vec marker with
           | None => Ret tt
           | Some body => bind (request (Put marker_path body)) (fun _ => Ret tt)
           end)).

Definition publish_manifest (m : CheckpointManifest) : publishing unit :=
  _ ←! preflight_manifest_publication m;
  _ ←! validate_state_objects_exist m;
  _ ←! validate_output_objects_exist m;
  let object_key := manifest_key m in
  body ←! lift (ok_or JsonFailure (manifest_to_vec m));
  bind (request (PutCreate (as_str object_key) body)) (fun r =>
    match r with
    | Ok _ =>
        bind (best_effort_publish_lifecycle_record m body) (fun _ =>
        bind (best_effort_publish_latest_candidate_marker m body) (fun _ => Ret (Ok tt)))
    | Err AlreadyExists => Ret (Err (ManifestAlreadyExists object_key))
    | Err e => Ret (Err (ObjectStoreFailure e))
    end).

(** * Fencing *)

Definition is_current_claim_newer_or_conflicting (current attempted : PartitionOwnerClaim) : bool :=
  (claim_owner_epoch attempted <? claim_owner_epoch current) ||
  ((claim_owner_epoch current =? claim_owner_epoch attempted) &&
   negb (String.eqb (claim_owner_id current) (claim_owner_id attempted))).

(** One object reference of a published manifest. *)
Definition check_reference (partitions : gset Z) (owner_claim : PartitionOwnerClaim) (_ : unit)
    (ref : Z * option PartitionOwnerClaim) : result CheckpointPublishError unit :=
  match ref with
  | (partition_id, Some current) =>
      if bool_decide (partition_id ∈ partitions) && is_current_claim_newer_or_conflicting current owner_claim
      then Err (StaleOwnerClaim partition_id current owner_claim)
      else Ok tt
  | (_, None) => Ok tt
  end.

Definition references (m : CheckpointManifest) : list (Z * option PartitionOwnerClaim) :=
  ((fun s => (sr_partition_id s, sr_owner_claim s)) <$> state_objects m) ++
  ((fun o => (or_partition_id o, or_owner_claim o)) <$> output_objects m).

Definition validate_owner_claim_current (partitions : gset Z) (owner_claim : PartitionOwnerClaim) :
    publishing unit :=
  manifests ←! list_published_manifests;
  lift (try_fold (fun _ m => try_fold (check_reference partitions owner_claim) tt (references m)) tt manifests).

Definition claimed_partitions (m : CheckpointManifest) (owner_claim : PartitionOwnerClaim) : gset Z :=
  list_to_set (sr_partition_id <$> filter (fun s => sr_owner_claim s = Some owner_claim) (state_objects m)).

Definition validate_fenced_manifest_progress_claimed (m : CheckpointManifest) (owner_claim : PartitionOwnerClaim) :
    result CheckpointPublishError unit :=
  let claimed := claimed_partitions m owner_claim in
  _ ← try_fold (fun _ r => fail_if (bool_decide (in_partition_id r ∉ claimed))
        (FencedManifestPartitionNotClaimed "input" (in_partition_id r) owner_claim)) tt (input_ranges m);
  try_fold (fun _ o => fail_if (bool_decide (or_partition_id o ∉ claimed))
        (FencedManifestPartitionNotClaimed "output" (or_partition_id o) owner_claim)) tt (output_objects m).

Definition publish_manifest_fenced (m : CheckpointManifest) (owner_claim : PartitionOwnerClaim) : publishing unit :=
  _ ←! lift (map_err ManifestFailure (validate m));
  _ ←! lift (map_err ManifestFailure (validate_owner_claim m owner_claim));
  _ ←! lift (validate_fenced_manifest_progress_claimed m owner_claim);
  let partitions := list_to_set (sr_partition_id <$> state_objects m) in
  _ ←! validate_owner_claim_current partitions owner_claim;
  publish_manifest m.

Definition validate_state_write_owner_claim (w : StateObjectWrite) (owner_claim : PartitionOwnerClaim) :
    result CheckpointPublishError unit :=
  fail_if (bool_decide (sw_owner_claim w <> Some owner_claim))
    (StateOwnerClaimMismatch (sw_object_key w) owner_claim (sw_owner_claim w)).

Definition validate_output_write_owner_claim (w : OutputObjectWrite) (owner_claim : PartitionOwnerClaim) :
    result CheckpointPublishError unit :=
  fail_if (bool_decide (ow_owner_claim w <> Some owner_claim))
    (OutputClaimMismatch (ow_object_key w) owner_claim (ow_owner_claim w)).

Definition write_state_object_fenced (w : StateObjectWrite) (owner_claim : PartitionOwnerClaim) :
    publishing StateObjectRef :=
  _ ←! lift (validate_state_write_owner_claim w owner_claim);
  _ ←! validate_owner_claim_current {[sw_partition_id w]} owner_claim;
  write_state_object w.

Definition write_output_object_fenced (w : OutputObjectWrite) (owner_claim : PartitionOwnerClaim) :
    publishing OutputObjectRef :=
  _ ←! lift (validate_output_write_owner_claim w owner_claim);
  _ ←! validate_owner_claim_current {[ow_partition_id w]} owner_claim;
  write_output_object w.

(** ** Ownership epoch records *)

Definition read_ownership_epoch_record_object (object_key : ObjectKey) : publishing OwnershipEpochRecord :=
  body ←! fetch (as_str object_key);
  record ←! lift (ok_or JsonFailure (record_from_slice body));
  _ ←! lift (map_err RecordFailure (validate_object_key record object_key));
  lift (Ok record).

Definition create_ownership_epoch_record (r : OwnershipEpochRecord) : publishing ObjectKey :=
  _ ←! lift (map_err RecordFailure (validate_record r));
  object_key ←! lift (map_err KeyFailure (record_object_key r));
  body ←! lift (ok_or JsonFailure (record_to_vec r));
  bind (request (PutCreate (as_str object_key) body)) (fun answer =>
    match answer with
    | Ok _ => lift (Ok object_key)
    | Err AlreadyExists =>
        existing ←! read_ownership_epoch_record_object object_key;
        lift (if decide (existing = r) then Ok object_key else Err (OwnershipEpochRecordConflict object_key))
    | Err e => lift (Err (ObjectStoreFailure e))
    end).

Definition read_ownership_epoch_record (stream_id : string) (partition_id owner_epoch : Z) :
    publishing OwnershipEpochRecord :=
  object_key ←! lift (map_err KeyFailure (ownership_epoch_record stream_id partition_id owner_epoch));
  read_ownership_epoch_record_object object_key.

(** [Path::from]: empty segments are dropped. *)
Definition path_from (prefix : string) : string := default prefix (strip_suffix "/" prefix).

(** The records of one partition: the others under the prefix are skipped. *)
Definition read_listed_record (stream_id : string) (partition_id : Z) (location : string) :
    publishing (option OwnershipEpochRecord) :=
  object_key ←! lift (map_err KeyFailure (parse location));
  '(_, key_parts) ←! lift (map_err KeyFailure (parse_ownership_epoch_record (as_str object_key)));
  if negb (String.eqb (oe_stream_id key_parts) stream_id) || negb (oe_partition_id key_parts =? partition_id)
  then lift (Ok None)
  else record ←! read_ownership_epoch_record_object object_key; lift (Ok (Some record)).

Definition list_ownership_epoch_records (stream_id : string) (partition_id : Z) :
    publishing (list OwnershipEpochRecord) :=
  prefix_key ←! lift (map_err KeyFailure (ownership_epoch_record stream_id partition_id 0));
  prefix ←! lift (ok_or (KeyFailure (InvalidExternalKey (as_str prefix_key)))
    (strip_suffix "epoch=00000000000000000000.claim" (as_str prefix_key)));
  locations ←! listing (path_from prefix);
  records ←! collect (read_listed_record stream_id partition_id) locations;
  lift (Ok (omap id records)).

Definition has_newer_ownership_epoch_record (stream_id : string) (partition_id owner_epoch : Z) : publishing bool :=
  records ←! list_ownership_epoch_records stream_id partition_id;
  lift (Ok (existsb (fun r => owner_epoch <? er_owner_epoch r) records)).

Definition validate_matching_ownership_epoch_record_visible
    (stream_id : string) (partition_id : Z) (owner_claim : PartitionOwnerClaim) : publishing unit :=
  object_key ←! lift (map_err KeyFailure
    (ownership_epoch_record stream_id partition_id (claim_owner_epoch owner_claim)));
  record ←! bind (read_ownership_epoch_record_object object_key) (fun r =>
    Ret (map_err (fun e => match e with
                           | ObjectStoreFailure NotFound => MissingOwnershipEpochRecord object_key
                           | e => e
                           end) r));
  lift (map_err RecordFailure (validate_record_owner_claim record object_key
    (claim_owner_id owner_claim) (claim_owner_epoch owner_claim))).

Definition record_claim (r : OwnershipEpochRecord) : PartitionOwnerClaim :=
  OwnerClaim (er_owner_id r) (er_owner_epoch r).

Definition validate_no_newer_visible_ownership_epoch_record
    (stream_id : string) (partition_id : Z) (owner_claim : PartitionOwnerClaim) : publishing unit :=
  records ←! list_ownership_epoch_records stream_id partition_id;
  lift (try_fold (fun _ r =>
    fail_if (is_current_claim_newer_or_conflicting (record_claim r) owner_claim)
      (StaleOwnerClaim partition_id (record_claim r) owner_claim)) tt records).

Definition validate_production_owner_claim_current
    (stream_id : string) (partition_id : Z) (owner_claim : PartitionOwnerClaim) : publishing unit :=
  _ ←! validate_matching_ownership_epoch_record_visible stream_id partition_id owner_claim;
  _ ←! validate_owner_claim_current {[partition_id]} owner_claim;
  validate_no_newer_visible_ownership_epoch_record stream_id partition_id owner_claim.

Definition write_state_object_fenced_production
    (w : StateObjectWrite) (stream_id : string) (owner_claim : PartitionOwnerClaim) : publishing StateObjectRef :=
  _ ←! lift (validate_state_write_owner_claim w owner_claim);
  _ ←! validate_production_owner_claim_current stream_id (sw_partition_id w) owner_claim;
  write_state_object w.

Definition write_output_object_fenced_production
    (w : OutputObjectWrite) (owner_claim : PartitionOwnerClaim) : publishing OutputObjectRef :=
  _ ←! lift (validate_output_write_owner_claim w owner_claim);
  _ ←! validate_production_owner_claim_current (ow_stream_id w) (ow_partition_id w) owner_claim;
  write_output_object w.

(** One stream partition of the manifest's progress, unless it was checked
    before. *)
Definition check_progress (owner_claim : PartitionOwnerClaim)
    (state : gset (string * Z) * gset Z) (progress : string * Z) : publishing (gset (string * Z) * gset Z) :=
  let '(checked, all_partitions) := state in
  let '(stream_id, partition_id) := progress in
  if decide (progress ∈ checked) then lift (Ok state)
  else
    _ ←! validate_matching_ownership_epoch_record_visible stream_id partition_id owner_claim;
    _ ←! validate_no_newer_visible_ownership_epoch_record stream_id partition_id owner_claim;
    lift (Ok ({[progress]} ∪ checked, {[partition_id]} ∪ all_partitions)).

Definition validate_manifest_production_owner_claims_current
    (m : CheckpointManifest) (owner_claim : PartitionOwnerClaim) : publishing unit :=
  state ←! fold_each (check_progress owner_claim) (∅, ∅) (input_key <$> input_ranges m);
  state ←! fold_each (check_progress owner_claim) state
    ((fun o => (or_stream_id o, or_partition_id o)) <$> output_objects m);
  validate_owner_claim_current state.2 owner_claim.

Definition publish_manifest_fenced_production (m : CheckpointManifest) (owner_claim : PartitionOwnerClaim) :
    publishing unit :=
  _ ←! lift (map_err ManifestFailure (validate m));
  _ ←! lift (map_err ManifestFailure (validate_owner_claim m owner_claim));
  _ ←! lift (validate_fenced_manifest_progress_claimed m owner_claim);
  _ ←! validate_manifest_production_owner_claims_current m owner_claim;
  publish_manifest m.

(** * The latest manifest *)

Definition future_checkpoint_manifest_exists (key : ObjectKey) : publishing bool :=
  bind (request (ListWithOffset CHECKPOINT_PREFIX (as_str key))) (fun r =>
    Ret (match r with
         | Ok locations => Ok (match locations with [] => false | _ => true end)
         | Err e => Err (ObjectStoreFailure e)
         end)).

Definition try_latest_manifest_from_candidate_marker : publishing (option CheckpointManifest) :=
  bind (request (Get (as_str checkpoint_latest_candidate_marker))) (fun r =>
    match r with
    | Err NotFound => lift (Ok None)
    | Err e => lift (Err (ObjectStoreFailure e))
    | Ok marker_bytes =>
        marker ←! lift (ok_or JsonFailure (marker_from_slice marker_bytes));
        if negb (marker_validate_schema marker) then lift (Ok None)
        else if bool_decide (mk_manifest_key marker <> checkpoint_manifest (mk_checkpoint_version marker))
        then lift (Ok None)
        else
          manifest_bytes ←! fetch (as_str (mk_manifest_key marker));
          if negb (String.eqb (mk_manifest_digest marker) (manifest_digest manifest_bytes)) then lift (Ok None)
          else
            manifest ←! lift (ok_or JsonFailure (manifest_from_slice manifest_bytes));
            _ ←! lift (map_err ManifestFailure (validate manifest));
            if bool_decide (mk_manifest_key marker <> manifest_key manifest) then lift (Ok None)
            else if bool_decide (mk_validated_parent_checkpoint marker <> parent_checkpoint manifest)
            then lift (Ok None)
            else
              _ ←! validate_parent_manifest_visible manifest;
              _ ←! validate_state_objects_exist manifest;
              _ ←! validate_output_objects_exist manifest;
              future ←! future_checkpoint_manifest_exists (mk_manifest_key marker);
              lift (Ok (if future : bool then None else Some manifest))
    end).

Definition latest_manifest_from_candidate_marker : publishing (option CheckpointManifest) :=
  bind try_latest_manifest_from_candidate_marker (fun r =>
    Ret (match r with
         | Ok manifest => Ok manifest
         | Err (ObjectStoreFailure e) => Err (ObjectStoreFailure e)
         | Err (MissingStateObject key) => Err (MissingStateObject key)
         | Err (MissingOutputObject key) => Err (MissingOutputObject key)
         | Err _ => Ok None
         end)).

(** [max_by_key]: the last of the greatest. *)
Definition latest_of (ms : list CheckpointManifest) : option CheckpointManifest :=
  foldl (fun best m =>
    match best with
    | Some b => if checkpoint_version m <? checkpoint_version b then Some b else Some m
    | None => Some m
    end) None ms.

Definition latest_manifest : publishing (option CheckpointManifest) :=
  candidate ←! latest_manifest_from_candidate_marker;
  match candidate with
  | Some manifest => lift (Ok (Some manifest))
  | None =>
      manifests ←! list_published_manifests;
      let latest := latest_of manifests in
      match latest with
      | None => lift (Ok None)
      | Some manifest =>
          _ ←! validate_state_objects_exist manifest;
          _ ←! validate_output_objects_exist manifest;
          lift (Ok latest)
      end
  end.

(** * Planning garbage collection *)

Definition STATE_PREFIX : string := "v1/state".
Definition OUTPUT_PREFIX : string := "v1/outputs".

Definition unreferenced_candidate (kind : GarbageCollectionCandidateKind) (referenced : gset ObjectKey)
    (location : string) : option GarbageCollectionCandidate :=
  match parse location with
  | Err _ => None
  | Ok key =>
      if matches_key kind key && negb (bool_decide (key ∈ referenced)) then Some (GcCandidate key kind) else None
  end.

Definition add_unreferenced_candidates (prefix : string) (kind : GarbageCollectionCandidateKind)
    (referenced : gset ObjectKey) (acc : list GarbageCollectionCandidate) :
    publishing (list GarbageCollectionCandidate) :=
  locations ←! listing prefix;
  lift (Ok (acc ++ omap (unreferenced_candidate kind referenced) locations)).

Definition referenced_keys (ms : list CheckpointManifest) : gset ObjectKey :=
  list_to_set (m ← ms; (sr_object_key <$> state_objects m) ++ (or_object_key <$> output_objects m)).

Definition plan_garbage_collection (policy : GarbageCollectionPolicy) : publishing GarbageCollectionPlan :=
  _ ←! lift (fail_if (retain_latest_manifests policy =? 0)%nat InvalidGarbageCollectionPolicy);
  manifests ←! list_published_manifests;
  let retained_from := (length manifests - retain_latest_manifests policy)%nat in
  let retained := drop retained_from manifests in
  let referenced := referenced_keys retained in
  acc ←! add_unreferenced_candidates STATE_PREFIX RawStateObject referenced [];
  acc ←! add_unreferenced_candidates OUTPUT_PREFIX OutputObjectKind referenced acc;
  lift (Ok (GcPlan (checkpoint_version <$> retained) (merge_sort candidate_le acc))).

Definition execute_garbage_collection_plan (plan : GarbageCollectionPlan) : publishing GarbageCollectionReport :=
  lift (Err GarbageCollectionCoordinationRequired).

End publisher.
