(* ===== verification/CheckpointAdmin.v ===== *)
(** Records that administer checkpoints, [velorix-storage/src/state.rs]: the
    lifecycle, retention, garbage collection and recovery records of a manifest,
    inspection and repair, and garbage collection runs with their evidence.

    A reason that the source stores as the text of an error is kept as the
    error. *)
From Stdlib Require Import Ascii.
From stdpp Require Import sorting.
From S2P Require Import Prelude BTree Json Digits Segments ObjectKey Hash ObjectKeyProofs Manifest Capability ObjectStore CheckpointIndex Publisher.

Definition GC_RUN_PREFIX : string := "v1/gc-runs".

(** [str::parse::<u64>]. *)
Definition parse_u64 (s : string) : option Z := parse_unsigned (2 ^ 64 - 1) (default s (strip_prefix "+" s)).

Definition quoted_key (k : ObjectKey) : string := "`" +:+ as_str k +:+ "`".

Section admin.
Context `{Sha256, CheckpointCodec}.

Definition invalid_key (text : string) : CheckpointPublishError := KeyFailure (InvalidExternalKey text).

(** * Validation of the records *)

Definition validate_lifecycle_record (object_key : ObjectKey) (r : CheckpointLifecycleRecord) :
    result CheckpointPublishError unit :=
  let version := nat_to_string (lc_checkpoint_version r) in
  _ ← fail_if (negb (lifecycle_validate_schema r))
    (invalid_key ("unsupported checkpoint lifecycle schema version " +:+ nat_to_string (lc_schema_version r)));
  _ ← fail_if (bool_decide (object_key <> checkpoint_lifecycle_record (lc_checkpoint_version r)))
    (invalid_key ("checkpoint lifecycle key " +:+ quoted_key object_key +:+
      " does not match body checkpoint " +:+ version));
  fail_if (bool_decide (lc_manifest_key r <> checkpoint_manifest (lc_checkpoint_version r)))
    (invalid_key ("checkpoint lifecycle manifest key " +:+ quoted_key (lc_manifest_key r) +:+
      " does not match checkpoint " +:+ version)).

Definition validate_recovery_transition_record (object_key : ObjectKey)
    (r : CheckpointRecoveryTransitionRecordV1) : result CheckpointPublishError unit :=
  let version := nat_to_string (rv_checkpoint_version r) in
  _ ← fail_if (negb (recovery_validate_schema r))
    (invalid_key ("unsupported checkpoint recovery transition schema version " +:+
      nat_to_string (rv_schema_version r)));
  expected ← map_err KeyFailure
    (checkpoint_recovery_transition_record (rv_checkpoint_version r) (rv_transition_id r));
  _ ← fail_if (bool_decide (object_key <> expected))
    (invalid_key ("checkpoint recovery transition key " +:+ quoted_key object_key +:+
      " does not match body checkpoint " +:+ version +:+ " transition " +:+ rv_transition_id r));
  fail_if (bool_decide (rv_manifest_key r <> checkpoint_manifest (rv_checkpoint_version r)))
    (invalid_key ("checkpoint recovery transition manifest key " +:+ quoted_key (rv_manifest_key r) +:+
      " does not match checkpoint " +:+ version)).

Definition validate_gc_transition_record (object_key : ObjectKey) (r : CheckpointGcTransitionRecordV1) :
    result CheckpointPublishError unit :=
  let version := nat_to_string (gt_checkpoint_version r) in
  _ ← fail_if (negb (gc_transition_validate_schema r))
    (invalid_key ("unsupported checkpoint GC transition schema version " +:+ nat_to_string (gt_schema_version r)));
  expected ← map_err KeyFailure
    (checkpoint_gc_transition_record (gt_checkpoint_version r) (gt_transition_id r));
  _ ← fail_if (bool_decide (object_key <> expected))
    (invalid_key ("checkpoint GC transition key " +:+ quoted_key object_key +:+
      " does not match body checkpoint " +:+ version +:+ " transition " +:+ gt_transition_id r));
  _ ← fail_if (bool_decide (gt_manifest_key r <> checkpoint_manifest (gt_checkpoint_version r)))
    (invalid_key ("checkpoint GC transition manifest key " +:+ quoted_key (gt_manifest_key r) +:+
      " does not match checkpoint " +:+ version));
  run_key ← map_err KeyFailure (garbage_collection_run (gt_gc_run_id r));
  _ ← fail_if (bool_decide (gt_gc_run_key r <> run_key))
    (invalid_key ("checkpoint GC transition run key " +:+ quoted_key (gt_gc_run_key r) +:+
      " does not match run id " +:+ gt_gc_run_id r));
  _ ← fail_if (bool_decide (gt_retention_record_key r <> checkpoint_retention_record (gt_checkpoint_version r)))
    (invalid_key ("checkpoint GC transition retention key " +:+ quoted_key (gt_retention_record_key r) +:+
      " does not match checkpoint " +:+ version));
  fail_if (String.eqb (gt_emitter r) "" || negb (lacks "/"%char (gt_emitter r)))
    (invalid_key ("checkpoint GC transition emitter `" +:+ gt_emitter r +:+ "` is invalid")).

Definition validate_retention_record (object_key : ObjectKey) (r : CheckpointRetentionRecordV1) :
    result CheckpointPublishError unit :=
  let version := nat_to_string (rt_checkpoint_version r) in
  _ ← fail_if (negb (retention_validate_schema r))
    (invalid_key ("unsupported checkpoint retention schema version " +:+ nat_to_string (rt_schema_version r)));
  _ ← fail_if (bool_decide (object_key <> checkpoint_retention_record (rt_checkpoint_version r)))
    (invalid_key ("checkpoint retention key " +:+ quoted_key object_key +:+
      " does not match body checkpoint " +:+ version));
  _ ← fail_if (bool_decide (rt_manifest_key r <> checkpoint_manifest (rt_checkpoint_version r)))
    (invalid_key ("checkpoint retention manifest key " +:+ quoted_key (rt_manifest_key r) +:+
      " does not match checkpoint " +:+ version));
  _ ← map_err KeyFailure (garbage_collection_run (rt_gc_run_id r));
  Ok tt.

Definition same_retention_causal_fields (l r : CheckpointRetentionRecordV1) : bool :=
  (rt_schema_version l =? rt_schema_version r) && (rt_checkpoint_version l =? rt_checkpoint_version r) &&
  bool_decide (rt_manifest_key l = rt_manifest_key r) &&
  String.eqb (rt_manifest_digest l) (rt_manifest_digest r) &&
  String.eqb (rt_gc_run_id l) (rt_gc_run_id r) && bool_decide (rt_policy l = rt_policy r) &&
  bool_decide (rt_retained_manifest_versions l = rt_retained_manifest_versions r) &&
  bool_decide (rt_deleted_candidate_keys l = rt_deleted_candidate_keys r).

(** One status exists, so two statuses are equal. *)
Definition same_lifecycle_causal_fields (l r : CheckpointLifecycleRecord) : bool :=
  (lc_schema_version l =? lc_schema_version r) && (lc_checkpoint_version l =? lc_checkpoint_version r) &&
  bool_decide (lc_manifest_key l = lc_manifest_key r) &&
  String.eqb (lc_manifest_digest l) (lc_manifest_digest r) &&
  match lc_status l, lc_status r with Published, Published => true end.

Definition same_gc_transition_causal_fields (l r : CheckpointGcTransitionRecordV1) : bool :=
  (gt_schema_version l =? gt_schema_version r) && (gt_checkpoint_version l =? gt_checkpoint_version r) &&
  String.eqb (gt_transition_id l) (gt_transition_id r) &&
  bool_decide (gt_manifest_key l = gt_manifest_key r) &&
  String.eqb (gt_manifest_digest l) (gt_manifest_digest r) &&
  match gt_transition l, gt_transition r with PayloadReleased, PayloadReleased => true end &&
  String.eqb (gt_gc_run_id l) (gt_gc_run_id r) && bool_decide (gt_gc_run_key l = gt_gc_run_key r) &&
  String.eqb (gt_gc_run_digest l) (gt_gc_run_digest r) &&
  bool_decide (gt_retention_record_key l = gt_retention_record_key r) &&
  String.eqb (gt_retention_record_digest l) (gt_retention_record_digest r) &&
  bool_decide (gt_retained_manifest_versions l = gt_retained_manifest_versions r) &&
  bool_decide (gt_released_payload_keys l = gt_released_payload_keys r) &&
  String.eqb (gt_emitter l) (gt_emitter r).

Definition gc_transition_matches_retention_record
    (t : CheckpointGcTransitionRecordV1) (r : CheckpointRetentionRecordV1) : bool :=
  (gt_checkpoint_version t =? rt_checkpoint_version r) &&
  bool_decide (gt_manifest_key t = rt_manifest_key r) &&
  String.eqb (gt_manifest_digest t) (rt_manifest_digest r) &&
  String.eqb (gt_gc_run_id t) (rt_gc_run_id r) &&
  bool_decide (gt_retained_manifest_versions t = rt_retained_manifest_versions r) &&
  bool_decide (gt_released_payload_keys t = rt_deleted_candidate_keys r).

Definition checkpoint_gc_transition_id_for_gc_run (run_id : string) : result ObjectKeyError string :=
  _ ← garbage_collection_run run_id;
  Ok ("gc-retired-" +:+ run_id).

Definition checkpoint_admin_record_digest (label : string) (body : bytes) : string :=
  sha256_text (as_bytes label ++ [0] ++ body).

Definition retention_conflict_error (checkpoint_version : Z) : CheckpointPublishError :=
  invalid_key ("checkpoint retention record already exists with different causal fields for checkpoint " +:+
    nat_to_string checkpoint_version).

Definition kind_debug (kind : GarbageCollectionCandidateKind) : string :=
  match kind with RawStateObject => "RawStateObject" | OutputObjectKind => "OutputObject" end.

Definition candidate_kind_matches (object_key : ObjectKey) (_ : unit) (c : GarbageCollectionCandidate) :
    result CheckpointPublishError unit :=
  fail_if (negb (matches_key (gc_kind c) (gc_object_key c)))
    (InvalidGarbageCollectionRunEvidence object_key
      ("candidate kind " +:+ kind_debug (gc_kind c) +:+ " does not match object key " +:+
        quoted_key (gc_object_key c))).

Definition candidate_planned (object_key : ObjectKey) (plan : GarbageCollectionPlan) (_ : unit)
    (c : GarbageCollectionCandidate) : result CheckpointPublishError unit :=
  fail_if (bool_decide (c ∉ candidates plan))
    (InvalidGarbageCollectionRunEvidence object_key
      ("report candidate " +:+ quoted_key (gc_object_key c) +:+ " is not in the recorded plan")).

Definition validate_garbage_collection_run_evidence (object_key : ObjectKey) (expected_run_id : string)
    (run : GarbageCollectionRunV1) : result CheckpointPublishError unit :=
  let reported := deleted (gr_report run) ++ skipped (gr_report run) in
  _ ← fail_if (negb (gr_schema_version run =? GC_RUN_SCHEMA_VERSION))
    (InvalidGarbageCollectionRunEvidence object_key
      ("unsupported schema_version " +:+ nat_to_string (gr_schema_version run) +:+ ", expected " +:+
        nat_to_string GC_RUN_SCHEMA_VERSION));
  _ ← fail_if (negb (String.eqb (gr_run_id run) expected_run_id))
    (InvalidGarbageCollectionRunEvidence object_key
      ("run_id " +:+ gr_run_id run +:+ " does not match requested run_id " +:+ expected_run_id));
  _ ← fail_if (retain_latest_manifests (gr_policy run) =? 0)%nat
    (InvalidGarbageCollectionRunEvidence object_key "retain_latest_manifests must be greater than zero");
  _ ← try_fold (candidate_kind_matches object_key) tt (candidates (gr_plan run) ++ reported);
  try_fold (candidate_planned object_key (gr_plan run)) tt reported.

(** * Reading the records *)

Definition read_checkpoint_lifecycle_record (checkpoint_version : Z) : publishing CheckpointLifecycleRecord :=
  let object_key := checkpoint_lifecycle_record checkpoint_version in
  body ←! fetch (as_str object_key);
  record ←! lift (ok_or JsonFailure (lifecycle_from_slice body));
  _ ←! lift (validate_lifecycle_record object_key record);
  lift (Ok record).

Definition read_checkpoint_retention_record (checkpoint_version : Z) : publishing CheckpointRetentionRecordV1 :=
  let object_key := checkpoint_retention_record checkpoint_version in
  body ←! fetch (as_str object_key);
  record ←! lift (ok_or JsonFailure (retention_from_slice body));
  _ ←! lift (validate_retention_record object_key record);
  lift (Ok record).

Definition of_transition (r : CheckpointGcTransitionRecordV1) : string :=
  " for checkpoint " +:+ nat_to_string (gt_checkpoint_version r) +:+ " transition " +:+ gt_transition_id r.

Definition read_checkpoint_gc_transition_record (checkpoint_version : Z) (transition_id : string) :
    publishing CheckpointGcTransitionRecordV1 :=
  object_key ←! lift (map_err KeyFailure (checkpoint_gc_transition_record checkpoint_version transition_id));
  body ←! fetch (as_str object_key);
  record ←! lift (ok_or JsonFailure (gc_transition_from_slice body));
  _ ←! lift (validate_gc_transition_record object_key record);
  manifest_bytes ←! fetch (as_str (gt_manifest_key record));
  _ ←! lift (fail_if (negb (String.eqb (gt_manifest_digest record) (manifest_digest manifest_bytes)))
    (invalid_key ("checkpoint GC transition manifest digest mismatch" +:+ of_transition record +:+
      ": expected " +:+ manifest_digest manifest_bytes +:+ ", actual " +:+ gt_manifest_digest record)));
  gc_run_bytes ←! fetch (as_str (gt_gc_run_key record));
  let expected_gc_run_digest := checkpoint_admin_record_digest "velorix.gc-run.v1" gc_run_bytes in
  _ ←! lift (fail_if (negb (String.eqb (gt_gc_run_digest record) expected_gc_run_digest))
    (invalid_key ("checkpoint GC transition run digest mismatch" +:+ of_transition record +:+
      ": expected " +:+ expected_gc_run_digest +:+ ", actual " +:+ gt_gc_run_digest record)));
  run ←! lift (ok_or JsonFailure (gc_run_from_slice gc_run_bytes));
  _ ←! lift (validate_garbage_collection_run_evidence (gt_gc_run_key record) (gt_gc_run_id record) run);
  retention_record_bytes ←! fetch (as_str (gt_retention_record_key record));
  let expected_retention_digest :=
    checkpoint_admin_record_digest "velorix.checkpoint-retention.v1" retention_record_bytes in
  _ ←! lift (fail_if (negb (String.eqb (gt_retention_record_digest record) expected_retention_digest))
    (invalid_key ("checkpoint GC transition retention digest mismatch" +:+ of_transition record +:+
      ": expected " +:+ expected_retention_digest +:+ ", actual " +:+ gt_retention_record_digest record)));
  retention_record ←! lift (ok_or JsonFailure (retention_from_slice retention_record_bytes));
  _ ←! lift (validate_retention_record (gt_retention_record_key record) retention_record);
  _ ←! lift (fail_if (negb (gc_transition_matches_retention_record record retention_record))
    (invalid_key ("checkpoint GC transition causal fields do not match retention record" +:+
      of_transition record)));
  lift (Ok record).

Definition read_checkpoint_recovery_transition_record (checkpoint_version : Z) (transition_id : string) :
    publishing CheckpointRecoveryTransitionRecordV1 :=
  object_key ←! lift (map_err KeyFailure
    (checkpoint_recovery_transition_record checkpoint_version transition_id));
  body ←! fetch (as_str object_key);
  record ←! lift (ok_or JsonFailure (recovery_from_slice body));
  _ ←! lift (validate_recovery_transition_record object_key record);
  manifest_bytes ←! fetch (as_str (rv_manifest_key record));
  _ ←! lift (fail_if (negb (String.eqb (rv_manifest_digest record) (manifest_digest manifest_bytes)))
    (invalid_key ("checkpoint recovery transition manifest digest mismatch for checkpoint " +:+
      nat_to_string (rv_checkpoint_version record) +:+ " transition " +:+ rv_transition_id record +:+
      ": expected " +:+ manifest_digest manifest_bytes +:+ ", actual " +:+ rv_manifest_digest record)));
  lift (Ok record).

Definition read_latest_candidate_marker : prog (option LatestCandidateMarker) :=
  bind (request (Get (as_str checkpoint_latest_candidate_marker))) (fun r =>
    Ret (match r with Ok body => marker_from_slice body | Err _ => None end)).

Definition read_published_checkpoint_manifest (version : Z) : publishing CheckpointManifest :=
  let key := checkpoint_manifest version in
  manifest_bytes ←! fetch (as_str key);
  manifest ←! lift (decode_manifest key manifest_bytes);
  _ ←! lift (fail_if (negb (checkpoint_version manifest =? version))
    (invalid_key ("checkpoint manifest key version " +:+ nat_to_string version +:+
      " does not match body version " +:+ nat_to_string (checkpoint_version manifest))));
  _ ←! validate_parent_manifest_visible manifest;
  _ ←! validate_state_objects_exist manifest;
  _ ←! validate_output_objects_exist manifest;
  lifecycle ←! read_checkpoint_lifecycle_record version;
  let expected_digest := manifest_digest manifest_bytes in
  _ ←! lift (match lc_status lifecycle with Published => Ok tt end);
  _ ←! lift (fail_if (negb (String.eqb (lc_manifest_digest lifecycle) expected_digest))
    (invalid_key ("checkpoint lifecycle manifest digest mismatch for checkpoint " +:+ nat_to_string version +:+
      ": expected " +:+ expected_digest +:+ ", actual " +:+ lc_manifest_digest lifecycle)));
  lift (Ok manifest).

(** * Recovery transitions *)

Definition write_checkpoint_recovery_transition_record_with_id (version : Z) (transition_id : string)
    (recovery_mode : CheckpointRecoveryMode) (replay_checkpoint_count replayed_batch_count : Z) :
    publishing CheckpointRecoveryTransitionRecordV1 :=
  manifest_bytes ←! fetch (as_str (checkpoint_manifest version));
  manifest ←! read_published_checkpoint_manifest version;
  bind marker_updated_at_now (fun recovered_at =>
    let record := recovery_for_manifest manifest manifest_bytes transition_id recovery_mode
      replay_checkpoint_count replayed_batch_count recovered_at in
    object_key ←! lift (map_err KeyFailure
      (checkpoint_recovery_transition_record version (rv_transition_id record)));
    body ←! lift (ok_or JsonFailure (recovery_to_vec record));
    bind (request (PutCreate (as_str object_key) body)) (fun r =>
      lift (match r with
            | Ok _ => Ok record
            | Err AlreadyExists => Err (CheckpointRecoveryTransitionAlreadyExists object_key)
            | Err e => Err (ObjectStoreFailure e)
            end))).

Definition write_checkpoint_recovery_transition_record (sequence version : Z)
    (recovery_mode : CheckpointRecoveryMode) (replay_checkpoint_count replayed_batch_count : Z) :
    publishing CheckpointRecoveryTransitionRecordV1 :=
  bind (recovery_transition_id_now sequence) (fun transition_id =>
    write_checkpoint_recovery_transition_record_with_id version transition_id recovery_mode
      replay_checkpoint_count replayed_batch_count).

(** * Retention records *)

(** One manifest of the loop of [retention_records_for_deleted_keys]. *)
Definition retention_record_for (run_id : string) (policy : GarbageCollectionPolicy) (retained : list Z)
    (deleted_keys : gset ObjectKey) (m : CheckpointManifest) : publishing (option CheckpointRetentionRecordV1) :=
  if bool_decide (checkpoint_version m ∈ (list_to_set retained : gset Z)) then lift (Ok None)
  else
    match filter (fun key => key ∈ deleted_keys)
            ((sr_object_key <$> state_objects m) ++ (or_object_key <$> output_objects m)) with
    | [] => lift (Ok None)
    | manifest_deleted_keys =>
        manifest_bytes ←! fetch (as_str (manifest_key m));
        bind marker_updated_at_now (fun now =>
          lift (Ok (Some (retention_for_manifest m manifest_bytes run_id policy retained
                            manifest_deleted_keys now))))
    end.

Definition retention_records_for_deleted_keys (run_id : string) (policy : GarbageCollectionPolicy)
    (retained : list Z) (deleted_keys : gset ObjectKey) : publishing (list CheckpointRetentionRecordV1) :=
  if bool_decide (deleted_keys = ∅) then lift (Ok [])
  else
    manifests ←! list_published_manifests;
    records ←! collect (retention_record_for run_id policy retained deleted_keys) manifests;
    lift (Ok (omap id records)).

Definition write_checkpoint_retention_record (record : CheckpointRetentionRecordV1) : publishing unit :=
  let object_key := checkpoint_retention_record (rt_checkpoint_version record) in
  _ ←! lift (validate_retention_record object_key record);
  body ←! lift (ok_or JsonFailure (retention_to_vec record));
  bind (request (PutCreate (as_str object_key) body)) (fun r =>
    match r with
    | Ok _ => lift (Ok tt)
    | Err AlreadyExists =>
        existing ←! read_checkpoint_retention_record (rt_checkpoint_version record);
        lift (if same_retention_causal_fields existing record then Ok tt
              else Err (retention_conflict_error (rt_checkpoint_version record)))
    | Err e => lift (Err (ObjectStoreFailure e))
    end).

(** [expect] in [payload_released_from_retention_record] holds: the key of the
    run was built before. *)
Definition write_payload_released_gc_transition_for_retention_record
    (retention : CheckpointRetentionRecordV1) : publishing unit :=
  transition_id ←! lift (map_err KeyFailure (checkpoint_gc_transition_id_for_gc_run (rt_gc_run_id retention)));
  gc_run_key ←! lift (map_err KeyFailure (garbage_collection_run (rt_gc_run_id retention)));
  gc_run_bytes ←! fetch (as_str gc_run_key);
  retention_record_bytes ←! fetch (as_str (checkpoint_retention_record (rt_checkpoint_version retention)));
  bind marker_updated_at_now (fun created_at =>
    record ←! lift (map_err KeyFailure (payload_released_from_retention_record retention transition_id
      (checkpoint_admin_record_digest "velorix.gc-run.v1" gc_run_bytes)
      (checkpoint_admin_record_digest "velorix.checkpoint-retention.v1" retention_record_bytes)
      created_at "checkpoint-publisher-gc"));
    object_key ←! lift (map_err KeyFailure
      (checkpoint_gc_transition_record (gt_checkpoint_version record) (gt_transition_id record)));
    _ ←! lift (validate_gc_transition_record object_key record);
    body ←! lift (ok_or JsonFailure (gc_transition_to_vec record));
    bind (request (PutCreate (as_str object_key) body)) (fun r =>
      match r with
      | Ok _ => lift (Ok tt)
      | Err AlreadyExists =>
          bind (read_checkpoint_gc_transition_record (gt_checkpoint_version record) (gt_transition_id record))
            (fun existing =>
              lift (match existing with
                    | Ok existing =>
                        if same_gc_transition_causal_fields existing record then Ok tt
                        else Err (CheckpointGcTransitionConflict object_key)
                    | Err _ => Err (CheckpointGcTransitionConflict object_key)
                    end))
      | Err e => lift (Err (ObjectStoreFailure e))
      end)).

Definition keys_of (cs : list GarbageCollectionCandidate) : gset ObjectKey := list_to_set (gc_object_key <$> cs).

Definition publish_retention_records_for_run (run : GarbageCollectionRunV1) : publishing unit :=
  records ←! retention_records_for_deleted_keys (gr_run_id run) (gr_policy run)
    (retained_manifest_versions (gr_plan run)) (keys_of (deleted (gr_report run)));
  for_each (fun record =>
    _ ←! write_checkpoint_retention_record record;
    write_payload_released_gc_transition_for_retention_record record) records.

(** * Garbage collection runs *)

Definition validate_no_conflicting_retention_records (run_id : string) (policy : GarbageCollectionPolicy)
    (plan : GarbageCollectionPlan) : publishing unit :=
  records ←! retention_records_for_deleted_keys run_id policy (retained_manifest_versions plan)
    (keys_of (candidates plan));
  for_each (fun expected =>
    bind (read_checkpoint_retention_record (rt_checkpoint_version expected)) (fun r =>
      lift (match r with
            | Ok existing =>
                if same_retention_causal_fields existing expected then Ok tt
                else Err (retention_conflict_error (rt_checkpoint_version expected))
            | Err (ObjectStoreFailure NotFound) => Ok tt
            | Err e => Err e
            end))) records.

Definition validate_no_conflicting_gc_transition_records (run_id : string) (policy : GarbageCollectionPolicy)
    (plan : GarbageCollectionPlan) : publishing unit :=
  transition_id ←! lift (map_err KeyFailure (checkpoint_gc_transition_id_for_gc_run run_id));
  records ←! retention_records_for_deleted_keys run_id policy (retained_manifest_versions plan)
    (keys_of (candidates plan));
  for_each (fun expected =>
    object_key ←! lift (map_err KeyFailure
      (checkpoint_gc_transition_record (rt_checkpoint_version expected) transition_id));
    bind (request (Head (as_str object_key))) (fun r =>
      lift (match r with
            | Ok _ => Err (CheckpointGcTransitionConflict object_key)
            | Err NotFound => Ok tt
            | Err e => Err (ObjectStoreFailure e)
            end))) records.

Definition read_garbage_collection_run_evidence (run_id : string) : publishing GarbageCollectionRunV1 :=
  object_key ←! lift (map_err KeyFailure (garbage_collection_run run_id));
  body ←! fetch (as_str object_key);
  run ←! lift (ok_or JsonFailure (gc_run_from_slice body));
  _ ←! lift (validate_garbage_collection_run_evidence object_key run_id run);
  lift (Ok run).

Definition garbage_collection_candidate_keys (plan : GarbageCollectionPlan) : list ObjectKey :=
  gc_object_key <$> candidates plan.

Definition execute_garbage_collection_plan_with_evidence (run_id : string) (policy : GarbageCollectionPolicy)
    (plan : GarbageCollectionPlan) : publishing GarbageCollectionRunV1 :=
  object_key ←! lift (map_err KeyFailure (garbage_collection_run run_id));
  _ ←! bind (request (Head (as_str object_key))) (fun r =>
    lift (match r with
          | Ok _ => Err (GarbageCollectionRunAlreadyExists object_key)
          | Err NotFound => Ok tt
          | Err e => Err (ObjectStoreFailure e)
          end));
  expected_plan ←! plan_garbage_collection policy;
  _ ←! lift (fail_if (bool_decide (expected_plan <> plan))
    (GarbageCollectionPlanPolicyMismatch (retain_latest_manifests policy)
      (retained_manifest_versions expected_plan) (retained_manifest_versions plan)
      (garbage_collection_candidate_keys expected_plan) (garbage_collection_candidate_keys plan)));
  _ ←! validate_no_conflicting_retention_records run_id policy plan;
  _ ←! validate_no_conflicting_gc_transition_records run_id policy plan;
  report ←! execute_garbage_collection_plan plan;
  let run := GcRun GC_RUN_SCHEMA_VERSION run_id policy plan report in
  body ←! lift (ok_or JsonFailure (gc_run_to_vec run));
  _ ←! bind (request (PutCreate (as_str object_key) body)) (fun r => lift (map_err ObjectStoreFailure r));
  restored ←! read_garbage_collection_run_evidence run_id;
  _ ←! lift (fail_if (bool_decide (restored <> run))
    (InvalidGarbageCollectionRunEvidence object_key "persisted body does not match executed run"));
  _ ←! publish_retention_records_for_run restored;
  lift (Ok restored).

Definition verify_garbage_collection_run_is_listed (object_key : ObjectKey) : publishing unit :=
  locations ←! listing GC_RUN_PREFIX;
  lift (fail_if (bool_decide (as_str object_key ∉ locations))
    (InvalidGarbageCollectionRunEvidence object_key "run evidence is not visible in v1/gc-runs listing")).

(** One record of the loop of the verification below. *)
Definition verify_retention_record (object_key : ObjectKey) (transition_id : string)
    (expected : CheckpointRetentionRecordV1) : publishing unit :=
  let version := nat_to_string (rt_checkpoint_version expected) in
  existing ←! bind (read_checkpoint_retention_record (rt_checkpoint_version expected)) (fun r =>
    lift (map_err (fun e => match e with
      | ObjectStoreFailure NotFound =>
          InvalidGarbageCollectionRunEvidence object_key
            ("missing checkpoint retention record for checkpoint " +:+ version)
      | e => e
      end) r));
  _ ←! lift (fail_if (negb (same_retention_causal_fields existing expected))
    (InvalidGarbageCollectionRunEvidence object_key
      ("checkpoint retention record for checkpoint " +:+ version +:+ " does not match run evidence")));
  bind (read_checkpoint_gc_transition_record (rt_checkpoint_version expected) transition_id) (fun r =>
    lift (match r with
          | Ok _ => Ok tt
          | Err (ObjectStoreFailure NotFound) =>
              Err (InvalidGarbageCollectionRunEvidence object_key
                ("missing checkpoint GC transition record for checkpoint " +:+ version))
          | Err e => Err e
          end)).

Definition verify_retention_records_for_garbage_collection_run (object_key : ObjectKey)
    (run : GarbageCollectionRunV1) : publishing unit :=
  transition_id ←! lift (map_err KeyFailure (checkpoint_gc_transition_id_for_gc_run (gr_run_id run)));
  records ←! retention_records_for_deleted_keys (gr_run_id run) (gr_policy run)
    (retained_manifest_versions (gr_plan run)) (keys_of (deleted (gr_report run)));
  for_each (verify_retention_record object_key transition_id) records.

Definition verify_garbage_collection_run_retention_evidence (run_id : string) : publishing GarbageCollectionRunV1 :=
  object_key ←! lift (map_err KeyFailure (garbage_collection_run run_id));
  run ←! read_garbage_collection_run_evidence run_id;
  _ ←! verify_garbage_collection_run_is_listed object_key;
  _ ←! verify_retention_records_for_garbage_collection_run object_key run;
  lift (Ok run).

Definition retention_record_matches_gc_run (record : CheckpointRetentionRecordV1) : prog bool :=
  bind (read_garbage_collection_run_evidence (rt_gc_run_id record)) (fun r =>
    match r with
    | Err _ => Ret false
    | Ok run =>
        bind (retention_records_for_deleted_keys (gr_run_id run) (gr_policy run)
               (retained_manifest_versions (gr_plan run)) (keys_of (deleted (gr_report run)))) (fun r =>
          Ret (match r with
               | Err _ => false
               | Ok expected_records =>
                   match List.find (fun expected => rt_checkpoint_version expected =? rt_checkpoint_version record)
                           expected_records with
                   | Some expected => same_retention_causal_fields expected record
                   | None => false
                   end
               end))
    end).

(** * Inspection *)

(** Why a manifest is not valid: the error whose text is reported, or a key and
    a body of different versions. *)
Inductive inspection_reason :=
| Reported (error : CheckpointPublishError)
| BodyVersionMismatch (key_version body_version : Z).

Inductive CheckpointManifestInspectionStatus := Valid | Invalid (reason : inspection_reason).

Record CheckpointManifestInspection := Inspection {
  ci_checkpoint_version : Z;
  ci_manifest_key : ObjectKey;
  ci_lifecycle_status : option CheckpointLifecycleStatus;
  ci_gc_transition_records : list CheckpointGcTransitionRecordV1;
  ci_retention_record : option CheckpointRetentionRecordV1;
  ci_recovery_transition_records : list CheckpointRecoveryTransitionRecordV1;
  ci_status : CheckpointManifestInspectionStatus
}.

Record CheckpointAdminInspection := AdminInspection {
  latest_valid_checkpoint : option Z;
  inspected_manifests : list CheckpointManifestInspection
}.

Record InspectableCheckpointManifest := Inspectable {
  im_manifest : CheckpointManifest;
  im_lifecycle_status : option CheckpointLifecycleStatus;
  im_gc_transition_records : list CheckpointGcTransitionRecordV1;
  im_retention_record : option CheckpointRetentionRecordV1;
  im_recovery_transition_records : list CheckpointRecoveryTransitionRecordV1;
  im_payload_status : result inspection_reason unit
}.

Definition checkpoint_version_from_manifest_key (object_key : ObjectKey) : result ObjectKeyError Z :=
  let value := as_str object_key in
  ok_or (InvalidExternalKey value)
    (version ← strip_prefix "v1/checkpoints/" value;
     version ← strip_suffix ".manifest" version;
     parse_u64 version).

Definition transition_prefix (probe : result ObjectKeyError ObjectKey) : result ObjectKeyError string :=
  probe ← probe;
  ok_or (InvalidExternalKey (as_str probe)) (strip_suffix "probe.transition.json" (as_str probe)).

Definition checkpoint_recovery_transition_prefix (checkpoint_version : Z) : result ObjectKeyError string :=
  transition_prefix (checkpoint_recovery_transition_record checkpoint_version "probe").

Definition checkpoint_gc_transition_prefix (checkpoint_version : Z) : result ObjectKeyError string :=
  transition_prefix (checkpoint_gc_transition_record checkpoint_version "probe").

(** [continue] is [None]. *)
Definition listed_gc_transition (m : CheckpointManifest) (manifest_bytes : bytes)
    (retention_record : CheckpointRetentionRecordV1) (gc_run_key : ObjectKey)
    (gc_run_digest retention_record_digest : string) (location : string) :
    publishing (option CheckpointGcTransitionRecordV1) :=
  match parse location with
  | Err _ => lift (Ok None)
  | Ok object_key =>
      body ←! fetch location;
      lift (Ok (record ← gc_transition_from_slice body;
        match validate_gc_transition_record object_key record with
        | Err _ => None
        | Ok _ =>
            if bool_decide (gt_manifest_key record = manifest_key m) &&
               String.eqb (gt_manifest_digest record) (manifest_digest manifest_bytes) &&
               bool_decide (gt_gc_run_key record = gc_run_key) &&
               String.eqb (gt_gc_run_digest record) gc_run_digest &&
               bool_decide (gt_retention_record_key record =
                 checkpoint_retention_record (rt_checkpoint_version retention_record)) &&
               String.eqb (gt_retention_record_digest record) retention_record_digest &&
               gc_transition_matches_retention_record record retention_record
            then Some record else None
        end))
  end.

Definition transition_id_le {A} (id_of : A -> string) (a b : A) : Prop := cmp (id_of a) (id_of b) <> Gt.
#[export] Instance transition_id_le_dec {A} (id_of : A -> string) : RelDecision (transition_id_le id_of).
Proof. intros a b. unfold transition_id_le. apply _. Defined.

Definition list_checkpoint_gc_transition_records (m : CheckpointManifest) (manifest_bytes : bytes)
    (retention_record : option CheckpointRetentionRecordV1) : publishing (list CheckpointGcTransitionRecordV1) :=
  match retention_record with
  | None => lift (Ok [])
  | Some retention_record =>
      prefix ←! lift (map_err KeyFailure (checkpoint_gc_transition_prefix (checkpoint_version m)));
      locations ←! listing (path_from prefix);
      gc_run_key ←! lift (map_err KeyFailure (garbage_collection_run (rt_gc_run_id retention_record)));
      gc_run_bytes ←! fetch (as_str gc_run_key);
      let gc_run_digest := checkpoint_admin_record_digest "velorix.gc-run.v1" gc_run_bytes in
      retention_record_bytes ←!
        fetch (as_str (checkpoint_retention_record (rt_checkpoint_version retention_record)));
      let retention_record_digest :=
        checkpoint_admin_record_digest "velorix.checkpoint-retention.v1" retention_record_bytes in
      records ←! collect (listed_gc_transition m manifest_bytes retention_record gc_run_key gc_run_digest
        retention_record_digest) locations;
      lift (Ok (merge_sort (transition_id_le gt_transition_id) (omap id records)))
  end.

Definition listed_recovery_transition (m : CheckpointManifest) (manifest_bytes : bytes) (location : string) :
    publishing (option CheckpointRecoveryTransitionRecordV1) :=
  match parse location with
  | Err _ => lift (Ok None)
  | Ok object_key =>
      body ←! fetch location;
      lift (Ok (record ← recovery_from_slice body;
        match validate_recovery_transition_record object_key record with
        | Err _ => None
        | Ok _ =>
            if bool_decide (rv_manifest_key record = manifest_key m) &&
               String.eqb (rv_manifest_digest record) (manifest_digest manifest_bytes)
            then Some record else None
        end))
  end.

Definition list_checkpoint_recovery_transition_records (m : CheckpointManifest) (manifest_bytes : bytes) :
    publishing (list CheckpointRecoveryTransitionRecordV1) :=
  prefix ←! lift (map_err KeyFailure (checkpoint_recovery_transition_prefix (checkpoint_version m)));
  locations ←! listing (path_from prefix);
  records ←! collect (listed_recovery_transition m manifest_bytes) locations;
  lift (Ok (merge_sort (transition_id_le rv_transition_id) (omap id records))).

Definition reported {A} (p : publishing A) : prog (result inspection_reason A) :=
  bind p (fun r => Ret (map_err Reported r)).

(** The parent is among the manifests inspected before. *)
Definition inspect_lineage (lineage_manifests : gmap Z CheckpointManifest) (m : CheckpointManifest) :
    result CheckpointPublishError unit :=
  match parent_checkpoint m with
  | None => Ok tt
  | Some parent_checkpoint =>
      parent ← ok_or (MissingParentManifest (checkpoint_version m) parent_checkpoint)
        (lineage_manifests !! parent_checkpoint);
      validate_child_input_progress m parent
  end.

Definition inspect_checkpoint_manifest (version : Z) (object_key : ObjectKey) (location : string)
    (lineage_manifests : gmap Z CheckpointManifest) :
    prog (result inspection_reason InspectableCheckpointManifest) :=
  manifest_bytes ←! reported (fetch location);
  manifest ←! reported (lift (decode_manifest object_key manifest_bytes));
  _ ←! Ret (fail_if (negb (checkpoint_version manifest =? version))
    (BodyVersionMismatch version (checkpoint_version manifest)));
  _ ←! reported (lift (inspect_lineage lineage_manifests manifest));
  bind (_ ←! reported (validate_state_objects_exist manifest);
        reported (validate_output_objects_exist manifest)) (fun payload_status =>
  bind (read_checkpoint_lifecycle_record version) (fun lifecycle =>
  let lifecycle_status :=
    match lifecycle with
    | Ok record =>
        if String.eqb (lc_manifest_digest record) (manifest_digest manifest_bytes)
        then Some (lc_status record) else None
    | Err _ => None
    end in
  bind (read_checkpoint_retention_record version) (fun retention =>
  bind (match retention with
        | Ok record =>
            if String.eqb (rt_manifest_digest record) (manifest_digest manifest_bytes)
            then bind (retention_record_matches_gc_run record) (fun matches =>
              Ret (if matches : bool then Some record else None))
            else Ret None
        | Err _ => Ret None
        end) (fun retention_record =>
  bind (list_checkpoint_gc_transition_records manifest manifest_bytes retention_record) (fun transitions =>
  let gc_transition_records := match transitions with Ok records => records | Err _ => [] end in
  recovery_transition_records ←! reported (list_checkpoint_recovery_transition_records manifest manifest_bytes);
  Ret (Ok (Inspectable manifest lifecycle_status gc_transition_records retention_record
             recovery_transition_records payload_status))))))).

(** The manifests seen so far, the inspections and the newest valid version. *)
Record inspection_state := Inspecting {
  seen_manifests : gmap Z CheckpointManifest;
  inspections : list CheckpointManifestInspection;
  newest_valid : option Z
}.

Definition inspect_one (st : inspection_state) (object : Z * ObjectKey * string) :
    publishing inspection_state :=
  let '(version, object_key, location) := object in
  bind (inspect_checkpoint_manifest version object_key location (seen_manifests st)) (fun r =>
    lift (Ok (match r with
      | Ok i =>
          let version := checkpoint_version (im_manifest i) in
          let inspection status := Inspection version object_key (im_lifecycle_status i)
            (im_gc_transition_records i) (im_retention_record i) (im_recovery_transition_records i) status in
          let seen := <[version := im_manifest i]> (seen_manifests st) in
          match im_payload_status i with
          | Ok _ => Inspecting seen (inspections st ++ [inspection Valid]) (Some version)
          | Err reason => Inspecting seen (inspections st ++ [inspection (Invalid reason)]) (newest_valid st)
          end
      | Err reason =>
          Inspecting (seen_manifests st)
            (inspections st ++ [Inspection version object_key None [] None [] (Invalid reason)]) (newest_valid st)
      end))).

Definition manifest_object (location : string) : result CheckpointPublishError (Z * ObjectKey * string) :=
  object_key ← map_err KeyFailure (parse location);
  version ← map_err KeyFailure (checkpoint_version_from_manifest_key object_key);
  Ok (version, object_key, location).

Definition object_version_le (a b : Z * ObjectKey * string) : Prop := a.1.1 <= b.1.1.
#[export] Instance object_version_le_dec : RelDecision object_version_le.
Proof. intros a b. unfold object_version_le. apply _. Defined.

Definition inspect_checkpoints : publishing CheckpointAdminInspection :=
  locations ←! listing CHECKPOINT_PREFIX;
  manifest_objects ←! lift (try_map manifest_object locations);
  st ←! fold_each inspect_one (Inspecting ∅ [] None) (merge_sort object_version_le manifest_objects);
  lift (Ok (AdminInspection (newest_valid st) (inspections st))).

(** * Repair *)

Definition repair_latest_candidate_marker : publishing (option LatestCandidateMarker) :=
  inspection ←! inspect_checkpoints;
  match latest_valid_checkpoint inspection with
  | None => lift (Ok None)
  | Some version =>
      let key := checkpoint_manifest version in
      manifest_bytes ←! fetch (as_str key);
      manifest ←! lift (decode_manifest key manifest_bytes);
      _ ←! validate_parent_manifest_visible manifest;
      _ ←! validate_state_objects_exist manifest;
      _ ←! validate_output_objects_exist manifest;
      bind marker_updated_at_now (fun now =>
      let marker := marker_for_manifest manifest manifest_bytes now in
      let marker_path := as_str checkpoint_latest_candidate_marker in
      bind (request (Get marker_path)) (fun existing =>
        if newer_marker (mk_checkpoint_version marker) existing then lift (Ok (Some marker))
        else
          body ←! lift (ok_or JsonFailure (marker_to_vec marker));
          _ ←! bind (request (Put marker_path body)) (fun r => lift (map_err ObjectStoreFailure r));
          lift (Ok (Some marker))))
  end.

(** One valid manifest of the loop of [repair_checkpoint_lifecycle_records]. *)
Definition repair_lifecycle_record (version : Z) : publishing (option CheckpointLifecycleRecord) :=
  manifest_bytes ←! fetch (as_str (checkpoint_manifest version));
  manifest ←! lift (ok_or JsonFailure (manifest_from_slice manifest_bytes));
  _ ←! lift (map_err ManifestFailure (validate manifest));
  bind marker_updated_at_now (fun now =>
  let expected := lifecycle_published manifest manifest_bytes now in
  bind (read_checkpoint_lifecycle_record version) (fun existing =>
    let needs_repair :=
      match existing with
      | Ok existing => negb (same_lifecycle_causal_fields existing expected)
      | Err _ => true
      end in
    if negb needs_repair then lift (Ok None)
    else
      body ←! lift (ok_or JsonFailure (lifecycle_to_vec expected));
      _ ←! bind (request (Put (as_str (checkpoint_lifecycle_record version)) body))
        (fun r => lift (map_err ObjectStoreFailure r));
      lift (Ok (Some expected)))).

Definition is_valid (i : CheckpointManifestInspection) : bool :=
  match ci_status i with Valid => true | Invalid _ => false end.

Definition repair_checkpoint_lifecycle_records : publishing (list CheckpointLifecycleRecord) :=
  inspection ←! inspect_checkpoints;
  repaired ←! collect repair_lifecycle_record
    (ci_checkpoint_version <$> List.filter is_valid (inspected_manifests inspection));
  lift (Ok (omap id repaired)).

Record CheckpointAdminRepairReport := RepairReport {
  lifecycle_records_repaired : list CheckpointLifecycleRecord;
  latest_candidate_marker : option LatestCandidateMarker
}.

Definition repair_checkpoint_admin_records : publishing CheckpointAdminRepairReport :=
  repaired ←! repair_checkpoint_lifecycle_records;
  marker ←! repair_latest_candidate_marker;
  lift (Ok (RepairReport repaired marker)).

(** * Construction and release *)

(** The capability checks of [new_checked] and [new_authoritative]. *)
Definition new_checked (profile : Capability.ObjectStoreCapabilityProfile) :
    result Capability.ObjectStoreCapabilityError unit :=
  Capability.validate_for_velorix_durability profile.

Definition new_authoritative (capabilities : Capability.AuthoritativeObjectStoreCapabilitiesV1) :
    result CheckpointPublishError unit :=
  map_err AuthoritativeCapabilityFailure
    (Capability.validate_checkpoint_publisher_authoritative_namespaces capabilities).

(** A method of the state store that the publisher does not call. *)
Definition release_state_object (s : StateObjectRef) : publishing bool :=
  bind (request (Delete (as_str (sr_object_key s)))) (fun r =>
    lift (match r with
          | Ok _ => Ok true
          | Err NotFound => Ok false
          | Err e => Err (ObjectStoreFailure e)
          end)).
End admin.
