(* ===== verification/PublisherProofs.v ===== *)
(** Correctness of the checkpoint publisher under interference.

    Publishers never delete an object, and overwrite none but the marker and the
    lifecycle records ([grows]), and the published manifests form a chain ([chain]): each is valid,
    refers to objects that exist, and covers the input progress of its parent,
    which is published. Every operation keeps both, whatever runs next to it. *)
From stdpp Require Import sorting.
From S2P Require Import Prelude BTree Json Digits Segments ObjectKey Hash ObjectKeyProofs Manifest ObjectStore CheckpointIndex Publisher.

(** Programs that only read, by their structure. *)
Ltac read_only :=
  repeat match goal with
  | |- forall _, _ => intros ?
  | |- read_only (Ret _) => exact I
  | |- read_only (lift _) => exact I
  | |- read_only (request _) => by apply read_only_request
  | |- read_only (and_then _ _) => apply read_only_and_then
  | |- read_only (bind _ _) => apply read_only_bind
  | |- read_only (for_each _ _) => apply read_only_for_each
  | |- read_only (collect _ _) => apply read_only_collect
  | |- read_only (gather _ _) => apply read_only_gather
  | |- read_only (fold_each _ _ _) => apply read_only_fold_each
  | |- read_only (match ?x with _ => _ end) => destruct x
  | |- read_only (fetch _) => unfold fetch
  | |- read_only (listing _) => unfold listing
  | |- _ => progress auto with programs
  end.

(** * Keys *)

Definition manifest_location (version : Z) : string := as_str (checkpoint_manifest version).
Definition marker_location : string := as_str checkpoint_latest_candidate_marker.

(** The location is the key of a typed artifact. *)
Definition located (a : artifact) (l : string) : Prop := typed a /\ build a = Ok (Key l).

Lemma located_inj a b l : located a l -> located b l -> a = b.
Proof. intros [? ?] [? ?]. by eapply build_inj. Qed.

Lemma located_manifest v : is_u64 v = true -> located (CheckpointManifestObject v) (manifest_location v).
Proof. done. Qed.
Lemma located_marker : located CheckpointLatestCandidateMarker marker_location.
Proof. done. Qed.

Lemma located_ne a b l l' : located a l -> located b l' -> a <> b -> l <> l'.
Proof. intros Ha Hb Hne ->. by apply Hne, (located_inj a b l'). Qed.

Lemma manifest_location_inj v w :
  is_u64 v = true -> is_u64 w = true -> manifest_location v = manifest_location w -> v = w.
Proof.
  intros Hv Hw Heq. assert (CheckpointManifestObject v = CheckpointManifestObject w) as [= ?]; [|done].
  eapply located_inj; [by apply located_manifest|]. rewrite Heq. by apply located_manifest.
Qed.

(** The objects that are written more than once. *)
Definition replaceable_artifact (a : artifact) : Prop :=
  match a with CheckpointLatestCandidateMarker | CheckpointLifecycleObject _ => True | _ => False end.
Definition replaceable (l : string) : Prop := exists a, replaceable_artifact a /\ located a l.

Lemma located_fixed a l : located a l -> ~ replaceable_artifact a -> ~ replaceable l.
Proof. intros Hl Ha (b & Hb & Hlb). by rewrite (located_inj a b l) in Ha. Qed.

Lemma manifest_fixed v : is_u64 v = true -> ~ replaceable (manifest_location v).
Proof. intros Hv. by eapply located_fixed; [apply located_manifest|auto]. Qed.

(** The objects of a manifest: where they are and that their keys can be read
    back. *)
Definition payload_artifact (a : artifact) : Prop :=
  match a with StateObject _ _ _ _ | OutputObject _ _ _ _ _ _ => True | _ => False end.

Lemma object_ref_located m ref : valid m -> typed_manifest m -> ref ∈ object_refs m ->
  exists a, payload_artifact a /\ located a (as_str ref.2).
Proof.
  intros Hv (_ & Hs & Ho) Hin. unfold object_refs in Hin. apply elem_of_app in Hin as [Hin|Hin];
    apply list_elem_of_fmap in Hin as (x & -> & Hx); cbn [snd].
  - pose proof (proj1 (Forall_forall _ _) (valid_state_objects m Hv) x Hx) as [Hver Hkey].
    pose proof (proj1 (Forall_forall _ _) Hs x Hx) as [Hp Hcv]. rewrite Hver in Hcv.
    exists (StateObject (sr_owner x) (sr_partition_id x) (checkpoint_version m) (sr_object_id x)).
    split; [done|]. split; [done|]. cbn [build]. rewrite Hkey. by destruct (sr_object_key x).
  - pose proof (proj1 (Forall_forall _ _) (valid_output_objects m Hv) x Hx) as [Hver Hkey].
    pose proof (proj1 (Forall_forall _ _) Ho x Hx) as (Hp & Hcv & Hlo & Hhi). rewrite Hver in Hcv.
    exists (OutputObject (or_stream_id x) (or_partition_id x) (checkpoint_version m)
      (or_start_offset_inclusive x) (or_end_offset_exclusive x) (or_object_id x)).
    split; [done|]. split; [done|]. cbn [build]. rewrite Hkey. by destruct (or_object_key x).
Qed.

Lemma payload_fixed a l : payload_artifact a -> located a l -> ~ replaceable l.
Proof. intros Ha Hl. eapply located_fixed; [exact Hl|]. destruct a; cbn in *; tauto. Qed.
Lemma payload_not_manifest a l v : payload_artifact a -> located a l -> is_u64 v = true -> l <> manifest_location v.
Proof. intros Ha Hl Hv. eapply located_ne; [exact Hl|by apply located_manifest|]. by destruct a. Qed.

Lemma payload_readable a l : payload_artifact a -> located a l -> deserialize l = Some (Key l).
Proof.
  intros Ha [Ht Hb]. apply build_text in Hb as [Hadm [= ->]]. unfold deserialize.
  rewrite parse_readable; [done..|]. by destruct a.
Qed.

(** * Laws of the parameters *)

(** Deserialization gives values of the Rust types and runs [ObjectKey::parse];
    a document whose keys it accepts is read back as it was written. *)
Definition readable_keys (m : CheckpointManifest) : Prop :=
  forall ref, ref ∈ object_refs m -> deserialize (as_str ref.2) = Some ref.2.
Definition typed_record (r : OwnershipEpochRecord) : Prop :=
  is_u32 (er_partition_id r) = true /\ is_u64 (er_owner_epoch r) = true.

Definition typed_recovery (r : CheckpointRecoveryTransitionRecordV1) : Prop :=
  rv_schema_version r = 1 /\ is_u64 (rv_checkpoint_version r) = true /\
  is_u64 (rv_replay_checkpoint_count r) = true /\ is_u64 (rv_replayed_batch_count r) = true /\
  deserialize (as_str (rv_manifest_key r)) = Some (rv_manifest_key r).

Class CheckpointCodecLaws `{CheckpointCodec} : Prop := {
  manifest_from_slice_typed body m : manifest_from_slice body = Some m -> typed_manifest m;
  manifest_round_trip m body : typed_manifest m -> readable_keys m ->
    manifest_to_vec m = Some body -> manifest_from_slice body = Some m;
  record_round_trip r body : typed_record r ->
    record_to_vec r = Some body -> record_from_slice body = Some r;
  recovery_round_trip r body : typed_recovery r ->
    recovery_to_vec r = Some body -> recovery_from_slice body = Some r
}.

Section publisher.
Context `{Sha256, CheckpointCodecLaws}.

Lemma valid_round_trip m body : valid m -> typed_manifest m ->
  manifest_to_vec m = Some body -> manifest_from_slice body = Some m.
Proof.
  intros Hv Ht. apply manifest_round_trip; [done|]. intros ref Hin.
  destruct (object_ref_located m ref Hv Ht Hin) as (a & Ha & Hl).
  rewrite (payload_readable a) by done. by destruct ref as [? []].
Qed.

(** * The invariant *)

Definition grows (o o' : objects) : Prop :=
  forall l body, o !! l = Some body -> ~ replaceable l -> o' !! l = Some body.

#[export] Instance grows_preorder : PreOrder grows.
Proof. split; [by intros ????|]. intros o1 o2 o3 H12 H23 l body Hl Hne. eauto. Qed.

(** The manifest is published. *)
Definition published (o : objects) (m : CheckpointManifest) : Prop :=
  exists body, o !! manifest_location (checkpoint_version m) = Some body /\ manifest_from_slice body = Some m.

(** The range is covered by one of the same stream partition. *)
Definition covered_by (ranges : list InputRange) (r : InputRange) : Prop :=
  exists r', r' ∈ ranges /\ input_key r' = input_key r /\
    in_start_offset_inclusive r' <= in_start_offset_inclusive r /\
    in_end_offset_exclusive r <= in_end_offset_exclusive r'.
Definition progresses (parent child : CheckpointManifest) : Prop :=
  forall r, r ∈ input_ranges parent -> covered_by (input_ranges child) r.

Definition has_objects (o : objects) (m : CheckpointManifest) : Prop :=
  forall ref, ref ∈ object_refs m -> is_Some (o !! as_str ref.2).
Definition has_parent (o : objects) (m : CheckpointManifest) : Prop :=
  forall v, parent_checkpoint m = Some v ->
    exists parent, published o parent /\ checkpoint_version parent = v /\ progresses parent m.

Record sound (o : objects) (m : CheckpointManifest) : Prop := {
  sound_valid : valid m;
  sound_typed : typed_manifest m;
  sound_objects : has_objects o m;
  sound_parent : has_parent o m
}.

Definition chain (o : objects) : Prop :=
  forall v body, is_u64 v = true -> o !! manifest_location v = Some body ->
    exists m, manifest_from_slice body = Some m /\ checkpoint_version m = v /\ sound o m.

Definition evolves (o o' : objects) : Prop := grows o o' /\ (chain o -> chain o').

#[export] Instance evolves_preorder : PreOrder evolves.
Proof.
  split; [by split|]. intros o1 o2 o3 [H12 C12] [H23 C23]. split; [by etransitivity|auto].
Qed.

Lemma published_typed o m : published o m -> typed_manifest m.
Proof. intros (body & _ & Hm). by eapply manifest_from_slice_typed. Qed.

Lemma published_grows o o' m : grows o o' -> published o m -> published o' m.
Proof.
  intros Hg Hp. pose proof (published_typed _ _ Hp) as (Hv & _ & _). destruct Hp as (body & Hl & Hm).
  exists body. split; [|done]. apply Hg; [done|]. by apply manifest_fixed.
Qed.

Lemma published_unique o m m' : published o m -> published o m' ->
  checkpoint_version m = checkpoint_version m' -> m = m'.
Proof. intros (b & Hb & Hm) (b' & Hb' & Hm') Hv. rewrite Hv in Hb. congruence. Qed.

Lemma has_objects_grows o o' m : valid m -> typed_manifest m -> grows o o' ->
  has_objects o m -> has_objects o' m.
Proof.
  intros Hv Ht Hg Ho ref Hin. destruct (Ho ref Hin) as [body Hb].
  destruct (object_ref_located m ref Hv Ht Hin) as (a & Ha & Hl).
  exists body. apply Hg; [done|]. by eapply payload_fixed.
Qed.

Lemma has_parent_grows o o' m : grows o o' -> has_parent o m -> has_parent o' m.
Proof.
  intros Hg Hp v Hv. destruct (Hp v Hv) as (parent & ? & ? & ?). eauto 6 using published_grows.
Qed.

Lemma sound_grows o o' m : grows o o' -> sound o m -> sound o' m.
Proof. intros Hg []. constructor; eauto using has_objects_grows, has_parent_grows. Qed.

(** ** Inserting objects *)

Lemma grows_insert o l body : o !! l = None \/ replaceable l -> grows o (<[l := body]> o).
Proof.
  intros Hl l' body' Hl' Hne. destruct (decide (l' = l)) as [->|]; [|by rewrite lookup_insert_ne].
  destruct Hl as [Hl|]; [congruence|done].
Qed.

Lemma evolves_other o l body : o !! l = None \/ replaceable l ->
  (forall v, is_u64 v = true -> l <> manifest_location v) -> evolves o (<[l := body]> o).
Proof.
  intros Hl Hne. pose proof (grows_insert o l body Hl) as Hg. split; [done|].
  intros Hc v b Hv Hb. rewrite lookup_insert_ne in Hb by auto.
  destruct (Hc v b Hv Hb) as (m & Hm & Hver & Hs). exists m. eauto using sound_grows.
Qed.

Lemma evolves_manifest o m body : o !! manifest_location (checkpoint_version m) = None ->
  manifest_from_slice body = Some m -> sound o m ->
  evolves o (<[manifest_location (checkpoint_version m) := body]> o).
Proof.
  intros Hnone Hm Hs. pose proof (grows_insert o _ body (or_introl Hnone)) as Hg. split; [done|].
  intros Hc v b Hv Hb. destruct (decide (v = checkpoint_version m)) as [->|Hne].
  - rewrite lookup_insert_eq in Hb. injection Hb as <-. eauto using sound_grows.
  - rewrite lookup_insert_ne in Hb.
    + destruct (Hc v b Hv Hb) as (m' & ? & ? & ?). eauto using sound_grows.
    + intros Heq%manifest_location_inj; [done|..|done]. apply (sound_typed _ _ Hs).
Qed.

(** ** Input progress *)

Lemma collect_map_lookup {K A} `{Countable K} (f : A -> K) (l : list A) k x :
  collect_map (fun x => (f x, x)) l !! k = Some x -> x ∈ l /\ f x = k.
Proof.
  unfold collect_map. cbn [fst snd]. revert x. induction l as [|y l IH] using rev_ind; intros x; [done|].
  rewrite foldl_snoc. destruct (decide (f y = k)) as [<-|Hne].
  - rewrite lookup_insert_eq. intros [= <-]. split; [apply elem_of_app; right; left|done].
  - rewrite lookup_insert_ne by done. intros [? ?]%IH. split; [apply elem_of_app; by left|done].
Qed.

Lemma child_progress child parent :
  validate_child_input_progress child parent = Ok tt -> progresses parent child.
Proof.
  unfold validate_child_input_progress. rewrite try_fold_unit, Forall_forall. intros Hall r Hr.
  specialize (Hall r Hr). unfold child_covers in Hall.
  destruct (_ !! input_key r) as [r'|] eqn:Hr'; [|done]. apply collect_map_lookup in Hr' as [Hin Hkey].
  apply fail_if_ok in Hall. exists r'. split_and!; [done..|lia|lia].
Qed.

(** * Operations under interference *)

(** Others, and the program itself, keep the chain. *)
Definition keeps (o : objects) (_ : call) (o' : objects) : Prop := evolves o o'.
Abbreviation establishes := (ensures evolves keeps).
Abbreviation respects p o := (wp evolves keeps p (fun _ _ => True) o).

Lemma keeps_evolves o c o' : keeps o c o' -> evolves o o'.
Proof. done. Qed.
Lemma keeps_read o c : writes c = false -> keeps o c o.
Proof. by intros _. Qed.

#[local] Hint Resolve keeps_evolves keeps_read : core.

Lemma evolves_grows o o' : evolves o o' -> grows o o'.
Proof. by intros []. Qed.
#[local] Hint Resolve evolves_grows : core.

Lemma establishes_then {E A B} (p : prog (result E A)) (f : A -> prog (result E B)) P Q o :
  establishes p P o -> (forall a o', evolves o o' -> P a o' -> establishes (f a) Q o') ->
  establishes (x ←! p; f x) Q o.
Proof. apply (ensures_and_then evolves keeps); auto. Qed.

Lemma establishes_lift {E A B} (r : result E A) (f : A -> prog (result E B)) Q o :
  (forall a, r = Ok a -> establishes (f a) Q o) -> establishes (x ←! Ret r; f x) Q o.
Proof. destruct r as [a|e]; intros Hf; [by apply Hf|done]. Qed.

Lemma respects_put l body o : (forall v, is_u64 v = true -> l <> manifest_location v) ->
  respects (request (PutCreate l body)) o.
Proof.
  intros Hl o1 r o2 _ Hans. split; [|done]. unfold keeps. cbn in Hans.
  destruct r as [u|[]]; try (by destruct Hans as [_ ->]); try (by destruct Hans as [->|[? ->]]; [|eauto using evolves_other]).
  destruct Hans as [? ->]. eauto using evolves_other.
Qed.

Lemma respects_replace l body o : replaceable l -> respects (request (Put l body)) o.
Proof.
  intros Hl o1 r o2 _ Hans. split; [|done].
  assert (evolves o1 (<[l := body]> o1)) as Hev.
  { apply evolves_other; [by right|]. intros v Hv ->. by eapply manifest_fixed. }
  unfold keeps. cbn in Hans. destruct r; [by subst|]. by destruct Hans as [-> | ->].
Qed.

Lemma respects_bind {A B} (p : prog A) (f : A -> prog B) o :
  respects p o -> (forall a o', evolves o o' -> respects (f a) o') -> respects (bind p f) o.
Proof.
  intros Hp Hf. apply wp_bind. eapply (wp_reach evolves keeps); [auto..|exact Hp|]. auto.
Qed.

Lemma respects_read_only {A} (p : prog A) o : read_only p -> respects p o.
Proof. intros. apply (wp_read_only evolves keeps); auto. Qed.

Lemma read_only_now : read_only marker_updated_at_now.
Proof. split; [done|]. by intros [secs nanos]. Qed.

Lemma respects_lifecycle m body o : is_u64 (checkpoint_version m) = true ->
  respects (best_effort_publish_lifecycle_record m body) o.
Proof.
  intros Hv. apply respects_bind; [apply respects_read_only, read_only_now|].
  intros now o' _. destruct (lifecycle_to_vec _) as [b|]; [|done]. apply respects_bind; [|done].
  apply respects_put. intros v Hv'. eapply (located_ne (CheckpointLifecycleObject (checkpoint_version m)));
    [done|by apply located_manifest|done].
Qed.

Lemma respects_marker m body o : respects (best_effort_publish_latest_candidate_marker m body) o.
Proof.
  apply respects_bind; [apply respects_read_only, read_only_now|]. intros now o1 _.
  apply respects_bind; [by apply respects_read_only|]. intros existing o2 _.
  destruct (newer_marker _ _); [done|]. destruct (marker_to_vec _) as [b|]; [|done].
  apply respects_bind; [apply respects_replace; by exists CheckpointLatestCandidateMarker|done].
Qed.

(** ** Reads *)

Lemma establishes_fetch l o : establishes (fetch l) (fun body o' => o' !! l = Some body) o.
Proof.
  apply wp_bind. apply (wp_read evolves keeps); [auto..|]. intros r o1 _ [_ Hr] body. by destruct r; intros [= <-].
Qed.

Lemma decode_manifest_ok key body m : decode_manifest key body = Ok m ->
  manifest_from_slice body = Some m /\ valid m /\ key = manifest_key m.
Proof.
  unfold decode_manifest. intros Hd. simplify_res. rewrite map_err_ok, unit_ok in *.
  match goal with Hk : bool_decide _ = false |- _ => apply bool_decide_eq_false, dec_stable in Hk end.
  split_and!; [done|by apply validate_valid|done].
Qed.

Lemma establishes_read_parent v parent o : is_u64 parent = true ->
  establishes (read_parent_manifest v parent)
    (fun m o' => published o' m /\ valid m /\ checkpoint_version m = parent) o.
Proof.
  intros Hp. apply establishes_then with (P := fun body o' => o' !! manifest_location parent = Some body).
  - apply wp_bind. apply (wp_read evolves keeps); [auto..|]. intros r o1 _ [_ Hr] body. by destruct r; intros [= <-].
  - intros body o' _ Hbody m (Hm & Hv & Hkey)%decode_manifest_ok.
    assert (checkpoint_version m = parent) as Hver.
    { symmetry. apply manifest_location_inj; [done|by apply (manifest_from_slice_typed body)|].
      by apply (f_equal as_str) in Hkey. }
    split_and!; [|done..]. exists body. by rewrite Hver.
Qed.

Lemma valid_parent_u64 m v : valid m -> typed_manifest m -> parent_checkpoint m = Some v -> is_u64 v = true.
Proof.
  intros Hv (Hu & _ & _) Hp. rewrite (valid_parent m Hv) in Hp.
  destruct (Z.eqb_spec (checkpoint_version m) 0); [done|]. injection Hp as <-. range.
Qed.

Lemma establishes_parent_visible m o : valid m -> typed_manifest m ->
  establishes (validate_parent_manifest_visible m) (fun _ o' => has_parent o' m) o.
Proof.
  intros Hv Ht. unfold validate_parent_manifest_visible, has_parent.
  destruct (parent_checkpoint m) as [v|] eqn:Hp; [|by intros ? _ ?].
  eapply establishes_then; [apply establishes_read_parent; by eapply valid_parent_u64|].
  intros parent o' _ (Hpub & _ & Hver) [] Hok%child_progress v' [= <-]. eauto.
Qed.

(** The object of the reference is there. *)
Definition object_there (m : CheckpointManifest) (ref : string * ObjectKey) (o : objects) : Prop :=
  ref ∈ object_refs m -> is_Some (o !! as_str ref.2).

Lemma object_there_evolves m ref o o' : valid m -> typed_manifest m -> evolves o o' ->
  object_there m ref o -> object_there m ref o'.
Proof.
  intros Hv Ht Hev Ho Hin. destruct (Ho Hin) as [body Hb].
  destruct (object_ref_located m ref Hv Ht Hin) as (a & Ha & Hl).
  exists body. apply (evolves_grows _ _ Hev); [done|]. by eapply payload_fixed.
Qed.

Lemma establishes_states_exist m o : valid m -> typed_manifest m ->
  establishes (validate_state_objects_exist m)
    (fun _ o' => forall s, s ∈ state_objects m -> object_there m (sr_object_id s, sr_object_key s) o') o.
Proof.
  intros Hv Ht. apply (ensures_for_each evolves keeps); [auto..| |].
  { intros. by eapply object_there_evolves. }
  intros s o1 _ _. apply establishes_then with (P := fun found o' => found = true -> is_Some (o' !! as_str (sr_object_key s))).
  - apply wp_bind. apply (wp_read evolves keeps); [auto..|]. intros r o2 _ [_ Hr] found.
    by destruct r as [u|[]]; intros [= <-].
  - intros found o2 _ Hf [] Hok%fail_if_ok _. apply Hf. by apply negb_false_iff.
Qed.

Lemma establishes_outputs_exist m o : valid m -> typed_manifest m ->
  establishes (validate_output_objects_exist m)
    (fun _ o' => forall x, x ∈ output_objects m -> object_there m (or_object_id x, or_object_key x) o') o.
Proof.
  intros Hv Ht. eapply establishes_then.
  - apply (wp_gather evolves keeps keeps_evolves keeps_read _
      (fun x _ o' => object_there m (or_object_id x, or_object_key x) o')).
    { intros. by eapply object_there_evolves. }
    intros x o1 _ _. apply wp_bind. apply (wp_read evolves keeps); [auto..|]. intros r o2 _ [_ Hr] [] Hok _.
    by destruct r as [u|[]].
  - intros us o1 _ Hus [] _ x [i Hi]%list_elem_of_lookup. by destruct (Forall2_lookup_l _ _ _ _ _ Hus Hi) as (? & _ & ?).
Qed.

Lemma has_objects_of m o :
  (forall s, s ∈ state_objects m -> object_there m (sr_object_id s, sr_object_key s) o) ->
  (forall x, x ∈ output_objects m -> object_there m (or_object_id x, or_object_key x) o) -> has_objects o m.
Proof.
  intros Hs Ho ref Hin. pose proof Hin as Hin'. unfold object_refs in Hin'.
  apply elem_of_app in Hin' as [(x & -> & Hx)%list_elem_of_fmap|(x & -> & Hx)%list_elem_of_fmap].
  - by apply (Hs x Hx).
  - by apply (Ho x Hx).
Qed.

(** ** Publication *)

Lemma respects_publish_request m body o : manifest_from_slice body = Some m -> sound o m ->
  wp evolves keeps (request (PutCreate (as_str (manifest_key m)) body))
    (fun r o' => r = Ok tt -> published o' m) o.
Proof.
  intros Hm Hs o1 r o2 [Hg _] Hans. assert (sound o1 m) as Hs1 by by eapply sound_grows.
  change (as_str (manifest_key m)) with (manifest_location (checkpoint_version m)) in *.
  cbn [answers] in Hans. unfold keeps. pose proof (evolves_manifest o1 m body) as Hev.
  unfold published. revert Hans Hev. generalize (manifest_location (checkpoint_version m)) as l.
  intros l Hans Hev. destruct r as [[]|e].
  - destruct Hans as [Hnone ->]. split; [by apply Hev|]. intros _. exists body. by rewrite lookup_insert_eq.
  - split; [|by cbn]. destruct e; try (by destruct Hans as [_ ->]);
      (destruct Hans as [->|[Hnone ->]]; [done|by apply Hev]).
Qed.

Lemma respects_published {A} (p : prog A) m post o : published o m -> respects p o ->
  (forall a o', published o' m -> post a o') -> wp evolves keeps p post o.
Proof.
  intros Hm Hp Hpost. eapply (wp_keep evolves keeps keeps_evolves keeps_read (fun o' => published o' m));
    [|exact Hm|exact Hp|auto]. intros o1 o2 H12. by apply published_grows, evolves_grows.
Qed.

Lemma establishes_publish m o : typed_manifest m ->
  establishes (publish_manifest m) (fun _ o' => published o' m) o.
Proof.
  intros Ht. unfold publish_manifest, preflight_manifest_publication.
  apply establishes_then with (P := fun _ o' => valid m /\ has_parent o' m).
  { apply establishes_lift. intros [] Hval%map_err_ok%validate_valid.
    eapply (ensures_mono evolves keeps); [auto..|by apply establishes_parent_visible|]. auto. }
  intros [] o1 _ [Hv Hp1]. eapply establishes_then; [by apply establishes_states_exist|].
  intros [] o2 H12 Hs2. eapply establishes_then; [by apply establishes_outputs_exist|].
  intros [] o3 H23 Ho3. apply establishes_lift. intros body Hbody%ok_or_ok.
  assert (sound o3 m) as Hsound.
  { constructor; [done..| |].
    - apply has_objects_of; [|done]. intros s Hs. eapply object_there_evolves; eauto.
    - eapply has_parent_grows; [|exact Hp1]. by etransitivity; apply evolves_grows. }
  apply wp_bind. eapply wp_mono; [|apply respects_publish_request; [by eapply valid_round_trip|exact Hsound]].
  intros [[]|e] o4 Hpub; [|by destruct e]. specialize (Hpub eq_refl).
  apply wp_bind. eapply respects_published; [exact Hpub|apply respects_lifecycle, Ht|].
  intros [] o5 Hpub5. apply wp_bind. eapply respects_published; [exact Hpub5|apply respects_marker|].
  intros [] o6 Hpub6 [] _. done.
Qed.

(** ** Operations that only read *)

Lemma read_only_published : read_only list_published_manifests.
Proof. unfold list_published_manifests, read_listed_manifest. read_only. Qed.

Lemma read_only_record key : read_only (read_ownership_epoch_record_object key).
Proof. unfold read_ownership_epoch_record_object. read_only. Qed.
#[local] Hint Resolve read_only_published read_only_record : programs.

Lemma read_only_records stream p : read_only (list_ownership_epoch_records stream p).
Proof. unfold list_ownership_epoch_records, read_listed_record. read_only. Qed.
#[local] Hint Resolve read_only_records : programs.

Lemma read_only_claim_current ps claim : read_only (validate_owner_claim_current ps claim).
Proof. unfold validate_owner_claim_current. read_only. Qed.
Lemma read_only_matching stream p claim :
  read_only (validate_matching_ownership_epoch_record_visible stream p claim).
Proof. unfold validate_matching_ownership_epoch_record_visible. read_only. Qed.
Lemma read_only_no_newer stream p claim :
  read_only (validate_no_newer_visible_ownership_epoch_record stream p claim).
Proof. unfold validate_no_newer_visible_ownership_epoch_record. read_only. Qed.
#[local] Hint Resolve read_only_claim_current read_only_matching read_only_no_newer : programs.

Lemma read_only_production stream p claim : read_only (validate_production_owner_claim_current stream p claim).
Proof. unfold validate_production_owner_claim_current. read_only. Qed.
Lemma read_only_production_manifest m claim :
  read_only (validate_manifest_production_owner_claims_current m claim).
Proof. unfold validate_manifest_production_owner_claims_current, check_progress. read_only. Qed.
Lemma read_only_states m : read_only (validate_state_objects_exist m).
Proof. unfold validate_state_objects_exist, state_object_exists. read_only. Qed.
Lemma read_only_outputs m : read_only (validate_output_objects_exist m).
Proof. unfold validate_output_objects_exist, output_object_exists. read_only. Qed.
Lemma read_only_parent m : read_only (validate_parent_manifest_visible m).
Proof. unfold validate_parent_manifest_visible, read_parent_manifest. read_only. Qed.
#[local] Hint Resolve read_only_production read_only_production_manifest read_only_states
  read_only_outputs read_only_parent : programs.

Lemma read_only_preflight m : read_only (preflight_manifest_publication m).
Proof. unfold preflight_manifest_publication. read_only. Qed.
Lemma read_only_latest : read_only latest_manifest.
Proof.
  unfold latest_manifest, latest_manifest_from_candidate_marker, try_latest_manifest_from_candidate_marker,
    future_checkpoint_manifest_exists. read_only.
Qed.
Lemma read_only_plan policy : read_only (plan_garbage_collection policy).
Proof. unfold plan_garbage_collection, add_unreferenced_candidates. read_only. Qed.
#[local] Hint Resolve read_only_preflight read_only_latest read_only_plan : programs.

(** ** Operations that write *)

(** What the constructors of [StateObjectWrite] and [OutputObjectWrite] make. *)
Definition state_write_ok (w : StateObjectWrite) : Prop :=
  is_u32 (sw_partition_id w) = true /\ is_u64 (sw_checkpoint_version w) = true /\
  state_object (sw_owner w) (sw_partition_id w) (sw_checkpoint_version w) (sw_object_id w) = Ok (sw_object_key w).
Definition output_write_ok (w : OutputObjectWrite) : Prop :=
  is_u32 (ow_partition_id w) = true /\ is_u64 (ow_checkpoint_version w) = true /\
  is_u64 (ow_start_offset_inclusive w) = true /\ is_u64 (ow_end_offset_exclusive w) = true /\
  output_object (ow_stream_id w) (ow_partition_id w) (ow_checkpoint_version w) (ow_start_offset_inclusive w)
    (ow_end_offset_exclusive w) (ow_object_id w) = Ok (ow_object_key w).

Lemma state_write_located w : state_write_ok w -> exists a, payload_artifact a /\ located a (as_str (sw_object_key w)).
Proof.
  intros (Hp & Hv & Hk). exists (StateObject (sw_owner w) (sw_partition_id w) (sw_checkpoint_version w) (sw_object_id w)).
  split; [done|]. split; [done|]. cbn [build]. rewrite Hk. by destruct (sw_object_key w).
Qed.

Lemma output_write_located w : output_write_ok w -> exists a, payload_artifact a /\ located a (as_str (ow_object_key w)).
Proof.
  intros (Hp & Hv & Hlo & Hhi & Hk). exists (OutputObject (ow_stream_id w) (ow_partition_id w)
    (ow_checkpoint_version w) (ow_start_offset_inclusive w) (ow_end_offset_exclusive w) (ow_object_id w)).
  split; [done|]. split; [done|]. cbn [build]. rewrite Hk. by destruct (ow_object_key w).
Qed.

Lemma respects_ensures {E A} (p : prog (result E A)) (P : A -> objects -> Prop) o :
  establishes p P o -> respects p o.
Proof. intros Hp. eapply wp_mono; [|exact Hp]. done. Qed.

Lemma respects_then {E A B} (p : prog (result E A)) (f : A -> prog (result E B)) o :
  respects p o -> (forall a o', evolves o o' -> respects (f a) o') -> respects (x ←! p; f x) o.
Proof. intros Hp Hf. apply respects_bind; [done|]. intros [a|e] o' Ho'; [by apply Hf|done]. Qed.

Lemma respects_write_state w o : state_write_ok w -> respects (write_state_object w) o.
Proof.
  intros (a & Ha & Hl)%state_write_located. apply respects_bind; [|done]. apply respects_put.
  intros v Hv. by eapply payload_not_manifest.
Qed.

Lemma respects_write_output w o : output_write_ok w -> respects (write_output_object w) o.
Proof.
  intros (a & Ha & Hl)%output_write_located. apply respects_bind; [|done]. apply respects_put.
  intros v Hv. by eapply payload_not_manifest.
Qed.

Lemma record_located r key : typed_record r -> record_object_key r = Ok key ->
  located (OwnershipEpochRecordObject (er_stream_id r) (er_partition_id r) (er_owner_epoch r)) (as_str key).
Proof. intros [? ?] Hk. split; [done|]. cbn [build]. unfold record_object_key in Hk. rewrite Hk. by destruct key. Qed.

Lemma respects_lift {E A B} (r : result E A) (f : A -> prog (result E B)) o :
  (forall a, r = Ok a -> respects (f a) o) -> respects (x ←! Ret r; f x) o.
Proof. destruct r as [a|e]; intros Hf; [by apply Hf|done]. Qed.

Lemma respects_create_record r o : typed_record r -> respects (create_ownership_epoch_record r) o.
Proof.
  intros Ht. apply respects_lift. intros [] _. apply respects_lift. intros key Hk%map_err_ok.
  apply respects_lift. intros body _. apply respects_bind.
  - apply respects_put. intros v Hv.
    eapply located_ne; [by eapply record_located|by apply located_manifest|done].
  - intros answer o1 _. apply respects_read_only. destruct answer as [|[]]; read_only.
Qed.

Lemma respects_write_state_fenced w claim o : state_write_ok w -> respects (write_state_object_fenced w claim) o.
Proof.
  intros Hw. apply respects_lift. intros [] _. apply respects_then; [apply respects_read_only; read_only|].
  intros [] o1 _. by apply respects_write_state.
Qed.
Lemma respects_write_output_fenced w claim o : output_write_ok w -> respects (write_output_object_fenced w claim) o.
Proof.
  intros Hw. apply respects_lift. intros [] _. apply respects_then; [apply respects_read_only; read_only|].
  intros [] o1 _. by apply respects_write_output.
Qed.
Lemma respects_write_state_production w stream claim o : state_write_ok w ->
  respects (write_state_object_fenced_production w stream claim) o.
Proof.
  intros Hw. apply respects_lift. intros [] _. apply respects_then; [apply respects_read_only; read_only|].
  intros [] o1 _. by apply respects_write_state.
Qed.
Lemma respects_write_output_production w claim o : output_write_ok w ->
  respects (write_output_object_fenced_production w claim) o.
Proof.
  intros Hw. apply respects_lift. intros [] _. apply respects_then; [apply respects_read_only; read_only|].
  intros [] o1 _. by apply respects_write_output.
Qed.

Lemma establishes_publish_fenced m claim o : typed_manifest m ->
  establishes (publish_manifest_fenced m claim) (fun _ o' => published o' m) o.
Proof.
  intros Ht. do 3 (apply establishes_lift; intros [] _).
  eapply establishes_then; [apply (ensures_read_only evolves keeps); [auto..|read_only]|].
  intros [] o1 _ _. by apply establishes_publish.
Qed.

Lemma establishes_publish_production m claim o : typed_manifest m ->
  establishes (publish_manifest_fenced_production m claim) (fun _ o' => published o' m) o.
Proof.
  intros Ht. do 3 (apply establishes_lift; intros [] _).
  eapply establishes_then; [apply (ensures_read_only evolves keeps); [auto..|read_only]|].
  intros [] o1 _ _. by apply establishes_publish.
Qed.

(** * The history *)

Lemma progresses_refl m : progresses m m.
Proof. intros r Hr. exists r. split_and!; [done..|lia|lia]. Qed.

Lemma progresses_trans m1 m2 m3 : progresses m1 m2 -> progresses m2 m3 -> progresses m1 m3.
Proof.
  intros H12 H23 r Hr. destruct (H12 r Hr) as (r2 & Hr2 & Hk2 & ? & ?).
  destruct (H23 r2 Hr2) as (r3 & Hr3 & Hk3 & ? & ?). exists r3. split_and!; [done|congruence|lia|lia].
Qed.

Lemma published_sound o m : chain o -> published o m -> sound o m.
Proof.
  intros Hc Hp. pose proof (published_typed _ _ Hp) as (Hv & _). destruct Hp as (body & Hl & Hm).
  destruct (Hc _ _ Hv Hl) as (m' & Hm' & _ & Hs). congruence.
Qed.

(** Every version up to a published one is published, and its progress is
    covered. *)
Lemma chain_history o m w : chain o -> published o m -> 0 <= w <= checkpoint_version m ->
  exists m', published o m' /\ checkpoint_version m' = w /\ progresses m' m.
Proof.
  intros Hc Hp Hw. remember (Z.to_nat (checkpoint_version m - w)) as n eqn:Hn.
  revert m Hp Hw Hn. induction n as [|n IH]; intros m Hp Hw Hn.
  - exists m. split_and!; [done|lia|apply progresses_refl].
  - pose proof (published_sound o m Hc Hp) as [Hval _ _ Hpar].
    destruct (Hpar (checkpoint_version m - 1)) as (parent & Hpp & Hver & Hprog).
    { rewrite (valid_parent m Hval). by rewrite (proj2 (Z.eqb_neq _ _)) by lia. }
    destruct (IH parent Hpp) as (m' & ? & ? & ?); [lia..|]. eauto using progresses_trans.
Qed.

(** * What reads show *)

(** Other publishers run next to the program, which guarantees [G]. *)
Section reading.
Context (G : objects -> call -> objects -> Prop).
Hypothesis G_R : forall o c o', G o c o' -> evolves o o'.
Hypothesis G_read : forall o c, writes c = false -> G o c o.

Abbreviation shows := (ensures evolves G).

Lemma shows_then {E A B} (p : prog (result E A)) (f : A -> prog (result E B)) P Q o :
  shows p P o -> (forall a o', evolves o o' -> P a o' -> shows (f a) Q o') -> shows (x ←! p; f x) Q o.
Proof using G_R G_read. apply (ensures_and_then evolves G); auto. Qed.

Lemma shows_lift {E A B} (r : result E A) (f : A -> prog (result E B)) Q o :
  (forall a, r = Ok a -> shows (f a) Q o) -> shows (x ←! Ret r; f x) Q o.
Proof. destruct r as [a|e]; intros Hf; [by apply Hf|done]. Qed.

Lemma shows_read_only {E A} (p : prog (result E A)) o : read_only p -> shows p (fun _ _ => True) o.
Proof using G_R G_read. apply (ensures_read_only evolves G); auto. Qed.

Lemma shows_fetch l o : shows (fetch l) (fun body o' => o' !! l = Some body) o.
Proof using G_R G_read.
  apply wp_bind. apply (wp_read evolves G); [auto..|]. intros r o1 _ [_ Hr] body. by destruct r; intros [= <-].
Qed.

Lemma shows_listing prefix o : shows (listing prefix)
  (fun locations o' => forall l, l ∈ locations <-> is_Some (o' !! l) /\ under prefix l = true) o.
Proof using G_R G_read.
  apply wp_bind. apply (wp_read evolves G); [auto..|]. intros r o1 _ [_ Hr] locations.
  destruct r as [ls|e]; intros [= <-]. apply Hr.
Qed.

(** The location is that of the published manifest. *)
Definition listed (l : string) (m : CheckpointManifest) (o : objects) : Prop :=
  published o m /\ l = manifest_location (checkpoint_version m).

Lemma shows_listed_manifest l o : shows (read_listed_manifest l) (listed l) o.
Proof using G_R G_read.
  apply shows_lift. intros key (-> & _)%map_err_ok%parse_split.
  eapply shows_then; [apply shows_fetch|]. intros body o1 _ Hbody m (Hm & _ & Hkey)%decode_manifest_ok.
  injection Hkey as ->. split; [|done]. by exists body.
Qed.

Lemma manifest_location_under v : under CHECKPOINT_PREFIX (manifest_location v) = true.
Proof. apply starts_with_true. by eexists. Qed.

#[local] Instance version_le_trans : Transitive version_le.
Proof. intros a b c. unfold version_le. lia. Qed.
#[local] Instance version_le_total : Total version_le.
Proof. intros a b. unfold version_le. lia. Qed.

(** A listing has every manifest that was published before it, only published
    ones, and the versions in order. *)
Lemma shows_manifests o : shows list_published_manifests
  (fun ms o' => (forall m, published o m -> m ∈ ms) /\ (forall m, m ∈ ms -> published o' m) /\
    StronglySorted version_le ms) o.
Proof using G_R G_read All.
  eapply shows_then; [apply shows_listing|]. intros locations o1 Hev1 Hlocs.
  eapply shows_then; [apply (wp_gather evolves G G_R G_read _ listed)|].
  { intros l m o2 o3 H23 [? ?]. split; [|done]. by eapply published_grows; [apply evolves_grows|]. }
  { intros l o2 _ _. eapply wp_mono; [|apply shows_listed_manifest]. auto. }
  intros ms o2 Hev2 Hms. apply shows_lift. intros [] _ sorted [= <-]. split_and!.
  - intros m Hm. rewrite merge_sort_Permutation.
    assert (published o1 m) as Hm1 by by eapply published_grows; [apply evolves_grows|].
    pose proof (published_typed _ _ Hm) as (Hv & _).
    assert (manifest_location (checkpoint_version m) ∈ locations) as Hin.
    { apply Hlocs. split; [|apply manifest_location_under]. destruct Hm1 as (body & -> & _). done. }
    apply list_elem_of_lookup in Hin as [i Hi].
    destruct (Forall2_lookup_l _ _ _ _ _ Hms Hi) as (m' & Hi' & Hm' & Heq).
    apply manifest_location_inj in Heq; [|done|by apply (published_typed _ _ Hm')].
    replace m with m'; [by eapply list_elem_of_lookup_2|].
    eapply published_unique; [exact Hm'|by eapply published_grows; [apply evolves_grows|]|done].
  - intros m Hm. rewrite merge_sort_Permutation in Hm. apply list_elem_of_lookup in Hm as [i Hi].
    by destruct (Forall2_lookup_r _ _ _ _ _ Hms Hi) as (l & _ & ? & _).
  - by apply (StronglySorted_merge_sort version_le).
Qed.

(** ** Claims *)

(** A claim on one of the partitions that supersedes or contradicts the
    attempted one. *)
Definition stale_reference (partitions : gset Z) (claim : PartitionOwnerClaim)
    (ref : Z * option PartitionOwnerClaim) : Prop :=
  exists p current, ref = (p, Some current) /\ p ∈ partitions /\
    is_current_claim_newer_or_conflicting current claim = true.

Lemma check_reference_ok partitions claim ref :
  check_reference partitions claim tt ref = Ok tt -> ~ stale_reference partitions claim ref.
Proof.
  unfold check_reference. intros Hok (p & current & -> & Hp & Hn). cbn in Hok.
  by rewrite Hn, bool_decide_true in Hok.
Qed.

Lemma shows_claim_current partitions claim o :
  shows (validate_owner_claim_current partitions claim)
    (fun _ _ => forall m ref, published o m -> ref ∈ references m -> ~ stale_reference partitions claim ref) o.
Proof using G_R G_read All.
  eapply shows_then; [apply shows_manifests|]. intros ms o1 _ (Hall & _ & _) [] Hok m ref Hm Href.
  rewrite try_fold_unit, Forall_forall in Hok. specialize (Hok m (Hall m Hm)).
  rewrite try_fold_unit, Forall_forall in Hok. by apply check_reference_ok, Hok.
Qed.

(** The ownership epoch record is stored for the stream partition. *)
Definition recorded (o : objects) (stream : string) (p : Z) (r : OwnershipEpochRecord) : Prop :=
  exists key body, is_u32 p = true /\ is_u64 (er_owner_epoch r) = true /\
    ownership_epoch_record stream p (er_owner_epoch r) = Ok key /\
    o !! as_str key = Some body /\ record_from_slice body = Some r.

Lemma recorded_grows o o' stream p r : grows o o' -> recorded o stream p r -> recorded o' stream p r.
Proof.
  intros Hg (key & body & Hp & He & Hk & Hl & Hr). exists key, body. split_and!; [done..| |done].
  apply Hg; [done|]. eapply (located_fixed (OwnershipEpochRecordObject stream p (er_owner_epoch r))); [|by auto].
  split; [done|]. cbn [build]. rewrite Hk. by destruct key.
Qed.

Lemma ownership_prefix stream p epoch key0 key prefix :
  ownership_epoch_record stream p 0 = Ok key0 -> ownership_epoch_record stream p epoch = Ok key ->
  strip_suffix "epoch=00000000000000000000.claim" (as_str key0) = Some prefix ->
  under (path_from prefix) (as_str key) = true.
Proof.
  intros Hk0 Hk Hs%strip_suffix_some. unfold ownership_epoch_record in *.
  apply bind_ok in Hk0 as (? & _ & [= <-]). apply bind_ok in Hk as (? & _ & [= <-]). cbn [as_str] in *.
  set (base := "v1/ownership/" +:+ stream +:+ "/p=" +:+ zero_padded PARTITION_WIDTH p).
  assert (prefix = base +:+ "/") as ->.
  { eapply append_cancel_r. rewrite <-Hs. unfold base. rewrite !append_assoc. reflexivity. }
  unfold path_from. rewrite strip_suffix_self. cbn [default from_option]. change (id base) with base.
  apply starts_with_true. exists ("epoch=" +:+ zero_padded CHECKPOINT_WIDTH epoch +:+ ".claim").
  unfold base. rewrite !append_assoc. reflexivity.
Qed.

Lemma shows_record key o : shows (read_ownership_epoch_record_object key)
  (fun r o' => exists body, o' !! as_str key = Some body /\ record_from_slice body = Some r) o.
Proof using G_R G_read All.
  eapply shows_then; [apply shows_fetch|]. intros body o1 _ Hbody.
  apply shows_lift. intros r Hr%ok_or_ok. apply shows_lift. intros [] _ r' [= <-]. by exists body.
Qed.

Lemma parse_record stream p epoch key : is_u32 p = true -> is_u64 epoch = true ->
  ownership_epoch_record stream p epoch = Ok key ->
  parse_ownership_epoch_record (as_str key) = Ok (key, OwnershipEpochRecordKey stream p epoch).
Proof.
  intros Hp He Hk. apply parse_ownership_epoch_record_reads. split; [by destruct key|]. done.
Qed.

Lemma parse_ok v k : parse v = Ok k -> k = Key v.
Proof. by intros [-> _]%parse_split. Qed.

Lemma shows_listed_record stream p r key l o :
  ownership_epoch_record stream p (er_owner_epoch r) = Ok key -> recorded o stream p r ->
  shows (read_listed_record stream p l) (fun y _ => l = as_str key -> y = Some r) o.
Proof using G_R G_read All.
  intros Hk Hrec. pose proof Hrec as (key' & body & Hp & He & Hk' & Hl & Hr).
  rewrite Hk in Hk'. injection Hk' as <-.
  apply shows_lift. intros key' ->%map_err_ok%parse_ok. cbn [as_str]. apply shows_lift. intros [k parts] Hparts%map_err_ok.
  destruct (decide (l = as_str key)) as [->|Hne].
  2: { eapply (ensures_mono evolves G); [auto..|apply shows_read_only|]; [|done].
       destruct (_ || _); [done|]. apply read_only_and_then; [apply read_only_record|done]. }
  rewrite (parse_record stream p (er_owner_epoch r) key) in Hparts by done. injection Hparts as <- <-.
  cbn [oe_stream_id oe_partition_id]. rewrite String.eqb_refl, Z.eqb_refl. cbn [negb orb].
  eapply shows_then; [apply shows_record|]. intros r' o1 Hev (body' & Hl' & Hr') y [= <-] _.
  apply recorded_grows with (o' := o1) in Hrec; [|by apply evolves_grows].
  destruct Hrec as (key' & body2 & _ & _ & Hk2 & Hl2 & Hr2). rewrite Hk in Hk2. injection Hk2 as <-.
  cbn [as_str] in Hl'. congruence.
Qed.

(** A record that was stored before is among the records listed. *)
Lemma shows_records stream p r o : recorded o stream p r ->
  shows (list_ownership_epoch_records stream p) (fun rs _ => r ∈ rs) o.
Proof using G_R G_read All.
  intros Hrec. apply shows_lift. intros key0 Hk0%map_err_ok. apply shows_lift. intros prefix Hpre%ok_or_ok.
  eapply shows_then; [apply shows_listing|]. intros locations o1 Hev1 Hlocs.
  pose proof (recorded_grows _ _ _ _ _ (evolves_grows _ _ Hev1) Hrec) as Hrec1.
  pose proof Hrec1 as (key & body & Hp & He & Hk & Hl & Hr).
  eapply shows_then; [apply (wp_collect evolves G G_R G_read _ (fun l y _ => l = as_str key -> y = Some r))|].
  { done. }
  { intros l o2 _ Hev2. apply shows_listed_record; [done|]. by eapply recorded_grows; [apply evolves_grows|]. }
  intros ys o2 _ Hys rs [= <-]. apply list_elem_of_omap.
  assert (as_str key ∈ locations) as [i Hi]%list_elem_of_lookup.
  { apply Hlocs. split; [by rewrite Hl|]. by eapply ownership_prefix. }
  destruct (Forall2_lookup_l _ _ _ _ _ Hys Hi) as (y & Hy & Heq). rewrite Heq in Hy by done.
  exists (Some r). split; [by eapply list_elem_of_lookup_2|done].
Qed.

Lemma shows_no_newer stream p claim r o : recorded o stream p r ->
  shows (validate_no_newer_visible_ownership_epoch_record stream p claim)
    (fun _ _ => is_current_claim_newer_or_conflicting (record_claim r) claim = false) o.
Proof using G_R G_read All.
  intros Hrec. eapply shows_then; [by apply shows_records|]. intros rs o1 _ Hin [] Hok.
  rewrite try_fold_unit, Forall_forall in Hok. specialize (Hok r Hin). by apply fail_if_ok in Hok.
Qed.

End reading.

(** ** Refusals *)

(** The program only reads. *)
Definition quiet (o : objects) (c : call) (o' : objects) : Prop := writes c = false /\ o' = o.
Lemma quiet_evolves o c o' : quiet o c o' -> evolves o o'.
Proof. by intros [_ ->]. Qed.
Lemma quiet_read o c : writes c = false -> quiet o c o.
Proof. done. Qed.

(** The program never succeeds and never writes. *)
Abbreviation refuses p := (ensures evolves quiet p (fun _ _ => False)).

Lemma refuses_then {E A B} (p : prog (result E A)) (f : A -> prog (result E B)) o :
  refuses p o -> refuses (x ←! p; f x) o.
Proof. intros Hp. eapply (shows_then quiet quiet_evolves quiet_read); [exact Hp|]. by intros ???. Qed.

Lemma refuses_after {E A B} (p : prog (result E A)) (f : A -> prog (result E B)) o :
  read_only p -> (forall a o', evolves o o' -> refuses (f a) o') -> refuses (x ←! p; f x) o.
Proof.
  intros Hp Hf. eapply (shows_then quiet quiet_evolves quiet_read); [by apply (shows_read_only quiet quiet_evolves quiet_read)|]. auto.
Qed.

Lemma refuses_lift {E A B} (r : result E A) (f : A -> prog (result E B)) o :
  (forall a, r = Ok a -> refuses (f a) o) -> refuses (x ←! Ret r; f x) o.
Proof. apply shows_lift. Qed.

End publisher.

#[export] Hint Resolve read_only_now read_only_published read_only_record read_only_records read_only_claim_current
  read_only_matching read_only_no_newer read_only_production read_only_production_manifest read_only_states
  read_only_outputs read_only_parent read_only_preflight read_only_latest read_only_plan : programs.
