(* ===== verification/CheckpointAdminProofs.v ===== *)
(** Correctness of the administration of checkpoints: what its operations may
    write, what an inspection reports, and that no collection deletes anything. *)
From stdpp Require Import sorting.
From S2P Require Import Prelude BTree Json Digits Segments ObjectKey Hash ObjectKeyProofs Manifest Capability ObjectStore CheckpointIndex Publisher CheckpointAdmin PublisherProofs.

Section admin.
Context `{Sha256, CheckpointCodecLaws}.

(** * Operations that only read *)

Lemma read_only_lifecycle v : read_only (read_checkpoint_lifecycle_record v).
Proof. unfold read_checkpoint_lifecycle_record. read_only. Qed.
Lemma read_only_retention v : read_only (read_checkpoint_retention_record v).
Proof. unfold read_checkpoint_retention_record. read_only. Qed.
Lemma read_only_gc_transition v id : read_only (read_checkpoint_gc_transition_record v id).
Proof. unfold read_checkpoint_gc_transition_record. read_only. Qed.
Lemma read_only_recovery v id : read_only (read_checkpoint_recovery_transition_record v id).
Proof. unfold read_checkpoint_recovery_transition_record. read_only. Qed.
Lemma read_only_run_evidence id : read_only (read_garbage_collection_run_evidence id).
Proof. unfold read_garbage_collection_run_evidence. read_only. Qed.
#[local] Hint Resolve read_only_lifecycle read_only_retention read_only_gc_transition read_only_recovery
  read_only_run_evidence : programs.

Lemma read_only_published_manifest v : read_only (read_published_checkpoint_manifest v).
Proof. unfold read_published_checkpoint_manifest. read_only. Qed.
Lemma read_only_retention_records id policy vs ks : read_only (retention_records_for_deleted_keys id policy vs ks).
Proof. unfold retention_records_for_deleted_keys, retention_record_for. read_only. Qed.
#[local] Hint Resolve read_only_published_manifest read_only_retention_records : programs.

Lemma read_only_matches_run r : read_only (retention_record_matches_gc_run r).
Proof. unfold retention_record_matches_gc_run. read_only. Qed.
Lemma read_only_gc_transitions m b r : read_only (list_checkpoint_gc_transition_records m b r).
Proof. unfold list_checkpoint_gc_transition_records, listed_gc_transition. read_only. Qed.
Lemma read_only_recoveries m b : read_only (list_checkpoint_recovery_transition_records m b).
Proof. unfold list_checkpoint_recovery_transition_records, listed_recovery_transition. read_only. Qed.
#[local] Hint Resolve read_only_matches_run read_only_gc_transitions read_only_recoveries : programs.

Lemma read_only_inspect_manifest v k l ms : read_only (inspect_checkpoint_manifest v k l ms).
Proof. unfold inspect_checkpoint_manifest, reported. read_only. Qed.
#[local] Hint Resolve read_only_inspect_manifest : programs.

Lemma read_only_verify_run id : read_only (verify_garbage_collection_run_retention_evidence id).
Proof.
  unfold verify_garbage_collection_run_retention_evidence, verify_garbage_collection_run_is_listed,
    verify_retention_records_for_garbage_collection_run, verify_retention_record. read_only.
Qed.

(** * Inspection *)

Lemma after_read {A B} (p : prog A) (f : A -> prog B) post o : read_only p ->
  (forall a o', evolves o o' -> wp evolves keeps (f a) post o') -> wp evolves keeps (bind p f) post o.
Proof.
  intros Hp Hf. apply wp_bind. eapply (wp_reach evolves keeps keeps_evolves keeps_read).
  - by apply (wp_read_only evolves keeps keeps_evolves keeps_read).
  - auto.
Qed.

Lemma establishes_reported {A} (p : publishing A) P o :
  ensures evolves keeps p P o -> ensures evolves keeps (reported p) P o.
Proof.
  intros Hp. apply wp_bind. eapply wp_mono; [|exact Hp]. intros [a|e] o' Ha b; [|done]. intros [= <-]. by apply Ha.
Qed.

(** The manifest is published, with its objects when its payload was found. *)
Definition inspectable (o : objects) (version : Z) (i : InspectableCheckpointManifest) : Prop :=
  published o (im_manifest i) /\ checkpoint_version (im_manifest i) = version /\ valid (im_manifest i) /\
  (forall u, im_payload_status i = Ok u -> has_objects o (im_manifest i)).

Lemma inspectable_evolves o o' v i : evolves o o' -> inspectable o v i -> inspectable o' v i.
Proof.
  intros Hev%evolves_grows (Hp & Hver & Hv & Ho). split_and!; [by eapply published_grows|done|done|].
  intros u Hu. eapply has_objects_grows; eauto using published_typed.
Qed.

Lemma establishes_payload m o : valid m -> typed_manifest m ->
  wp evolves keeps (_ ←! reported (validate_state_objects_exist m); reported (validate_output_objects_exist m))
    (fun r o' => forall u, r = Ok u -> has_objects o' m) o.
Proof.
  intros Hv Ht. eapply establishes_then; [by apply establishes_reported, establishes_states_exist|].
  intros [] o1 Hev1 Hs. eapply (ensures_mono evolves keeps keeps_evolves keeps_read);
    [by apply establishes_reported, establishes_outputs_exist|].
  intros [] o2 Hev2 Ho. apply has_objects_of; [|done]. intros s Hin. eapply object_there_evolves; eauto.
Qed.

Lemma establishes_inspect v key l ms o : as_str key = l ->
  ensures evolves keeps (inspect_checkpoint_manifest v key l ms) (fun i o' => inspectable o' v i) o.
Proof.
  intros Hl. eapply establishes_then; [apply establishes_reported, establishes_fetch|]. intros body o1 _ Hbody.
  apply establishes_lift. intros m Hm. destruct (decode_manifest key body) as [m'|e] eqn:Hdec; [|done].
  injection Hm as <-. apply decode_manifest_ok in Hdec as (Hm & Hv & ->).
  apply establishes_lift. intros [] Hver%fail_if_ok. apply negb_false_iff, Z.eqb_eq in Hver.
  apply establishes_lift. intros [] _. assert (published o1 m') as Hpub by (exists body; by subst l).
  pose proof (published_typed _ _ Hpub) as Ht. apply wp_bind.
  eapply (wp_keep evolves keeps keeps_evolves keeps_read (fun o' => published o' m'));
    [|exact Hpub|by apply establishes_payload|].
  { intros o2 o3 H23. by apply published_grows, evolves_grows. }
  intros ps o2 Hpub2 Hps. cbn beta.
  eapply (wp_keep evolves keeps keeps_evolves keeps_read (fun o' => forall i, im_manifest i = m' -> im_payload_status i = ps ->
    inspectable o' v i)) with (post := fun r _ => forall i, r = Ok i -> im_manifest i = m' /\ im_payload_status i = ps).
  { intros o3 o4 H34 Hi i Hm1 Hps1. eapply inspectable_evolves; [done|]. by apply Hi. }
  { intros i Hi Hs. unfold inspectable. rewrite Hi, Hs. by split_and!. }
  2: { intros r o3 Hi Hr i Hri. destruct (Hr i Hri). by apply Hi. }
  apply after_read; [apply read_only_lifecycle|]. intros lifecycle o3 _.
  apply after_read; [apply read_only_retention|]. intros retention o4 _.
  apply after_read; [read_only|]. intros retention_record o5 _.
  apply after_read; [apply read_only_gc_transitions|]. intros transitions o6 _.
  apply wp_and_then. apply after_read; [apply read_only_recoveries|]. intros recoveries o7 _.
  destruct recoveries as [rs|e]; [|done]. intros i [= <-]. done.
Qed.

Lemma parse_u64_padded v : is_u64 v = true -> parse_u64 (zero_padded CHECKPOINT_WIDTH v) = Some v.
Proof.
  intros Hv. pose proof (u64_padded v Hv) as Hb.
  destruct (fixed_digits_ok (2 ^ 64 - 1) CHECKPOINT_WIDTH (zero_padded CHECKPOINT_WIDTH v) v) as [_ Hp];
    [unfold CHECKPOINT_WIDTH; lia|by change (10 ^ Z.of_nat CHECKPOINT_WIDTH) with 100000000000000000000|].
  unfold parse_u64. destruct (strip_prefix "+" _) as [r|] eqn:Hplus; cbn [default from_option].
  - apply strip_prefix_some in Hplus. pose proof (zero_padded_digits CHECKPOINT_WIDTH v) as Hd.
    rewrite Hplus in Hd. discriminate Hd; [unfold CHECKPOINT_WIDTH; lia|done].
  - apply Hp. split; [done|]. clear Hp. range.
Qed.

Lemma version_of_manifest_key v : is_u64 v = true ->
  checkpoint_version_from_manifest_key (checkpoint_manifest v) = Ok v.
Proof.
  intros Hv. unfold checkpoint_version_from_manifest_key, checkpoint_manifest. cbn [as_str].
  rewrite (proj2 (strip_prefix_some _ _ _) eq_refl). cbn [mbind option_bind].
  rewrite strip_suffix_self. cbn [mbind option_bind]. by rewrite parse_u64_padded.
Qed.

Lemma manifest_object_ok l v key l' : manifest_object l = Ok (v, key, l') -> key = Key l /\ l' = l.
Proof.
  intros (k & Hk%map_err_ok%parse_ok & Hv)%bind_ok. apply bind_ok in Hv as (v' & _ & [= <- <- <-]). done.
Qed.

(** The manifests inspected so far: in order, the valid ones published with
    their objects. *)
Record inspected (xs : list (Z * ObjectKey * string)) (st : inspection_state) (o : objects) : Prop := {
  inspected_versions : ci_checkpoint_version <$> inspections st = (fun x => x.1.1) <$> xs;
  inspected_valid i : i ∈ inspections st -> is_valid i = true ->
    exists m, published o m /\ checkpoint_version m = ci_checkpoint_version i /\ valid m /\ has_objects o m;
  inspected_newest : newest_valid st = last (ci_checkpoint_version <$> List.filter is_valid (inspections st))
}.

Lemma inspected_evolves xs st o o' : evolves o o' -> inspected xs st o -> inspected xs st o'.
Proof.
  intros Hev%evolves_grows [Hvers Hvalid Hnew]. split; [done| |done]. intros i Hi Hv.
  destruct (Hvalid i Hi Hv) as (m & Hm & Hver & Hval & Ho). exists m.
  split_and!; [by eapply published_grows|done|done|]. eapply has_objects_grows; eauto using published_typed.
Qed.

Lemma inspected_snoc xs x st st' i o :
  inspected xs st o -> inspections st' = inspections st ++ [i] -> ci_checkpoint_version i = x.1.1 ->
  newest_valid st' = (if is_valid i then Some (ci_checkpoint_version i) else newest_valid st) ->
  (is_valid i = true -> exists m, published o m /\ checkpoint_version m = ci_checkpoint_version i /\ valid m /\ has_objects o m) ->
  inspected (xs ++ [x]) st' o.
Proof.
  intros [Hvers Hvalid Hnew] Hins Hi Hnew' Hv. constructor; rewrite Hins.
  - by rewrite !fmap_app, Hvers, !fmap_cons, Hi.
  - intros j [Hj|Hj]%elem_of_app Hjv; [by apply Hvalid|]. apply list_elem_of_singleton in Hj as ->. auto.
  - rewrite Hnew', List.filter_app. cbn [List.filter]. destruct (is_valid i).
    + by rewrite fmap_app, fmap_cons, fmap_nil, last_snoc.
    + by rewrite app_nil_r.
Qed.

Lemma establishes_inspect_one xs x st o : as_str x.1.2 = x.2 -> inspected xs st o ->
  ensures evolves keeps (inspect_one st x) (fun st' => inspected (xs ++ [x]) st') o.
Proof.
  destruct x as [[v key] l]. cbn [fst snd]. intros Hl Hst. apply wp_bind.
  eapply (wp_keep evolves keeps keeps_evolves keeps_read (inspected xs st));
    [intros o1 o2; apply inspected_evolves|exact Hst|by apply establishes_inspect|].
  intros [i|reason] o1 Hst1 Hi st' [= <-].
  - destruct (Hi i eq_refl) as (Hpub & Hver & Hv & Ho). destruct (im_payload_status i) as [u|e];
      (eapply inspected_snoc; [exact Hst1|reflexivity|done|done|]); [|done].
    intros _. exists (im_manifest i). eauto.
  - eapply inspected_snoc; [exact Hst1|reflexivity|done..].
Qed.

#[local] Instance object_version_le_trans : Transitive object_version_le.
Proof. intros a b c. unfold object_version_le. lia. Qed.
#[local] Instance object_version_le_total : Total object_version_le.
Proof. intros a b. unfold object_version_le. lia. Qed.

(** What an inspection reports: the manifests in the order of their versions,
    every one that was published before among them; a valid one is published
    with its objects, and the newest valid one is named. *)
Record reports (o : objects) (i : CheckpointAdminInspection) (o' : objects) : Prop := {
  reports_sorted : StronglySorted Z.le (ci_checkpoint_version <$> inspected_manifests i);
  reports_all m : published o m -> checkpoint_version m ∈ ci_checkpoint_version <$> inspected_manifests i;
  reports_valid x : x ∈ inspected_manifests i -> is_valid x = true ->
    exists m, published o' m /\ checkpoint_version m = ci_checkpoint_version x /\ valid m /\ has_objects o' m;
  reports_latest : latest_valid_checkpoint i =
    last (ci_checkpoint_version <$> List.filter is_valid (inspected_manifests i))
}.

Lemma reports_evolves o i o1 o2 : evolves o1 o2 -> reports o i o1 -> reports o i o2.
Proof.
  intros Hev%evolves_grows [Hs Ha Hv Hl]. split; [done|done| |done]. intros x Hx Hxv.
  destruct (Hv x Hx Hxv) as (m & Hm & Hver & Hval & Ho). exists m.
  split_and!; [by eapply published_grows|done|done|]. eapply has_objects_grows; eauto using published_typed.
Qed.

(** The last of a sorted list is its greatest. *)
Lemma last_greatest (l : list Z) v : StronglySorted Z.le l -> last l = Some v -> forall w, w ∈ l -> w <= v.
Proof.
  intros Hs (l' & ->)%last_Some w [Hw|Hw]%elem_of_app.
  - by eapply (StronglySorted_app_1_elem_of Z.le); [exact Hs|exact Hw|left].
  - apply list_elem_of_singleton in Hw as ->. lia.
Qed.

Lemma latest_valid_spec l : StronglySorted Z.le (ci_checkpoint_version <$> l) ->
  match last (ci_checkpoint_version <$> List.filter is_valid l) with
  | Some v => (exists x, x ∈ l /\ is_valid x = true /\ ci_checkpoint_version x = v) /\
      forall x, x ∈ l -> is_valid x = true -> ci_checkpoint_version x <= v
  | None => forall x, x ∈ l -> is_valid x = false
  end.
Proof.
  intros Hs. assert (forall x, x ∈ List.filter is_valid l <-> x ∈ l /\ is_valid x = true) as Hf.
  { intros x. by rewrite !list_elem_of_In, filter_In. }
  assert (StronglySorted Z.le (ci_checkpoint_version <$> List.filter is_valid l)) as Hsf.
  { clear Hf. induction l as [|x l IH]; [constructor|]. rewrite fmap_cons in Hs. apply StronglySorted_inv in Hs as [Hs Hx].
    cbn [List.filter]. destruct (is_valid x); [|by apply IH]. rewrite fmap_cons. constructor; [by apply IH|].
    apply Forall_fmap, Forall_forall. intros y [Hy _]%list_elem_of_In%filter_In. rewrite Forall_fmap, Forall_forall in Hx.
    by apply Hx, list_elem_of_In. }
  destruct (last _) as [v|] eqn:Hl.
  - split.
    + pose proof (last_Some_elem_of _ _ Hl) as Hv. apply list_elem_of_fmap in Hv as (x & -> & Hx%Hf). naive_solver.
    + intros x Hx Hxv. eapply last_greatest; [exact Hsf|exact Hl|]. apply list_elem_of_fmap. exists x. by rewrite Hf.
  - intros x Hx. destruct (is_valid x) eqn:Hxv; [|done]. apply last_None, fmap_nil_inv in Hl.
    exfalso. apply (not_elem_of_nil x). rewrite <-Hl. by apply Hf.
Qed.

Lemma establishes_inspection o : ensures evolves keeps inspect_checkpoints (fun i o' => reports o i o') o.
Proof.
  eapply establishes_then; [apply (shows_listing keeps keeps_evolves keeps_read)|]. intros locations o1 Hev1 Hlocs.
  apply establishes_lift. intros objs Hobjs%try_map_ok.
  eapply establishes_then.
  - apply (ensures_fold_each evolves keeps keeps_evolves keeps_read inspect_one inspected).
    + intros ????. apply inspected_evolves.
    + constructor; [done|by intros i Hi%not_elem_of_nil|done].
    + intros xs x st o2 Hx _ Hst. apply establishes_inspect_one; [|done].
      rewrite merge_sort_Permutation in Hx. apply list_elem_of_lookup in Hx as [n Hn].
      destruct (Forall2_lookup_r _ _ _ _ _ Hobjs Hn) as (l & _ & Hl).
      destruct x as [[v key] l']. by apply manifest_object_ok in Hl as [-> ->].
  - intros st o2 _ [Hvers Hvalid Hnew] i [= <-]. constructor; cbn [inspected_manifests latest_valid_checkpoint]; [| |done..].
    + rewrite Hvers. apply (StronglySorted_fmap (fun x => x.1.1) object_version_le); [done|].
      apply StronglySorted_merge_sort; apply _.
    + intros m Hm. rewrite Hvers. pose proof (published_typed _ _ Hm) as [Hu _].
      apply (published_grows o o1) in Hm as (body & Hb & _); [|by apply evolves_grows].
      assert (manifest_location (checkpoint_version m) ∈ locations) as Hin.
      { apply Hlocs. split; [by eexists|apply manifest_location_under]. }
      apply list_elem_of_lookup in Hin as [n Hn]. destruct (Forall2_lookup_l _ _ _ _ _ Hobjs Hn) as (x & Hx & Hobj).
      apply list_elem_of_fmap. exists x. rewrite merge_sort_Permutation. split; [|by eapply list_elem_of_lookup_2].
      apply bind_ok in Hobj as (k & Hk%map_err_ok%parse_ok & Hv). subst k.
      change (Key (manifest_location (checkpoint_version m))) with (checkpoint_manifest (checkpoint_version m)) in Hv.
      rewrite version_of_manifest_key in Hv by done. by injection Hv as <-.
Qed.

(** * Operations that write *)

Lemma respects_repair_marker o : wp evolves keeps repair_latest_candidate_marker (fun _ _ => True) o.
Proof.
  apply respects_then; [eapply respects_ensures, establishes_inspection|]. intros i o1 _.
  destruct (latest_valid_checkpoint i) as [v|]; [|done].
  apply respects_then; [apply respects_read_only; read_only|]. intros body o2 _. apply respects_lift. intros m _.
  apply respects_then; [apply respects_read_only, read_only_parent|]. intros [] o3 _.
  apply respects_then; [apply respects_read_only, read_only_states|]. intros [] o4 _.
  apply respects_then; [apply respects_read_only, read_only_outputs|]. intros [] o5 _.
  apply after_read; [apply read_only_now|]. intros now o6 _. apply after_read; [by apply read_only_request|].
  intros existing o7 _. destruct (newer_marker _ _); [done|]. apply respects_lift. intros b _.
  apply respects_then; [|done]. apply respects_bind; [|done]. apply respects_replace.
  by exists CheckpointLatestCandidateMarker.
Qed.

Lemma respects_repair_lifecycle_record v o : is_u64 v = true ->
  wp evolves keeps (repair_lifecycle_record v) (fun _ _ => True) o.
Proof.
  intros Hv. apply respects_then; [apply respects_read_only; read_only|]. intros body o1 _.
  apply respects_lift. intros m _. apply respects_lift. intros [] _.
  apply after_read; [apply read_only_now|]. intros now o2 _.
  apply after_read; [apply read_only_lifecycle|]. intros existing o3 _. cbv zeta. destruct (negb _); [done|].
  apply respects_lift. intros b _. apply respects_then; [|done]. apply respects_bind; [|done].
  apply respects_replace. by exists (CheckpointLifecycleObject v).
Qed.

Lemma respects_repair_lifecycle o : wp evolves keeps repair_checkpoint_lifecycle_records (fun _ _ => True) o.
Proof.
  eapply wp_and_then. eapply wp_mono; [|apply establishes_inspection]. intros [i|e] o1 Hi; [|done].
  specialize (Hi i eq_refl) as [_ _ Hvalid _]. apply respects_then; [|done].
  eapply wp_mono; [|apply (wp_collect evolves keeps keeps_evolves keeps_read _ (fun _ _ _ => True))]; [done..|].
  intros v o2 Hv _. eapply wp_mono; [done|]. apply respects_repair_lifecycle_record.
  apply list_elem_of_fmap in Hv as (x & -> & [Hx Hxv]%list_elem_of_In%filter_In).
  destruct (Hvalid x) as (m & Hm & <- & _); [by apply list_elem_of_In|done|]. apply (published_typed _ _ Hm).
Qed.

Lemma respects_repair o : wp evolves keeps repair_checkpoint_admin_records (fun _ _ => True) o.
Proof.
  apply respects_then; [apply respects_repair_lifecycle|]. intros repaired o1 _.
  apply respects_then; [apply respects_repair_marker|done].
Qed.

(** * Garbage collection runs *)

Lemma read_only_conflicting_retention id policy plan :
  read_only (validate_no_conflicting_retention_records id policy plan).
Proof. unfold validate_no_conflicting_retention_records. read_only. Qed.
Lemma read_only_conflicting_transitions id policy plan :
  read_only (validate_no_conflicting_gc_transition_records id policy plan).
Proof. unfold validate_no_conflicting_gc_transition_records. read_only. Qed.

(** No run is executed: it takes a coordinator that does not exist yet. *)
Lemma refuses_run id policy plan o :
  ensures evolves quiet (execute_garbage_collection_plan_with_evidence id policy plan) (fun _ _ => False) o.
Proof.
  apply refuses_lift. intros key _. apply refuses_after; [read_only|]. intros [] o1 _.
  apply refuses_after; [apply read_only_plan|]. intros expected o2 _. apply refuses_lift. intros [] _.
  apply refuses_after; [apply read_only_conflicting_retention|]. intros [] o3 _.
  apply refuses_after; [apply read_only_conflicting_transitions|]. intros [] o4 _. by apply refuses_then.
Qed.

(** * Recovery transitions *)

(** The record is stored for the transition. *)
Definition recovered (o : objects) (version : Z) (id : string) (r : CheckpointRecoveryTransitionRecordV1) : Prop :=
  exists key body, checkpoint_recovery_transition_record version id = Ok key /\
    o !! as_str key = Some body /\ recovery_from_slice body = Some r.

Lemma recovery_located version id key : is_u64 version = true ->
  checkpoint_recovery_transition_record version id = Ok key ->
  located (CheckpointRecoveryTransitionRecord version id) (as_str key).
Proof. intros Hv Hk. split; [done|]. cbn [build]. rewrite Hk. by destruct key. Qed.

Lemma recovered_grows o o' version id r : is_u64 version = true -> grows o o' ->
  recovered o version id r -> recovered o' version id r.
Proof.
  intros Hv Hg (key & body & Hk & Hl & Hr). exists key, body. split_and!; [done| |done].
  apply Hg; [done|]. eapply located_fixed; [by eapply recovery_located|auto].
Qed.

(** What a recovery record says: the manifest it was written for is published
    with its objects. *)
Definition recovery_of (o : objects) (version : Z) (id : string) (r : CheckpointRecoveryTransitionRecordV1) : Prop :=
  recovered o version id r /\ rv_checkpoint_version r = version /\ rv_transition_id r = id /\
  exists m, published o m /\ checkpoint_version m = version /\ valid m /\ has_objects o m.

Lemma recovery_of_evolves o o' v id r : is_u64 v = true -> evolves o o' ->
  recovery_of o v id r -> recovery_of o' v id r.
Proof.
  intros Hv Hev%evolves_grows (Hrec & Hver & Hid & m & Hm & Hmv & Hval & Ho).
  split_and!; [by eapply recovered_grows|done|done|]. exists m.
  split_and!; [by eapply published_grows|done|done|]. eapply has_objects_grows; eauto using published_typed.
Qed.

Lemma manifest_key_readable v : is_u64 v = true ->
  deserialize (as_str (checkpoint_manifest v)) = Some (checkpoint_manifest v).
Proof.
  intros Hv. destruct (build_text (CheckpointManifestObject v) (checkpoint_manifest v) eq_refl) as [Hadm Ht].
  unfold deserialize. rewrite Ht. cbn [as_str]. by rewrite parse_readable.
Qed.

Lemma establishes_published_manifest v o :
  ensures evolves keeps (read_published_checkpoint_manifest v)
    (fun m o' => published o' m /\ checkpoint_version m = v /\ valid m /\ has_objects o' m) o.
Proof.
  eapply establishes_then; [apply establishes_fetch|]. intros body o1 _ Hbody.
  apply establishes_lift. intros m (Hm & Hv & Hkey)%decode_manifest_ok.
  apply establishes_lift. intros [] Hver%fail_if_ok. apply negb_false_iff, Z.eqb_eq in Hver.
  assert (published o1 m) as Hpub by (exists body; unfold manifest_location; by rewrite Hver).
  pose proof (published_typed _ _ Hpub) as Ht.
  eapply establishes_then; [by apply establishes_parent_visible|]. intros [] o2 Hev2 _.
  eapply establishes_then; [by apply establishes_states_exist|]. intros [] o3 Hev3 Hs.
  eapply establishes_then; [by apply establishes_outputs_exist|]. intros [] o4 Hev4 Ho.
  assert (has_objects o4 m) as Hobjs.
  { apply has_objects_of; [|done]. intros s Hin. eapply object_there_evolves; eauto. }
  eapply establishes_then; [apply (ensures_read_only evolves keeps keeps_evolves keeps_read), read_only_lifecycle|].
  intros lifecycle o5 Hev5 _. apply establishes_lift. intros [] _. apply establishes_lift. intros [] _ m' [= <-].
  assert (grows o1 o5) as Hg.
  { apply evolves_grows. transitivity o2; [done|]. transitivity o3; [done|]. by transitivity o4. }
  split_and!; [by eapply published_grows|done|done|]. by eapply (has_objects_grows o4); [| |apply evolves_grows|].
Qed.

Lemma put_create_stored l body o : (forall v, is_u64 v = true -> l <> manifest_location v) ->
  wp evolves keeps (request (PutCreate l body)) (fun r o' => r = Ok tt -> o' !! l = Some body) o.
Proof.
  intros Hl o1 r o2 Hev Hans. destruct (respects_put l body o Hl o1 r o2 Hev Hans) as [Hk _]. split; [done|].
  intros ->. destruct Hans as [_ ->]. apply lookup_insert_eq.
Qed.

Lemma establishes_write_recovery v id mode n k o : is_u64 v = true -> is_u64 n = true -> is_u64 k = true ->
  ensures evolves keeps (write_checkpoint_recovery_transition_record_with_id v id mode n k)
    (fun r o' => recovery_of o' v id r) o.
Proof.
  intros Hv Hn Hk. eapply establishes_then; [apply establishes_fetch|]. intros body o1 _ _.
  eapply establishes_then; [apply establishes_published_manifest|]. intros m o2 _ Hm.
  apply after_read; [apply read_only_now|]. intros now o3 Hev3.
  destruct Hm as (Hpub & Hver & Hval & Hobjs). cbv zeta.
  set (record := recovery_for_manifest m body id mode n k now).
  apply establishes_lift. intros key Hkey%map_err_ok. apply establishes_lift. intros b Hb%ok_or_ok.
  assert (recovery_from_slice b = Some record) as Hrt.
  { eapply recovery_round_trip; [|exact Hb]. split_and!; try done; cbn; rewrite ?Hver; [done|].
    unfold manifest_key. rewrite Hver. by apply manifest_key_readable. }
  apply wp_bind. eapply (wp_reach evolves keeps keeps_evolves keeps_read); [apply put_create_stored|].
  { intros w Hw. eapply located_ne; [apply (recovery_located v id key Hv Hkey)|by apply located_manifest|done]. }
  intros r o4 Hev4 Hr. assert (grows o2 o4) as Hg by by transitivity o3; apply evolves_grows.
  destruct r as [[]|e]; [|by destruct e]. intros r' [= <-]. split_and!; [|done|done|].
  - exists key, b. auto.
  - exists m. split_and!; [by eapply published_grows|done|done|]. eapply has_objects_grows; eauto using published_typed.
Qed.

Lemma shows_recovery v id r o : is_u64 v = true -> recovered o v id r ->
  ensures evolves quiet (read_checkpoint_recovery_transition_record v id) (fun r' _ => r' = r) o.
Proof.
  intros Hv Hrec. apply shows_lift. intros key Hk%map_err_ok.
  eapply (shows_then quiet quiet_evolves quiet_read); [apply (shows_fetch quiet quiet_evolves quiet_read)|].
  intros body o1 Hev Hbody. apply shows_lift. intros r' Hr'%ok_or_ok. apply shows_lift. intros [] _.
  assert (r' = r) as ->.
  { apply (recovered_grows o o1) in Hrec as (key2 & body2 & Hk2 & Hl2 & Hr2); [|done|by apply evolves_grows].
    rewrite Hk in Hk2. injection Hk2 as <-. cbv beta in Hbody. congruence. }
  eapply (shows_then quiet quiet_evolves quiet_read); [apply (shows_fetch quiet quiet_evolves quiet_read)|].
  intros b o2 _ _. apply shows_lift. intros [] _ r'' [= <-]. done.
Qed.
End admin.
