(* ===== verification/Serde.v ===== *)
(** The text [serde_json] writes for numbers and strings: a parameter of the
    development, with the documented facts the program relies on, and a concrete
    instance of it, on which the theorems are evaluated. *)
From S2P Require Import Prelude BTree Json Digits.

(** * [serde_json] text, a parameter *)

(** [Number::to_string] and [serde_json::to_string] of a string. *)
Class SerdeJson := {
  ser_number : Number -> string;
  ser_string : string -> string
}.

(** What the documentation of [serde_json] promises of them: numbers are
    written in JSON syntax, integers in decimal and distinct numbers
    differently; strings are JSON string literals, which end at their closing
    quote. *)
Class SerdeJsonLaws `{SerdeJson} : Prop := {
  ser_number_numeric n : forallb numeric (as_bytes (ser_number n)) = true;
  ser_number_nonempty n : ser_number n <> EmptyString;
  ser_number_inj n m : wf_number n = true -> wf_number m = true ->
    ser_number n = ser_number m -> n = m;
  ser_number_pos n : 0 <= n <= u64_max -> ser_number (PosInt n) = nat_to_string n;
  ser_number_neg n : i64_min <= n < 0 -> ser_number (NegInt n) = "-" +:+ nat_to_string (- n);
  ser_string_head s : exists t, as_bytes (ser_string s) = 34 :: t;
  ser_string_prefix s s' r r' :
    as_bytes (ser_string s) ++ r = as_bytes (ser_string s') ++ r' -> s = s' /\ r = r'
}.

(** * String literals *)

Definition hex_digit (d : Z) : Z := if d <? 10 then 48 + d else 87 + d.

(** [format!("\\u{:04x}", b)] for a byte. *)
Definition unicode_escape (b : Z) : bytes :=
  [92; 117; 48; 48; hex_digit (b / 16); hex_digit (b mod 16)].

Fixpoint is_prefix (p q : bytes) : bool :=
  match p, q with
  | [], _ => true
  | _, [] => false
  | x :: p, y :: q => (x =? y) && is_prefix p q
  end.

Lemma is_prefix_app p q r r' : p ++ r = q ++ r' -> is_prefix p q || is_prefix q p = true.
Proof.
  revert q. induction p as [|x p IH]; intros [|y q] Heq; simpl in *; try done.
  injection Heq as -> Heq. rewrite !Z.eqb_refl. simpl. eauto.
Qed.

Section literal.
Context (esc : Z -> bytes).

(** A string literal: the escaped bytes between quotes. *)
Definition literal (s : string) : bytes := [34] ++ concat (esc <$> as_bytes s) ++ [34].

(** No byte's escape starts with a quote or is a prefix of another's. *)
Definition escape_ok : bool :=
  forallb (fun b => negb (is_prefix (esc b) [34]) && negb (is_prefix [34] (esc b)) &&
    forallb (fun b' => (b =? b') || negb (is_prefix (esc b) (esc b'))) (seqZ 0 256)) (seqZ 0 256).

Hypothesis Hesc : escape_ok = true.

Lemma byte_range c : 0 <= byte_of_ascii c < 256.
Proof. unfold byte_of_ascii. pose proof (Ascii.N_ascii_bounded c). lia. Qed.

Lemma escape_prefix b b' :
  0 <= b < 256 -> 0 <= b' < 256 -> is_prefix (esc b) (esc b') = true -> b = b'.
Proof using Hesc.
  intros Hb Hb' Hp. unfold escape_ok in Hesc. rewrite forallb_forall in Hesc.
  specialize (Hesc b). rewrite <-list_elem_of_In, elem_of_seqZ, andb_true_iff, forallb_forall in Hesc.
  destruct Hesc as [_ Hall]; [lia|]. specialize (Hall b').
  rewrite <-list_elem_of_In, elem_of_seqZ, Hp, orb_false_r in Hall.
  apply Z.eqb_eq, Hall. lia.
Qed.

Lemma escape_quote b r r' : 0 <= b < 256 -> esc b ++ r = 34 :: r' -> False.
Proof using Hesc.
  intros Hb Heq. unfold escape_ok in Hesc. rewrite forallb_forall in Hesc.
  specialize (Hesc b). rewrite <-list_elem_of_In, elem_of_seqZ, !andb_true_iff, !negb_true_iff in Hesc.
  destruct Hesc as [[H1 H2] _]; [lia|].
  pose proof (is_prefix_app (esc b) [34] r r' Heq). rewrite H1, H2 in *. done.
Qed.

Lemma literal_prefix s s' r r' : literal s ++ r = literal s' ++ r' -> s = s' /\ r = r'.
Proof using Hesc.
  unfold literal. intros Heq. simpl in Heq. injection Heq as Heq.
  rewrite <-!(assoc_L (++)) in Heq. revert s' Heq.
  induction s as [|c s IH]; intros [|c' s'] Heq; unfold as_bytes in *; simpl in *.
  - by injection Heq as ->.
  - exfalso. rewrite <-!(assoc_L (++)) in Heq. eapply escape_quote; [apply (byte_range c')|done].
  - exfalso. rewrite <-!(assoc_L (++)) in Heq. eapply escape_quote; [apply (byte_range c)|done].
  - rewrite <-!(assoc_L (++)) in Heq.
    assert (c = c') as ->.
    { apply (inj byte_of_ascii). pose proof (is_prefix_app _ _ _ _ Heq) as Hp.
      apply orb_true_iff in Hp as [Hp|Hp]; [|symmetry]; apply escape_prefix; auto using byte_range. }
    apply app_inv_head in Heq. by destruct (IH s' Heq) as [-> ->].
Qed.
End literal.

(** * A concrete [serde_json] *)

(** The escapes of a JSON string literal. *)
Definition json_escape (b : Z) : bytes :=
  if b =? 34 then [92; 34] else
  if b =? 92 then [92; 92] else
  if b =? 8 then [92; 98] else
  if b =? 9 then [92; 116] else
  if b =? 10 then [92; 110] else
  if b =? 12 then [92; 102] else
  if b =? 13 then [92; 114] else
  if b <? 32 then unicode_escape b else [b].

Definition ascii_of_byte (b : Z) : Ascii.ascii := Ascii.ascii_of_N (Z.to_N b).
Definition string_of_bytes (l : bytes) : string :=
  String.string_of_list_ascii (ascii_of_byte <$> l).

(** Integers in decimal; a float as its bits, marked by a trailing [.0]. *)
Definition plain_number (n : Number) : string :=
  if negb (wf_number n) then "0" else
  match n with
  | PosInt n => nat_to_string n
  | NegInt n => "-" +:+ nat_to_string (- n)
  | Float b => nat_to_string b +:+ ".0"
  end.

Definition plain_json : SerdeJson :=
  {| ser_number := plain_number; ser_string s := string_of_bytes (literal json_escape s) |}.

Lemma as_bytes_of_bytes l : Forall (fun b => 0 <= b < 256) l -> as_bytes (string_of_bytes l) = l.
Proof.
  unfold as_bytes, string_of_bytes. intros Hl. rewrite String.list_ascii_of_string_of_list_ascii.
  induction Hl as [|b l Hb _ IH]; [done|]. rewrite !fmap_cons, IH. f_equal.
  unfold byte_of_ascii, ascii_of_byte. rewrite Ascii.N_ascii_embedding; lia.
Qed.

Lemma json_escape_bytes b : 0 <= b < 256 -> Forall (fun c => 0 <= c < 256) (json_escape b).
Proof.
  intros Hb. apply Forall_forall. intros c Hc.
  assert (Hall : forallb (fun b => forallb (fun c => (0 <=? c) && (c <? 256)) (json_escape b))
    (seqZ 0 256) = true) by (vm_compute; reflexivity).
  rewrite forallb_forall in Hall. specialize (Hall b).
  rewrite <-list_elem_of_In, elem_of_seqZ, forallb_forall in Hall.
  assert (Hin : In c (json_escape b)) by (by apply list_elem_of_In).
  specialize (Hall ltac:(lia) c Hin). lia.
Qed.

Lemma json_literal_bytes s : as_bytes (@ser_string plain_json s) = literal json_escape s.
Proof.
  apply as_bytes_of_bytes. unfold literal. rewrite !Forall_app. split_and!; [by repeat constructor| |by repeat constructor].
  unfold as_bytes. induction (String.list_ascii_of_string s) as [|c l IH]; simpl; [constructor|].
  rewrite Forall_app. split; [apply json_escape_bytes, byte_range|exact IH].
Qed.

Lemma nat_to_string_bytes n : 0 <= n < 10 ^ 39 ->
  exists c t, as_bytes (nat_to_string n) = c :: t /\ forallb (fun c => (48 <=? c) && (c <=? 57)) (c :: t) = true.
Proof.
  intros Hn. pose proof (digits_nonempty n Hn). destruct (digits_spec n Hn) as [Hd _].
  unfold nat_to_string. destruct Hd as [|d l Hd Hl]; [done|].
  assert (Hrange : forall d, digit d -> (48 <=? 48 + d) && (48 + d <=? 57) = true).
  { unfold digit. intros. lia. }
  unfold as_bytes. simpl. eexists _, _. split; [done|]. simpl.
  rewrite digit_char_byte, Hrange by done. simpl. clear H Hd d.
  induction Hl as [|d l Hd _ IH]; [done|]. simpl. by rewrite digit_char_byte, Hrange, IH.
Qed.

Lemma forallb_impl {A} (p q : A -> bool) l :
  (forall x, p x = true -> q x = true) -> forallb p l = true -> forallb q l = true.
Proof. intros Hpq. rewrite !forallb_forall. eauto. Qed.

#[local] Opaque nat_to_string.

(** The three spellings: digits, a sign and digits, digits and a point. *)
Definition spelled (n : Number) : Z :=
  match n with PosInt n => n | NegInt n => - n | Float b => b end.

Lemma plain_number_wf n : wf_number n = true -> 0 <= spelled n < 10 ^ 39 /\
  plain_number n = match n with
    | PosInt n => nat_to_string n
    | NegInt n => "-" +:+ nat_to_string (- n)
    | Float b => nat_to_string b +:+ ".0"
    end.
Proof.
  intros Hn. unfold plain_number. rewrite Hn. split; [|done].
  destruct n; cbn [wf_number spelled] in *; [| |apply andb_true_iff in Hn as [Hn _]];
    rewrite in_range_true in Hn; unfold_ints; lia.
Qed.

Lemma plain_number_numeric n : forallb numeric (as_bytes (plain_number n)) = true.
Proof.
  destruct (wf_number n) eqn:Hn; [|by unfold plain_number; rewrite Hn].
  destruct (plain_number_wf n Hn) as [Hr ->]. destruct n; simpl in Hr.
  - by apply nat_to_string_numeric.
  - rewrite as_bytes_app, forallb_app, nat_to_string_numeric by done. done.
  - rewrite as_bytes_app, forallb_app, nat_to_string_numeric by done. done.
Qed.

Lemma plain_number_nonempty n : plain_number n <> EmptyString.
Proof.
  destruct (wf_number n) eqn:Hn; [|by unfold plain_number; rewrite Hn].
  destruct (plain_number_wf n Hn) as [Hr ->]. intros Heq. apply (f_equal as_bytes) in Heq.
  destruct (nat_to_string_bytes _ Hr) as (c & t & Hc & _).
  destruct n; rewrite ?as_bytes_app in Heq; simpl in Hc; by rewrite ?Hc in Heq.
Qed.

Lemma spelled_inj n m : spelled n = spelled m -> match n, m with
  | PosInt _, PosInt _ | NegInt _, NegInt _ | Float _, Float _ => n = m | _, _ => True end.
Proof. destruct n, m; simpl; try done; intros; f_equal; lia. Qed.

Lemma plain_number_inj n m : wf_number n = true -> wf_number m = true ->
  plain_number n = plain_number m -> n = m.
Proof.
  intros Hn Hm Heq. destruct (plain_number_wf n Hn) as [Hrn Hpn], (plain_number_wf m Hm) as [Hrm Hpm].
  rewrite Hpn, Hpm in Heq. apply (f_equal as_bytes) in Heq.
  destruct (nat_to_string_bytes _ Hrn) as (c & t & Hc & Hct), (nat_to_string_bytes _ Hrm) as (c' & t' & Hc' & Hct').
  assert (Hsame : as_bytes (nat_to_string (spelled n)) = as_bytes (nat_to_string (spelled m)) ->
    spelled n = spelled m).
  { intros Hs. apply nat_to_string_inj; [done..|]. by apply (inj as_bytes). }
  assert (Hdot : forall l l' r, forallb (fun c => (48 <=? c) && (c <=? 57)) l = true ->
    l = l' ++ 46 :: r -> False).
  { intros l l' r Hl ->. rewrite forallb_app in Hl. simpl in Hl.
    rewrite andb_false_r in Hl. done. }
  pose proof (spelled_inj n m) as Hinj. clear Hn Hm Hrn Hrm Hpn Hpm.
  destruct n, m; cbn [spelled] in *; rewrite ?as_bytes_app in Heq.
  - auto.
  - rewrite Hc in Heq. injection Heq as -> _. done.
  - rewrite Hc in Heq. by destruct (Hdot _ _ [48] Hct Heq).
  - rewrite Hc' in Heq. injection Heq as <- _. done.
  - apply Hinj, Hsame. by injection Heq.
  - rewrite Hc' in Heq. injection Heq as <- _. done.
  - rewrite Hc' in Heq. by destruct (Hdot _ _ [48] Hct' (eq_sym Heq)).
  - rewrite Hc in Heq. injection Heq as -> _. done.
  - apply app_inv_tail in Heq. auto.
Qed.

#[export] Instance plain_json_laws : @SerdeJsonLaws plain_json.
Proof.
  split.
  - apply plain_number_numeric.
  - apply plain_number_nonempty.
  - apply plain_number_inj.
  - intros n Hn. apply plain_number_wf. apply in_range_true, Hn.
  - intros n Hn. apply plain_number_wf. simpl. apply in_range_true. lia.
  - intros s. rewrite json_literal_bytes. unfold literal. simpl. eauto.
  - intros s s' r r'. rewrite !json_literal_bytes. apply literal_prefix. vm_compute. reflexivity.
Qed.
