(* ===== verification/JsonText.v ===== *)
(** [serde_json::to_vec]: the text of a value, with fields in insertion order, as
    derived [Serialize] implementations and [json!] give it; what the text says
    about the fields. Numbers and string literals are those of the parameter
    [SerdeJson]. *)
From S2P Require Import Prelude BTree Json Digits Serde.

Section text.
Context `{SerdeJson}.

Definition to_vec : Value -> bytes :=
  text (fun n => as_bytes (ser_number n)) (fun s => as_bytes (ser_string s)) (fun s => as_bytes (ser_string s)) id.

Context `{!SerdeJsonLaws}.

Lemma to_vec_printer : printer_ok (fun n => as_bytes (ser_number n)) (fun s => as_bytes (ser_string s))
  (fun s => as_bytes (ser_string s)) id wf_number (fun _ => true).
Proof.
  split.
  - apply ser_number_numeric.
  - intros n Hn. apply (ser_number_nonempty n). by apply (inj as_bytes).
  - intros n m Hn Hm Heq. apply ser_number_inj; [done..|]. by apply (inj as_bytes).
  - apply ser_string_head.
  - apply ser_string_prefix.
  - apply ser_string_head.
  - intros k k' r r' _ _ Heq. apply ser_string_prefix in Heq as [-> Heq]. by injection Heq.
  - done.
Qed.

(** The text of an object ends by itself, and says which JSON value it is. *)
Lemma to_vec_unique fs fs' r r' : wf_value (JObject fs) = true -> wf_value (JObject fs') = true ->
  to_vec (JObject fs) ++ r = to_vec (JObject fs') ++ r' ->
  normalize (JObject fs) = normalize (JObject fs') /\ r = r'.
Proof.
  assert (forall v, covered wf_number (fun _ => true) v = wf_value v) as Hcov.
  { induction v as [| | | |l IH|gs IH] using Value_ind'; try done; simpl.
    - induction IH as [|x l Hx _ IHl]; simpl; [done|]. by rewrite Hx, IHl.
    - f_equal. induction IH as [|x l Hx _ IHl]; simpl; [done|]. by rewrite Hx, IHl. }
  rewrite <-!Hcov. intros Hv Hw Heq. by apply (text_unique to_vec_printer (JObject fs) (JObject fs') r r').
Qed.
End text.

(** * Fields *)

Lemma find_perm {A} (p : A -> bool) l l' : l ≡ₚ l' ->
  (forall x y, x ∈ l -> y ∈ l -> p x = true -> p y = true -> x = y) -> List.find p l = List.find p l'.
Proof.
  intros Hl Hp. destruct (List.find p l) as [x|] eqn:Hx, (List.find p l') as [y|] eqn:Hy; [| | |done].
  - apply List.find_some in Hx as [Hx ?], Hy as [Hy ?]. rewrite <-list_elem_of_In in Hx, Hy. rewrite <-Hl in Hy.
    f_equal. auto.
  - apply List.find_some in Hx as [Hx ?]. eapply List.find_none in Hy; [|apply list_elem_of_In; rewrite <-Hl; by apply list_elem_of_In].
    congruence.
  - apply List.find_some in Hy as [Hy ?]. eapply List.find_none in Hx; [|apply list_elem_of_In; rewrite Hl; by apply list_elem_of_In].
    congruence.
Qed.

Lemma get_field_normalize fs k : NoDup fs.*1 ->
  get_field k (normalize (JObject fs)) = normalize <$> get_field k (JObject fs).
Proof.
  intros Hnd. cbn [normalize get_field].
  rewrite (find_perm _ _ _ (sort_on_perm fst ((fun f => (f.1, normalize f.2)) <$> fs))).
  - clear Hnd. induction fs as [|[n v] fs IH]; [done|]. rewrite fmap_cons. cbn [List.find fst snd].
    destruct (String.eqb n k); [done|exact IH].
  - intros x y Hx Hy Hxk%String.eqb_eq Hyk%String.eqb_eq. rewrite sort_on_perm in Hx, Hy.
    apply list_elem_of_fmap in Hx as ([a v] & -> & Hx), Hy as ([b w] & -> & Hy). cbn in *. subst a b. f_equal.
    assert ((k, v) = (k, w)) as [= ->]; [|done].
    apply list_elem_of_lookup in Hx as [i Hi], Hy as [j Hj].
    assert (i = j) as ->; [|congruence]. eapply NoDup_lookup; [exact Hnd|..]; rewrite list_lookup_fmap; by rewrite ?Hi, ?Hj.
Qed.

(** Equal JSON objects have equal fields. *)
Lemma normalize_field fs fs' k : NoDup fs.*1 -> NoDup fs'.*1 -> normalize (JObject fs) = normalize (JObject fs') ->
  normalize <$> get_field k (JObject fs) = normalize <$> get_field k (JObject fs').
Proof. intros ?? Heq. rewrite <-!get_field_normalize by done. by rewrite Heq. Qed.

(** * Numbers of the integer types *)

Definition json_of_unsigned (n : Z) : Value := JNumber (PosInt n).

Lemma json_of_i64_inj n m : json_of_i64 n = json_of_i64 m -> n = m.
Proof. unfold json_of_i64. repeat case_match; naive_solver. Qed.
Lemma json_of_i64_wf n : is_i64 n = true -> wf_value (json_of_i64 n) = true.
Proof. unfold json_of_i64. case_match; cbn; range. Qed.
