(* ===== verification/JsonRead.v ===== *)
(** A reader of JSON texts for the concrete [serde_json] of [Serde.v]: it reads
    back every value without floats. The parameters that stand for
    [serde_json::from_slice] can be instantiated with it. *)
From S2P Require Import Prelude BTree Json Digits Serde JsonText.

#[local] Existing Instance plain_json.

(** * Strings *)

Definition unhex (c : Z) : Z := if c <? 58 then c - 48 else c - 87.
Definition unescape (c : Z) : Z :=
  if c =? 98 then 8 else if c =? 116 then 9 else if c =? 110 then 10 else if c =? 102 then 12 else if c =? 114 then 13 else c.

(** The text up to the closing quote. *)
Fixpoint unquote (l : bytes) : option (bytes * bytes) :=
  match l with
  | [] => None
  | c :: r =>
      if c =? 34 then Some ([], r)
      else if c =? 92 then
        match r with
        | e :: r =>
            if e =? 117 then
              match r with
              | _ :: _ :: a :: b :: r => prod_map (cons (16 * unhex a + unhex b)) id <$> unquote r
              | _ => None
              end
            else prod_map (cons (unescape e)) id <$> unquote r
        | [] => None
        end
      else prod_map (cons c) id <$> unquote r
  end.

Lemma unquote_escape b r : 0 <= b < 256 -> unquote (json_escape b ++ r) = prod_map (cons b) id <$> unquote r.
Proof.
  intros Hb. unfold json_escape.
  destruct (Z.eqb_spec b 34) as [->|]; [done|]. destruct (Z.eqb_spec b 92) as [->|]; [done|].
  destruct (Z.eqb_spec b 8) as [->|]; [done|]. destruct (Z.eqb_spec b 9) as [->|]; [done|].
  destruct (Z.eqb_spec b 10) as [->|]; [done|]. destruct (Z.eqb_spec b 12) as [->|]; [done|].
  destruct (Z.eqb_spec b 13) as [->|]; [done|]. destruct (Z.ltb_spec b 32).
  - assert (16 * unhex (hex_digit (b / 16)) + unhex (hex_digit (b mod 16)) = b) as Hx.
    { assert (forallb (fun b => 16 * unhex (hex_digit (b / 16)) + unhex (hex_digit (b mod 16)) =? b) (seqZ 0 32) = true)
        as Hall by (vm_compute; reflexivity).
      rewrite forallb_forall in Hall. apply Z.eqb_eq, Hall, list_elem_of_In, elem_of_seqZ. lia. }
    unfold unicode_escape. cbn [app unquote Z.eqb Pos.eqb]. by rewrite Hx.
  - cbn [app unquote]. by rewrite (proj2 (Z.eqb_neq b 34)), (proj2 (Z.eqb_neq b 92)).
Qed.

Lemma string_of_as_bytes s : string_of_bytes (as_bytes s) = s.
Proof.
  apply (inj as_bytes). apply as_bytes_of_bytes. apply Forall_forall. intros b (c & -> & _)%list_elem_of_fmap. apply byte_range.
Qed.

Lemma unquote_literal s r : unquote (concat (json_escape <$> as_bytes s) ++ 34 :: r) = Some (as_bytes s, r).
Proof.
  unfold as_bytes. induction (String.list_ascii_of_string s) as [|c l IH]; [done|]. rewrite !fmap_cons. cbn [concat].
  rewrite <-(assoc_L (++)), unquote_escape by apply byte_range. by rewrite IH.
Qed.

(** * Numbers *)

Fixpoint span (l : bytes) : bytes * bytes :=
  match l with
  | [] => ([], [])
  | c :: r => if numeric c then prod_map (cons c) id (span r) else ([], l)
  end.

Lemma span_app l r : forallb numeric l = true -> delimited r -> span (l ++ r) = (l, r).
Proof.
  induction l as [|c l IH]; cbn [forallb app span].
  - intros _ Hr. destruct r as [|c r]; [done|]. cbn in *. by rewrite Hr.
  - intros [Hc Hl]%andb_true_iff Hr. by rewrite Hc, IH.
Qed.

Definition read_number (l : bytes) : option Number :=
  match l with
  | [] => None
  | c :: r => if c =? 45 then Some (NegInt (- undigits (string_digits (string_of_bytes r))))
              else Some (PosInt (undigits (string_digits (string_of_bytes l))))
  end.

Definition integral (n : Number) : bool := match n with Float _ => false | _ => wf_number n end.

Lemma digits_read n : 0 <= n < 10 ^ 39 -> undigits (string_digits (string_of_bytes (as_bytes (nat_to_string n)))) = n.
Proof.
  intros Hn. rewrite string_of_as_bytes. destruct (digits_spec n Hn) as [Hd Hu]. unfold nat_to_string.
  by rewrite string_digits_string.
Qed.

Lemma read_number_text n : integral n = true -> read_number (as_bytes (plain_number n)) = Some n.
Proof.
  intros Hn. assert (wf_number n = true) as Hwf by by destruct n. destruct (plain_number_wf n Hwf) as [Hr ->].
  destruct n as [n|n|]; [| |done]; cbn [spelled] in Hr.
  - destruct (nat_to_string_bytes n Hr) as (c & t & Hc & Hct). unfold read_number. rewrite Hc.
    cbn [forallb] in Hct. apply andb_true_iff in Hct as [Hct _]. rewrite (proj2 (Z.eqb_neq c 45)) by lia.
    by rewrite <-Hc, digits_read.
  - rewrite as_bytes_app. change (as_bytes "-") with [45]. cbn [app read_number Z.eqb Pos.eqb]. rewrite digits_read by done.
    do 2 f_equal. lia.
Qed.

(** * Values *)

Definition strip (word : bytes) (l : bytes) : option bytes :=
  if bool_decide (take (length word) l = word) then Some (drop (length word) l) else None.

Fixpoint read (fuel : nat) (l : bytes) : option (Value * bytes) :=
  match fuel, l with
  | S fuel, c :: r =>
      if c =? 34 then '(s, r) ← unquote r; Some (JString (string_of_bytes s), r)
      else if c =? 91 then
        if bool_decide (head r = Some 93) then Some (JArray [], tail r)
        else prod_map JArray id <$> read_elements fuel r
      else if c =? 123 then
        if bool_decide (head r = Some 125) then Some (JObject [], tail r)
        else prod_map JObject id <$> read_fields fuel r
      else if c =? 110 then pair JNull <$> strip (as_bytes "ull") r
      else if c =? 116 then pair (JBool true) <$> strip (as_bytes "rue") r
      else if c =? 102 then pair (JBool false) <$> strip (as_bytes "alse") r
      else let '(digits, r) := span l in (fun n => (JNumber n, r)) <$> read_number digits
  | _, _ => None
  end
with read_elements (fuel : nat) (l : bytes) : option (list Value * bytes) :=
  match fuel with
  | O => None
  | S fuel =>
      '(v, r) ← read fuel l;
      match r with
      | 44 :: r => prod_map (cons v) id <$> read_elements fuel r
      | 93 :: r => Some ([v], r)
      | _ => None
      end
  end
with read_fields (fuel : nat) (l : bytes) : option (list (string * Value) * bytes) :=
  match fuel, l with
  | S fuel, 34 :: r =>
      '(k, r) ← unquote r;
      match r with
      | 58 :: r =>
          '(v, r) ← read fuel r;
          match r with
          | 44 :: r => prod_map (cons (string_of_bytes k, v)) id <$> read_fields fuel r
          | 125 :: r => Some ([(string_of_bytes k, v)], r)
          | _ => None
          end
      | _ => None
      end
  | _, _ => None
  end.

(** Without floats. *)
Fixpoint plain_value (v : Value) : bool :=
  match v with
  | JNumber n => integral n
  | JArray l => forallb plain_value l
  | JObject fs => forallb (fun f => plain_value f.2) fs
  | _ => true
  end.

(** ** Values are read back *)

Lemma to_vec_string s : to_vec (JString s) = 34 :: concat (json_escape <$> as_bytes s) ++ [34].
Proof. unfold to_vec. cbn [text]. by rewrite json_literal_bytes. Qed.

(** The text of the elements and of the fields. *)
Lemma to_vec_array l : to_vec (JArray l) = 91 :: join [44] (to_vec <$> l) ++ [93].
Proof. done. Qed.
Definition field_text (f : string * Value) : bytes := to_vec (JString f.1) ++ 58 :: to_vec f.2.
Lemma to_vec_object fs : to_vec (JObject fs) = 123 :: join [44] (field_text <$> fs) ++ [125].
Proof. unfold to_vec. cbn [text app id]. do 3 f_equal. rewrite <-list_fmap_compose. apply list_fmap_ext. by intros i [k v] _. Qed.

Lemma join_cons sep x y l : join sep (x :: y :: l) = x ++ sep ++ join sep (y :: l).
Proof. cbn. by rewrite <-!(assoc_L (++)). Qed.

Definition reads_back (v : Value) : Prop :=
  forall fuel r, (length (to_vec v) < fuel)%nat -> delimited r -> read fuel (to_vec v ++ r) = Some (v, r).

Lemma read_elements_back v l fuel r : Forall reads_back (v :: l) -> (length (join [44%Z] (to_vec <$> v :: l)) + 1 < fuel)%nat ->
  read_elements fuel (join [44] (to_vec <$> v :: l) ++ 93 :: r) = Some (v :: l, r).
Proof.
  revert v fuel. induction l as [|w l IH]; intros v fuel Hl Hfuel; apply Forall_cons in Hl as [Hv Hl];
    (destruct fuel as [|fuel]; [lia|]); cbn [read_elements].
  - cbn [fmap list_fmap join concat] in *. rewrite app_nil_r in *. by rewrite Hv by (lia || done).
  - rewrite !fmap_cons, join_cons in *. rewrite <-!(assoc_L (++)). rewrite !length_app in Hfuel. cbn [length] in Hfuel.
    rewrite Hv by (lia || done). cbn [mbind option_bind app]. rewrite <-fmap_cons in *. by rewrite IH by (done || lia).
Qed.

Lemma read_fields_back f l fuel r : Forall (fun f => reads_back f.2) (f :: l) ->
  (length (join [44%Z] (field_text <$> f :: l)) + 1 < fuel)%nat ->
  read_fields fuel (join [44] (field_text <$> f :: l) ++ 125 :: r) = Some (f :: l, r).
Proof.
  revert f fuel. induction l as [|w l IH]; intros [k v] fuel Hl Hfuel; apply Forall_cons in Hl as [Hv Hl];
    (destruct fuel as [|fuel]; [lia|]); cbn [snd] in Hv.
  - cbn [fmap list_fmap join concat] in *. rewrite app_nil_r in *. unfold field_text in *. cbn [fst snd] in *.
    rewrite to_vec_string in *. rewrite length_app in Hfuel. cbn [length] in Hfuel. cbn [app read_fields].
    rewrite <-!(assoc_L (++)). cbn [app]. rewrite unquote_literal. cbn [mbind option_bind].
    rewrite Hv by (lia || done). cbn [mbind option_bind]. by rewrite string_of_as_bytes.
  - rewrite !fmap_cons, join_cons in *. rewrite <-fmap_cons in *. rewrite !length_app in Hfuel.
    unfold field_text at 1 in Hfuel. unfold field_text at 1. cbn [fst snd] in *. rewrite to_vec_string in *.
    rewrite length_app in Hfuel. cbn [length] in Hfuel. rewrite <-!(assoc_L (++)). cbn [app read_fields].
    rewrite <-!(assoc_L (++)). cbn [app]. rewrite unquote_literal. cbn [mbind option_bind].
    rewrite Hv by (lia || done). cbn [mbind option_bind]. rewrite string_of_as_bytes. by rewrite IH by (done || lia).
Qed.

Lemma number_head n : integral n = true ->
  exists c t, as_bytes (plain_number n) = c :: t /\ (c = 45 \/ 48 <= c <= 57).
Proof.
  intros Hn. assert (wf_number n = true) as Hwf by by destruct n. destruct (plain_number_wf n Hwf) as [Hr ->].
  destruct n as [n|n|]; [| |done]; cbn [spelled] in Hr.
  - destruct (nat_to_string_bytes n Hr) as (c & t & Hc & Hct). exists c, t. split; [done|]. right.
    cbn [forallb] in Hct. apply andb_true_iff in Hct as [Hct _]. lia.
  - rewrite as_bytes_app. eexists _, _. split; [reflexivity|]. by left.
Qed.

Lemma to_vec_head v : plain_value v = true -> exists c t, to_vec v = c :: t /\ c <> 93.
Proof.
  intros Hv. destruct v as [|[]|n|s|l|fs].
  1-3: by eexists _, _.
  - destruct (number_head n Hv) as (c & t & Hc & ?). exists c, t. split; [exact Hc|lia].
  - rewrite to_vec_string. by eexists _, _.
  - rewrite to_vec_array. by eexists _, _.
  - rewrite to_vec_object. by eexists _, _.
Qed.

Lemma read_back v : plain_value v = true -> reads_back v.
Proof.
  induction v as [|b|n|s|l IH|fs IH] using Value_ind'; intros Hv fuel r Hfuel Hr; (destruct fuel as [|fuel]; [lia|]).
  - done.
  - by destruct b.
  - change (to_vec (JNumber n)) with (as_bytes (plain_number n)) in *. destruct (number_head n Hv) as (c & t & Hc & Hcr).
    pose proof (span_app (as_bytes (plain_number n)) r (plain_number_numeric n) Hr) as Hspan. rewrite Hc in Hspan |- *.
    cbn [app read] in *. rewrite !(proj2 (Z.eqb_neq c _)) by lia. rewrite Hspan, <-Hc. by rewrite read_number_text.
  - rewrite to_vec_string. cbn [app read Z.eqb Pos.eqb]. rewrite <-(assoc_L (++)). cbn [app]. rewrite unquote_literal.
    cbn [mbind option_bind]. by rewrite string_of_as_bytes.
  - rewrite to_vec_array in *. cbn [app read Z.eqb Pos.eqb] in *. destruct l as [|v l]; [done|].
    cbn [plain_value] in Hv. rewrite forallb_forall in Hv.
    assert (Forall reads_back (v :: l)) as Hl.
    { rewrite Forall_forall in *. intros w Hw. apply IH, Hv; [done|]. by apply list_elem_of_In. }
    destruct (to_vec_head v) as (c & t & Hc & Hne); [apply Hv; by left|].
    rewrite bool_decide_false by (cbn [fmap list_fmap join]; rewrite Hc; cbn; congruence).
    rewrite <-(assoc_L (++)). cbn [app]. cbn [length] in Hfuel. rewrite length_app in Hfuel. cbn [length] in Hfuel.
    by rewrite read_elements_back by (done || lia).
  - rewrite to_vec_object in *. cbn [app read Z.eqb Pos.eqb] in *. destruct fs as [|f fs]; [done|].
    cbn [plain_value] in Hv. rewrite forallb_forall in Hv.
    assert (Forall (fun f => reads_back f.2) (f :: fs)) as Hl.
    { rewrite Forall_forall in *. intros w Hw. apply IH, Hv; [done|]. by apply list_elem_of_In. }
    rewrite bool_decide_false by (cbn [fmap list_fmap join]; unfold field_text at 1; rewrite to_vec_string; cbn; congruence).
    rewrite <-(assoc_L (++)). cbn [app]. cbn [length] in Hfuel. rewrite length_app in Hfuel. cbn [length] in Hfuel.
    by rewrite read_fields_back by (done || lia).
Qed.

(** The whole text. *)
Definition read_text (l : bytes) : option Value :=
  '(v, r) ← read (S (length l)) l;
  if bool_decide (r = []) then Some v else None.

Lemma read_text_to_vec v : plain_value v = true -> read_text (to_vec v) = Some v.
Proof.
  intros Hv. unfold read_text. rewrite <-(app_nil_r (to_vec v)) at 2. by rewrite read_back by (done || lia).
Qed.
