(* ===== verification/Codec.v ===== *)
(** The self-delimiting typed binary codec v2 of JSON values, in
    [velorix-core/src/delta.rs], and a proof that its bytes determine the value.

    A function that appends to a [&mut Vec<u8>] returns the bytes it appends. *)
From S2P Require Import Prelude BTree Json Serde.

(** * Codec v2 *)

Definition CODEC_V2_VERSION : Z := 1.
Definition CODEC_V2_MAGIC : Z := 0xF7.

Inductive V2TypeTag := TagNull | TagBoolFalse | TagBoolTrue | TagI64 | TagF64
  | TagString | TagArray | TagObject.

(** [tag as u8]. *)
Definition tag_byte (t : V2TypeTag) : Z :=
  match t with
  | TagNull => 0x00 | TagBoolFalse => 0x01 | TagBoolTrue => 0x02 | TagI64 => 0x03
  | TagF64 => 0x04 | TagString => 0x05 | TagArray => 0x06 | TagObject => 0x07
  end.

(** [to_le_bytes] of an [n]-byte integer. *)
Fixpoint le_bytes (n : nat) (z : Z) : bytes :=
  match n with O => [] | S n => Z.land z 255 :: le_bytes n (Z.shiftr z 8) end.

(** [len as u32], then its bytes. *)
Definition encode_v2_length (len : Z) : bytes := le_bytes 4 (len mod 2 ^ 32).

Definition encode_v2_string (s : string) : bytes :=
  encode_v2_length (Z.of_nat (String.length s)) ++ as_bytes s.

(** The loop shifts seven bits per iteration, so a u64 takes at most ten. *)
Fixpoint encode_varint_fuel (fuel : nat) (value : Z) : bytes :=
  match fuel with
  | O => []
  | S fuel =>
      if 128 <=? value
      then Z.lor (Z.land value 255) 128 :: encode_varint_fuel fuel (Z.shiftr value 7)
      else [Z.land value 255]
  end.
Definition encode_varint (value : Z) : bytes := encode_varint_fuel 10 value.

(** [(value << 1) ^ (value >> 63)], all on u64. *)
Definition zigzag (value : Z) : Z :=
  Z.lxor (Z.shiftl value 1 mod 2 ^ 64) (Z.shiftr value 63).

Definition encode_zigzag_varint (value : Z) : bytes := encode_varint (zigzag value).

Fixpoint encode_v2_value `{SerdeJson} (value : Value) : bytes :=
  match value with
  | JNull => [tag_byte TagNull]
  | JBool false => [tag_byte TagBoolFalse]
  | JBool true => [tag_byte TagBoolTrue]
  | JNumber n =>
      match as_i64 n with
      | Some i => tag_byte TagI64 :: encode_zigzag_varint (i mod 2 ^ 64)
      | None =>
          match as_f64 n with
          | Some f => tag_byte TagF64 :: le_bytes 8 f
          | None => tag_byte TagString :: encode_v2_string (ser_number n)
          end
      end
  | JString s => tag_byte TagString :: encode_v2_string s
  | JArray arr =>
      tag_byte TagArray :: encode_v2_length (Z.of_nat (length arr))
        ++ concat (encode_v2_value <$> arr)
  | JObject map =>
      tag_byte TagObject :: encode_v2_length (Z.of_nat (length map))
        ++ concat ((fun f => encode_v2_string f.1 ++ f.2) <$>
             sort_on fst ((fun f => (f.1, encode_v2_value f.2)) <$> map))
  end.

Definition encode_v2 `{SerdeJson} (value : Value) : bytes := encode_v2_value value.

Definition encode_kv_v2 `{SerdeJson} (key value : Value) : bytes :=
  encode_v2_value key ++ encode_v2_value value.

(** * Prefix-free byte blocks *)

Lemma tagged_tail {A} (t t' : A) l l' r r' : (t :: l) ++ r = (t' :: l') ++ r' -> l ++ r = l' ++ r'.
Proof. by intros [= _ ?]. Qed.

(** Appended blocks can be told apart by reading from the left. *)
Definition prefix_free {A} (P : A -> Prop) (enc : A -> bytes) : Prop :=
  forall x y r r', P x -> P y -> enc x ++ r = enc y ++ r' -> x = y /\ r = r'.

Lemma le_bytes_prefix_free n :
  prefix_free (fun z => 0 <= z < 2 ^ (8 * Z.of_nat n)) (le_bytes n).
Proof.
  induction n as [|n IH]; intros x y r r' Hx Hy Heq.
  - change (2 ^ (8 * Z.of_nat 0)) with 1 in *. split; [lia|done].
  - simpl in Heq. injection Heq as Hlo Heq.
    replace (8 * Z.of_nat (S n)) with (8 + 8 * Z.of_nat n) in * by lia.
    rewrite Z.pow_add_r in * by lia.
    change 255 with (Z.ones 8) in Hlo. rewrite !Z.land_ones in Hlo by lia.
    rewrite !Z.shiftr_div_pow2 in Heq by lia.
    apply IH in Heq as [Hhi ->].
    + split; [|done]. pose proof (Z.div_mod x (2 ^ 8)). pose proof (Z.div_mod y (2 ^ 8)). lia.
    + split; [apply Z.div_pos; lia|apply Z.div_lt_upper_bound; lia].
    + split; [apply Z.div_pos; lia|apply Z.div_lt_upper_bound; lia].
Qed.

Lemma length_le_bytes n z : length (le_bytes n z) = n.
Proof. revert z. induction n; intros z; simpl; auto. Qed.

(** The continuation byte: seven payload bits under a set eighth bit. *)
Lemma continuation_byte v : Z.lor (Z.land v 255) 128 = v mod 128 + 128.
Proof.
  change 255 with (Z.ones 8). rewrite Z.land_ones by lia.
  assert (Hall : forallb (fun m => Z.lor m 128 =? m mod 128 + 128) (seqZ 0 256) = true)
    by (vm_compute; reflexivity).
  rewrite forallb_forall in Hall.
  assert (0 <= v mod 2 ^ 8 < 256) by (apply Z.mod_pos_bound; lia).
  specialize (Hall (v mod 2 ^ 8)). rewrite <-list_elem_of_In, elem_of_seqZ, Z.eqb_eq in Hall.
  rewrite Hall by lia. f_equal. change (2 ^ 8) with (128 * 2).
  rewrite Z.rem_mul_r by lia. rewrite (Z.mul_comm 128).
  rewrite Z.mod_add by lia. apply Z.mod_mod. lia.
Qed.

Lemma varint_prefix_free fuel :
  fuel <> O -> prefix_free (fun v => 0 <= v < 2 ^ (7 * Z.of_nat fuel)) (encode_varint_fuel fuel).
Proof.
  induction fuel as [|fuel IH]; intros Hf x y r r' Hx Hy Heq; [done|]. simpl in Heq.
  replace (7 * Z.of_nat (S fuel)) with (7 + 7 * Z.of_nat fuel) in * by lia.
  rewrite Z.pow_add_r in * by lia. change (2 ^ 7) with 128 in *.
  assert (Hlow : forall v, v < 128 -> 0 <= v -> Z.land v 255 = v).
  { intros v ? ?. change 255 with (Z.ones 8). rewrite Z.land_ones by lia.
    apply Z.mod_small. lia. }
  assert (Hdiv : forall v, 0 <= v < 128 * 2 ^ (7 * Z.of_nat fuel) ->
    0 <= v / 128 < 2 ^ (7 * Z.of_nat fuel)).
  { intros v ?. split; [apply Z.div_pos; lia|apply Z.div_lt_upper_bound; lia]. }
  destruct (Z.leb_spec 128 x), (Z.leb_spec 128 y); simpl in Heq; injection Heq as Hhd Heq.
  - rewrite !continuation_byte in Hhd. rewrite !Z.shiftr_div_pow2 in Heq by lia.
    change (2 ^ 7) with 128 in Heq.
    assert (Hf' : fuel <> O) by (intros ->; simpl in Hx; lia).
    destruct (IH Hf' _ _ _ _ (Hdiv x Hx) (Hdiv y Hy) Heq) as [Hhi ->].
    split; [|done]. pose proof (Z.div_mod x 128). pose proof (Z.div_mod y 128). lia.
  - rewrite continuation_byte, Hlow in Hhd by lia.
    pose proof (Z.mod_pos_bound x 128). lia.
  - rewrite continuation_byte, Hlow in Hhd by lia.
    pose proof (Z.mod_pos_bound y 128). lia.
  - rewrite !Hlow in Hhd by lia. done.
Qed.

(** On u64, [zigzag] rotates left by one bit. *)
Lemma zigzag_rotate v :
  0 <= v < 2 ^ 64 -> zigzag v = (2 * v) mod 2 ^ 64 + v / 2 ^ 63.
Proof.
  intros Hv. unfold zigzag. rewrite Z.shiftl_mul_pow2, Z.shiftr_div_pow2 by lia.
  change (2 ^ 1) with 2. rewrite (Z.mul_comm v 2).
  assert (Hd : v / 2 ^ 63 = 0 \/ v / 2 ^ 63 = 1).
  { assert (0 <= v / 2 ^ 63 < 2); [|lia].
    split; [apply Z.div_pos; lia|apply Z.div_lt_upper_bound; lia]. }
  destruct Hd as [-> | ->]; [by rewrite Z.lxor_0_r, Z.add_0_r|].
  assert (Heven : (2 * v) mod 2 ^ 64 = 2 * (v mod 2 ^ 63)).
  { change (2 ^ 64) with (2 * 2 ^ 63). by rewrite Z.mul_mod_distr_l by lia. }
  rewrite Heven. destruct (v mod 2 ^ 63) as [|p|p] eqn:Hm; [done|done|].
  pose proof (Z.mod_pos_bound v (2 ^ 63)). lia.
Qed.

Lemma zigzag_bound v : 0 <= v < 2 ^ 64 -> 0 <= zigzag v < 2 ^ 64.
Proof.
  intros Hv. rewrite zigzag_rotate by done.
  change (2 ^ 64) with (2 * 2 ^ 63) at 1 2. rewrite Z.mul_mod_distr_l by lia.
  pose proof (Z.mod_pos_bound v (2 ^ 63)).
  assert (0 <= v / 2 ^ 63 < 2); [|lia].
  split; [apply Z.div_pos; lia|apply Z.div_lt_upper_bound; lia].
Qed.

Lemma zigzag_inj v w : 0 <= v < 2 ^ 64 -> 0 <= w < 2 ^ 64 -> zigzag v = zigzag w -> v = w.
Proof.
  intros Hv Hw. rewrite !zigzag_rotate by done.
  change (2 ^ 64) with (2 * 2 ^ 63). rewrite !Z.mul_mod_distr_l by lia. intros Heq.
  assert (forall u, 0 <= u < 2 ^ 64 -> 0 <= u / 2 ^ 63 < 2) as Hd.
  { intros u ?. split; [apply Z.div_pos; lia|apply Z.div_lt_upper_bound; lia]. }
  pose proof (Hd v Hv). pose proof (Hd w Hw).
  pose proof (Z.div_mod v (2 ^ 63)). pose proof (Z.div_mod w (2 ^ 63)). lia.
Qed.

(** * Codec v2 determines the value *)

#[local] Opaque le_bytes encode_varint_fuel.

Definition short (s : string) : bool := Z.of_nat (String.length s) <? 2 ^ 32.

(** Values within the codec's domain: integers an [i64] holds, finite floats,
    and lengths a [u32] holds. *)
Fixpoint v2_ok (v : Value) : bool :=
  match v with
  | JNull | JBool _ => true
  | JNumber (PosInt n) => in_range 0 i64_max n
  | JNumber (NegInt n) => in_range i64_min (-1) n
  | JNumber (Float b) => in_range 0 u64_max b
  | JString s => short s
  | JArray l => (Z.of_nat (length l) <? 2 ^ 32) && forallb v2_ok l
  | JObject fs =>
      (Z.of_nat (length fs) <? 2 ^ 32) && nodupb fs.*1
        && forallb (fun f => short f.1 && v2_ok f.2) fs
  end.

Lemma encode_v2_length_prefix_free :
  prefix_free (fun n => 0 <= n < 2 ^ 32) encode_v2_length.
Proof.
  intros x y r r' Hx Hy. unfold encode_v2_length.
  rewrite !Z.mod_small by done. by apply (le_bytes_prefix_free 4).
Qed.

Lemma encode_v2_string_prefix_free :
  prefix_free (fun s => short s = true) encode_v2_string.
Proof.
  intros x y r r' Hx Hy. unfold encode_v2_string, short in *. rewrite <-!(assoc_L (++)).
  intros Heq. apply encode_v2_length_prefix_free in Heq as [Hlen Heq]; [|lia..].
  apply app_inj_1 in Heq as [Hb ->]; [|rewrite !length_as_bytes; lia].
  split; [|done]. by apply (inj as_bytes).
Qed.

Lemma encode_i64_prefix_free :
  prefix_free (fun i => i64_min <= i <= i64_max)
    (fun i => encode_zigzag_varint (i mod 2 ^ 64)).
Proof.
  intros x y r r' Hx Hy Heq. unfold i64_min, i64_max in *.
  assert (Hm : forall i, 0 <= i mod 2 ^ 64 < 2 ^ 64) by (intros; apply Z.mod_pos_bound; lia).
  assert (Hb : forall i, 0 <= zigzag (i mod 2 ^ 64) < 2 ^ (7 * Z.of_nat 10)).
  { intros i. pose proof (zigzag_bound _ (Hm i)). change (7 * Z.of_nat 10) with 70. lia. }
  destruct (varint_prefix_free 10 ltac:(done) _ _ _ _ (Hb x) (Hb y) Heq) as [Hz ->].
  split; [|done]. apply zigzag_inj in Hz; [|done..].
  assert (Hmod : forall i, - 2 ^ 63 <= i <= 2 ^ 63 - 1 ->
    i mod 2 ^ 64 = if i <? 0 then i + 2 ^ 64 else i).
  { intros i Hi. destruct (Z.ltb_spec i 0); [|apply Z.mod_small; lia].
    rewrite <-(Z.mod_add i 1 (2 ^ 64)), Z.mul_1_l by lia. apply Z.mod_small. lia. }
  rewrite !Hmod in Hz by done. destruct (Z.ltb_spec x 0), (Z.ltb_spec y 0); lia.
Qed.

Lemma concat_readable {A} (T : A -> bytes) (R : A -> A -> Prop) l l' r r' :
  (forall x y s s', x ∈ l -> y ∈ l' -> T x ++ s = T y ++ s' -> R x y /\ s = s') ->
  length l = length l' -> concat (T <$> l) ++ r = concat (T <$> l') ++ r' ->
  Forall2 R l l' /\ r = r'.
Proof.
  revert l'. induction l as [|x l IH]; intros [|y l'] HT Hlen Heq; try done.
  - rewrite !fmap_cons in Heq. cbn [concat] in Heq. rewrite <-!(assoc_L (++)) in Heq.
    destruct (HT x y _ _ ltac:(left) ltac:(left) Heq) as [HR Heq'].
    destruct (IH l') as [? ->]; [|by injection Hlen|done|].
    + intros a b s s' Ha Hb. apply HT; by right.
    + split; [by constructor|done].
Qed.

Section v2.
Context `{SerdeJson}.
Local Abbreviation enc := encode_v2_value.

(** The object case, with the fields sorted before they are encoded. *)
Lemma encode_v2_object fs :
  enc (JObject fs) = tag_byte TagObject :: encode_v2_length (Z.of_nat (length fs))
    ++ concat ((fun f => encode_v2_string f.1 ++ enc f.2) <$> sort_on fst fs).
Proof.
  simpl. do 3 f_equal. rewrite (sort_on_fmap _ fst fst) by done.
  by rewrite <-list_fmap_compose.
Qed.

Lemma normalize_object fs :
  normalize (JObject fs) = JObject ((fun f => (f.1, normalize f.2)) <$> sort_on fst fs).
Proof. simpl. by rewrite (sort_on_fmap _ fst fst). Qed.

Definition v2_unique (v : Value) : Prop := forall w r r',
  v2_ok v = true -> v2_ok w = true -> enc v ++ r = enc w ++ r' ->
  normalize v = normalize w /\ r = r'.

(** The cases of a number the codec covers. *)
Lemma enc_number n : v2_ok (JNumber n) = true ->
  (exists i, i64_min <= i <= i64_max /\ JNumber n = json_of_i64 i /\
     enc (JNumber n) = tag_byte TagI64 :: encode_zigzag_varint (i mod 2 ^ 64)) \/
  (exists b, 0 <= b < 2 ^ 64 /\ n = Float b /\
     enc (JNumber n) = tag_byte TagF64 :: le_bytes 8 b).
Proof.
  destruct n as [n|n|b]; simpl; rewrite in_range_true; intros Hn.
  - left. exists n. unfold json_of_i64, checked_i64, i64_min, i64_max in *.
    replace (is_i64 n) with true by (symmetry; range).
    replace (n <? 0) with false by lia. split_and!; [lia..|done|done].
  - left. exists n. unfold json_of_i64, i64_min, i64_max in *.
    replace (n <? 0) with true by lia. split_and!; [lia..|done|done].
  - right. exists b. unfold u64_max in Hn. split_and!; [lia..|done|done].
Qed.

Lemma v2_unique_number n : v2_unique (JNumber n).
Proof.
  intros w r r' Hv Hw Heq.
  destruct (enc_number n Hv) as [(i & Hi & Hn & Hei)|(b & Hb & -> & Heb)].
  - rewrite Hei in Heq. destruct w as [|[]|m|s|l|fs]; try discriminate Heq.
    destruct (enc_number m Hw) as [(j & Hj & Hm & Hej)|(b & _ & _ & Heb)].
    + rewrite Hej in Heq. apply tagged_tail in Heq.
      apply encode_i64_prefix_free in Heq as [-> ->]; [|done..]. by rewrite Hn, Hm.
    + rewrite Heb in Heq. discriminate Heq.
  - rewrite Heb in Heq. destruct w as [|[]|m|s|l|fs]; try discriminate Heq.
    destruct (enc_number m Hw) as [(j & _ & _ & Hej)|(c & Hc & -> & Hec)].
    + rewrite Hej in Heq. discriminate Heq.
    + rewrite Hec in Heq. apply tagged_tail in Heq.
      apply (le_bytes_prefix_free 8) in Heq as [-> ->]; [done|done..].
Qed.

Lemma enc_tag_number n : v2_ok (JNumber n) = true ->
  exists t, enc (JNumber n) = tag_byte TagI64 :: t \/ enc (JNumber n) = tag_byte TagF64 :: t.
Proof.
  intros Hn. destruct (enc_number n Hn) as [(? & _ & _ & ->)|(? & _ & _ & ->)]; eauto.
Qed.

Lemma v2_unique_array l : Forall v2_unique l -> v2_unique (JArray l).
Proof.
  intros IH w r r' Hv Hw Heq. destruct w as [|[]|m|s|l'|fs]; try discriminate Heq.
  { destruct (enc_tag_number m Hw) as (t & [Ht|Ht]); rewrite Ht in Heq; discriminate Heq. }
  simpl in Hv, Hw. apply andb_true_iff in Hv as [Hn Hv], Hw as [Hn' Hw].
  rewrite forallb_forall in Hv, Hw. rewrite Forall_forall in IH.
  apply tagged_tail in Heq. rewrite <-!(assoc_L (++)) in Heq.
  apply encode_v2_length_prefix_free in Heq as [Hlen Heq]; [|lia..].
  apply (concat_readable _ (fun x y => normalize x = normalize y)) in Heq as [Hf ->]; [|..|lia].
  - split; [|done]. simpl. f_equal. by apply list_eq_Forall2, Forall2_fmap_2.
  - intros x y s s' Hx Hy. apply IH; [done|..]; [apply Hv|apply Hw]; by apply list_elem_of_In.
Qed.

Lemma v2_unique_object fs : Forall (fun f => v2_unique f.2) fs -> v2_unique (JObject fs).
Proof.
  intros IH w r r' Hv Hw Heq. destruct w as [|[]|m|s|l'|fs']; try discriminate Heq.
  { destruct (enc_tag_number m Hw) as (t & [Ht|Ht]); rewrite Ht in Heq; discriminate Heq. }
  rewrite !encode_v2_object in Heq.
  simpl in Hv, Hw. rewrite !andb_true_iff in Hv, Hw.
  destruct Hv as [[Hn _] Hv], Hw as [[Hn' _] Hw].
  rewrite forallb_forall in Hv, Hw. rewrite Forall_forall in IH.
  assert (Hin : forall (f : string * Value) gs, f ∈ sort_on fst gs -> f ∈ gs /\ In f gs).
  { intros f gs. rewrite sort_on_perm, list_elem_of_In. done. }
  apply tagged_tail in Heq. rewrite <-!(assoc_L (++)) in Heq.
  apply encode_v2_length_prefix_free in Heq as [Hlen Heq]; [|lia..].
  apply (concat_readable _ (fun x y => (x.1, normalize x.2) = (y.1, normalize y.2)))
    in Heq as [Hf ->].
  - split; [|done]. rewrite !normalize_object. f_equal. by apply list_eq_Forall2, Forall2_fmap_2.
  - intros [k x] [k' y] s s' [Hx Hx']%Hin [Hy Hy']%Hin. simpl. rewrite <-!(assoc_L (++)).
    apply Hv, andb_true_iff in Hx' as [Hk Hxok]. apply Hw, andb_true_iff in Hy' as [Hk' Hyok].
    intros Hxy. apply encode_v2_string_prefix_free in Hxy as [-> Hxy]; [|done..].
    apply (IH _ Hx) in Hxy as [Hxy ->]; [|done..]. simpl in Hxy. by rewrite Hxy.
  - rewrite !(Permutation_length (sort_on_perm _ _)). lia.
Qed.

Lemma v2_unique_all v : v2_unique v.
Proof.
  induction v as [| | n | s | l IH | fs IH] using Value_ind';
    [| |apply v2_unique_number| |by apply v2_unique_array|by apply v2_unique_object];
    intros w r r' Hv Hw Heq.
  all: destruct w as [|[]|m|s'|l'|fs']; try (destruct b); try discriminate Heq;
    try (by injection Heq as ->);
    try (by destruct (enc_tag_number m Hw) as (t & [Ht|Ht]); rewrite Ht in Heq; discriminate Heq).
  apply tagged_tail in Heq. by apply encode_v2_string_prefix_free in Heq as [-> ->].
Qed.

Lemma v2_normalize v : v2_ok v = true -> enc (normalize v) = enc v.
Proof.
  induction v as [| | | |l IH|fs IH] using Value_ind'; intros Hv; try done.
  - simpl in *. apply andb_true_iff in Hv as [_ Hv]. rewrite forallb_forall in Hv.
    rewrite Forall_forall in IH. rewrite length_fmap, <-list_fmap_compose. do 3 f_equal.
    apply list_fmap_ext. intros i x Hi%list_elem_of_lookup_2.
    apply IH; [done|]. apply Hv. by apply list_elem_of_In.
  - rewrite normalize_object, encode_v2_object, encode_v2_object.
    simpl in Hv. rewrite !andb_true_iff in Hv. destruct Hv as [[_ Hnd%nodupb_NoDup] Hv].
    rewrite forallb_forall in Hv. rewrite Forall_forall in IH.
    rewrite length_fmap, (Permutation_length (sort_on_perm _ _)). do 3 f_equal.
    rewrite (sort_on_fmap _ fst fst) by done. rewrite <-list_fmap_compose.
    rewrite (sort_on_ext fst (sort_on fst fs) fs);
      [|apply sort_on_perm|by rewrite sort_on_perm]. apply list_fmap_ext.
    intros i x Hi%list_elem_of_lookup_2. simpl. f_equal.
    rewrite sort_on_perm in Hi. apply IH; [done|].
    by apply list_elem_of_In, Hv, andb_true_iff in Hi as [_ ?].
Qed.
End v2.

Section theorems.
Context `{SerdeJson}.

(** C32: On keys and values within the codec's domain, the bytes of
    [encode_kv_v2] determine both the key and the value, up to the order of
    object fields, and depend on nothing else: the concatenation needs no
    separator because each encoding is self-delimiting. *)
Theorem encode_kv_v2_identifies k v k' v' :
  v2_ok k = true -> v2_ok v = true -> v2_ok k' = true -> v2_ok v' = true ->
  encode_kv_v2 k v = encode_kv_v2 k' v' <->
  normalize k = normalize k' /\ normalize v = normalize v'.
Proof.
  intros Hk Hv Hk' Hv'. unfold encode_kv_v2. split.
  - intros Heq. apply v2_unique_all in Heq as [-> Heq]; [|done..]. split; [done|].
    apply (v2_unique_all v v' [] []); [done..|]. by rewrite Heq.
  - intros [Heqk Heqv]. rewrite <-(v2_normalize k), <-(v2_normalize v), Heqk, Heqv by done.
    by rewrite !v2_normalize.
Qed.

(** Outside that domain the encoding is not injective: an unsigned integer
    above [i64::MAX] goes through [f64], so neighbours collide. *)
Theorem encode_v2_u64_collision :
  encode_v2 (JNumber (PosInt (2 ^ 63))) = encode_v2 (JNumber (PosInt (2 ^ 63 + 1))) /\
  normalize (JNumber (PosInt (2 ^ 63))) <> normalize (JNumber (PosInt (2 ^ 63 + 1))).
Proof. split; [vm_compute; reflexivity|by intros [=]]. Qed.
End theorems.

(** Two rows that differ only in the order of an object's fields. *)
Lemma encode_kv_v2_identifies_witness :
  let o1 := JObject [("b", JNull); ("a", JArray [JNumber (NegInt (-5)); JBool true])] in
  let o2 := JObject [("a", JArray [JNumber (NegInt (-5)); JBool true]); ("b", JNull)] in
  @encode_kv_v2 plain_json (JString "k") o1 = @encode_kv_v2 plain_json (JString "k") o2.
Proof.
  apply (@encode_kv_v2_identifies plain_json (JString "k") _ (JString "k") _);
    vm_compute; try reflexivity. split; reflexivity.
Defined.
