(* ===== verification/IngestEnvelope.v ===== *)
(** Ingest envelopes, [velorix-storage/src/ingest_envelope.rs]: a magic, the
    length of a JSON header, the header, and an Arrow IPC stream. The header has a
    digest of its other fields and of the stream.

    The Arrow library and the JSON parser are parameters: [ArrowIpc] and
    [EnvelopeCodec]. Writing the JSON of a header does not fail. The reasons of
    errors leave out the values that the source interpolates. *)
From S2P Require Import Prelude BTree Json Digits Segments ObjectKey Hash Relation Serde JsonText Codec.

(** * Parameters *)

(** Record batches and the IPC stream format of the crate [arrow]. A column read
    by name and downcast to a type of arrays gives its values, nulls as [None]. *)
Class ArrowIpc := {
  record_batch : Type;
  batch_fields : record_batch -> list Field;
  batch_metadata : record_batch -> gmap string string;
  arrow_error : Type;
  stream_write : list record_batch -> result arrow_error bytes;
  stream_read : bytes -> result arrow_error (list record_batch);
  int64_values : record_batch -> string -> option (list (option Z));
  date32_values : record_batch -> string -> option (list (option Z));
  timestamp_values : record_batch -> string -> option (list (option Z))
}.

(** The schema of a batch: fields and metadata. *)
Definition batch_schema `{ArrowIpc} (b : record_batch) : list Field * gmap string string :=
  (batch_fields b, batch_metadata b).

(** A written stream reads back, and values have their widths. *)
Class ArrowIpcLaws `{ArrowIpc} : Prop := {
  stream_round_trip batches payload : batches <> [] ->
    stream_write batches = Ok payload -> stream_read payload = Ok batches;
  date32_range b name values v : date32_values b name = Some values -> Some v ∈ values -> - 2 ^ 31 <= v < 2 ^ 31
}.

(** * Data *)

Record InputEventTimeWatermark := Watermark {
  w_stream_id : string;
  w_partition_id : Z;
  w_event_time_column_id : string;
  w_max_observed_event_time_ns : Z;
  w_watermark_ns : Z
}.

(** [IngestEnvelopeHeaderWithoutDigest]. *)
Record HeaderWithoutDigest := HeaderPart {
  h_schema_version : Z;
  h_format : string;
  h_stream_id : string;
  h_partition_id : Z;
  h_start_offset_inclusive : Z;
  h_end_offset_exclusive : Z;
  h_event_time_watermark : option InputEventTimeWatermark;
  h_relation_id : string;
  h_relation_version : string;
  h_schema_fingerprint : string;
  h_compression : string
}.

(** The fields of [IngestEnvelopeHeader] that are in the digest, and the digest. *)
Record IngestEnvelopeHeader := Header {
  without_digest : HeaderWithoutDigest;
  h_payload_digest : string
}.
Definition with_payload_digest (h : HeaderWithoutDigest) (digest : string) : IngestEnvelopeHeader := Header h digest.

Record IngestEnvelope := Envelope { header : IngestEnvelopeHeader; payload : bytes }.
Record EncodedIngestEnvelope := Encoded { encoded_bytes : bytes; encoded_header : IngestEnvelopeHeader }.

Record IngestEnvelopeEncodeRequest := EncodeRequest {
  q_relation_id : string;
  q_relation_version : string;
  q_schema_fingerprint : string;
  q_stream_id : string;
  q_partition_id : Z;
  q_start_offset_inclusive : Z;
  q_end_offset_exclusive : Z;
  q_event_time_watermark : option InputEventTimeWatermark
}.

#[export] Instance InputEventTimeWatermark_eq_dec : EqDecision InputEventTimeWatermark.
Proof. solve_decision. Defined.
#[export] Instance HeaderWithoutDigest_eq_dec : EqDecision HeaderWithoutDigest.
Proof. solve_decision. Defined.
#[export] Instance IngestEnvelopeHeader_eq_dec : EqDecision IngestEnvelopeHeader.
Proof. solve_decision. Defined.

(** [log::IngestBatchDescriptor]. *)
Record IngestBatchDescriptor := Descriptor {
  d_stream_id : string;
  d_partition_id : Z;
  d_start_offset_inclusive : Z;
  d_end_offset_exclusive : Z;
  d_object_key : ObjectKey
}.
#[export] Instance IngestBatchDescriptor_eq_dec : EqDecision IngestBatchDescriptor.
Proof. solve_decision. Defined.

Inductive IngestEnvelopeError `{ArrowIpc} :=
| MalformedEnvelope (reason : string)
| UnsupportedEnvelopeVersion (found : Z)
| UnsupportedFormat (format : string)
| UnsupportedCompression (compression : string)
| DigestMismatch (expected actual : string)
| MalformedArrowIpc (source : arrow_error)
| NoRecordBatch
| DescriptorMismatch (field expected found : string).

(** * JSON *)

Definition watermark_json (w : InputEventTimeWatermark) : Value :=
  JObject [("stream_id", JString (w_stream_id w)); ("partition_id", json_of_unsigned (w_partition_id w));
    ("event_time_column_id", JString (w_event_time_column_id w));
    ("max_observed_event_time_ns", json_of_i64 (w_max_observed_event_time_ns w));
    ("watermark_ns", json_of_i64 (w_watermark_ns w))].

(** [skip_serializing_if = "Option::is_none"]. *)
Definition watermark_field (w : option InputEventTimeWatermark) : list (string * Value) :=
  match w with Some w => [("event_time_watermark", watermark_json w)] | None => [] end.

Definition header_json (h : IngestEnvelopeHeader) : Value :=
  let p := without_digest h in
  JObject ([("schema_version", json_of_unsigned (h_schema_version p)); ("format", JString (h_format p));
    ("stream_id", JString (h_stream_id p)); ("partition_id", json_of_unsigned (h_partition_id p));
    ("start_offset_inclusive", json_of_unsigned (h_start_offset_inclusive p));
    ("end_offset_exclusive", json_of_unsigned (h_end_offset_exclusive p))] ++
    watermark_field (h_event_time_watermark p) ++
    [("relation_id", JString (h_relation_id p)); ("relation_version", JString (h_relation_version p));
     ("schema_fingerprint", JString (h_schema_fingerprint p)); ("payload_digest", JString (h_payload_digest h));
     ("compression", JString (h_compression p))]).

(** The canonical header of [payload_digest]: the watermark comes last. *)
Definition canonical_header (p : HeaderWithoutDigest) : Value :=
  JObject ([("schema_version", json_of_unsigned (h_schema_version p)); ("format", JString (h_format p));
    ("stream_id", JString (h_stream_id p)); ("partition_id", json_of_unsigned (h_partition_id p));
    ("start_offset_inclusive", json_of_unsigned (h_start_offset_inclusive p));
    ("end_offset_exclusive", json_of_unsigned (h_end_offset_exclusive p));
    ("relation_id", JString (h_relation_id p)); ("relation_version", JString (h_relation_version p));
    ("schema_fingerprint", JString (h_schema_fingerprint p)); ("compression", JString (h_compression p))] ++
    watermark_field (h_event_time_watermark p)).

(** Values of the Rust types. *)
Definition typed_watermark (w : InputEventTimeWatermark) : Prop :=
  is_u32 (w_partition_id w) = true /\ is_i64 (w_max_observed_event_time_ns w) = true /\ is_i64 (w_watermark_ns w) = true.
Definition typed_header (p : HeaderWithoutDigest) : Prop :=
  is_u32 (h_schema_version p) = true /\ is_u32 (h_partition_id p) = true /\
  is_u64 (h_start_offset_inclusive p) = true /\ is_u64 (h_end_offset_exclusive p) = true /\
  match h_event_time_watermark p with Some w => typed_watermark w | None => True end.

(** [serde_json::from_slice] of a header. *)
Class EnvelopeCodec := { header_from_slice : bytes -> option IngestEnvelopeHeader }.

(** It reads back what [to_vec] writes, and gives values of the Rust types. *)
Class EnvelopeCodecLaws `{SerdeJson, EnvelopeCodec} : Prop := {
  header_round_trip h : typed_header (without_digest h) -> header_from_slice (to_vec (header_json h)) = Some h;
  header_from_slice_typed body h : header_from_slice body = Some h -> typed_header (without_digest h)
}.

Section envelope.
Context `{Sha256, SerdeJson, EnvelopeCodec, ArrowIpc}.

Abbreviation checked := (result IngestEnvelopeError).

Definition INGEST_ENVELOPE_MAGIC : bytes := as_bytes "VLXINGEST" ++ [0; 1].
Definition HEADER_LEN_BYTES : nat := 4.
Definition SCHEMA_VERSION_V1 : Z := 1.
Definition FORMAT_ARROW_IPC_DELTA_BATCH_V1 : string := "ArrowIpcDeltaBatchV1".
Definition COMPRESSION_NONE : string := "none".
Definition PAYLOAD_DIGEST_DOMAIN : bytes := as_bytes "velorix-ingest-envelope-v1" ++ [0].

(** [u32::from_le_bytes]. *)
Definition from_le_bytes (l : bytes) : Z := foldr (fun b n => b + 256 * n) 0 l.

Definition encode_envelope (h : IngestEnvelopeHeader) (payload : bytes) : checked bytes :=
  let header_bytes := to_vec (header_json h) in
  let header_len := Z.of_nat (length header_bytes) in
  _ ← fail_if (u32_max <? header_len) (MalformedEnvelope "JSON header exceeds u32 length limit");
  Ok (INGEST_ENVELOPE_MAGIC ++ le_bytes HEADER_LEN_BYTES header_len ++ header_bytes ++ payload).

Definition split_envelope (bytes : bytes) : checked (IngestEnvelopeHeader * list Z) :=
  let magic_len := length INGEST_ENVELOPE_MAGIC in
  _ ← fail_if (bool_decide (length bytes < magic_len + HEADER_LEN_BYTES)%nat)
    (MalformedEnvelope "envelope is shorter than magic and header length");
  _ ← fail_if (negb (bool_decide (take magic_len bytes = INGEST_ENVELOPE_MAGIC)))
    (MalformedEnvelope "invalid envelope magic");
  let header_len := from_le_bytes (take HEADER_LEN_BYTES (drop magic_len bytes)) in
  let header_start := Z.of_nat (magic_len + HEADER_LEN_BYTES) in
  header_end ← ok_or (MalformedEnvelope "header length overflowed") (checked_u64 (header_start + header_len));
  _ ← fail_if (Z.of_nat (length bytes) <? header_end) (MalformedEnvelope "header length exceeds envelope length");
  let rest := drop (magic_len + HEADER_LEN_BYTES) bytes in
  h ← ok_or (MalformedEnvelope "invalid JSON header") (header_from_slice (take (Z.to_nat header_len) rest));
  Ok (h, drop (Z.to_nat header_len) rest).

Definition validate_watermark (h : HeaderWithoutDigest) (w : InputEventTimeWatermark) : checked unit :=
  _ ← fail_if (negb (String.eqb (w_stream_id w) (h_stream_id h)))
    (MalformedEnvelope "event_time_watermark.stream_id must match header stream_id");
  _ ← fail_if (negb (w_partition_id w =? h_partition_id h))
    (MalformedEnvelope "event_time_watermark.partition_id must match header partition_id");
  _ ← fail_if (is_blank (w_event_time_column_id w))
    (MalformedEnvelope "event_time_watermark.event_time_column_id must be nonempty");
  fail_if (w_max_observed_event_time_ns w <? w_watermark_ns w)
    (MalformedEnvelope "event_time_watermark.watermark_ns must be <= max_observed_event_time_ns").

Definition validate_header_without_digest (h : HeaderWithoutDigest) : checked unit :=
  _ ← fail_if (negb (h_schema_version h =? SCHEMA_VERSION_V1)) (UnsupportedEnvelopeVersion (h_schema_version h));
  _ ← fail_if (negb (String.eqb (h_format h) FORMAT_ARROW_IPC_DELTA_BATCH_V1)) (UnsupportedFormat (h_format h));
  _ ← fail_if (negb (String.eqb (h_compression h) COMPRESSION_NONE)) (UnsupportedCompression (h_compression h));
  _ ← fail_if (is_blank (h_relation_id h)) (MalformedEnvelope "relation_id must be nonempty");
  _ ← fail_if (is_blank (h_relation_version h)) (MalformedEnvelope "relation_version must be nonempty");
  _ ← map_err (fun _ => MalformedEnvelope "schema_fingerprint")
    (validate_schema_fingerprint "schema_fingerprint" (h_schema_fingerprint h));
  _ ← fail_if (h_end_offset_exclusive h <=? h_start_offset_inclusive h)
    (MalformedEnvelope "offset range must be nonempty");
  match h_event_time_watermark h with
  | Some watermark => validate_watermark h watermark
  | None => Ok tt
  end.

Definition payload_digest (h : HeaderWithoutDigest) (payload : bytes) : string :=
  sha256_text (PAYLOAD_DIGEST_DOMAIN ++ to_vec (canonical_header h) ++ [0] ++ payload).

Definition decode_arrow_ipc_stream (payload : bytes) : checked (list record_batch) :=
  map_err MalformedArrowIpc (stream_read payload).

Definition validate_arrow_ipc_stream (payload : bytes) : checked nat :=
  batches ← map_err MalformedArrowIpc (stream_read payload);
  Ok (length batches).

(** The schema is that of the first batch, which all share. *)
Definition encode_arrow_ipc_stream (batches : list record_batch) : checked bytes :=
  map_err MalformedArrowIpc (stream_write batches).

Definition request_header (q : IngestEnvelopeEncodeRequest) : HeaderWithoutDigest :=
  HeaderPart SCHEMA_VERSION_V1 FORMAT_ARROW_IPC_DELTA_BATCH_V1 (q_stream_id q) (q_partition_id q)
    (q_start_offset_inclusive q) (q_end_offset_exclusive q) (q_event_time_watermark q) (q_relation_id q)
    (q_relation_version q) (q_schema_fingerprint q) COMPRESSION_NONE.

Definition encode_batches_with_header (q : IngestEnvelopeEncodeRequest) (batches : list record_batch) :
    checked EncodedIngestEnvelope :=
  first ← ok_or (MalformedEnvelope "at least one Arrow record batch is required") (head batches);
  _ ← fail_if (bool_decide (Exists (fun b => batch_schema b <> batch_schema first) batches))
    (MalformedEnvelope "all Arrow record batches in an ingest envelope must share a schema");
  _ ← fail_if (q_end_offset_exclusive q <=? q_start_offset_inclusive q)
    (MalformedEnvelope "offset range must be nonempty");
  let h := request_header q in
  _ ← validate_header_without_digest h;
  payload ← encode_arrow_ipc_stream batches;
  let h := with_payload_digest h (payload_digest h payload) in
  bytes ← encode_envelope h payload;
  Ok (Encoded bytes h).

Definition encode_batches (q : IngestEnvelopeEncodeRequest) (batches : list record_batch) : checked bytes :=
  e ← encode_batches_with_header q batches;
  Ok (encoded_bytes e).

Definition decode (bytes : bytes) : checked IngestEnvelope :=
  '(h, payload) ← split_envelope bytes;
  let actual_digest := payload_digest (without_digest h) payload in
  _ ← fail_if (negb (String.eqb (h_payload_digest h) actual_digest)) (DigestMismatch (h_payload_digest h) actual_digest);
  _ ← validate_header_without_digest (without_digest h);
  batch_count ← validate_arrow_ipc_stream payload;
  _ ← fail_if (batch_count =? 0)%nat NoRecordBatch;
  Ok (Envelope h payload).

Definition record_batches (e : IngestEnvelope) : checked (list record_batch) := decode_arrow_ipc_stream (payload e).

Definition range_text (lo hi : Z) : string := nat_to_string lo +:+ "-" +:+ nat_to_string hi.

Definition validate_descriptor (e : IngestEnvelope) (d : IngestBatchDescriptor) : checked unit :=
  let h := without_digest (header e) in
  _ ← fail_if (negb (String.eqb (h_stream_id h) (d_stream_id d)))
    (DescriptorMismatch "stream_id" (d_stream_id d) (h_stream_id h));
  _ ← fail_if (negb (h_partition_id h =? d_partition_id d))
    (DescriptorMismatch "partition_id" (nat_to_string (d_partition_id d)) (nat_to_string (h_partition_id h)));
  fail_if (negb (h_start_offset_inclusive h =? d_start_offset_inclusive d) ||
           negb (h_end_offset_exclusive h =? d_end_offset_exclusive d))
    (DescriptorMismatch "offset_range" (range_text (d_start_offset_inclusive d) (d_end_offset_exclusive d))
      (range_text (h_start_offset_inclusive h) (h_end_offset_exclusive h))).

End envelope.

(** * Proofs *)

Lemma from_le_bytes_le_bytes n z : 0 <= z < 2 ^ (8 * Z.of_nat n) -> from_le_bytes (le_bytes n z) = z.
Proof.
  revert z. induction n as [|n IH]; intros z Hz.
  - change (2 ^ (8 * Z.of_nat 0)) with 1 in Hz. cbn. lia.
  - replace (8 * Z.of_nat (S n)) with (8 + 8 * Z.of_nat n) in Hz by lia. rewrite Z.pow_add_r in Hz by lia.
    cbn [le_bytes from_le_bytes foldr]. fold (from_le_bytes (le_bytes n (Z.shiftr z 8))). rewrite IH.
    + change 255 with (Z.ones 8). rewrite Z.land_ones, Z.shiftr_div_pow2 by lia. pose proof (Z.div_mod z (2 ^ 8)). lia.
    + rewrite Z.shiftr_div_pow2 by lia. split; [apply Z.div_pos; lia|apply Z.div_lt_upper_bound; lia].
Qed.

Lemma watermark_json_wf w : typed_watermark w -> wf_value (watermark_json w) = true.
Proof.
  intros (Hp & Hm & Hw). unfold watermark_json, json_of_i64. cbn -[Z.ltb].
  rewrite !andb_true_iff. unfold is_u32, is_i64 in *. split_and!; try done; repeat case_match; cbn; range.
Qed.

Lemma canonical_header_wf h : typed_header h -> wf_value (canonical_header h) = true.
Proof.
  intros (Hv & Hp & Hs & He & Hw). unfold canonical_header. destruct (h_event_time_watermark h) as [w|].
  - apply watermark_json_wf in Hw. cbn -[watermark_json] in *. rewrite Hw. rewrite !andb_true_iff. split_and!; range.
  - cbn. rewrite !andb_true_iff. split_and!; range.
Qed.

Lemma watermark_json_inj w w' : normalize (watermark_json w) = normalize (watermark_json w') -> w = w'.
Proof.
  intros Heq. unfold watermark_json in Heq.
  assert (forall k, normalize <$> get_field k (watermark_json w) = normalize <$> get_field k (watermark_json w')) as Hf.
  { intros k. apply normalize_field; [apply nodupb_NoDup; reflexivity..|exact Heq]. }
  pose proof (Hf "stream_id") as H1. pose proof (Hf "partition_id") as H2. pose proof (Hf "event_time_column_id") as H3.
  pose proof (Hf "max_observed_event_time_ns") as H4. pose proof (Hf "watermark_ns") as H5.
  cbn in H1, H2, H3, H4, H5. injection H1 as H1. injection H2 as H2. injection H3 as H3. injection H4 as H4.
  injection H5 as H5. apply (f_equal JNumber), json_of_i64_inj in H4, H5. destruct w, w'; cbn in *. congruence.
Qed.

(** The canonical header determines the fields of the header. *)
Lemma canonical_header_inj h h' : normalize (canonical_header h) = normalize (canonical_header h') -> h = h'.
Proof.
  intros Heq.
  assert (forall k, normalize <$> get_field k (canonical_header h) = normalize <$> get_field k (canonical_header h')) as Hf.
  { intros k. apply normalize_field; [apply nodupb_NoDup..|exact Heq].
    - by destruct (h_event_time_watermark h).
    - by destruct (h_event_time_watermark h'). }
  pose proof (Hf "schema_version") as H1. pose proof (Hf "format") as H2. pose proof (Hf "stream_id") as H3.
  pose proof (Hf "partition_id") as H4. pose proof (Hf "start_offset_inclusive") as H5.
  pose proof (Hf "end_offset_exclusive") as H6. pose proof (Hf "relation_id") as H7.
  pose proof (Hf "relation_version") as H8. pose proof (Hf "schema_fingerprint") as H9.
  pose proof (Hf "compression") as H10. pose proof (Hf "event_time_watermark") as H11. clear Hf Heq.
  assert (h_event_time_watermark h = h_event_time_watermark h') as Hw.
  { destruct h as [? ? ? ? ? ? [w|]], h' as [? ? ? ? ? ? [w'|]]; try done.
    cbn [h_event_time_watermark]. f_equal. apply watermark_json_inj. by apply (inj Some) in H11. }
  cbn in H1, H2, H3, H4, H5, H6, H7, H8, H9, H10. simplify_eq. destruct h, h'; cbn in *. congruence.
Qed.

Section proofs.
Context `{Sha256Laws, SerdeJsonLaws, !EnvelopeCodec, !EnvelopeCodecLaws, ArrowIpcLaws}.

Lemma split_encode_envelope h p bytes : typed_header (without_digest h) ->
  encode_envelope h p = Ok bytes -> split_envelope bytes = Ok (h, p).
Proof.
  intros Ht. unfold encode_envelope, split_envelope. intros He.
  destruct (Z.ltb_spec u32_max (Z.of_nat (length (to_vec (header_json h))))) as [|Hlen]; [done|]. cbn [fail_if mbind result_bind] in He.
  apply (inj Ok) in He as <-. remember (to_vec (header_json h)) as hb eqn:Hhb.
  assert (length INGEST_ENVELOPE_MAGIC = 11%nat) as Hm by reflexivity.
  revert Hm. generalize INGEST_ENVELOPE_MAGIC as M. intros M Hm.
  cbv zeta. rewrite !length_app, length_le_bytes, Hm. unfold HEADER_LEN_BYTES.
  rewrite (bool_decide_false (_ < _)%nat) by lia. cbn [fail_if mbind result_bind].
  rewrite (take_app_length' M _ 11) by done.
  rewrite (bool_decide_true (M = M)) by done. cbn [negb fail_if mbind result_bind].
  rewrite (drop_app_length' M _ 11), take_app_length' by (done || (symmetry; apply length_le_bytes)).
  rewrite from_le_bytes_le_bytes by (change (2 ^ (8 * Z.of_nat 4)) with (u32_max + 1); lia).
  unfold checked_u64. replace (is_u64 _) with true by (symmetry; unfold u32_max in Hlen; range). cbn [ok_or mbind result_bind].
  replace (_ <? _) with false by (symmetry; apply Z.ltb_ge; lia). cbn [fail_if mbind result_bind].
  rewrite (drop_app_add' M _ 11 4) by done. rewrite drop_app_length' by (symmetry; apply length_le_bytes).
  rewrite Nat2Z.id, take_app_length, drop_app_length, Hhb. by rewrite header_round_trip.
Qed.

Lemma decode_ok bytes e : decode bytes = Ok e <->
  split_envelope bytes = Ok (header e, payload e) /\
  h_payload_digest (header e) = payload_digest (without_digest (header e)) (payload e) /\
  validate_header_without_digest (without_digest (header e)) = Ok tt /\
  exists batches, stream_read (payload e) = Ok batches /\ batches <> [].
Proof.
  unfold decode, validate_arrow_ipc_stream. destruct e as [h p]. cbn [header payload].
  destruct (split_envelope bytes) as [[h' p']|err]; cbn [mbind result_bind]; [|naive_solver].
  rewrite !bind_unit_ok, fail_if_ok, negb_false_iff, String.eqb_eq. split.
  - intros (Hd & Hv & Hrest). destruct (stream_read p') as [batches|] eqn:Hb; [|done]. cbn [map_err mbind result_bind] in Hrest.
    rewrite bind_unit_ok, fail_if_ok in Hrest. destruct Hrest as [Hn [= <- <-]].
    split_and!; [done..|]. exists batches. split; [done|]. by intros ->.
  - intros ([= -> ->] & Hd & Hv & batches & -> & Hne). split_and!; [done..|]. cbn [map_err mbind result_bind].
    rewrite bind_unit_ok, fail_if_ok. split; [|done]. by destruct batches.
Qed.

(** What the encoder writes, the decoder reads: the envelope of a request has the
    header of the request and a stream that gives back the batches. *)
Theorem envelope_round_trip q batches e : typed_header (request_header q) ->
  encode_batches_with_header q batches = Ok e ->
  exists envelope, decode (encoded_bytes e) = Ok envelope /\ header envelope = encoded_header e /\
    without_digest (header envelope) = request_header q /\ record_batches envelope = Ok batches.
Proof.
  intros Ht. unfold encode_batches_with_header. intros (first & Hfirst%ok_or_ok & He)%bind_ok.
  rewrite !bind_unit_ok in He. destruct He as (_ & _ & Hv & (p & Hp & (bytes & Hb & [= <-])%bind_ok)%bind_ok).
  assert (batches <> []) as Hne by by intros ->.
  unfold encode_arrow_ipc_stream in Hp. destruct (stream_write batches) as [p'|] eqn:Hw; [|done]. apply (inj Ok) in Hp as <-.
  apply stream_round_trip in Hw; [|done].
  exists (Envelope (with_payload_digest (request_header q) (payload_digest (request_header q) p')) p').
  split_and!; [|done..|by unfold record_batches, decode_arrow_ipc_stream; cbn; rewrite Hw].
  apply decode_ok. split_and!; [by apply split_encode_envelope|done..|]. by exists batches.
Qed.

(** What the digest of an envelope is taken of. *)
Definition digested (e : IngestEnvelope) : bytes :=
  PAYLOAD_DIGEST_DOMAIN ++ to_vec (canonical_header (without_digest (header e))) ++ [0] ++ payload e.

(** C31: The digest covers the header and the stream: envelopes that decode and carry
    one digest are the same envelope, or what they are digests of collides under
    SHA-256. *)
Theorem envelope_digest_pins_content bytes1 bytes2 e1 e2 :
  decode bytes1 = Ok e1 -> decode bytes2 = Ok e2 ->
  h_payload_digest (header e1) = h_payload_digest (header e2) -> e1 = e2 \/ collide (digested e2) (digested e1).
Proof.
  assert (forall bytes e, decode bytes = Ok e -> typed_header (without_digest (header e)) /\
    h_payload_digest (header e) = payload_digest (without_digest (header e)) (payload e)) as Hd.
  { intros bytes e (Hs & Hd & _)%decode_ok. split; [|done]. unfold split_envelope in Hs. rewrite !bind_unit_ok in Hs.
    destruct Hs as (_ & _ & (n & _ & Hs)%bind_ok). rewrite bind_unit_ok in Hs.
    destruct Hs as [_ (h & Hh%ok_or_ok & [= -> _])%bind_ok]. by eapply header_from_slice_typed. }
  intros [T1 D1]%Hd [T2 D2]%Hd Heq. rewrite Heq, D2 in D1. apply sha256_text_eq in D1 as [D1|?]; [|by right].
  apply (inj (app _)) in D1. apply canonical_header_wf in T1, T2.
  apply to_vec_unique in D1 as [Hh%canonical_header_inj [= Hp]]; [|done..]. left.
  destruct e1 as [[h1 d1] p1], e2 as [[h2 d2] p2]; cbn in *. congruence.
Qed.
End proofs.
