(* ===== verification/StandingProgram.v ===== *)
(** Identities, input coverage and causal cuts of standing programs,
    [velorix-core/src/standing_program.rs]. *)
From S2P Require Import Prelude BTree Json Digits Segments ObjectKey Hash Serde JsonText Relation IngestEnvelope.

(** * Data *)

Record BuiltinRuntimeIdentity := BuiltinRuntime { runtime_name : string; runtime_version : string }.
#[export] Instance BuiltinRuntimeIdentity_eq_dec : EqDecision BuiltinRuntimeIdentity.
Proof. solve_decision. Defined.

Inductive NativeCodePolicy :=
| DisabledNoExternalDependencies
| NativeCodeOrExternalDependenciesPresent (reason : string).
#[export] Instance NativeCodePolicy_eq_dec : EqDecision NativeCodePolicy.
Proof. solve_decision. Defined.

Record StandingProgramIdentity := ProgramIdentity {
  si_tenant_id : string;
  si_program_id : string;
  si_view_ids : list string;
  si_sql_hash : string;
  si_input_catalog_hash : string;
  si_output_schema_hash : string;
  si_planner_identity : string;
  si_builtin_runtime_identities : list BuiltinRuntimeIdentity;
  si_runtime_capabilities : list string;
  si_runtime_compatibility : string;
  si_checkpoint_codec_identity : string;
  si_native_code_policy : NativeCodePolicy
}.
#[export] Instance StandingProgramIdentity_eq_dec : EqDecision StandingProgramIdentity.
Proof. solve_decision. Defined.

Record RuntimeCheckpointPartitionCoverageV1 := PartitionCoverage {
  pc_stream_id : string;
  pc_stream_generation : Z;
  pc_partition_id : Z;
  pc_partition_generation : Z;
  pc_covered_from_offset_inclusive : Z;
  pc_processed_offset_exclusive : Z
}.
#[export] Instance RuntimeCheckpointPartitionCoverageV1_eq_dec : EqDecision RuntimeCheckpointPartitionCoverageV1.
Proof. solve_decision. Defined.

Record RuntimeCheckpointRelationCoverageV1 := RelationCoverage {
  rv_relation_id : string;
  rv_relation_version : string;
  rv_relation_generation : Z;
  rv_schema_fingerprint : string;
  rv_partitions : list RuntimeCheckpointPartitionCoverageV1
}.
#[export] Instance RuntimeCheckpointRelationCoverageV1_eq_dec : EqDecision RuntimeCheckpointRelationCoverageV1.
Proof. solve_decision. Defined.

Record RuntimeCheckpointInputCoverageV1 := InputCoverage {
  cov_schema_version : Z;
  cov_view_generation : Z;
  cov_plan_hash : string;
  cov_input_catalog_epoch : Z;
  cov_relations : list RuntimeCheckpointRelationCoverageV1
}.
#[export] Instance RuntimeCheckpointInputCoverageV1_eq_dec : EqDecision RuntimeCheckpointInputCoverageV1.
Proof. solve_decision. Defined.

Record CausalViewCursorV1 := ViewCursor {
  vc_input_edge : string;
  vc_producer_tenant_id : string;
  vc_producer_program_id : string;
  vc_producer_view_id : string;
  vc_producer_generation : Z;
  vc_output_stream : string;
  vc_output_epoch : Z;
  vc_commit_digest : string
}.
#[export] Instance CausalViewCursorV1_eq_dec : EqDecision CausalViewCursorV1.
Proof. solve_decision. Defined.

Record CausalCutV1 := CausalCut {
  cc_schema_version : Z;
  cc_direct_source_catalog_epoch : Z;
  cc_direct_source_frontiers : list RuntimeCheckpointRelationCoverageV1;
  cc_direct_view_cursors : list CausalViewCursorV1
}.
#[export] Instance CausalCutV1_eq_dec : EqDecision CausalCutV1.
Proof. solve_decision. Defined.

Record DurableStateRoot := StateRoot { root_object_key : string; root_content_hash : string }.

(** [ArrowState] stands for its bytes. *)
Record RuntimeCheckpointStatePayload := StatePayload { payload_codec_identity : string; payload_bytes : bytes }.

(** The fields that [validate_identity] looks at. *)
Record RuntimeCheckpoint := Checkpoint {
  rc_identity : StandingProgramIdentity;
  rc_checkpoint_codec_identity : string;
  rc_state_root : DurableStateRoot;
  rc_state_payload : option RuntimeCheckpointStatePayload;
  rc_input_coverage : option RuntimeCheckpointInputCoverageV1;
  rc_causal_cut : option CausalCutV1
}.

Inductive StandingProgramRuntimeError :=
| InvalidProgramIdentity (field : string)
| UnsupportedNativeCodePolicy (reason : string)
| ProgramIdentityMismatch (expected_program_id actual_program_id : string)
| CheckpointCodecMismatch (expected actual : string).

Definition invalid_input_coverage : StandingProgramRuntimeError := InvalidProgramIdentity "input_coverage".
Definition invalid_causal_cut : StandingProgramRuntimeError := InvalidProgramIdentity "causal_cut".

(** * Validation *)

Abbreviation checked A := (result StandingProgramRuntimeError A).

Definition require_text (field value : string) : checked unit :=
  fail_if (is_blank value) (InvalidProgramIdentity field).

Definition require_sha256 (field value : string) : checked unit :=
  fail_if (negb (is_sha256_text value)) (InvalidProgramIdentity field).

Definition validate_builtin_runtime (r : BuiltinRuntimeIdentity) : checked unit :=
  _ ← require_text "builtin_runtime_identities.name" (runtime_name r);
  require_text "builtin_runtime_identities.version" (runtime_version r).

Definition validate_program_identity (i : StandingProgramIdentity) : checked unit :=
  _ ← require_text "tenant_id" (si_tenant_id i);
  _ ← require_text "program_id" (si_program_id i);
  _ ← require_sha256 "sql_hash" (si_sql_hash i);
  _ ← require_sha256 "input_catalog_hash" (si_input_catalog_hash i);
  _ ← require_sha256 "output_schema_hash" (si_output_schema_hash i);
  _ ← require_text "planner_identity" (si_planner_identity i);
  _ ← require_text "runtime_compatibility" (si_runtime_compatibility i);
  _ ← require_text "checkpoint_codec_identity" (si_checkpoint_codec_identity i);
  _ ← fail_if (bool_decide (si_view_ids i = [])) (InvalidProgramIdentity "view_ids");
  _ ← fail_if (bool_decide (si_builtin_runtime_identities i = [])) (InvalidProgramIdentity "builtin_runtime_identities");
  _ ← try_fold (fun _ r => validate_builtin_runtime r) tt (si_builtin_runtime_identities i);
  match si_native_code_policy i with
  | NativeCodeOrExternalDependenciesPresent reason => Err (UnsupportedNativeCodePolicy reason)
  | DisabledNoExternalDependencies => Ok tt
  end.

Definition validate_cursor (c : CausalViewCursorV1) : checked unit :=
  _ ← require_text "causal_cut.input_edge" (vc_input_edge c);
  _ ← require_text "causal_cut.producer_tenant_id" (vc_producer_tenant_id c);
  _ ← require_text "causal_cut.producer_program_id" (vc_producer_program_id c);
  _ ← require_text "causal_cut.producer_view_id" (vc_producer_view_id c);
  _ ← require_text "causal_cut.output_stream" (vc_output_stream c);
  _ ← require_sha256 "causal_cut.commit_digest" (vc_commit_digest c);
  fail_if (vc_producer_generation c =? 0) invalid_causal_cut.

(** ** Input coverage *)

Definition RUNTIME_CHECKPOINT_INPUT_COVERAGE_SCHEMA_VERSION_V1 : Z := 1.
Definition CAUSAL_CUT_SCHEMA_VERSION_V1 : Z := 1.
Definition CAUSAL_CUT_DIGEST_DOMAIN_V1 : string := "velorix-causal-cut-v1".

Definition partition_identity (p : RuntimeCheckpointPartitionCoverageV1) : string * (Z * (Z * Z)) :=
  (pc_stream_id p, (pc_stream_generation p, (pc_partition_id p, pc_partition_generation p))).
(** The derived order of partitions. *)
Definition partition_key (p : RuntimeCheckpointPartitionCoverageV1) : string * (Z * (Z * Z)) * (Z * Z) :=
  (partition_identity p, (pc_covered_from_offset_inclusive p, pc_processed_offset_exclusive p)).
Definition relation_identity (r : RuntimeCheckpointRelationCoverageV1) : string * (string * Z) :=
  (rv_relation_id r, (rv_relation_version r, rv_relation_generation r)).
(** The derived order of cursors. *)
Definition cursor_key (c : CausalViewCursorV1) : string * (string * (string * (string * (Z * (string * (Z * string)))))) :=
  (vc_input_edge c, (vc_producer_tenant_id c, (vc_producer_program_id c, (vc_producer_view_id c,
    (vc_producer_generation c, (vc_output_stream c, (vc_output_epoch c, vc_commit_digest c))))))).

(** [if previous == Some(x) { return Err(..) } previous = Some(x)]. *)
Definition not_repeated `{EqDecision K} (previous : option K) (k : K) (e : StandingProgramRuntimeError) : checked (option K) :=
  _ ← fail_if (bool_decide (previous = Some k)) e;
  Ok (Some k).

Definition check_partition (previous : option (string * (Z * (Z * Z)))) (p : RuntimeCheckpointPartitionCoverageV1) :
    checked (option (string * (Z * (Z * Z)))) :=
  _ ← require_text "input_coverage.stream_id" (pc_stream_id p);
  _ ← fail_if ((pc_stream_generation p =? 0) || (pc_partition_generation p =? 0)) invalid_input_coverage;
  _ ← fail_if (pc_processed_offset_exclusive p <? pc_covered_from_offset_inclusive p) invalid_input_coverage;
  not_repeated previous (partition_identity p) invalid_input_coverage.

Definition canonical_relation (previous : option (string * (string * Z))) (r : RuntimeCheckpointRelationCoverageV1) :
    checked (option (string * (string * Z)) * RuntimeCheckpointRelationCoverageV1) :=
  _ ← require_text "input_coverage.relation_id" (rv_relation_id r);
  _ ← require_text "input_coverage.relation_version" (rv_relation_version r);
  _ ← require_text "input_coverage.schema_fingerprint" (rv_schema_fingerprint r);
  _ ← fail_if (rv_relation_generation r =? 0) invalid_input_coverage;
  let partitions := sort_on partition_key (rv_partitions r) in
  _ ← try_fold check_partition None partitions;
  previous ← not_repeated previous (relation_identity r) invalid_input_coverage;
  Ok (previous, RelationCoverage (rv_relation_id r) (rv_relation_version r) (rv_relation_generation r)
    (rv_schema_fingerprint r) partitions).

Definition canonical_relations (relations : list RuntimeCheckpointRelationCoverageV1) :
    checked (list RuntimeCheckpointRelationCoverageV1) :=
  '(_, out) ← try_fold (fun s r => '(previous, r) ← canonical_relation s.1 r; Ok (previous, s.2 ++ [r]))
    (None, []) (sort_on relation_identity relations);
  Ok out.

Definition coverage_canonicalized (c : RuntimeCheckpointInputCoverageV1) : checked RuntimeCheckpointInputCoverageV1 :=
  _ ← fail_if (negb (cov_schema_version c =? RUNTIME_CHECKPOINT_INPUT_COVERAGE_SCHEMA_VERSION_V1) ||
    (cov_view_generation c =? 0)) invalid_input_coverage;
  _ ← require_text "input_coverage.plan_hash" (cov_plan_hash c);
  relations ← canonical_relations (cov_relations c);
  Ok (InputCoverage (cov_schema_version c) (cov_view_generation c) (cov_plan_hash c) (cov_input_catalog_epoch c) relations).

(** ** Causal cuts *)

Definition check_cursor (previous : option string) (c : CausalViewCursorV1) : checked (option string) :=
  _ ← validate_cursor c;
  not_repeated previous (vc_input_edge c) invalid_causal_cut.

Definition cut_canonicalized (c : CausalCutV1) : checked CausalCutV1 :=
  _ ← fail_if (negb (cc_schema_version c =? CAUSAL_CUT_SCHEMA_VERSION_V1) ||
    (bool_decide (cc_direct_source_frontiers c = []) && bool_decide (cc_direct_view_cursors c = []))) invalid_causal_cut;
  source_coverage ← coverage_canonicalized (InputCoverage RUNTIME_CHECKPOINT_INPUT_COVERAGE_SCHEMA_VERSION_V1 1
    "causal-cut-source-validation" (cc_direct_source_catalog_epoch c) (cc_direct_source_frontiers c));
  let cursors := sort_on cursor_key (cc_direct_view_cursors c) in
  _ ← try_fold check_cursor None cursors;
  Ok (CausalCut (cc_schema_version c) (cc_direct_source_catalog_epoch c) (cov_relations source_coverage) cursors).

Definition from_input_coverage (c : RuntimeCheckpointInputCoverageV1) (direct_view_cursors : list CausalViewCursorV1) :
    checked CausalCutV1 :=
  coverage ← coverage_canonicalized c;
  cut_canonicalized (CausalCut CAUSAL_CUT_SCHEMA_VERSION_V1 (cov_input_catalog_epoch coverage) (cov_relations coverage)
    direct_view_cursors).

(** * Digests *)

Definition partition_coverage_json (p : RuntimeCheckpointPartitionCoverageV1) : Value :=
  JObject [("stream_id", JString (pc_stream_id p)); ("stream_generation", json_of_unsigned (pc_stream_generation p));
    ("partition_id", json_of_unsigned (pc_partition_id p));
    ("partition_generation", json_of_unsigned (pc_partition_generation p));
    ("covered_from_offset_inclusive", json_of_unsigned (pc_covered_from_offset_inclusive p));
    ("processed_offset_exclusive", json_of_unsigned (pc_processed_offset_exclusive p))].
Definition relation_coverage_json (r : RuntimeCheckpointRelationCoverageV1) : Value :=
  JObject [("relation_id", JString (rv_relation_id r)); ("relation_version", JString (rv_relation_version r));
    ("relation_generation", json_of_unsigned (rv_relation_generation r));
    ("schema_fingerprint", JString (rv_schema_fingerprint r));
    ("partitions", JArray (partition_coverage_json <$> rv_partitions r))].
Definition coverage_json (c : RuntimeCheckpointInputCoverageV1) : Value :=
  JObject [("schema_version", json_of_unsigned (cov_schema_version c));
    ("view_generation", json_of_unsigned (cov_view_generation c)); ("plan_hash", JString (cov_plan_hash c));
    ("input_catalog_epoch", json_of_unsigned (cov_input_catalog_epoch c));
    ("relations", JArray (relation_coverage_json <$> cov_relations c))].
Definition cursor_json (c : CausalViewCursorV1) : Value :=
  JObject [("input_edge", JString (vc_input_edge c)); ("producer_tenant_id", JString (vc_producer_tenant_id c));
    ("producer_program_id", JString (vc_producer_program_id c)); ("producer_view_id", JString (vc_producer_view_id c));
    ("producer_generation", json_of_unsigned (vc_producer_generation c)); ("output_stream", JString (vc_output_stream c));
    ("output_epoch", json_of_unsigned (vc_output_epoch c)); ("commit_digest", JString (vc_commit_digest c))].
Definition cut_json (c : CausalCutV1) : Value :=
  JObject [("schema_version", json_of_unsigned (cc_schema_version c));
    ("direct_source_catalog_epoch", json_of_unsigned (cc_direct_source_catalog_epoch c));
    ("direct_source_frontiers", JArray (relation_coverage_json <$> cc_direct_source_frontiers c));
    ("direct_view_cursors", JArray (cursor_json <$> cc_direct_view_cursors c))].

Section digests.
Context `{Sha256, SerdeJson}.

Definition stable_hash (c : RuntimeCheckpointInputCoverageV1) : checked string :=
  canonical ← coverage_canonicalized c;
  Ok (sha256_text (to_vec (coverage_json canonical))).

Definition stable_digest (c : CausalCutV1) : checked string :=
  canonical ← cut_canonicalized c;
  Ok (sha256_text (to_vec (JObject [("domain", JString CAUSAL_CUT_DIGEST_DOMAIN_V1); ("causal_cut", cut_json canonical)]))).

Definition validate_identity (c : RuntimeCheckpoint) (expected : StandingProgramIdentity) : checked unit :=
  _ ← validate_program_identity (rc_identity c);
  _ ← fail_if (negb (bool_decide (rc_identity c = expected)))
    (ProgramIdentityMismatch (si_program_id expected) (si_program_id (rc_identity c)));
  let codec := si_checkpoint_codec_identity expected in
  _ ← fail_if (negb (String.eqb (rc_checkpoint_codec_identity c) codec))
    (CheckpointCodecMismatch codec (rc_checkpoint_codec_identity c));
  _ ← match rc_state_payload c with
      | Some payload =>
          _ ← fail_if (negb (String.eqb (payload_codec_identity payload) codec))
            (CheckpointCodecMismatch codec (payload_codec_identity payload));
          fail_if (negb (String.eqb (sha256_text (payload_bytes payload)) (root_content_hash (rc_state_root c))))
            (InvalidProgramIdentity "state_payload.content_hash")
      | None => Ok tt
      end;
  _ ← require_text "state_root.object_key" (root_object_key (rc_state_root c));
  _ ← require_sha256 "state_root.content_hash" (root_content_hash (rc_state_root c));
  _ ← match rc_input_coverage c with
      | Some coverage => _ ← stable_hash coverage; Ok tt
      | None => Ok tt
      end;
  match rc_causal_cut c with
  | Some cut =>
      canonical_cut ← cut_canonicalized cut;
      _ ← stable_digest cut;
      match rc_input_coverage c with
      | Some coverage =>
          expected ← from_input_coverage coverage (cc_direct_view_cursors canonical_cut);
          fail_if (negb (bool_decide (canonical_cut = expected))) invalid_causal_cut
      | None => Ok tt
      end
  | None => Ok tt
  end.
End digests.
