(* ===== verification/MetaTypes.v ===== *)
(** The data of the metadata service: [velorix-meta/src/lib.rs], [source_cut.rs],
    [view_bootstrap.rs] and [published_input_bootstrap.rs], and the view records of
    [velorix-storage/src/materialized_view_registry.rs]. *)
From S2P Require Import Prelude BTree Json Digits Segments ObjectKey Hash Relation StandingProgram.

(** An order through an injective key, as derived [Ord] implementations give it. *)
Definition ord_by {A} `{Ord K} (key : A -> K) (key_inj : forall x y, key x = key y -> x = y) : Ord A.
Proof.
  refine {| cmp x y := cmp (key x) (key y) |}.
  - intros x y. rewrite cmp_eq. split; [apply key_inj|by intros ->].
  - intros x y. apply cmp_antisym.
  - intros x y z. apply cmp_lt_trans.
Defined.

(** * Ingest ranges *)

Record IngestRangeReservation := Reservation {
  r_stream_id : string;
  r_partition_id : Z;
  r_start_offset_inclusive : Z;
  r_end_offset_exclusive : Z;
  r_batch_key : string;
  r_payload_digest : string;
  r_relation_id : string;
  r_relation_version : string;
  r_schema_fingerprint : string;
  r_writer_epoch : Z
}.
#[export] Instance IngestRangeReservation_eq_dec : EqDecision IngestRangeReservation.
Proof. solve_decision. Defined.
#[export] Instance IngestRangeReservation_countable : Countable IngestRangeReservation.
Proof.
  refine (inj_countable'
    (fun r => (r_stream_id r, r_partition_id r, r_start_offset_inclusive r, r_end_offset_exclusive r, r_batch_key r,
       r_payload_digest r, r_relation_id r, r_relation_version r, r_schema_fingerprint r, r_writer_epoch r))
    (fun '(a, b, c, d, e, f, g, h, i, j) => Reservation a b c d e f g h i j) _).
  by intros [].
Defined.

(** The authority domain of an input partition of a view. *)
Record PartitionAuthorityKey := AuthorityKey {
  ak_namespace : string;
  ak_view_id : string;
  ak_stream_id : string;
  ak_partition_id : Z
}.
#[export] Instance PartitionAuthorityKey_eq_dec : EqDecision PartitionAuthorityKey.
Proof. solve_decision. Defined.
#[export] Instance PartitionAuthorityKey_countable : Countable PartitionAuthorityKey.
Proof.
  refine (inj_countable' (fun k => (ak_namespace k, ak_view_id k, ak_stream_id k, ak_partition_id k))
    (fun '(a, b, c, d) => AuthorityKey a b c d) _). by intros [].
Defined.

Record PartitionAuthorityToken := AuthorityToken {
  at_key : PartitionAuthorityKey;
  at_owner_id : string;
  at_owner_epoch : Z;
  at_expires_at_unix_ms : Z
}.
#[export] Instance PartitionAuthorityToken_eq_dec : EqDecision PartitionAuthorityToken.
Proof. solve_decision. Defined.

(** The authority domain of relation ingest. *)
Record RelationPartitionAuthorityKey := RelationAuthorityKey {
  rk_namespace : string;
  rk_relation_id : string;
  rk_stream_id : string;
  rk_partition_id : Z
}.
#[export] Instance RelationPartitionAuthorityKey_eq_dec : EqDecision RelationPartitionAuthorityKey.
Proof. solve_decision. Defined.
#[export] Instance RelationPartitionAuthorityKey_countable : Countable RelationPartitionAuthorityKey.
Proof.
  refine (inj_countable' (fun k => (rk_namespace k, rk_relation_id k, rk_stream_id k, rk_partition_id k))
    (fun '(a, b, c, d) => RelationAuthorityKey a b c d) _). by intros [].
Defined.

(** [expires_at_unix_ms] counts committed metadata mutations. *)
Record RelationPartitionAuthorityToken := RelationAuthorityToken {
  rt_key : RelationPartitionAuthorityKey;
  rt_owner_id : string;
  rt_owner_epoch : Z;
  rt_expires_at_unix_ms : Z
}.
#[export] Instance RelationPartitionAuthorityToken_eq_dec : EqDecision RelationPartitionAuthorityToken.
Proof. solve_decision. Defined.

(** A published range, with its authority domain [K]: [AuthoritativeIngestPublication]
    and [RelationAuthoritativeIngestPublication]. *)
Record IngestPublication (K : Type) := Publication {
  p_reservation : IngestRangeReservation;
  p_authority_key : K;
  p_request_id : string;
  p_request_digest : string;
  p_object_key : string;
  p_object_digest : string
}.
Arguments Publication {K}.
Arguments p_reservation {K}.
Arguments p_authority_key {K}.
Arguments p_request_id {K}.
Arguments p_request_digest {K}.
Arguments p_object_key {K}.
Arguments p_object_digest {K}.
#[export] Instance IngestPublication_eq_dec `{EqDecision K} : EqDecision (IngestPublication K).
Proof. solve_decision. Defined.
Abbreviation AuthoritativeIngestPublication := (IngestPublication PartitionAuthorityKey).
Abbreviation RelationAuthoritativeIngestPublication := (IngestPublication RelationPartitionAuthorityKey).

(** ** Requests *)

Record ReserveAuthoritativeIngestRangeRequest := ReserveAuthoritative {
  ra_reservation : IngestRangeReservation;
  ra_authority : PartitionAuthorityToken
}.

Record PublishIngestReservationRequest := PublishReservation {
  pr_reservation : IngestRangeReservation;
  pr_authority : PartitionAuthorityToken;
  pr_request_id : string;
  pr_request_digest : string;
  pr_object_key : string;
  pr_object_digest : string
}.

Record AcquirePartitionAuthorityRequest := AcquireAuthority {
  aa_key : PartitionAuthorityKey;
  aa_owner_id : string;
  aa_current_token : option PartitionAuthorityToken;
  aa_ttl_ms : Z
}.

Record AcquireRelationPartitionAuthorityRequest := AcquireRelationAuthority {
  ar_key : RelationPartitionAuthorityKey;
  ar_owner_id : string;
  ar_current_token : option RelationPartitionAuthorityToken;
  ar_ttl_ms : Z
}.

Record ReserveRelationAuthoritativeIngestRangeRequest := ReserveRelation {
  rr_reservation : IngestRangeReservation;
  rr_authority : RelationPartitionAuthorityToken
}.

Record PublishRelationIngestReservationRequest := PublishRelation {
  pl_reservation : IngestRangeReservation;
  pl_authority : RelationPartitionAuthorityToken;
  pl_request_id : string;
  pl_request_digest : string;
  pl_object_key : string;
  pl_object_digest : string
}.

Record PartitionCheckpointPointer := PartitionPointer {
  pp_key : PartitionAuthorityKey;
  pp_checkpoint_key : string
}.
#[export] Instance PartitionCheckpointPointer_eq_dec : EqDecision PartitionCheckpointPointer.
Proof. solve_decision. Defined.

Record PublishPartitionCheckpointPointerRequest := PublishPointer {
  pq_expected_previous : option PartitionCheckpointPointer;
  pq_candidate : PartitionCheckpointPointer;
  pq_authority : PartitionAuthorityToken
}.

Inductive ReserveIngestRangeOutcome := RangeReserved | RangeDuplicate | RangeConflict.
Inductive CommitIngestRangeOutcome := RangeCommitted | CommitDuplicate | CommitConflict.
Inductive PublishIngestReservationOutcome :=
  | PublicationCommitted | PublicationDuplicate | PublicationConflict | InvalidAuthority.
Inductive AcquireOutcome (T : Type) := Acquired (t : T) | Renewed (t : T) | AcquireConflict (t : T).
Arguments Acquired {T}.
Arguments Renewed {T}.
Arguments AcquireConflict {T}.
Inductive PublishPartitionCheckpointPointerOutcome := PointerPublished | PointerDuplicate | PointerConflict.
Inductive StoreRelationCatalogOutcome := CatalogStored | CatalogStoreDuplicate.

(** * Source cuts *)

Record RelationIngestPublicationRefV1 := PublicationRef {
  pf_request_id : string;
  pf_start_offset_inclusive : Z;
  pf_end_offset_exclusive : Z;
  pf_batch_key : string;
  pf_payload_digest : string;
  pf_object_key : string;
  pf_object_digest : string
}.
#[export] Instance RelationIngestPublicationRefV1_eq_dec : EqDecision RelationIngestPublicationRefV1.
Proof. solve_decision. Defined.

Record RelationIngestPartitionCutV1 := RelationPartitionCut {
  lp_stream_id : string;
  lp_partition_id : Z;
  lp_base_offset_inclusive : Z;
  lp_committed_offset_exclusive : Z;
  lp_publications : list RelationIngestPublicationRefV1
}.
#[export] Instance RelationIngestPartitionCutV1_eq_dec : EqDecision RelationIngestPartitionCutV1.
Proof. solve_decision. Defined.

Record RelationIngestSourceCutV1 := RelationSourceCut {
  lc_schema_version : Z;
  lc_namespace : string;
  lc_relation_id : string;
  lc_partitions : list RelationIngestPartitionCutV1
}.
#[export] Instance RelationIngestSourceCutV1_eq_dec : EqDecision RelationIngestSourceCutV1.
Proof. solve_decision. Defined.

Record IngestSourceRelationIdentityV1 := RelationIdentity {
  i_relation_id : string;
  i_relation_version : string;
  i_relation_generation : Z;
  i_schema_fingerprint : string
}.
#[export] Instance IngestSourceRelationIdentityV1_eq_dec : EqDecision IngestSourceRelationIdentityV1.
Proof. solve_decision. Defined.
Definition identity_key (i : IngestSourceRelationIdentityV1) : string * (string * (Z * string)) :=
  (i_relation_id i, (i_relation_version i, (i_relation_generation i, i_schema_fingerprint i))).
Lemma identity_key_inj i j : identity_key i = identity_key j -> i = j.
Proof. destruct i, j. by intros [= -> -> -> ->]. Qed.
#[export] Instance IngestSourceRelationIdentityV1_ord : Ord IngestSourceRelationIdentityV1 := ord_by identity_key identity_key_inj.

Record RelationIngestSourceIdentityCutV1 := IdentityCut {
  ic_relation : IngestSourceRelationIdentityV1;
  ic_cut : RelationIngestSourceCutV1
}.
#[export] Instance RelationIngestSourceIdentityCutV1_eq_dec : EqDecision RelationIngestSourceIdentityCutV1.
Proof. solve_decision. Defined.

Record CaptureRelationIngestSourceCutRequest := CaptureRelationCut {
  cr_authority : RelationPartitionAuthorityKey;
  cr_relation_version : string;
  cr_schema_fingerprint : string
}.
Record CaptureRelationIngestSourceCutsRequest := CaptureRelationCuts {
  cs_namespace : string;
  cs_relations : list IngestSourceRelationIdentityV1
}.

Record IngestSourcePartitionCutV1 := PartitionCut {
  sp_stream_id : string;
  sp_stream_generation : Z;
  sp_partition_id : Z;
  sp_partition_generation : Z;
  sp_base_offset_inclusive : Z;
  sp_committed_offset_exclusive : Z
}.
#[export] Instance IngestSourcePartitionCutV1_eq_dec : EqDecision IngestSourcePartitionCutV1.
Proof. solve_decision. Defined.

Record IngestSourceRelationCutV1 := RelationCut {
  sr_relation : IngestSourceRelationIdentityV1;
  sr_partitions : list IngestSourcePartitionCutV1
}.
#[export] Instance IngestSourceRelationCutV1_eq_dec : EqDecision IngestSourceRelationCutV1.
Proof. solve_decision. Defined.

Record IngestSourceCutV1 := SourceCut {
  cut_schema_version : Z;
  cut_input_catalog_epoch : Z;
  cut_relations : list IngestSourceRelationCutV1
}.
#[export] Instance IngestSourceCutV1_eq_dec : EqDecision IngestSourceCutV1.
Proof. solve_decision. Defined.

Record CaptureIngestSourceCutRequest := CaptureCut { cq_relations : list IngestSourceRelationIdentityV1 }.

(** * Standing runtime owners and checkpoints *)

Record StandingRuntimeOwnerClaim := OwnerClaim {
  oc_tenant_id : string;
  oc_program_id : string;
  oc_view_id : string;
  oc_owner_id : string;
  oc_owner_endpoint : option string;
  oc_owner_epoch : Z;
  oc_expires_at_unix_ms : Z
}.
#[export] Instance StandingRuntimeOwnerClaim_eq_dec : EqDecision StandingRuntimeOwnerClaim.
Proof. solve_decision. Defined.

Record StandingRuntimeOwnerToken := OwnerToken {
  ot_tenant_id : string;
  ot_program_id : string;
  ot_view_id : string;
  ot_owner_id : string;
  ot_owner_epoch : Z
}.
#[export] Instance StandingRuntimeOwnerToken_eq_dec : EqDecision StandingRuntimeOwnerToken.
Proof. solve_decision. Defined.

Record AcquireStandingRuntimeOwnerRequest := AcquireOwner {
  ao_tenant_id : string;
  ao_program_id : string;
  ao_view_id : string;
  ao_owner_id : string;
  ao_ttl_ms : Z
}.

Record ReacquireStandingRuntimeOwnerRequest := ReacquireOwner {
  ro_expected_current : StandingRuntimeOwnerClaim;
  ro_owner_id : string;
  ro_owner_endpoint : string;
  ro_ttl_ms : Z
}.

(** Progress of a bootstrap from published views. *)
Record PublishedInputBootstrapCursorV1 := BootstrapCursor {
  bc_input_edge : string;
  bc_captured_cursor : CausalViewCursorV1;
  bc_output_manifest_ref : string;
  bc_output_manifest_hash : string;
  bc_output_schema_hash : string;
  bc_total_pages : Z;
  bc_total_rows : Z;
  bc_next_page_index : Z;
  bc_applied_rows : Z
}.
#[export] Instance PublishedInputBootstrapCursorV1_eq_dec : EqDecision PublishedInputBootstrapCursorV1.
Proof. solve_decision. Defined.

Record PublishedInputBootstrapProgressV1 := BootstrapProgress {
  bp_schema_version : Z;
  bp_bootstrap_generation : Z;
  bp_plan_hash : string;
  bp_inputs : list PublishedInputBootstrapCursorV1
}.
#[export] Instance PublishedInputBootstrapProgressV1_eq_dec : EqDecision PublishedInputBootstrapProgressV1.
Proof. solve_decision. Defined.

Record StandingRuntimeCheckpointPointer := CheckpointPointer {
  cp_published_input_bootstrap : option PublishedInputBootstrapProgressV1;
  cp_tenant_id : string;
  cp_program_id : string;
  cp_view_id : string;
  cp_checkpoint_key : string;
  cp_logical_epoch : Z;
  cp_content_hash : string;
  cp_manifest_hash : string;
  cp_output_manifest_refs : list string;
  cp_bootstrap_generation : Z;
  cp_plan_hash : string;
  cp_coverage_hash : string;
  cp_input_coverage : option RuntimeCheckpointInputCoverageV1;
  cp_previous_checkpoint_key : string;
  cp_previous_manifest_hash : string
}.
#[export] Instance StandingRuntimeCheckpointPointer_eq_dec : EqDecision StandingRuntimeCheckpointPointer.
Proof. solve_decision. Defined.

Record PublishStandingRuntimeCheckpointRequest := PublishCheckpoint {
  pk_expected_previous : option StandingRuntimeCheckpointPointer;
  pk_candidate : StandingRuntimeCheckpointPointer;
  pk_owner : StandingRuntimeOwnerToken;
  pk_expected_relation_source_cuts : option (list RelationIngestSourceIdentityCutV1)
}.

Inductive PublishStandingRuntimeCheckpointOutcome :=
  | CheckpointPublished | CheckpointDuplicate | CheckpointConflict | SourceCutChanged.

(** * View bootstraps *)

Inductive ViewBootstrapLifecycleV1 := Bootstrapping | ActiveView.
#[export] Instance ViewBootstrapLifecycleV1_eq_dec : EqDecision ViewBootstrapLifecycleV1.
Proof. solve_decision. Defined.

Record BeginViewDependencyEdgeV1 := DependencyEdge {
  e_edge_id : string;
  e_producer_program_id : string;
  e_producer_view_id : string;
  e_producer_generation : Z;
  e_producer_plan_hash : string;
  e_input_relation_id : string;
  e_input_relation_version : string;
  e_output_stream_id : string;
  e_output_schema_hash : string;
  e_key_descriptor_hash : string;
  e_delta_codec_identity : string;
  e_frontier_kind : string;
  e_bootstrap_cursor : option CausalViewCursorV1
}.
#[export] Instance BeginViewDependencyEdgeV1_eq_dec : EqDecision BeginViewDependencyEdgeV1.
Proof. solve_decision. Defined.

Record BeginViewBootstrapRequest := BeginBootstrap {
  vb_tenant_id : string;
  vb_program_id : string;
  vb_view_id : string;
  vb_plan_hash : string;
  vb_view_spec_json : bytes;
  vb_relations : list IngestSourceRelationIdentityV1;
  vb_view_inputs : list BeginViewDependencyEdgeV1;
  vb_expected_graph_revision : Z
}.

Record ViewBootstrapControlV1 := BootstrapControl {
  vw_schema_version : Z;
  vw_tenant_id : string;
  vw_program_id : string;
  vw_view_id : string;
  vw_bootstrap_generation : Z;
  vw_plan_hash : string;
  vw_view_spec_json : bytes;
  vw_lifecycle : ViewBootstrapLifecycleV1;
  vw_bootstrap_cut : IngestSourceCutV1;
  vw_activation_cut : option IngestSourceCutV1;
  vw_active_checkpoint : option StandingRuntimeCheckpointPointer;
  vw_view_inputs : list BeginViewDependencyEdgeV1
}.

Record FixViewBootstrapActivationCutRequest := FixActivationCut {
  fx_tenant_id : string;
  fx_program_id : string;
  fx_view_id : string;
  fx_bootstrap_generation : Z;
  fx_plan_hash : string;
  fx_owner : StandingRuntimeOwnerToken
}.

Record PromoteViewBootstrapRequest := PromoteBootstrap {
  pm_tenant_id : string;
  pm_program_id : string;
  pm_view_id : string;
  pm_bootstrap_generation : Z;
  pm_plan_hash : string;
  pm_checkpoint : StandingRuntimeCheckpointPointer;
  pm_owner : StandingRuntimeOwnerToken
}.

(** [BeginViewBootstrapOutcome], [FixViewBootstrapActivationCutOutcome] and
    [PromoteViewBootstrapOutcome]: [Created], [Fixed] and [Promoted] are [BootstrapDone]. *)
Inductive ViewBootstrapOutcome :=
  | BootstrapDone (control : ViewBootstrapControlV1)
  | BootstrapDuplicate (control : ViewBootstrapControlV1)
  | BootstrapConflict.

(** * Active views *)

(** Plans and bindings of a view, which the metadata service only stores and
    compares. *)
Class ViewBindings := {
  logical_plan : Type;
  published_relation : Type;
  input_binding : Type;
  logical_plan_eq_dec :: EqDecision logical_plan;
  published_relation_eq_dec :: EqDecision published_relation;
  input_binding_eq_dec :: EqDecision input_binding
}.

Inductive MaterializedViewExecutionMode := StandingRuntime.
#[export] Instance MaterializedViewExecutionMode_eq_dec : EqDecision MaterializedViewExecutionMode.
Proof. solve_decision. Defined.

Inductive MaterializedViewAdmissionStatus := AdmissionPending | AdmissionAdmitted | AdmissionSystemError.
#[export] Instance MaterializedViewAdmissionStatus_eq_dec : EqDecision MaterializedViewAdmissionStatus.
Proof. solve_decision. Defined.

Inductive MaterializedViewDeploymentStatus := NotRequired | NotDeployed | Deploying | Running | DeploymentFailed.
#[export] Instance MaterializedViewDeploymentStatus_eq_dec : EqDecision MaterializedViewDeploymentStatus.
Proof. solve_decision. Defined.

Record MaterializedViewLifecycleStatus := LifecycleStatus {
  ls_runtime_engine : string;
  ls_admission_status : MaterializedViewAdmissionStatus;
  ls_deployment_status : MaterializedViewDeploymentStatus;
  ls_message : option string
}.
#[export] Instance MaterializedViewLifecycleStatus_eq_dec : EqDecision MaterializedViewLifecycleStatus.
Proof. solve_decision. Defined.

Record MaterializedViewRequestFieldSpec := RequestField {
  rf_field_name : string;
  rf_field_in : string;
  rf_type : string;
  rf_default_value : option Value;
  rf_description : option string;
  rf_validators : list string
}.
#[export] Instance MaterializedViewRequestFieldSpec_eq_dec : EqDecision MaterializedViewRequestFieldSpec.
Proof. solve_decision. Defined.

Record MaterializedViewResponseColumnSpec := ResponseColumn {
  rs_name : string;
  rs_type : string;
  rs_source : string;
  rs_description : option string
}.
#[export] Instance MaterializedViewResponseColumnSpec_eq_dec : EqDecision MaterializedViewResponseColumnSpec.
Proof. solve_decision. Defined.

Record MaterializedViewApiMetadata := ApiMetadata {
  api_description : option string;
  api_url_path : option string;
  api_output_relation_id : option string;
  api_request : list MaterializedViewRequestFieldSpec;
  api_response_schema : option (list MaterializedViewResponseColumnSpec);
  api_sql_template : option string;
  api_response_formats : list string;
  api_query_policy_id : option string
}.
#[export] Instance MaterializedViewApiMetadata_eq_dec : EqDecision MaterializedViewApiMetadata.
Proof. solve_decision. Defined.

Record MaterializedViewArtifactBinding := ArtifactBinding {
  ab_artifact_id : string;
  ab_artifact_hash : string;
  ab_runtime_crate_name : string;
  ab_state_codec : string;
  ab_state_schema_version : Z;
  ab_execution_status : string;
  ab_execution_path : string;
  ab_standing_program_identity : option StandingProgramIdentity
}.
#[export] Instance MaterializedViewArtifactBinding_eq_dec : EqDecision MaterializedViewArtifactBinding.
Proof. solve_decision. Defined.

Record MaterializedViewRuntimeBinding `{ViewBindings} := RuntimeBinding {
  rb_runtime_kind : string;
  rb_runtime_version : string;
  rb_standing_program_identity : StandingProgramIdentity;
  rb_logical_plan : option logical_plan;
  rb_published_relations : list published_relation;
  rb_input_bindings : list input_binding
}.
Arguments RuntimeBinding {_}.
#[export] Instance MaterializedViewRuntimeBinding_eq_dec `{ViewBindings} : EqDecision MaterializedViewRuntimeBinding.
Proof. solve_decision. Defined.

Record ActiveMaterializedViewRecord `{ViewBindings} := ViewRecord {
  av_schema_version : Z;
  av_view_id : string;
  av_spec_hash : string;
  av_execution_mode : option MaterializedViewExecutionMode;
  av_api : option MaterializedViewApiMetadata;
  av_artifact : option MaterializedViewArtifactBinding;
  av_runtime : option MaterializedViewRuntimeBinding;
  av_lifecycle : option MaterializedViewLifecycleStatus
}.
Arguments ViewRecord {_}.
#[export] Instance ActiveMaterializedViewRecord_eq_dec `{ViewBindings} : EqDecision ActiveMaterializedViewRecord.
Proof. solve_decision. Defined.

Record ActiveViewRegistryScopeV1 := RegistryScope { vs_authority_store_id : string; vs_namespace : string }.
#[export] Instance ActiveViewRegistryScopeV1_eq_dec : EqDecision ActiveViewRegistryScopeV1.
Proof. solve_decision. Defined.
#[export] Instance ActiveViewRegistryScopeV1_countable : Countable ActiveViewRegistryScopeV1.
Proof.
  refine (inj_countable' (fun s => (vs_authority_store_id s, vs_namespace s)) (fun '(a, b) => RegistryScope a b) _).
  by intros [].
Defined.

Record ActiveViewRecordVersionV1 `{ViewBindings} := RecordVersion {
  vv_generation : Z;
  vv_record : ActiveMaterializedViewRecord
}.
Arguments RecordVersion {_}.

Record ActiveViewRegistryStateV1 `{ViewBindings} := RegistryState {
  vg_initialized : bool;
  vg_snapshot_revision : Z;
  vg_records : gmap string ActiveViewRecordVersionV1
}.
Arguments RegistryState {_}.

Record ActiveViewRegistrySnapshotV1 `{ViewBindings} := RegistrySnapshot {
  vt_snapshot_revision : Z;
  vt_imported : bool;
  vt_records : list ActiveViewRecordVersionV1
}.
Arguments RegistrySnapshot {_}.

Record CreateActiveViewRecordRequestV1 `{ViewBindings} := CreateRecord {
  vc_scope : ActiveViewRegistryScopeV1;
  vc_record : ActiveMaterializedViewRecord
}.
Arguments CreateRecord {_}.
Record CompareExchangeActiveViewRecordRequestV1 `{ViewBindings} := CompareExchangeRecord {
  vx_scope : ActiveViewRegistryScopeV1;
  vx_view_id : string;
  vx_expected_generation : Z;
  vx_record : ActiveMaterializedViewRecord;
  vx_owner : option StandingRuntimeOwnerToken
}.
Arguments CompareExchangeRecord {_}.
Record ImportActiveViewRegistryRequestV1 `{ViewBindings} := ImportRegistry {
  vi_scope : ActiveViewRegistryScopeV1;
  vi_records : list ActiveMaterializedViewRecord
}.
Arguments ImportRegistry {_}.
Record PromoteViewBootstrapWithActiveViewRecordRequestV1 `{ViewBindings} := PromoteWithRecord {
  vp_bootstrap : PromoteViewBootstrapRequest;
  vp_scope : ActiveViewRegistryScopeV1;
  vp_expected_generation : Z;
  vp_record : ActiveMaterializedViewRecord
}.
Arguments PromoteWithRecord {_}.

(** [CreateActiveViewRecordOutcomeV1] and [CompareExchangeActiveViewRecordOutcomeV1]:
    [Created] and [Updated] are [RecordWritten]. *)
Inductive ActiveViewRecordOutcome `{ViewBindings} :=
  | RecordWritten (version : ActiveViewRecordVersionV1)
  | RecordDuplicate (version : ActiveViewRecordVersionV1)
  | RecordConflict.
Arguments RecordWritten {_}.
Arguments RecordDuplicate {_}.
Arguments RecordConflict {_}.
Inductive ImportActiveViewRegistryOutcomeV1 := Imported | ImportDuplicate | ImportConflict.

(** * Errors *)

Inductive MetaStoreError :=
| MetaRelationSchema (source : RelationSchemaError)
| RelationCatalogConflict (relation_id relation_version : string)
| RelationCatalogNotFound (relation_id relation_version : string)
| EmptyIngestRange (start_offset_inclusive end_offset_exclusive : Z)
| EmptyField (field : string)
| InvalidDuration (field : string)
| IntegerOutOfRange (field : string) (value : Z)
| UnsupportedRelationGeneration (generation : Z)
| TimestampOverflow
| SnapshotTooLarge
| ActiveViewRegistryTooLarge
| AuthorityEpochOverflow
| Serialization (reason : string)
| StandingRuntimeCheckpointScopeMismatch
| StandingRuntimeOwnerMismatch
| PartitionCheckpointScopeMismatch
| PartitionAuthorityTokenScopeMismatch
| PartitionAuthorityInvalidToken
| DuplicateSourceCutRelation (relation_id relation_version : string)
| DuplicateDemandMetadataLookup (kind : string)
| DemandMetadataBatchTooLarge (actual max : Z)
| OverlappingSourceCutRange (stream_id : string) (partition_id : Z)
| IncompleteRelationSourceCut (relation_id stream_id : string) (partition_id : Z) (reason : string)
| NonMonotonicCheckpointEpoch (previous candidate : Z)
| Rhiza (reason : string)
| RhizaIndeterminate (request_id : string)
| RhizaContention (attempts : Z)
| ActiveViewRecordIdentityMismatch
| DuplicateActiveViewId (view_id : string)
| DuplicateActiveViewApiPath (normalized_url_path : string)
| UnsupportedCapability (capability : string).

Definition require_non_empty (field value : string) : result MetaStoreError unit :=
  fail_if (bool_decide (value = "")) (EmptyField field).
