(* ===== verification/SourceCut.v ===== *)
(** Source cuts, [velorix-meta/src/source_cut.rs]: how far the input of a relation is
    committed in every stream partition.

    A legacy cut is the prefix of contiguous reservations whose batches are
    committed; a relation cut lists the publication of every reservation. *)
From S2P Require Import Prelude BTree Json Digits Segments ObjectKey Hash Relation StandingProgram MetaTypes.

Abbreviation checked A := (result MetaStoreError A).

Definition INGEST_SOURCE_CUT_SCHEMA_VERSION_V1 : Z := 1.
Definition INGEST_SOURCE_IDENTITY_GENERATION_V1 : Z := 1.
Definition RELATION_INGEST_SOURCE_CUT_SCHEMA_VERSION_V1 : Z := 1.

(** * Requests *)

Definition validate_reservation (r : IngestRangeReservation) : checked unit :=
  _ ← require_non_empty "stream_id" (r_stream_id r);
  _ ← require_non_empty "batch_key" (r_batch_key r);
  _ ← require_non_empty "payload_digest" (r_payload_digest r);
  _ ← require_non_empty "relation_id" (r_relation_id r);
  _ ← require_non_empty "relation_version" (r_relation_version r);
  _ ← require_non_empty "schema_fingerprint" (r_schema_fingerprint r);
  fail_if (r_end_offset_exclusive r <=? r_start_offset_inclusive r)
    (EmptyIngestRange (r_start_offset_inclusive r) (r_end_offset_exclusive r)).

Definition overlaps (a b : IngestRangeReservation) : bool :=
  (r_start_offset_inclusive a <? r_end_offset_exclusive b) && (r_start_offset_inclusive b <? r_end_offset_exclusive a).

Definition validate_relation_authority_key (k : RelationPartitionAuthorityKey) : checked unit :=
  _ ← require_non_empty "namespace" (rk_namespace k);
  _ ← require_non_empty "relation_id" (rk_relation_id k);
  require_non_empty "stream_id" (rk_stream_id k).

Definition validate_relation_identity (i : IngestSourceRelationIdentityV1) : checked unit :=
  _ ← require_non_empty "relation_id" (i_relation_id i);
  _ ← require_non_empty "relation_version" (i_relation_version i);
  _ ← fail_if (i_relation_generation i =? 0) (IntegerOutOfRange "relation_generation" (i_relation_generation i));
  require_non_empty "schema_fingerprint" (i_schema_fingerprint i).

(** [if !seen.insert(relation) { return Err(..) }]. *)
Definition see_relation (seen : list IngestSourceRelationIdentityV1) (i : IngestSourceRelationIdentityV1) :
    checked (list IngestSourceRelationIdentityV1) :=
  _ ← fail_if (bool_decide (i ∈ seen)) (DuplicateSourceCutRelation (i_relation_id i) (i_relation_version i));
  Ok (i :: seen).

Definition check_generation (i : IngestSourceRelationIdentityV1) : checked unit :=
  fail_if (negb (i_relation_generation i =? INGEST_SOURCE_IDENTITY_GENERATION_V1))
    (UnsupportedRelationGeneration (i_relation_generation i)).

Definition validate_capture_cut (q : CaptureIngestSourceCutRequest) : checked unit :=
  _ ← try_fold (fun seen i => _ ← validate_relation_identity i; see_relation seen i) [] (cq_relations q);
  Ok tt.

Definition validate_capture_relation_cut (q : CaptureRelationIngestSourceCutRequest) : checked unit :=
  _ ← validate_relation_authority_key (cr_authority q);
  _ ← require_non_empty "relation_version" (cr_relation_version q);
  require_non_empty "schema_fingerprint" (cr_schema_fingerprint q).

Definition validate_capture_relation_cuts (q : CaptureRelationIngestSourceCutsRequest) : checked unit :=
  _ ← require_non_empty "namespace" (cs_namespace q);
  _ ← fail_if (bool_decide (cs_relations q = [])) (EmptyField "relations");
  _ ← try_fold (fun seen i => _ ← validate_relation_identity i; _ ← check_generation i; see_relation seen i) []
    (cs_relations q);
  Ok tt.

(** * Legacy cuts *)

Abbreviation group_key := (IngestSourceRelationIdentityV1 * (string * Z))%type.

(** [grouped.entry(key).or_default().push(x)]. *)
Definition push_at `{Ord K} {A} (k : K) (x : A) (m : btree K (list A)) : btree K (list A) :=
  <[k := default [] (m !! k) ++ [x]]> m.

Definition reservation_relation (r : IngestRangeReservation) : IngestSourceRelationIdentityV1 :=
  RelationIdentity (r_relation_id r) (r_relation_version r) INGEST_SOURCE_IDENTITY_GENERATION_V1 (r_schema_fingerprint r).

Definition group_reservation (requested : list IngestSourceRelationIdentityV1)
    (grouped : btree group_key (list IngestRangeReservation)) (r : IngestRangeReservation) :
    checked (btree group_key (list IngestRangeReservation)) :=
  _ ← validate_reservation r;
  Ok (if bool_decide (reservation_relation r ∈ requested)
      then push_at (reservation_relation r, (r_stream_id r, r_partition_id r)) r grouped
      else grouped).

(** The loop over the ranges of a partition: it stops at the first hole and at the
    first range that is not committed. *)
Fixpoint committed_prefix (stream_id : string) (partition_id : Z) (committed : gset string) (frontier : Z)
    (ranges : list IngestRangeReservation) : checked Z :=
  match ranges with
  | [] => Ok frontier
  | range :: ranges =>
      if r_start_offset_inclusive range <? frontier then Err (OverlappingSourceCutRange stream_id partition_id)
      else if negb (r_start_offset_inclusive range =? frontier) || negb (bool_decide (r_batch_key range ∈ committed))
      then Ok frontier
      else committed_prefix stream_id partition_id committed (r_end_offset_exclusive range) ranges
  end.

Definition range_key (r : IngestRangeReservation) : Z * Z := (r_start_offset_inclusive r, r_end_offset_exclusive r).

Definition cut_partition (committed : gset string)
    (cuts : btree IngestSourceRelationIdentityV1 (list IngestSourcePartitionCutV1))
    (group : group_key * list IngestRangeReservation) :
    checked (btree IngestSourceRelationIdentityV1 (list IngestSourcePartitionCutV1)) :=
  let '((relation, (stream_id, partition_id)), ranges) := group in
  let ranges := sort_on range_key ranges in
  let base := match ranges with r :: _ => r_start_offset_inclusive r | [] => 0 end in
  committed_offset ← committed_prefix stream_id partition_id committed base ranges;
  Ok (push_at relation (PartitionCut stream_id INGEST_SOURCE_IDENTITY_GENERATION_V1 partition_id
    INGEST_SOURCE_IDENTITY_GENERATION_V1 base committed_offset) cuts).

Definition build_ingest_source_cut (q : CaptureIngestSourceCutRequest) (input_catalog_epoch : Z)
    (reservations : list IngestRangeReservation) (committed : gset string) : checked IngestSourceCutV1 :=
  _ ← validate_capture_cut q;
  grouped ← try_fold (group_reservation (cq_relations q)) ∅ reservations;
  cuts ← try_fold (cut_partition committed) ∅ (entries grouped);
  Ok (SourceCut INGEST_SOURCE_CUT_SCHEMA_VERSION_V1 input_catalog_epoch
    ((fun relation => RelationCut relation (default [] (cuts !! relation))) <$> cq_relations q)).

(** * Relation cuts *)

Definition publication_ref (p : RelationAuthoritativeIngestPublication) (r : IngestRangeReservation) :
    RelationIngestPublicationRefV1 :=
  PublicationRef (p_request_id p) (r_start_offset_inclusive r) (r_end_offset_exclusive r) (r_batch_key r)
    (r_payload_digest r) (p_object_key p) (p_object_digest p).

(** ** One partition *)

Definition publication_key (p : RelationAuthoritativeIngestPublication) : Z * (Z * string) :=
  (r_start_offset_inclusive (p_reservation p), (r_end_offset_exclusive (p_reservation p), p_request_id p)).

(** The contiguous publications from an offset on. *)
Fixpoint published_prefix (frontier : Z) (refs : list RelationIngestPublicationRefV1)
    (publications : list RelationAuthoritativeIngestPublication) : Z * list RelationIngestPublicationRefV1 :=
  match publications with
  | [] => (frontier, refs)
  | p :: publications =>
      if negb (r_start_offset_inclusive (p_reservation p) =? frontier) then (frontier, refs)
      else published_prefix (r_end_offset_exclusive (p_reservation p)) (refs ++ [publication_ref p (p_reservation p)])
        publications
  end.

Definition build_relation_ingest_source_cut (q : CaptureRelationIngestSourceCutRequest)
    (publications : list RelationAuthoritativeIngestPublication) : checked RelationIngestSourceCutV1 :=
  _ ← validate_capture_relation_cut q;
  let publications := sort_on publication_key (filter (fun p => p_authority_key p = cr_authority q /\
    r_relation_version (p_reservation p) = cr_relation_version q /\
    r_schema_fingerprint (p_reservation p) = cr_schema_fingerprint q) publications) in
  let cut := RelationSourceCut RELATION_INGEST_SOURCE_CUT_SCHEMA_VERSION_V1 (rk_namespace (cr_authority q))
    (rk_relation_id (cr_authority q)) in
  match publications with
  | [] => Ok (cut [])
  | first :: _ =>
      let base := r_start_offset_inclusive (p_reservation first) in
      let '(frontier, refs) := published_prefix base [] publications in
      Ok (cut [RelationPartitionCut (rk_stream_id (cr_authority q)) (rk_partition_id (cr_authority q)) base frontier refs])
  end.

(** ** All partitions *)

Abbreviation authority_entry := (RelationPartitionAuthorityKey * IngestRangeReservation)%type.
Abbreviation source_entry_key :=
  (string * (string * (string * (Z * (string * (string * (Z * (Z * (string * (string * Z))))))))))%type.

Definition relation_source_entry_key (k : RelationPartitionAuthorityKey) (r : IngestRangeReservation) : source_entry_key :=
  (rk_namespace k, (rk_relation_id k, (rk_stream_id k, (rk_partition_id k, (r_relation_version r,
    (r_schema_fingerprint r, (r_start_offset_inclusive r, (r_end_offset_exclusive r, (r_batch_key r,
    (r_payload_digest r, r_writer_epoch r)))))))))).

(** [request.relations.iter().find(..)]. *)
Definition requested_relation (relations : list IngestSourceRelationIdentityV1) (r : IngestRangeReservation) :
    option IngestSourceRelationIdentityV1 :=
  List.find (fun i => String.eqb (i_relation_id i) (r_relation_id r) && String.eqb (i_relation_version i) (r_relation_version r))
    relations.

Definition incomplete (r : IngestRangeReservation) (reason : string) : MetaStoreError :=
  IncompleteRelationSourceCut (r_relation_id r) (r_stream_id r) (r_partition_id r) reason.

Definition group_entry (q : CaptureRelationIngestSourceCutsRequest) (grouped : btree group_key (list authority_entry))
    (entry : authority_entry) : checked (btree group_key (list authority_entry)) :=
  let '(authority, r) := entry in
  _ ← validate_reservation r;
  if negb (String.eqb (rk_namespace authority) (cs_namespace q)) then Ok grouped
  else match requested_relation (cs_relations q) r with
       | None => Ok grouped
       | Some relation =>
           _ ← fail_if (negb (String.eqb (rk_relation_id authority) (r_relation_id r)) ||
               negb (String.eqb (rk_stream_id authority) (r_stream_id r)) ||
               negb (rk_partition_id authority =? r_partition_id r))
             (incomplete r "reservation authority scope mismatch");
           _ ← fail_if (negb (String.eqb (i_schema_fingerprint relation) (r_schema_fingerprint r)))
             (Serialization "relation source-cut reservation fingerprint mismatch");
           Ok (if bool_decide (relation ∈ cs_relations q)
               then push_at (relation, (r_stream_id r, r_partition_id r)) (authority, r) grouped else grouped)
       end.

Abbreviation publication_map := (btree source_entry_key RelationAuthoritativeIngestPublication).

Definition index_publication (q : CaptureRelationIngestSourceCutsRequest) (m : publication_map)
    (p : RelationAuthoritativeIngestPublication) : checked publication_map :=
  if negb (String.eqb (rk_namespace (p_authority_key p)) (cs_namespace q)) then Ok m
  else match requested_relation (cs_relations q) (p_reservation p) with
       | None => Ok m
       | Some relation =>
           _ ← fail_if (negb (String.eqb (i_schema_fingerprint relation) (r_schema_fingerprint (p_reservation p))))
             (Serialization "relation source-cut publication fingerprint mismatch");
           let key := relation_source_entry_key (p_authority_key p) (p_reservation p) in
           _ ← fail_if (bool_decide (is_Some (m !! key)))
             (Serialization "duplicate relation ingest publication in source-cut snapshot");
           Ok (<[key := p]> m)
       end.

(** The ranges of a partition: contiguous, and each with its publication, which is
    taken out of the map. *)
Fixpoint take_ranges (relation_id stream_id : string) (partition_id : Z) (frontier : Z) (m : publication_map)
    (refs : list RelationIngestPublicationRefV1) (ranges : list authority_entry) :
    checked (Z * publication_map * list RelationIngestPublicationRefV1) :=
  match ranges with
  | [] => Ok (frontier, m, refs)
  | (authority, r) :: ranges =>
      _ ← fail_if (r_start_offset_inclusive r <? frontier) (OverlappingSourceCutRange stream_id partition_id);
      _ ← fail_if (negb (r_start_offset_inclusive r =? frontier))
        (IncompleteRelationSourceCut relation_id stream_id partition_id "reservation hole");
      let key := relation_source_entry_key authority r in
      p ← ok_or (IncompleteRelationSourceCut relation_id stream_id partition_id "missing authoritative publication") (m !! key);
      take_ranges relation_id stream_id partition_id (r_end_offset_exclusive r) (delete key m)
        (refs ++ [publication_ref p r]) ranges
  end.

Definition entry_range_key (e : authority_entry) : Z * (Z * string) :=
  (r_start_offset_inclusive e.2, (r_end_offset_exclusive e.2, r_batch_key e.2)).

Definition cut_group (s : publication_map * list RelationIngestPartitionCutV1) (group : group_key * list authority_entry) :
    checked (publication_map * list RelationIngestPartitionCutV1) :=
  let '((relation, (stream_id, partition_id)), ranges) := group in
  let ranges := sort_on entry_range_key ranges in
  match ranges with
  | [] => Ok s
  | first :: _ =>
      let base := r_start_offset_inclusive first.2 in
      '(frontier, m, refs) ← take_ranges (i_relation_id relation) stream_id partition_id base s.1 [] ranges;
      Ok (m, s.2 ++ [RelationPartitionCut stream_id partition_id base frontier refs])
  end.

Definition cut_relation (namespace : string) (grouped : btree group_key (list authority_entry))
    (s : publication_map * list RelationIngestSourceIdentityCutV1) (relation : IngestSourceRelationIdentityV1) :
    checked (publication_map * list RelationIngestSourceIdentityCutV1) :=
  '(m, partitions) ← try_fold cut_group (s.1, []) (filter (fun group => group.1.1 = relation) (entries grouped));
  Ok (m, s.2 ++ [IdentityCut relation (RelationSourceCut RELATION_INGEST_SOURCE_CUT_SCHEMA_VERSION_V1 namespace
    (i_relation_id relation) partitions)]).

Definition is_orphan (q : CaptureRelationIngestSourceCutsRequest) (p : RelationAuthoritativeIngestPublication) : bool :=
  String.eqb (rk_namespace (p_authority_key p)) (cs_namespace q) &&
  existsb (fun i => String.eqb (i_relation_id i) (r_relation_id (p_reservation p)) &&
    String.eqb (i_relation_version i) (r_relation_version (p_reservation p)) &&
    String.eqb (i_schema_fingerprint i) (r_schema_fingerprint (p_reservation p))) (cs_relations q).

Definition build_relation_ingest_source_cuts (q : CaptureRelationIngestSourceCutsRequest)
    (reservations : list authority_entry) (publications : list RelationAuthoritativeIngestPublication) :
    checked (list RelationIngestSourceIdentityCutV1) :=
  _ ← validate_capture_relation_cuts q;
  grouped ← try_fold (group_entry q) ∅ reservations;
  m ← try_fold (index_publication q) ∅ publications;
  '(m, cuts) ← try_fold (cut_relation (cs_namespace q) grouped) (m, []) (cs_relations q);
  match List.find (is_orphan q) (entries m).*2 with
  | Some p => Err (incomplete (p_reservation p) "publication has no matching reservation")
  | None => Ok cuts
  end.

(** ** Canonical form *)

Fixpoint check_refs (frontier : Z) (refs : list RelationIngestPublicationRefV1) : checked Z :=
  match refs with
  | [] => Ok frontier
  | p :: refs =>
      _ ← require_non_empty "source_cut.request_id" (pf_request_id p);
      _ ← require_non_empty "source_cut.batch_key" (pf_batch_key p);
      _ ← require_non_empty "source_cut.payload_digest" (pf_payload_digest p);
      _ ← require_non_empty "source_cut.object_key" (pf_object_key p);
      _ ← require_non_empty "source_cut.object_digest" (pf_object_digest p);
      _ ← fail_if (negb (pf_start_offset_inclusive p =? frontier) ||
          (pf_end_offset_exclusive p <=? pf_start_offset_inclusive p))
        (Serialization "relation source cut publications are not contiguous");
      check_refs (pf_end_offset_exclusive p) refs
  end.

Definition check_cut_partition (previous : option (string * Z)) (p : RelationIngestPartitionCutV1) : checked (option (string * Z)) :=
  _ ← require_non_empty "source_cut.stream_id" (lp_stream_id p);
  _ ← fail_if (lp_committed_offset_exclusive p <? lp_base_offset_inclusive p)
    (Serialization "relation source cut partition offsets are not monotonic");
  let key := (lp_stream_id p, lp_partition_id p) in
  _ ← fail_if (match previous with Some previous => leb key previous | None => false end)
    (Serialization "relation source cut partitions are not canonical");
  frontier ← check_refs (lp_base_offset_inclusive p) (lp_publications p);
  _ ← fail_if (negb (frontier =? lp_committed_offset_exclusive p))
    (Serialization "relation source cut frontier does not match publications");
  Ok (Some key).

Definition validate_relation_source_cut_partitions (cut : RelationIngestSourceCutV1) : checked unit :=
  _ ← try_fold check_cut_partition None (lc_partitions cut);
  Ok tt.

Definition check_identity_cut (namespace : string) (seen : list IngestSourceRelationIdentityV1)
    (entry : RelationIngestSourceIdentityCutV1) : checked (list IngestSourceRelationIdentityV1) :=
  _ ← validate_relation_identity (ic_relation entry);
  _ ← check_generation (ic_relation entry);
  seen ← see_relation seen (ic_relation entry);
  _ ← fail_if (negb (lc_schema_version (ic_cut entry) =? RELATION_INGEST_SOURCE_CUT_SCHEMA_VERSION_V1))
    (Serialization "unsupported relation source cut schema version");
  _ ← require_non_empty "source_cut.namespace" (lc_namespace (ic_cut entry));
  _ ← fail_if (negb (String.eqb (lc_namespace (ic_cut entry)) namespace) ||
      negb (String.eqb (lc_relation_id (ic_cut entry)) (i_relation_id (ic_relation entry))))
    (IncompleteRelationSourceCut (i_relation_id (ic_relation entry)) "" 0 "source cut identity mismatch");
  _ ← validate_relation_source_cut_partitions (ic_cut entry);
  Ok seen.

Definition canonicalize_relation_ingest_source_cuts (cuts : list RelationIngestSourceIdentityCutV1) :
    checked (list RelationIngestSourceIdentityCutV1) :=
  match cuts with
  | [] => Err (EmptyField "expected_relation_source_cuts")
  | first :: _ =>
      let namespace := lc_namespace (ic_cut first) in
      _ ← require_non_empty "source_cut.namespace" namespace;
      _ ← try_fold (check_identity_cut namespace) [] cuts;
      Ok (sort_on ic_relation cuts)
  end.
