(* ===== verification/SourceCutProofs.v ===== *)
(** Source cuts: what [build_ingest_source_cut] and [build_relation_ingest_source_cuts]
    return, in terms of the reservations and publications they are given. *)
From Stdlib Require Import Sorted.
From S2P Require Import Prelude BTree Json Digits Segments ObjectKey Hash Relation StandingProgram MetaTypes SourceCut.

(** * Grouping *)

Section groups.
Context `{Ord K} `{!EqDecision K} {A : Type}.

(** [m] has under every key the elements of [l] with that key, in their order. *)
Definition groups (key : A -> option K) (l : list A) (m : btree K (list A)) : Prop :=
  forall k, default [] (m !! k) = filter (fun x => key x = Some k) l /\ m !! k <> Some [].

Lemma groups_nil key : groups key [] ∅.
Proof. intros k. rewrite lookup_empty. done. Qed.

Lemma groups_push key l x m k : key x = Some k -> groups key l m -> groups key (l ++ [x]) (push_at k x m).
Proof.
  intros Hx Hm k'. unfold push_at. rewrite filter_app, filter_cons, filter_nil. destruct (Hm k') as [E1 E2].
  destruct (decide (k = k')) as [<-|Hne].
  - rewrite lookup_insert_eq, E1. cbn. rewrite decide_True by done. split; [done|]. intros [= E]. by destruct (filter _ l).
  - rewrite lookup_insert_ne by done. rewrite decide_False by congruence. by rewrite app_nil_r.
Qed.

Lemma groups_skip key l x m : key x = None -> groups key l m -> groups key (l ++ [x]) m.
Proof.
  intros Hx Hm k. destruct (Hm k) as [E1 E2]. rewrite filter_app, filter_cons, filter_nil.
  rewrite decide_False by congruence. by rewrite app_nil_r.
Qed.

Lemma groups_fold {E} key (step : btree K (list A) -> A -> result E (btree K (list A))) l m :
  (forall m x m', step m x = Ok m' -> m' = match key x with Some k => push_at k x m | None => m end) ->
  try_fold step ∅ l = Ok m -> groups key l m.
Proof.
  intros Hstep. revert m. induction l as [|x l IH] using rev_ind; intros m Hf.
  - injection Hf as <-. apply groups_nil.
  - rewrite try_fold_app in Hf. apply bind_ok in Hf as (m1 & Hf1 & Hf). cbn in Hf. apply bind_ok in Hf as (m2 & Hs & [= <-]).
    apply Hstep in Hs as ->. destruct (key x) eqn:Hx; [by apply groups_push, IH|by apply groups_skip, IH].
Qed.

Lemma groups_some key l m k g : groups key l m -> m !! k = Some g -> g = filter (fun x => key x = Some k) l /\ g <> [].
Proof. intros Hm Hk. destruct (Hm k) as [E1 E2]. rewrite Hk in E1, E2. split; [done|]. congruence. Qed.

Lemma groups_elem key l m k x : groups key l m -> x ∈ l -> key x = Some k -> exists g, m !! k = Some g /\ x ∈ g.
Proof.
  intros Hm Hx Hk. destruct (Hm k) as [E _]. assert (x ∈ default [] (m !! k)) as Hin by (rewrite E; by apply list_elem_of_filter).
  destruct (m !! k) as [g|]; [by exists g|by apply not_elem_of_nil in Hin].
Qed.
End groups.

(** * Ranges *)

Definition nonempty_range (r : IngestRangeReservation) : Prop := r_start_offset_inclusive r < r_end_offset_exclusive r.

Lemma validate_reservation_range r : validate_reservation r = Ok tt -> nonempty_range r.
Proof.
  unfold validate_reservation. intros Hv. do 6 apply bind_unit_ok in Hv as [_ Hv]. apply fail_if_ok, Z.leb_gt in Hv. done.
Qed.

(** Ranges that do not overlap, each listed once. *)
Definition disjoint_ranges (l : list IngestRangeReservation) : Prop :=
  NoDup l /\ Forall nonempty_range l /\ forall x y, x ∈ l -> y ∈ l -> x <> y -> overlaps x y = false.

Lemma overlaps_false x y :
  overlaps x y = false <-> r_end_offset_exclusive y <= r_start_offset_inclusive x \/ r_end_offset_exclusive x <= r_start_offset_inclusive y.
Proof. unfold overlaps. rewrite andb_false_iff, !Z.ltb_ge. done. Qed.

Lemma overlaps_sym x y : overlaps x y = overlaps y x.
Proof. unfold overlaps. by rewrite andb_comm. Qed.

Lemma disjoint_perm l l' : l ≡ₚ l' -> disjoint_ranges l -> disjoint_ranges l'.
Proof.
  intros Hp (Hnd & Hne & Hd). split_and!; [by rewrite <-Hp|by rewrite <-Hp|]. intros x y. rewrite <-Hp. apply Hd.
Qed.

Lemma disjoint_filter (P : IngestRangeReservation -> Prop) `{!forall x, Decision (P x)} l :
  disjoint_ranges l -> disjoint_ranges (filter P l).
Proof.
  intros (Hnd & Hne & Hd). split_and!; [by apply NoDup_filter| |].
  { rewrite Forall_forall in Hne |- *. intros x [_ Hx]%list_elem_of_filter. by apply Hne. }
  intros x y [_ Hx]%list_elem_of_filter [_ Hy]%list_elem_of_filter. by apply Hd.
Qed.

Lemma disjoint_snoc l r :
  disjoint_ranges l -> nonempty_range r -> Forall (fun x => overlaps x r = false) l -> disjoint_ranges (l ++ [r]).
Proof.
  intros (Hnd & Hne & Hd) Hr Hfree. rewrite Forall_forall in Hfree. split_and!.
  - apply NoDup_app. split_and!; [done| |apply NoDup_singleton]. intros x Hx ->%list_elem_of_singleton.
    specialize (Hfree r Hx). apply overlaps_false in Hfree. unfold nonempty_range in Hr. lia.
  - apply Forall_app. by split; [|apply Forall_singleton].
  - intros x y. rewrite !elem_of_app, !list_elem_of_singleton. intros [Hx| ->] [Hy| ->] Hxy; [by apply Hd|by apply Hfree| |done].
    rewrite overlaps_sym. by apply Hfree.
Qed.

(** * The committed prefix *)

(** One range ends before the next begins. *)
Definition range_before (x y : IngestRangeReservation) : Prop := r_end_offset_exclusive x <= r_start_offset_inclusive y.

(** [f] is how far the ranges [G] are committed without a hole from [base] on. *)
Record frontier_of (G : IngestRangeReservation -> Prop) (committed : gset string) (base f : Z) : Prop := {
  fr_base : base <= f;
  fr_committed r : G r -> r_start_offset_inclusive r < f ->
    r_end_offset_exclusive r <= f /\ r_batch_key r ∈ committed;
  fr_no_hole o : base <= o < f -> exists r, G r /\ r_start_offset_inclusive r <= o < r_end_offset_exclusive r;
  fr_maximal r : G r -> r_start_offset_inclusive r = f -> r_batch_key r ∉ committed
}.

Lemma committed_prefix_exact stream_id partition_id committed l base :
  StronglySorted range_before l -> Forall nonempty_range l -> Forall (fun r => base <= r_start_offset_inclusive r) l ->
  exists f, committed_prefix stream_id partition_id committed base l = Ok f /\ frontier_of (fun r => r ∈ l) committed base f.
Proof.
  intros Hs. revert base. induction Hs as [|r l Hs IH Hr]; intros base Hne Hb.
  { exists base. split; [done|]. split; [lia|intros ? []%not_elem_of_nil|lia|intros ? []%not_elem_of_nil]. }
  apply Forall_cons in Hne as [Hner Hne], Hb as [Hbr Hb]. rewrite Forall_forall in Hr, Hne, Hb. cbn.
  destruct (Z.ltb_spec (r_start_offset_inclusive r) base); [lia|].
  destruct (Z.eqb_spec (r_start_offset_inclusive r) base) as [<-|Hgap]; cbn.
  - destruct (bool_decide_reflect (r_batch_key r ∈ committed)) as [Hc|Hc]; cbn.
    + destruct (IH (r_end_offset_exclusive r)) as (f & Hf & [Hbase Hcom Hhole Hmax]);
        [by apply Forall_forall|by apply Forall_forall|]. exists f. split; [done|]. unfold nonempty_range in Hner. split.
      * lia.
      * intros x [->|Hx]%elem_of_cons Hlt; [done|by apply Hcom].
      * intros o Ho. destruct (Z.lt_ge_cases o (r_end_offset_exclusive r)).
        -- exists r. split; [left|lia].
        -- destruct (Hhole o) as (x & Hx & Hxo); [lia|]. exists x. split; [by right|done].
      * intros x [->|Hx]%elem_of_cons E; [lia|by apply Hmax].
    + eexists. split; [done|]. split; [lia| |lia|].
      * intros x [->|Hx]%elem_of_cons Hlt; [lia|]. specialize (Hr x Hx). unfold range_before, nonempty_range in *. lia.
      * intros x [->|Hx]%elem_of_cons E; [done|]. specialize (Hr x Hx). unfold range_before, nonempty_range in *. lia.
  - exists base. split; [done|]. split; [lia| |lia|].
    + intros x [->|Hx]%elem_of_cons Hlt; [lia|]. specialize (Hb x Hx). lia.
    + intros x [->|Hx]%elem_of_cons E; [lia|]. specialize (Hr x Hx). unfold range_before, nonempty_range in *. lia.
Qed.

Lemma sorted_before l : disjoint_ranges l -> StronglySorted range_before (sort_on range_key l).
Proof.
  intros Hd. assert (Hd' : disjoint_ranges (sort_on range_key l)) by (eapply disjoint_perm; [by rewrite sort_on_perm|done]).
  destruct Hd' as (Hnd & Hne & Hdis). pose proof (sort_on_sorted range_key l) as Hs. revert Hs Hnd Hne Hdis.
  generalize (sort_on range_key l). clear Hd. intros l' Hs. induction Hs as [|x l' Hs IH Hx]; [constructor|].
  intros [Hnin Hnd]%NoDup_cons [Hnx Hne]%Forall_cons Hdis. constructor.
  - apply IH; [done|done|]. intros a b Ha Hb. apply Hdis; by right.
  - rewrite Forall_forall in Hx, Hne |- *. intros y Hy. specialize (Hx y Hy). specialize (Hne y Hy).
    assert (overlaps x y = false) as [Ho|Ho]%overlaps_false; [apply Hdis; [left|by right|by intros ->]| |done].
    unfold range_before, nonempty_range in *. exfalso. apply leb_cases in Hx as [Hx|Hx].
    + unfold range_key in Hx. cbn in Hx. unfold prod_cmp in Hx. cbn in Hx.
      destruct (Z.compare_spec (r_start_offset_inclusive x) (r_start_offset_inclusive y)); cbn in Hx; [lia|lia|done].
    + injection Hx as ? ?. lia.
Qed.

(** * Legacy cuts *)

Section legacy.
Variable requested : list IngestSourceRelationIdentityV1.
Variable committed : gset string.

Definition legacy_key (r : IngestRangeReservation) : option group_key :=
  if bool_decide (reservation_relation r ∈ requested)
  then Some (reservation_relation r, (r_stream_id r, r_partition_id r)) else None.

Lemma group_reservations_total rs :
  Forall (fun r => validate_reservation r = Ok tt) rs ->
  exists g, try_fold (group_reservation requested) ∅ rs = Ok g /\ groups legacy_key rs g.
Proof.
  intros Hv. assert (exists g, try_fold (group_reservation requested) ∅ rs = Ok g) as (g & Hg).
  { generalize (∅ : btree group_key (list IngestRangeReservation)).
    induction Hv as [|r rs Hr _ IH]; intros m; cbn; [by eexists|].
    destruct (group_reservation requested m r) as [m'|] eqn:E; [apply IH|]. unfold group_reservation in E. by rewrite Hr in E. }
  exists g. split; [done|]. eapply groups_fold; [|done]. intros m r m'. unfold group_reservation, legacy_key.
  intros (_ & [= <-])%bind_unit_ok. by case_bool_decide.
Qed.

(** The cut of one group. *)
Definition group_cut (group : group_key * list IngestRangeReservation) : checked IngestSourcePartitionCutV1 :=
  let ranges := sort_on range_key group.2 in
  let base := match ranges with r :: _ => r_start_offset_inclusive r | [] => 0 end in
  f ← committed_prefix group.1.2.1 group.1.2.2 committed base ranges;
  Ok (PartitionCut group.1.2.1 INGEST_SOURCE_IDENTITY_GENERATION_V1 group.1.2.2 INGEST_SOURCE_IDENTITY_GENERATION_V1 base f).

Lemma cut_partition_group cuts group :
  cut_partition committed cuts group = p ← group_cut group; Ok (push_at group.1.1 p cuts).
Proof. destruct group as [[i [stream_id partition_id]] l]. cbn. by destruct (committed_prefix _ _ _ _ _). Qed.

Lemma cut_fold l cuts0 :
  (forall group, group ∈ l -> exists p, group_cut group = Ok p) ->
  exists cuts, try_fold (cut_partition committed) cuts0 l = Ok cuts /\
    forall i p, p ∈ default [] (cuts !! i) <->
      p ∈ default [] (cuts0 !! i) \/ exists group, group ∈ l /\ group.1.1 = i /\ group_cut group = Ok p.
Proof.
  revert cuts0. induction l as [|group l IH]; intros cuts0 Hl.
  { exists cuts0. split; [done|]. intros i p. set_solver. }
  destruct (Hl group) as (p0 & Hp0); [left|].
  destruct (IH (push_at group.1.1 p0 cuts0)) as (cuts & Hf & Hspec); [intros; apply Hl; by right|].
  exists cuts. cbn. rewrite cut_partition_group, Hp0. split; [done|]. intros i p. rewrite Hspec. unfold push_at.
  destruct (decide (group.1.1 = i)) as [<-|Hne].
  - rewrite lookup_insert_eq. cbn. rewrite elem_of_app, list_elem_of_singleton. split.
    + intros [[?| ->]|(g & ? & ? & ?)]; [by left|right; exists group|right; exists g]; set_solver.
    + intros [?|(g & [->|Hg]%elem_of_cons & ? & ?)]; [by left; left|left; right; congruence|right; eauto].
  - rewrite lookup_insert_ne by done. split.
    + intros [?|(g & ? & ? & ?)]; [by left|right; exists g; set_solver].
    + intros [?|(g & [->|Hg]%elem_of_cons & ? & ?)]; [by left|done|right; eauto].
Qed.

(** The reservations of a relation in a partition. *)
Definition in_partition (rs : list IngestRangeReservation) (i : IngestSourceRelationIdentityV1) (stream_id : string)
    (partition_id : Z) (r : IngestRangeReservation) : Prop :=
  r ∈ rs /\ reservation_relation r = i /\ r_stream_id r = stream_id /\ r_partition_id r = partition_id.

Definition partition_exact (rs : list IngestRangeReservation) (i : IngestSourceRelationIdentityV1)
    (p : IngestSourcePartitionCutV1) : Prop :=
  let G := in_partition rs i (sp_stream_id p) (sp_partition_id p) in
  sp_stream_generation p = INGEST_SOURCE_IDENTITY_GENERATION_V1 /\
  sp_partition_generation p = INGEST_SOURCE_IDENTITY_GENERATION_V1 /\
  (exists r, G r /\ r_start_offset_inclusive r = sp_base_offset_inclusive p) /\
  (forall r, G r -> sp_base_offset_inclusive p <= r_start_offset_inclusive r) /\
  frontier_of G committed (sp_base_offset_inclusive p) (sp_committed_offset_exclusive p).

Lemma frontier_iff (G G' : IngestRangeReservation -> Prop) base f :
  (forall r, G r <-> G' r) -> frontier_of G committed base f -> frontier_of G' committed base f.
Proof.
  intros HG [Hb Hc Hh Hm]. split; [done|..].
  - intros r Hr. by apply Hc, HG.
  - intros o Ho. destruct (Hh o Ho) as (r & Hr & ?). exists r. by rewrite <-HG.
  - intros r Hr. by apply Hm, HG.
Qed.

(** Ranges of one partition that are all valid and apart. *)
Definition apart (rs : list IngestRangeReservation) : Prop :=
  Forall (fun r => validate_reservation r = Ok tt) rs /\
  forall stream_id partition_id,
    disjoint_ranges (filter (fun r => r_stream_id r = stream_id /\ r_partition_id r = partition_id) rs).

Lemma group_apart rs k : apart rs -> disjoint_ranges (filter (fun r => legacy_key r = Some k) rs).
Proof.
  intros [_ Hd]. destruct k as [i [stream_id partition_id]]. specialize (Hd stream_id partition_id).
  eapply (disjoint_filter (fun r => legacy_key r = Some (i, (stream_id, partition_id)))) in Hd.
  rewrite list_filter_filter in Hd. erewrite list_filter_iff; [exact Hd|]. intros r. split; [|naive_solver].
  intros E. split; [done|]. unfold legacy_key in E. case_bool_decide; naive_solver.
Qed.

Lemma group_cut_exact rs m i stream_id partition_id g :
  apart rs -> groups legacy_key rs m -> m !! (i, (stream_id, partition_id)) = Some g ->
  exists p, group_cut ((i, (stream_id, partition_id)), g) = Ok p /\
    sp_stream_id p = stream_id /\ sp_partition_id p = partition_id /\ partition_exact rs i p.
Proof.
  intros Hap Hm Hg. destruct (groups_some _ _ _ _ _ Hm Hg) as [Eg Hne].
  assert (Hd : disjoint_ranges g) by (rewrite Eg; by apply group_apart).
  assert (HG : i ∈ requested /\ forall r, r ∈ g <-> in_partition rs i stream_id partition_id r).
  { assert (Hin : forall r, r ∈ g <-> r ∈ rs /\ legacy_key r = Some (i, (stream_id, partition_id)))
      by (intros r; rewrite Eg, list_elem_of_filter; tauto).
    assert (i ∈ requested) as Hi.
    { destruct g as [|r g]; [done|]. destruct (proj1 (Hin r)) as [_ E]; [left|]. unfold legacy_key in E. by case_bool_decide; simplify_eq. }
    split; [done|]. intros r. rewrite Hin. unfold in_partition, legacy_key.
    case_bool_decide as Hr; [naive_solver|]. split; [naive_solver|]. intros (_ & <- & _). done. }
  destruct HG as [_ HG]. unfold group_cut. cbn [fst snd].
  pose proof (sorted_before _ Hd) as Hs. assert (Hperm : sort_on range_key g ≡ₚ g) by apply sort_on_perm.
  destruct (sort_on range_key g) as [|first rest] eqn:E; [by apply Permutation_nil_l in Hperm|].
  assert (Hne' : Forall nonempty_range (first :: rest)) by (rewrite Hperm; apply Hd).
  assert (Hb : Forall (fun r => r_start_offset_inclusive first <= r_start_offset_inclusive r) (first :: rest)).
  { apply Forall_cons. split; [lia|]. apply StronglySorted_inv in Hs as [_ Hs]. apply Forall_cons in Hne' as [Hf _].
    eapply Forall_impl; [exact Hs|]. unfold range_before, nonempty_range in *. intros; lia. }
  destruct (committed_prefix_exact stream_id partition_id committed _ _ Hs Hne' Hb) as (f & Ef & Hf).
  cbv iota beta zeta. rewrite Ef. eexists.
  split; [done|]. cbn. split_and!; [done|done|]. unfold partition_exact. cbn.
  assert (HG' : forall r, r ∈ first :: rest <-> in_partition rs i stream_id partition_id r) by (intros r; by rewrite Hperm).
  split_and!; [done|done| | |exact (frontier_iff _ _ _ _ HG' Hf)].
  - exists first. split; [|done]. apply HG'. left.
  - intros r Hr. rewrite Forall_forall in Hb. by apply Hb, HG'.
Qed.

(** The cut of a relation: exactly the partitions it has reservations in, each once. *)
Definition relation_exact (rs : list IngestRangeReservation) (rc : IngestSourceRelationCutV1) : Prop :=
  (forall p, p ∈ sr_partitions rc -> partition_exact rs (sr_relation rc) p) /\
  (forall r, r ∈ rs -> reservation_relation r = sr_relation rc ->
    exists p, p ∈ sr_partitions rc /\ sp_stream_id p = r_stream_id r /\ sp_partition_id p = r_partition_id r) /\
  (forall p p', p ∈ sr_partitions rc -> p' ∈ sr_partitions rc ->
    sp_stream_id p = sp_stream_id p' -> sp_partition_id p = sp_partition_id p' -> p = p').

Lemma build_cut_exact epoch rs :
  validate_capture_cut (CaptureCut requested) = Ok tt -> apart rs ->
  exists cut, build_ingest_source_cut (CaptureCut requested) epoch rs committed = Ok cut /\
    cut_input_catalog_epoch cut = epoch /\ sr_relation <$> cut_relations cut = requested /\
    Forall (relation_exact rs) (cut_relations cut).
Proof.
  intros Hq Hap. destruct (group_reservations_total rs) as (g & Hg & Hgroups); [apply Hap|].
  assert (Hex : forall i stream_id partition_id l, ((i, (stream_id, partition_id)), l) ∈ entries g ->
    exists p, group_cut ((i, (stream_id, partition_id)), l) = Ok p /\
      sp_stream_id p = stream_id /\ sp_partition_id p = partition_id /\ partition_exact rs i p).
  { intros i st pid l Hin. apply elem_of_entries in Hin. by eapply group_cut_exact. }
  destruct (cut_fold (entries g) ∅) as (cuts & Hcuts & Hspec).
  { intros [[i [st pid]] l] Hin. destruct (Hex _ _ _ _ Hin) as (p & Hp & _). by exists p. }
  assert (Hspec' : forall i p, p ∈ default [] (cuts !! i) <-> exists group, group ∈ entries g /\ group.1.1 = i /\ group_cut group = Ok p).
  { intros i p. rewrite Hspec, lookup_empty. cbn. set_solver. }
  unfold build_ingest_source_cut. rewrite Hq. cbn [cq_relations mbind result_bind]. rewrite Hg. cbn [mbind result_bind]. rewrite Hcuts.
  eexists. split; [done|]. cbn. split_and!; [done| |].
  - rewrite <-list_fmap_compose. apply list_fmap_id.
  - apply Forall_forall. intros rc (i & -> & Hi)%list_elem_of_fmap. split_and!; cbn.
    + intros p ([[i' [st pid]] l] & Hin & E & Hp)%Hspec'. cbn in E. subst i'. destruct (Hex _ _ _ _ Hin) as (p' & Hp' & _ & _ & He).
      rewrite Hp in Hp'. injection Hp' as <-. exact He.
    + intros r Hr Hi'. destruct (groups_elem _ _ _ (i, (r_stream_id r, r_partition_id r)) r Hgroups Hr) as (l & Hl & _).
      { unfold legacy_key. rewrite Hi'. by rewrite bool_decide_eq_true_2. }
      apply elem_of_entries in Hl. destruct (Hex _ _ _ _ Hl) as (p & Hp & ? & ? & _). exists p. split; [|done].
      apply Hspec'. by eexists.
    + intros p p' ([[i1 [st pid]] l] & Hin & E & Hp)%Hspec' ([[i2 [st' pid']] l'] & Hin' & E' & Hp')%Hspec' Hst Hpid.
      cbn in E, E'. subst. destruct (Hex _ _ _ _ Hin) as (p1 & ? & ? & ? & _), (Hex _ _ _ _ Hin') as (p2 & ? & ? & ? & _).
      simplify_eq. apply elem_of_entries in Hin, Hin'. congruence.
Qed.
End legacy.

(** ** Growth *)

(** With more reservations, none below the base, and more batches committed, a
    partition is committed at least as far and from the same base. *)
Lemma partition_grows committed committed' rs rs' i p p' :
  partition_exact committed rs i p -> partition_exact committed' rs' i p' ->
  sp_stream_id p' = sp_stream_id p -> sp_partition_id p' = sp_partition_id p ->
  committed ⊆ committed' -> (forall r, r ∈ rs -> r ∈ rs') ->
  (forall r, in_partition rs' i (sp_stream_id p) (sp_partition_id p) r -> sp_base_offset_inclusive p <= r_start_offset_inclusive r) ->
  sp_base_offset_inclusive p' = sp_base_offset_inclusive p /\
  sp_committed_offset_exclusive p <= sp_committed_offset_exclusive p'.
Proof.
  intros (_ & _ & (r0 & Hr0 & E0) & Hmin & [Hb Hc Hh Hm]) (_ & _ & (r1 & Hr1 & E1) & Hmin' & [Hb' Hc' Hh' Hm']) Est Epid Hsub Hrs Hbase.
  rewrite Est, Epid in *.
  assert (Hmono : forall r, in_partition rs i (sp_stream_id p) (sp_partition_id p) r -> in_partition rs' i (sp_stream_id p) (sp_partition_id p) r)
    by (intros r (? & ? & ?); split; auto).
  assert (sp_base_offset_inclusive p' = sp_base_offset_inclusive p) as Eb.
  { specialize (Hmin' r0 (Hmono _ Hr0)). specialize (Hbase r1 Hr1). lia. }
  split; [done|]. rewrite Eb in *. destruct (Z.le_gt_cases (sp_committed_offset_exclusive p) (sp_committed_offset_exclusive p')) as [|Hlt]; [done|].
  exfalso. destruct (Hh (sp_committed_offset_exclusive p')) as (r & Hr & Hro); [lia|].
  destruct (Z.eq_dec (r_start_offset_inclusive r) (sp_committed_offset_exclusive p')) as [E|Hne].
  - apply (Hm' r (Hmono _ Hr) E), Hsub. apply (Hc r Hr). lia.
  - destruct (Hc' r (Hmono _ Hr)); lia.
Qed.
