(* ===== verification/RelationCutProofs.v ===== *)
(** Relation source cuts: when [build_relation_ingest_source_cuts] returns, it lists
    exactly the publications of the relations, every reservation has one, and they are
    contiguous in every partition. *)
From Stdlib Require Import Sorted.
From S2P Require Import Prelude BTree Json Digits Segments ObjectKey Hash Relation StandingProgram MetaTypes SourceCut SourceCutProofs.

(** Publications that follow each other from one offset to another. *)
Inductive refs_chain : Z -> list RelationIngestPublicationRefV1 -> Z -> Prop :=
| ChainNil f : refs_chain f [] f
| ChainCons p refs f : refs_chain (pf_end_offset_exclusive p) refs f ->
    refs_chain (pf_start_offset_inclusive p) (p :: refs) f.

Lemma refs_chain_app a l b l' c : refs_chain a l b -> refs_chain b l' c -> refs_chain a (l ++ l') c.
Proof. intros Hl Hl'. induction Hl; cbn; [done|]. constructor. auto. Qed.

Section cuts.
Variable q : CaptureRelationIngestSourceCutsRequest.

Definition entry_id (e : authority_entry) : source_entry_key := relation_source_entry_key e.1 e.2.
Definition publication_id (p : RelationAuthoritativeIngestPublication) : source_entry_key :=
  relation_source_entry_key (p_authority_key p) (p_reservation p).

(** The partition an entry is grouped under. *)
Definition entry_group (e : authority_entry) : option group_key :=
  if String.eqb (rk_namespace e.1) (cs_namespace q)
  then (fun i => (i, (r_stream_id e.2, r_partition_id e.2))) <$> requested_relation (cs_relations q) e.2
  else None.

Definition is_relevant (p : RelationAuthoritativeIngestPublication) : Prop :=
  rk_namespace (p_authority_key p) = cs_namespace q /\ is_Some (requested_relation (cs_relations q) (p_reservation p)).

Lemma requested_some r i :
  requested_relation (cs_relations q) r = Some i ->
  i ∈ cs_relations q /\ i_relation_id i = r_relation_id r /\ i_relation_version i = r_relation_version r.
Proof.
  intros Hf. apply List.find_some in Hf as [Hin Hb]. apply list_elem_of_In in Hin.
  apply andb_true_iff in Hb as [H1%String.eqb_eq H2%String.eqb_eq]. done.
Qed.

(** ** The two loops that collect *)

Lemma group_entry_step m e m' :
  group_entry q m e = Ok m' -> m' = match entry_group e with Some k => push_at k e m | None => m end /\
  (forall i st pid, entry_group e = Some (i, (st, pid)) ->
    i_schema_fingerprint i = r_schema_fingerprint e.2 /\ validate_reservation e.2 = Ok tt).
Proof.
  destruct e as [authority r]. unfold group_entry, entry_group. cbn. intros Hg. apply bind_unit_ok in Hg as [Hv Hg].
  destruct (String.eqb (rk_namespace authority) (cs_namespace q)); cbn in *; [|by injection Hg as <-].
  destruct (requested_relation (cs_relations q) r) as [i|] eqn:Hi; cbn; [|by injection Hg as <-].
  apply bind_unit_ok in Hg as [_ Hg]. apply bind_unit_ok in Hg as [Hfp Hg].
  apply fail_if_ok, negb_false_iff, String.eqb_eq in Hfp. apply requested_some in Hi as [Hin _].
  rewrite bool_decide_eq_true_2 in Hg by done. injection Hg as <-. split; [done|]. intros ??? [= -> _ _]. done.
Qed.

Lemma group_entries_ok es g :
  try_fold (group_entry q) ∅ es = Ok g ->
  groups entry_group es g /\
  forall e i st pid, e ∈ es -> entry_group e = Some (i, (st, pid)) ->
    i_schema_fingerprint i = r_schema_fingerprint e.2 /\ validate_reservation e.2 = Ok tt.
Proof.
  intros Hf. split.
  - eapply groups_fold; [|done]. intros m e m' Hs. by apply group_entry_step in Hs as [-> _].
  - intros e i st pid He. destruct (try_fold_steps _ _ _ _ _ Hf He) as (s1 & s2 & Hs).
    apply group_entry_step in Hs as [_ Hs]. apply Hs.
Qed.

Lemma index_publications_ok ps m :
  try_fold (index_publication q) ∅ ps = Ok m ->
  (forall k p, m !! k = Some p <-> p ∈ ps /\ is_relevant p /\ k = publication_id p) /\
  forall p, p ∈ ps -> is_relevant p -> is_orphan q p = true.
Proof.
  revert m. induction ps as [|p ps IH] using rev_ind; intros m.
  { intros [= <-]. split; [|set_solver]. intros k p. rewrite lookup_empty. set_solver. }
  intros Hf. rewrite try_fold_app in Hf. apply bind_ok in Hf as (m1 & Hf1 & Hf). cbn in Hf. apply bind_ok in Hf as (m2 & Hs & [= <-]).
  destruct (IH _ Hf1) as [IH1 IH2]. unfold index_publication in Hs.
  assert (Hskip : ~ is_relevant p -> m2 = m1 -> (forall k p', m2 !! k = Some p' <-> p' ∈ ps ++ [p] /\ is_relevant p' /\ k = publication_id p') /\
    forall p', p' ∈ ps ++ [p] -> is_relevant p' -> is_orphan q p' = true).
  { intros Hn ->. split.
    - intros k p'. rewrite IH1, elem_of_app, list_elem_of_singleton.
      split; [intros (? & ? & ?); auto|]. intros ([?| ->] & ? & ?); [auto|done].
    - intros p'. rewrite elem_of_app, list_elem_of_singleton. intros [?| ->] ?; [by apply IH2|done]. }
  destruct (String.eqb_spec (rk_namespace (p_authority_key p)) (cs_namespace q)) as [Hns|Hns]; cbn in Hs;
    [|apply Hskip; [by intros [? _]|congruence]].
  destruct (requested_relation (cs_relations q) (p_reservation p)) as [i|] eqn:Hi;
    [|apply Hskip; [intros [_ [? Hq]]; congruence|congruence]].
  apply bind_unit_ok in Hs as [Hfp Hs]. apply bind_unit_ok in Hs as [Hnew [= <-]].
  apply fail_if_ok, negb_false_iff in Hfp. apply fail_if_ok, bool_decide_eq_false in Hnew.
  assert (Hrel : is_relevant p) by (split; [done|by exists i]). fold (publication_id p) in *. split.
  - intros k p'. destruct (decide (publication_id p = k)) as [<-|Hne].
    + rewrite lookup_insert_eq. split; [intros [= <-]; rewrite elem_of_app, list_elem_of_singleton; auto|].
      intros ([Hp'|Hp'%list_elem_of_singleton]%elem_of_app & Hr' & Hk); [|congruence].
      exfalso. apply Hnew. exists p'. apply IH1. done.
    + rewrite lookup_insert_ne by done. rewrite IH1, elem_of_app, list_elem_of_singleton. split; [intros (? & ? & ?); auto|].
      intros ([?| ->] & ? & ?); [done|congruence].
  - intros p'. rewrite elem_of_app, list_elem_of_singleton. intros [?| ->] Hr'; [by apply IH2|].
    unfold is_orphan. apply andb_true_iff. split; [by apply String.eqb_eq|]. apply existsb_exists. exists i.
    apply requested_some in Hi as (Hin & E1 & E2). split; [by apply list_elem_of_In|].
    by rewrite E1, E2, !String.eqb_refl, Hfp.
Qed.

(** ** The loop over the ranges of a partition *)

Lemma take_ranges_ok relation_id stream_id partition_id l f m refs f' m' refs' :
  take_ranges relation_id stream_id partition_id f m refs l = Ok (f', m', refs') ->
  m' ⊆ m /\
  (forall k p, m !! k = Some p -> m' !! k = Some p \/ exists e, e ∈ l /\ entry_id e = k) /\
  exists news, refs' = refs ++ news /\ refs_chain f news f' /\ length news = length l /\
    (forall e, e ∈ l -> exists p, m !! entry_id e = Some p /\ publication_ref p e.2 ∈ news) /\
    (forall ref, ref ∈ news -> exists e p, e ∈ l /\ m !! entry_id e = Some p /\ ref = publication_ref p e.2).
Proof.
  revert f m refs. induction l as [|[authority r] l IH]; intros f m refs; cbn.
  { intros [= <- <- <-]. split_and!; [done|by left|]. exists []. rewrite app_nil_r. split_and!; [done|constructor|done|set_solver|set_solver]. }
  intros Ht. apply bind_unit_ok in Ht as [_ Ht]. apply bind_unit_ok in Ht as [Hst Ht]. apply bind_ok in Ht as (p & Hp & Ht).
  apply fail_if_ok, negb_false_iff, Z.eqb_eq in Hst. apply ok_or_ok in Hp. subst f.
  destruct (IH _ _ _ Ht) as (Hsub & Hcons & news & -> & Hch & Hlen & Hin & Hout).
  assert (Hdel : forall k p', delete (relation_source_entry_key authority r) m !! k = Some p' -> m !! k = Some p')
    by (intros k p' Hk; by apply lookup_delete_Some in Hk as [_ ?]).
  split_and!.
  - etransitivity; [exact Hsub|]. apply delete_subseteq.
  - intros k p' Hk. destruct (decide (relation_source_entry_key authority r = k)) as [<-|Hne].
    + right. exists (authority, r). split; [left|done].
    + destruct (Hcons k p') as [?|(e & He & Hek)]; [by rewrite lookup_delete_ne|by left|right]. exists e. split; [by right|done].
  - exists (publication_ref p r :: news). rewrite <-app_assoc. split_and!; [done| |cbn; lia| |].
    + change (r_start_offset_inclusive r) with (pf_start_offset_inclusive (publication_ref p r)). by constructor.
    + intros e [->|He]%elem_of_cons; [exists p; split; [done|left]|].
      destruct (Hin e He) as (p' & Hp' & Href). exists p'. split; [by apply Hdel|by right].
    + intros ref [->|Href]%elem_of_cons; [exists (authority, r), p; split_and!; [left|done|done]|].
      destruct (Hout ref Href) as (e & p' & He & Hp' & ->). exists e, p'. split_and!; [by right|by apply Hdel|done].
Qed.

(** ** The loops over partitions and relations *)

(** What the cut of a partition lists. *)
Definition partition_lists (m0 : publication_map) (group : group_key * list authority_entry) (part : RelationIngestPartitionCutV1) : Prop :=
  lp_stream_id part = group.1.2.1 /\ lp_partition_id part = group.1.2.2 /\ lp_publications part <> [] /\
  refs_chain (lp_base_offset_inclusive part) (lp_publications part) (lp_committed_offset_exclusive part) /\
  (forall e, e ∈ group.2 -> exists p, m0 !! entry_id e = Some p /\ publication_ref p e.2 ∈ lp_publications part) /\
  (forall ref, ref ∈ lp_publications part -> exists e p, e ∈ group.2 /\ m0 !! entry_id e = Some p /\ ref = publication_ref p e.2).

(** The publications still in the map, and the entries whose publications were taken. *)
Definition remaining (m0 m : publication_map) (done_entry : authority_entry -> Prop) : Prop :=
  m ⊆ m0 /\ forall k p, m0 !! k = Some p -> m !! k = Some p \/ exists e, done_entry e /\ entry_id e = k.

Lemma cut_group_ok m0 D m parts group m' parts' :
  remaining m0 m D -> group.2 <> [] -> cut_group (m, parts) group = Ok (m', parts') ->
  remaining m0 m' (fun e => D e \/ e ∈ group.2) /\ exists part, parts' = parts ++ [part] /\ partition_lists m0 group part.
Proof.
  destruct group as [[i [stream_id partition_id]] l]. intros [Hsub Hrem] Hne Hc. cbn in Hne. unfold cut_group in Hc.
  pose proof (sort_on_perm entry_range_key l) as Hperm.
  destruct (sort_on entry_range_key l) as [|first rest] eqn:E; [by apply Permutation_nil_l in Hperm|].
  apply bind_ok in Hc as ([[f m1] refs] & Ht & [= <- <-]). cbn [fst snd] in Ht.
  destruct (take_ranges_ok _ _ _ _ _ _ _ _ _ _ Ht) as (Hsub' & Hcons & news & Hrefs & Hch & Hlen & Hin & Hout). cbn in Hrefs. subst refs.
  assert (Hmem : forall e, e ∈ first :: rest <-> e ∈ l) by (intros e; by rewrite Hperm).
  assert (Hup : forall k p, m !! k = Some p -> m0 !! k = Some p) by (intros k p Hk; by eapply lookup_weaken).
  split.
  - split; [by etransitivity|]. intros k p Hk. destruct (Hrem k p Hk) as [Hm|(e & He & Hek)]; [|right; eauto].
    destruct (Hcons k p Hm) as [?|(e & He & Hek)]; [by left|right]. exists e. rewrite <-Hmem. auto.
  - eexists. split; [done|]. unfold partition_lists. cbn. split_and!; [done|done|by destruct news|done| |].
    + intros e He. destruct (Hin e) as (p & Hp & Href); [by apply Hmem|]. eauto.
    + intros ref Href. destruct (Hout ref Href) as (e & p & He & Hp & ->). exists e, p. rewrite <-Hmem. eauto.
Qed.

Lemma cut_groups_ok m0 l D m m' parts :
  remaining m0 m D -> Forall (fun group => group.2 <> []) l -> try_fold cut_group (m, []) l = Ok (m', parts) ->
  remaining m0 m' (fun e => D e \/ exists group, group ∈ l /\ e ∈ group.2) /\ Forall2 (partition_lists m0) l parts.
Proof.
  revert m' parts. induction l as [|group l IH] using rev_ind; intros m' parts Hrem Hne Hf.
  { injection Hf as <- <-. split; [|constructor]. destruct Hrem as [Hs Hr]. split; [done|]. intros k p Hk.
    destruct (Hr k p Hk) as [?|(e & ? & ?)]; [by left|right; eauto]. }
  apply Forall_app in Hne as [Hne [Hg _]%Forall_cons].
  rewrite try_fold_app in Hf. apply bind_ok in Hf as ([m1 parts1] & Hf1 & Hf). cbn in Hf. apply bind_ok in Hf as ([m2 parts2] & Hs & [= <- <-]).
  destruct (IH _ _ Hrem Hne Hf1) as [Hrem1 Hparts]. destruct (cut_group_ok _ _ _ _ _ _ _ Hrem1 Hg Hs) as [[Hsub Hrem2] (part & -> & Hp)].
  split; [|by apply Forall2_app; [|constructor]]. split; [done|]. intros k p Hk.
  destruct (Hrem2 k p Hk) as [?|(e & He & ?)]; [by left|right]. exists e. split; [|done].
  setoid_rewrite elem_of_app. setoid_rewrite list_elem_of_singleton. destruct He as [[?|(g & ? & ?)]|?]; eauto 6.
Qed.

(** What the cut of a relation lists. *)
Definition cut_lists (m0 : publication_map) (g : btree group_key (list authority_entry)) (c : RelationIngestSourceIdentityCutV1) : Prop :=
  lc_namespace (ic_cut c) = cs_namespace q /\ lc_relation_id (ic_cut c) = i_relation_id (ic_relation c) /\
  Forall2 (partition_lists m0) (filter (fun group => group.1.1 = ic_relation c) (entries g)) (lc_partitions (ic_cut c)).

Lemma cut_relations_ok m0 g l D m m' cuts :
  remaining m0 m D -> Forall (fun group => group.2 <> []) (entries g) ->
  try_fold (cut_relation (cs_namespace q) g) (m, []) l = Ok (m', cuts) ->
  remaining m0 m' (fun e => D e \/ exists group, group ∈ entries g /\ group.1.1 ∈ l /\ e ∈ group.2) /\
  ic_relation <$> cuts = l /\ Forall (cut_lists m0 g) cuts.
Proof.
  intros Hrem Hne. revert m' cuts. induction l as [|i l IH] using rev_ind; intros m' cuts Hf.
  { injection Hf as <- <-. split_and!; [|done|constructor]. destruct Hrem as [Hs Hr]. split; [done|]. intros k p Hk.
    destruct (Hr k p Hk) as [?|(e & ? & ?)]; [by left|right; eauto]. }
  rewrite try_fold_app in Hf. apply bind_ok in Hf as ([m1 cuts1] & Hf1 & Hf). cbn in Hf. apply bind_ok in Hf as ([m2 cuts2] & Hs & [= <- <-]).
  destruct (IH _ _ Hf1) as (Hrem1 & Hrel & Hcuts). apply bind_ok in Hs as ([m3 parts] & Hg & [= <- <-]).
  assert (Hne' : Forall (fun group => group.2 <> []) (filter (fun group => group.1.1 = i) (entries g))).
  { rewrite Forall_forall in Hne |- *. intros group [_ Hin]%list_elem_of_filter. by apply Hne. }
  destruct (cut_groups_ok _ _ _ _ _ _ Hrem1 Hne' Hg) as [[Hsub Hrem2] Hparts].
  split_and!.
  - split; [done|]. intros k p Hk. destruct (Hrem2 k p Hk) as [?|(e & [[?|(gr & ? & ? & ?)]|(gr & [? ?]%list_elem_of_filter & ?)] & ?)];
      [by left|right..]; exists e; (split; [|done]); [by left|right; exists gr; set_solver|right; exists gr; set_solver].
  - rewrite fmap_app, Hrel. done.
  - apply Forall_app. split; [done|]. apply Forall_singleton. done.
Qed.

(** ** The cuts *)

Lemma groups_entries_nonempty es g : groups entry_group es g -> Forall (fun group => group.2 <> []) (entries g).
Proof.
  intros Hg. apply Forall_forall. intros [k l] Hin. apply elem_of_entries in Hin. by apply (groups_some _ _ _ _ _ Hg Hin).
Qed.

Record cuts_exact (es : list authority_entry) (ps : list RelationAuthoritativeIngestPublication)
    (cuts : list RelationIngestSourceIdentityCutV1) : Prop := {
  cx_relations : ic_relation <$> cuts = cs_relations q;
  cx_partitions c part : c ∈ cuts -> part ∈ lc_partitions (ic_cut c) ->
    refs_chain (lp_base_offset_inclusive part) (lp_publications part) (lp_committed_offset_exclusive part) /\ lp_publications part <> [];
  cx_complete c e st pid : c ∈ cuts -> e ∈ es -> entry_group e = Some (ic_relation c, (st, pid)) ->
    exists p part, p ∈ ps /\ publication_id p = entry_id e /\ part ∈ lc_partitions (ic_cut c) /\
      lp_stream_id part = st /\ lp_partition_id part = pid /\ publication_ref p e.2 ∈ lp_publications part;
  cx_sound c part ref : c ∈ cuts -> part ∈ lc_partitions (ic_cut c) -> ref ∈ lp_publications part ->
    exists e p, e ∈ es /\ entry_group e = Some (ic_relation c, (lp_stream_id part, lp_partition_id part)) /\
      p ∈ ps /\ publication_id p = entry_id e /\ ref = publication_ref p e.2;
  cx_reserved p : p ∈ ps -> is_relevant p -> exists e k, e ∈ es /\ entry_id e = publication_id p /\ entry_group e = Some k;
  cx_fingerprint e i st pid : e ∈ es -> entry_group e = Some (i, (st, pid)) -> i_schema_fingerprint i = r_schema_fingerprint e.2
}.

Lemma build_relation_cuts_exact es ps cuts :
  build_relation_ingest_source_cuts q es ps = Ok cuts -> cuts_exact es ps cuts.
Proof.
  unfold build_relation_ingest_source_cuts. intros Hb. apply bind_unit_ok in Hb as [Hq Hb].
  apply bind_ok in Hb as (g & Hg & Hb). apply bind_ok in Hb as (m0 & Hm0 & Hb). apply bind_ok in Hb as ([m cuts'] & Hc & Hb).
  destruct (group_entries_ok _ _ Hg) as [Hgroups Hfp]. destruct (index_publications_ok _ _ Hm0) as [Hidx Horph].
  destruct (cut_relations_ok m0 g (cs_relations q) (fun _ => False) m0 m cuts') as ([Hsub Hrem] & Hrel & Hcuts);
    [split; [done|by left]|by eapply groups_entries_nonempty|done|].
  destruct (List.find (is_orphan q) (entries m).*2) as [|] eqn:Hfind; [done|]. injection Hb as <-.
  rewrite Forall_forall in Hcuts.
  assert (Hgr : forall k l e, (k, l) ∈ entries g -> e ∈ l <-> e ∈ es /\ entry_group e = Some k).
  { intros k l e Hin. apply elem_of_entries in Hin. apply (groups_some _ _ _ _ _ Hgroups) in Hin as [-> _].
    rewrite list_elem_of_filter. tauto. }
  split.
  - done.
  - intros c part Hin Hpart. apply list_elem_of_lookup in Hpart as [n Hn]. destruct (Hcuts c Hin) as (_ & _ & Hf).
    destruct (Forall2_lookup_r _ _ _ _ _ Hf Hn) as (gr & _ & Hl). by destruct Hl as (_ & _ & ? & ? & _).
  - intros c e st pid Hin He Hk. destruct (Hcuts c Hin) as (_ & _ & Hf).
    destruct (groups_elem _ _ _ _ _ Hgroups He Hk) as (l & Hl & Hel). apply elem_of_entries in Hl.
    assert (((ic_relation c, (st, pid)), l) ∈ filter (fun group => group.1.1 = ic_relation c) (entries g)) as Hfil
      by (by apply list_elem_of_filter).
    apply list_elem_of_lookup in Hfil as [n Hn]. destruct (Forall2_lookup_l _ _ _ _ _ Hf Hn) as (part & Hpart & Hlists).
    destruct Hlists as (Est & Epid & _ & _ & Hall & _). destruct (Hall e Hel) as (p & Hp & Href).
    apply Hidx in Hp as (Hps & _ & Hid). exists p, part. split_and!; try done. by eapply list_elem_of_lookup_2.
  - intros c part ref Hin Hpart Href. destruct (Hcuts c Hin) as (_ & _ & Hf). apply list_elem_of_lookup in Hpart as [n Hn].
    destruct (Forall2_lookup_r _ _ _ _ _ Hf Hn) as ([[i [st pid]] l] & Hgn & (Est & Epid & _ & _ & _ & Hsound)).
    apply list_elem_of_lookup_2, list_elem_of_filter in Hgn as [Hi Hgin]. cbn in Hi, Est, Epid. subst i.
    destruct (Hsound ref Href) as (e & p & He & Hp & ->). apply (Hgr _ _ _ Hgin) in He as [He Hk]. apply Hidx in Hp as (Hps & _ & Hid).
    exists e, p. by rewrite Est, Epid.
  - intros p Hp Hr. destruct (Hrem (publication_id p) p) as [Hm|(e & [[]|([k l] & Hgin & _ & Hel)] & Hek)]; [by apply Hidx| |].
    + exfalso. apply elem_of_entries in Hm. eapply List.find_none in Hfind.
      * rewrite (Horph p Hp Hr) in Hfind. done.
      * apply list_elem_of_In, list_elem_of_fmap. by exists (publication_id p, p).
    + apply (Hgr _ _ _ Hgin) in Hel as [He Hk]. by exists e, k.
  - intros e i st pid He Hk. by apply (Hfp e i st pid He Hk).
Qed.
End cuts.
