(* ===== verification/ViewBootstrap.v ===== *)
(** View bootstraps, [velorix-meta/src/view_bootstrap.rs] and
    [published_input_bootstrap.rs]: what a view starts from, how far it has come, and
    when it may be activated. *)
From S2P Require Import Prelude BTree Json Digits Segments ObjectKey Hash Serde JsonText Relation StandingProgram MetaTypes SourceCut.

Definition VIEW_BOOTSTRAP_CONTROL_SCHEMA_VERSION_V1 : Z := 1.
Definition INITIAL_VIEW_BOOTSTRAP_GENERATION : Z := 1.
Definition PUBLISHED_INPUT_BOOTSTRAP_SCHEMA_VERSION_V1 : Z := 1.

(** * Progress of a bootstrap from published views *)

Definition invalid_progress : MetaStoreError := Serialization "invalid published input bootstrap progress".

Definition check_bootstrap_cursor (edges : list string) (input : PublishedInputBootstrapCursorV1) : checked (list string) :=
  _ ← map_err (fun _ => invalid_progress) (validate_cursor (bc_captured_cursor input));
  _ ← fail_if (negb (String.eqb (bc_input_edge input) (vc_input_edge (bc_captured_cursor input))) ||
      bool_decide (bc_input_edge input ∈ edges) ||
      is_blank (bc_output_manifest_ref input) ||
      negb (is_sha256_text (bc_output_manifest_hash input)) ||
      negb (is_sha256_text (bc_output_schema_hash input)) ||
      (bc_total_pages input <? bc_next_page_index input) ||
      (bc_total_rows input <? bc_applied_rows input) ||
      ((bc_next_page_index input =? 0) && negb (bc_applied_rows input =? 0)) ||
      ((bc_total_pages input =? 0) && negb (bc_total_rows input =? 0)) ||
      ((bc_next_page_index input =? bc_total_pages input) && negb (bc_applied_rows input =? bc_total_rows input)))
    invalid_progress;
  Ok (bc_input_edge input :: edges).

Definition validate_progress (p : PublishedInputBootstrapProgressV1) : checked unit :=
  _ ← fail_if (negb (bp_schema_version p =? PUBLISHED_INPUT_BOOTSTRAP_SCHEMA_VERSION_V1) ||
      (bp_bootstrap_generation p =? 0) || is_blank (bp_plan_hash p) || bool_decide (bp_inputs p = []))
    invalid_progress;
  _ ← try_fold check_bootstrap_cursor [] (bp_inputs p);
  Ok tt.

Definition is_complete (p : PublishedInputBootstrapProgressV1) : bool :=
  is_ok (validate_progress p) &&
  forallb (fun input => (bc_next_page_index input =? bc_total_pages input) && (bc_applied_rows input =? bc_total_rows input))
    (bp_inputs p).

Definition input_matches_edge (tenant_id : string) (edge : BeginViewDependencyEdgeV1)
    (input : PublishedInputBootstrapCursorV1) : bool :=
  let cursor := bc_captured_cursor input in
  String.eqb (bc_input_edge input) (e_edge_id edge) &&
  match e_bootstrap_cursor edge with Some expected => bool_decide (cursor = expected) | None => true end &&
  String.eqb (vc_producer_tenant_id cursor) tenant_id &&
  String.eqb (vc_producer_program_id cursor) (e_producer_program_id edge) &&
  String.eqb (vc_producer_view_id cursor) (e_producer_view_id edge) &&
  (vc_producer_generation cursor =? e_producer_generation edge) &&
  String.eqb (vc_output_stream cursor) (e_output_stream_id edge) &&
  String.eqb (bc_output_schema_hash input) (e_output_schema_hash edge).

Definition matches_control (p : PublishedInputBootstrapProgressV1) (control : ViewBootstrapControlV1) : bool :=
  is_ok (validate_progress p) &&
  (bp_bootstrap_generation p =? vw_bootstrap_generation control) &&
  String.eqb (bp_plan_hash p) (vw_plan_hash control) &&
  (length (bp_inputs p) =? length (vw_view_inputs control))%nat &&
  forallb (fun edge => existsb (input_matches_edge (vw_tenant_id control) edge) (bp_inputs p)) (vw_view_inputs control).

Definition input_follows (old new : PublishedInputBootstrapCursorV1) : bool :=
  String.eqb (bc_input_edge new) (bc_input_edge old) &&
  bool_decide (bc_captured_cursor new = bc_captured_cursor old) &&
  String.eqb (bc_output_manifest_ref new) (bc_output_manifest_ref old) &&
  String.eqb (bc_output_manifest_hash new) (bc_output_manifest_hash old) &&
  String.eqb (bc_output_schema_hash new) (bc_output_schema_hash old) &&
  (bc_total_pages new =? bc_total_pages old) &&
  (bc_total_rows new =? bc_total_rows old) &&
  (bc_next_page_index old <=? bc_next_page_index new) &&
  (bc_applied_rows old <=? bc_applied_rows new) &&
  (negb (bc_next_page_index new =? bc_next_page_index old) || (bc_applied_rows new =? bc_applied_rows old)).

Definition follows (p previous : PublishedInputBootstrapProgressV1) : bool :=
  (bp_schema_version p =? bp_schema_version previous) &&
  (bp_bootstrap_generation p =? bp_bootstrap_generation previous) &&
  String.eqb (bp_plan_hash p) (bp_plan_hash previous) &&
  (length (bp_inputs p) =? length (bp_inputs previous))%nat &&
  forallb (fun old => existsb (input_follows old) (bp_inputs p)) (bp_inputs previous).

(** * Requests *)

Definition check_edge (tenant_id : string) (seen : list string) (edge : BeginViewDependencyEdgeV1) : checked (list string) :=
  _ ← require_non_empty "view_inputs.edge_id" (e_edge_id edge);
  _ ← require_non_empty "view_inputs.producer_program_id" (e_producer_program_id edge);
  _ ← require_non_empty "view_inputs.producer_view_id" (e_producer_view_id edge);
  _ ← require_non_empty "view_inputs.producer_plan_hash" (e_producer_plan_hash edge);
  _ ← require_non_empty "view_inputs.input_relation_id" (e_input_relation_id edge);
  _ ← require_non_empty "view_inputs.input_relation_version" (e_input_relation_version edge);
  _ ← require_non_empty "view_inputs.output_stream_id" (e_output_stream_id edge);
  _ ← require_non_empty "view_inputs.output_schema_hash" (e_output_schema_hash edge);
  _ ← require_non_empty "view_inputs.key_descriptor_hash" (e_key_descriptor_hash edge);
  _ ← require_non_empty "view_inputs.delta_codec_identity" (e_delta_codec_identity edge);
  _ ← require_non_empty "view_inputs.frontier_kind" (e_frontier_kind edge);
  _ ← fail_if (e_producer_generation edge =? 0)
    (IntegerOutOfRange "view_inputs.producer_generation" (e_producer_generation edge));
  _ ← match e_bootstrap_cursor edge with
      | Some cursor =>
          _ ← map_err (fun _ => EmptyField "view_inputs.bootstrap_cursor") (validate_cursor cursor);
          fail_if (negb (String.eqb (vc_input_edge cursor) (e_edge_id edge)) ||
              negb (String.eqb (vc_producer_tenant_id cursor) tenant_id) ||
              negb (String.eqb (vc_producer_program_id cursor) (e_producer_program_id edge)) ||
              negb (String.eqb (vc_producer_view_id cursor) (e_producer_view_id edge)) ||
              negb (vc_producer_generation cursor =? e_producer_generation edge) ||
              negb (String.eqb (vc_output_stream cursor) (e_output_stream_id edge)))
            (EmptyField "view_inputs.bootstrap_cursor.identity")
      | None => Ok tt
      end;
  _ ← fail_if (bool_decide (e_edge_id edge ∈ seen)) (DuplicateSourceCutRelation (e_edge_id edge) "");
  Ok (e_edge_id edge :: seen).

Definition validate_begin_bootstrap (q : BeginViewBootstrapRequest) : checked unit :=
  _ ← require_non_empty "tenant_id" (vb_tenant_id q);
  _ ← require_non_empty "program_id" (vb_program_id q);
  _ ← require_non_empty "view_id" (vb_view_id q);
  _ ← require_non_empty "plan_hash" (vb_plan_hash q);
  _ ← fail_if (bool_decide (vb_view_spec_json q = [])) (EmptyField "view_spec_json");
  _ ← fail_if (bool_decide (vb_relations q = []) && bool_decide (vb_view_inputs q = [])) (EmptyField "relations");
  _ ← validate_capture_cut (CaptureCut (vb_relations q));
  _ ← try_fold (check_edge (vb_tenant_id q)) [] (vb_view_inputs q);
  Ok tt.

(** [BeginViewBootstrapRequest::matches]. *)
Definition begin_matches (q : BeginViewBootstrapRequest) (control : ViewBootstrapControlV1) : bool :=
  String.eqb (vb_tenant_id q) (vw_tenant_id control) &&
  String.eqb (vb_program_id q) (vw_program_id control) &&
  String.eqb (vb_view_id q) (vw_view_id control) &&
  String.eqb (vb_plan_hash q) (vw_plan_hash control) &&
  bool_decide (vb_view_spec_json q = vw_view_spec_json control) &&
  bool_decide (vb_relations q = sr_relation <$> cut_relations (vw_bootstrap_cut control)) &&
  bool_decide (vb_view_inputs q = vw_view_inputs control).

Definition validate_activation_scope (tenant_id program_id view_id : string) (bootstrap_generation : Z) (plan_hash : string) :
    checked unit :=
  _ ← require_non_empty "tenant_id" tenant_id;
  _ ← require_non_empty "program_id" program_id;
  _ ← require_non_empty "view_id" view_id;
  _ ← require_non_empty "plan_hash" plan_hash;
  fail_if (bootstrap_generation =? 0) (IntegerOutOfRange "bootstrap_generation" bootstrap_generation).

Definition bootstrap_control (q : BeginViewBootstrapRequest) (bootstrap_cut : IngestSourceCutV1) : ViewBootstrapControlV1 :=
  BootstrapControl VIEW_BOOTSTRAP_CONTROL_SCHEMA_VERSION_V1 (vb_tenant_id q) (vb_program_id q) (vb_view_id q)
    INITIAL_VIEW_BOOTSTRAP_GENERATION (vb_plan_hash q) (vb_view_spec_json q) Bootstrapping bootstrap_cut None None
    (vb_view_inputs q).

(** * Coverage *)

Definition partition_covered (cut : IngestSourcePartitionCutV1) (p : RuntimeCheckpointPartitionCoverageV1) : bool :=
  String.eqb (pc_stream_id p) (sp_stream_id cut) &&
  (pc_stream_generation p =? sp_stream_generation cut) &&
  (pc_partition_id p =? sp_partition_id cut) &&
  (pc_partition_generation p =? sp_partition_generation cut) &&
  (pc_covered_from_offset_inclusive p =? sp_base_offset_inclusive cut) &&
  (sp_committed_offset_exclusive cut <=? pc_processed_offset_exclusive p).

Definition relation_covered (cut : IngestSourceRelationCutV1) (r : RuntimeCheckpointRelationCoverageV1) : bool :=
  String.eqb (rv_relation_id r) (i_relation_id (sr_relation cut)) &&
  String.eqb (rv_relation_version r) (i_relation_version (sr_relation cut)) &&
  (rv_relation_generation r =? i_relation_generation (sr_relation cut)) &&
  String.eqb (rv_schema_fingerprint r) (i_schema_fingerprint (sr_relation cut)) &&
  forallb (fun p => existsb (partition_covered p) (rv_partitions r)) (sr_partitions cut).

Definition checkpoint_covers_source_cut (checkpoint : StandingRuntimeCheckpointPointer) (cut : IngestSourceCutV1) : bool :=
  match cp_input_coverage checkpoint with
  | None => false
  | Some coverage => forallb (fun r => existsb (relation_covered r) (cov_relations coverage)) (cut_relations cut)
  end.

Definition partition_cut_covers (required candidate : IngestSourcePartitionCutV1) : bool :=
  String.eqb (sp_stream_id candidate) (sp_stream_id required) &&
  (sp_stream_generation candidate =? sp_stream_generation required) &&
  (sp_partition_id candidate =? sp_partition_id required) &&
  (sp_partition_generation candidate =? sp_partition_generation required) &&
  (sp_base_offset_inclusive candidate =? sp_base_offset_inclusive required) &&
  (sp_committed_offset_exclusive required <=? sp_committed_offset_exclusive candidate).

Definition source_cut_covers (candidate required : IngestSourceCutV1) : bool :=
  (cut_input_catalog_epoch required <=? cut_input_catalog_epoch candidate) &&
  forallb (fun required_relation => existsb (fun candidate_relation =>
      bool_decide (sr_relation candidate_relation = sr_relation required_relation) &&
      forallb (fun p => existsb (partition_cut_covers p) (sr_partitions candidate_relation)) (sr_partitions required_relation))
    (cut_relations candidate)) (cut_relations required).
