(* ===== verification/MetaRequests.v ===== *)
(** What the metadata service requires of its requests: the [validate] functions of
    [velorix-meta/src/lib.rs], the checks of the current owner of a view and of the current
    authorities, and the checks of active views. *)
From Stdlib Require Import Ascii.
From S2P Require Import Prelude BTree Json Digits Segments ObjectKey Hash Serde JsonText Relation StandingProgram MetaTypes SourceCut ViewBootstrap.

Definition MAX_STANDING_RUNTIME_OWNER_TTL_MS : Z := 300000.
Definition MAX_META_GRPC_MESSAGE_BYTES : Z := 8 * 1024 * 1024.
Definition STANDING_RUNTIME_OUTPUT_MANIFEST_REF_PREFIX : string := "standing-runtime-output-manifest:".
Definition STANDING_RUNTIME_OUTPUT_DELTA_REF_PREFIX : string := "standing-runtime-output-delta:".
Definition STANDING_RUNTIME_OUTPUT_COMMIT_REF_PREFIX : string := "standing-runtime-output-commit:".

(** What other crates decide: whether [tonic] accepts the address of an endpoint, and how
    long the JSON text of a registry snapshot is, if it can be written. *)
Class MetaEnv `{ViewBindings} := {
  endpoint_from_shared : string -> bool;
  snapshot_to_vec_len : ActiveViewRegistrySnapshotV1 -> option Z
}.

(** A tenant, a program and a view. *)
Abbreviation scope := (string * string * string)%type.

(** * Owners of standing runtimes *)

Definition validate_standing_runtime_scope (tenant_id program_id view_id : string) : checked unit :=
  _ ← require_non_empty "tenant_id" tenant_id;
  _ ← require_non_empty "program_id" program_id;
  require_non_empty "view_id" view_id.

Definition validate_owner_ttl (ttl_ms : Z) : checked unit :=
  _ ← fail_if (ttl_ms =? 0) (InvalidDuration "ttl_ms");
  fail_if (MAX_STANDING_RUNTIME_OWNER_TTL_MS <? ttl_ms) (IntegerOutOfRange "ttl_ms" ttl_ms).

Definition validate_acquire_owner (q : AcquireStandingRuntimeOwnerRequest) : checked unit :=
  _ ← validate_standing_runtime_scope (ao_tenant_id q) (ao_program_id q) (ao_view_id q);
  _ ← require_non_empty "owner_id" (ao_owner_id q);
  validate_owner_ttl (ao_ttl_ms q).

(** [s.split_once(pattern)] for a text. *)
Fixpoint split_once_text (pattern s : string) : option (string * string) :=
  match strip_prefix pattern s with
  | Some rest => Some ("", rest)
  | None =>
      match s with
      | "" => None
      | String c s =>
          match split_once_text pattern s with
          | Some (before, after) => Some (String c before, after)
          | None => None
          end
      end
  end.

Definition forbidden_in_authority (c : Ascii.ascii) : bool :=
  existsb (Ascii.eqb c) ["/"%char; "\"%char; "?"%char; "#"%char; "@"%char].

Definition validate_owner_endpoint `{MetaEnv} (endpoint : string) : checked unit :=
  match split_once_text "://" endpoint with
  | None => Err (Serialization "invalid owner endpoint origin")
  | Some (scheme, authority) =>
      _ ← fail_if (negb (String.eqb scheme "http" || String.eqb scheme "https") || String.eqb authority "" ||
          existsb forbidden_in_authority (String.list_ascii_of_string authority))
        (Serialization "owner endpoint must be an HTTP(S) origin without credentials, path, query, or fragment");
      fail_if (negb (endpoint_from_shared endpoint)) (Serialization "invalid owner endpoint")
  end.

Definition validate_reacquire_owner `{MetaEnv} (q : ReacquireStandingRuntimeOwnerRequest) : checked unit :=
  let expected := ro_expected_current q in
  _ ← validate_standing_runtime_scope (oc_tenant_id expected) (oc_program_id expected) (oc_view_id expected);
  _ ← require_non_empty "expected_owner_id" (oc_owner_id expected);
  _ ← fail_if (oc_owner_epoch expected =? 0) StandingRuntimeOwnerMismatch;
  _ ← match oc_owner_endpoint expected with Some endpoint => validate_owner_endpoint endpoint | None => Ok tt end;
  _ ← require_non_empty "owner_id" (ro_owner_id q);
  _ ← fail_if (String.eqb (ro_owner_id q) (oc_owner_id expected)) StandingRuntimeOwnerMismatch;
  _ ← validate_owner_endpoint (ro_owner_endpoint q);
  _ ← fail_if (bool_decide (oc_owner_endpoint expected <> Some (ro_owner_endpoint q))) StandingRuntimeOwnerMismatch;
  validate_owner_ttl (ro_ttl_ms q).

(** [StandingRuntimeOwnerClaim::token]. *)
Definition claim_token (c : StandingRuntimeOwnerClaim) : StandingRuntimeOwnerToken :=
  OwnerToken (oc_tenant_id c) (oc_program_id c) (oc_view_id c) (oc_owner_id c) (oc_owner_epoch c).

Definition validate_owner_token (t : StandingRuntimeOwnerToken) : checked unit :=
  _ ← validate_standing_runtime_scope (ot_tenant_id t) (ot_program_id t) (ot_view_id t);
  _ ← require_non_empty "owner_id" (ot_owner_id t);
  fail_if (ot_owner_epoch t =? 0) (IntegerOutOfRange "owner_epoch" (ot_owner_epoch t)).

Definition validate_current_standing_runtime_owner (current : option StandingRuntimeOwnerClaim)
    (owner : StandingRuntimeOwnerToken) (now_unix_ms : Z) : checked unit :=
  match current with
  | None => Err StandingRuntimeOwnerMismatch
  | Some current =>
      fail_if ((oc_expires_at_unix_ms current <=? now_unix_ms) || bool_decide (claim_token current <> owner))
        StandingRuntimeOwnerMismatch
  end.

(** * Checkpoints of standing runtimes *)

Definition standing_runtime_checkpoint_scope_key (p : StandingRuntimeCheckpointPointer) : scope :=
  (cp_tenant_id p, cp_program_id p, cp_view_id p).

Definition standing_runtime_owner_scope_key (tenant_id program_id view_id : string) : scope :=
  (tenant_id, program_id, view_id).

Definition token_scope (t : StandingRuntimeOwnerToken) : scope :=
  standing_runtime_owner_scope_key (ot_tenant_id t) (ot_program_id t) (ot_view_id t).

(** [.map_err(|error| MetaStoreError::Serialization(error.to_string()))], without the text. *)
Definition unreadable {E A} (r : result E A) : checked A := map_err (fun _ => Serialization "unreadable key or coverage") r.

Definition validate_pointer_progress (p : StandingRuntimeCheckpointPointer) : checked unit :=
  match cp_published_input_bootstrap p with
  | None => Ok tt
  | Some progress =>
      _ ← validate_progress progress;
      _ ← fail_if (negb (is_complete progress) && bool_decide (is_Some (cp_input_coverage p)))
        (Serialization "partial published bootstrap cannot claim input coverage");
      fail_if (negb (bp_bootstrap_generation progress =? cp_bootstrap_generation p) ||
          negb (String.eqb (bp_plan_hash progress) (cp_plan_hash p)))
        (Serialization "published bootstrap checkpoint identity mismatch")
  end.

Definition validate_pointer_predecessor (p : StandingRuntimeCheckpointPointer) : checked unit :=
  _ ← fail_if (negb (Bool.eqb (String.eqb (cp_previous_checkpoint_key p) "") (String.eqb (cp_previous_manifest_hash p) "")))
    (Serialization "standing runtime checkpoint has a partial predecessor commitment");
  _ ← fail_if (negb (String.eqb (cp_previous_manifest_hash p) "") && negb (starts_with "sha256:" (cp_previous_manifest_hash p)))
    (Serialization "standing runtime checkpoint predecessor manifest hash is invalid");
  if String.eqb (cp_previous_checkpoint_key p) "" then Ok tt
  else
    '(_, parts) ← unreadable (parse_standing_runtime_checkpoint (cp_previous_checkpoint_key p));
    fail_if (negb (String.eqb (sc_tenant_id parts) (cp_tenant_id p)) ||
        negb (String.eqb (sc_program_id parts) (cp_program_id p)) ||
        negb (String.eqb (sc_view_id parts) (cp_view_id p)) ||
        (cp_logical_epoch p <=? sc_logical_epoch parts))
      (Serialization "standing runtime checkpoint predecessor scope or epoch mismatch").

Section coverage.
Context `{Sha256, SerdeJson}.

Definition validate_pointer_coverage (p : StandingRuntimeCheckpointPointer) : checked unit :=
  match cp_input_coverage p with
  | Some coverage =>
      let mismatch := Serialization "standing runtime checkpoint coverage commitment mismatch" in
      if (cp_bootstrap_generation p =? 0) || negb (cp_bootstrap_generation p =? cov_view_generation coverage) ||
         negb (String.eqb (cp_plan_hash p) (cov_plan_hash coverage))
      then Err mismatch
      else
        hash ← unreadable (stable_hash coverage);
        fail_if (negb (String.eqb (cp_coverage_hash p) hash)) mismatch
  | None =>
      fail_if (negb (String.eqb (cp_coverage_hash p) "") ||
          (bool_decide (cp_published_input_bootstrap p = None) &&
           (negb (Bool.eqb (cp_bootstrap_generation p =? 0) (String.eqb (cp_plan_hash p) "")) ||
            (negb (cp_bootstrap_generation p =? 0) && String.eqb (cp_previous_checkpoint_key p) ""))))
        (Serialization "standing runtime checkpoint has partial coverage commitment")
  end.
End coverage.

Definition check_output_ref (p : StandingRuntimeCheckpointPointer) (seen : list string) (ref : string) : checked (list string) :=
  _ ← require_non_empty "output_manifest_refs" ref;
  _ ← fail_if (bool_decide (ref ∈ seen)) (Serialization "duplicate standing runtime output manifest ref");
  let delta_key :=
    match strip_prefix STANDING_RUNTIME_OUTPUT_DELTA_REF_PREFIX ref with
    | Some key => Some key
    | None => strip_prefix STANDING_RUNTIME_OUTPUT_COMMIT_REF_PREFIX ref
    end in
  match strip_prefix STANDING_RUNTIME_OUTPUT_MANIFEST_REF_PREFIX ref with
  | Some key =>
      '(_, parts) ← unreadable (parse_standing_runtime_output_manifest key);
      _ ← fail_if (negb (String.eqb (so_tenant_id parts) (cp_tenant_id p)) ||
          negb (String.eqb (so_program_id parts) (cp_program_id p)) ||
          negb (String.eqb (so_view_id parts) (cp_view_id p)) ||
          negb (so_logical_epoch parts =? cp_logical_epoch p))
        (Serialization "standing runtime output manifest ref scope mismatch");
      Ok (ref :: seen)
  | None =>
      match delta_key with
      | Some key =>
          '(_, parts) ← unreadable (parse_standing_runtime_output_delta key);
          _ ← fail_if (negb (String.eqb (sd_tenant_id parts) (cp_tenant_id p)) ||
              negb (String.eqb (sd_program_id parts) (cp_program_id p)) ||
              negb (String.eqb (sd_view_id parts) (cp_view_id p)) ||
              negb (sd_logical_epoch parts =? cp_logical_epoch p))
            (Serialization "standing runtime output delta ref scope mismatch");
          Ok (ref :: seen)
      | None => Err (Serialization "standing runtime output ref uses unsupported prefix")
      end
  end.

Section checkpoints.
Context `{Sha256, SerdeJson}.

(** [StandingRuntimeCheckpointPointer::validate]. *)
Definition validate_pointer (p : StandingRuntimeCheckpointPointer) : checked unit :=
  _ ← validate_pointer_progress p;
  _ ← validate_standing_runtime_scope (cp_tenant_id p) (cp_program_id p) (cp_view_id p);
  _ ← require_non_empty "checkpoint_key" (cp_checkpoint_key p);
  _ ← require_non_empty "content_hash" (cp_content_hash p);
  _ ← require_non_empty "manifest_hash" (cp_manifest_hash p);
  _ ← validate_pointer_predecessor p;
  _ ← validate_pointer_coverage p;
  '(_, parts) ← unreadable (parse_standing_runtime_checkpoint (cp_checkpoint_key p));
  _ ← fail_if (negb (String.eqb (sc_tenant_id parts) (cp_tenant_id p)) ||
      negb (String.eqb (sc_program_id parts) (cp_program_id p)) ||
      negb (String.eqb (sc_view_id parts) (cp_view_id p)) ||
      negb (sc_logical_epoch parts =? cp_logical_epoch p) ||
      negb (String.eqb (sc_content_hash parts) (cp_content_hash p)))
    (Serialization "standing runtime checkpoint pointer key/body mismatch");
  _ ← try_fold (check_output_ref p) [] (cp_output_manifest_refs p);
  Ok tt.

(** The candidate against the pointer it is to replace. *)
Definition validate_succession (candidate expected : StandingRuntimeCheckpointPointer) : checked unit :=
  if bool_decide (candidate = expected) then Ok tt
  else
    _ ← fail_if (cp_logical_epoch candidate <=? cp_logical_epoch expected)
      (NonMonotonicCheckpointEpoch (cp_logical_epoch expected) (cp_logical_epoch candidate));
    _ ← fail_if (negb (String.eqb (cp_previous_checkpoint_key candidate) (cp_checkpoint_key expected)) ||
        negb (String.eqb (cp_previous_manifest_hash candidate) (cp_manifest_hash expected)))
      (Serialization "standing runtime checkpoint predecessor commitment mismatch");
    fail_if (negb (cp_bootstrap_generation expected =? 0) &&
        (negb (cp_bootstrap_generation candidate =? cp_bootstrap_generation expected) ||
         negb (String.eqb (cp_plan_hash candidate) (cp_plan_hash expected))))
      (Serialization "standing runtime checkpoint generation or plan changed within one pointer lineage").

Definition validate_publish_checkpoint (q : PublishStandingRuntimeCheckpointRequest) : checked unit :=
  let candidate := pk_candidate q in
  _ ← validate_pointer candidate;
  _ ← validate_owner_token (pk_owner q);
  _ ← fail_if (bool_decide (token_scope (pk_owner q) <> standing_runtime_checkpoint_scope_key candidate))
    StandingRuntimeCheckpointScopeMismatch;
  match pk_expected_previous q with
  | Some expected =>
      _ ← validate_pointer expected;
      _ ← fail_if (bool_decide (standing_runtime_checkpoint_scope_key expected <> standing_runtime_checkpoint_scope_key candidate))
        StandingRuntimeCheckpointScopeMismatch;
      validate_succession candidate expected
  | None =>
      fail_if (negb (String.eqb (cp_previous_checkpoint_key candidate) "") ||
          negb (String.eqb (cp_previous_manifest_hash candidate) ""))
        (Serialization "initial standing runtime checkpoint has a predecessor commitment")
  end.

Definition validate_promote (q : PromoteViewBootstrapRequest) : checked unit :=
  _ ← validate_activation_scope (pm_tenant_id q) (pm_program_id q) (pm_view_id q) (pm_bootstrap_generation q) (pm_plan_hash q);
  _ ← validate_owner_token (pm_owner q);
  validate_pointer (pm_checkpoint q).
End checkpoints.

Definition validate_fix_activation (q : FixViewBootstrapActivationCutRequest) : checked unit :=
  _ ← validate_activation_scope (fx_tenant_id q) (fx_program_id q) (fx_view_id q) (fx_bootstrap_generation q) (fx_plan_hash q);
  validate_owner_token (fx_owner q).

(** * Authorities of partitions *)

Definition validate_authority_key (k : PartitionAuthorityKey) : checked unit :=
  _ ← require_non_empty "namespace" (ak_namespace k);
  _ ← require_non_empty "view_id" (ak_view_id k);
  require_non_empty "stream_id" (ak_stream_id k).

Definition validate_authority_token (t : PartitionAuthorityToken) : checked unit :=
  _ ← validate_authority_key (at_key t);
  fail_if (String.eqb (at_owner_id t) "" || (at_owner_epoch t =? 0)) PartitionAuthorityInvalidToken.

Definition validate_relation_token (t : RelationPartitionAuthorityToken) : checked unit :=
  _ ← validate_relation_authority_key (rt_key t);
  fail_if (String.eqb (rt_owner_id t) "" || (rt_owner_epoch t =? 0)) PartitionAuthorityInvalidToken.

Definition validate_acquire_authority (q : AcquirePartitionAuthorityRequest) : checked unit :=
  _ ← validate_authority_key (aa_key q);
  _ ← require_non_empty "owner_id" (aa_owner_id q);
  _ ← fail_if (aa_ttl_ms q =? 0) (InvalidDuration "ttl_ms");
  match aa_current_token q with
  | None => Ok tt
  | Some token =>
      _ ← validate_authority_token token;
      _ ← fail_if (bool_decide (at_key token <> aa_key q)) PartitionAuthorityTokenScopeMismatch;
      fail_if (negb (String.eqb (at_owner_id token) (aa_owner_id q))) PartitionAuthorityInvalidToken
  end.

Definition validate_acquire_relation_authority (q : AcquireRelationPartitionAuthorityRequest) : checked unit :=
  _ ← validate_relation_authority_key (ar_key q);
  _ ← require_non_empty "owner_id" (ar_owner_id q);
  _ ← fail_if (ar_ttl_ms q =? 0) (InvalidDuration "ttl_ms");
  match ar_current_token q with
  | None => Ok tt
  | Some token =>
      _ ← validate_relation_token token;
      _ ← fail_if (bool_decide (rt_key token <> ar_key q)) PartitionAuthorityTokenScopeMismatch;
      fail_if (negb (String.eqb (rt_owner_id token) (ar_owner_id q))) PartitionAuthorityInvalidToken
  end.

(** The token is one of the partition of the reservation. *)
Definition check_authority_scope (t : PartitionAuthorityToken) (r : IngestRangeReservation) : checked unit :=
  fail_if (negb (String.eqb (ak_stream_id (at_key t)) (r_stream_id r)) || negb (ak_partition_id (at_key t) =? r_partition_id r))
    PartitionAuthorityTokenScopeMismatch.

Definition check_relation_scope (t : RelationPartitionAuthorityToken) (r : IngestRangeReservation) : checked unit :=
  fail_if (negb (String.eqb (rk_stream_id (rt_key t)) (r_stream_id r)) || negb (rk_partition_id (rt_key t) =? r_partition_id r) ||
      negb (String.eqb (rk_relation_id (rt_key t)) (r_relation_id r)))
    PartitionAuthorityTokenScopeMismatch.

Definition validate_reserve_authoritative (q : ReserveAuthoritativeIngestRangeRequest) : checked unit :=
  _ ← validate_reservation (ra_reservation q);
  _ ← validate_authority_token (ra_authority q);
  check_authority_scope (ra_authority q) (ra_reservation q).

Definition validate_reserve_relation (q : ReserveRelationAuthoritativeIngestRangeRequest) : checked unit :=
  _ ← validate_reservation (rr_reservation q);
  _ ← validate_relation_token (rr_authority q);
  check_relation_scope (rr_authority q) (rr_reservation q).

Definition validate_publish_reservation (q : PublishIngestReservationRequest) : checked unit :=
  _ ← validate_reservation (pr_reservation q);
  _ ← validate_authority_token (pr_authority q);
  _ ← require_non_empty "request_id" (pr_request_id q);
  _ ← require_non_empty "request_digest" (pr_request_digest q);
  _ ← require_non_empty "object_key" (pr_object_key q);
  _ ← require_non_empty "object_digest" (pr_object_digest q);
  check_authority_scope (pr_authority q) (pr_reservation q).

Definition validate_publish_relation (q : PublishRelationIngestReservationRequest) : checked unit :=
  _ ← validate_reservation (pl_reservation q);
  _ ← validate_relation_token (pl_authority q);
  _ ← require_non_empty "request_id" (pl_request_id q);
  _ ← require_non_empty "request_digest" (pl_request_digest q);
  _ ← require_non_empty "object_key" (pl_object_key q);
  _ ← require_non_empty "object_digest" (pl_object_digest q);
  check_relation_scope (pl_authority q) (pl_reservation q).

Definition validate_partition_pointer (p : PartitionCheckpointPointer) : checked unit :=
  _ ← validate_authority_key (pp_key p);
  require_non_empty "checkpoint_key" (pp_checkpoint_key p).

Definition validate_publish_pointer (q : PublishPartitionCheckpointPointerRequest) : checked unit :=
  _ ← validate_partition_pointer (pq_candidate q);
  _ ← validate_authority_token (pq_authority q);
  _ ← fail_if (bool_decide (at_key (pq_authority q) <> pp_key (pq_candidate q))) PartitionCheckpointScopeMismatch;
  match pq_expected_previous q with
  | None => Ok tt
  | Some expected =>
      _ ← validate_partition_pointer expected;
      fail_if (bool_decide (pp_key expected <> pp_key (pq_candidate q))) PartitionCheckpointScopeMismatch
  end.

Definition validate_current_partition_authority (current : option PartitionAuthorityToken)
    (authority : PartitionAuthorityToken) (now_unix_ms : Z) : checked unit :=
  match current with
  | None => Err PartitionAuthorityInvalidToken
  | Some current =>
      fail_if ((at_expires_at_unix_ms current <=? now_unix_ms) || bool_decide (current <> authority))
        PartitionAuthorityInvalidToken
  end.

Definition validate_current_relation_partition_authority (current : option RelationPartitionAuthorityToken)
    (authority : RelationPartitionAuthorityToken) (now_unix_ms : Z) : checked unit :=
  match current with
  | None => Err PartitionAuthorityInvalidToken
  | Some current =>
      fail_if ((rt_expires_at_unix_ms current <=? now_unix_ms) || bool_decide (current <> authority))
        PartitionAuthorityInvalidToken
  end.

(** * Active views *)

Section views.
Context `{MetaEnv}.

Definition validate_active_view_scope (s : ActiveViewRegistryScopeV1) : checked unit :=
  _ ← require_non_empty "authority_store_id" (vs_authority_store_id s);
  require_non_empty "namespace" (vs_namespace s).

Definition validate_active_view_record (record : ActiveMaterializedViewRecord) (expected_view_id : option string) : checked unit :=
  _ ← require_non_empty "view_id" (av_view_id record);
  _ ← require_non_empty "spec_hash" (av_spec_hash record);
  fail_if (match expected_view_id with Some expected => negb (String.eqb expected (av_view_id record)) | None => false end)
    ActiveViewRecordIdentityMismatch.

Definition check_view_id (ids : list string) (record : ActiveMaterializedViewRecord) : checked (list string) :=
  _ ← validate_active_view_record record None;
  _ ← fail_if (bool_decide (av_view_id record ∈ ids)) (DuplicateActiveViewId (av_view_id record));
  Ok (av_view_id record :: ids).

Definition validate_active_view_records (records : list ActiveMaterializedViewRecord) : checked unit :=
  _ ← try_fold check_view_id [] records;
  Ok tt.

(** [s.trim_matches(c)]. *)
Fixpoint trim_start_matches (c : Ascii.ascii) (s : string) : string :=
  match s with
  | String a rest => if Ascii.eqb a c then trim_start_matches c rest else s
  | "" => ""
  end.
Definition trim_matches (c : Ascii.ascii) (s : string) : string :=
  String.rev (trim_start_matches c (String.rev (trim_start_matches c s))).

(** The path a record is served under. *)
Definition api_path (version : ActiveViewRecordVersionV1) : option string :=
  trim_matches "/"%char <$> (av_api (vv_record version) ≫= api_url_path).

Definition check_api_path (paths : list string) (version : ActiveViewRecordVersionV1) : checked (list string) :=
  match api_path version with
  | None => Ok paths
  | Some path =>
      _ ← fail_if (bool_decide (path ∈ paths)) (DuplicateActiveViewApiPath path);
      Ok (path :: paths)
  end.

Definition validate_active_view_registry (registry : ActiveViewRegistryStateV1) : checked unit :=
  let versions := (map_to_list (vg_records registry)).*2 in
  _ ← try_fold check_api_path [] versions;
  size ← ok_or (Serialization "active view registry snapshot")
    (snapshot_to_vec_len (RegistrySnapshot (vg_snapshot_revision registry) (vg_initialized registry) versions));
  fail_if (MAX_META_GRPC_MESSAGE_BYTES - 256 <? size) ActiveViewRegistryTooLarge.
End views.
