(* ===== verification/MetaStore.v ===== *)
(** The state of the metadata service and its operations, [InMemoryMetaStore] of
    [velorix-meta/src/lib.rs].

    The state is under one lock, so an operation is a function of it. The fields of
    [InMemoryMetaState] that are hash maps are finite maps; where the source
    goes through the values of one, the order is that of [map_to_list]. An
    operation that reads the time takes the reading as [clock], which fails as
    [unix_time_ms] can; authorities of partitions expire by the logical tick of the
    state. *)
From S2P Require Import Prelude BTree Json Digits Segments ObjectKey Hash Serde JsonText Relation StandingProgram MetaTypes SourceCut ViewBootstrap MetaRequests.

(** * State *)

Record InMemoryMetaState `{ViewBindings} := MetaState {
  relation_catalogs : gmap (string * string) VelorixRelationCatalogV1;
  ingest_reservations : gmap (string * Z) (list IngestRangeReservation);
  legacy_batch_keys : gmap string IngestRangeReservation;
  authoritative_ingest_reservation_keys : gmap IngestRangeReservation PartitionAuthorityKey;
  committed_ingest_batch_keys : gset string;
  authoritative_ingest_publications : gmap string AuthoritativeIngestPublication;
  ingest_catalog_epoch : Z;
  view_bootstraps : gmap scope ViewBootstrapControlV1;
  active_view_registries : gmap ActiveViewRegistryScopeV1 ActiveViewRegistryStateV1;
  view_dependency_graph_revisions : gmap string Z;
  standing_runtime_owners : gmap scope StandingRuntimeOwnerClaim;
  standing_runtime_checkpoints : gmap scope StandingRuntimeCheckpointPointer;
  partition_authority_now_unix_ms : Z;
  partition_authorities : gmap PartitionAuthorityKey PartitionAuthorityToken;
  partition_checkpoint_pointers : gmap PartitionAuthorityKey PartitionCheckpointPointer;
  relation_partition_authorities : gmap RelationPartitionAuthorityKey RelationPartitionAuthorityToken;
  relation_ingest_reservations : gmap (string * Z) (list IngestRangeReservation);
  relation_authority_reservation_keys : gmap IngestRangeReservation RelationPartitionAuthorityKey;
  relation_batch_keys : gmap string IngestRangeReservation;
  relation_authoritative_ingest_publications : gmap string RelationAuthoritativeIngestPublication;
  relation_reservation_publications : gmap IngestRangeReservation string
}.

Arguments MetaState {_}.

(** [InMemoryMetaState::default()]. *)
Definition default_state `{ViewBindings} : InMemoryMetaState :=
  MetaState ∅ ∅ ∅ ∅ ∅ ∅ 0 ∅ ∅ ∅ ∅ ∅ 0 ∅ ∅ ∅ ∅ ∅ ∅ ∅ ∅.

(** The state with one field replaced. *)
Definition with_relation_catalogs `{ViewBindings} (v : gmap (string * string) VelorixRelationCatalogV1) (s : InMemoryMetaState) : InMemoryMetaState :=
  MetaState v (ingest_reservations s) (legacy_batch_keys s) (authoritative_ingest_reservation_keys s)
    (committed_ingest_batch_keys s) (authoritative_ingest_publications s) (ingest_catalog_epoch s) (view_bootstraps s)
    (active_view_registries s) (view_dependency_graph_revisions s) (standing_runtime_owners s)
    (standing_runtime_checkpoints s) (partition_authority_now_unix_ms s) (partition_authorities s)
    (partition_checkpoint_pointers s) (relation_partition_authorities s) (relation_ingest_reservations s)
    (relation_authority_reservation_keys s) (relation_batch_keys s) (relation_authoritative_ingest_publications s)
    (relation_reservation_publications s).
Definition with_ingest_reservations `{ViewBindings} (v : gmap (string * Z) (list IngestRangeReservation)) (s : InMemoryMetaState) : InMemoryMetaState :=
  MetaState (relation_catalogs s) v (legacy_batch_keys s) (authoritative_ingest_reservation_keys s)
    (committed_ingest_batch_keys s) (authoritative_ingest_publications s) (ingest_catalog_epoch s) (view_bootstraps s)
    (active_view_registries s) (view_dependency_graph_revisions s) (standing_runtime_owners s)
    (standing_runtime_checkpoints s) (partition_authority_now_unix_ms s) (partition_authorities s)
    (partition_checkpoint_pointers s) (relation_partition_authorities s) (relation_ingest_reservations s)
    (relation_authority_reservation_keys s) (relation_batch_keys s) (relation_authoritative_ingest_publications s)
    (relation_reservation_publications s).
Definition with_legacy_batch_keys `{ViewBindings} (v : gmap string IngestRangeReservation) (s : InMemoryMetaState) : InMemoryMetaState :=
  MetaState (relation_catalogs s) (ingest_reservations s) v (authoritative_ingest_reservation_keys s)
    (committed_ingest_batch_keys s) (authoritative_ingest_publications s) (ingest_catalog_epoch s) (view_bootstraps s)
    (active_view_registries s) (view_dependency_graph_revisions s) (standing_runtime_owners s)
    (standing_runtime_checkpoints s) (partition_authority_now_unix_ms s) (partition_authorities s)
    (partition_checkpoint_pointers s) (relation_partition_authorities s) (relation_ingest_reservations s)
    (relation_authority_reservation_keys s) (relation_batch_keys s) (relation_authoritative_ingest_publications s)
    (relation_reservation_publications s).
Definition with_authoritative_ingest_reservation_keys `{ViewBindings} (v : gmap IngestRangeReservation PartitionAuthorityKey) (s : InMemoryMetaState) : InMemoryMetaState :=
  MetaState (relation_catalogs s) (ingest_reservations s) (legacy_batch_keys s) v (committed_ingest_batch_keys s)
    (authoritative_ingest_publications s) (ingest_catalog_epoch s) (view_bootstraps s) (active_view_registries s)
    (view_dependency_graph_revisions s) (standing_runtime_owners s) (standing_runtime_checkpoints s)
    (partition_authority_now_unix_ms s) (partition_authorities s) (partition_checkpoint_pointers s)
    (relation_partition_authorities s) (relation_ingest_reservations s) (relation_authority_reservation_keys s)
    (relation_batch_keys s) (relation_authoritative_ingest_publications s) (relation_reservation_publications s).
Definition with_committed_ingest_batch_keys `{ViewBindings} (v : gset string) (s : InMemoryMetaState) : InMemoryMetaState :=
  MetaState (relation_catalogs s) (ingest_reservations s) (legacy_batch_keys s)
    (authoritative_ingest_reservation_keys s) v (authoritative_ingest_publications s) (ingest_catalog_epoch s)
    (view_bootstraps s) (active_view_registries s) (view_dependency_graph_revisions s) (standing_runtime_owners s)
    (standing_runtime_checkpoints s) (partition_authority_now_unix_ms s) (partition_authorities s)
    (partition_checkpoint_pointers s) (relation_partition_authorities s) (relation_ingest_reservations s)
    (relation_authority_reservation_keys s) (relation_batch_keys s) (relation_authoritative_ingest_publications s)
    (relation_reservation_publications s).
Definition with_authoritative_ingest_publications `{ViewBindings} (v : gmap string AuthoritativeIngestPublication) (s : InMemoryMetaState) : InMemoryMetaState :=
  MetaState (relation_catalogs s) (ingest_reservations s) (legacy_batch_keys s)
    (authoritative_ingest_reservation_keys s) (committed_ingest_batch_keys s) v (ingest_catalog_epoch s)
    (view_bootstraps s) (active_view_registries s) (view_dependency_graph_revisions s) (standing_runtime_owners s)
    (standing_runtime_checkpoints s) (partition_authority_now_unix_ms s) (partition_authorities s)
    (partition_checkpoint_pointers s) (relation_partition_authorities s) (relation_ingest_reservations s)
    (relation_authority_reservation_keys s) (relation_batch_keys s) (relation_authoritative_ingest_publications s)
    (relation_reservation_publications s).
Definition with_ingest_catalog_epoch `{ViewBindings} (v : Z) (s : InMemoryMetaState) : InMemoryMetaState :=
  MetaState (relation_catalogs s) (ingest_reservations s) (legacy_batch_keys s)
    (authoritative_ingest_reservation_keys s) (committed_ingest_batch_keys s) (authoritative_ingest_publications s) v
    (view_bootstraps s) (active_view_registries s) (view_dependency_graph_revisions s) (standing_runtime_owners s)
    (standing_runtime_checkpoints s) (partition_authority_now_unix_ms s) (partition_authorities s)
    (partition_checkpoint_pointers s) (relation_partition_authorities s) (relation_ingest_reservations s)
    (relation_authority_reservation_keys s) (relation_batch_keys s) (relation_authoritative_ingest_publications s)
    (relation_reservation_publications s).
Definition with_view_bootstraps `{ViewBindings} (v : gmap scope ViewBootstrapControlV1) (s : InMemoryMetaState) : InMemoryMetaState :=
  MetaState (relation_catalogs s) (ingest_reservations s) (legacy_batch_keys s)
    (authoritative_ingest_reservation_keys s) (committed_ingest_batch_keys s) (authoritative_ingest_publications s)
    (ingest_catalog_epoch s) v (active_view_registries s) (view_dependency_graph_revisions s)
    (standing_runtime_owners s) (standing_runtime_checkpoints s) (partition_authority_now_unix_ms s)
    (partition_authorities s) (partition_checkpoint_pointers s) (relation_partition_authorities s)
    (relation_ingest_reservations s) (relation_authority_reservation_keys s) (relation_batch_keys s)
    (relation_authoritative_ingest_publications s) (relation_reservation_publications s).
Definition with_active_view_registries `{ViewBindings} (v : gmap ActiveViewRegistryScopeV1 ActiveViewRegistryStateV1) (s : InMemoryMetaState) : InMemoryMetaState :=
  MetaState (relation_catalogs s) (ingest_reservations s) (legacy_batch_keys s)
    (authoritative_ingest_reservation_keys s) (committed_ingest_batch_keys s) (authoritative_ingest_publications s)
    (ingest_catalog_epoch s) (view_bootstraps s) v (view_dependency_graph_revisions s) (standing_runtime_owners s)
    (standing_runtime_checkpoints s) (partition_authority_now_unix_ms s) (partition_authorities s)
    (partition_checkpoint_pointers s) (relation_partition_authorities s) (relation_ingest_reservations s)
    (relation_authority_reservation_keys s) (relation_batch_keys s) (relation_authoritative_ingest_publications s)
    (relation_reservation_publications s).
Definition with_view_dependency_graph_revisions `{ViewBindings} (v : gmap string Z) (s : InMemoryMetaState) : InMemoryMetaState :=
  MetaState (relation_catalogs s) (ingest_reservations s) (legacy_batch_keys s)
    (authoritative_ingest_reservation_keys s) (committed_ingest_batch_keys s) (authoritative_ingest_publications s)
    (ingest_catalog_epoch s) (view_bootstraps s) (active_view_registries s) v (standing_runtime_owners s)
    (standing_runtime_checkpoints s) (partition_authority_now_unix_ms s) (partition_authorities s)
    (partition_checkpoint_pointers s) (relation_partition_authorities s) (relation_ingest_reservations s)
    (relation_authority_reservation_keys s) (relation_batch_keys s) (relation_authoritative_ingest_publications s)
    (relation_reservation_publications s).
Definition with_standing_runtime_owners `{ViewBindings} (v : gmap scope StandingRuntimeOwnerClaim) (s : InMemoryMetaState) : InMemoryMetaState :=
  MetaState (relation_catalogs s) (ingest_reservations s) (legacy_batch_keys s)
    (authoritative_ingest_reservation_keys s) (committed_ingest_batch_keys s) (authoritative_ingest_publications s)
    (ingest_catalog_epoch s) (view_bootstraps s) (active_view_registries s) (view_dependency_graph_revisions s) v
    (standing_runtime_checkpoints s) (partition_authority_now_unix_ms s) (partition_authorities s)
    (partition_checkpoint_pointers s) (relation_partition_authorities s) (relation_ingest_reservations s)
    (relation_authority_reservation_keys s) (relation_batch_keys s) (relation_authoritative_ingest_publications s)
    (relation_reservation_publications s).
Definition with_standing_runtime_checkpoints `{ViewBindings} (v : gmap scope StandingRuntimeCheckpointPointer) (s : InMemoryMetaState) : InMemoryMetaState :=
  MetaState (relation_catalogs s) (ingest_reservations s) (legacy_batch_keys s)
    (authoritative_ingest_reservation_keys s) (committed_ingest_batch_keys s) (authoritative_ingest_publications s)
    (ingest_catalog_epoch s) (view_bootstraps s) (active_view_registries s) (view_dependency_graph_revisions s)
    (standing_runtime_owners s) v (partition_authority_now_unix_ms s) (partition_authorities s)
    (partition_checkpoint_pointers s) (relation_partition_authorities s) (relation_ingest_reservations s)
    (relation_authority_reservation_keys s) (relation_batch_keys s) (relation_authoritative_ingest_publications s)
    (relation_reservation_publications s).
Definition with_partition_authority_now_unix_ms `{ViewBindings} (v : Z) (s : InMemoryMetaState) : InMemoryMetaState :=
  MetaState (relation_catalogs s) (ingest_reservations s) (legacy_batch_keys s)
    (authoritative_ingest_reservation_keys s) (committed_ingest_batch_keys s) (authoritative_ingest_publications s)
    (ingest_catalog_epoch s) (view_bootstraps s) (active_view_registries s) (view_dependency_graph_revisions s)
    (standing_runtime_owners s) (standing_runtime_checkpoints s) v (partition_authorities s)
    (partition_checkpoint_pointers s) (relation_partition_authorities s) (relation_ingest_reservations s)
    (relation_authority_reservation_keys s) (relation_batch_keys s) (relation_authoritative_ingest_publications s)
    (relation_reservation_publications s).
Definition with_partition_authorities `{ViewBindings} (v : gmap PartitionAuthorityKey PartitionAuthorityToken) (s : InMemoryMetaState) : InMemoryMetaState :=
  MetaState (relation_catalogs s) (ingest_reservations s) (legacy_batch_keys s)
    (authoritative_ingest_reservation_keys s) (committed_ingest_batch_keys s) (authoritative_ingest_publications s)
    (ingest_catalog_epoch s) (view_bootstraps s) (active_view_registries s) (view_dependency_graph_revisions s)
    (standing_runtime_owners s) (standing_runtime_checkpoints s) (partition_authority_now_unix_ms s) v
    (partition_checkpoint_pointers s) (relation_partition_authorities s) (relation_ingest_reservations s)
    (relation_authority_reservation_keys s) (relation_batch_keys s) (relation_authoritative_ingest_publications s)
    (relation_reservation_publications s).
Definition with_partition_checkpoint_pointers `{ViewBindings} (v : gmap PartitionAuthorityKey PartitionCheckpointPointer) (s : InMemoryMetaState) : InMemoryMetaState :=
  MetaState (relation_catalogs s) (ingest_reservations s) (legacy_batch_keys s)
    (authoritative_ingest_reservation_keys s) (committed_ingest_batch_keys s) (authoritative_ingest_publications s)
    (ingest_catalog_epoch s) (view_bootstraps s) (active_view_registries s) (view_dependency_graph_revisions s)
    (standing_runtime_owners s) (standing_runtime_checkpoints s) (partition_authority_now_unix_ms s)
    (partition_authorities s) v (relation_partition_authorities s) (relation_ingest_reservations s)
    (relation_authority_reservation_keys s) (relation_batch_keys s) (relation_authoritative_ingest_publications s)
    (relation_reservation_publications s).
Definition with_relation_partition_authorities `{ViewBindings} (v : gmap RelationPartitionAuthorityKey RelationPartitionAuthorityToken) (s : InMemoryMetaState) : InMemoryMetaState :=
  MetaState (relation_catalogs s) (ingest_reservations s) (legacy_batch_keys s)
    (authoritative_ingest_reservation_keys s) (committed_ingest_batch_keys s) (authoritative_ingest_publications s)
    (ingest_catalog_epoch s) (view_bootstraps s) (active_view_registries s) (view_dependency_graph_revisions s)
    (standing_runtime_owners s) (standing_runtime_checkpoints s) (partition_authority_now_unix_ms s)
    (partition_authorities s) (partition_checkpoint_pointers s) v (relation_ingest_reservations s)
    (relation_authority_reservation_keys s) (relation_batch_keys s) (relation_authoritative_ingest_publications s)
    (relation_reservation_publications s).
Definition with_relation_ingest_reservations `{ViewBindings} (v : gmap (string * Z) (list IngestRangeReservation)) (s : InMemoryMetaState) : InMemoryMetaState :=
  MetaState (relation_catalogs s) (ingest_reservations s) (legacy_batch_keys s)
    (authoritative_ingest_reservation_keys s) (committed_ingest_batch_keys s) (authoritative_ingest_publications s)
    (ingest_catalog_epoch s) (view_bootstraps s) (active_view_registries s) (view_dependency_graph_revisions s)
    (standing_runtime_owners s) (standing_runtime_checkpoints s) (partition_authority_now_unix_ms s)
    (partition_authorities s) (partition_checkpoint_pointers s) (relation_partition_authorities s) v
    (relation_authority_reservation_keys s) (relation_batch_keys s) (relation_authoritative_ingest_publications s)
    (relation_reservation_publications s).
Definition with_relation_authority_reservation_keys `{ViewBindings} (v : gmap IngestRangeReservation RelationPartitionAuthorityKey) (s : InMemoryMetaState) : InMemoryMetaState :=
  MetaState (relation_catalogs s) (ingest_reservations s) (legacy_batch_keys s)
    (authoritative_ingest_reservation_keys s) (committed_ingest_batch_keys s) (authoritative_ingest_publications s)
    (ingest_catalog_epoch s) (view_bootstraps s) (active_view_registries s) (view_dependency_graph_revisions s)
    (standing_runtime_owners s) (standing_runtime_checkpoints s) (partition_authority_now_unix_ms s)
    (partition_authorities s) (partition_checkpoint_pointers s) (relation_partition_authorities s)
    (relation_ingest_reservations s) v (relation_batch_keys s) (relation_authoritative_ingest_publications s)
    (relation_reservation_publications s).
Definition with_relation_batch_keys `{ViewBindings} (v : gmap string IngestRangeReservation) (s : InMemoryMetaState) : InMemoryMetaState :=
  MetaState (relation_catalogs s) (ingest_reservations s) (legacy_batch_keys s)
    (authoritative_ingest_reservation_keys s) (committed_ingest_batch_keys s) (authoritative_ingest_publications s)
    (ingest_catalog_epoch s) (view_bootstraps s) (active_view_registries s) (view_dependency_graph_revisions s)
    (standing_runtime_owners s) (standing_runtime_checkpoints s) (partition_authority_now_unix_ms s)
    (partition_authorities s) (partition_checkpoint_pointers s) (relation_partition_authorities s)
    (relation_ingest_reservations s) (relation_authority_reservation_keys s) v
    (relation_authoritative_ingest_publications s) (relation_reservation_publications s).
Definition with_relation_authoritative_ingest_publications `{ViewBindings} (v : gmap string RelationAuthoritativeIngestPublication) (s : InMemoryMetaState) : InMemoryMetaState :=
  MetaState (relation_catalogs s) (ingest_reservations s) (legacy_batch_keys s)
    (authoritative_ingest_reservation_keys s) (committed_ingest_batch_keys s) (authoritative_ingest_publications s)
    (ingest_catalog_epoch s) (view_bootstraps s) (active_view_registries s) (view_dependency_graph_revisions s)
    (standing_runtime_owners s) (standing_runtime_checkpoints s) (partition_authority_now_unix_ms s)
    (partition_authorities s) (partition_checkpoint_pointers s) (relation_partition_authorities s)
    (relation_ingest_reservations s) (relation_authority_reservation_keys s) (relation_batch_keys s) v
    (relation_reservation_publications s).
Definition with_relation_reservation_publications `{ViewBindings} (v : gmap IngestRangeReservation string) (s : InMemoryMetaState) : InMemoryMetaState :=
  MetaState (relation_catalogs s) (ingest_reservations s) (legacy_batch_keys s)
    (authoritative_ingest_reservation_keys s) (committed_ingest_batch_keys s) (authoritative_ingest_publications s)
    (ingest_catalog_epoch s) (view_bootstraps s) (active_view_registries s) (view_dependency_graph_revisions s)
    (standing_runtime_owners s) (standing_runtime_checkpoints s) (partition_authority_now_unix_ms s)
    (partition_authorities s) (partition_checkpoint_pointers s) (relation_partition_authorities s)
    (relation_ingest_reservations s) (relation_authority_reservation_keys s) (relation_batch_keys s)
    (relation_authoritative_ingest_publications s) v.

(** * Operations *)

(** An operation on the state; what it changed before it failed stays changed. *)
Definition meta `{ViewBindings} (A : Type) : Type := InMemoryMetaState -> checked A * InMemoryMetaState.

Section meta_monad.
Context `{ViewBindings}.

#[global] Instance meta_ret : MRet meta := fun A a s => (Ok a, s).
#[global] Instance meta_bind : MBind meta := fun A B f m s =>
  match m s with
  | (Ok a, s) => f a s
  | (Err e, s) => (Err e, s)
  end.

(** [r?], the state, and an assignment to it. *)
Definition lift {A} (r : checked A) : meta A := fun s => (r, s).
Definition state : meta InMemoryMetaState := fun s => (Ok s, s).
Definition change (f : InMemoryMetaState -> InMemoryMetaState) : meta unit := fun s => (Ok tt, f s).
End meta_monad.

(** [a.checked_add(b).ok_or(error)?]. *)
Definition add_or (e : MetaStoreError) (a b : Z) : checked Z := ok_or e (checked_u64 (a + b)).

Section operations.
Context `{Sha256, SerdeJson, RelationCodec, MetaEnv}.
(** [evaluation_time_ms()]. *)
Variable clock : checked Z.

(** ** Relation catalogs *)

Definition relation_catalog_key (c : VelorixRelationCatalogV1) : string * string :=
  (rs_relation_id (relation_schema c), rs_relation_version (relation_schema c)).

Definition store_relation_catalog (catalog : VelorixRelationCatalogV1) : meta StoreRelationCatalogOutcome :=
  _ ← lift (map_err MetaRelationSchema (validate_supported_incremental_adapter_scope catalog));
  let key := relation_catalog_key catalog in
  s ← state;
  match relation_catalogs s !! key with
  | Some existing =>
      if bool_decide (existing = catalog) then mret CatalogStoreDuplicate
      else lift (Err (RelationCatalogConflict key.1 key.2))
  | None =>
      _ ← change (with_relation_catalogs (<[key := catalog]> (relation_catalogs s)));
      mret CatalogStored
  end.

Definition read_relation_catalog (relation_id relation_version : string) : meta VelorixRelationCatalogV1 :=
  _ ← lift (require_non_empty "relation_id" relation_id);
  _ ← lift (require_non_empty "relation_version" relation_version);
  s ← state;
  lift (ok_or (RelationCatalogNotFound relation_id relation_version) (relation_catalogs s !! (relation_id, relation_version))).

(** ** Active views *)

Definition default_registry : ActiveViewRegistryStateV1 := RegistryState false 0 ∅.

Definition read_active_view_registry_snapshot (q : ActiveViewRegistryScopeV1) : meta ActiveViewRegistrySnapshotV1 :=
  _ ← lift (validate_active_view_scope q);
  s ← state;
  match active_view_registries s !! q with
  | None => mret (RegistrySnapshot 0 false [])
  | Some registry =>
      _ ← lift (try_fold (fun _ '(view_id, version) => validate_active_view_record (vv_record version) (Some view_id)) tt
        (map_to_list (vg_records registry)));
      _ ← lift (validate_active_view_registry registry);
      mret (RegistrySnapshot (vg_snapshot_revision registry) (vg_initialized registry)
        (sort_on (fun version => av_view_id (vv_record version)) (map_to_list (vg_records registry)).*2))
  end.

(** What follows [validate_active_view_registry(&candidate)]: a repeated path is a
    conflict, another error an error. *)
Definition store_registry {A} (q : ActiveViewRegistryScopeV1) (candidate : ActiveViewRegistryStateV1) (conflict : A)
    (next : meta A) : meta A :=
  match validate_active_view_registry candidate with
  | Err (DuplicateActiveViewApiPath _) => mret conflict
  | Err e => lift (Err e)
  | Ok _ =>
      s ← state;
      _ ← change (with_active_view_registries (<[q := candidate]> (active_view_registries s)));
      next
  end.

Definition create_active_view_record (q : CreateActiveViewRecordRequestV1) : meta ActiveViewRecordOutcome :=
  _ ← lift (validate_active_view_scope (vc_scope q));
  _ ← lift (validate_active_view_record (vc_record q) None);
  s ← state;
  let candidate := default default_registry (active_view_registries s !! vc_scope q) in
  match vg_records candidate !! av_view_id (vc_record q) with
  | Some existing =>
      mret (if bool_decide (vv_record existing = vc_record q) then RecordDuplicate existing else RecordConflict)
  | None =>
      let version := RecordVersion 1 (vc_record q) in
      revision ← lift (add_or TimestampOverflow (vg_snapshot_revision candidate) 1);
      store_registry (vc_scope q)
        (RegistryState true revision (<[av_view_id (vc_record q) := version]> (vg_records candidate)))
        RecordConflict (mret (RecordWritten version))
  end.

(** Changing the lifecycle of a standing runtime needs its owner. *)
Definition check_lifecycle_owner (q : CompareExchangeActiveViewRecordRequestV1) (existing : ActiveViewRecordVersionV1) : meta unit :=
  let record := vv_record existing in
  if (bool_decide (is_Some (av_runtime record)) || bool_decide (av_execution_mode record = Some StandingRuntime)) &&
     bool_decide (av_lifecycle record <> av_lifecycle (vx_record q))
  then
    owner ← lift (ok_or StandingRuntimeOwnerMismatch (vx_owner q));
    runtime ← lift (ok_or StandingRuntimeOwnerMismatch (av_runtime record));
    let identity := rb_standing_program_identity runtime in
    _ ← lift (fail_if (negb (String.eqb (ot_tenant_id owner) (si_tenant_id identity)) ||
        negb (String.eqb (ot_program_id owner) (si_program_id identity)) ||
        negb (String.eqb (ot_view_id owner) (vx_view_id q)) ||
        negb (existsb (fun view_id => String.eqb view_id (vx_view_id q)) (si_view_ids identity)))
      StandingRuntimeOwnerMismatch);
    s ← state;
    now ← lift clock;
    lift (validate_current_standing_runtime_owner
      (standing_runtime_owners s !! (si_tenant_id identity, si_program_id identity, vx_view_id q)) owner now)
  else mret tt.

Definition compare_exchange_active_view_record (q : CompareExchangeActiveViewRecordRequestV1) : meta ActiveViewRecordOutcome :=
  _ ← lift (validate_active_view_scope (vx_scope q));
  _ ← lift (validate_active_view_record (vx_record q) (Some (vx_view_id q)));
  s ← state;
  match active_view_registries s !! vx_scope q with
  | None => mret RecordConflict
  | Some current =>
      match vg_records current !! vx_view_id q with
      | None => mret RecordConflict
      | Some existing =>
          if bool_decide (vv_record existing = vx_record q) then mret (RecordDuplicate existing)
          else if negb (vv_generation existing =? vx_expected_generation q) then mret RecordConflict
          else
            _ ← check_lifecycle_owner q existing;
            generation ← lift (add_or TimestampOverflow (vv_generation existing) 1);
            let version := RecordVersion generation (vx_record q) in
            revision ← lift (add_or TimestampOverflow (vg_snapshot_revision current) 1);
            store_registry (vx_scope q)
              (RegistryState (vg_initialized current) revision (<[vx_view_id q := version]> (vg_records current)))
              RecordConflict (mret (RecordWritten version))
      end
  end.

Definition import_active_view_registry (q : ImportActiveViewRegistryRequestV1) : meta ImportActiveViewRegistryOutcomeV1 :=
  _ ← lift (validate_active_view_scope (vi_scope q));
  _ ← lift (validate_active_view_records (vi_records q));
  s ← state;
  match active_view_registries s !! vi_scope q with
  | Some existing =>
      let same :=
        vg_initialized existing && (size (vg_records existing) =? length (vi_records q))%nat &&
        forallb (fun record =>
          match vg_records existing !! av_view_id record with
          | Some entry => (vv_generation entry =? 1) && bool_decide (vv_record entry = record)
          | None => false
          end) (vi_records q) in
      mret (if same then ImportDuplicate else ImportConflict)
  | None =>
      let records : gmap string ActiveViewRecordVersionV1 :=
        fold_left (fun m record => <[av_view_id record := RecordVersion 1 record]> m) (vi_records q) ∅ in
      let candidate := RegistryState true 1 records in
      _ ← lift (validate_active_view_registry candidate);
      _ ← change (with_active_view_registries (<[vi_scope q := candidate]> (active_view_registries s)));
      mret Imported
  end.

(** ** Ingest ranges *)

Definition reserved_in (m : gmap (string * Z) (list IngestRangeReservation)) (r : IngestRangeReservation) :
    list IngestRangeReservation :=
  default [] (m !! (r_stream_id r, r_partition_id r)).

(** [reservations.push(r); reservations.sort_by_key(|entry| entry.start_offset_inclusive)]. *)
Definition push_sorted (r : IngestRangeReservation) (m : gmap (string * Z) (list IngestRangeReservation)) :
    gmap (string * Z) (list IngestRangeReservation) :=
  <[(r_stream_id r, r_partition_id r) := sort_on r_start_offset_inclusive (reserved_in m r ++ [r])]> m.

Definition below_base (r : IngestRangeReservation) (cut : IngestSourceCutV1) : bool :=
  existsb (fun relation =>
    String.eqb (i_relation_id (sr_relation relation)) (r_relation_id r) &&
    String.eqb (i_relation_version (sr_relation relation)) (r_relation_version r) &&
    String.eqb (i_schema_fingerprint (sr_relation relation)) (r_schema_fingerprint r) &&
    existsb (fun partition =>
      String.eqb (sp_stream_id partition) (r_stream_id r) && (sp_partition_id partition =? r_partition_id r) &&
      (r_start_offset_inclusive r <? sp_base_offset_inclusive partition)) (sr_partitions relation))
    (cut_relations cut).

Definition below_sealed_base (s : InMemoryMetaState) (r : IngestRangeReservation) : bool :=
  existsb (fun control => below_base r (vw_bootstrap_cut control)) (map_to_list (view_bootstraps s)).*2.

Definition reserve_ingest_range (r : IngestRangeReservation) : meta ReserveIngestRangeOutcome :=
  _ ← lift (validate_reservation r);
  s ← state;
  if below_sealed_base s r then mret RangeConflict
  else if bool_decide (r ∈ reserved_in (ingest_reservations s) r) then mret RangeDuplicate
  else if existsb (fun existing => overlaps existing r) (reserved_in (ingest_reservations s) r) then mret RangeConflict
  else
    _ ← change (with_legacy_batch_keys (<[r_batch_key r := r]> (legacy_batch_keys s)));
    _ ← change (with_ingest_reservations (push_sorted r (ingest_reservations s)));
    epoch ← lift (add_or TimestampOverflow (ingest_catalog_epoch s) 1);
    _ ← change (with_ingest_catalog_epoch epoch);
    mret RangeReserved.

Definition commit_ingest_range (r : IngestRangeReservation) : meta CommitIngestRangeOutcome :=
  _ ← lift (validate_reservation r);
  s ← state;
  if negb (bool_decide (r ∈ reserved_in (ingest_reservations s) r)) then mret CommitConflict
  else if bool_decide (r_batch_key r ∈ committed_ingest_batch_keys s) then mret CommitDuplicate
  else
    _ ← change (with_committed_ingest_batch_keys ({[r_batch_key r]} ∪ committed_ingest_batch_keys s));
    mret RangeCommitted.

Definition reserve_authoritative_ingest_range (q : ReserveAuthoritativeIngestRangeRequest) : meta ReserveIngestRangeOutcome :=
  let r := ra_reservation q in
  let key := at_key (ra_authority q) in
  _ ← lift (validate_reserve_authoritative q);
  s ← state;
  if negb (is_ok (validate_current_partition_authority (partition_authorities s !! key) (ra_authority q)
      (partition_authority_now_unix_ms s))) then mret RangeConflict
  else if bool_decide (r ∈ reserved_in (ingest_reservations s) r) then
    mret (if bool_decide (authoritative_ingest_reservation_keys s !! r = Some key) then RangeDuplicate else RangeConflict)
  else if existsb (fun existing => overlaps existing r) (reserved_in (ingest_reservations s) r) then mret RangeConflict
  else
    _ ← change (with_legacy_batch_keys (<[r_batch_key r := r]> (legacy_batch_keys s)));
    _ ← change (with_ingest_reservations (push_sorted r (ingest_reservations s)));
    _ ← change (with_authoritative_ingest_reservation_keys (<[r := key]> (authoritative_ingest_reservation_keys s)));
    mret RangeReserved.

Definition publish_ingest_reservation (q : PublishIngestReservationRequest) : meta PublishIngestReservationOutcome :=
  let r := pr_reservation q in
  let key := at_key (pr_authority q) in
  _ ← lift (validate_publish_reservation q);
  s ← state;
  let replay := Publication r key (pr_request_id q) (pr_request_digest q) (pr_object_key q) (pr_object_digest q) in
  match authoritative_ingest_publications s !! pr_request_id q with
  | Some existing => mret (if bool_decide (existing = replay) then PublicationDuplicate else PublicationConflict)
  | None =>
      if negb (is_ok (validate_current_partition_authority (partition_authorities s !! key) (pr_authority q)
          (partition_authority_now_unix_ms s))) then mret InvalidAuthority
      else if bool_decide (authoritative_ingest_reservation_keys s !! r <> Some key) then mret PublicationConflict
      else if negb (bool_decide (r ∈ reserved_in (ingest_reservations s) r)) then mret PublicationConflict
      else if bool_decide (r_batch_key r ∈ committed_ingest_batch_keys s) then mret PublicationConflict
      else
        _ ← change (with_committed_ingest_batch_keys ({[r_batch_key r]} ∪ committed_ingest_batch_keys s));
        _ ← change (with_authoritative_ingest_publications
          (<[pr_request_id q := replay]> (authoritative_ingest_publications s)));
        mret PublicationCommitted
  end.

Definition read_authoritative_ingest_publication (request_id : string) : meta (option AuthoritativeIngestPublication) :=
  _ ← lift (require_non_empty "request_id" request_id);
  s ← state;
  mret (authoritative_ingest_publications s !! request_id).

Definition list_authoritative_ingest_publications (key : PartitionAuthorityKey) : meta (list AuthoritativeIngestPublication) :=
  _ ← lift (validate_authority_key key);
  s ← state;
  mret (filter (fun p => p_authority_key p = key) (map_to_list (authoritative_ingest_publications s)).*2).

(** The checks before a batch of ranges is committed: the outcome of all of them when
    the batch is turned down. *)
Fixpoint batch_refusal (s : InMemoryMetaState) (all rest : list IngestRangeReservation) : option CommitIngestRangeOutcome :=
  match rest with
  | [] => None
  | r :: rest =>
      if negb (bool_decide (r ∈ reserved_in (ingest_reservations s) r)) then Some CommitConflict
      else if negb (bool_decide (r_batch_key r ∈ committed_ingest_batch_keys s)) &&
          (1 <? length (filter (fun other => r_batch_key other = r_batch_key r) all))%nat
      then Some CommitDuplicate
      else batch_refusal s all rest
  end.

Fixpoint commit_batch (committed : gset string) (rest : list IngestRangeReservation) :
    gset string * list CommitIngestRangeOutcome :=
  match rest with
  | [] => (committed, [])
  | r :: rest =>
      let outcome := if bool_decide (r_batch_key r ∈ committed) then CommitDuplicate else RangeCommitted in
      let '(committed, outcomes) := commit_batch ({[r_batch_key r]} ∪ committed) rest in
      (committed, outcome :: outcomes)
  end.

Definition commit_ingest_ranges (reservations : list IngestRangeReservation) : meta (list CommitIngestRangeOutcome) :=
  _ ← lift (try_fold (fun _ r => validate_reservation r) tt reservations);
  s ← state;
  match batch_refusal s reservations reservations with
  | Some outcome => mret ((fun _ => outcome) <$> reservations)
  | None =>
      let '(committed, outcomes) := commit_batch (committed_ingest_batch_keys s) reservations in
      _ ← change (with_committed_ingest_batch_keys committed);
      mret outcomes
  end.

(** [guard.ingest_reservations.values().flatten()]. *)
Definition all_reservations (m : gmap (string * Z) (list IngestRangeReservation)) : list IngestRangeReservation :=
  concat (map_to_list m).*2.

Definition source_cut_of (s : InMemoryMetaState) (q : CaptureIngestSourceCutRequest) : checked IngestSourceCutV1 :=
  build_ingest_source_cut q (ingest_catalog_epoch s) (all_reservations (ingest_reservations s)) (committed_ingest_batch_keys s).

Definition capture_ingest_source_cut (q : CaptureIngestSourceCutRequest) : meta IngestSourceCutV1 :=
  _ ← lift (validate_capture_cut q);
  s ← state;
  lift (source_cut_of s q).

(** ** View bootstraps *)

Definition graph_revision (s : InMemoryMetaState) (tenant_id : string) : Z :=
  default 0 (view_dependency_graph_revisions s !! tenant_id).

(** [revision + 1] is not a checked addition. *)
Definition bump_graph (q : BeginViewBootstrapRequest) : meta bool :=
  s ← state;
  if bool_decide (vb_view_inputs q = []) then mret true
  else if negb (graph_revision s (vb_tenant_id q) =? vb_expected_graph_revision q) then mret false
  else
    _ ← change (with_view_dependency_graph_revisions
      (<[vb_tenant_id q := wrapping_add_u64 (graph_revision s (vb_tenant_id q)) 1]> (view_dependency_graph_revisions s)));
    mret true.

Definition begin_view_bootstrap (q : BeginViewBootstrapRequest) : meta ViewBootstrapOutcome :=
  _ ← lift (validate_begin_bootstrap q);
  let key := (vb_tenant_id q, vb_program_id q, vb_view_id q) in
  s ← state;
  match view_bootstraps s !! key with
  | Some existing => mret (if begin_matches q existing then BootstrapDuplicate existing else BootstrapConflict)
  | None =>
      admitted ← bump_graph q;
      if negb admitted then mret BootstrapConflict
      else
        cut ← lift (source_cut_of s (CaptureCut (vb_relations q)));
        let control := bootstrap_control q cut in
        _ ← change (with_view_bootstraps (<[key := control]> (view_bootstraps s)));
        mret (BootstrapDone control)
  end.

Definition read_view_dependency_graph_revision (tenant_id : string) : meta Z :=
  _ ← lift (require_non_empty "tenant_id" tenant_id);
  s ← state;
  mret (graph_revision s tenant_id).

Definition read_view_bootstrap (tenant_id program_id view_id : string) : meta (option ViewBootstrapControlV1) :=
  _ ← lift (validate_standing_runtime_scope tenant_id program_id view_id);
  s ← state;
  mret (view_bootstraps s !! (tenant_id, program_id, view_id)).

(** The generation, the plan and the owner of a request are those of the bootstrap. *)
Definition names_bootstrap (control : ViewBootstrapControlV1) (bootstrap_generation : Z) (plan_hash : string)
    (owner : StandingRuntimeOwnerToken) (key : scope) : bool :=
  (vw_bootstrap_generation control =? bootstrap_generation) && String.eqb (vw_plan_hash control) plan_hash &&
  bool_decide (token_scope owner = key).

Definition set_activation_cut (cut : IngestSourceCutV1) (c : ViewBootstrapControlV1) : ViewBootstrapControlV1 :=
  BootstrapControl (vw_schema_version c) (vw_tenant_id c) (vw_program_id c) (vw_view_id c) (vw_bootstrap_generation c)
    (vw_plan_hash c) (vw_view_spec_json c) (vw_lifecycle c) (vw_bootstrap_cut c) (Some cut) (vw_active_checkpoint c)
    (vw_view_inputs c).

Definition fix_view_bootstrap_activation_cut (q : FixViewBootstrapActivationCutRequest) : meta ViewBootstrapOutcome :=
  _ ← lift (validate_fix_activation q);
  let key := (fx_tenant_id q, fx_program_id q, fx_view_id q) in
  s ← state;
  now ← lift clock;
  _ ← lift (validate_current_standing_runtime_owner (standing_runtime_owners s !! key) (fx_owner q) now);
  match view_bootstraps s !! key with
  | None => mret BootstrapConflict
  | Some control =>
      if negb (names_bootstrap control (fx_bootstrap_generation q) (fx_plan_hash q) (fx_owner q) key)
      then mret BootstrapConflict
      else if bool_decide (is_Some (vw_activation_cut control)) then mret (BootstrapDuplicate control)
      else if bool_decide (vw_lifecycle control <> Bootstrapping) then mret BootstrapConflict
      else match standing_runtime_checkpoints s !! key with
           | None => mret BootstrapConflict
           | Some checkpoint =>
               if negb (cp_bootstrap_generation checkpoint =? vw_bootstrap_generation control) ||
                  negb (String.eqb (cp_plan_hash checkpoint) (vw_plan_hash control)) ||
                  negb (checkpoint_covers_source_cut checkpoint (vw_bootstrap_cut control))
               then mret BootstrapConflict
               else
                 activation_cut ← lift (source_cut_of s (CaptureCut (sr_relation <$> cut_relations (vw_bootstrap_cut control))));
                 if negb (source_cut_covers activation_cut (vw_bootstrap_cut control)) then mret BootstrapConflict
                 else
                   let control := set_activation_cut activation_cut control in
                   _ ← change (with_view_bootstraps (<[key := control]> (view_bootstraps s)));
                   mret (BootstrapDone control)
           end
  end.

Definition set_active (checkpoint : StandingRuntimeCheckpointPointer) (c : ViewBootstrapControlV1) : ViewBootstrapControlV1 :=
  BootstrapControl (vw_schema_version c) (vw_tenant_id c) (vw_program_id c) (vw_view_id c) (vw_bootstrap_generation c)
    (vw_plan_hash c) (vw_view_spec_json c) ActiveView (vw_bootstrap_cut c) (vw_activation_cut c) (Some checkpoint)
    (vw_view_inputs c).

(** The condition on the checkpoint a view is promoted with. *)
Definition promotable (latest : option StandingRuntimeCheckpointPointer) (checkpoint : StandingRuntimeCheckpointPointer)
    (control : ViewBootstrapControlV1) (activation_cut : IngestSourceCutV1) : bool :=
  bool_decide (latest = Some checkpoint) &&
  (cp_bootstrap_generation checkpoint =? vw_bootstrap_generation control) &&
  String.eqb (cp_plan_hash checkpoint) (vw_plan_hash control) &&
  checkpoint_covers_source_cut checkpoint activation_cut &&
  (bool_decide (vw_view_inputs control = []) ||
   match cp_published_input_bootstrap checkpoint with
   | Some progress => matches_control progress control && is_complete progress
   | None => false
   end).

Definition promote_view_bootstrap (q : PromoteViewBootstrapRequest) : meta ViewBootstrapOutcome :=
  _ ← lift (validate_promote q);
  let key := (pm_tenant_id q, pm_program_id q, pm_view_id q) in
  s ← state;
  now ← lift clock;
  _ ← lift (validate_current_standing_runtime_owner (standing_runtime_owners s !! key) (pm_owner q) now);
  match view_bootstraps s !! key with
  | None => mret BootstrapConflict
  | Some control =>
      if negb (names_bootstrap control (pm_bootstrap_generation q) (pm_plan_hash q) (pm_owner q) key)
      then mret BootstrapConflict
      else if bool_decide (vw_lifecycle control = ActiveView) then
        mret (if bool_decide (vw_active_checkpoint control = Some (pm_checkpoint q)) then BootstrapDuplicate control
              else BootstrapConflict)
      else match vw_activation_cut control with
           | None => mret BootstrapConflict
           | Some activation_cut =>
               if negb (promotable (standing_runtime_checkpoints s !! key) (pm_checkpoint q) control activation_cut)
               then mret BootstrapConflict
               else
                 let control := set_active (pm_checkpoint q) control in
                 _ ← change (with_view_bootstraps (<[key := control]> (view_bootstraps s)));
                 mret (BootstrapDone control)
           end
  end.

Definition promote_view_bootstrap_with_active_view_record (q : PromoteViewBootstrapWithActiveViewRecordRequestV1) :
    meta ViewBootstrapOutcome :=
  let b := vp_bootstrap q in
  _ ← lift (validate_promote b);
  _ ← lift (validate_active_view_scope (vp_scope q));
  _ ← lift (validate_active_view_record (vp_record q) (Some (pm_view_id b)));
  let key := (pm_tenant_id b, pm_program_id b, pm_view_id b) in
  s ← state;
  now ← lift clock;
  _ ← lift (validate_current_standing_runtime_owner (standing_runtime_owners s !! key) (pm_owner b) now);
  match view_bootstraps s !! key with
  | None => mret BootstrapConflict
  | Some control =>
      if negb (names_bootstrap control (pm_bootstrap_generation b) (pm_plan_hash b) (pm_owner b) key)
      then mret BootstrapConflict
      else match active_view_registries s !! vp_scope q with
      | None => mret BootstrapConflict
      | Some registry =>
      match vg_records registry !! pm_view_id b with
      | None => mret BootstrapConflict
      | Some active =>
          if negb (vv_generation active =? vp_expected_generation q) then mret BootstrapConflict
          else if bool_decide (vw_lifecycle control = ActiveView) then
            mret (if bool_decide (vw_active_checkpoint control = Some (pm_checkpoint b)) &&
                     bool_decide (vv_record active = vp_record q)
                  then BootstrapDuplicate control else BootstrapConflict)
          else match vw_activation_cut control with
               | None => mret BootstrapConflict
               | Some activation_cut =>
                   if negb (promotable (standing_runtime_checkpoints s !! key) (pm_checkpoint b) control activation_cut)
                   then mret BootstrapConflict
                   else
                     generation ← lift (add_or TimestampOverflow (vv_generation active) 1);
                     revision ← lift (add_or TimestampOverflow (vg_snapshot_revision registry) 1);
                     let candidate := RegistryState (vg_initialized registry) revision
                       (<[pm_view_id b := RecordVersion generation (vp_record q)]> (vg_records registry)) in
                     let control := set_active (pm_checkpoint b) control in
                     store_registry (vp_scope q) candidate BootstrapConflict
                       (_ ← change (with_view_bootstraps (<[key := control]> (view_bootstraps s)));
                        mret (BootstrapDone control))
               end
      end
      end
  end.

(** ** Owners *)

Definition store_owner (key : scope) (claim : StandingRuntimeOwnerClaim) : meta unit :=
  s ← state;
  change (with_standing_runtime_owners (<[key := claim]> (standing_runtime_owners s))).

Definition acquire_owner_claim (q : AcquireStandingRuntimeOwnerRequest) (owner_endpoint : option string) :
    meta (AcquireOutcome StandingRuntimeOwnerClaim) :=
  _ ← lift (validate_acquire_owner q);
  now ← lift clock;
  expires_at_unix_ms ← lift (add_or TimestampOverflow now (ao_ttl_ms q));
  let key := standing_runtime_owner_scope_key (ao_tenant_id q) (ao_program_id q) (ao_view_id q) in
  let claim endpoint epoch :=
    OwnerClaim (ao_tenant_id q) (ao_program_id q) (ao_view_id q) (ao_owner_id q) endpoint epoch expires_at_unix_ms in
  s ← state;
  match standing_runtime_owners s !! key with
  | Some current =>
      if (now <? oc_expires_at_unix_ms current) && negb (String.eqb (oc_owner_id current) (ao_owner_id q))
      then mret (AcquireConflict current)
      else if now <? oc_expires_at_unix_ms current then
        let claim := claim (match owner_endpoint with Some e => Some e | None => oc_owner_endpoint current end)
          (oc_owner_epoch current) in
        _ ← store_owner key claim;
        mret (Renewed claim)
      else
        owner_epoch ← lift (add_or AuthorityEpochOverflow (oc_owner_epoch current) 1);
        let claim := claim owner_endpoint owner_epoch in
        _ ← store_owner key claim;
        mret (Acquired claim)
  | None =>
      let claim := claim owner_endpoint 1 in
      _ ← store_owner key claim;
      mret (Acquired claim)
  end.

Definition acquire_standing_runtime_owner (q : AcquireStandingRuntimeOwnerRequest) :
    meta (AcquireOutcome StandingRuntimeOwnerClaim) :=
  acquire_owner_claim q None.

Definition acquire_standing_runtime_owner_with_endpoint (q : AcquireStandingRuntimeOwnerRequest) (owner_endpoint : string) :
    meta (AcquireOutcome StandingRuntimeOwnerClaim) :=
  _ ← lift (validate_owner_endpoint owner_endpoint);
  acquire_owner_claim q (Some owner_endpoint).

(** [reacquire_owner_claim]: the expected claim is compared in full. *)
Definition reacquire_standing_runtime_owner (q : ReacquireStandingRuntimeOwnerRequest) :
    meta (AcquireOutcome StandingRuntimeOwnerClaim) :=
  _ ← lift (validate_reacquire_owner q);
  now ← lift clock;
  expires_at_unix_ms ← lift (add_or TimestampOverflow now (ro_ttl_ms q));
  let expected := ro_expected_current q in
  let key := standing_runtime_owner_scope_key (oc_tenant_id expected) (oc_program_id expected) (oc_view_id expected) in
  s ← state;
  match standing_runtime_owners s !! key with
  | None => lift (Err StandingRuntimeOwnerMismatch)
  | Some current =>
      if bool_decide (current <> expected) then mret (AcquireConflict current)
      else
        owner_epoch ← lift (add_or AuthorityEpochOverflow (oc_owner_epoch current) 1);
        let claim := OwnerClaim (oc_tenant_id current) (oc_program_id current) (oc_view_id current) (ro_owner_id q)
          (Some (ro_owner_endpoint q)) owner_epoch expires_at_unix_ms in
        _ ← store_owner key claim;
        mret (Acquired claim)
  end.

Definition set_expiry (expires_at_unix_ms : Z) (c : StandingRuntimeOwnerClaim) : StandingRuntimeOwnerClaim :=
  OwnerClaim (oc_tenant_id c) (oc_program_id c) (oc_view_id c) (oc_owner_id c) (oc_owner_endpoint c) (oc_owner_epoch c)
    expires_at_unix_ms.

Definition renew_standing_runtime_owner (owner : StandingRuntimeOwnerToken) (ttl_ms : Z) : meta StandingRuntimeOwnerClaim :=
  _ ← lift (validate_acquire_owner (AcquireOwner (ot_tenant_id owner) (ot_program_id owner) (ot_view_id owner)
    (ot_owner_id owner) ttl_ms));
  s ← state;
  now ← lift clock;
  let key := token_scope owner in
  _ ← lift (validate_current_standing_runtime_owner (standing_runtime_owners s !! key) owner now);
  claim ← lift (ok_or StandingRuntimeOwnerMismatch (standing_runtime_owners s !! key));
  expires_at_unix_ms ← lift (add_or TimestampOverflow now ttl_ms);
  let claim := set_expiry expires_at_unix_ms claim in
  _ ← store_owner key claim;
  mret claim.

Definition read_standing_runtime_owner (tenant_id program_id view_id : string) : meta (option StandingRuntimeOwnerClaim) :=
  _ ← lift (validate_standing_runtime_scope tenant_id program_id view_id);
  now ← lift clock;
  s ← state;
  mret (claim ← standing_runtime_owners s !! standing_runtime_owner_scope_key tenant_id program_id view_id;
    if now <? oc_expires_at_unix_ms claim then Some claim else None).

(** ** Checkpoints *)

(** The reservations of relation ingest with their authority, and its publications. *)
Definition relation_entries (s : InMemoryMetaState) : list authority_entry :=
  omap (fun r => (fun authority => (authority, r)) <$> relation_authority_reservation_keys s !! r)
    (all_reservations (relation_ingest_reservations s)).
Definition relation_publications (s : InMemoryMetaState) : list RelationAuthoritativeIngestPublication :=
  (map_to_list (relation_authoritative_ingest_publications s)).*2.

Definition relation_cuts_of (s : InMemoryMetaState) (q : CaptureRelationIngestSourceCutsRequest) :
    checked (list RelationIngestSourceIdentityCutV1) :=
  build_relation_ingest_source_cuts q (relation_entries s) (relation_publications s).

(** Whether the expected source cuts are still the current ones. *)
Definition source_cuts_current (s : InMemoryMetaState) (expected : option (list RelationIngestSourceIdentityCutV1)) :
    checked bool :=
  match expected with
  | None => Ok true
  | Some cuts =>
      expected ← canonicalize_relation_ingest_source_cuts cuts;
      let namespace := match expected with first :: _ => lc_namespace (ic_cut first) | [] => "" end in
      actual ← relation_cuts_of s (CaptureRelationCuts namespace (ic_relation <$> expected));
      actual ← canonicalize_relation_ingest_source_cuts actual;
      Ok (bool_decide (actual = expected))
  end.

(** The progress a checkpoint claims fits the bootstrap of the view and the progress
    of the checkpoint before. *)
Definition progress_admissible (control : option ViewBootstrapControlV1) (current : option StandingRuntimeCheckpointPointer)
    (candidate : StandingRuntimeCheckpointPointer) : bool :=
  match cp_published_input_bootstrap candidate with
  | None => true
  | Some progress =>
      match control with
      | None => false
      | Some control =>
          matches_control progress control && negb (bool_decide (vw_lifecycle control = ActiveView) && negb (is_complete progress))
      end
  end &&
  match current ≫= cp_published_input_bootstrap with
  | None => true
  | Some previous =>
      match cp_published_input_bootstrap candidate with Some next => follows next previous | None => false end
  end.

Definition publish_standing_runtime_checkpoint (q : PublishStandingRuntimeCheckpointRequest) :
    meta PublishStandingRuntimeCheckpointOutcome :=
  _ ← lift (validate_publish_checkpoint q);
  let key := standing_runtime_checkpoint_scope_key (pk_candidate q) in
  s ← state;
  now ← lift clock;
  _ ← lift (validate_current_standing_runtime_owner (standing_runtime_owners s !! key) (pk_owner q) now);
  let current := standing_runtime_checkpoints s !! key in
  if bool_decide (current = Some (pk_candidate q)) then mret CheckpointDuplicate
  else
    unchanged ← lift (source_cuts_current s (pk_expected_relation_source_cuts q));
    if negb unchanged then mret SourceCutChanged
    else if bool_decide (current <> pk_expected_previous q) then mret CheckpointConflict
    else if negb (progress_admissible (view_bootstraps s !! key) current (pk_candidate q)) then mret CheckpointConflict
    else
      _ ← change (with_standing_runtime_checkpoints (<[key := pk_candidate q]> (standing_runtime_checkpoints s)));
      mret CheckpointPublished.

Definition read_standing_runtime_checkpoint (tenant_id program_id view_id : string) :
    meta (option StandingRuntimeCheckpointPointer) :=
  _ ← lift (validate_standing_runtime_scope tenant_id program_id view_id);
  s ← state;
  mret (standing_runtime_checkpoints s !! (tenant_id, program_id, view_id)).

(** ** Authorities of partitions *)

Definition store_authority (key : PartitionAuthorityKey) (token : PartitionAuthorityToken) : meta unit :=
  s ← state;
  change (with_partition_authorities (<[key := token]> (partition_authorities s))).

Definition acquire_partition_authority (q : AcquirePartitionAuthorityRequest) : meta (AcquireOutcome PartitionAuthorityToken) :=
  _ ← lift (validate_acquire_authority q);
  s ← state;
  let now := partition_authority_now_unix_ms s in
  expires_at_unix_ms ← lift (add_or TimestampOverflow now (aa_ttl_ms q));
  match partition_authorities s !! aa_key q with
  | Some current =>
      if now <? at_expires_at_unix_ms current then
        if String.eqb (at_owner_id current) (aa_owner_id q) && bool_decide (aa_current_token q = Some current) then
          let renewed := AuthorityToken (at_key current) (at_owner_id current) (at_owner_epoch current) expires_at_unix_ms in
          _ ← store_authority (aa_key q) renewed;
          mret (Renewed renewed)
        else mret (AcquireConflict current)
      else
        owner_epoch ← lift (add_or TimestampOverflow (at_owner_epoch current) 1);
        let token := AuthorityToken (aa_key q) (aa_owner_id q) owner_epoch expires_at_unix_ms in
        _ ← store_authority (aa_key q) token;
        mret (Acquired token)
  | None =>
      let token := AuthorityToken (aa_key q) (aa_owner_id q) 1 expires_at_unix_ms in
      _ ← store_authority (aa_key q) token;
      mret (Acquired token)
  end.

(** [authority_clock_override], or else the tick of the state. *)
Definition authority_read_time_ms (authority_clock_override : option Z) (s : InMemoryMetaState) : Z :=
  default (partition_authority_now_unix_ms s) authority_clock_override.

Definition read_partition_authority (authority_clock_override : option Z) (key : PartitionAuthorityKey) :
    meta (option PartitionAuthorityToken) :=
  _ ← lift (validate_authority_key key);
  s ← state;
  mret (token ← partition_authorities s !! key;
    if authority_read_time_ms authority_clock_override s <? at_expires_at_unix_ms token then Some token else None).

Definition store_relation_authority (key : RelationPartitionAuthorityKey) (token : RelationPartitionAuthorityToken) : meta unit :=
  s ← state;
  change (with_relation_partition_authorities (<[key := token]> (relation_partition_authorities s))).

Definition acquire_relation_partition_authority_inner (q : AcquireRelationPartitionAuthorityRequest) (explicit_reacquire : bool) :
    meta (AcquireOutcome RelationPartitionAuthorityToken) :=
  _ ← lift (validate_acquire_relation_authority q);
  s ← state;
  let now := partition_authority_now_unix_ms s in
  expires_at_unix_ms ← lift (add_or TimestampOverflow now (ar_ttl_ms q));
  match relation_partition_authorities s !! ar_key q with
  | Some current =>
      let holds := String.eqb (rt_owner_id current) (ar_owner_id q) && bool_decide (ar_current_token q = Some current) in
      if now <? rt_expires_at_unix_ms current then
        if explicit_reacquire && holds then
          owner_epoch ← lift (add_or AuthorityEpochOverflow (rt_owner_epoch current) 1);
          let token := RelationAuthorityToken (ar_key q) (ar_owner_id q) owner_epoch expires_at_unix_ms in
          _ ← store_relation_authority (ar_key q) token;
          mret (Acquired token)
        else if negb explicit_reacquire && holds then
          let renewed := RelationAuthorityToken (rt_key current) (rt_owner_id current) (rt_owner_epoch current) expires_at_unix_ms in
          _ ← store_relation_authority (ar_key q) renewed;
          mret (Renewed renewed)
        else mret (AcquireConflict current)
      else if explicit_reacquire && bool_decide (ar_current_token q <> Some current) then mret (AcquireConflict current)
      else
        owner_epoch ← lift (add_or AuthorityEpochOverflow (rt_owner_epoch current) 1);
        let token := RelationAuthorityToken (ar_key q) (ar_owner_id q) owner_epoch expires_at_unix_ms in
        _ ← store_relation_authority (ar_key q) token;
        mret (Acquired token)
  | None =>
      let token := RelationAuthorityToken (ar_key q) (ar_owner_id q) 1 expires_at_unix_ms in
      _ ← store_relation_authority (ar_key q) token;
      mret (Acquired token)
  end.

Definition acquire_relation_partition_authority (q : AcquireRelationPartitionAuthorityRequest) :
    meta (AcquireOutcome RelationPartitionAuthorityToken) :=
  acquire_relation_partition_authority_inner q false.
Definition reacquire_relation_partition_authority (q : AcquireRelationPartitionAuthorityRequest) :
    meta (AcquireOutcome RelationPartitionAuthorityToken) :=
  acquire_relation_partition_authority_inner q true.

Definition read_relation_partition_authority (authority_clock_override : option Z) (key : RelationPartitionAuthorityKey) :
    meta (option RelationPartitionAuthorityToken) :=
  _ ← lift (validate_relation_authority_key key);
  s ← state;
  mret (token ← relation_partition_authorities s !! key;
    if authority_read_time_ms authority_clock_override s <? rt_expires_at_unix_ms token then Some token else None).

Definition publish_partition_checkpoint_pointer (q : PublishPartitionCheckpointPointerRequest) :
    meta PublishPartitionCheckpointPointerOutcome :=
  _ ← lift (validate_publish_pointer q);
  let key := pp_key (pq_candidate q) in
  s ← state;
  _ ← lift (validate_current_partition_authority (partition_authorities s !! key) (pq_authority q)
    (partition_authority_now_unix_ms s));
  let current := partition_checkpoint_pointers s !! key in
  if bool_decide (current = Some (pq_candidate q)) then mret PointerDuplicate
  else if bool_decide (current <> pq_expected_previous q) then mret PointerConflict
  else
    _ ← change (with_partition_checkpoint_pointers (<[key := pq_candidate q]> (partition_checkpoint_pointers s)));
    mret PointerPublished.

Definition read_partition_checkpoint_pointer (key : PartitionAuthorityKey) : meta (option PartitionCheckpointPointer) :=
  _ ← lift (validate_authority_key key);
  s ← state;
  mret (partition_checkpoint_pointers s !! key).

(** ** Relation ingest *)

Definition capture_relation_ingest_source_cut (q : CaptureRelationIngestSourceCutRequest) : meta RelationIngestSourceCutV1 :=
  _ ← lift (validate_capture_relation_cut q);
  s ← state;
  lift (build_relation_ingest_source_cut q (relation_publications s)).

Definition capture_relation_ingest_source_cuts (q : CaptureRelationIngestSourceCutsRequest) :
    meta (list RelationIngestSourceIdentityCutV1) :=
  _ ← lift (validate_capture_relation_cuts q);
  s ← state;
  lift (relation_cuts_of s q).

Definition reserve_relation_authoritative_ingest_range (q : ReserveRelationAuthoritativeIngestRangeRequest) :
    meta ReserveIngestRangeOutcome :=
  let r := rr_reservation q in
  let key := rt_key (rr_authority q) in
  _ ← lift (validate_reserve_relation q);
  s ← state;
  if negb (is_ok (validate_current_relation_partition_authority (relation_partition_authorities s !! key) (rr_authority q)
      (partition_authority_now_unix_ms s))) then mret RangeConflict
  else match relation_authority_reservation_keys s !! r with
       | Some existing => mret (if bool_decide (existing = key) then RangeDuplicate else RangeConflict)
       | None =>
           if existsb (fun existing => overlaps existing r) (reserved_in (ingest_reservations s) r) ||
              existsb (fun existing => overlaps existing r) (reserved_in (relation_ingest_reservations s) r) ||
              bool_decide (is_Some (legacy_batch_keys s !! r_batch_key r)) ||
              bool_decide (is_Some (relation_batch_keys s !! r_batch_key r))
           then mret RangeConflict
           else
             _ ← change (with_relation_batch_keys (<[r_batch_key r := r]> (relation_batch_keys s)));
             _ ← change (with_relation_ingest_reservations
               (<[(r_stream_id r, r_partition_id r) := reserved_in (relation_ingest_reservations s) r ++ [r]]>
                 (relation_ingest_reservations s)));
             _ ← change (with_relation_authority_reservation_keys (<[r := key]> (relation_authority_reservation_keys s)));
             mret RangeReserved
       end.

Definition publish_relation_ingest_reservation (q : PublishRelationIngestReservationRequest) :
    meta PublishIngestReservationOutcome :=
  let r := pl_reservation q in
  let key := rt_key (pl_authority q) in
  _ ← lift (validate_publish_relation q);
  s ← state;
  let publication := Publication r key (pl_request_id q) (pl_request_digest q) (pl_object_key q) (pl_object_digest q) in
  if negb (is_ok (validate_current_relation_partition_authority (relation_partition_authorities s !! key) (pl_authority q)
      (partition_authority_now_unix_ms s))) then mret InvalidAuthority
  else match relation_authoritative_ingest_publications s !! pl_request_id q with
       | Some existing => mret (if bool_decide (existing = publication) then PublicationDuplicate else PublicationConflict)
       | None =>
           if match relation_reservation_publications s !! r with
              | Some request_id => negb (String.eqb request_id (pl_request_id q))
              | None => false
              end then mret PublicationConflict
           else if bool_decide (relation_authority_reservation_keys s !! r <> Some key) then mret PublicationConflict
           else if match relation_batch_keys s !! r_batch_key r with
                   | Some existing => bool_decide (existing <> r)
                   | None => false
                   end then mret PublicationConflict
           else
             _ ← change (with_relation_authoritative_ingest_publications
               (<[pl_request_id q := publication]> (relation_authoritative_ingest_publications s)));
             _ ← change (with_relation_reservation_publications
               (<[r := pl_request_id q]> (relation_reservation_publications s)));
             mret PublicationCommitted
       end.

Definition read_relation_authoritative_ingest_publication (request_id : string) :
    meta (option RelationAuthoritativeIngestPublication) :=
  _ ← lift (require_non_empty "request_id" request_id);
  s ← state;
  mret (relation_authoritative_ingest_publications s !! request_id).

Definition list_relation_authoritative_ingest_publications (key : RelationPartitionAuthorityKey) :
    meta (list RelationAuthoritativeIngestPublication) :=
  _ ← lift (validate_relation_authority_key key);
  s ← state;
  mret (sort_on publication_key (filter (fun p => p_authority_key p = key) (relation_publications s))).
End operations.
