(* ===== verification/MetaMachine.v ===== *)
(** The metadata service as a state machine.

    [command] lists the operations of [InMemoryMetaStore] that can change its state and
    [perform] runs one. [effect] is the abstract account of them: the guarded
    updates the state ever undergoes, with the conditions under which they are
    made. [perform_effect] shows that the operations refine it; the invariants of the
    service are proved on [effect]. *)
From S2P Require Import Prelude BTree Json Digits Segments ObjectKey Hash Serde JsonText Relation StandingProgram MetaTypes SourceCut ViewBootstrap MetaRequests MetaStore.

Section machine.
Context `{Sha256, SerdeJson, RelationCodec, MetaEnv}.

Inductive command :=
| StoreRelationCatalog (catalog : VelorixRelationCatalogV1)
| CreateActiveViewRecord (q : CreateActiveViewRecordRequestV1)
| CompareExchangeActiveViewRecord (q : CompareExchangeActiveViewRecordRequestV1)
| ImportActiveViewRegistry (q : ImportActiveViewRegistryRequestV1)
| ReserveIngestRange (r : IngestRangeReservation)
| CommitIngestRange (r : IngestRangeReservation)
| CommitIngestRanges (l : list IngestRangeReservation)
| ReserveAuthoritativeIngestRange (q : ReserveAuthoritativeIngestRangeRequest)
| PublishIngestReservation (q : PublishIngestReservationRequest)
| BeginViewBootstrap (q : BeginViewBootstrapRequest)
| FixViewBootstrapActivationCut (q : FixViewBootstrapActivationCutRequest)
| PromoteViewBootstrap (q : PromoteViewBootstrapRequest)
| PromoteViewBootstrapWithActiveViewRecord (q : PromoteViewBootstrapWithActiveViewRecordRequestV1)
| AcquireStandingRuntimeOwner (q : AcquireStandingRuntimeOwnerRequest)
| AcquireStandingRuntimeOwnerWithEndpoint (q : AcquireStandingRuntimeOwnerRequest) (owner_endpoint : string)
| ReacquireStandingRuntimeOwner (q : ReacquireStandingRuntimeOwnerRequest)
| RenewStandingRuntimeOwner (owner : StandingRuntimeOwnerToken) (ttl_ms : Z)
| PublishStandingRuntimeCheckpoint (q : PublishStandingRuntimeCheckpointRequest)
| AcquirePartitionAuthority (q : AcquirePartitionAuthorityRequest)
| AcquireRelationPartitionAuthority (q : AcquireRelationPartitionAuthorityRequest)
| ReacquireRelationPartitionAuthority (q : AcquireRelationPartitionAuthorityRequest)
| ReserveRelationAuthoritativeIngestRange (q : ReserveRelationAuthoritativeIngestRangeRequest)
| PublishRelationIngestReservation (q : PublishRelationIngestReservationRequest)
| PublishPartitionCheckpointPointer (q : PublishPartitionCheckpointPointerRequest).

(** The state after a command, whatever it answers. *)
Definition perform (clock : checked Z) (c : command) (s : InMemoryMetaState) : InMemoryMetaState :=
  match c with
  | StoreRelationCatalog catalog => (store_relation_catalog catalog s).2
  | CreateActiveViewRecord q => (create_active_view_record q s).2
  | CompareExchangeActiveViewRecord q => (compare_exchange_active_view_record clock q s).2
  | ImportActiveViewRegistry q => (import_active_view_registry q s).2
  | ReserveIngestRange r => (reserve_ingest_range r s).2
  | CommitIngestRange r => (commit_ingest_range r s).2
  | CommitIngestRanges l => (commit_ingest_ranges l s).2
  | ReserveAuthoritativeIngestRange q => (reserve_authoritative_ingest_range q s).2
  | PublishIngestReservation q => (publish_ingest_reservation q s).2
  | BeginViewBootstrap q => (begin_view_bootstrap q s).2
  | FixViewBootstrapActivationCut q => (fix_view_bootstrap_activation_cut clock q s).2
  | PromoteViewBootstrap q => (promote_view_bootstrap clock q s).2
  | PromoteViewBootstrapWithActiveViewRecord q => (promote_view_bootstrap_with_active_view_record clock q s).2
  | AcquireStandingRuntimeOwner q => (acquire_standing_runtime_owner clock q s).2
  | AcquireStandingRuntimeOwnerWithEndpoint q e => (acquire_standing_runtime_owner_with_endpoint clock q e s).2
  | ReacquireStandingRuntimeOwner q => (reacquire_standing_runtime_owner clock q s).2
  | RenewStandingRuntimeOwner owner ttl_ms => (renew_standing_runtime_owner clock owner ttl_ms s).2
  | PublishStandingRuntimeCheckpoint q => (publish_standing_runtime_checkpoint clock q s).2
  | AcquirePartitionAuthority q => (acquire_partition_authority q s).2
  | AcquireRelationPartitionAuthority q => (acquire_relation_partition_authority q s).2
  | ReacquireRelationPartitionAuthority q => (reacquire_relation_partition_authority q s).2
  | ReserveRelationAuthoritativeIngestRange q => (reserve_relation_authoritative_ingest_range q s).2
  | PublishRelationIngestReservation q => (publish_relation_ingest_reservation q s).2
  | PublishPartitionCheckpointPointer q => (publish_partition_checkpoint_pointer q s).2
  end.

(** * Weakest preconditions *)

Definition wpm {A} (m : meta A) (s : InMemoryMetaState) (Q : InMemoryMetaState -> Prop) : Prop := Q (m s).2.

Lemma wpm_ret {A} (a : A) s (Q : InMemoryMetaState -> Prop) : Q s -> wpm (mret a) s Q.
Proof. done. Qed.
Lemma wpm_err {A} (r : checked A) s (Q : InMemoryMetaState -> Prop) : Q s -> wpm (lift r) s Q.
Proof. done. Qed.
Lemma wpm_lift {A B} (r : checked A) (f : A -> meta B) s (Q : InMemoryMetaState -> Prop) :
  Q s -> (forall a, r = Ok a -> wpm (f a) s Q) -> wpm (lift r ≫= f) s Q.
Proof. intros Hs Hf. destruct r as [a|e]; [by apply (Hf a)|done]. Qed.
Lemma wpm_state {B} (f : InMemoryMetaState -> meta B) s Q : wpm (f s) s Q -> wpm (state ≫= f) s Q.
Proof. done. Qed.
Lemma wpm_change {B} g (f : unit -> meta B) s Q : wpm (f tt) (g s) Q -> wpm (change g ≫= f) s Q.
Proof. done. Qed.
Lemma wpm_change_last g s (Q : InMemoryMetaState -> Prop) : Q (g s) -> wpm (change g) s Q.
Proof. done. Qed.
Lemma wpm_bind {A B} (m : meta A) (f : A -> meta B) s Q :
  (forall a s', m s = (Ok a, s') -> wpm (f a) s' Q) -> (forall e s', m s = (Err e, s') -> Q s') ->
  wpm (m ≫= f) s Q.
Proof. unfold wpm, mbind, meta_bind. destruct (m s) as [[a|e] s']; eauto. Qed.
End machine.

Create HintDb meta.

(** Runs an operation: one goal is left for each of its returns. *)
Ltac meta_run :=
  repeat
    match goal with
    | |- forall _, _ => intro
    | |- wpm (lift _ ≫= _) _ _ => apply wpm_lift
    | |- wpm (state ≫= _) _ _ => apply wpm_state
    | |- wpm (change _ ≫= _) _ _ => apply wpm_change
    | |- wpm (mret _) _ _ => apply wpm_ret
    | |- wpm (lift _) _ _ => apply wpm_err
    | |- wpm (change _) _ _ => apply wpm_change_last
    | |- wpm (match ?x with _ => _ end) _ _ => destruct x eqn:?
    | |- wpm _ _ _ => progress cbn beta iota zeta
    end.

(** * Effects *)

(** How a lease is granted: first with epoch 1, then renewed for the owner it has, or
    given to a next owner under the next epoch when [may_follow] allows it. *)
Inductive grant {T} (owner : T -> string) (epoch : T -> Z) (may_follow : T -> T -> Prop) : option T -> T -> Prop :=
| GrantFirst t : epoch t = 1 -> grant owner epoch may_follow None t
| GrantRenewed t t' : owner t' = owner t -> epoch t' = epoch t -> grant owner epoch may_follow (Some t) t'
| GrantNext t t' : epoch t' = epoch t + 1 -> is_u64 (epoch t') = true -> may_follow t t' ->
    grant owner epoch may_follow (Some t) t'.

(** A live owner of a view is only replaced from the endpoint it was reached at. *)
Definition owner_may_follow (now : Z) (c c' : StandingRuntimeOwnerClaim) : Prop :=
  oc_expires_at_unix_ms c <= now \/ (is_Some (oc_owner_endpoint c) /\ oc_owner_endpoint c' = oc_owner_endpoint c).
Definition authority_may_follow (now : Z) (t t' : PartitionAuthorityToken) : Prop := at_expires_at_unix_ms t <= now.
(** A live relation authority only moves on for the owner that holds it. *)
Definition relation_may_follow (now : Z) (t t' : RelationPartitionAuthorityToken) : Prop :=
  rt_expires_at_unix_ms t <= now \/ rt_owner_id t' = rt_owner_id t.

Abbreviation owner_grant now := (grant oc_owner_id oc_owner_epoch (owner_may_follow now)).
Abbreviation authority_grant now := (grant at_owner_id at_owner_epoch (authority_may_follow now)).
Abbreviation relation_grant now := (grant rt_owner_id rt_owner_epoch (relation_may_follow now)).

Definition claim_scope (c : StandingRuntimeOwnerClaim) : scope := (oc_tenant_id c, oc_program_id c, oc_view_id c).

(** No range of [l] overlaps [r]. *)
Definition free_for (r : IngestRangeReservation) (l : list IngestRangeReservation) : Prop :=
  Forall (fun x => overlaps x r = false) l.

Section effects.
Context `{Sha256, SerdeJson, RelationCodec, MetaEnv}.

Definition imported_records (records : list ActiveMaterializedViewRecord) : gmap string ActiveViewRecordVersionV1 :=
  fold_left (fun m record => <[av_view_id record := RecordVersion 1 record]> m) records ∅.

Inductive registry_change : option ActiveViewRegistryStateV1 -> ActiveViewRegistryStateV1 -> Prop :=
| RecordCreated before record revision :
    validate_active_view_record record None = Ok tt ->
    vg_records (default default_registry before) !! av_view_id record = None ->
    checked_u64 (vg_snapshot_revision (default default_registry before) + 1) = Some revision ->
    registry_change before
      (RegistryState true revision (<[av_view_id record := RecordVersion 1 record]> (vg_records (default default_registry before))))
| RecordUpdated before existing record generation revision :
    validate_active_view_record record None = Ok tt ->
    vg_records before !! av_view_id record = Some existing ->
    checked_u64 (vv_generation existing + 1) = Some generation ->
    checked_u64 (vg_snapshot_revision before + 1) = Some revision ->
    registry_change (Some before)
      (RegistryState (vg_initialized before) revision (<[av_view_id record := RecordVersion generation record]> (vg_records before)))
| RegistryImported records :
    validate_active_view_records records = Ok tt ->
    registry_change None (RegistryState true 1 (imported_records records)).

(** What [bump_graph] leaves when it admits a bootstrap. *)
Definition graph_bumped (s : InMemoryMetaState) (q : BeginViewBootstrapRequest) (revisions : gmap string Z) : Prop :=
  if bool_decide (vb_view_inputs q = []) then revisions = view_dependency_graph_revisions s
  else graph_revision s (vb_tenant_id q) = vb_expected_graph_revision q /\
    revisions = <[vb_tenant_id q := wrapping_add_u64 (graph_revision s (vb_tenant_id q)) 1]> (view_dependency_graph_revisions s).

Definition begin_scope (q : BeginViewBootstrapRequest) : scope := (vb_tenant_id q, vb_program_id q, vb_view_id q).

(** The owner of a view made a request at the time [now]. *)
Definition owned (clock : checked Z) (s : InMemoryMetaState) (key : scope) (owner : StandingRuntimeOwnerToken) : Prop :=
  exists now, clock = Ok now /\ validate_current_standing_runtime_owner (standing_runtime_owners s !! key) owner now = Ok tt.

Definition holds_authority (s : InMemoryMetaState) (t : PartitionAuthorityToken) : Prop :=
  validate_current_partition_authority (partition_authorities s !! at_key t) t (partition_authority_now_unix_ms s) = Ok tt.
Definition holds_relation_authority (s : InMemoryMetaState) (t : RelationPartitionAuthorityToken) : Prop :=
  validate_current_relation_partition_authority (relation_partition_authorities s !! rt_key t) t
    (partition_authority_now_unix_ms s) = Ok tt.

Inductive effect (clock : checked Z) (s : InMemoryMetaState) : InMemoryMetaState -> Prop :=
| CatalogAdded catalog :
    is_ok (validate_supported_incremental_adapter_scope catalog) = true ->
    relation_catalogs s !! relation_catalog_key catalog = None ->
    effect clock s (with_relation_catalogs (<[relation_catalog_key catalog := catalog]> (relation_catalogs s)) s)
| RegistryChanged q registry :
    registry_change (active_view_registries s !! q) registry ->
    validate_active_view_registry registry = Ok tt ->
    effect clock s (with_active_view_registries (<[q := registry]> (active_view_registries s)) s)
| LegacyReserved r s' :
    validate_reservation r = Ok tt -> below_sealed_base s r = false ->
    free_for r (reserved_in (ingest_reservations s) r) ->
    s' = with_ingest_reservations (push_sorted r (ingest_reservations s))
      (with_legacy_batch_keys (<[r_batch_key r := r]> (legacy_batch_keys s)) s) ->
    effect clock s s'
| LegacyReservedNext r s' epoch :
    validate_reservation r = Ok tt -> below_sealed_base s r = false ->
    free_for r (reserved_in (ingest_reservations s) r) ->
    checked_u64 (ingest_catalog_epoch s + 1) = Some epoch ->
    s' = with_ingest_catalog_epoch epoch (with_ingest_reservations (push_sorted r (ingest_reservations s))
      (with_legacy_batch_keys (<[r_batch_key r := r]> (legacy_batch_keys s)) s)) ->
    effect clock s s'
| BatchesCommitted keys :
    committed_ingest_batch_keys s ⊆ keys ->
    (forall k, k ∈ keys -> k ∈ committed_ingest_batch_keys s \/
      exists r, r ∈ reserved_in (ingest_reservations s) r /\ r_batch_key r = k) ->
    effect clock s (with_committed_ingest_batch_keys keys s)
| AuthoritativeReserved q :
    validate_reserve_authoritative q = Ok tt -> holds_authority s (ra_authority q) ->
    free_for (ra_reservation q) (reserved_in (ingest_reservations s) (ra_reservation q)) ->
    effect clock s
      (with_authoritative_ingest_reservation_keys (<[ra_reservation q := at_key (ra_authority q)]> (authoritative_ingest_reservation_keys s))
        (with_ingest_reservations (push_sorted (ra_reservation q) (ingest_reservations s))
          (with_legacy_batch_keys (<[r_batch_key (ra_reservation q) := ra_reservation q]> (legacy_batch_keys s)) s)))
| AuthoritativePublished q :
    validate_publish_reservation q = Ok tt -> holds_authority s (pr_authority q) ->
    authoritative_ingest_publications s !! pr_request_id q = None ->
    authoritative_ingest_reservation_keys s !! pr_reservation q = Some (at_key (pr_authority q)) ->
    pr_reservation q ∈ reserved_in (ingest_reservations s) (pr_reservation q) ->
    r_batch_key (pr_reservation q) ∉ committed_ingest_batch_keys s ->
    effect clock s
      (with_authoritative_ingest_publications
        (<[pr_request_id q := Publication (pr_reservation q) (at_key (pr_authority q)) (pr_request_id q) (pr_request_digest q)
             (pr_object_key q) (pr_object_digest q)]> (authoritative_ingest_publications s))
        (with_committed_ingest_batch_keys ({[r_batch_key (pr_reservation q)]} ∪ committed_ingest_batch_keys s) s))
| GraphBumped q revisions :
    graph_bumped s q revisions ->
    effect clock s (with_view_dependency_graph_revisions revisions s)
| BootstrapBegun q cut revisions :
    validate_begin_bootstrap q = Ok tt -> view_bootstraps s !! begin_scope q = None -> graph_bumped s q revisions ->
    source_cut_of s (CaptureCut (vb_relations q)) = Ok cut ->
    effect clock s (with_view_bootstraps (<[begin_scope q := bootstrap_control q cut]> (view_bootstraps s))
      (with_view_dependency_graph_revisions revisions s))
| ActivationCutFixed key owner control checkpoint cut :
    owned clock s key owner ->
    view_bootstraps s !! key = Some control -> vw_activation_cut control = None -> vw_lifecycle control = Bootstrapping ->
    standing_runtime_checkpoints s !! key = Some checkpoint ->
    checkpoint_covers_source_cut checkpoint (vw_bootstrap_cut control) = true ->
    source_cut_of s (CaptureCut (sr_relation <$> cut_relations (vw_bootstrap_cut control))) = Ok cut ->
    source_cut_covers cut (vw_bootstrap_cut control) = true ->
    effect clock s (with_view_bootstraps (<[key := set_activation_cut cut control]> (view_bootstraps s)) s)
| ViewPromoted key owner control checkpoint cut :
    owned clock s key owner ->
    view_bootstraps s !! key = Some control -> vw_lifecycle control <> ActiveView -> vw_activation_cut control = Some cut ->
    promotable (standing_runtime_checkpoints s !! key) checkpoint control cut = true ->
    effect clock s (with_view_bootstraps (<[key := set_active checkpoint control]> (view_bootstraps s)) s)
| ViewPromotedWithRecord key owner control checkpoint cut q registry :
    owned clock s key owner ->
    view_bootstraps s !! key = Some control -> vw_lifecycle control <> ActiveView -> vw_activation_cut control = Some cut ->
    promotable (standing_runtime_checkpoints s !! key) checkpoint control cut = true ->
    registry_change (active_view_registries s !! q) registry ->
    validate_active_view_registry registry = Ok tt ->
    effect clock s (with_view_bootstraps (<[key := set_active checkpoint control]> (view_bootstraps s))
      (with_active_view_registries (<[q := registry]> (active_view_registries s)) s))
| OwnerGranted now claim :
    clock = Ok now -> owner_grant now (standing_runtime_owners s !! claim_scope claim) claim ->
    effect clock s (with_standing_runtime_owners (<[claim_scope claim := claim]> (standing_runtime_owners s)) s)
| RuntimeCheckpointPublished q :
    validate_publish_checkpoint q = Ok tt ->
    owned clock s (standing_runtime_checkpoint_scope_key (pk_candidate q)) (pk_owner q) ->
    standing_runtime_checkpoints s !! standing_runtime_checkpoint_scope_key (pk_candidate q) = pk_expected_previous q ->
    source_cuts_current s (pk_expected_relation_source_cuts q) = Ok true ->
    progress_admissible (view_bootstraps s !! standing_runtime_checkpoint_scope_key (pk_candidate q))
      (pk_expected_previous q) (pk_candidate q) = true ->
    effect clock s (with_standing_runtime_checkpoints
      (<[standing_runtime_checkpoint_scope_key (pk_candidate q) := pk_candidate q]> (standing_runtime_checkpoints s)) s)
| AuthorityGranted token :
    authority_grant (partition_authority_now_unix_ms s) (partition_authorities s !! at_key token) token ->
    effect clock s (with_partition_authorities (<[at_key token := token]> (partition_authorities s)) s)
| RelationAuthorityGranted token :
    relation_grant (partition_authority_now_unix_ms s) (relation_partition_authorities s !! rt_key token) token ->
    effect clock s (with_relation_partition_authorities (<[rt_key token := token]> (relation_partition_authorities s)) s)
| PartitionPointerPublished q :
    validate_publish_pointer q = Ok tt -> holds_authority s (pq_authority q) ->
    partition_checkpoint_pointers s !! pp_key (pq_candidate q) = pq_expected_previous q ->
    effect clock s (with_partition_checkpoint_pointers
      (<[pp_key (pq_candidate q) := pq_candidate q]> (partition_checkpoint_pointers s)) s)
| RelationReserved q :
    validate_reserve_relation q = Ok tt -> holds_relation_authority s (rr_authority q) ->
    relation_authority_reservation_keys s !! rr_reservation q = None ->
    free_for (rr_reservation q) (reserved_in (ingest_reservations s) (rr_reservation q)) ->
    free_for (rr_reservation q) (reserved_in (relation_ingest_reservations s) (rr_reservation q)) ->
    legacy_batch_keys s !! r_batch_key (rr_reservation q) = None ->
    relation_batch_keys s !! r_batch_key (rr_reservation q) = None ->
    effect clock s
      (with_relation_authority_reservation_keys (<[rr_reservation q := rt_key (rr_authority q)]> (relation_authority_reservation_keys s))
        (with_relation_ingest_reservations
          (<[(r_stream_id (rr_reservation q), r_partition_id (rr_reservation q)) :=
              reserved_in (relation_ingest_reservations s) (rr_reservation q) ++ [rr_reservation q]]> (relation_ingest_reservations s))
          (with_relation_batch_keys (<[r_batch_key (rr_reservation q) := rr_reservation q]> (relation_batch_keys s)) s)))
| RelationPublished q :
    validate_publish_relation q = Ok tt -> holds_relation_authority s (pl_authority q) ->
    relation_authoritative_ingest_publications s !! pl_request_id q = None ->
    (relation_reservation_publications s !! pl_reservation q = None \/
     relation_reservation_publications s !! pl_reservation q = Some (pl_request_id q)) ->
    relation_authority_reservation_keys s !! pl_reservation q = Some (rt_key (pl_authority q)) ->
    effect clock s
      (with_relation_reservation_publications (<[pl_reservation q := pl_request_id q]> (relation_reservation_publications s))
        (with_relation_authoritative_ingest_publications
          (<[pl_request_id q := Publication (pl_reservation q) (rt_key (pl_authority q)) (pl_request_id q) (pl_request_digest q)
               (pl_object_key q) (pl_object_digest q)]> (relation_authoritative_ingest_publications s)) s)).

(** * The operations refine the effects *)

(** Turns the tests on a path into facts, and closes the paths that change nothing. *)
Ltac settle :=
  try (by left);
  repeat match goal with
  | a : unit |- _ => destruct a
  | E : negb _ = false |- _ => apply negb_false_iff in E
  | E : negb _ = true |- _ => apply negb_true_iff in E
  | E : (_ || _) = false |- _ => apply orb_false_iff in E as [? E]
  | E : (_ && _) = true |- _ => apply andb_true_iff in E as [? E]
  | E : bool_decide _ = true |- _ => apply bool_decide_eq_true in E
  | E : bool_decide _ = false |- _ => apply bool_decide_eq_false in E
  | E : ~ (_ <> _) |- _ => apply dec_stable in E
  end.

Definition refines {A} (clock : checked Z) (m : meta A) : Prop :=
  forall s, wpm m s (fun s' => s' = s \/ effect clock s s').

Lemma existsb_overlaps r l : existsb (fun existing => overlaps existing r) l = false -> free_for r l.
Proof.
  intros Hl. apply Forall_forall. intros x Hx. destruct (overlaps x r) eqn:E; [|done].
  exfalso. assert (existsb (fun existing => overlaps existing r) l = true); [|congruence].
  apply existsb_exists. exists x. by rewrite <-list_elem_of_In.
Qed.

Lemma add_or_ok e a b z : add_or e a b = Ok z -> checked_u64 (a + b) = Some z.
Proof. unfold add_or. apply ok_or_ok. Qed.

Lemma checked_u64_add a b z : checked_u64 (a + b) = Some z -> z = a + b /\ is_u64 z = true.
Proof. unfold checked_u64. case_match; naive_solver. Qed.

Lemma store_relation_catalog_refines clock c : refines clock (store_relation_catalog c).
Proof.
  intros s. unfold store_relation_catalog. meta_run; try by left. right.
  apply CatalogAdded; [|done]. by destruct (validate_supported_incremental_adapter_scope c).
Qed.
(** ** Active views *)

Lemma store_registry_wpm {A} q registry (conflict : A) next s (Q : InMemoryMetaState -> Prop) :
  Q s ->
  (validate_active_view_registry registry = Ok tt ->
   wpm next (with_active_view_registries (<[q := registry]> (active_view_registries s)) s) Q) ->
  wpm (store_registry q registry conflict next) s Q.
Proof.
  intros Hs Hnext. unfold store_registry.
  destruct (validate_active_view_registry registry) as [[]|[]]; try done. by apply wpm_state, wpm_change, Hnext.
Qed.

Lemma create_active_view_record_refines clock q : refines clock (create_active_view_record q).
Proof.
  intros s. unfold create_active_view_record. meta_run; try by left.
  apply store_registry_wpm; [by left|]. intros Hvalid. apply wpm_ret. right.
  repeat match goal with a : unit |- _ => destruct a end.
  apply RegistryChanged; [|done]. apply RecordCreated; [done|done|]. by eapply add_or_ok.
Qed.

Lemma validate_record_ok record o : validate_active_view_record record o = Ok tt -> validate_active_view_record record None = Ok tt.
Proof.
  unfold validate_active_view_record. intros Hv. apply bind_unit_ok in Hv as [-> Hv]. by apply bind_unit_ok in Hv as [-> _].
Qed.

Lemma validate_view_id record view_id : validate_active_view_record record (Some view_id) = Ok tt -> av_view_id record = view_id.
Proof.
  unfold validate_active_view_record. intros Hv. repeat (apply bind_unit_ok in Hv as [_ Hv]).
  apply fail_if_ok in Hv. apply negb_false_iff, String.eqb_eq in Hv. done.
Qed.

Lemma wpm_keep {A B} (m : meta A) (f : A -> meta B) s Q :
  (forall t, (m t).2 = t) -> Q s -> (forall a, m s = (Ok a, s) -> wpm (f a) s Q) -> wpm (m ≫= f) s Q.
Proof.
  intros Hm Hs Hf. specialize (Hm s). apply wpm_bind.
  - intros a s' E. rewrite E in Hm. cbn in Hm. subst s'. by apply Hf.
  - intros e s' E. rewrite E in Hm. cbn in Hm. by subst s'.
Qed.

Lemma check_lifecycle_owner_keeps clock q existing t : (check_lifecycle_owner clock q existing t).2 = t.
Proof. change (wpm (check_lifecycle_owner clock q existing) t (fun s' => s' = t)). unfold check_lifecycle_owner. by meta_run. Qed.

Lemma compare_exchange_refines clock q : refines clock (compare_exchange_active_view_record clock q).
Proof.
  intros s. unfold compare_exchange_active_view_record. meta_run; try by left.
  apply wpm_keep; [apply check_lifecycle_owner_keeps|by left|]. meta_run; try by left.
  apply store_registry_wpm; [by left|]. intros Hvalid. apply wpm_ret. right.
  match goal with a : unit |- _ => destruct a end.
  apply RegistryChanged; [|done].
  match goal with Hv : validate_active_view_record _ _ = Ok ?u |- _ =>
    destruct u; pose proof (validate_record_ok _ _ Hv); apply validate_view_id in Hv; rewrite <-Hv in * end.
  match goal with E : active_view_registries s !! _ = Some _ |- _ => rewrite E end.
  eapply RecordUpdated; [done|done|by eapply add_or_ok..].
Qed.

Lemma import_refines clock q : refines clock (import_active_view_registry q).
Proof.
  intros s. unfold import_active_view_registry. meta_run; try by left. right.
  repeat match goal with a : unit |- _ => destruct a end.
  apply RegistryChanged; [|done].
  match goal with E : active_view_registries s !! _ = None |- _ => rewrite E end. by apply RegistryImported.
Qed.
(** ** Ingest ranges *)

Lemma reserve_ingest_range_refines clock r : refines clock (reserve_ingest_range r).
Proof.
  intros s. unfold reserve_ingest_range. meta_run; settle; right.
  - eapply LegacyReserved; eauto using existsb_overlaps.
  - eapply LegacyReservedNext; eauto using existsb_overlaps, add_or_ok.
Qed.

Lemma commit_ingest_range_refines clock r : refines clock (commit_ingest_range r).
Proof.
  intros s. unfold commit_ingest_range. meta_run; settle. right. apply BatchesCommitted; [set_solver|].
  intros k. rewrite elem_of_union, elem_of_singleton. intros [->|]; [right; eauto|by left].
Qed.

Lemma commit_batch_keys l committed :
  (commit_batch committed l).1 = list_to_set (r_batch_key <$> l) ∪ committed.
Proof.
  revert committed. induction l as [|r l IH]; intros committed; cbn; [set_solver|].
  specialize (IH ({[r_batch_key r]} ∪ committed)). destruct (commit_batch _ l) as [c outcomes]. cbn in *. set_solver.
Qed.

Lemma batch_refusal_reserved s all l :
  batch_refusal s all l = None -> Forall (fun r => r ∈ reserved_in (ingest_reservations s) r) l.
Proof.
  induction l as [|r l IH]; cbn; [constructor|].
  destruct (bool_decide_reflect (r ∈ reserved_in (ingest_reservations s) r)) as [Hr|]; cbn; [|done].
  intros Hl. constructor; [done|]. apply IH. by case_match.
Qed.

Lemma commit_ingest_ranges_refines clock l : refines clock (commit_ingest_ranges l).
Proof.
  intros s. unfold commit_ingest_ranges. meta_run; settle. right.
  match goal with E : commit_batch ?c l = (?keys, _) |- _ =>
    assert (Hkeys : keys = list_to_set (r_batch_key <$> l) ∪ c) by (rewrite <-commit_batch_keys, E; done) end.
  subst. apply BatchesCommitted; [set_solver|]. intros k.
  rewrite elem_of_union, elem_of_list_to_set, list_elem_of_fmap. intros [(r & -> & Hr)|]; [right|by left].
  exists r. split; [|done].
  match goal with E : batch_refusal _ _ _ = None |- _ => apply batch_refusal_reserved, Forall_forall with (x := r) in E end; done.
Qed.

Lemma is_ok_unit {E} (r : result E unit) : is_ok r = true -> r = Ok tt.
Proof. by destruct r as [[]|]. Qed.

Lemma reserve_authoritative_refines clock q : refines clock (reserve_authoritative_ingest_range q).
Proof.
  intros s. unfold reserve_authoritative_ingest_range. meta_run; settle. right.
  apply AuthoritativeReserved; [done|by apply is_ok_unit|by apply existsb_overlaps].
Qed.

Lemma publish_ingest_reservation_refines clock q : refines clock (publish_ingest_reservation q).
Proof.
  intros s. unfold publish_ingest_reservation. meta_run; settle. right.
  apply AuthoritativePublished; try done. by apply is_ok_unit.
Qed.

(** ** View bootstraps *)

Lemma bump_graph_cases q s :
  (bump_graph q s = (Ok false, s)) \/
  (exists revisions, graph_bumped s q revisions /\ bump_graph q s = (Ok true, with_view_dependency_graph_revisions revisions s)).
Proof.
  unfold bump_graph, graph_bumped, mbind, meta_bind, state, change. cbn.
  destruct (bool_decide_reflect (vb_view_inputs q = [])) as [_|_].
  - right. eexists. split; [done|]. by destruct s.
  - destruct (graph_revision s (vb_tenant_id q) =? vb_expected_graph_revision q) eqn:E; cbn; [right|by left].
    eexists. split; [split; [by apply Z.eqb_eq|done]|done].
Qed.

Lemma begin_view_bootstrap_refines clock q : refines clock (begin_view_bootstrap q).
Proof.
  intros s. unfold begin_view_bootstrap. meta_run; settle.
  apply wpm_bind; destruct (bump_graph_cases q s) as [->|(revisions & Hbump & ->)]; intros ?? [= <- <-]; meta_run; settle.
  - right. by apply GraphBumped with q.
  - right. by eapply BootstrapBegun.
Qed.

Lemma fix_activation_refines clock q : refines clock (fix_view_bootstrap_activation_cut clock q).
Proof.
  intros s. unfold fix_view_bootstrap_activation_cut. meta_run; settle. right.
  eapply ActivationCutFixed; try done; [by eexists|].
  by match goal with Hn : ~ is_Some (vw_activation_cut ?c) |- _ => destruct (vw_activation_cut c); [destruct Hn|] end.
Qed.

Lemma promote_refines clock q : refines clock (promote_view_bootstrap clock q).
Proof.
  intros s. unfold promote_view_bootstrap. meta_run; settle. right. eapply ViewPromoted; try done. by eexists.
Qed.

Lemma promote_with_record_refines clock q : refines clock (promote_view_bootstrap_with_active_view_record clock q).
Proof.
  intros s. unfold promote_view_bootstrap_with_active_view_record. meta_run; settle.
  apply store_registry_wpm; [by left|]. intros Hvalid. meta_run. right.
  eapply ViewPromotedWithRecord; try done; [by eexists|].
  match goal with Hv : validate_active_view_record _ _ = Ok tt |- _ =>
    pose proof (validate_record_ok _ _ Hv); apply validate_view_id in Hv; rewrite <-Hv in * end.
  match goal with E : active_view_registries s !! _ = Some _ |- _ => rewrite E end.
  eapply RecordUpdated; [done|done|by eapply add_or_ok..].
Qed.
(** ** Owners and checkpoints *)

Lemma store_owner_wpm {A} key claim (next : unit -> meta A) s Q :
  wpm (next tt) (with_standing_runtime_owners (<[key := claim]> (standing_runtime_owners s)) s) Q ->
  wpm (store_owner key claim ≫= next) s Q.
Proof. done. Qed.

Lemma owner_granted clock s now key claim current :
  clock = Ok now -> claim_scope claim = key -> standing_runtime_owners s !! key = current -> owner_grant now current claim ->
  effect clock s (with_standing_runtime_owners (<[key := claim]> (standing_runtime_owners s)) s).
Proof. intros Hnow <- <-. by apply OwnerGranted. Qed.

Lemma acquire_owner_refines clock q endpoint : refines clock (acquire_owner_claim clock q endpoint).
Proof.
  intros s. unfold acquire_owner_claim. meta_run; settle; apply store_owner_wpm; meta_run; right;
    (eapply owner_granted; [done|done|done|]).
  - apply GrantRenewed; [|done]. match goal with E : true && _ = false |- _ => cbn in E end.
    settle. symmetry. by apply String.eqb_eq.
  - match goal with E : add_or AuthorityEpochOverflow _ _ = Ok _ |- _ => apply add_or_ok, checked_u64_add in E as [-> ?] end.
    apply GrantNext; [done|done|left]. by apply Z.ltb_ge.
  - by apply GrantFirst.
Qed.

Lemma acquire_with_endpoint_refines clock q e : refines clock (acquire_standing_runtime_owner_with_endpoint clock q e).
Proof. intros s. unfold acquire_standing_runtime_owner_with_endpoint. apply wpm_lift; [by left|]. intros _ _. apply acquire_owner_refines. Qed.

Lemma reacquire_endpoint q :
  validate_reacquire_owner q = Ok tt -> oc_owner_endpoint (ro_expected_current q) = Some (ro_owner_endpoint q).
Proof.
  unfold validate_reacquire_owner. intros Hv. do 7 apply bind_unit_ok in Hv as [_ Hv].
  apply bind_unit_ok in Hv as [Hv _]. apply fail_if_ok in Hv. by settle.
Qed.

Lemma reacquire_owner_refines clock q : refines clock (reacquire_standing_runtime_owner clock q).
Proof.
  intros s. unfold reacquire_standing_runtime_owner. meta_run; settle. apply store_owner_wpm. meta_run. right.
  subst. eapply owner_granted; [done|done|done|].
  match goal with E : add_or AuthorityEpochOverflow _ _ = Ok _ |- _ => apply add_or_ok, checked_u64_add in E as [-> ?] end.
  apply GrantNext; [done|done|right]. by erewrite reacquire_endpoint.
Qed.

Lemma current_owner_some current owner now :
  validate_current_standing_runtime_owner current owner now = Ok tt ->
  exists claim, current = Some claim /\ claim_token claim = owner /\ now < oc_expires_at_unix_ms claim.
Proof.
  unfold validate_current_standing_runtime_owner. destruct current as [claim|]; [|done].
  intros Hc. apply fail_if_ok in Hc. settle. exists claim. split_and!; [done|done|by apply Z.leb_gt].
Qed.

Lemma renew_owner_refines clock owner ttl : refines clock (renew_standing_runtime_owner clock owner ttl).
Proof.
  intros s. unfold renew_standing_runtime_owner. meta_run; settle. apply store_owner_wpm. meta_run. right.
  match goal with Hc : validate_current_standing_runtime_owner _ _ _ = Ok tt |- _ =>
    apply current_owner_some in Hc as (claim & Hclaim & <- & _) end.
  match goal with E : ok_or _ _ = Ok _ |- _ => rewrite Hclaim in E; injection E as <- end.
  eapply owner_granted; [done|done|done|]. by apply GrantRenewed.
Qed.

Lemma publish_checkpoint_refines clock q : refines clock (publish_standing_runtime_checkpoint clock q).
Proof.
  intros s. unfold publish_standing_runtime_checkpoint. meta_run; settle. right. subst.
  apply RuntimeCheckpointPublished; [done|by eexists|done|done|].
  by match goal with E : standing_runtime_checkpoints s !! _ = _ |- _ => rewrite <-E end.
Qed.

(** ** Authorities *)

Lemma store_authority_wpm {A} key token (next : unit -> meta A) s Q :
  wpm (next tt) (with_partition_authorities (<[key := token]> (partition_authorities s)) s) Q ->
  wpm (store_authority key token ≫= next) s Q.
Proof. done. Qed.

Lemma authority_granted clock s key token current :
  at_key token = key -> partition_authorities s !! key = current ->
  authority_grant (partition_authority_now_unix_ms s) current token ->
  effect clock s (with_partition_authorities (<[key := token]> (partition_authorities s)) s).
Proof. intros <- <-. by apply AuthorityGranted. Qed.

Lemma validate_acquire_key q token :
  validate_acquire_authority q = Ok tt -> aa_current_token q = Some token -> at_key token = aa_key q.
Proof.
  unfold validate_acquire_authority. intros Hv E. rewrite E in Hv. do 4 apply bind_unit_ok in Hv as [_ Hv].
  apply bind_unit_ok in Hv as [Hv _]. apply fail_if_ok in Hv. by settle.
Qed.

Lemma acquire_authority_refines clock q : refines clock (acquire_partition_authority q).
Proof.
  intros s. unfold acquire_partition_authority. meta_run; settle; apply store_authority_wpm; meta_run; right.
  - eapply authority_granted; [cbn; by eapply validate_acquire_key|done|by apply GrantRenewed].
  - match goal with E : add_or _ (at_owner_epoch _) _ = Ok _ |- _ => apply add_or_ok, checked_u64_add in E as [-> ?] end.
    eapply authority_granted; [done|done|]. apply GrantNext; [done|done|]. by apply Z.ltb_ge.
  - eapply authority_granted; [done|done|by apply GrantFirst].
Qed.

Lemma publish_pointer_refines clock q : refines clock (publish_partition_checkpoint_pointer q).
Proof.
  intros s. unfold publish_partition_checkpoint_pointer. meta_run; settle. right.
  apply PartitionPointerPublished; [done| |done]. unfold holds_authority.
  match goal with Hv : validate_publish_pointer q = Ok tt |- _ =>
    apply bind_unit_ok in Hv as [_ Hv]; apply bind_unit_ok in Hv as [_ Hv]; apply bind_unit_ok in Hv as [Hv _];
    apply fail_if_ok in Hv; settle; rewrite Hv end. done.
Qed.

Lemma store_relation_authority_wpm {A} key token (next : unit -> meta A) s Q :
  wpm (next tt) (with_relation_partition_authorities (<[key := token]> (relation_partition_authorities s)) s) Q ->
  wpm (store_relation_authority key token ≫= next) s Q.
Proof. done. Qed.

Lemma relation_authority_granted clock s key token current :
  rt_key token = key -> relation_partition_authorities s !! key = current ->
  relation_grant (partition_authority_now_unix_ms s) current token ->
  effect clock s (with_relation_partition_authorities (<[key := token]> (relation_partition_authorities s)) s).
Proof. intros <- <-. by apply RelationAuthorityGranted. Qed.

Lemma validate_acquire_relation_key q token :
  validate_acquire_relation_authority q = Ok tt -> ar_current_token q = Some token -> rt_key token = ar_key q.
Proof.
  unfold validate_acquire_relation_authority. intros Hv E. rewrite E in Hv. do 4 apply bind_unit_ok in Hv as [_ Hv].
  apply bind_unit_ok in Hv as [Hv _]. apply fail_if_ok in Hv. by settle.
Qed.

Lemma acquire_relation_refines clock q explicit : refines clock (acquire_relation_partition_authority_inner q explicit).
Proof.
  intros s. unfold acquire_relation_partition_authority_inner. meta_run; settle;
    apply store_relation_authority_wpm; meta_run; right;
    try match goal with E : add_or _ (rt_owner_epoch _) _ = Ok _ |- _ => apply add_or_ok, checked_u64_add in E as [-> ?] end.
  - eapply relation_authority_granted; [done|done|]. apply GrantNext; [done|done|right]. symmetry. by apply String.eqb_eq.
  - eapply relation_authority_granted; [cbn; by eapply validate_acquire_relation_key|done|by apply GrantRenewed].
  - eapply relation_authority_granted; [done|done|]. apply GrantNext; [done|done|left]. by apply Z.ltb_ge.
  - eapply relation_authority_granted; [done|done|by apply GrantFirst].
Qed.

(** ** Relation ingest *)

Lemma none_of_not_some {A} (o : option A) : ~ is_Some o -> o = None.
Proof. destruct o; [intros []; eauto|done]. Qed.

Lemma reserve_relation_refines clock q : refines clock (reserve_relation_authoritative_ingest_range q).
Proof.
  intros s. unfold reserve_relation_authoritative_ingest_range. meta_run; settle. right.
  apply RelationReserved; [done|by apply is_ok_unit|..]; eauto using existsb_overlaps, none_of_not_some.
Qed.

Lemma publish_relation_refines clock q : refines clock (publish_relation_ingest_reservation q).
Proof.
  intros s. unfold publish_relation_ingest_reservation. meta_run; settle. right.
  apply RelationPublished; [done|by apply is_ok_unit|done| |done].
  destruct (relation_reservation_publications s !! pl_reservation q) as [id|]; [right|by left].
  settle. f_equal. by apply String.eqb_eq.
Qed.

(** Every operation leaves the state alone or has one of the effects. *)
Lemma perform_refines clock c s : perform clock c s = s \/ effect clock s (perform clock c s).
Proof.
  destruct c; cbn [perform].
  - apply store_relation_catalog_refines.
  - apply create_active_view_record_refines.
  - apply compare_exchange_refines.
  - apply import_refines.
  - apply reserve_ingest_range_refines.
  - apply commit_ingest_range_refines.
  - apply commit_ingest_ranges_refines.
  - apply reserve_authoritative_refines.
  - apply publish_ingest_reservation_refines.
  - apply begin_view_bootstrap_refines.
  - apply fix_activation_refines.
  - apply promote_refines.
  - apply promote_with_record_refines.
  - apply acquire_owner_refines.
  - apply acquire_with_endpoint_refines.
  - apply reacquire_owner_refines.
  - apply renew_owner_refines.
  - apply publish_checkpoint_refines.
  - apply acquire_authority_refines.
  - apply acquire_relation_refines.
  - apply acquire_relation_refines.
  - apply reserve_relation_refines.
  - apply publish_relation_refines.
  - apply publish_pointer_refines.
Qed.

(** * Runs *)

(** One step of the service: a command at some reading of the clock, a new tick of
    the authority clock, or an owner that is made to expire. *)
Inductive meta_step (s : InMemoryMetaState) : InMemoryMetaState -> Prop :=
| StepCommand clock c : meta_step s (perform clock c s)
| StepTick tick : meta_step s (with_partition_authority_now_unix_ms tick s)
| StepExpire key claim :
    standing_runtime_owners s !! key = Some claim ->
    meta_step s (with_standing_runtime_owners (<[key := set_expiry 0 claim]> (standing_runtime_owners s)) s).

Definition meta_steps : relation InMemoryMetaState := rtc meta_step.
Definition reachable (s : InMemoryMetaState) : Prop := meta_steps default_state s.

Lemma reachable_steps s s' : reachable s -> meta_steps s s' -> reachable s'.
Proof. intros Hr Hs. unfold reachable, meta_steps in *. by etransitivity. Qed.

(** Rule induction: what holds at the start and is kept by ticks, expiries and every
    effect on a reachable state holds in every reachable state. *)
Lemma reachable_rule (I : InMemoryMetaState -> Prop) :
  I default_state ->
  (forall s tick, I s -> I (with_partition_authority_now_unix_ms tick s)) ->
  (forall s key claim, I s -> standing_runtime_owners s !! key = Some claim ->
    I (with_standing_runtime_owners (<[key := set_expiry 0 claim]> (standing_runtime_owners s)) s)) ->
  (forall clock s s', reachable s -> I s -> effect clock s s' -> I s') ->
  forall s, reachable s -> I s.
Proof.
  intros H0' Htick Hexpire Heff s Hs. revert s Hs. apply rtc_ind_r; [done|]. intros s s' Hs Hstep IH.
  destruct Hstep as [clock c|tick|key claim Hc]; [|by apply Htick|by apply Hexpire].
  destruct (perform_refines clock c s) as [->|He]; [done|by eapply Heff].
Qed.

Lemma reachable_ind (I : InMemoryMetaState -> Prop) :
  I default_state ->
  (forall s tick, I s -> I (with_partition_authority_now_unix_ms tick s)) ->
  (forall s key claim, I s -> standing_runtime_owners s !! key = Some claim ->
    I (with_standing_runtime_owners (<[key := set_expiry 0 claim]> (standing_runtime_owners s)) s)) ->
  (forall clock s s', I s -> effect clock s s' -> I s') ->
  forall s, reachable s -> I s.
Proof. intros H0' Htick Hexpire Heff. apply reachable_rule; try done. intros clock s s' _. apply Heff. Qed.

(** A preorder on states that ticks, expiries and effects respect relates the ends of every run. *)
Lemma steps_preorder (R : relation InMemoryMetaState) `{!PreOrder R} :
  (forall s tick, R s (with_partition_authority_now_unix_ms tick s)) ->
  (forall s key claim, standing_runtime_owners s !! key = Some claim ->
    R s (with_standing_runtime_owners (<[key := set_expiry 0 claim]> (standing_runtime_owners s)) s)) ->
  (forall clock s s', effect clock s s' -> R s s') ->
  forall s s', meta_steps s s' -> R s s'.
Proof.
  intros Htick Hexpire Heff s s' Hs. induction Hs as [|s s' s'' Hstep _ IH]; [reflexivity|].
  transitivity s'; [|done]. destruct Hstep as [clock c|tick|key claim Hc]; [|apply Htick|by apply Hexpire].
  destruct (perform_refines clock c s) as [->|He]; [reflexivity|by eapply Heff].
Qed.
End effects.
