(* ===== verification/MetaFencing.v ===== *)
(** Fencing in the metadata service: the owners of views and the authorities of partitions.

    Along every run the epoch under which a view or a partition is held never
    decreases, and one epoch has one owner; so an owner that was once superseded
    is refused by every operation that asks for the owner. *)
From S2P Require Import Prelude BTree Json Digits Segments ObjectKey Hash Serde JsonText Relation StandingProgram MetaTypes SourceCut ViewBootstrap MetaRequests MetaStore MetaMachine.

(** * Leases *)

Section leases.
Context `{Countable K} {T : Type} (owner : T -> string) (epoch : T -> Z).

(** [t'] is held after [t] was: the epoch moved on, or it is the same owner. *)
Definition after (t t' : T) : Prop := epoch t < epoch t' \/ (epoch t' = epoch t /\ owner t' = owner t).

Definition leases_le (m m' : gmap K T) : Prop :=
  forall k t, m !! k = Some t -> exists t', m' !! k = Some t' /\ after t t'.

#[export] Instance after_preorder : PreOrder after.
Proof.
  split.
  - intros t. right. done.
  - intros t1 t2 t3 [?|[? ?]] [?|[? ?]]; unfold after; [left; lia|left; lia|left; lia|right; split; congruence].
Qed.

#[export] Instance leases_le_preorder : PreOrder leases_le.
Proof.
  split.
  - intros m k t Ht. exists t. split; [done|reflexivity].
  - intros m1 m2 m3 H12 H23 k t Ht. destruct (H12 k t Ht) as (t2 & Ht2 & Ha). destruct (H23 k t2 Ht2) as (t3 & Ht3 & Hb).
    exists t3. split; [done|by transitivity t2].
Qed.

Lemma leases_le_insert m k t : (forall t0, m !! k = Some t0 -> after t0 t) -> leases_le m (<[k := t]> m).
Proof.
  intros Hk k' t' Ht'. destruct (decide (k = k')) as [<-|Hne].
  - exists t. by rewrite lookup_insert_eq; split; [|apply Hk].
  - exists t'. rewrite lookup_insert_ne by done. split; [done|reflexivity].
Qed.

Lemma leases_le_grant may_follow m k t : grant owner epoch may_follow (m !! k) t -> leases_le m (<[k := t]> m).
Proof.
  intros Hg. apply leases_le_insert. intros t0 E. rewrite E in Hg.
  inversion Hg; subst; [by right|left; lia].
Qed.
End leases.

Section fencing.
Context `{Sha256, SerdeJson, RelationCodec, MetaEnv}.

(** The three kinds of leases of a state. *)
Definition fences_le (s s' : InMemoryMetaState) : Prop :=
  leases_le oc_owner_id oc_owner_epoch (standing_runtime_owners s) (standing_runtime_owners s') /\
  leases_le at_owner_id at_owner_epoch (partition_authorities s) (partition_authorities s') /\
  leases_le rt_owner_id rt_owner_epoch (relation_partition_authorities s) (relation_partition_authorities s').

#[export] Instance fences_le_preorder : PreOrder fences_le.
Proof.
  split.
  - intros s. split_and!; reflexivity.
  - intros s1 s2 s3 (? & ? & ?) (? & ? & ?). split_and!; by etransitivity.
Qed.

Lemma effect_fences clock s s' : effect clock s s' -> fences_le s s'.
Proof.
  intros He. destruct He; subst; split_and!; cbn; try reflexivity; by eapply leases_le_grant.
Qed.

Lemma steps_fences s s' : meta_steps s s' -> fences_le s s'.
Proof.
  apply steps_preorder; [apply _|..|apply effect_fences].
  - intros ??. split_and!; reflexivity.
  - intros ? key claim Hc. split_and!; cbn; try reflexivity. apply leases_le_insert. intros t0 E. right. naive_solver.
Qed.

(** Every lease is stored under what it is a lease of. *)
Definition leases_keyed (s : InMemoryMetaState) : Prop :=
  map_Forall (fun k c => claim_scope c = k) (standing_runtime_owners s) /\
  map_Forall (fun k t => at_key t = k) (partition_authorities s) /\
  map_Forall (fun k t => rt_key t = k) (relation_partition_authorities s).

Lemma reachable_keyed s : reachable s -> leases_keyed s.
Proof.
  apply reachable_ind.
  - split_and!; apply map_Forall_empty.
  - by intros.
  - intros s' key claim (Ho & Ha & Hr) Hc. split_and!; [|done|done]. apply map_Forall_insert_2; [|done]. apply (Ho _ _ Hc).
  - intros clock s1 s2 (Ho & Ha & Hr) He. destruct He; subst; split_and!; cbn; try done; by apply map_Forall_insert_2.
Qed.

(** ** Superseded owners of views *)

(** The token is not the one of the current holder [c]: the view went to a later epoch or, at the
    same epoch, to another owner. *)
Definition superseded (t : StandingRuntimeOwnerToken) (c : StandingRuntimeOwnerClaim) : Prop :=
  ot_owner_epoch t < oc_owner_epoch c \/ (ot_owner_epoch t = oc_owner_epoch c /\ ot_owner_id t <> oc_owner_id c).

(** No view accepts the token. *)
Lemma superseded_refused s s' t c key now :
  reachable s -> meta_steps s s' -> standing_runtime_owners s !! token_scope t = Some c -> superseded t c ->
  validate_current_standing_runtime_owner (standing_runtime_owners s' !! key) t now = Err StandingRuntimeOwnerMismatch.
Proof.
  intros Hr Hs Hc Hsup.
  destruct (validate_current_standing_runtime_owner _ t now) as [[]|e] eqn:E.
  - apply current_owner_some in E as (c' & Hc' & <- & _).
    destruct (reachable_keyed s') as (Hk & _); [by eapply reachable_steps|]. pose proof (Hk _ _ Hc') as Hkey.
    destruct (steps_fences _ _ Hs) as (Ho & _). destruct (Ho _ _ Hc) as (c2 & Hc2 & Ha).
    assert (token_scope (claim_token c') = key) as Hscope by done. rewrite Hscope, Hc' in Hc2. injection Hc2 as <-.
    destruct Hsup as [Hlt|[Heq Hne]], Ha as [Ha|[Ha Ha']]; cbn in *; [lia|lia|lia|congruence].
  - unfold validate_current_standing_runtime_owner, fail_if in E. repeat case_match; congruence.
Qed.

(** What a refused owner cannot do. *)
Definition fenced_out (t : StandingRuntimeOwnerToken) (s : InMemoryMetaState) : Prop :=
  forall clock,
    (forall q, pk_owner q = t -> exists e, publish_standing_runtime_checkpoint clock q s = (Err e, s)) /\
    (forall q, fx_owner q = t -> exists e, fix_view_bootstrap_activation_cut clock q s = (Err e, s)) /\
    (forall q, pm_owner q = t -> exists e, promote_view_bootstrap clock q s = (Err e, s)) /\
    (forall q, pm_owner (vp_bootstrap q) = t -> exists e, promote_view_bootstrap_with_active_view_record clock q s = (Err e, s)) /\
    (forall ttl_ms, exists e, renew_standing_runtime_owner clock t ttl_ms s = (Err e, s)).

Lemma lift_refused {A} (r : checked unit) (f : unit -> meta A) s e : r = Err e -> (lift r ≫= f) s = (Err e, s).
Proof. by intros ->. Qed.

Lemma lift_then {A B} (r : checked A) (f : A -> meta B) s :
  (forall a, r = Ok a -> exists e, f a s = (Err e, s)) -> exists e, (lift r ≫= f) s = (Err e, s).
Proof. destruct r as [a|e]; [intros Hf; by apply Hf|by exists e]. Qed.

Lemma state_then {B} (f : InMemoryMetaState -> meta B) s :
  (exists e, f s s = (Err e, s)) -> exists e, (state ≫= f) s = (Err e, s).
Proof. done. Qed.

(** Goes through the checks an operation makes before it looks at the owner. *)
Ltac to_owner :=
  repeat match goal with
  | |- exists e, (lift (validate_current_standing_runtime_owner _ _ _) ≫= _) _ = _ => eexists; apply lift_refused
  | |- exists e, (lift _ ≫= _) _ = _ => apply lift_then; intros ??
  | |- exists e, (state ≫= _) _ = _ => apply state_then
  | |- exists e, _ => progress cbn beta zeta
  end.

Lemma refused_fenced s t :
  (forall key now, validate_current_standing_runtime_owner (standing_runtime_owners s !! key) t now = Err StandingRuntimeOwnerMismatch) ->
  fenced_out t s.
Proof.
  intros Ht clock. split_and!; [intros q <-|intros q <-|intros q <-|intros q <-|intros ttl_ms].
  - unfold publish_standing_runtime_checkpoint. to_owner. apply Ht.
  - unfold fix_view_bootstrap_activation_cut. to_owner. apply Ht.
  - unfold promote_view_bootstrap. to_owner. apply Ht.
  - unfold promote_view_bootstrap_with_active_view_record. to_owner. apply Ht.
  - unfold renew_standing_runtime_owner. to_owner. apply Ht.
Qed.

(** C17: A superseded owner of a view can never again publish a checkpoint, fix an
    activation cut, promote the view or renew its lease, whatever happened since. *)
Theorem superseded_owner_fenced s s' t c :
  reachable s -> meta_steps s s' -> standing_runtime_owners s !! token_scope t = Some c -> superseded t c ->
  fenced_out t s'.
Proof. intros Hr Hs Hc Hsup. apply refused_fenced. intros key now. by eapply superseded_refused. Qed.

(** ** Superseded authorities *)

Definition superseded_authority (t c : PartitionAuthorityToken) : Prop :=
  at_owner_epoch t < at_owner_epoch c \/ (at_owner_epoch t = at_owner_epoch c /\ at_owner_id t <> at_owner_id c).
Definition superseded_relation_authority (t c : RelationPartitionAuthorityToken) : Prop :=
  rt_owner_epoch t < rt_owner_epoch c \/ (rt_owner_epoch t = rt_owner_epoch c /\ rt_owner_id t <> rt_owner_id c).

Lemma current_authority_some current t now :
  validate_current_partition_authority current t now = Ok tt -> current = Some t.
Proof.
  unfold validate_current_partition_authority. destruct current as [c|]; [|done].
  intros Hc. apply fail_if_ok, orb_false_iff in Hc as [_ Hc]. apply bool_decide_eq_false, dec_stable in Hc. by subst.
Qed.
Lemma current_relation_authority_some current t now :
  validate_current_relation_partition_authority current t now = Ok tt -> current = Some t.
Proof.
  unfold validate_current_relation_partition_authority. destruct current as [c|]; [|done].
  intros Hc. apply fail_if_ok, orb_false_iff in Hc as [_ Hc]. apply bool_decide_eq_false, dec_stable in Hc. by subst.
Qed.

Lemma superseded_authority_refused s s' t c now :
  meta_steps s s' -> partition_authorities s !! at_key t = Some c -> superseded_authority t c ->
  is_ok (validate_current_partition_authority (partition_authorities s' !! at_key t) t now) = false.
Proof.
  intros Hs Hc Hsup. destruct (validate_current_partition_authority _ t now) as [[]|] eqn:E; [|done].
  apply current_authority_some in E. destruct (steps_fences _ _ Hs) as (_ & Ha & _).
  destruct (Ha _ _ Hc) as (c2 & Hc2 & Haft). rewrite E in Hc2. injection Hc2 as <-.
  destruct Hsup as [?|[? ?]], Haft as [?|[? ?]]; [lia|lia|lia|congruence].
Qed.
Lemma superseded_relation_refused s s' t c now :
  meta_steps s s' -> relation_partition_authorities s !! rt_key t = Some c -> superseded_relation_authority t c ->
  is_ok (validate_current_relation_partition_authority (relation_partition_authorities s' !! rt_key t) t now) = false.
Proof.
  intros Hs Hc Hsup. destruct (validate_current_relation_partition_authority _ t now) as [[]|] eqn:E; [|done].
  apply current_relation_authority_some in E. destruct (steps_fences _ _ Hs) as (_ & _ & Ha).
  destruct (Ha _ _ Hc) as (c2 & Hc2 & Haft). rewrite E in Hc2. injection Hc2 as <-.
  destruct Hsup as [?|[? ?]], Haft as [?|[? ?]]; [lia|lia|lia|congruence].
Qed.

(** C18: A superseded authority of a relation partition changes nothing any more: its
    reservations and publications are turned down, also repeated ones. *)
Theorem superseded_relation_authority_fenced s s' t c :
  meta_steps s s' -> relation_partition_authorities s !! rt_key t = Some c -> superseded_relation_authority t c ->
  (forall r, validate_reserve_relation (ReserveRelation r t) = Ok tt ->
    reserve_relation_authoritative_ingest_range (ReserveRelation r t) s' = (Ok RangeConflict, s')) /\
  (forall r id digest key object, let q := PublishRelation r t id digest key object in
    validate_publish_relation q = Ok tt -> publish_relation_ingest_reservation q s' = (Ok InvalidAuthority, s')).
Proof.
  intros Hs Hc Hsup. pose proof (fun now => superseded_relation_refused s s' t c now Hs Hc Hsup) as Href. split.
  - intros r Hv. unfold reserve_relation_authoritative_ingest_range, mbind, meta_bind, lift, state. rewrite Hv.
    cbn [rr_authority]. by rewrite Href.
  - intros r id digest key object q Hv. unfold publish_relation_ingest_reservation, mbind, meta_bind, lift, state. rewrite Hv.
    cbn [pl_authority q]. by rewrite Href.
Qed.

(** A superseded authority of an input partition reserves nothing and publishes
    neither ranges nor checkpoint pointers; only the repetition of a publication that
    was made is still recognised. *)
Theorem superseded_authority_fenced s s' t c :
  meta_steps s s' -> partition_authorities s !! at_key t = Some c -> superseded_authority t c ->
  (forall r, (reserve_authoritative_ingest_range (ReserveAuthoritative r t) s').2 = s') /\
  (forall r id digest key object, (publish_ingest_reservation (PublishReservation r t id digest key object) s').2 = s') /\
  (forall previous candidate, exists e,
    publish_partition_checkpoint_pointer (PublishPointer previous candidate t) s' = (Err e, s')).
Proof.
  intros Hs Hc Hsup. pose proof (fun now => superseded_authority_refused s s' t c now Hs Hc Hsup) as Href. split_and!.
  - intros r. change (wpm (reserve_authoritative_ingest_range (ReserveAuthoritative r t)) s' (fun u => u = s')).
    unfold reserve_authoritative_ingest_range. cbn [ra_authority]. apply wpm_lift; [done|]. intros _ _. apply wpm_state.
    by rewrite Href.
  - intros r id digest key object.
    change (wpm (publish_ingest_reservation (PublishReservation r t id digest key object)) s' (fun u => u = s')).
    unfold publish_ingest_reservation. cbn [pr_authority pr_request_id]. apply wpm_lift; [done|]. intros _ _. apply wpm_state.
    cbn zeta. case_match; [done|]. by rewrite Href.
  - intros previous candidate. unfold publish_partition_checkpoint_pointer. cbn [pq_candidate pq_authority].
    apply lift_then. intros [] Hv. apply state_then. cbn beta zeta. apply lift_then. intros [] Hcur. exfalso.
    apply bind_unit_ok in Hv as [_ Hv]. apply bind_unit_ok in Hv as [_ Hv]. apply bind_unit_ok in Hv as [Hv _].
    apply fail_if_ok, bool_decide_eq_false, dec_stable in Hv. cbn in Hv. rewrite <-Hv in Hcur.
    specialize (Href (partition_authority_now_unix_ms s')). by rewrite Hcur in Href.
Qed.

(** ** Takeovers *)

(** A view whose lease runs at the time of a command only goes to another owner that
    calls from the endpoint of the one it replaces, and under the next epoch. *)
Theorem live_owner_kept now c s key claim claim' :
  standing_runtime_owners s !! key = Some claim -> now < oc_expires_at_unix_ms claim ->
  standing_runtime_owners (perform (Ok now) c s) !! key = Some claim' ->
  (oc_owner_id claim' = oc_owner_id claim /\ oc_owner_epoch claim' = oc_owner_epoch claim) \/
  (oc_owner_epoch claim' = oc_owner_epoch claim + 1 /\
   is_Some (oc_owner_endpoint claim) /\ oc_owner_endpoint claim' = oc_owner_endpoint claim).
Proof.
  intros Hc Hlive Hc'. destruct (perform_refines (Ok now) c s) as [E|He].
  { rewrite E, Hc in Hc'. injection Hc' as <-. by left. }
  destruct He as [| | | | | | | | | | | |now' cl [= <-] Hg| | | | | |]; subst; cbn in Hc';
    try (rewrite Hc in Hc'; injection Hc' as <-; by left).
  destruct (decide (claim_scope cl = key)) as [<-|Hne].
  - rewrite lookup_insert_eq in Hc'. injection Hc' as <-. rewrite Hc in Hg. inversion Hg as [| |? ? ? ? Hf]; subst; [by left|right].
    destruct Hf as [?|[? ?]]; [lia|done].
  - rewrite lookup_insert_ne in Hc' by done. rewrite Hc in Hc'. injection Hc' as <-. by left.
Qed.
End fencing.
