(* ===== verification/MetaViews.v ===== *)
(** Views in the metadata service: the lineage of checkpoint pointers, the lifecycle of
    bootstraps and the registry of active views. *)
From S2P Require Import Prelude BTree Json Digits Segments ObjectKey Hash Serde JsonText Relation StandingProgram MetaTypes SourceCut ViewBootstrap MetaRequests MetaStore MetaMachine.

(** * Progress of bootstraps *)

(** Splits conjunctions of tests. *)
Ltac tests :=
  repeat match goal with
  | E : (_ && _) = true |- _ => apply andb_true_iff in E as [? E]
  | E : (_ || _) = false |- _ => apply orb_false_iff in E as [? E]
  | E : negb _ = false |- _ => apply negb_false_iff in E
  | E : negb _ = true |- _ => apply negb_true_iff in E
  | E : String.eqb _ _ = true |- _ => apply String.eqb_eq in E
  | E : (_ =? _)%Z = true |- _ => apply Z.eqb_eq in E
  | E : (_ <=? _)%Z = true |- _ => apply Z.leb_le in E
  | E : (_ <=? _)%Z = false |- _ => apply Z.leb_gt in E
  | E : (_ =? _)%nat = true |- _ => apply Nat.eqb_eq in E
  | E : bool_decide _ = true |- _ => apply bool_decide_eq_true in E
  | E : bool_decide _ = false |- _ => apply bool_decide_eq_false in E
  | E : ~ (_ <> _) |- _ => apply dec_stable in E
  end.

Lemma forallb_elem {A} (f : A -> bool) l x : forallb f l = true -> x ∈ l -> f x = true.
Proof. intros Hf Hx. rewrite forallb_forall in Hf. apply Hf. by apply list_elem_of_In. Qed.
Lemma forallb_intro {A} (f : A -> bool) l : (forall x, x ∈ l -> f x = true) -> forallb f l = true.
Proof. intros Hf. apply forallb_forall. intros x Hx. apply Hf. by apply list_elem_of_In. Qed.
Lemma existsb_elem {A} (f : A -> bool) l : existsb f l = true <-> exists x, x ∈ l /\ f x = true.
Proof. rewrite existsb_exists. by setoid_rewrite list_elem_of_In. Qed.

Lemma input_follows_refl x : input_follows x x = true.
Proof.
  unfold input_follows. rewrite !String.eqb_refl, !Z.eqb_refl, !Z.leb_refl, orb_true_r. by rewrite bool_decide_eq_true_2.
Qed.

Lemma input_follows_trans x y z : input_follows x y = true -> input_follows y z = true -> input_follows x z = true.
Proof.
  unfold input_follows. intros Hxy Hyz. tests. apply orb_true_iff in Hxy, Hyz.
  repeat (apply andb_true_iff; split); try (apply String.eqb_eq; congruence); try (apply Z.eqb_eq; lia); try (apply Z.leb_le; lia).
  - apply bool_decide_eq_true. congruence.
  - apply orb_true_iff. rewrite !negb_true_iff, !Z.eqb_neq, !Z.eqb_eq in *. lia.
Qed.

Lemma follows_refl p : follows p p = true.
Proof.
  unfold follows. rewrite !Z.eqb_refl, String.eqb_refl, Nat.eqb_refl. apply forallb_intro. intros x Hx.
  apply existsb_elem. eauto using input_follows_refl.
Qed.

Lemma follows_trans p q r : follows q p = true -> follows r q = true -> follows r p = true.
Proof.
  unfold follows. intros Hqp Hrq. tests.
  repeat (apply andb_true_iff; split); try (apply Z.eqb_eq; congruence); try (apply String.eqb_eq; congruence);
    try (apply Nat.eqb_eq; congruence).
  apply forallb_intro. intros x Hx. eapply forallb_elem in Hqp; [|done]. apply existsb_elem in Hqp as (y & Hy & Hxy).
  eapply forallb_elem in Hrq; [|done]. apply existsb_elem in Hrq as (z & Hz & Hyz).
  apply existsb_elem. eauto using input_follows_trans.
Qed.

(** * Coverage *)

Lemma partition_covered_trans required candidate p :
  partition_cut_covers required candidate = true -> partition_covered candidate p = true -> partition_covered required p = true.
Proof.
  unfold partition_cut_covers, partition_covered. intros Hc Hp. tests.
  repeat (apply andb_true_iff; split); try (apply String.eqb_eq; congruence); try (apply Z.eqb_eq; congruence). apply Z.leb_le. lia.
Qed.

Lemma checkpoint_covers_trans checkpoint candidate required :
  checkpoint_covers_source_cut checkpoint candidate = true -> source_cut_covers candidate required = true ->
  checkpoint_covers_source_cut checkpoint required = true.
Proof.
  unfold checkpoint_covers_source_cut, source_cut_covers. destruct (cp_input_coverage checkpoint) as [coverage|]; [|done].
  intros Hcov Hcut. tests. apply forallb_intro. intros b Hb. eapply forallb_elem in Hcut; [|done].
  apply existsb_elem in Hcut as (a & Ha & Hab). tests. eapply forallb_elem in Hcov; [|done].
  apply existsb_elem in Hcov as (c & Hc & Hac). apply existsb_elem. exists c. split; [done|].
  unfold relation_covered in *.
  match goal with E : sr_relation a = _ |- _ => rewrite E in Hac end. tests.
  repeat (apply andb_true_iff; split); try (by apply String.eqb_eq); try (by apply Z.eqb_eq).
  apply forallb_intro. intros p Hp. eapply forallb_elem in Hab; [|done]. apply existsb_elem in Hab as (pa & Hpa & Hpp).
  eapply forallb_elem in Hac; [|done]. apply existsb_elem in Hac as (pc & Hpc & Hpac). apply existsb_elem.
  eauto using partition_covered_trans.
Qed.

Section views.
Context `{Sha256, SerdeJson, RelationCodec, MetaEnv}.

(** * Checkpoint pointers *)

(** The progress of a bootstrap from published views does not go back. *)
Definition progress_kept (o o' : option PublishedInputBootstrapProgressV1) : Prop :=
  forall previous, o = Some previous -> exists next, o' = Some next /\ follows next previous = true.

(** [p'] was published over [p]. *)
Definition succeeds (p p' : StandingRuntimeCheckpointPointer) : Prop :=
  cp_logical_epoch p < cp_logical_epoch p' /\
  cp_previous_checkpoint_key p' = cp_checkpoint_key p /\
  cp_previous_manifest_hash p' = cp_manifest_hash p /\
  (cp_bootstrap_generation p <> 0 -> cp_bootstrap_generation p' = cp_bootstrap_generation p /\ cp_plan_hash p' = cp_plan_hash p) /\
  progress_kept (cp_published_input_bootstrap p) (cp_published_input_bootstrap p').

Abbreviation lineage := (rtc succeeds).

Lemma validate_succession_ok p p' :
  validate_succession p' p = Ok tt -> progress_kept (cp_published_input_bootstrap p) (cp_published_input_bootstrap p') ->
  p' = p \/ succeeds p p'.
Proof.
  unfold validate_succession. case_bool_decide as E; [by left|]. intros Hv Hp. right.
  apply bind_unit_ok in Hv as [H1' Hv]. apply bind_unit_ok in Hv as [H2' H3'].
  apply fail_if_ok in H1', H2', H3'. tests. split_and!; [lia|done|done| |done].
  intros Hgen. apply andb_false_iff in H3' as [H3'|H3']; tests; [|done]. done.
Qed.

Lemma progress_admissible_kept control current candidate p :
  progress_admissible control current candidate = true -> current = Some p ->
  progress_kept (cp_published_input_bootstrap p) (cp_published_input_bootstrap candidate).
Proof.
  unfold progress_admissible. intros Hp -> previous E. apply andb_true_iff in Hp as [_ Hp]. cbn in Hp. rewrite E in Hp.
  destruct (cp_published_input_bootstrap candidate) as [next|]; [by exists next|done].
Qed.

(** Every pointer of a view descends from the pointers before. *)
Definition pointers_le (s s' : InMemoryMetaState) : Prop :=
  forall k p, standing_runtime_checkpoints s !! k = Some p ->
    exists p', standing_runtime_checkpoints s' !! k = Some p' /\ lineage p p'.

#[export] Instance pointers_le_preorder : PreOrder pointers_le.
Proof.
  split.
  - intros s k p Hp. exists p. split; [done|constructor].
  - intros s1 s2 s3 H12 H23 k p Hp. destruct (H12 _ _ Hp) as (p2 & Hp2 & Hl2). destruct (H23 _ _ Hp2) as (p3 & Hp3 & Hl3).
    exists p3. split; [done|by etransitivity].
Qed.

Lemma pointers_same s s' : standing_runtime_checkpoints s' = standing_runtime_checkpoints s -> pointers_le s s'.
Proof. intros E k p Hp. exists p. rewrite E. split; [done|constructor]. Qed.

Lemma publish_expected q p :
  validate_publish_checkpoint q = Ok tt -> pk_expected_previous q = Some p -> validate_succession (pk_candidate q) p = Ok tt.
Proof.
  unfold validate_publish_checkpoint. intros Hv E. rewrite E in Hv. by do 5 apply bind_unit_ok in Hv as [_ Hv].
Qed.

Lemma effect_pointers clock s s' : effect clock s s' -> pointers_le s s'.
Proof.
  intros He. destruct He as [| | | | | | | | | | | | |q Hv _ Hprev _ Hprog| | | | |]; subst; try by apply pointers_same.
  intros k p Hp. cbn. destruct (decide (standing_runtime_checkpoint_scope_key (pk_candidate q) = k)) as [<-|Hne].
  - exists (pk_candidate q). rewrite lookup_insert_eq. split; [done|]. rewrite Hp in Hprev.
    pose proof (publish_expected _ _ Hv (eq_sym Hprev)) as Hsucc. rewrite <-Hprev in Hprog.
    destruct (validate_succession_ok _ _ Hsucc) as [->|]; [by eapply progress_admissible_kept|constructor|by apply rtc_once].
  - exists p. rewrite lookup_insert_ne by done. split; [done|constructor].
Qed.

Lemma steps_pointers s s' : meta_steps s s' -> pointers_le s s'.
Proof. apply steps_preorder; [apply _|intros; by apply pointers_same|intros; by apply pointers_same|apply effect_pointers]. Qed.

Lemma lineage_epoch p p' : lineage p p' -> p' = p \/ cp_logical_epoch p < cp_logical_epoch p'.
Proof.
  intros Hl. induction Hl as [|p p1 p2 (Hlt & _) _ IH]; [by left|]. destruct IH as [->|]; right; lia.
Qed.

Lemma lineage_progress p p' :
  lineage p p' -> progress_kept (cp_published_input_bootstrap p) (cp_published_input_bootstrap p').
Proof.
  intros Hl. induction Hl as [|p p1 p2 (_ & _ & _ & _ & Hp) _ IH]; intros previous E.
  - exists previous. split; [done|apply follows_refl].
  - destruct (Hp _ E) as (n1 & E1 & F1). destruct (IH _ E1) as (n2 & E2 & F2). exists n2. split; [done|].
    by eapply follows_trans.
Qed.

Lemma lineage_plan p p' :
  lineage p p' -> cp_bootstrap_generation p <> 0 ->
  cp_bootstrap_generation p' = cp_bootstrap_generation p /\ cp_plan_hash p' = cp_plan_hash p.
Proof.
  intros Hl. induction Hl as [|p p1 p2 (_ & _ & _ & Hp & _) _ IH]; [done|]. intros Hgen.
  destruct (Hp Hgen) as [E1 E2]. rewrite E1, E2 in IH. by apply IH.
Qed.

(** C19: The pointers of a view form one chain: the current pointer is reached from any
    earlier one by pointers that each name the key and the manifest of the one
    before. Along it epochs increase, generation and plan stay once they are set, and
    progress from published views is not lost. *)
Theorem checkpoint_lineage s s' k p :
  meta_steps s s' -> standing_runtime_checkpoints s !! k = Some p ->
  exists p', standing_runtime_checkpoints s' !! k = Some p' /\ lineage p p' /\
    (p' = p \/ cp_logical_epoch p < cp_logical_epoch p') /\
    (cp_bootstrap_generation p <> 0 -> cp_bootstrap_generation p' = cp_bootstrap_generation p /\ cp_plan_hash p' = cp_plan_hash p) /\
    progress_kept (cp_published_input_bootstrap p) (cp_published_input_bootstrap p').
Proof.
  intros Hs Hp. destruct (steps_pointers _ _ Hs _ _ Hp) as (p' & Hp' & Hl). exists p'.
  split_and!; [done|done|by apply lineage_epoch|by apply lineage_plan|by apply lineage_progress].
Qed.

(** * Bootstraps *)

(** What holds of the bootstrap of a view in a state. *)
Definition control_ok (s : InMemoryMetaState) (key : scope) (c : ViewBootstrapControlV1) : Prop :=
  (vw_tenant_id c, vw_program_id c, vw_view_id c) = key /\
  (forall a, vw_activation_cut c = Some a -> source_cut_covers a (vw_bootstrap_cut c) = true) /\
  (vw_lifecycle c = Bootstrapping -> vw_active_checkpoint c = None) /\
  (vw_lifecycle c = ActiveView -> exists a p p',
    vw_activation_cut c = Some a /\ vw_active_checkpoint c = Some p /\
    checkpoint_covers_source_cut p a = true /\
    cp_bootstrap_generation p = vw_bootstrap_generation c /\ cp_plan_hash p = vw_plan_hash c /\
    (vw_view_inputs c = [] \/ exists progress, cp_published_input_bootstrap p = Some progress /\
      matches_control progress c = true /\ is_complete progress = true) /\
    standing_runtime_checkpoints s !! key = Some p' /\ lineage p p').

Definition bootstraps_ok (s : InMemoryMetaState) : Prop := map_Forall (control_ok s) (view_bootstraps s).

Lemma control_ok_pointers s s' key c : pointers_le s s' -> control_ok s key c -> control_ok s' key c.
Proof.
  intros Hle (Hk & Ha & Hb & Hact). split_and!; [done|done|done|].
  intros Hl. destruct (Hact Hl) as (a & p & p' & ? & ? & ? & ? & ? & ? & Hp' & Hlin).
  destruct (Hle _ _ Hp') as (p2 & Hp2 & Hlin2). exists a, p, p2. split_and!; try done. by etransitivity.
Qed.

Lemma promoted_ok s key c p a :
  control_ok s key c -> vw_activation_cut c = Some a ->
  promotable (standing_runtime_checkpoints s !! key) p c a = true -> control_ok s key (set_active p c).
Proof.
  intros (Hk & Ha & Hb & _) Hcut Hp. unfold promotable in Hp. tests. split_and!; [done|done|done|].
  intros _. exists a, p, p. split_and!; try done.
  apply orb_true_iff in Hp as [Hp|Hp]; tests; [by left|right].
  destruct (cp_published_input_bootstrap p) as [progress|]; [|done]. tests. by exists progress.
Qed.

Lemma effect_bootstraps clock s s' : bootstraps_ok s -> effect clock s s' -> bootstraps_ok s'.
Proof.
  intros Hok He. pose proof (effect_pointers _ _ _ He) as Hle.
  assert (Hkeep : map_Forall (control_ok s') (view_bootstraps s))
    by (intros key c Hc; by eapply control_ok_pointers, Hok).
  unfold bootstraps_ok. destruct He; subst; cbn; try done; apply map_Forall_insert_2; try done.
  - destruct (Hkeep key control) as (Hk & Ha & Hb & Hact); [done|]. split_and!; [done| |done|].
    + intros a [= <-]. done.
    + cbn. congruence.
  - eapply promoted_ok; [by apply Hkeep|done|done].
  - eapply promoted_ok; [by apply Hkeep|done|done].
Qed.

Lemma reachable_bootstraps s : reachable s -> bootstraps_ok s.
Proof.
  apply reachable_ind; [apply map_Forall_empty|by intros|by intros|]. intros clock s1 s2. apply effect_bootstraps.
Qed.

(** C9: A view is active only on a checkpoint that covers everything that had been
    committed when its activation cut was fixed, and so everything its bootstrap
    started from; a view over views has also taken in all pages of its inputs. The
    pointer the view has now descends from that checkpoint. *)
Theorem active_view_covered s key c :
  reachable s -> view_bootstraps s !! key = Some c -> vw_lifecycle c = ActiveView ->
  exists a p p', vw_activation_cut c = Some a /\ vw_active_checkpoint c = Some p /\
    checkpoint_covers_source_cut p a = true /\ checkpoint_covers_source_cut p (vw_bootstrap_cut c) = true /\
    (vw_view_inputs c = [] \/ exists progress, cp_published_input_bootstrap p = Some progress /\
      matches_control progress c = true /\ is_complete progress = true) /\
    standing_runtime_checkpoints s !! key = Some p' /\ lineage p p'.
Proof.
  intros Hr Hc Hl. destruct (reachable_bootstraps _ Hr _ _ Hc) as (_ & Ha & _ & Hact).
  destruct (Hact Hl) as (a & p & p' & ? & ? & ? & ? & ? & ? & ? & ?). exists a, p, p'.
  split_and!; try done. eapply checkpoint_covers_trans; [done|by apply Ha].
Qed.

(** ** What does not change *)

Definition control_le (c c' : ViewBootstrapControlV1) : Prop :=
  vw_tenant_id c' = vw_tenant_id c /\ vw_program_id c' = vw_program_id c /\ vw_view_id c' = vw_view_id c /\
  vw_bootstrap_generation c' = vw_bootstrap_generation c /\ vw_plan_hash c' = vw_plan_hash c /\
  vw_view_spec_json c' = vw_view_spec_json c /\ vw_bootstrap_cut c' = vw_bootstrap_cut c /\
  vw_view_inputs c' = vw_view_inputs c /\
  (forall a, vw_activation_cut c = Some a -> vw_activation_cut c' = Some a) /\
  (vw_lifecycle c = ActiveView -> c' = c).

Definition controls_le (s s' : InMemoryMetaState) : Prop :=
  forall k c, view_bootstraps s !! k = Some c -> exists c', view_bootstraps s' !! k = Some c' /\ control_le c c'.

#[export] Instance control_le_preorder : PreOrder control_le.
Proof.
  split.
  - intros c. split_and!; try done; naive_solver.
  - intros c1 c2 c3 (?&?&?&?&?&?&?&?&Ha1&Hl1) (?&?&?&?&?&?&?&?&Ha2&Hl2). split_and!; try congruence.
    + intros a Ha. by apply Ha2, Ha1.
    + intros Hl. specialize (Hl1 Hl). subst c2. by apply Hl2.
Qed.

#[export] Instance controls_le_preorder : PreOrder controls_le.
Proof.
  split.
  - intros s k c Hc. exists c. split; [done|reflexivity].
  - intros s1 s2 s3 H12 H23 k c Hc. destruct (H12 _ _ Hc) as (c2 & Hc2 & Hl2). destruct (H23 _ _ Hc2) as (c3 & Hc3 & Hl3).
    exists c3. split; [done|by etransitivity].
Qed.

Lemma controls_insert s s' key c :
  view_bootstraps s' = <[key := c]> (view_bootstraps s) ->
  (forall c0, view_bootstraps s !! key = Some c0 -> control_le c0 c) -> controls_le s s'.
Proof.
  intros E Hle k c0 Hc0. rewrite E. destruct (decide (key = k)) as [<-|Hne].
  - exists c. rewrite lookup_insert_eq. auto.
  - exists c0. rewrite lookup_insert_ne by done. split; [done|reflexivity].
Qed.

Lemma controls_same s s' : view_bootstraps s' = view_bootstraps s -> controls_le s s'.
Proof. intros E k c Hc. exists c. rewrite E. split; [done|reflexivity]. Qed.

Lemma set_active_le p c : vw_lifecycle c <> ActiveView -> control_le c (set_active p c).
Proof. intros Hl. split_and!; try done. Qed.

Lemma effect_controls clock s s' : effect clock s s' -> controls_le s s'.
Proof.
  intros He. destruct He; subst; try (by apply controls_same); (eapply controls_insert; [done|]); intros c0 Hc0; simplify_eq.
  - split_and!; try done; cbn; congruence.
  - by apply set_active_le.
  - by apply set_active_le.
Qed.

(** C23: The identity, the plan, the specification and the bootstrap cut of a view never
    change; an activation cut that was fixed stays, and an active view stays as it is. *)
Theorem bootstrap_immutable s s' k c :
  meta_steps s s' -> view_bootstraps s !! k = Some c ->
  exists c', view_bootstraps s' !! k = Some c' /\ control_le c c'.
Proof.
  intros Hs. revert k c. change (controls_le s s'). revert s s' Hs.
  apply steps_preorder; [apply _|intros; by apply controls_same|intros; by apply controls_same|apply effect_controls].
Qed.
End views.

(** * The registry of active views: what a stored registry satisfies, how it changes, and
    that it can always be read *)

Lemma NoDup_omap_pairs {K A B} (f : A -> option B) (l : list (K * A)) i j a b p :
  NoDup (omap f l.*2) -> (i, a) ∈ l -> (j, b) ∈ l -> f a = Some p -> f b = Some p -> (i, a) = (j, b).
Proof.
  induction l as [|[k c] l IH]; cbn; [intros _ Hi; by apply not_elem_of_nil in Hi|].
  intros Hnd Hi Hj Ha Hb. apply elem_of_cons in Hi as [[= -> ->]|Hi], Hj as [[= -> ->]|Hj].
  - done.
  - exfalso. rewrite Ha in Hnd. apply NoDup_cons in Hnd as [Hn _]. apply Hn, list_elem_of_omap. exists b.
    split; [|done]. apply list_elem_of_fmap. by exists (j, b).
  - exfalso. rewrite Hb in Hnd. apply NoDup_cons in Hnd as [Hn _]. apply Hn, list_elem_of_omap. exists a.
    split; [|done]. apply list_elem_of_fmap. by exists (i, a).
  - apply IH; try done. destruct (f c); [by apply NoDup_cons in Hnd as [_ ?]|done].
Qed.

Section registry.
Context `{Sha256, SerdeJson, RelationCodec, MetaEnv}.

(** * Paths *)

Lemma check_api_path_nodup l paths paths' :
  try_fold check_api_path paths l = Ok paths' -> NoDup paths -> NoDup paths' /\ paths' ≡ₚ omap api_path l ++ paths.
Proof.
  revert paths. induction l as [|v l IH]; intros paths; cbn; [by intros [= <-]|].
  intros Hf Hnd. apply bind_ok in Hf as (u & Hu & Hf). unfold check_api_path in Hu.
  destruct (api_path v) as [path|] eqn:E; cbn.
  - apply bind_unit_ok in Hu as [Hu [= <-]]. apply fail_if_ok, bool_decide_eq_false in Hu.
    destruct (IH _ Hf) as [Hnd' Hperm]; [by apply NoDup_cons|]. split; [done|]. rewrite Hperm.
    by rewrite Permutation_middle.
  - injection Hu as <-. by apply IH.
Qed.

Lemma registry_paths registry : validate_active_view_registry registry = Ok tt ->
  NoDup (omap api_path (map_to_list (vg_records registry)).*2).
Proof.
  unfold validate_active_view_registry. intros Hv. apply bind_ok in Hv as (paths & Hf & _).
  apply check_api_path_nodup in Hf as [Hnd Hperm]; [|constructor]. rewrite app_nil_r in Hperm. by rewrite <-Hperm.
Qed.

(** * Invariant *)

Definition record_at (view_id : string) (v : ActiveViewRecordVersionV1) : Prop :=
  validate_active_view_record (vv_record v) (Some view_id) = Ok tt.

Definition registry_ok (r : ActiveViewRegistryStateV1) : Prop :=
  vg_initialized r = true /\ map_Forall record_at (vg_records r) /\ validate_active_view_registry r = Ok tt.

Lemma record_at_own record generation :
  validate_active_view_record record None = Ok tt -> record_at (av_view_id record) (RecordVersion generation record).
Proof.
  unfold record_at, validate_active_view_record. cbn. intros Hv. apply bind_unit_ok in Hv as [-> Hv].
  apply bind_unit_ok in Hv as [-> _]. cbn. by rewrite String.eqb_refl.
Qed.

Lemma imported_at records (m : gmap string ActiveViewRecordVersionV1) ids ids' :
  try_fold check_view_id ids records = Ok ids' -> map_Forall record_at m ->
  map_Forall record_at (fold_left (fun m record => <[av_view_id record := RecordVersion 1 record]> m) records m).
Proof.
  revert m ids. induction records as [|record records IH]; intros m ids; cbn; [done|].
  intros Hf Hm. apply bind_ok in Hf as (ids1 & Hc & Hf). apply bind_unit_ok in Hc as [Hc _].
  eapply IH; [done|]. apply map_Forall_insert_2; [by apply record_at_own|done].
Qed.

Lemma registry_change_ok before r :
  registry_change before r -> (forall b, before = Some b -> registry_ok b) -> validate_active_view_registry r = Ok tt ->
  registry_ok r.
Proof.
  intros Hc Hb Hv. destruct Hc as [before record revision Hrec Hnone _|b existing record generation revision Hrec Hex _ _|records Hrec].
  - split_and!; [done| |done]. cbn. apply map_Forall_insert_2; [by apply record_at_own|].
    destruct before as [b|]; cbn; [by apply (Hb b)|apply map_Forall_empty].
  - destruct (Hb b eq_refl) as (Hi & Hr & _). split_and!; [done| |done]. cbn.
    apply map_Forall_insert_2; [by apply record_at_own|done].
  - split_and!; [done| |done]. cbn. unfold validate_active_view_records in Hrec. apply bind_ok in Hrec as (ids & Hf & _).
    eapply imported_at; [done|apply map_Forall_empty].
Qed.

Definition registries_ok (s : InMemoryMetaState) : Prop := map_Forall (fun _ r => registry_ok r) (active_view_registries s).

Lemma reachable_registries s : reachable s -> registries_ok s.
Proof.
  apply reachable_ind; [apply map_Forall_empty|by intros|by intros|].
  intros clock s1 s2 Hok He. unfold registries_ok. destruct He; subst; cbn; try done;
    (apply map_Forall_insert_2; [eapply registry_change_ok; [done| |done]; intros b Hb; by eapply Hok|done]).
Qed.

(** A stored registry can always be read: the snapshot lists its records by view id,
    every record under its own id, and no two of them are served under one path. *)
Theorem registry_readable s q r :
  reachable s -> active_view_registries s !! q = Some r -> validate_active_view_scope q = Ok tt ->
  exists records,
    read_active_view_registry_snapshot q s = (Ok (RegistrySnapshot (vg_snapshot_revision r) true records), s) /\
    records ≡ₚ (map_to_list (vg_records r)).*2 /\
    map_Forall (fun id v => av_view_id (vv_record v) = id) (vg_records r) /\
    (forall i j v w path, vg_records r !! i = Some v -> vg_records r !! j = Some w ->
      api_path v = Some path -> api_path w = Some path -> i = j).
Proof.
  intros Hr Hq Hscope. destruct (reachable_registries _ Hr _ _ Hq) as (Hi & Hrec & Hv).
  eexists. split_and!.
  - unfold read_active_view_registry_snapshot, mbind, meta_bind, lift, state. rewrite Hscope, Hq.
    assert (try_fold (fun (_ : unit) '(view_id, version) => validate_active_view_record (vv_record version) (Some view_id)) tt
      (map_to_list (vg_records r)) = Ok tt) as ->; [|rewrite Hv, Hi; done].
    apply map_Forall_to_list in Hrec. induction Hrec as [|[id v] l Hat _ IH]; cbn; [done|].
    cbn in Hat. unfold record_at in Hat. by rewrite Hat.
  - apply sort_on_perm.
  - intros id v Hid. by apply validate_view_id, (Hrec _ _ Hid).
  - intros i j v w path Hv' Hw Hpv Hpw. apply registry_paths in Hv.
    assert ((i, v) = (j, w)) as [= -> ->]; [|done].
    by eapply NoDup_omap_pairs; [done|apply elem_of_map_to_list..|done|done].
Qed.

(** * Revisions *)

Definition version_le (v v' : ActiveViewRecordVersionV1) : Prop :=
  v' = v \/ vv_generation v < vv_generation v'.

Definition registry_le (r r' : ActiveViewRegistryStateV1) : Prop :=
  (r' = r \/ vg_snapshot_revision r < vg_snapshot_revision r') /\
  forall id v, vg_records r !! id = Some v -> exists v', vg_records r' !! id = Some v' /\ version_le v v'.

Definition registries_le (s s' : InMemoryMetaState) : Prop :=
  forall q r, active_view_registries s !! q = Some r -> exists r', active_view_registries s' !! q = Some r' /\ registry_le r r'.

#[export] Instance registry_le_preorder : PreOrder registry_le.
Proof.
  split.
  - intros r. split; [by left|]. intros id v Hv. exists v. split; [done|by left].
  - intros r1 r2 r3 [Hr1 Hv1] [Hr2 Hv2]. split.
    + destruct Hr1 as [->|], Hr2 as [->|]; [by left|by right|by right|right; lia].
    + intros id v Hv. destruct (Hv1 _ _ Hv) as (v2 & E2 & Hle2). destruct (Hv2 _ _ E2) as (v3 & E3 & Hle3).
      exists v3. split; [done|]. destruct Hle2 as [->|], Hle3 as [->|]; [by left|by right|by right|right; lia].
Qed.

#[export] Instance registries_le_preorder : PreOrder registries_le.
Proof.
  split.
  - intros s q r Hr. exists r. split; [done|reflexivity].
  - intros s1 s2 s3 H12 H23 q r Hr. destruct (H12 _ _ Hr) as (r2 & Hr2 & Hl2). destruct (H23 _ _ Hr2) as (r3 & Hr3 & Hl3).
    exists r3. split; [done|by etransitivity].
Qed.

Lemma registry_change_le r r' : registry_change (Some r) r' -> registry_le r r'.
Proof.
  intros Hc. inversion Hc as [before record revision ? Hnone Hrev|b existing record generation revision ? Hex Hgen Hrev|]; subst.
  - apply checked_u64_add in Hrev as [-> _]. split; cbn; [right; lia|]. intros id v Hv. exists v. split; [|by left].
    rewrite lookup_insert_ne; [done|]. intros <-. cbn in Hnone. congruence.
  - apply checked_u64_add in Hrev as [-> _], Hgen as [-> _]. split; cbn; [right; lia|]. intros id v Hv.
    destruct (decide (av_view_id record = id)) as [<-|Hne].
    + eexists. rewrite lookup_insert_eq. split; [done|]. right. cbn. rewrite Hex in Hv. injection Hv as <-. lia.
    + exists v. rewrite lookup_insert_ne by done. split; [done|by left].
Qed.

Lemma registries_same s s' : active_view_registries s' = active_view_registries s -> registries_le s s'.
Proof. intros E q r Hr. exists r. rewrite E. split; [done|reflexivity]. Qed.

Lemma registries_insert s s' q r :
  active_view_registries s' = <[q := r]> (active_view_registries s) ->
  registry_change (active_view_registries s !! q) r -> registries_le s s'.
Proof.
  intros E Hc q' r' Hr'. rewrite E. destruct (decide (q = q')) as [<-|Hne].
  - exists r. rewrite lookup_insert_eq. split; [done|]. rewrite Hr' in Hc. by apply registry_change_le.
  - exists r'. rewrite lookup_insert_ne by done. split; [done|reflexivity].
Qed.

Lemma effect_registries clock s s' : effect clock s s' -> registries_le s s'.
Proof. intros He. destruct He; subst; try (by apply registries_same); by eapply registries_insert. Qed.

(** A registry is never lost, and its revision identifies it: two states of it with one
    revision are the same. No record is dropped, and its generation grows with every
    change of it. *)
Theorem registry_revision_identifies s s' q r :
  meta_steps s s' -> active_view_registries s !! q = Some r ->
  exists r', active_view_registries s' !! q = Some r' /\
    (vg_snapshot_revision r' = vg_snapshot_revision r -> r' = r) /\ vg_snapshot_revision r <= vg_snapshot_revision r' /\
    (forall id v, vg_records r !! id = Some v -> exists v', vg_records r' !! id = Some v' /\
      vv_generation v <= vv_generation v' /\ (vv_generation v' = vv_generation v -> v' = v)).
Proof.
  intros Hs Hr. assert (Hle : registries_le s s').
  { revert s s' Hs Hr. intros s0 s1 Hs _. revert s0 s1 Hs.
    apply steps_preorder; [apply _|intros; by apply registries_same|intros; by apply registries_same|apply effect_registries]. }
  destruct (Hle _ _ Hr) as (r' & Hr' & Hrev & Hrec). exists r'. split_and!; [done| | |].
  - intros E. destruct Hrev; [done|lia].
  - destruct Hrev as [->|]; lia.
  - intros id v Hv. destruct (Hrec _ _ Hv) as (v' & Hv' & Hle'). exists v'. split_and!; [done| |].
    + destruct Hle' as [->|]; lia.
    + intros E. destruct Hle'; [done|lia].
Qed.
End registry.
