(* ===== verification/MetaIngest.v ===== *)
(** Ingest in the metadata service: reserved ranges, publications and source cuts, in
    every reachable state. *)
From S2P Require Import Prelude BTree Json Digits Segments ObjectKey Hash Serde JsonText Relation StandingProgram MetaTypes SourceCut SourceCutProofs ViewBootstrap MetaRequests MetaStore MetaMachine MetaViews.

Abbreviation reservation_map := (gmap (string * Z) (list IngestRangeReservation)).

Definition partition_of (r : IngestRangeReservation) : string * Z := (r_stream_id r, r_partition_id r).

(** * Maps of reservations *)

(** Every list holds valid ranges of its partition that do not overlap. *)
Definition ranges_ok (m : reservation_map) : Prop :=
  map_Forall (fun k l => Forall (fun r => validate_reservation r = Ok tt /\ partition_of r = k) l /\ disjoint_ranges l) m.

Lemma reserved_in_eq m r : reserved_in m r = default [] (m !! partition_of r).
Proof. done. Qed.

Lemma ranges_ok_reserved m k : ranges_ok m ->
  Forall (fun r => validate_reservation r = Ok tt /\ partition_of r = k) (default [] (m !! k)) /\ disjoint_ranges (default [] (m !! k)).
Proof.
  intros Hm. destruct (m !! k) as [l|] eqn:E; [by apply (Hm _ _ E)|]. cbn. split; [constructor|].
  split_and!; [constructor|constructor|]. intros x y Hx. by apply not_elem_of_nil in Hx.
Qed.

Lemma ranges_ok_insert m r l :
  ranges_ok m -> validate_reservation r = Ok tt -> free_for r (reserved_in m r) -> l ≡ₚ reserved_in m r ++ [r] ->
  ranges_ok (<[partition_of r := l]> m).
Proof.
  intros Hm Hr Hfree Hl. destruct (ranges_ok_reserved m (partition_of r) Hm) as [Hv Hd].
  apply map_Forall_insert_2; [|done]. split.
  - rewrite Hl. apply Forall_app. split; [done|]. by apply Forall_singleton.
  - eapply disjoint_perm; [by symmetry|]. apply disjoint_snoc; [done|by apply validate_reservation_range|done].
Qed.

Lemma ranges_ok_push m r :
  ranges_ok m -> validate_reservation r = Ok tt -> free_for r (reserved_in m r) -> ranges_ok (push_sorted r m).
Proof. intros Hm Hr Hf. apply ranges_ok_insert; try done. by rewrite sort_on_perm. Qed.

Lemma elem_of_all m r : r ∈ all_reservations m <-> exists k l, m !! k = Some l /\ r ∈ l.
Proof.
  unfold all_reservations. rewrite list_elem_of_In, in_concat. setoid_rewrite <-list_elem_of_In.
  setoid_rewrite list_elem_of_fmap. split.
  - intros (l & ([k l'] & -> & Hk) & Hr). apply elem_of_map_to_list in Hk. eauto.
  - intros (k & l & Hk & Hr). exists l. split; [|done]. exists (k, l). split; [done|]. by apply elem_of_map_to_list.
Qed.

Lemma elem_of_all_reserved m r : ranges_ok m -> r ∈ all_reservations m <-> r ∈ reserved_in m r.
Proof.
  intros Hm. rewrite elem_of_all, reserved_in_eq. split.
  - intros (k & l & Hk & Hr). destruct (Hm _ _ Hk) as [Hv _]. rewrite Forall_forall in Hv. destruct (Hv r Hr) as [_ ->].
    by rewrite Hk.
  - destruct (m !! partition_of r) as [l|] eqn:E; [eauto|]. intros Hr. by apply not_elem_of_nil in Hr.
Qed.

Lemma elem_of_all_insert m r l x :
  l ≡ₚ reserved_in m r ++ [r] -> x ∈ all_reservations (<[partition_of r := l]> m) <-> x ∈ all_reservations m \/ x = r.
Proof.
  intros Hl. assert (Hin : forall y, y ∈ l <-> y ∈ default [] (m !! partition_of r) \/ y = r)
    by (intros y; by rewrite Hl, elem_of_app, list_elem_of_singleton).
  rewrite !elem_of_all. split.
  - intros (k & l' & Hk & Hx). destruct (decide (partition_of r = k)) as [<-|Hne].
    + rewrite lookup_insert_eq in Hk. injection Hk as <-. apply Hin in Hx as [Hx| ->]; [left|by right].
      destruct (m !! partition_of r) as [l'|] eqn:E; [eauto|]. by apply not_elem_of_nil in Hx.
    + rewrite lookup_insert_ne in Hk by done. eauto.
  - intros [(k & l' & Hk & Hx)| ->].
    + destruct (decide (partition_of r = k)) as [<-|Hne].
      * exists (partition_of r), l. rewrite lookup_insert_eq. split; [done|]. apply Hin. left. by rewrite Hk.
      * exists k, l'. by rewrite lookup_insert_ne.
    + exists (partition_of r), l. rewrite lookup_insert_eq. split; [done|]. apply Hin. by right.
Qed.

Lemma filter_all {A} (P : A -> Prop) `{!forall x, Decision (P x)} l : Forall P l -> filter P l = l.
Proof. intros Hl. induction Hl as [|x l Hx _ IH]; [done|]. rewrite filter_cons, decide_True by done. by f_equal. Qed.
Lemma filter_none {A} (P : A -> Prop) `{!forall x, Decision (P x)} l : Forall (fun x => ~ P x) l -> filter P l = [].
Proof. intros Hl. induction Hl as [|x l Hx _ IH]; [done|]. by rewrite filter_cons, decide_False. Qed.

Lemma filter_keyed {K A} `{EqDecision K} (key : A -> K) (l : list (K * list A)) k :
  NoDup l.*1 -> (forall k' g, (k', g) ∈ l -> Forall (fun x => key x = k') g) ->
  (forall g, (k, g) ∈ l -> filter (fun x => key x = k) (concat l.*2) = g) /\
  (k ∉ l.*1 -> filter (fun x => key x = k) (concat l.*2) = []).
Proof.
  induction l as [|[k1 g1] l IH]; cbn; intros Hnd Hl; [split; [intros g Hg; by apply not_elem_of_nil in Hg|done]|].
  apply NoDup_cons in Hnd as [Hn Hnd]. destruct IH as [IH1 IH2]; [done|intros; apply Hl; by right|].
  assert (Hg1 : Forall (fun x => key x = k1) g1) by (apply Hl; left).
  rewrite filter_app. split.
  - intros g [[= -> ->]|Hg]%elem_of_cons.
    + rewrite IH2 by done. rewrite app_nil_r. by apply filter_all.
    + rewrite IH1 with g by done. replace (filter _ g1) with (@nil A); [done|]. symmetry. apply filter_none.
      eapply Forall_impl; [exact Hg1|]. cbn. intros x -> ->. apply Hn, list_elem_of_fmap. by exists (k, g).
  - intros Hk. rewrite IH2 by set_solver. rewrite app_nil_r. apply filter_none.
    eapply Forall_impl; [exact Hg1|]. cbn. set_solver.
Qed.

Lemma ranges_ok_apart m : ranges_ok m -> apart (all_reservations m).
Proof.
  intros Hm. split.
  - apply Forall_forall. intros r (k & l & Hk & Hr)%elem_of_all. destruct (Hm _ _ Hk) as [Hv _].
    rewrite Forall_forall in Hv. by apply (Hv r Hr).
  - intros stream_id partition_id.
    destruct (filter_keyed partition_of (map_to_list m) (stream_id, partition_id)) as [H1 H2].
    { apply NoDup_fst_map_to_list. }
    { intros k g Hk. apply elem_of_map_to_list in Hk. destruct (Hm _ _ Hk) as [Hv _]. eapply Forall_impl; [exact Hv|]. naive_solver. }
    rewrite (list_filter_iff _ (fun r => partition_of r = (stream_id, partition_id))) by (unfold partition_of; naive_solver).
    destruct (m !! (stream_id, partition_id)) as [l|] eqn:E.
    + unfold all_reservations. rewrite (H1 l); [by apply (Hm _ _ E)|]. by apply elem_of_map_to_list.
    + unfold all_reservations. rewrite H2; [split_and!; [constructor|constructor|]; intros x y Hx; by apply not_elem_of_nil in Hx|].
      intros ([k g] & Ek & Hk)%list_elem_of_fmap. apply elem_of_map_to_list in Hk. cbn in Ek. congruence.
Qed.

(** * Legacy ranges *)

Section legacy_ingest.
Context `{Sha256, SerdeJson, RelationCodec, MetaEnv}.

(** What a later state keeps: reservations, committed batches and the epoch only grow. *)
Definition ingest_le (s s' : InMemoryMetaState) : Prop :=
  (forall r, r ∈ all_reservations (ingest_reservations s) -> r ∈ all_reservations (ingest_reservations s')) /\
  committed_ingest_batch_keys s ⊆ committed_ingest_batch_keys s' /\
  ingest_catalog_epoch s <= ingest_catalog_epoch s'.

#[export] Instance ingest_le_preorder : PreOrder ingest_le.
Proof.
  split.
  - intros s. split_and!; [done|done|lia].
  - intros s1 s2 s3 (? & ? & ?) (? & ? & ?). split_and!; [auto|by etransitivity|lia].
Qed.

Lemma elem_of_push m r x : x ∈ all_reservations (push_sorted r m) <-> x ∈ all_reservations m \/ x = r.
Proof. apply elem_of_all_insert. by rewrite sort_on_perm. Qed.

Lemma effect_ingest clock s s' : effect clock s s' -> ingest_le s s'.
Proof.
  intros He. destruct He; subst; split_and!; cbn; try done; try lia; try (intros x Hx; apply elem_of_push; by left).
  - match goal with E : checked_u64 _ = Some _ |- _ => apply checked_u64_add in E as [-> _] end. lia.
  - set_solver.
Qed.

Lemma reserve_authoritative_valid q : validate_reserve_authoritative q = Ok tt -> validate_reservation (ra_reservation q) = Ok tt.
Proof. intros Hv. by apply bind_unit_ok in Hv as [? _]. Qed.

Lemma reachable_ranges s : reachable s -> ranges_ok (ingest_reservations s).
Proof.
  apply (reachable_ind (fun s => ranges_ok (ingest_reservations s))); [apply map_Forall_empty|by intros|by intros|].
  intros clock s1 s2 Hok He. destruct He; subst; cbn; try done; by eauto using ranges_ok_push, reserve_authoritative_valid.
Qed.

(** ** Source cuts *)

Lemma source_cut_total s q :
  reachable s -> validate_capture_cut q = Ok tt ->
  exists cut, source_cut_of s q = Ok cut /\ cut_input_catalog_epoch cut = ingest_catalog_epoch s /\
    sr_relation <$> cut_relations cut = cq_relations q /\
    Forall (relation_exact (committed_ingest_batch_keys s) (all_reservations (ingest_reservations s))) (cut_relations cut).
Proof.
  intros Hr Hq. destruct q as [relations]. unfold source_cut_of. apply build_cut_exact; [done|].
  by apply ranges_ok_apart, reachable_ranges.
Qed.

(** C21: A source cut can always be captured, and it is exact: it lists the relations
    that were asked for and, for each, exactly the partitions it has reservations in,
    once. A partition starts at its first reservation and is committed up to the
    first range that is missing or not committed. *)
Theorem source_cut_exact s q :
  reachable s -> validate_capture_cut q = Ok tt ->
  exists cut, capture_ingest_source_cut q s = (Ok cut, s) /\
    cut_input_catalog_epoch cut = ingest_catalog_epoch s /\
    sr_relation <$> cut_relations cut = cq_relations q /\
    Forall (relation_exact (committed_ingest_batch_keys s) (all_reservations (ingest_reservations s))) (cut_relations cut).
Proof.
  intros Hr Hq. destruct (source_cut_total s q Hr Hq) as (cut & Hcut & Hrest). exists cut. split; [|done].
  unfold capture_ingest_source_cut, mbind, meta_bind, lift, state. by rewrite Hq, Hcut.
Qed.

(** ** Sealed bases *)

(** The cut of a bootstrap was exact for what was reserved and committed at some
    earlier point. *)
Definition sealed_ok (s : InMemoryMetaState) (cut : IngestSourceCutV1) : Prop :=
  validate_capture_cut (CaptureCut (sr_relation <$> cut_relations cut)) = Ok tt /\
  cut_input_catalog_epoch cut <= ingest_catalog_epoch s /\
  exists rs committed, Forall (relation_exact committed rs) (cut_relations cut) /\
    (forall r, r ∈ rs -> r ∈ all_reservations (ingest_reservations s)) /\ committed ⊆ committed_ingest_batch_keys s.

Definition all_sealed (s : InMemoryMetaState) : Prop :=
  map_Forall (fun _ c => sealed_ok s (vw_bootstrap_cut c)) (view_bootstraps s).

Lemma sealed_le s s' cut : ingest_le s s' -> sealed_ok s cut -> sealed_ok s' cut.
Proof.
  intros (Hr & Hc & He) (Hv & Hep & rs & committed & Hex & Hrs & Hcom). split_and!; [done|lia|].
  exists rs, committed. split_and!; [done|auto|by etransitivity].
Qed.

Lemma begin_capture q : validate_begin_bootstrap q = Ok tt -> validate_capture_cut (CaptureCut (vb_relations q)) = Ok tt.
Proof. unfold validate_begin_bootstrap. intros Hv. do 6 apply bind_unit_ok in Hv as [_ Hv]. by apply bind_unit_ok in Hv as [? _]. Qed.

Lemma reachable_sealed s : reachable s -> all_sealed s.
Proof.
  revert s. apply (reachable_rule all_sealed); [apply map_Forall_empty|done|done|]. intros clock s s' Hr Hok He.
  pose proof (effect_ingest _ _ _ He) as Hle.
  assert (Hkeep : map_Forall (fun _ c => sealed_ok s' (vw_bootstrap_cut c)) (view_bootstraps s))
    by (intros k c' Hc'; by eapply sealed_le, Hok).
  unfold all_sealed. destruct He as [| | | | | | | |q cut revisions Hv _ _ Hcut| | | | | | | | | |]; subst; cbn; try done;
    (apply map_Forall_insert_2; [|done]); 
    try (match goal with E : view_bootstraps s !! _ = Some _ |- _ => exact (Hkeep _ _ E) end).
  destruct (source_cut_total s _ Hr (begin_capture _ Hv)) as (cut' & Hcut' & Hep & Hrel & Hex).
  rewrite Hcut in Hcut'. injection Hcut' as <-. cbn in Hrel. cbn. split_and!; [|cbn; lia|].
  - rewrite Hrel. by apply begin_capture.
  - by exists (all_reservations (ingest_reservations s)), (committed_ingest_batch_keys s).
Qed.

Lemma below_base_false r cut rc p :
  below_base r cut = false -> rc ∈ cut_relations cut -> p ∈ sr_partitions rc ->
  reservation_relation r = sr_relation rc -> r_stream_id r = sp_stream_id p -> r_partition_id r = sp_partition_id p ->
  sp_base_offset_inclusive p <= r_start_offset_inclusive r.
Proof.
  intros Hb Hrc Hp Hi Hst Hpid. destruct (Z.le_gt_cases (sp_base_offset_inclusive p) (r_start_offset_inclusive r)) as [|Hlt]; [done|].
  exfalso. assert (below_base r cut = true); [|congruence]. unfold below_base. apply existsb_elem. exists rc. split; [done|].
  rewrite <-Hi. cbn. rewrite !String.eqb_refl. cbn. apply existsb_elem. exists p. split; [done|].
  rewrite Hst, Hpid, String.eqb_refl, Z.eqb_refl. cbn. by apply Z.ltb_lt.
Qed.

(** While no reservation lies below a sealed base, the current cut covers the sealed one. *)
Lemma sealed_covered s cut :
  reachable s -> sealed_ok s cut ->
  (forall r, r ∈ all_reservations (ingest_reservations s) -> below_base r cut = false) ->
  exists now, source_cut_of s (CaptureCut (sr_relation <$> cut_relations cut)) = Ok now /\ source_cut_covers now cut = true.
Proof.
  intros Hr (Hv & Hep & rs & committed & Hex & Hrs & Hcom) Hbase.
  destruct (source_cut_total s _ Hr Hv) as (now & Hnow & Hnep & Hrel & Hnex). exists now. split; [done|].
  rewrite Forall_forall in Hex, Hnex. unfold source_cut_covers. apply andb_true_iff. split; [apply Z.leb_le; lia|].
  apply forallb_intro. intros rc Hrc. apply existsb_elem.
  assert (sr_relation rc ∈ sr_relation <$> cut_relations now) as (rc' & Hi & Hrc')%list_elem_of_fmap
    by (rewrite Hrel; cbn; by apply list_elem_of_fmap_2).
  exists rc'. split; [done|]. rewrite bool_decide_eq_true_2 by done. cbn. apply forallb_intro. intros p Hp.
  destruct (Hex _ Hrc) as (Hpe & _ & _). destruct (Hnex _ Hrc') as (Hpe' & Hall & _). pose proof (Hpe p Hp) as Hpex.
  destruct Hpex as (Hg1 & Hg2 & (r0 & (Hr0 & Hri & Hrst & Hrpid) & _) & _).
  destruct (Hall r0) as (p' & Hp' & Est & Epid); [by apply Hrs|congruence|]. apply existsb_elem. exists p'. split; [done|].
  pose proof (Hpe' p' Hp') as Hpex'. destruct Hpex' as (Hg1' & Hg2' & _).
  destruct (partition_grows committed (committed_ingest_batch_keys s) rs (all_reservations (ingest_reservations s)) (sr_relation rc) p p')
    as [Eb Hc]; [by apply Hpe|rewrite Hi; by apply Hpe'|congruence|congruence|done|done| |].
  { intros r (Hin & Hri' & Hst & Hpid). by eapply below_base_false; [apply Hbase|..]. }
  unfold partition_cut_covers. rewrite Eb, Z.eqb_refl, Est, Epid, Hrst, Hrpid, String.eqb_refl, Z.eqb_refl, Hg1, Hg2, Hg1', Hg2'.
  cbn. by apply Z.leb_le.
Qed.
(** No reservation lies below the base of a bootstrap. *)
Definition sealed_clean (s : InMemoryMetaState) : Prop :=
  map_Forall (fun _ c => forall r, r ∈ all_reservations (ingest_reservations s) -> below_base r (vw_bootstrap_cut c) = false)
    (view_bootstraps s).

Lemma exact_not_below committed rs cut r :
  Forall (relation_exact committed rs) (cut_relations cut) -> r ∈ rs -> below_base r cut = false.
Proof.
  intros Hex Hr. destruct (below_base r cut) eqn:E; [|done]. exfalso. unfold below_base in E.
  apply existsb_elem in E as (rc & Hrc & E). tests. apply existsb_elem in E as (p & Hp & E). tests. apply Z.ltb_lt in E.
  rewrite Forall_forall in Hex. destruct (Hex _ Hrc) as (Hpe & _). destruct (Hpe p Hp) as (_ & _ & (r0 & (_ & Hi & _) & _) & Hmin & _).
  specialize (Hmin r). unfold in_partition in Hmin. rewrite <-Hi in *. unfold reservation_relation in *. cbn in *.
  assert (sp_base_offset_inclusive p <= r_start_offset_inclusive r); [|lia].
  apply Hmin. split_and!; [done| |done|done]. congruence.
Qed.

Lemma sealed_base_false s r key c :
  below_sealed_base s r = false -> view_bootstraps s !! key = Some c -> below_base r (vw_bootstrap_cut c) = false.
Proof.
  intros Hb Hc. destruct (below_base r (vw_bootstrap_cut c)) eqn:E; [|done]. exfalso.
  assert (below_sealed_base s r = true); [|congruence]. apply existsb_elem. exists c. split; [|done].
  apply list_elem_of_fmap. exists (key, c). split; [done|]. by apply elem_of_map_to_list.
Qed.

Lemma legacy_sealed_clean s : reachable s -> authoritative_ingest_reservation_keys s = ∅ -> sealed_clean s.
Proof.
  revert s. apply (reachable_rule (fun s => authoritative_ingest_reservation_keys s = ∅ -> sealed_clean s));
    [intros _; apply map_Forall_empty|done|done|]. intros clock s s' Hr Hok He.
  assert (Hpush : forall r key c, below_sealed_base s r = false -> sealed_clean s -> view_bootstraps s !! key = Some c ->
    forall x, x ∈ all_reservations (push_sorted r (ingest_reservations s)) -> below_base x (vw_bootstrap_cut c) = false).
  { intros r key c' Hb Hcl Hc' x [Hx| ->]%elem_of_push; [by apply (Hcl _ _ Hc')|by eapply sealed_base_false]. }
  unfold sealed_clean in *. destruct He as [| | | | | | | |q cut revisions Hv _ _ Hcut| | | | | | | | | |]; subst; cbn; intros Hempty;
    try (by apply Hok); try (by intros key c' Hc' x; eapply Hpush; eauto); try (by apply insert_non_empty in Hempty);
    (apply map_Forall_insert_2; [|by apply Hok]);
    try (match goal with E : view_bootstraps s !! _ = Some _ |- _ => exact (Hok Hempty _ _ E) end).
  destruct (source_cut_total s _ Hr (begin_capture _ Hv)) as (cut' & Hcut' & _ & _ & Hex).
  rewrite Hcut in Hcut'. injection Hcut' as <-. intros r Hin. by eapply exact_not_below.
Qed.

(** C25: While every range is reserved through [reserve_ingest_range], the owner of a view whose
    checkpoint covers the bootstrap cut can fix the activation cut: ingest
    never moves the base a bootstrap was sealed with. *)
Theorem activation_cut_fixable clock s q control checkpoint :
  let key := (fx_tenant_id q, fx_program_id q, fx_view_id q) in
  reachable s -> authoritative_ingest_reservation_keys s = ∅ ->
  validate_fix_activation q = Ok tt -> owned clock s key (fx_owner q) ->
  view_bootstraps s !! key = Some control ->
  names_bootstrap control (fx_bootstrap_generation q) (fx_plan_hash q) (fx_owner q) key = true ->
  vw_activation_cut control = None -> vw_lifecycle control = Bootstrapping ->
  standing_runtime_checkpoints s !! key = Some checkpoint ->
  cp_bootstrap_generation checkpoint = vw_bootstrap_generation control -> cp_plan_hash checkpoint = vw_plan_hash control ->
  checkpoint_covers_source_cut checkpoint (vw_bootstrap_cut control) = true ->
  exists cut, source_cut_covers cut (vw_bootstrap_cut control) = true /\
    fix_view_bootstrap_activation_cut clock q s =
      (Ok (BootstrapDone (set_activation_cut cut control)),
       with_view_bootstraps (<[key := set_activation_cut cut control]> (view_bootstraps s)) s).
Proof.
  intros key Hr Hlegacy Hv (now & -> & Hown) Hc Hnames Hact Hlife Hcp Hgen Hplan Hcov.
  destruct (sealed_covered s (vw_bootstrap_cut control)) as (cut & Hcut & Hcovers);
    [done|by apply (reachable_sealed _ Hr _ _ Hc)|by apply (legacy_sealed_clean _ Hr Hlegacy _ _ Hc)|].
  exists cut. split; [done|]. unfold fix_view_bootstrap_activation_cut, mbind, meta_bind, lift, state, change. fold key.
  rewrite Hv, Hown, Hc, Hnames. cbn [negb]. rewrite Hact, Hlife, bool_decide_eq_false_2 by (by intros []).
  rewrite bool_decide_eq_false_2 by naive_solver. rewrite Hcp, Hgen, Hplan, Z.eqb_refl, String.eqb_refl, Hcov. cbn [negb orb].
  by rewrite Hcut, Hcovers.
Qed.

(** ** Bases that moved *)

(** A reservation below the base of a sealed cut: no later cut covers the sealed one. *)
Lemma below_base_uncovered s cut now r :
  reachable s -> sealed_ok s cut -> r ∈ all_reservations (ingest_reservations s) -> below_base r cut = true ->
  source_cut_of s (CaptureCut (sr_relation <$> cut_relations cut)) = Ok now -> source_cut_covers now cut = false.
Proof.
  intros Hr (Hv & _ & rs & committed & Hex & _) Hin Hb Hnow.
  destruct (source_cut_covers now cut) eqn:E; [exfalso|done]. unfold source_cut_covers in E. tests.
  destruct (source_cut_total s _ Hr Hv) as (now' & Hnow' & _ & _ & Hnex). rewrite Hnow in Hnow'. injection Hnow' as <-.
  unfold below_base in Hb. apply existsb_elem in Hb as (rc & Hrc & Hb). tests.
  apply existsb_elem in Hb as (p & Hp & Hlow). tests. apply Z.ltb_lt in Hlow.
  pose proof (forallb_elem _ _ _ E Hrc) as (rc' & Hrc' & Hcov)%existsb_elem. tests.
  pose proof (forallb_elem _ _ _ Hcov Hp) as (p' & Hp' & Hpc)%existsb_elem. unfold partition_cut_covers in Hpc. tests.
  rewrite Forall_forall in Hex, Hnex. destruct (Hex _ Hrc) as (Hpe & _), (Hnex _ Hrc') as (Hpe' & _).
  destruct (Hpe p Hp) as (_ & _ & (r0 & (_ & Hi & _) & _) & _). destruct (Hpe' p' Hp') as (_ & _ & _ & Hmin & _).
  assert (sp_base_offset_inclusive p' <= r_start_offset_inclusive r); [|lia].
  apply Hmin. unfold in_partition. split_and!; [done| |congruence|congruence].
  match goal with Es : sr_relation rc' = sr_relation rc |- _ => rewrite Es end. rewrite <-Hi in *.
  unfold reservation_relation in *. cbn in *. congruence.
Qed.

(** A bootstrap without an activation cut and with a reservation below its base. *)
Definition base_moved (key : scope) (r : IngestRangeReservation) (s : InMemoryMetaState) : Prop :=
  r ∈ all_reservations (ingest_reservations s) /\
  exists c, view_bootstraps s !! key = Some c /\ vw_activation_cut c = None /\ vw_lifecycle c = Bootstrapping /\
    below_base r (vw_bootstrap_cut c) = true.

Lemma effect_base_moved clock key r s s' : reachable s -> effect clock s s' -> base_moved key r s -> base_moved key r s'.
Proof.
  intros Hr He (Hin & c & Hc & Hact & Hlife & Hb). split; [by apply (effect_ingest _ _ _ He)|].
  assert (Hother : forall k c', k <> key -> <[k := c']> (view_bootstraps s) !! key = Some c) by (intros; by rewrite lookup_insert_ne).
  destruct He; subst; cbn; try (by exists c);
    match goal with |- context [<[?k := _]> _] => destruct (decide (k = key)) as [<-|Hne] end;
    try (by exists c; split; [apply Hother|]); simplify_eq.
  exfalso. match goal with E : view_bootstraps s !! _ = Some _, Hcut : source_cut_of s _ = Ok _ |- _ =>
    pose proof (below_base_uncovered s _ _ r Hr (reachable_sealed _ Hr _ _ E) Hin Hb Hcut) end. congruence.
Qed.

(** C37: A reservation below the base a bootstrap was sealed with, which
    [reserve_authoritative_ingest_range] admits, ends the bootstrap: no later command
    fixes its activation cut or activates the view. *)
Theorem lower_range_blocks_activation s s' key r c :
  reachable s -> meta_steps s s' -> view_bootstraps s !! key = Some c ->
  vw_activation_cut c = None -> vw_lifecycle c = Bootstrapping ->
  r ∈ all_reservations (ingest_reservations s) -> below_base r (vw_bootstrap_cut c) = true ->
  exists c', view_bootstraps s' !! key = Some c' /\ vw_activation_cut c' = None /\ vw_lifecycle c' = Bootstrapping.
Proof.
  intros Hr Hs Hc Hact Hlife Hin Hb.
  assert (base_moved key r s') as (_ & c' & ? & ? & ? & _); [|by exists c'].
  assert (Hm : base_moved key r s) by (split; [done|by exists c]). clear Hc Hact Hlife Hin Hb.
  revert Hr Hm. induction Hs as [|s1 s2 s3 Hstep _ IH]; [done|]. intros Hr Hm.
  apply IH; [eapply reachable_steps; [done|by apply rtc_once]|].
  destruct Hstep as [clock cmd|tick|k claim Hk]; [|done|done].
  destruct (perform_refines clock cmd s1) as [->|He]; [done|by eapply effect_base_moved].
Qed.
End legacy_ingest.
