(* ===== verification/MetaRelation.v ===== *)
(** Authoritative ingest in the metadata service: reservations under an authority,
    publications and relation source cuts, in every reachable state. *)
From S2P Require Import Prelude BTree Json Digits Segments ObjectKey Hash Serde JsonText Relation StandingProgram MetaTypes SourceCut SourceCutProofs RelationCutProofs ViewBootstrap MetaRequests MetaStore MetaMachine MetaViews MetaIngest.

Section relation_ingest.
Context `{Sha256, SerdeJson, RelationCodec, MetaEnv}.

(** * Invariants *)

(** Reservations of relation ingest and their publications. *)
Record relation_ok (s : InMemoryMetaState) : Prop := {
  ro_ranges : ranges_ok (relation_ingest_reservations s);
  ro_keys r k : relation_authority_reservation_keys s !! r = Some k ->
    r ∈ all_reservations (relation_ingest_reservations s) /\ rk_stream_id k = r_stream_id r /\
    rk_partition_id k = r_partition_id r /\ rk_relation_id k = r_relation_id r /\
    relation_batch_keys s !! r_batch_key r = Some r;
  ro_reserved r : r ∈ all_reservations (relation_ingest_reservations s) -> is_Some (relation_authority_reservation_keys s !! r);
  ro_publications id p : relation_authoritative_ingest_publications s !! id = Some p ->
    p_request_id p = id /\ relation_authority_reservation_keys s !! p_reservation p = Some (p_authority_key p) /\
    relation_reservation_publications s !! p_reservation p = Some id;
  ro_published r id : relation_reservation_publications s !! r = Some id ->
    exists p, relation_authoritative_ingest_publications s !! id = Some p /\ p_reservation p = r
}.

Lemma check_relation_scope_ok t r :
  check_relation_scope t r = Ok tt ->
  rk_stream_id (rt_key t) = r_stream_id r /\ rk_partition_id (rt_key t) = r_partition_id r /\ rk_relation_id (rt_key t) = r_relation_id r.
Proof. unfold check_relation_scope. intros Hc. apply fail_if_ok in Hc. by tests. Qed.

Lemma relation_reserved_ok s q :
  relation_ok s -> validate_reserve_relation q = Ok tt ->
  relation_authority_reservation_keys s !! rr_reservation q = None ->
  free_for (rr_reservation q) (reserved_in (relation_ingest_reservations s) (rr_reservation q)) ->
  relation_batch_keys s !! r_batch_key (rr_reservation q) = None ->
  relation_ok
    (with_relation_authority_reservation_keys (<[rr_reservation q := rt_key (rr_authority q)]> (relation_authority_reservation_keys s))
      (with_relation_ingest_reservations
        (<[(r_stream_id (rr_reservation q), r_partition_id (rr_reservation q)) :=
            reserved_in (relation_ingest_reservations s) (rr_reservation q) ++ [rr_reservation q]]> (relation_ingest_reservations s))
        (with_relation_batch_keys (<[r_batch_key (rr_reservation q) := rr_reservation q]> (relation_batch_keys s)) s))).
Proof.
  intros [Hranges Hkeys Hres Hpubs Hpub] Hv Hnone Hfree Hbatch. apply bind_unit_ok in Hv as [Hr Hv]. apply bind_unit_ok in Hv as [_ Hsc].
  apply check_relation_scope_ok in Hsc as (Hs1 & Hs2 & Hs3). set (r := rr_reservation q) in *.
  assert (Hall : forall x, x ∈ all_reservations (<[(r_stream_id r, r_partition_id r) := reserved_in (relation_ingest_reservations s) r ++ [r]]>
    (relation_ingest_reservations s)) <-> x ∈ all_reservations (relation_ingest_reservations s) \/ x = r)
    by (intros x; by apply elem_of_all_insert).
  split; cbn.
  - by apply ranges_ok_insert.
  - intros x k Hx. rewrite Hall. destruct (decide (r = x)) as [<-|Hne].
    + rewrite lookup_insert_eq in Hx. injection Hx as <-. rewrite lookup_insert_eq. split_and!; auto.
    + rewrite lookup_insert_ne in Hx by done. destruct (Hkeys x k Hx) as (? & ? & ? & ? & Hb).
      split_and!; auto. rewrite lookup_insert_ne; [done|]. intros E. rewrite E in Hbatch. congruence.
  - intros x [Hx| ->]%Hall; [|rewrite lookup_insert_eq; eauto]. destruct (Hres x Hx) as [k Hk]. exists k.
    rewrite lookup_insert_ne; [done|]. intros <-. congruence.
  - intros id p Hp. destruct (Hpubs id p Hp) as (? & Hk & ?). split_and!; try done. rewrite lookup_insert_ne; [done|].
    intros E. congruence.
  - done.
Qed.

Lemma relation_published_ok s q :
  let p := Publication (pl_reservation q) (rt_key (pl_authority q)) (pl_request_id q) (pl_request_digest q) (pl_object_key q)
    (pl_object_digest q) in
  relation_ok s -> relation_authoritative_ingest_publications s !! pl_request_id q = None ->
  (relation_reservation_publications s !! pl_reservation q = None \/
   relation_reservation_publications s !! pl_reservation q = Some (pl_request_id q)) ->
  relation_authority_reservation_keys s !! pl_reservation q = Some (rt_key (pl_authority q)) ->
  relation_ok
    (with_relation_reservation_publications (<[pl_reservation q := pl_request_id q]> (relation_reservation_publications s))
      (with_relation_authoritative_ingest_publications (<[pl_request_id q := p]> (relation_authoritative_ingest_publications s)) s)).
Proof.
  intros p [Hranges Hkeys Hres Hpubs Hpub] Hnew Hres' Hauth.
  assert (Hfree : relation_reservation_publications s !! pl_reservation q = None).
  { destruct Hres' as [?|E]; [done|]. destruct (Hpub _ _ E) as (p' & Hp' & _). congruence. }
  split; cbn; try done.
  - intros id p' Hp'. destruct (decide (pl_request_id q = id)) as [<-|Hne].
    + rewrite lookup_insert_eq in Hp'. injection Hp' as <-. cbn. by rewrite lookup_insert_eq.
    + rewrite lookup_insert_ne in Hp' by done. destruct (Hpubs id p' Hp') as (? & ? & Hr). split_and!; try done.
      rewrite lookup_insert_ne; [done|]. intros E. rewrite E in Hfree. congruence.
  - intros r id Hr. destruct (decide (pl_reservation q = r)) as [<-|Hne].
    + rewrite lookup_insert_eq in Hr. injection Hr as <-. exists p. by rewrite lookup_insert_eq.
    + rewrite lookup_insert_ne in Hr by done. destruct (Hpub r id Hr) as (p' & Hp' & ?). exists p'.
      rewrite lookup_insert_ne; [done|]. intros <-. congruence.
Qed.

Lemma reachable_relation s : reachable s -> relation_ok s.
Proof.
  apply (reachable_ind relation_ok).
  - split; cbn; try (by intros *; rewrite lookup_empty).
    + apply map_Forall_empty.
    + intros r (k & l & Hk & _)%elem_of_all. by rewrite lookup_empty in Hk.
  - intros s' tick [? ? ? ? ?]. by split.
  - intros s' key claim [? ? ? ? ?] _. by split.
  - intros clock s1 s2 Hok He. destruct He; subst; try (destruct Hok as [? ? ? ? ?]; by split).
    + by apply relation_reserved_ok.
    + by apply relation_published_ok.
Qed.

(** Ranges reserved under the authority of a view, and their publications. *)
Record authoritative_ok (s : InMemoryMetaState) : Prop := {
  ao_keys r k : authoritative_ingest_reservation_keys s !! r = Some k -> r ∈ all_reservations (ingest_reservations s);
  ao_publications id p : authoritative_ingest_publications s !! id = Some p ->
    p_request_id p = id /\ authoritative_ingest_reservation_keys s !! p_reservation p = Some (p_authority_key p) /\
    r_batch_key (p_reservation p) ∈ committed_ingest_batch_keys s;
  ao_unique id id' p p' : authoritative_ingest_publications s !! id = Some p -> authoritative_ingest_publications s !! id' = Some p' ->
    r_batch_key (p_reservation p) = r_batch_key (p_reservation p') -> id = id'
}.

Lemma authoritative_frame s s' :
  authoritative_ok s -> ingest_le s s' ->
  authoritative_ingest_reservation_keys s' = authoritative_ingest_reservation_keys s ->
  authoritative_ingest_publications s' = authoritative_ingest_publications s -> authoritative_ok s'.
Proof.
  intros [Hk Hp Hu] (Hr & Hc & _) Ek Ep. split; rewrite ?Ek, ?Ep; [eauto| |done].
  intros id p Hid. destruct (Hp id p Hid) as (? & ? & ?). split_and!; auto.
Qed.

Lemma authoritative_published_ok s q :
  let p := Publication (pr_reservation q) (at_key (pr_authority q)) (pr_request_id q) (pr_request_digest q) (pr_object_key q)
    (pr_object_digest q) in
  authoritative_ok s -> authoritative_ingest_publications s !! pr_request_id q = None ->
  authoritative_ingest_reservation_keys s !! pr_reservation q = Some (at_key (pr_authority q)) ->
  r_batch_key (pr_reservation q) ∉ committed_ingest_batch_keys s ->
  authoritative_ok (with_authoritative_ingest_publications (<[pr_request_id q := p]> (authoritative_ingest_publications s))
    (with_committed_ingest_batch_keys ({[r_batch_key (pr_reservation q)]} ∪ committed_ingest_batch_keys s) s)).
Proof.
  intros p [Hk Hp Hu] Hnew Hauth Hfresh.
  assert (Hother : forall id p', authoritative_ingest_publications s !! id = Some p' ->
    r_batch_key (p_reservation p') <> r_batch_key (pr_reservation q)).
  { intros id p' Hid E. destruct (Hp id p' Hid) as (_ & _ & Hin). congruence. }
  split; cbn; [done| |].
  - intros id p' Hp'. destruct (decide (pr_request_id q = id)) as [<-|Hne].
    + rewrite lookup_insert_eq in Hp'. injection Hp' as <-. split_and!; [done|done|set_solver].
    + rewrite lookup_insert_ne in Hp' by done. destruct (Hp id p' Hp') as (? & ? & ?). split_and!; [done|done|set_solver].
  - intros id id' p1 p2 H1' H2' E. rewrite lookup_insert_Some in H1', H2'.
    destruct H1' as [[<- <-]|[? H1']], H2' as [[<- <-]|[? H2']]; [done| | |by eapply Hu].
    + by destruct (Hother _ _ H2').
    + by destruct (Hother _ _ H1').
Qed.

Lemma free_not_reserved m r : validate_reservation r = Ok tt -> free_for r (reserved_in m r) -> r ∉ reserved_in m r.
Proof.
  intros Hv Hf Hin. unfold free_for in Hf. rewrite Forall_forall in Hf. specialize (Hf r Hin). apply overlaps_false in Hf.
  apply validate_reservation_range in Hv. unfold nonempty_range in Hv. lia.
Qed.

Lemma reachable_authoritative s : reachable s -> authoritative_ok s.
Proof.
  apply (reachable_rule authoritative_ok).
  - split; cbn; by intros *; rewrite lookup_empty.
  - intros s' tick [? ? ?]. by split.
  - intros s' key claim [? ? ?] _. by split.
  - intros clock s1 s2 Hr Hok He. pose proof (effect_ingest _ _ _ He) as Hle.
    destruct He as [| | | | |q Hv _ Hfree| | | | | | | | | | | | |]; subst; try (by eapply authoritative_frame);
      [|by apply authoritative_published_ok].
    destruct Hok as [Hk Hp Hu]. apply reserve_authoritative_valid in Hv. split; cbn; [| |done].
    + intros r k Hin. apply elem_of_push. apply lookup_insert_Some in Hin as [[<- _]|[_ Hin]]; [by right|left; eauto].
    + intros id p Hid. destruct (Hp id p Hid) as (? & Hkey & ?). split_and!; try done.
      rewrite lookup_insert_ne; [done|]. intros E. apply Hk, elem_of_all_reserved in Hkey; [|by apply reachable_ranges].
      rewrite <-E in Hkey. by eapply free_not_reserved.
Qed.

(** * Publications *)

(** Publications are never changed or withdrawn. *)
Definition publications_le (s s' : InMemoryMetaState) : Prop :=
  authoritative_ingest_publications s ⊆ authoritative_ingest_publications s' /\
  relation_authoritative_ingest_publications s ⊆ relation_authoritative_ingest_publications s'.

#[export] Instance publications_le_preorder : PreOrder publications_le.
Proof.
  split.
  - done.
  - intros s1 s2 s3 [? ?] [? ?]. split; by etransitivity.
Qed.

Lemma steps_publications s s' : meta_steps s s' -> publications_le s s'.
Proof.
  apply steps_preorder; [apply _|done|done|]. intros clock s1 s2 He.
  destruct He; subst; split; cbn; try done; by apply insert_subseteq.
Qed.

Lemma same_range m r r' :
  ranges_ok m -> r ∈ all_reservations m -> r' ∈ all_reservations m -> partition_of r = partition_of r' ->
  overlaps r r' = true -> r = r'.
Proof.
  intros Hm Hr Hr' E Ho. apply elem_of_all_reserved in Hr, Hr'; [|done..]. rewrite reserved_in_eq in Hr, Hr'. rewrite <-E in Hr'.
  destruct (ranges_ok_reserved m (partition_of r) Hm) as [_ (_ & _ & Hd)]. destruct (decide (r = r')) as [|Hne]; [done|].
  specialize (Hd r r' Hr Hr' Hne). congruence.
Qed.

(** C20: Every offset is published at most once and for good: of two publications made at
    any times, for ranges of one partition that overlap, both are the same. This
    holds for ranges published under the authority of a view and for those of
    relation ingest, each among themselves. *)
Theorem published_once s s' :
  reachable s -> meta_steps s s' ->
  (forall id id' p p', authoritative_ingest_publications s !! id = Some p -> authoritative_ingest_publications s' !! id' = Some p' ->
    partition_of (p_reservation p) = partition_of (p_reservation p') -> overlaps (p_reservation p) (p_reservation p') = true ->
    id = id' /\ p = p') /\
  (forall id id' p p', relation_authoritative_ingest_publications s !! id = Some p ->
    relation_authoritative_ingest_publications s' !! id' = Some p' ->
    partition_of (p_reservation p) = partition_of (p_reservation p') -> overlaps (p_reservation p) (p_reservation p') = true ->
    id = id' /\ p = p').
Proof.
  intros Hr Hs. assert (Hr' : reachable s') by by eapply reachable_steps. destruct (steps_publications _ _ Hs) as [Ha Hl]. split.
  - intros id id' p p' Hp Hp' E Ho. apply (lookup_weaken _ _ _ _ Hp) in Ha as Hp2.
    destruct (reachable_authoritative _ Hr') as [Hk Hpubs Hu].
    destruct (Hpubs _ _ Hp2) as (_ & Hk2 & _), (Hpubs _ _ Hp') as (_ & Hk' & _).
    assert (p_reservation p = p_reservation p') as Er by (eapply same_range; eauto using reachable_ranges).
    assert (id = id') as <- by (eapply Hu; eauto; by rewrite Er). split; [done|congruence].
  - intros id id' p p' Hp Hp' E Ho. apply (lookup_weaken _ _ _ _ Hp) in Hl as Hp2.
    destruct (reachable_relation _ Hr') as [Hranges Hkeys _ Hpubs _].
    destruct (Hpubs _ _ Hp2) as (_ & Hk2 & Hi2), (Hpubs _ _ Hp') as (_ & Hk' & Hi').
    assert (p_reservation p = p_reservation p') as Er by (eapply same_range; [exact Hranges|by eapply Hkeys|by eapply Hkeys|done|done]).
    rewrite Er in Hi2. assert (id = id') as <- by congruence. split; [done|congruence].
Qed.

(** * Relation source cuts *)

Lemma elem_of_entries_state s e :
  e ∈ relation_entries s <->
  e.2 ∈ all_reservations (relation_ingest_reservations s) /\ relation_authority_reservation_keys s !! e.2 = Some e.1.
Proof.
  destruct e as [k r]. unfold relation_entries. rewrite list_elem_of_omap. cbn. split.
  - intros (x & Hx & Hk). destruct (relation_authority_reservation_keys s !! x) eqn:E; [|done]. by injection Hk as <- <-.
  - intros [Hr Hk]. exists r. by rewrite Hk.
Qed.

Lemma elem_of_publications s p :
  p ∈ relation_publications s <-> exists id, relation_authoritative_ingest_publications s !! id = Some p.
Proof.
  unfold relation_publications. rewrite list_elem_of_fmap. split.
  - intros ([id p'] & -> & Hin). exists id. by apply elem_of_map_to_list.
  - intros [id Hid]. exists (id, p). split; [done|]. by apply elem_of_map_to_list.
Qed.

(** An entry and a publication with one identity are about the same reservation. *)
Lemma same_entry s e p id :
  relation_ok s -> e ∈ relation_entries s -> relation_authoritative_ingest_publications s !! id = Some p ->
  publication_id p = entry_id e -> e = (p_authority_key p, p_reservation p).
Proof.
  intros Hok He Hp E. apply elem_of_entries_state in He as [_ Hk]. destruct (ro_publications _ Hok _ _ Hp) as (_ & Hk' & _).
  destruct (ro_keys _ Hok _ _ Hk) as (_ & ? & ? & ? & _), (ro_keys _ Hok _ _ Hk') as (_ & ? & ? & ? & _).
  destruct e as [k r], p as [r' k' ? ? ? ?]. cbn in *. unfold publication_id, entry_id, relation_source_entry_key in E. cbn in E.
  injection E as ? ? ? ? ? ? ? ? ? ? ?. f_equal; [destruct k, k'|destruct r, r']; cbn in *; congruence.
Qed.

Lemma requested_is q e i st pid :
  validate_capture_relation_cuts q = Ok tt -> entry_group q e = Some (i, (st, pid)) ->
  i_schema_fingerprint i = r_schema_fingerprint e.2 ->
  rk_namespace e.1 = cs_namespace q /\ reservation_relation e.2 = i /\ r_stream_id e.2 = st /\ r_partition_id e.2 = pid.
Proof.
  unfold entry_group. destruct (String.eqb_spec (rk_namespace e.1) (cs_namespace q)) as [Hns|]; [|done].
  destruct (requested_relation (cs_relations q) e.2) as [i'|] eqn:Hi; [|done]. cbn. intros Hv [= -> <- <-] Hfp.
  apply requested_some in Hi as (Hin & E1 & E2). unfold validate_capture_relation_cuts in Hv.
  do 2 apply bind_unit_ok in Hv as [_ Hv]. apply bind_ok in Hv as (seen & Hv & _).
  destruct (try_fold_steps _ _ _ _ _ Hv Hin) as (s1 & s2 & Hstep). apply bind_unit_ok in Hstep as [_ Hstep].
  apply bind_unit_ok in Hstep as [Hgen _]. apply fail_if_ok, negb_false_iff, Z.eqb_eq in Hgen.
  split_and!; [done| |done|done]. unfold reservation_relation. destruct i. cbn in *. congruence.
Qed.
Lemma requested_exists q r i :
  i ∈ cs_relations q -> reservation_relation r = i -> is_Some (requested_relation (cs_relations q) r).
Proof.
  intros Hi <-. unfold requested_relation. destruct (List.find _ _) eqn:E; [by eexists|]. exfalso.
  eapply List.find_none in E; [|by apply list_elem_of_In]. cbn in E. by rewrite !String.eqb_refl in E.
Qed.

(** A reservation of a requested relation is grouped under that relation. *)
Lemma entry_grouped s q cuts e :
  validate_capture_relation_cuts q = Ok tt -> cuts_exact q (relation_entries s) (relation_publications s) cuts ->
  e ∈ relation_entries s -> rk_namespace e.1 = cs_namespace q -> reservation_relation e.2 ∈ cs_relations q ->
  entry_group q e = Some (reservation_relation e.2, (r_stream_id e.2, r_partition_id e.2)).
Proof.
  intros Hv Hx He Hns Hi. destruct (requested_exists q e.2 _ Hi eq_refl) as [i' Hi'].
  assert (Hk : entry_group q e = Some (i', (r_stream_id e.2, r_partition_id e.2)))
    by (unfold entry_group; by rewrite Hns, String.eqb_refl, Hi').
  destruct (requested_is q e _ _ _ Hv Hk) as (_ & E & _); [by eapply cx_fingerprint|]. by rewrite E.
Qed.

Lemma publication_entry s id p :
  relation_ok s -> relation_authoritative_ingest_publications s !! id = Some p -> (p_authority_key p, p_reservation p) ∈ relation_entries s.
Proof.
  intros Hok Hp. apply elem_of_entries_state. destruct (ro_publications _ Hok _ _ Hp) as (_ & Hk & _).
  split; [|done]. by apply (ro_keys _ Hok) in Hk as [? _].
Qed.

(** The publication of a listed entry. *)
Lemma complete_publication s q cuts c e st pid :
  relation_ok s -> cuts_exact q (relation_entries s) (relation_publications s) cuts ->
  c ∈ cuts -> e ∈ relation_entries s -> entry_group q e = Some (ic_relation c, (st, pid)) ->
  exists id p part, relation_authoritative_ingest_publications s !! id = Some p /\ e = (p_authority_key p, p_reservation p) /\
    part ∈ lc_partitions (ic_cut c) /\ lp_stream_id part = st /\ lp_partition_id part = pid /\
    publication_ref p (p_reservation p) ∈ lp_publications part.
Proof.
  intros Hok Hx Hc He Hk. destruct (cx_complete _ _ _ _ Hx c e st pid Hc He Hk) as (p & part & Hp & Hid & Hpart & ? & ? & Href).
  apply elem_of_publications in Hp as [id Hp]. pose proof (same_entry _ _ _ _ Hok He Hp Hid) as ->. by exists id, p, part.
Qed.

(** C22: When the source cuts of relations are captured, each lists exactly the
    publications of its relation in the namespace, by partition and without a gap,
    and every range reserved for the relation has been published. *)
Theorem relation_cuts_exact s q cuts :
  reachable s -> capture_relation_ingest_source_cuts q s = (Ok cuts, s) ->
  ic_relation <$> cuts = cs_relations q /\
  forall c, c ∈ cuts ->
    (forall part, part ∈ lc_partitions (ic_cut c) ->
      refs_chain (lp_base_offset_inclusive part) (lp_publications part) (lp_committed_offset_exclusive part)) /\
    (forall st pid ref,
      (exists part, part ∈ lc_partitions (ic_cut c) /\ lp_stream_id part = st /\ lp_partition_id part = pid /\ ref ∈ lp_publications part) <->
      (exists id p, relation_authoritative_ingest_publications s !! id = Some p /\
        rk_namespace (p_authority_key p) = cs_namespace q /\ reservation_relation (p_reservation p) = ic_relation c /\
        partition_of (p_reservation p) = (st, pid) /\ ref = publication_ref p (p_reservation p))) /\
    (forall r k, relation_authority_reservation_keys s !! r = Some k -> rk_namespace k = cs_namespace q ->
      reservation_relation r = ic_relation c ->
      exists id p, relation_authoritative_ingest_publications s !! id = Some p /\ p_reservation p = r).
Proof.
  intros Hr Hcap. pose proof (reachable_relation _ Hr) as Hok.
  unfold capture_relation_ingest_source_cuts, mbind, meta_bind, lift, state in Hcap.
  destruct (validate_capture_relation_cuts q) as [[]|] eqn:Hv; [|done]. injection Hcap as Hcap.
  pose proof (build_relation_cuts_exact _ _ _ _ Hcap) as Hx. split; [by apply (cx_relations _ _ _ _ Hx)|].
  intros c Hc. assert (Hi : ic_relation c ∈ cs_relations q) by (rewrite <-(cx_relations _ _ _ _ Hx); by apply list_elem_of_fmap_2).
  split_and!.
  - intros part Hpart. by eapply cx_partitions.
  - intros st pid ref. split.
    + intros (part & Hpart & <- & <- & Href). destruct (cx_sound _ _ _ _ Hx c part ref Hc Hpart Href) as (e & p & He & Hk & Hp & Hid & ->).
      apply elem_of_publications in Hp as [id Hp]. pose proof (same_entry _ _ _ _ Hok He Hp Hid) as ->.
      destruct (requested_is q _ _ _ _ Hv Hk) as (? & ? & Est & Epid); [by eapply cx_fingerprint|].
      exists id, p. split_and!; try done. unfold partition_of. cbn in Est, Epid. by rewrite Est, Epid.
    + intros (id & p & Hp & Hns & Hrel & [= Est Epid] & ->). pose proof (publication_entry _ _ _ Hok Hp) as He.
      pose proof (entry_grouped s q cuts _ Hv Hx He Hns) as Hk. cbn in Hk. rewrite Hrel, Est, Epid in Hk.
      destruct (complete_publication s q cuts c _ st pid Hok Hx Hc He (Hk Hi)) as (id2 & p2 & part & Hp2 & [= _ Er] & ? & ? & ? & Href).
      destruct (ro_publications _ Hok _ _ Hp) as (_ & _ & E1), (ro_publications _ Hok _ _ Hp2) as (_ & _ & E2).
      rewrite Er in E1. assert (id = id2) as <- by congruence. assert (p = p2) as <- by congruence. by exists part.
  - intros r k Hk Hns Hrel. assert (He : (k, r) ∈ relation_entries s)
      by (apply elem_of_entries_state; split; [by apply (ro_keys _ Hok) in Hk as [? _]|done]).
    pose proof (entry_grouped s q cuts _ Hv Hx He Hns) as Hg. cbn in Hg. rewrite Hrel in Hg.
    destruct (complete_publication s q cuts c _ _ _ Hok Hx Hc He (Hg Hi)) as (id & p & _ & Hp & [= _ ->] & _). by exists id, p.
Qed.

(** * Ranges of both kinds *)

(** What a reservation that is made does to the state. *)
Lemma relation_range_reserved q s : (reserve_relation_authoritative_ingest_range q s).1 = Ok RangeReserved ->
  let r := rr_reservation q in
  let s' := (reserve_relation_authoritative_ingest_range q s).2 in
  validate_reserve_relation q = Ok tt /\ relation_authority_reservation_keys s !! r = None /\
  ingest_reservations s' = ingest_reservations s /\ view_bootstraps s' = view_bootstraps s /\
  ingest_catalog_epoch s' = ingest_catalog_epoch s /\ r ∈ reserved_in (relation_ingest_reservations s') r.
Proof.
  unfold reserve_relation_authoritative_ingest_range, mbind, meta_bind, lift, state, change. cbn zeta.
  destruct (validate_reserve_relation q) as [[]|]; [|done]. destruct (negb _); [done|].
  destruct (relation_authority_reservation_keys s !! rr_reservation q); [by destruct (bool_decide _)|].
  destruct (_ || _); [done|]. intros _. cbn. split_and!; [done..|]. unfold reserved_in at 1. cbn. rewrite lookup_insert_eq. cbn.
  apply elem_of_app. right. by left.
Qed.

Lemma legacy_range_reserved r s : (reserve_ingest_range r s).1 = Ok RangeReserved ->
  let s' := (reserve_ingest_range r s).2 in
  relation_authority_reservation_keys s' = relation_authority_reservation_keys s /\ r ∈ reserved_in (ingest_reservations s') r.
Proof.
  unfold reserve_ingest_range, mbind, meta_bind, lift, state, change. cbn zeta. destruct (validate_reservation r) as [[]|]; [|done].
  destruct (below_sealed_base s r); [done|]. destruct (bool_decide _); [done|]. destruct (existsb _ _); [done|]. cbn.
  destruct (add_or _ _ _); [|done]. intros _. cbn. split; [done|]. unfold reserved_in at 1, push_sorted. rewrite lookup_insert_eq. cbn.
  rewrite sort_on_perm. apply elem_of_app. right. by left.
Qed.

Lemma legacy_range_relation r s : relation_ingest_reservations (reserve_ingest_range r s).2 = relation_ingest_reservations s.
Proof.
  change (wpm (reserve_ingest_range r) s (fun s' => relation_ingest_reservations s' = relation_ingest_reservations s)).
  unfold reserve_ingest_range. meta_run; done.
Qed.

(** The answer to [reserve_ingest_range] depends on these parts of the state only. *)
Lemma legacy_range_answer r s s' : ingest_reservations s' = ingest_reservations s -> view_bootstraps s' = view_bootstraps s ->
  ingest_catalog_epoch s' = ingest_catalog_epoch s -> (reserve_ingest_range r s').1 = (reserve_ingest_range r s).1.
Proof.
  intros Er Ev Ee. unfold reserve_ingest_range, mbind, meta_bind, lift, state, change, below_sealed_base. rewrite Er, Ev.
  destruct (validate_reservation r) as [[]|]; [|done]. destruct (existsb _ (map_to_list _).*2); [done|].
  destruct (bool_decide _); [done|]. destruct (existsb _ _); [done|]. cbn. rewrite Ee. by destruct (add_or _ _ _).
Qed.

(** A range of relation ingest that overlaps a reserved range is refused. *)
Lemma overlapping_relation_range q r s : validate_reserve_relation q = Ok tt -> relation_authority_reservation_keys s !! rr_reservation q = None ->
  r ∈ reserved_in (ingest_reservations s) (rr_reservation q) -> overlaps r (rr_reservation q) = true ->
  reserve_relation_authoritative_ingest_range q s = (Ok RangeConflict, s).
Proof.
  intros Hv Hn Hr Ho. unfold reserve_relation_authoritative_ingest_range, mbind, meta_bind, lift, state. rewrite Hv, Hn.
  destruct (negb _); [done|]. assert (existsb (fun existing => overlaps existing (rr_reservation q))
    (reserved_in (ingest_reservations s) (rr_reservation q)) = true) as ->; [|done].
  apply existsb_exists. exists r. by rewrite <-list_elem_of_In.
Qed.

(** C39: Take any state in which a range of relation ingest and an overlapping range of
    the same partition could both be reserved, the second with
    [reserve_ingest_range]. After the second, the first is refused; after the first, the
    second is still reserved, and both are reserved then. *)
Theorem overlap_depends_on_order q r s :
  (reserve_relation_authoritative_ingest_range q s).1 = Ok RangeReserved -> (reserve_ingest_range r s).1 = Ok RangeReserved ->
  partition_of (rr_reservation q) = partition_of r -> overlaps (rr_reservation q) r = true ->
  (reserve_relation_authoritative_ingest_range q (reserve_ingest_range r s).2).1 = Ok RangeConflict /\
  let both := reserve_ingest_range r (reserve_relation_authoritative_ingest_range q s).2 in
  both.1 = Ok RangeReserved /\ r ∈ reserved_in (ingest_reservations both.2) r /\
  rr_reservation q ∈ reserved_in (relation_ingest_reservations both.2) (rr_reservation q).
Proof.
  intros Hq Hr Hp Ho. destruct (relation_range_reserved q s Hq) as (Hv & Hn & Er & Ev & Ee & Hin).
  destruct (legacy_range_reserved r s Hr) as [Ek Hin']. split; cbn zeta.
  - rewrite (overlapping_relation_range q r); [done|done|by rewrite Ek| |].
    + unfold reserved_in in *. unfold partition_of in Hp. by rewrite Hp.
    + unfold overlaps in *. by rewrite andb_comm.
  - assert (Hb : (reserve_ingest_range r (reserve_relation_authoritative_ingest_range q s).2).1 = Ok RangeReserved)
      by by rewrite (legacy_range_answer r s).
    split_and!; [done|by apply legacy_range_reserved|]. by rewrite legacy_range_relation.
Qed.
End relation_ingest.
