(* ===== verification/ArrowState.v ===== *)
(** The Arrow form of a state, [velorix-core/src/arrow_state.rs] with its files
    [value.rs], [serializer.rs] and [deserializer.rs]: a serialized value is a tree, the
    nodes of the tree are the rows of a record batch in preorder, and the batch is
    written as an Arrow stream with compressed buffers. What is read is bounded before
    it is expanded, and checked to be a tree.

    The writer and the reader of Arrow streams are parameters. A type that can be
    serialized is given by the calls that serde makes for it, and one that can be read by
    what its visitor makes of a tree; JSON values are such a type. *)
From stdpp Require Import sorting.
From S2P Require Import Prelude BTree Json Digits Codec.

Definition StateError := string.
Definition FORMAT : string := "velorix-runtime-arrow-v2".
Definition MAX_DEPTH : nat := 128.

(** * Trees *)

(** [value::Value]; a map lists its entries by key. Floats are given by their bits. *)
Unset Elimination Schemes.
Inductive StateValue :=
| SUnit
| SBool (b : bool)
| SI64 (n : Z)
| SU64 (n : Z)
| SI128 (n : Z)
| SU128 (n : Z)
| SF64 (bits : Z)
| SString (s : string)
| SSeq (l : list StateValue)
| SMap (l : list (StateValue * StateValue))
| SBytes (b : bytes).
Set Elimination Schemes.

Definition tag (v : StateValue) : Z :=
  match v with
  | SUnit => 0 | SBool _ => 1 | SI64 _ => 2 | SU64 _ => 3 | SI128 _ => 4 | SU128 _ => 5 | SF64 _ => 6
  | SString _ => 7 | SSeq _ => 8 | SMap _ => 9 | SBytes _ => 10
  end.

(** [f64::total_cmp] compares these integers. *)
Definition total_order_key (bits : Z) : Z := if bits <? 2 ^ 63 then bits else 2 ^ 63 - 1 - bits.

Definition seq_cmp {A} (compare : A -> A -> comparison) : list A -> list A -> comparison :=
  fix go l k :=
    match l, k with
    | [], [] => Eq
    | [], _ => Lt
    | _, [] => Gt
    | x :: l, y :: k => lex (compare x y) (go l k)
    end.

(** [Value::cmp]. *)
Fixpoint value_cmp (a b : StateValue) {struct a} : comparison :=
  match a, b with
  | SUnit, SUnit => Eq
  | SBool x, SBool y => Z.compare (Z.b2z x) (Z.b2z y)
  | SI64 x, SI64 y | SU64 x, SU64 y | SI128 x, SI128 y | SU128 x, SU128 y => Z.compare x y
  | SF64 x, SF64 y => Z.compare (total_order_key x) (total_order_key y)
  | SString x, SString y => cmp x y
  | SSeq l, SSeq k => seq_cmp value_cmp l k
  | SMap l, SMap k => seq_cmp (fun x y => lex (value_cmp x.1 y.1) (value_cmp x.2 y.2)) l k
  | SBytes x, SBytes y => seq_cmp Z.compare x y
  | _, _ => Z.compare (tag a) (tag b)
  end.

(** [BTreeMap::insert] of a key that must be new. *)
Fixpoint map_insert (key value : StateValue) (l : list (StateValue * StateValue)) : option (list (StateValue * StateValue)) :=
  match l with
  | [] => Some [(key, value)]
  | (k, v) :: l =>
      match value_cmp key k with
      | Lt => Some ((key, value) :: (k, v) :: l)
      | Eq => None
      | Gt => cons (k, v) <$> map_insert key value l
      end
  end.

(** * The serializer *)

Definition is_finite (bits : Z) : bool := negb (Z.land (Z.shiftr bits 52) 2047 =? 2047).

(** [Budget::charge]: the size after a node with [extra] bytes of its own. *)
Definition charge (limit extra size : Z) : result StateError Z :=
  n ← ok_or "runtime_checkpoint_bytes" (checked_u64 (size + 48));
  n ← ok_or "runtime_checkpoint_bytes" (checked_u64 (n + extra));
  if n <=? limit then Ok n else Err "runtime_checkpoint_bytes".

Definition leaf (limit : Z) (depth : nat) (v : StateValue) (extra size : Z) : result StateError (StateValue * Z) :=
  _ ← fail_if (MAX_DEPTH <? depth)%nat "depth limit";
  size ← charge limit extra size;
  Ok (v, size).

Definition compound (limit : Z) (depth : nat) (size : Z) : result StateError Z :=
  _ ← fail_if (MAX_DEPTH <=? depth)%nat "depth limit";
  charge limit 0 size.

Definition serialize_str (limit : Z) (depth : nat) (s : string) (size : Z) : result StateError (StateValue * Z) :=
  leaf limit depth (SString s) (Z.of_nat (String.length s)) size.

Definition serialize_f64 (limit : Z) (depth : nat) (bits : Z) (size : Z) : result StateError (StateValue * Z) :=
  _ ← fail_if (negb (is_finite bits)) "nonfinite number";
  leaf limit depth (SF64 bits) 0 size.

(** The elements of a sequence. *)
Definition serialize_elements {A} (serialize : A -> Z -> result StateError (StateValue * Z)) :
    list A -> Z -> result StateError (list StateValue * Z) :=
  fix go l size :=
    match l with
    | [] => Ok ([], size)
    | x :: l =>
        x ← serialize x size;
        rest ← go l x.2;
        Ok (x.1 :: rest.1, rest.2)
    end.

(** [serialize_entry] for every entry, with keys that are texts at the given depth. *)
Definition serialize_entries {A} (limit : Z) (depth : nat) (serialize : A -> Z -> result StateError (StateValue * Z)) :
    list (string * A) -> list (StateValue * StateValue) -> Z -> result StateError (list (StateValue * StateValue) * Z) :=
  fix go l map size :=
    match l with
    | [] => Ok (map, size)
    | (key, x) :: l =>
        key ← serialize_str limit depth key size;
        value ← serialize x key.2;
        map ← ok_or "duplicate map key" (map_insert key.1 value.1 map);
        go l map value.2
    end.

(** [serde_json::Value] on the serializer. *)
Fixpoint serialize_json (limit : Z) (depth : nat) (v : Value) (size : Z) {struct v} : result StateError (StateValue * Z) :=
  match v with
  | JNull => leaf limit depth SUnit 0 size
  | JBool b => leaf limit depth (SBool b) 0 size
  | JNumber (PosInt n) => leaf limit depth (SU64 n) 0 size
  | JNumber (NegInt n) => leaf limit depth (SI64 n) 0 size
  | JNumber (Float bits) => serialize_f64 limit depth bits size
  | JString s => serialize_str limit depth s size
  | JArray l =>
      size ← compound limit depth size;
      r ← serialize_elements (serialize_json limit (S depth)) l size;
      Ok (SSeq r.1, r.2)
  | JObject fs =>
      size ← compound limit depth size;
      r ← serialize_entries limit (S depth) (serialize_json limit (S depth)) fs [] size;
      Ok (SMap r.1, r.2)
  end.

(** A type with what its [Serialize] does on a serializer of a limit, at a depth. *)
Class Serialize (A : Type) := serialize : Z -> nat -> A -> Z -> result StateError (StateValue * Z).
#[export] Instance json_serialize : Serialize Value := serialize_json.

Definition serialize_u32 (limit : Z) (depth : nat) (n : Z) (size : Z) : result StateError (StateValue * Z) :=
  leaf limit depth (SU64 n) 0 size.

(** [serialize_struct], with the fields by name. *)
Definition serialize_struct (limit : Z) (depth : nat) (fields : list (string * (Z -> result StateError (StateValue * Z)))) (size : Z) :
    result StateError (StateValue * Z) :=
  size ← compound limit depth size;
  r ← serialize_entries limit (S depth) (fun field => field) fields [] size;
  Ok (SMap r.1, r.2).

Definition measure_serializable `{Serialize A} (x : A) (limit : Z) : result StateError Z :=
  r ← serialize limit 0 x 0;
  Ok r.2.

(** * Rows *)

(** A row; [None] is a null. *)
Record Node := TreeNode {
  nd_kind : Z;
  nd_children : Z;
  nd_boolean : option bool;
  nd_signed : option Z;
  nd_unsigned : option Z;
  nd_float : option Z;
  nd_text : option string;
  nd_binary : option bytes
}.

#[export] Instance Node_eq_dec : EqDecision Node.
Proof. solve_decision. Defined.

Definition empty_node (kind children : Z) : Node := TreeNode kind children None None None None None None.

(** The row of a value with this many children. *)
Definition node_of (v : StateValue) (children : Z) : Node :=
  match v with
  | SUnit => empty_node 0 children
  | SBool b => TreeNode 1 children (Some b) None None None None None
  | SI64 n => TreeNode 2 children None (Some n) None None None None
  | SU64 n => TreeNode 3 children None None (Some n) None None None
  | SF64 bits => TreeNode 4 children None None None (Some bits) None None
  | SString s => TreeNode 5 children None None None None (Some s) None
  | SSeq _ => empty_node 6 children
  | SMap _ => empty_node 7 children
  | SBytes b => TreeNode 8 children None None None None None (Some b)
  | SI128 n => TreeNode 9 children None None None None None (Some (le_bytes 16 n))
  | SU128 n => TreeNode 10 children None None None None None (Some (le_bytes 16 n))
  end.

Definition text_length (node : Node) : Z := default 0 ((fun s => Z.of_nat (String.length s)) <$> nd_text node).
Definition binary_length (node : Node) : Z := default 0 ((fun b => Z.of_nat (length b)) <$> nd_binary node).

(** The size after a row. *)
Definition row_size (limit : Z) (node : Node) (size : Z) : result StateError Z :=
  n ← ok_or "runtime_checkpoint_bytes" (checked_u64 (size + 48));
  n ← ok_or "runtime_checkpoint_bytes" (checked_u64 (n + text_length node));
  n ← ok_or "runtime_checkpoint_bytes" (checked_u64 (n + binary_length node));
  if n <=? limit then Ok n else Err "runtime_checkpoint_bytes".

Definition child_count (n : nat) : result StateError Z :=
  if is_u32 (Z.of_nat n) then Ok (Z.of_nat n) else Err "out of range integral type conversion attempted".

(** Rows with the index after the last row of their subtree, and the size. *)
Definition flattened : Type := list (Node * nat) * Z.

(** A list of subtrees that starts at a row. *)
Definition flatten_all {A} (flatten : A -> nat -> Z -> result StateError flattened) : list A -> nat -> Z -> result StateError flattened :=
  fix go l index size :=
    match l with
    | [] => Ok ([], size)
    | x :: l =>
        a ← flatten x index size;
        b ← go l (index + length a.1)%nat a.2;
        Ok (a.1 ++ b.1, b.2)
    end.

(** A row and the rows of its children. *)
Definition flatten_node (limit : Z) (v : StateValue) (count : nat) (children : nat -> Z -> result StateError flattened)
    (index : nat) (size : Z) : result StateError flattened :=
  count ← child_count count;
  let node := node_of v count in
  size ← row_size limit node size;
  r ← children (S index) size;
  _ ← fail_if (match nd_float node with Some bits => negb (is_finite bits) | None => false end) "nonfinite number";
  Ok ((node, (S index + length r.1)%nat) :: r.1, r.2).

(** [flatten], which appends the rows of a subtree to those before it. *)
Fixpoint flatten (limit : Z) (depth : nat) (v : StateValue) (index : nat) (size : Z) {struct v} : result StateError flattened :=
  _ ← fail_if (MAX_DEPTH <? depth)%nat "depth limit";
  match v with
  | SSeq l => flatten_node limit v (length l) (flatten_all (flatten limit (S depth)) l) index size
  | SMap l =>
      flatten_node limit v (2 * length l) (flatten_all (fun entry index size =>
        key ← flatten limit (S depth) entry.1 index size;
        value ← flatten limit (S depth) entry.2 (index + length key.1)%nat key.2;
        Ok (key.1 ++ value.1, value.2)) l) index size
  | _ => flatten_node limit v 0 (fun _ size => Ok ([], size)) index size
  end.

(** * Arrow streams, a parameter *)

(** [arrow::ipc::Message]: what is looked at. A batch has its number of rows, its
    compression (whether by ZSTD, whether by buffer) and the places of its buffers. *)
Inductive MessageHeader :=
| SchemaHeader
| BatchHeader (rows : Z) (compression : option (bool * bool)) (buffers : option (list (Z * Z)))
| OtherHeader.
Record Message := IpcMessage { m_body_length : Z; m_header : MessageHeader }.

(** The stream writer with ZSTD for one batch of rows, and what it writes before the
    batch; the stream reader, with the rows of a batch if its columns have the types of
    [fields] and no null in the first two; the messages of a stream. Integers of more than
    64 bits as JSON. *)
Class ArrowStreams := {
  write_stream : gmap string string -> list Node -> option bytes;
  write_schema : gmap string string -> option bytes;
  read_metadata : bytes -> option (gmap string string);
  read_batches : bytes -> list (option (option (list Node)));
  root_as_message : bytes -> option Message;
  json_of_wide : Z -> option Value
}.

(** [from_le_bytes]. *)
Fixpoint le_value (b : bytes) : Z := match b with [] => 0 | x :: b => x + 256 * le_value b end.
Definition signed (bits n : Z) : Z := if n <? 2 ^ (bits - 1) then n else n - 2 ^ bits.

(** [slice.get(a..b)]. *)
Definition get_range (a b : Z) (l : bytes) : option bytes :=
  if (a <=? b) && (b <=? Z.of_nat (length l)) then Some (take (Z.to_nat (b - a)) (drop (Z.to_nat a) l)) else None.

(** [usize::try_from]. *)
Definition to_usize (n : Z) : result StateError Z := ok_or "out of range integral type conversion attempted" (checked_u64 n).

Section state.
Context `{ArrowStreams}.

Definition base_metadata : gmap string string := {["format" := FORMAT]}.

(** ** Bounds *)

Definition saturating_mul_u64 (a b : Z) : Z := Z.min u64_max (a * b).
Definition encoded_limit (limit : Z) : Z := saturating_add_u64 (saturating_mul_u64 limit 2) (16 * 1024).
Definition expanded_limit (limit : Z) : Z := saturating_add_u64 (saturating_mul_u64 limit 2) 1024.

(** The expanded size after one buffer. *)
Definition expand_buffer (limit : Z) (body : bytes) (expanded : Z) (buffer : Z * Z) : result StateError Z :=
  start ← to_usize buffer.1;
  len ← to_usize buffer.2;
  stop ← ok_or "buffer overflow" (checked_u64 (start + len));
  data ← ok_or "buffer bounds" (get_range start stop body);
  if len =? 0 then Ok expanded
  else
    prefix ← ok_or "buffer prefix" (get_range 0 8 data);
    let n := signed 64 (le_value prefix) in
    n ← (if n =? -1 then Ok (len - 8) else to_usize n);
    expanded ← ok_or "expanded byte limit" (checked_u64 (expanded + n));
    if expanded <=? expanded_limit limit then Ok expanded else Err "expanded byte limit".

Definition zstd_buffers (compression : option (bool * bool)) : bool :=
  match compression with Some (zstd, buffer) => zstd && buffer | None => false end.

Definition check_batch (limit : Z) (m : Message) (body : bytes) : result StateError unit :=
  match m_header m with
  | BatchHeader rows compression buffers =>
      rows ← to_usize rows;
      _ ← fail_if ((rows =? 0) || (limit / 48 <? rows) || negb (zstd_buffers compression)) "batch bounds or compression";
      buffers ← ok_or "buffers" buffers;
      _ ← try_fold (expand_buffer limit body) 0 buffers;
      Ok tt
  | _ => Err "batch frame"
  end.

(** The loop over the messages of a stream, from one on; the result is the length of the
    first message. The third round returns or fails, so that three are enough. *)
Fixpoint check_frames (rounds : nat) (limit : Z) (rest : bytes) (messages schema_end : Z) : result StateError Z :=
  match rounds with
  | O => Err "extra batch"
  | S rounds =>
      prefix ← ok_or "truncated frame" (get_range 0 8 rest);
      _ ← fail_if (negb (bool_decide (take 4 prefix = [255; 255; 255; 255]))) "IPC continuation";
      let n := le_value (drop 4 prefix) in
      let rest := drop 8 rest in
      if n =? 0 then if (messages =? 2) && bool_decide (rest = []) then Ok schema_end else Err "extra IPC data"
      else
        text ← ok_or "frame size" (get_range 0 n rest);
        m ← ok_or "message" (root_as_message text);
        size ← to_usize (m_body_length m);
        stop ← ok_or "frame overflow" (checked_u64 (n + size));
        body ← ok_or "body size" (get_range n stop rest);
        schema_end ←
          (if messages =? 0 then
             _ ← fail_if (match m_header m with SchemaHeader => negb (size =? 0) | _ => true end) "schema frame";
             Ok (8 + n)
           else if messages =? 1 then _ ← check_batch limit m body; Ok schema_end
           else Err "extra batch");
        check_frames rounds limit (drop (Z.to_nat stop) rest) (messages + 1) schema_end
  end.

Definition preflight (body : bytes) (limit : Z) : result StateError Z :=
  _ ← fail_if (encoded_limit limit <? Z.of_nat (length body)) "encoded byte limit";
  check_frames 3 limit body 0 0.

(** ** States *)

Record Inner := StateInner { in_rows : list Node; in_bytes : bytes; in_ends : list nat; in_size : Z }.
#[export] Instance Inner_eq_dec : EqDecision Inner.
Proof. solve_decision. Defined.

(** [ArrowState]: the default is empty. *)
Definition ArrowState : Type := option Inner.
Definition state_bytes (s : ArrowState) : bytes := match s with Some s => in_bytes s | None => [] end.
Definition state_len (s : ArrowState) : Z := match s with Some s => in_size s | None => 0 end.
Definition is_empty (s : ArrowState) : bool := match s with Some _ => false | None => true end.
Definition clear (s : ArrowState) : ArrowState := None.

Definition from_tree (value : StateValue) (limit : Z) : result StateError ArrowState :=
  r ← flatten limit 0 value 0 0;
  body ← ok_or "write" (write_stream base_metadata r.1.*1);
  Ok (Some (StateInner r.1.*1 body r.1.*2 r.2)).

Definition from_serializable_bounded `{Serialize A} (x : A) (limit : Z) : result StateError ArrowState :=
  value ← serialize limit 0 x 0;
  from_tree value.1 limit.

(** Which column holds the scalar of a node. *)
Definition scalar_slot (kind : Z) : option Z :=
  if kind =? 1 then Some 0 else if kind =? 2 then Some 1 else if kind =? 3 then Some 2 else if kind =? 4 then Some 3
  else if kind =? 5 then Some 4 else if (8 <=? kind) && (kind <=? 10) then Some 5 else None.

Definition nulls (node : Node) : list bool :=
  [bool_decide (nd_boolean node = None); bool_decide (nd_signed node = None); bool_decide (nd_unsigned node = None);
   bool_decide (nd_float node = None); bool_decide (nd_text node = None); bool_decide (nd_binary node = None)].

Definition check_node (node : Node) : result StateError unit :=
  let kind := nd_kind node in
  let count := nd_children node in
  _ ← fail_if ((10 <? kind) || (negb (kind =? 6) && negb (kind =? 7) && negb (count =? 0)) ||
    ((kind =? 7) && negb (count mod 2 =? 0))) "tree node";
  _ ← fail_if (existsb (fun null => Bool.eqb null.2 (bool_decide (scalar_slot kind = Some null.1))) (zip (seqZ 0 6) (nulls node)))
    "scalar slots";
  _ ← fail_if ((kind =? 4) && negb (is_finite (default 0 (nd_float node)))) "nonfinite float";
  fail_if (((kind =? 9) || (kind =? 10)) && negb (binary_length node =? 16)) "128-bit scalar width".

(** The size after a node that was read. *)
Definition walk_size (limit : Z) (node : Node) (size : Z) : result StateError Z :=
  charge limit (if nd_kind node =? 5 then text_length node else if 8 <=? nd_kind node then binary_length node else 0) size.

(** This many subtrees: the rows after them, the ends of their rows, and the size. *)
Definition walk_children (walk : nat -> list Node -> Z -> result StateError (list Node * list nat * Z)) :
    nat -> nat -> list Node -> Z -> result StateError (list Node * list nat * Z) :=
  fix go count index rows size :=
    match count with
    | O => Ok (rows, [], size)
    | S count =>
        '(rows, ends, size) ← walk index rows size;
        '(rows, more, size) ← go count (index + length ends)%nat rows size;
        Ok (rows, ends ++ more, size)
    end.

(** [walk]; [levels] is how many levels of the tree may still come. *)
Fixpoint walk (limit : Z) (levels : nat) (index : nat) (rows : list Node) (size : Z) : result StateError (list Node * list nat * Z) :=
  match levels, rows with
  | S levels, node :: rows =>
      _ ← check_node node;
      size ← walk_size limit node size;
      '(rows, ends, size) ← walk_children (walk limit levels) (Z.to_nat (nd_children node)) (S index) rows size;
      Ok (rows, (S index + length ends)%nat :: ends, size)
  | _, _ => Err "tree bounds"
  end.

Definition validated (rows : list Node) (body : bytes) (limit : Z) : result StateError ArrowState :=
  _ ← fail_if (bool_decide (rows = [])) "typed schema";
  '(rest, ends, size) ← walk limit (S MAX_DEPTH) 0 rows 0;
  _ ← fail_if (negb (bool_decide (rest = []))) "trailing tree nodes";
  Ok (Some (StateInner rows body ends size)).

Definition replace_metadata (body : bytes) (metadata : gmap string string) (limit : Z) : result StateError bytes :=
  schema_end ← preflight body limit;
  out ← ok_or "write" (write_schema (<["format" := FORMAT]> metadata));
  Ok (out ++ drop (Z.to_nat schema_end) body).

Definition metadata (body : bytes) (limit : Z) : result StateError (gmap string string) :=
  _ ← preflight body limit;
  ok_or "read" (read_metadata body).

Definition from_ipc (body : bytes) (limit : Z) : result StateError ArrowState :=
  _ ← preflight body limit;
  metadata ← ok_or "read" (read_metadata body);
  _ ← fail_if (negb (bool_decide (metadata !! "format" = Some FORMAT))) "format";
  batch ← match read_batches body with
          | [] => Err "empty state"
          | None :: _ => Err "read"
          | [Some batch] => Ok batch
          | _ => Err "extra batch"
          end;
  out ← replace_metadata body base_metadata limit;
  rows ← ok_or "columns" batch;
  validated rows out limit.

(** ** The deserializer *)

(** [Access] on a sequence: the subtrees from a row up to another. *)
Definition access_seq {A} (ends : list nat) (read : nat -> option A) (stop : nat) : nat -> nat -> option (list A) :=
  fix go rounds index :=
    match rounds with
    | O => None
    | S rounds =>
        if (stop <=? index)%nat then Some []
        else
          next ← ends !! index;
          x ← read index;
          rest ← go rounds next;
          Some (x :: rest)
    end.

(** [Access] on a map: a key, then a value, which must not be missing. *)
Definition access_map {A} (ends : list nat) (read : nat -> option A) (stop : nat) : nat -> nat -> option (list (A * A)) :=
  fix go rounds index :=
    match rounds with
    | O => None
    | S rounds =>
        if (stop <=? index)%nat then Some []
        else
          next ← ends !! index;
          key ← read index;
          if (stop <=? next)%nat then None
          else
            after ← ends !! next;
            value ← read next;
            rest ← go rounds after;
            Some ((key, value) :: rest)
    end.

(** [deserialize_any]: what a visitor is shown. Every level of the tree and every subtree
    takes a row at least, so that the number of rows bounds the rounds. *)
Fixpoint read_any (s : Inner) (fuel : nat) (index : nat) : option StateValue :=
  match fuel with
  | O => None
  | S fuel =>
      node ← in_rows s !! index;
      stop ← in_ends s !! index;
      let kind := nd_kind node in
      if kind =? 0 then Some SUnit
      else if kind =? 1 then SBool <$> nd_boolean node
      else if kind =? 2 then SI64 <$> nd_signed node
      else if kind =? 3 then SU64 <$> nd_unsigned node
      else if kind =? 4 then SF64 <$> nd_float node
      else if kind =? 5 then SString <$> nd_text node
      else if kind =? 6 then SSeq <$> access_seq (in_ends s) (read_any s fuel) stop (S (length (in_rows s))) (S index)
      else if kind =? 7 then SMap <$> access_map (in_ends s) (read_any s fuel) stop (S (length (in_rows s))) (S index)
      else if kind =? 8 then SBytes <$> nd_binary node
      else if kind =? 9 then (fun b => SI128 (signed 128 (le_value b))) <$> nd_binary node
      else if kind =? 10 then (fun b => SU128 (le_value b)) <$> nd_binary node
      else None
  end.

(** A key of a JSON object: [deserialize_string] of a key writes integers as texts. *)
Definition key_text (key : StateValue) : option string :=
  match key with
  | SString s => Some s
  | SI64 n => Some (int_to_string n)
  | SU64 n => Some (nat_to_string n)
  | _ => None
  end.

(** [Map::insert] keeps the place of a field that is there. *)
Fixpoint object_insert (name : string) (v : Value) (fields : list (string * Value)) : list (string * Value) :=
  match fields with
  | [] => [(name, v)]
  | f :: fields => if String.eqb f.1 name then (name, v) :: fields else f :: object_insert name v fields
  end.

(** What the visitor of [serde_json::Value] makes of it. *)
Fixpoint json_of_tree (t : StateValue) : option Value :=
  match t with
  | SUnit => Some JNull
  | SBool b => Some (JBool b)
  | SI64 n => Some (json_of_i64 n)
  | SU64 n => Some (JNumber (PosInt n))
  | SI128 n | SU128 n => json_of_wide n
  | SF64 bits => Some (if is_finite bits then JNumber (Float bits) else JNull)
  | SString s => Some (JString s)
  | SSeq l =>
      JArray <$> (fix go l := match l with [] => Some [] | x :: l => x ← json_of_tree x; rest ← go l; Some (x :: rest) end) l
  | SMap l =>
      JObject <$> (fix go l fields :=
        match l with
        | [] => Some fields
        | (key, x) :: l => name ← key_text key; x ← json_of_tree x; go l (object_insert name x fields)
        end) l []
  | SBytes b => Some (JArray ((fun x => JNumber (PosInt x)) <$> b))
  end.

(** [u32] of a value. *)
Definition u32_of_tree (t : StateValue) : option Z :=
  match t with SU64 n | SI64 n => if is_u32 n then Some n else None | _ => None end.

(** A type with what its visitor makes of a tree. *)
Class Deserialize (A : Type) := deserialize : StateValue -> option A.
#[export] Instance json_deserialize : Deserialize Value := json_of_tree.

(** The tree at a row. *)
Definition tree_at (s : Inner) (index : nat) : option StateValue := read_any s (S (length (in_rows s))) index.

Definition decode_state `{Deserialize A} (s : ArrowState) : result StateError A :=
  s ← ok_or "empty state" s;
  ok_or "decode" (t ← tree_at s 0; deserialize t).
End state.

(** * Trees and their rows *)

(** The children in the order of their rows. *)
Definition children (v : StateValue) : list StateValue :=
  match v with SSeq l => l | SMap l => l ≫= (fun entry => [entry.1; entry.2]) | _ => [] end.

Section tree_ind.
Variable P : StateValue -> Prop.
Hypothesis Hchildren : forall v, Forall P (children v) -> P v.

(** Induction with hypotheses for all children. *)
Fixpoint StateValue_ind' (v : StateValue) : P v :=
  Hchildren v
    match v return Forall P (children v) with
    | SSeq l => (fix go l : Forall P l := match l with
        | [] => Forall_nil_2 P
        | x :: l => Forall_cons_2 P x l (StateValue_ind' x) (go l) end) l
    | SMap l => (fix go l : Forall P (children (SMap l)) := match l with
        | [] => Forall_nil_2 P
        | (k, x) :: l => Forall_cons_2 P k (x :: children (SMap l)) (StateValue_ind' k)
            (Forall_cons_2 P x (children (SMap l)) (StateValue_ind' x) (go l)) end) l
    | _ => Forall_nil_2 P
    end.
End tree_ind.

(** The rows of a value are its own and those of its children in order. *)
Lemma flatten_pairs {A} (f : A -> nat -> Z -> result StateError flattened) l index size :
  flatten_all (fun entry index size => key ← f entry.1 index size; value ← f entry.2 (index + length key.1)%nat key.2;
    Ok (key.1 ++ value.1, value.2)) l index size = flatten_all f (l ≫= (fun entry : A * A => [entry.1; entry.2])) index size.
Proof.
  revert index size. induction l as [|[k x] l IH]; intros index size; [done|]. cbn -[length]. destruct (f k index size) as [[a n]|]; [|done].
  cbn -[length]. destruct (f x _ n) as [[b m]|]; [|done]. cbn -[length]. rewrite length_app, IH, Nat.add_assoc.
  change (mbind (M := list) (fun entry : A * A => [entry.1; entry.2]) l) with (l ≫= (fun entry : A * A => [entry.1; entry.2])).
  destruct (flatten_all f _ _ m) as [[c p]|]; [|done]. cbn. by rewrite (assoc_L (++)).
Qed.

Lemma length_pairs {A} (l : list (A * A)) : length (l ≫= (fun entry => [entry.1; entry.2])) = (2 * length l)%nat.
Proof. induction l as [|? l IH]; [done|]. cbn in *. lia. Qed.

Lemma flatten_eq limit depth v index size : flatten limit depth v index size =
  (_ ← fail_if (MAX_DEPTH <? depth)%nat "depth limit";
   flatten_node limit v (length (children v)) (flatten_all (flatten limit (S depth)) (children v)) index size).
Proof.
  destruct v as [| | | | | | | |l|l|]; try done. cbn [flatten children]. destruct (fail_if _ _); [|done]. cbn [mbind result_bind].
  rewrite length_pairs. unfold flatten_node. destruct (child_count _); [|done]. cbn [mbind result_bind].
  destruct (row_size _ _ _); [|done]. cbn [mbind result_bind]. by rewrite flatten_pairs.
Qed.

(** What the rows of a value are, when there are any. *)
Lemma flatten_inv limit depth v index size r size' : flatten limit depth v index size = Ok (r, size') ->
  exists rs n, let node := node_of v (Z.of_nat (length (children v))) in
    (depth <= MAX_DEPTH)%nat /\ is_u32 (Z.of_nat (length (children v))) = true /\ row_size limit node size = Ok n /\
    flatten_all (flatten limit (S depth)) (children v) (S index) n = Ok (rs, size') /\
    (forall bits, nd_float node = Some bits -> is_finite bits = true) /\ r = (node, (S index + length rs)%nat) :: rs.
Proof.
  rewrite flatten_eq. intros [Hd%fail_if_ok E]%bind_unit_ok. apply Nat.ltb_ge in Hd. unfold flatten_node in E.
  apply bind_ok in E as (count & Hc & E). unfold child_count in Hc. destruct (is_u32 _) eqn:Hu; [|done]. injection Hc as <-. cbn zeta in E.
  apply bind_ok in E as (n & Hn & E). apply bind_ok in E as ([rs m] & Hr & E). apply bind_unit_ok in E as [Hf%fail_if_ok E].
  cbn [fst snd] in *. injection E as <- <-. exists rs, n. split_and!; try done. intros bits Hb. rewrite Hb in Hf. by apply negb_false_iff in Hf.
Qed.

(** A list of subtrees, one after the other. *)
Lemma flatten_all_cons {A} (f : A -> nat -> Z -> result StateError flattened) x l index size r size' :
  flatten_all f (x :: l) index size = Ok (r, size') -> exists a n b,
    f x index size = Ok (a, n) /\ flatten_all f l (index + length a)%nat n = Ok (b, size') /\ r = a ++ b.
Proof.
  cbn [flatten_all]. intros ([a n] & Ha & E)%bind_ok. apply bind_ok in E as ([b m] & Hb & E). cbn [fst snd] in *. injection E as <- <-.
  by exists a, n, b.
Qed.

(** The first row of a value ends where the value does. *)
Lemma flatten_head limit depth v index size r size' : flatten limit depth v index size = Ok (r, size') ->
  exists node rs, r = (node, (index + length r)%nat) :: rs.
Proof. intros (rs & n & _ & _ & _ & _ & _ & ->)%flatten_inv. do 2 eexists. do 2 f_equal. cbn. lia. Qed.

(** ** Sizes *)

Definition row_weight (node : Node) : Z := 48 + text_length node + binary_length node.
Definition weight (rows : list Node) : Z := zsum (row_weight <$> rows).

Lemma weight_app a b : weight (a ++ b) = weight a + weight b.
Proof. unfold weight. by rewrite fmap_app, zsum_app. Qed.
Lemma lengths_nonneg node : 0 <= text_length node /\ 0 <= binary_length node.
Proof. unfold text_length, binary_length. destruct (nd_text node), (nd_binary node); cbn; lia. Qed.
Lemma weight_rows rows : 48 * Z.of_nat (length rows) <= weight rows.
Proof.
  induction rows as [|node rows IH]; [done|]. unfold weight in *. rewrite fmap_cons. cbn [zsum length].
  pose proof (lengths_nonneg node). unfold row_weight at 1. lia.
Qed.

Lemma charge_ok limit extra size n : charge limit extra size = Ok n <->
  n = size + 48 + extra /\ is_u64 (size + 48) = true /\ is_u64 n = true /\ n <= limit.
Proof.
  unfold charge, checked_u64. destruct (is_u64 (size + 48)) eqn:E1; cbn; [|naive_solver].
  destruct (is_u64 (size + 48 + extra)) eqn:E2; cbn; [|naive_solver congruence].
  destruct (Z.leb_spec (size + 48 + extra) limit); split.
  - by intros [= <-].
  - by intros (-> & _).
  - done.
  - intros (-> & _ & _ & ?). lia.
Qed.

Lemma row_size_ok limit node size n : row_size limit node size = Ok n ->
  n = size + row_weight node /\ n <= limit /\ charge limit (text_length node + binary_length node) size = Ok n.
Proof.
  unfold row_size, row_weight. intros (a & Ha%ok_or_ok%checked_u64_some & E)%bind_ok. apply bind_ok in E as (b & Hb%ok_or_ok%checked_u64_some & E).
  apply bind_ok in E as (c & Hc%ok_or_ok%checked_u64_some & E). destruct Ha as [-> Ha], Hb as [-> Hb], Hc as [-> Hc].
  destruct (Z.leb_spec (size + 48 + text_length node + binary_length node) limit); [|done]. injection E as <-. split_and!; [lia|done|].
  apply charge_ok. split_and!; [lia|done|done|done].
Qed.

Lemma flatten_all_size {A} (f : A -> nat -> Z -> result StateError flattened) l :
  Forall (fun x => forall index size r size', f x index size = Ok (r, size') -> size' = size + weight r.*1) l ->
  forall index size r size', flatten_all f l index size = Ok (r, size') -> size' = size + weight r.*1.
Proof.
  induction 1 as [|x l Hx _ IH]; intros index size r size'; [intros [= <- <-]; unfold weight; cbn; lia|].
  intros (a & n & b & Ha%Hx & Hb%IH & ->)%flatten_all_cons. rewrite fmap_app, weight_app. lia.
Qed.

(** The size that is returned counts every row. *)
Lemma flatten_size limit v : forall depth index size r size', flatten limit depth v index size = Ok (r, size') -> size' = size + weight r.*1.
Proof.
  induction v as [v IH] using StateValue_ind'. intros depth index size r size' (rs & n & _ & _ & (-> & _)%row_size_ok & Hrs & _ & ->)%flatten_inv.
  apply (flatten_all_size (flatten limit (S depth))) in Hrs as ->; [|eapply Forall_impl; [exact IH|]; cbn; intros x Hx; exact (Hx (S depth))].
  unfold weight at 2. cbn [fmap list_fmap fst zsum]. unfold weight. lia.
Qed.

Lemma flatten_all_within {A} (f : A -> nat -> Z -> result StateError flattened) limit l :
  Forall (fun x => forall index size r size', f x index size = Ok (r, size') -> size' <= limit) l ->
  forall index size r size', size <= limit -> flatten_all f l index size = Ok (r, size') -> size' <= limit.
Proof.
  induction 1 as [|x l Hx _ IH]; intros index size r size' Hs; [by intros [= <- <-]|].
  intros (a & n & b & Ha%Hx & Hb & ->)%flatten_all_cons. by eapply IH.
Qed.

Lemma flatten_within limit v : forall depth index size r size', flatten limit depth v index size = Ok (r, size') -> size' <= limit.
Proof.
  induction v as [v IH] using StateValue_ind'. intros depth index size r size' (rs & n & _ & _ & (_ & Hn & _)%row_size_ok & Hrs & _ & ->)%flatten_inv.
  eapply (flatten_all_within (flatten limit (S depth))); [|exact Hn|exact Hrs]. eapply Forall_impl; [exact IH|]. cbn. intros x Hx. exact (Hx (S depth)).
Qed.

(** ** The walk *)

Lemma walk_size_node limit v count size n : row_size limit (node_of v count) size = Ok n -> walk_size limit (node_of v count) size = Ok n.
Proof.
  intros (_ & _ & Hn)%row_size_ok. unfold walk_size. rewrite <-Hn. f_equal. destruct v; cbn; unfold text_length, binary_length; cbn; lia.
Qed.

(** The rows of values pass the checks on rows. *)
Lemma check_node_of v : (forall bits, nd_float (node_of v (Z.of_nat (length (children v)))) = Some bits -> is_finite bits = true) ->
  check_node (node_of v (Z.of_nat (length (children v)))) = Ok tt.
Proof.
  intros Hf. destruct v as [| | | | | |bits| | |l|]; try done.
  - unfold check_node. cbn -[is_finite] in *. by rewrite (Hf bits).
  - unfold check_node. cbn -[Z.modulo Z.of_nat length mbind] in *. unfold children. rewrite length_pairs.
    replace (Z.of_nat (2 * length l) mod 2) with 0; [done|]. rewrite Nat2Z.inj_mul, Z.mul_comm. symmetry. by apply Z.mod_mul.
Qed.

Lemma walk_all {A} limit levels (f : A -> nat -> Z -> result StateError flattened) l :
  Forall (fun x => forall index size r size', f x index size = Ok (r, size') ->
    forall rest, walk limit levels index (r.*1 ++ rest) size = Ok (rest, r.*2, size')) l ->
  forall index size r size', flatten_all f l index size = Ok (r, size') ->
    forall rest, walk_children (walk limit levels) (length l) index (r.*1 ++ rest) size = Ok (rest, r.*2, size').
Proof.
  induction 1 as [|x l Hx _ IH]; intros index size r size'; [by intros [= <- <-]|].
  intros (a & n & b & Ha & Hb & ->)%flatten_all_cons rest. cbn [walk_children length]. rewrite !fmap_app, <-(assoc_L (++)).
  rewrite (Hx _ _ _ _ Ha). cbn [mbind result_bind]. rewrite length_fmap. by rewrite (IH _ _ _ _ Hb).
Qed.

(** Rows that were made of a value are walked over, with the same ends and size. *)
Lemma walk_flatten limit v : forall depth index size r size', flatten limit depth v index size = Ok (r, size') ->
  forall rest, walk limit (S MAX_DEPTH - depth) index (r.*1 ++ rest) size = Ok (rest, r.*2, size').
Proof.
  induction v as [v IH] using StateValue_ind'. intros depth index size r size' (rs & n & Hd & _ & Hn & Hrs & Hf & ->)%flatten_inv rest.
  replace (S MAX_DEPTH - depth)%nat with (S (S MAX_DEPTH - S depth)) by lia. cbn [walk fmap list_fmap fst snd app].
  rewrite check_node_of by done. cbn [mbind result_bind]. rewrite (walk_size_node _ _ _ _ _ Hn). cbn [mbind result_bind].
  replace (Z.to_nat (nd_children _)) with (length (children v)) by (by destruct v; cbn; rewrite ?Nat2Z.id).
  rewrite (walk_all limit _ (flatten limit (S depth)) (children v)) with (r := rs) (size' := size'); [|..|done].
  - cbn [mbind result_bind]. by rewrite length_fmap.
  - eapply Forall_impl; [exact IH|]. cbn beta. intros x Hx. exact (Hx (S depth)).
Qed.

(** ** Reading *)

(** Values of the types of the source: integers and bytes within their ranges. *)
Definition is_byte (n : Z) : bool := in_range 0 255 n.
Definition wf_scalar (v : StateValue) : bool :=
  match v with
  | SI64 n => is_i64 n
  | SU64 n | SF64 n => is_u64 n
  | SI128 n => is_i128 n
  | SU128 n => in_range 0 (2 ^ 128 - 1) n
  | SBytes b => forallb is_byte b
  | _ => true
  end.
Inductive wf_tree : StateValue -> Prop :=
| WfTree v : wf_scalar v = true -> Forall wf_tree (children v) -> wf_tree v.

Lemma le_value_bytes n z : le_value (le_bytes n z) = z mod 2 ^ (8 * Z.of_nat n).
Proof.
  revert z. induction n as [|n IH]; intros z; [by rewrite Z.mod_1_r|]. cbn [le_bytes le_value]. rewrite IH.
  change 255 with (Z.ones 8). rewrite Z.land_ones, Z.shiftr_div_pow2 by lia.
  replace (8 * Z.of_nat (S n)) with (8 + 8 * Z.of_nat n) by lia. rewrite Z.pow_add_r by lia.
  rewrite Z.rem_mul_r by (try apply Z.pow_nonzero; lia). done.
Qed.

Lemma signed_mod bits z : 0 < bits -> - 2 ^ (bits - 1) <= z < 2 ^ (bits - 1) -> signed bits (z mod 2 ^ bits) = z.
Proof.
  intros Hb Hz. assert (2 ^ bits = 2 * 2 ^ (bits - 1)) as Hp by (rewrite <-Z.pow_succ_r by lia; f_equal; lia).
  unfold signed. destruct (decide (0 <= z)).
  - rewrite Z.mod_small by lia. by rewrite (proj2 (Z.ltb_lt _ _)) by lia.
  - replace (z mod 2 ^ bits) with (z + 2 ^ bits); [rewrite (proj2 (Z.ltb_ge _ _)) by lia; lia|].
    rewrite <-(Z.mod_add z 1) by lia. rewrite Z.mod_small; lia.
Qed.

(** The rows of a value are at a place of a state. *)
Definition segment (s : Inner) (index : nat) (r : list (Node * nat)) : Prop :=
  forall i x, r !! i = Some x -> in_rows s !! (index + i)%nat = Some x.1 /\ in_ends s !! (index + i)%nat = Some x.2.

Lemma segment_app s index a b : segment s index (a ++ b) -> segment s index a /\ segment s (index + length a) b.
Proof.
  intros Hs. split.
  - intros i x Hi. apply Hs. by apply lookup_app_l_Some.
  - intros i x Hi. rewrite <-Nat.add_assoc. apply Hs. by rewrite lookup_app_r, Nat.add_comm, Nat.add_sub by lia.
Qed.
Lemma segment_cons s index x r : segment s index (x :: r) ->
  in_rows s !! index = Some x.1 /\ in_ends s !! index = Some x.2 /\ segment s (S index) r.
Proof.
  intros Hs. destruct (Hs 0%nat x eq_refl) as [H1 H2]. rewrite Nat.add_0_r in *. split_and!; [done|done|].
  intros i y Hi. destruct (Hs (S i) y Hi) as [? ?]. by rewrite <-Nat.add_succ_comm in *.
Qed.
Lemma segment_length s index r : segment s index r -> r <> [] -> (index + length r <= length (in_rows s))%nat.
Proof.
  intros Hs Hr. destruct (lookup_lt_is_Some_2 r (length r - 1)) as [x Hx]; [destruct r; [done|cbn; lia]|].
  apply Hs in Hx as [Hx _]. apply lookup_lt_Some in Hx. destruct r; [done|cbn in *; lia].
Qed.

(** The subtrees of a list lie one after the other and are read. *)
Inductive laid (s : Inner) (read : nat -> option StateValue) : nat -> list StateValue -> nat -> Prop :=
| LaidNil index : laid s read index [] index
| LaidCons index x l next stop : read index = Some x -> in_ends s !! index = Some next -> (index < next)%nat ->
    laid s read next l stop -> laid s read index (x :: l) stop.

Lemma laid_le s read index l stop : laid s read index l stop -> (index + length l <= stop)%nat.
Proof. induction 1; cbn; lia. Qed.

Lemma access_seq_laid s read index l stop : laid s read index l stop ->
  forall rounds, (length l < rounds)%nat -> access_seq (in_ends s) read stop rounds index = Some l.
Proof.
  induction 1 as [index|index x l next stop Hx Hn Hlt Hl IH]; intros [|rounds] Hr; try (cbn in Hr; lia); cbn [access_seq].
  - by rewrite (proj2 (Nat.leb_le _ _)) by lia.
  - apply laid_le in Hl. rewrite (proj2 (Nat.leb_gt _ _)) by lia. rewrite Hn. cbn [mbind option_bind]. rewrite Hx. cbn [mbind option_bind].
    rewrite IH by (cbn in Hr; lia). done.
Qed.

Lemma access_map_laid s read l : forall index stop rounds, laid s read index (children (SMap l)) stop ->
  (length l < rounds)%nat -> access_map (in_ends s) read stop rounds index = Some l.
Proof.
  induction l as [|[k x] l IH]; intros index stop [|rounds] Hl Hr; try (cbn in Hr; lia); cbn [access_map].
  - inversion Hl; subst. by rewrite (proj2 (Nat.leb_le _ _)) by lia.
  - cbn in Hl. inversion Hl as [|? ? ? next ? Hk Hn Hlt Hl']; subst. inversion Hl' as [|? ? ? after ? Hx Ha Hlt' Hl'']; subst.
    pose proof (laid_le _ _ _ _ _ Hl''). rewrite (proj2 (Nat.leb_gt _ _)) by lia. rewrite Hn. cbn [mbind option_bind]. rewrite Hk. cbn [mbind option_bind].
    rewrite (proj2 (Nat.leb_gt _ _)) by lia. rewrite Ha. cbn [mbind option_bind]. rewrite Hx. cbn [mbind option_bind].
    rewrite (IH _ _ rounds Hl'') by (cbn in Hr; lia). done.
Qed.

Lemma laid_flatten s fuel f l :
  Forall (fun x => forall index size r size', f x index size = Ok (r, size') -> segment s index r -> (length r <= fuel)%nat ->
    read_any s fuel index = Some x /\ in_ends s !! index = Some (index + length r)%nat /\ (0 < length r)%nat) l ->
  forall index size r size', flatten_all f l index size = Ok (r, size') -> segment s index r -> (length r <= fuel)%nat ->
    laid s (read_any s fuel) index l (index + length r).
Proof.
  induction 1 as [|x l Hx _ IH]; intros index size r size'; [intros [= <- <-] _ _; rewrite Nat.add_0_r; constructor|].
  intros (a & n & b & Ha & Hb & ->)%flatten_all_cons [Hsa Hsb]%segment_app Hfuel. rewrite length_app in *.
  destruct (Hx _ _ _ _ Ha Hsa) as (Hr & He & Hlen); [lia|]. econstructor; [done|done|lia|]. rewrite Nat.add_assoc. eapply IH; [done|done|lia].
Qed.

(** A row whose children lie after it is read as its value. *)
Lemma read_any_node s fuel v index stop : wf_scalar v = true ->
  in_rows s !! index = Some (node_of v (Z.of_nat (length (children v)))) -> in_ends s !! index = Some stop ->
  laid s (read_any s fuel) (S index) (children v) stop -> (length (children v) <= length (in_rows s))%nat ->
  read_any s (S fuel) index = Some v.
Proof.
  intros Hv Hrow Hend Hl Hlen. cbn [read_any]. rewrite Hrow, Hend. cbn [mbind option_bind].
  destruct v as [| | | |n|n| | |l|l|]; try done; cbn -[le_bytes le_value signed access_seq access_map length].
  - rewrite le_value_bytes. do 2 f_equal. apply in_range_true in Hv. apply signed_mod; [lia|]. unfold i128_min, i128_max in Hv. lia.
  - rewrite le_value_bytes. do 2 f_equal. apply in_range_true in Hv. apply Z.mod_small. change (8 * Z.of_nat 16) with 128. lia.
  - cbn [children] in *. by rewrite (access_seq_laid _ _ _ _ _ Hl) by lia.
  - unfold children in Hlen. rewrite length_pairs in Hlen. by rewrite (access_map_laid _ _ _ _ _ _ Hl) by lia.
Qed.

(** What was made of a value is read as the value. *)
Lemma read_flatten s limit v : forall depth index size r size' fuel, wf_tree v -> flatten limit depth v index size = Ok (r, size') ->
  segment s index r -> (length r <= fuel)%nat -> read_any s fuel index = Some v.
Proof.
  induction v as [v IH] using StateValue_ind'. intros depth index size r size' fuel Hv (rs & n & _ & _ & _ & Hrs & _ & ->)%flatten_inv Hs Hfuel.
  inversion Hv as [? Hscalar Hchildren]; subst. pose proof (segment_length _ _ _ Hs ltac:(done)) as Hlen.
  apply segment_cons in Hs as (Hrow & Hend & Hs). cbn [length fst snd] in *. destruct fuel as [|fuel]; [lia|].
  assert (laid s (read_any s fuel) (S index) (children v) (S index + length rs)) as Hl.
  { eapply (laid_flatten _ _ (flatten limit (S depth))); [|exact Hrs|done|lia]. apply Forall_forall. intros x Hx index' size0 r size0' Hr Hsr Hfr.
    rewrite Forall_forall in IH, Hchildren. destruct (flatten_head _ _ _ _ _ _ _ Hr) as (node & rs' & Hhead). split_and!.
    - by eapply (IH x Hx (S depth)); [apply Hchildren| | |].
    - rewrite Hhead in Hsr. by apply segment_cons in Hsr as (_ & ? & _).
    - rewrite Hhead. cbn. lia. }
  eapply read_any_node; [done|done|done|exact Hl|]. apply laid_le in Hl. lia.
Qed.

(** ** Typed rows *)

Definition typed_node (node : Node) : bool :=
  in_range 0 255 (nd_kind node) && is_u32 (nd_children node) && default true (is_i64 <$> nd_signed node) &&
  default true (is_u64 <$> nd_unsigned node) && default true (is_u64 <$> nd_float node) && default true (forallb is_byte <$> nd_binary node).

Lemma le_bytes_bytes n z : forallb is_byte (le_bytes n z) = true.
Proof.
  revert z. induction n as [|n IH]; intros z; [done|]. cbn [le_bytes forallb]. rewrite IH, andb_true_r. apply in_range_true.
  change (Z.land z 255) with (Z.land z (Z.ones 8)). rewrite Z.land_ones by lia. pose proof (Z.mod_pos_bound z (2 ^ 8)). lia.
Qed.

Lemma typed_node_of v n : wf_scalar v = true -> is_u32 n = true -> typed_node (node_of v n) = true.
Proof.
  intros Hv Hn. unfold typed_node. destruct v; cbn -[le_bytes]; rewrite ?Hn, ?andb_true_r; try done; by rewrite le_bytes_bytes.
Qed.

Lemma typed_rows limit v : forall depth index size r size', wf_tree v -> flatten limit depth v index size = Ok (r, size') ->
  Forall (fun node => typed_node node = true) r.*1.
Proof.
  induction v as [v IH] using StateValue_ind'. intros depth index size r size' Hv (rs & n & _ & Hu & _ & Hrs & _ & ->)%flatten_inv.
  inversion Hv as [? Hscalar Hchildren]; subst. rewrite fmap_cons. constructor; [by apply typed_node_of|].
  clear Hv Hu Hscalar. revert Hchildren Hrs. generalize (S index) n rs. induction IH as [|x l Hx _ IHl]; intros i m b Hc; [by intros [= <- <-]|].
  intros (a & k & c & Ha & Hb & ->)%flatten_all_cons. apply Forall_cons in Hc as [Hcx Hc]. rewrite fmap_app. apply Forall_app. split; [by eapply Hx|by eapply IHl].
Qed.

(** * Streams *)

(** A message of a stream: a mark, the length, and the message. *)
Definition frame (message : bytes) : bytes := [255; 255; 255; 255] ++ le_bytes 4 (Z.of_nat (length message)) ++ message.
Definition framed (message : bytes) : Prop := 0 < Z.of_nat (length message) < 2 ^ 32.

(** The expanded length of a buffer: its first eight bytes, or what follows them when
    they say that the buffer is not compressed. *)
Definition declared (body : bytes) (buffer : Z * Z) : Z :=
  if buffer.2 =? 0 then 0
  else let n := signed 64 (le_value (take 8 (drop (Z.to_nat buffer.1) body))) in if n =? -1 then buffer.2 - 8 else n.
Definition buffer_in (body : bytes) (buffer : Z * Z) : Prop :=
  0 <= buffer.1 /\ 0 <= buffer.2 /\ buffer.1 + buffer.2 <= Z.of_nat (length body) /\ (buffer.2 = 0 \/ 8 <= buffer.2) /\ 0 <= declared body buffer.

(** The length of the buffers of the columns, each filled up to a multiple of eight:
    eight bitmaps of nulls and the one of booleans, the columns of fixed width, the offsets
    of the texts and byte strings, and their bytes. *)
Definition padded (n : Z) : Z := 8 * ((n + 7) / 8).
Definition columnar_bytes (rows : list Node) : Z :=
  let n := Z.of_nat (length rows) in
  9 * padded ((n + 7) / 8) + padded n + padded (4 * n) + 3 * padded (8 * n) + 2 * padded (4 * (n + 1)) +
  padded (zsum (text_length <$> rows)) + padded (zsum (binary_length <$> rows)).

(** What is documented of streams: the schema, the batch with its body, and an end mark;
    the schema is what the writer starts with; the reader gives the metadata and the rows
    that were written. *)
Class ArrowStreamsLaws `{ArrowStreams} : Prop := {
  stream_written metadata rows body : Forall (fun node => typed_node node = true) rows -> write_stream metadata rows = Some body ->
    exists schema batch data buffers, body = frame schema ++ frame batch ++ data ++ frame [] /\ framed schema /\ framed batch /\
      write_schema metadata = Some (frame schema) /\ root_as_message schema = Some (IpcMessage 0 SchemaHeader) /\
      root_as_message batch = Some (IpcMessage (Z.of_nat (length data))
        (BatchHeader (Z.of_nat (length rows)) (Some (true, true)) (Some buffers))) /\
      Forall (buffer_in data) buffers /\ zsum (declared data <$> buffers) <= columnar_bytes rows;
  stream_read metadata rows body : Forall (fun node => typed_node node = true) rows -> write_stream metadata rows = Some body ->
    read_metadata body = Some metadata /\ read_batches body = [Some (Some rows)]
}.

Lemma weight_columns rows : weight rows = 48 * Z.of_nat (length rows) + zsum (text_length <$> rows) + zsum (binary_length <$> rows).
Proof.
  induction rows as [|node rows IH]; [done|]. unfold weight in *. rewrite !fmap_cons. cbn [zsum length]. rewrite IH. unfold row_weight. lia.
Qed.

Lemma padded_le n : padded n <= n + 7.
Proof. unfold padded. pose proof (Z.mul_div_le (n + 7) 8). lia. Qed.

(** Rows within a limit have columns within the bound on what is expanded. *)
Lemma columnar_within rows : rows <> [] -> columnar_bytes rows <= 2 * weight rows + 1024.
Proof.
  intros Hr. rewrite weight_columns. unfold columnar_bytes. set (n := Z.of_nat (length rows)).
  assert (1 <= n) by (destruct rows; [done|]; cbn in *; lia).
  pose proof (padded_le ((n + 7) / 8)). pose proof (padded_le n). pose proof (padded_le (4 * n)). pose proof (padded_le (8 * n)).
  pose proof (padded_le (4 * (n + 1))). pose proof (padded_le (zsum (text_length <$> rows))). pose proof (padded_le (zsum (binary_length <$> rows))).
  pose proof (Z.mul_div_le (n + 7) 8). assert (0 <= zsum (text_length <$> rows) /\ 0 <= zsum (binary_length <$> rows)) as [? ?]; [|lia].
  clear. induction rows as [|node rows IH]; [done|]. rewrite !fmap_cons. cbn [zsum]. pose proof (lengths_nonneg node). lia.
Qed.

Lemma get_range_app (a b c : bytes) n m : n = Z.of_nat (length a) -> m = n + Z.of_nat (length b) -> get_range n m (a ++ b ++ c) = Some b.
Proof.
  intros -> ->. unfold get_range. rewrite !length_app, (proj2 (Z.leb_le _ _)), (proj2 (Z.leb_le _ _)) by lia. cbn [andb].
  rewrite Nat2Z.id. replace (Z.to_nat _) with (length b) by lia. by rewrite drop_app_length, take_app_length.
Qed.

Section preflight.
Context `{ArrowStreams}.

Lemma expand_buffer_ok limit body expanded buffer : buffer_in body buffer -> Z.of_nat (length body) <= u64_max -> 0 <= expanded ->
  expanded + declared body buffer <= expanded_limit limit -> expand_buffer limit body expanded buffer = Ok (expanded + declared body buffer).
Proof.
  destruct buffer as [start len]. unfold buffer_in. cbn [fst snd]. intros (Hs & Hl & Hin & Hlen & Hd) Hbody He Hle.
  assert (expanded_limit limit <= u64_max) by (unfold expanded_limit, saturating_add_u64; lia).
  unfold expand_buffer, to_usize, checked_u64, is_u64, declared in *. cbn [fst snd] in *.
  rewrite !(proj2 (in_range_true _ _ _)) by lia. cbn [ok_or mbind result_bind]. rewrite (proj2 (in_range_true _ _ _)) by lia. cbn [ok_or mbind result_bind].
  unfold get_range. rewrite !(proj2 (Z.leb_le _ _)) by lia. cbn [andb ok_or mbind result_bind].
  destruct (Z.eqb_spec len 0) as [->|Hne]; [by rewrite Z.add_0_r|]. destruct Hlen as [|Hlen]; [done|].
  rewrite length_take, length_drop, (proj2 (Z.leb_le 8 _)) by lia. cbn [andb Z.leb Z.compare ok_or mbind result_bind].
  change (Z.to_nat 0) with 0%nat. change (Z.to_nat (8 - 0)) with 8%nat. rewrite drop_0, take_take, Nat.min_l by lia.
  set (n := signed 64 _) in *. destruct (Z.eqb_spec n (-1)) as [Hn|Hn].
  - cbn [mbind result_bind]. rewrite (proj2 (in_range_true _ _ _)) by lia. cbn [ok_or mbind result_bind]. by rewrite (proj2 (Z.leb_le _ _)) by lia.
  - rewrite (proj2 (in_range_true _ _ n)) by lia. cbn [ok_or mbind result_bind]. rewrite (proj2 (in_range_true _ _ _)) by lia.
    cbn [ok_or mbind result_bind]. by rewrite (proj2 (Z.leb_le _ _)) by lia.
Qed.

Lemma expand_buffers limit body buffers : forall expanded, Forall (buffer_in body) buffers -> Z.of_nat (length body) <= u64_max -> 0 <= expanded ->
  expanded + zsum (declared body <$> buffers) <= expanded_limit limit ->
  try_fold (expand_buffer limit body) expanded buffers = Ok (expanded + zsum (declared body <$> buffers)).
Proof.
  induction buffers as [|buffer buffers IH]; intros expanded HF Hbody He Hle; [cbn; f_equal; lia|]. apply Forall_cons in HF as [Hb HF].
  rewrite fmap_cons in *. cbn [zsum try_fold] in *.
  assert (0 <= zsum (declared body <$> buffers)).
  { clear -HF. induction HF as [|x l (_ & _ & _ & _ & Hx) _ IH]; [done|]. rewrite fmap_cons. cbn [zsum]. lia. }
  assert (0 <= declared body buffer) by apply Hb.
  rewrite expand_buffer_ok by (done || lia). cbn [mbind result_bind]. rewrite IH by (done || lia). f_equal. lia.
Qed.

(** A message with its body is checked, and then what follows. *)
Lemma check_frames_message rounds limit message m data rest messages schema_end : framed message -> root_as_message message = Some m ->
  m_body_length m = Z.of_nat (length data) -> Z.of_nat (length message) + Z.of_nat (length data) <= u64_max ->
  check_frames (S rounds) limit (frame message ++ data ++ rest) messages schema_end =
  (schema_end ← (if messages =? 0 then
     _ ← fail_if (match m_header m with SchemaHeader => negb (Z.of_nat (length data) =? 0) | _ => true end) "schema frame";
     Ok (8 + Z.of_nat (length message))
   else if messages =? 1 then _ ← check_batch limit m data; Ok schema_end
   else Err "extra batch");
   check_frames rounds limit rest (messages + 1) schema_end).
Proof.
  intros [Hpos Hmax] Hm Hsize Hu. set (prefix := [255; 255; 255; 255] ++ le_bytes 4 (Z.of_nat (length message))).
  assert (frame message ++ data ++ rest = [] ++ prefix ++ (message ++ data ++ rest)) as -> by (unfold frame, prefix; by rewrite <-!(assoc_L (++))).
  cbn [check_frames]. rewrite (get_range_app [] prefix) by done. cbn [ok_or mbind result_bind].
  change (take 4 prefix) with [255; 255; 255; 255]. rewrite (bool_decide_eq_true_2 ([255; 255; 255; 255] = _)) by done. cbn [negb fail_if mbind result_bind].
  assert (le_value (drop 4 prefix) = Z.of_nat (length message)) as ->.
  { change (drop 4 prefix) with (le_bytes 4 (Z.of_nat (length message))). rewrite le_value_bytes. apply Z.mod_small. change (8 * Z.of_nat 4) with 32. lia. }
  rewrite (proj2 (Z.eqb_neq _ _)) by lia. change (drop 8 ([] ++ prefix ++ message ++ data ++ rest)) with (message ++ data ++ rest).
  rewrite (get_range_app [] message (data ++ rest) 0) by done. cbn [ok_or mbind result_bind]. rewrite Hm. cbn [ok_or mbind result_bind].
  unfold to_usize, checked_u64, is_u64. rewrite Hsize, !(proj2 (in_range_true _ _ _)) by lia. cbn [ok_or mbind result_bind].
  rewrite !(proj2 (in_range_true _ _ _)) by lia. cbn [ok_or mbind result_bind].
  rewrite (get_range_app message data rest) by done. cbn [ok_or mbind result_bind].
  replace (Z.to_nat (Z.of_nat (length message) + Z.of_nat (length data))) with (length (message ++ data)) by (rewrite length_app; lia).
  by rewrite (assoc_L (++) message data rest), drop_app_length.
Qed.

Lemma check_frames_end rounds limit schema_end : check_frames (S rounds) limit (frame []) 2 schema_end = Ok schema_end.
Proof. done. Qed.

(** The bounds of a stream that was written are respected. *)
Lemma preflight_written limit rows schema batch data buffers : let body := frame schema ++ frame batch ++ data ++ frame [] in
  framed schema -> framed batch -> root_as_message schema = Some (IpcMessage 0 SchemaHeader) ->
  root_as_message batch = Some (IpcMessage (Z.of_nat (length data)) (BatchHeader (Z.of_nat (length rows)) (Some (true, true)) (Some buffers))) ->
  Forall (buffer_in data) buffers -> zsum (declared data <$> buffers) <= columnar_bytes rows ->
  rows <> [] -> weight rows <= limit -> 2 * limit + 1024 <= u64_max -> Z.of_nat (length body) <= encoded_limit limit ->
  preflight body limit = Ok (Z.of_nat (length (frame schema))).
Proof.
  intros body Hs Hb Hms Hmb Hin Hsum Hrows Hw Hlimit Hbody. unfold preflight. rewrite (proj2 (Z.ltb_ge _ _) Hbody). cbn [fail_if mbind result_bind].
  assert (Z.of_nat (length schema) + Z.of_nat (length batch) + Z.of_nat (length data) <= u64_max) as Hlen.
  { unfold body, frame, encoded_limit, saturating_add_u64 in Hbody. rewrite !length_app in Hbody. lia. }
  pose proof (columnar_within rows Hrows) as Hc. pose proof (weight_rows rows) as Hr.
  assert (1 <= Z.of_nat (length rows)) by (destruct rows; [done|cbn in *; lia]).
  change body with (frame schema ++ [] ++ frame batch ++ data ++ frame []).
  rewrite (check_frames_message 2 limit schema _ [] (frame batch ++ data ++ frame []) 0 0 Hs Hms) by (cbn; lia).
  cbn [Z.eqb m_header length]. change (Z.of_nat 0 =? 0) with true. cbn [negb fail_if mbind result_bind]. change (0 + 1) with 1.
  rewrite (check_frames_message 1 limit batch _ data _ _ _ Hb Hmb) by (done || lia). cbn [Z.eqb Pos.eqb]. change (1 + 1) with 2.
  unfold check_batch. cbn [m_header]. unfold to_usize, checked_u64, is_u64. rewrite (proj2 (in_range_true _ _ _)) by lia. cbn [ok_or mbind result_bind].
  rewrite (proj2 (Z.eqb_neq _ _)), (proj2 (Z.ltb_ge _ _)) by (try apply Z.div_le_lower_bound; lia). cbn [orb zstd_buffers andb negb fail_if mbind result_bind ok_or].
  rewrite expand_buffers by (try done; unfold expanded_limit, saturating_add_u64, saturating_mul_u64; lia). cbn [mbind result_bind].
  rewrite check_frames_end. f_equal. unfold frame. rewrite !length_app, length_le_bytes. cbn [length]. lia.
Qed.
End preflight.

Section read_back.
Context `{ArrowStreamsLaws}.

Lemma format_metadata : <["format" := FORMAT]> base_metadata = base_metadata.
Proof. by vm_compute. Qed.

(** What was made of a value within a limit is read back as it is, and as the value. *)
Lemma state_read_back value limit s : wf_tree value -> 2 * limit + 1024 <= u64_max -> from_tree value limit = Ok s ->
  Z.of_nat (length (state_bytes s)) <= encoded_limit limit ->
  from_ipc (state_bytes s) limit = Ok s /\ state_len s <= limit /\ (s ≫= fun i => tree_at i 0) = Some value.
Proof.
  intros Hwf Hlimit E Hlen. unfold from_tree in E. apply bind_ok in E as ([r size] & Hr & E). cbn [fst snd] in E.
  apply bind_ok in E as (body & Hw%ok_or_ok & [= <-]). cbn [state_bytes state_len in_bytes in_size] in *.
  pose proof (typed_rows _ _ _ _ _ _ _ Hwf Hr) as Htyped. destruct (stream_read _ _ _ Htyped Hw) as [Hmeta Hbatches].
  destruct (stream_written _ _ _ Htyped Hw) as (schema & batch & data & buffers & -> & Hs & Hb & Hws & Hms & Hmb & Hin & Hsum).
  pose proof (flatten_size _ _ _ _ _ _ _ Hr) as Hsize. pose proof (flatten_within _ _ _ _ _ _ _ Hr) as Hwithin.
  destruct (flatten_head _ _ _ _ _ _ _ Hr) as (node & rs & Hhead).
  assert (r.*1 <> []) as Hne by (by rewrite Hhead).
  assert (preflight (frame schema ++ frame batch ++ data ++ frame []) limit = Ok (Z.of_nat (length (frame schema)))) as Hpre
    by (eapply (preflight_written limit r.*1); try done; lia).
  split_and!; [|done|].
  - unfold from_ipc. rewrite Hpre. cbn [mbind result_bind]. rewrite Hmeta, Hbatches. cbn [ok_or mbind result_bind].
    rewrite bool_decide_eq_true_2 by by vm_compute. cbn [negb fail_if mbind result_bind]. unfold replace_metadata. rewrite Hpre. cbn [mbind result_bind].
    rewrite format_metadata, Hws. cbn [ok_or mbind result_bind]. rewrite Nat2Z.id, drop_app_length. unfold validated.
    rewrite bool_decide_eq_false_2 by done. cbn [fail_if mbind result_bind].
    pose proof (walk_flatten _ _ _ _ _ _ _ Hr []) as Hwalk. rewrite (right_id_L [] (++)), Nat.sub_0_r in Hwalk. rewrite Hwalk. cbn [mbind result_bind].
    by rewrite bool_decide_eq_true_2 by done.
  - cbn [mbind option_bind]. unfold tree_at. eapply read_flatten; [done|done| |cbn [in_rows]; rewrite length_fmap; lia].
    intros i x Hx. cbn [in_rows in_ends Nat.add]. rewrite !list_lookup_fmap, Hx. done.
Qed.
End read_back.

(** * JSON values *)

Lemma object_insert_new name v fields : name ∉ fields.*1 -> object_insert name v fields = fields ++ [(name, v)].
Proof.
  induction fields as [|f fields IH]; [done|]. rewrite fmap_cons. intros [Hne Hn]%not_elem_of_cons. cbn [object_insert app].
  rewrite (proj2 (String.eqb_neq _ _)) by congruence. by rewrite IH.
Qed.

(** A key after all others is put last. *)
Lemma map_insert_last key v l : Forall (fun p => value_cmp p.1 key = Lt) l -> (forall k, value_cmp k key = Lt -> value_cmp key k = Gt) ->
  map_insert key v l = Some (l ++ [(key, v)]).
Proof. intros HF Hgt. induction HF as [|[k w] l Hk _ IH]; [done|]. cbn [map_insert fst] in *. rewrite (Hgt _ Hk), IH. done. Qed.

Lemma text_after k s : value_cmp k (SString s) = Lt -> value_cmp (SString s) k = Gt.
Proof. destruct k; cbn; try done. exact (proj2 (cmp_gt s _)). Qed.

(** Entries with ascending names, when each value is read back. *)
Lemma serialize_entries_ok {A} limit depth (f : A -> Z -> result StateError (StateValue * Z)) (P : A -> StateValue -> Prop) l :
  Forall (fun e => forall size t size', f e.2 size = Ok (t, size') -> P e.2 t) l -> StronglySorted (fun a b => cmp a b = Lt) l.*1 ->
  forall map size r size', Forall (fun p => Forall (fun name => value_cmp p.1 (SString name) = Lt) l.*1) map ->
    serialize_entries limit depth f l map size = Ok (r, size') ->
    exists entries, r = map ++ entries /\ Forall2 (fun e p => p.1 = SString e.1 /\ P e.2 p.2) l entries.
Proof.
  induction 1 as [|[name x] l Hx _ IH]; intros Hsorted map size r size' Hmap E.
  - injection E as <- <-. exists []. by rewrite (right_id_L [] (++)).
  - rewrite fmap_cons in Hsorted, Hmap. cbn [fst snd] in *. apply StronglySorted_cons in Hsorted as [Hfirst Hsorted]. cbn [serialize_entries] in E.
    apply bind_ok in E as ([key n] & Hkey & E). unfold serialize_str, leaf in Hkey. apply bind_unit_ok in Hkey as [_ Hkey].
    apply bind_ok in Hkey as (? & _ & [= <- <-]). apply bind_ok in E as ([value m] & Hvalue & E). cbn [fst snd] in *.
    rewrite map_insert_last in E; [|eapply Forall_impl; [exact Hmap|]; cbn; intros p Hp; by inversion Hp|intros k; apply (text_after k name)].
    cbn [ok_or mbind result_bind] in E. apply IH in E as (entries & -> & HF); [|done|].
    + exists ((SString name, value) :: entries). rewrite <-(assoc_L (++)). split; [done|]. constructor; [|done]. split; [done|]. by eapply Hx.
    + apply Forall_app. split; [eapply Forall_impl; [exact Hmap|]; cbn; intros p Hp; by inversion Hp|]. by constructor.
Qed.

Lemma serialize_elements_ok {A} (f : A -> Z -> result StateError (StateValue * Z)) (P : A -> StateValue -> Prop) l :
  Forall (fun x => forall size t size', f x size = Ok (t, size') -> P x t) l ->
  forall size r size', serialize_elements f l size = Ok (r, size') -> Forall2 P l r.
Proof.
  induction 1 as [|x l Hx _ IH]; intros size r size' E; [by injection E as <- <-|]. cbn [serialize_elements] in E.
  apply bind_ok in E as ([t n] & Ht & E). apply bind_ok in E as ([rest m] & Hrest & E). cbn [fst snd] in *. injection E as <- <-.
  constructor; [by eapply Hx|by eapply IH].
Qed.

Section json.
Context `{ArrowStreams}.

Definition json_elements : list StateValue -> option (list Value) :=
  fix go l := match l with [] => Some [] | x :: l => x ← json_of_tree x; rest ← go l; Some (x :: rest) end.
Definition json_fields : list (StateValue * StateValue) -> list (string * Value) -> option (list (string * Value)) :=
  fix go l fields :=
    match l with
    | [] => Some fields
    | (key, x) :: l => name ← key_text key; x ← json_of_tree x; go l (object_insert name x fields)
    end.

(** A tree that is read as a JSON value. *)
Definition tree_of (v : Value) (t : StateValue) : Prop := json_of_tree t = Some v /\ wf_tree t.

Lemma json_elements_ok l r : Forall2 tree_of l r -> json_elements r = Some l.
Proof. induction 1 as [|v t l r [Ht _] _ IH]; [done|]. cbn [json_elements]. rewrite Ht. cbn [mbind option_bind]. by rewrite IH. Qed.

Lemma json_fields_ok l r : Forall2 (fun f p => p.1 = SString f.1 /\ tree_of f.2 p.2) l r ->
  forall fields, NoDup (fields.*1 ++ l.*1) -> json_fields r fields = Some (fields ++ l).
Proof.
  induction 1 as [|[name v] [k t] l r [Hk [Ht _]] _ IH]; intros fields Hnd; [by rewrite (right_id_L [] (++))|].
  cbn [fst snd] in *. subst k. cbn [json_fields key_text mbind option_bind]. rewrite Ht. cbn [mbind option_bind]. rewrite fmap_cons in Hnd. cbn [fst] in Hnd. rewrite object_insert_new.
  - rewrite IH; [by rewrite <-(assoc_L (++))|]. rewrite fmap_app, <-(assoc_L (++)). exact Hnd.
  - apply NoDup_app in Hnd as (_ & Hd & _). intros Hin%Hd. apply Hin. by left.
Qed.

Lemma wf_leaf v : children v = [] -> wf_scalar v = true -> wf_tree v.
Proof. intros Hc Hs. constructor; [done|]. rewrite Hc. constructor. Qed.
Lemma wf_entries l r : Forall2 (fun (f : string * Value) p => p.1 = SString f.1 /\ tree_of f.2 p.2) l r -> wf_tree (SMap r).
Proof.
  intros HF. constructor; [done|]. induction HF as [|f [k t] l r [Hk [_ Ht]] _ IH]; [constructor|]. cbn [fst snd] in *. subst k.
  apply Forall_cons_2; [by apply wf_leaf|]. by apply Forall_cons_2.
Qed.
Lemma leaf_tree limit depth x extra size t size' : leaf limit depth x extra size = Ok (t, size') -> t = x.
Proof. unfold leaf. intros [_ E]%bind_unit_ok. by apply bind_ok in E as (? & _ & [= <- _]). Qed.

Lemma serialize_number limit depth n size t size' : wf_number n = true -> serialize_json limit depth (JNumber n) size = Ok (t, size') ->
  tree_of (JNumber n) t.
Proof.
  intros Hn. destruct n as [n|n|bits]; cbn [serialize_json].
  - intros ->%leaf_tree. split; [done|]. by apply wf_leaf.
  - intros ->%leaf_tree. apply in_range_true in Hn. split; [|apply wf_leaf; [done|]; apply in_range_true; unfold i64_max; lia].
    cbn [json_of_tree]. unfold json_of_i64. by rewrite (proj2 (Z.ltb_lt _ _)) by lia.
  - unfold serialize_f64. intros [Hf%fail_if_ok E]%bind_unit_ok. apply negb_false_iff in Hf. apply leaf_tree in E as ->. apply andb_true_iff in Hn as [Hn _].
    split; [cbn [json_of_tree]; by rewrite Hf|]. by apply wf_leaf.
Qed.

Lemma canonical_names (fs : list (string * Value)) : NoDup fs.*1 -> StronglySorted (fun a b => cmp a b = Lt) (sort_on fst fs).*1.
Proof.
  intros Hnd. assert (NoDup (sort_on fst fs).*1) as Hnd' by (by rewrite sort_on_perm). clear Hnd. pose proof (sort_on_sorted fst fs) as Hs. revert Hs Hnd'.
  induction 1 as [|f l _ IH Hf]; intros Hnd; [constructor|]. rewrite fmap_cons in *. apply NoDup_cons in Hnd as [Hn Hnd]. constructor; [by apply IH|].
  apply Forall_fmap. apply Forall_forall. intros g Hg. rewrite Forall_forall in Hf. apply Hf in Hg as Hle. cbn.
  apply leb_cases in Hle as [|Heq]; [done|]. destruct Hn. rewrite Heq. by apply list_elem_of_fmap_2.
Qed.

(** A JSON value with sorted fields is read back from its tree. *)
Lemma serialize_canonical limit v : wf_value v = true -> forall depth size t size',
  serialize_json limit depth (normalize v) size = Ok (t, size') -> tree_of (normalize v) t.
Proof.
  induction v as [|b|n|s|l IH|fs IH] using Value_ind'; intros Hwf depth size t size'.
  - intros ->%leaf_tree. split; [done|]. by apply wf_leaf.
  - intros ->%leaf_tree. split; [done|]. by apply wf_leaf.
  - by apply serialize_number.
  - intros ->%leaf_tree. split; [done|]. by apply wf_leaf.
  - cbn [normalize serialize_json]. intros (n & _ & E)%bind_ok. apply bind_ok in E as ([r m] & Hr & [= <- <-]). cbn [fst] in *.
    apply (serialize_elements_ok _ tree_of) in Hr.
    + split; [|constructor; [done|]; clear -Hr; cbn; induction Hr as [|? ? ? ? [_ ?]]; by constructor].
      change (JArray <$> json_elements r = Some (JArray (normalize <$> l))). by rewrite (json_elements_ok _ _ Hr).
    + apply Forall_fmap. cbn [wf_value] in Hwf. rewrite forallb_forall in Hwf. rewrite Forall_forall in IH |- *. intros x Hx size0 t size0'. cbn [compose].
      apply IH; [done|]. by apply Hwf, list_elem_of_In.
  - cbn [normalize serialize_json]. intros (n & _ & E)%bind_ok. apply bind_ok in E as ([r m] & Hr & [= <- <-]). cbn [fst] in *.
    cbn [wf_value] in Hwf. apply andb_true_iff in Hwf as [Hnd%nodupb_NoDup Hwf]. rewrite forallb_forall in Hwf. rewrite Forall_forall in IH.
    set (fields := (fun f => (f.1, normalize f.2)) <$> fs) in *.
    assert (NoDup fields.*1) as Hnd' by (unfold fields; rewrite <-list_fmap_compose; exact Hnd).
    apply (serialize_entries_ok _ _ _ tree_of) in Hr as (entries & -> & HF); [|..|constructor].
    + split; [|by eapply wf_entries].
      change (JObject <$> json_fields entries [] = Some (JObject (sort_on fst fields))). rewrite (json_fields_ok _ _ HF); [done|].
      cbn [fmap list_fmap app]. by rewrite sort_on_perm.
    + apply Forall_forall. intros [name x] Hx%(elem_of_Permutation_proper _ _ _ (sort_on_perm fst fields)) size0 t size0'. cbn [snd].
      apply list_elem_of_fmap in Hx as ([name' y] & [= -> ->] & Hy). cbn [snd] in *. apply (IH _ Hy). apply (Hwf (_, _)). by apply list_elem_of_In.
    + by apply canonical_names.
Qed.
End json.
