(* ===== verification/SnapshotCodec.v ===== *)
(** The snapshot of the metadata state, [velorix-meta/src/rhiza_snapshot.rs]: how the
    maps of the state are written as lists of pairs, and the bounded canonical
    encoding of the whole state.

    How serde turns the state into a JSON value and back is a parameter, and so are the
    Arrow streams that [ArrowState] writes and reads. *)
From S2P Require Import Prelude BTree Json Digits ObjectKeyProofs Serde JsonText Codec ArrowState Relation StandingProgram MetaTypes MetaRequests MetaStore.

(** * Maps as pairs *)

(** [map_pairs], over the texts of the keys. *)
Section map_pairs.
Context `{Countable K} {V : Type} (key_to_vec : K -> option bytes).

Definition keyed_pair (p : K * V) : option (bytes * (K * V)) := (fun text => (text, p)) <$> key_to_vec p.1.

(** [map_pairs::serialize]. *)
Definition pairs_of_map (m : gmap K V) : option (list (K * V)) :=
  pairs ← mapM keyed_pair (map_to_list m);
  Some (sort_on fst pairs).*2.

Definition insert_pair (m : gmap K V) (p : K * V) : result string (gmap K V) :=
  _ ← fail_if (bool_decide (is_Some (m !! p.1))) "duplicate snapshot map key";
  Ok (<[p.1 := p.2]> m).

(** [map_pairs::deserialize]. *)
Definition map_of_pairs (l : list (K * V)) : result string (gmap K V) := try_fold insert_pair ∅ l.

Lemma pairs_of_map_perm m l : pairs_of_map m = Some l -> l ≡ₚ map_to_list m.
Proof.
  unfold pairs_of_map. intros (pairs & Hpairs & [= <-])%bind_Some. rewrite sort_on_perm.
  apply mapM_Some in Hpairs. induction Hpairs as [|p [text q] l' pairs Hp _ IH]; [done|].
  rewrite fmap_cons. apply fmap_Some in Hp as (? & _ & [= -> ->]). cbn. by rewrite IH.
Qed.

Lemma map_of_pairs_ok l m : NoDup l.*1 -> (forall k, k ∈ l.*1 -> m !! k = None) ->
  try_fold insert_pair m l = Ok (list_to_map l ∪ m).
Proof.
  revert m. induction l as [|[k v] l IH]; intros m Hnd Hm; [cbn; f_equal; symmetry; apply (left_id_L ∅ (∪))|].
  rewrite fmap_cons in Hnd. cbn [fst] in Hnd. apply NoDup_cons in Hnd as [Hk Hnd]. cbn [try_fold].
  assert (insert_pair m (k, v) = Ok (<[k := v]> m)) as ->.
  { unfold insert_pair. cbn [fst snd]. rewrite Hm by (rewrite fmap_cons; left). by rewrite bool_decide_eq_false_2 by (by intros []). }
  cbn [mbind result_bind]. rewrite IH; [|done|].
  - f_equal. cbn [list_to_map foldr]. rewrite <-insert_union_r by (by apply not_elem_of_list_to_map).
    by rewrite insert_union_l.
  - intros k' Hk'. rewrite lookup_insert_ne by congruence. apply Hm. rewrite fmap_cons. by right.
Qed.

(** The pairs of a map are read back as the map. *)
Lemma map_pairs_round_trip m l : pairs_of_map m = Some l -> map_of_pairs l = Ok m.
Proof.
  intros Hl%pairs_of_map_perm. unfold map_of_pairs. rewrite map_of_pairs_ok; [|by rewrite Hl; apply NoDup_fst_map_to_list|done].
  rewrite (right_id_L ∅ (∪)). rewrite (list_to_map_proper l (map_to_list m)); [by rewrite list_to_map_to_list| |done].
  rewrite Hl. apply NoDup_fst_map_to_list.
Qed.

(** Pairs that repeat a key are refused. *)
Lemma map_of_pairs_distinct l m : map_of_pairs l = Ok m -> NoDup l.*1.
Proof.
  unfold map_of_pairs. assert (forall m0, try_fold insert_pair m0 l = Ok m -> NoDup l.*1 /\ forall k, k ∈ l.*1 -> m0 !! k = None)
    as Hl; [|intros Hm; by apply (Hl ∅)].
  induction l as [|[k v] l IH]; intros m0; [intros _; split; [constructor|intros ? []%not_elem_of_nil]|].
  cbn [try_fold]. intros (m1 & Hm1 & Hm)%bind_ok. unfold insert_pair in Hm1. apply bind_unit_ok in Hm1 as [Hf [= <-]].
  apply fail_if_ok, bool_decide_eq_false in Hf. cbn [fst] in Hf. apply eq_None_not_Some in Hf.
  destruct (IH _ Hm) as [Hnd Hfree]. rewrite fmap_cons. cbn [fst snd] in *. split.
  - constructor; [|done]. intros Hk. apply Hfree in Hk. by rewrite lookup_insert_eq in Hk.
  - intros k' [->|Hk']%elem_of_cons; [done|]. apply Hfree in Hk'. by apply lookup_insert_None in Hk' as [? _].
Qed.
End map_pairs.

(** * The encoded state *)

Definition SNAPSHOT_SCHEMA_VERSION : Z := 1.
Definition MAX_SNAPSHOT_ENCODED_BYTES : Z := 16 * 1024 * 1024.
Definition MAX_SNAPSHOT_EXPANDED_BYTES : Z := 64 * 1024 * 1024.

Inductive SnapshotCodecError :=
| CodecTooLarge
| UnsupportedSchema (schema_version : Z)
| CodecInvalid (reason : string).

Record Envelope := SnapshotEnvelope { ev_schema_version : Z; ev_state : Value }.

(** The [Serialize] that is derived for the envelope: a struct of two fields. *)
#[export] Instance envelope_serialize : Serialize Envelope := fun limit depth e =>
  serialize_struct limit depth [("schema_version", serialize_u32 limit (S depth) (ev_schema_version e));
    ("state", serialize limit (S depth) (ev_state e))].

Inductive envelope_field := VersionField | StateField | IgnoredField.
Definition envelope_key (key : StateValue) : option envelope_field :=
  match key with
  | SString s => Some (if String.eqb s "schema_version" then VersionField else if String.eqb s "state" then StateField else IgnoredField)
  | SU64 n => Some (if n =? 0 then VersionField else if n =? 1 then StateField else IgnoredField)
  | _ => None
  end.

Section envelope.
Context `{ArrowStreams}.

(** The [Deserialize] that is derived for it: the fields by name or by place, none of
    them twice, or a sequence of them. *)
Fixpoint envelope_of_fields (l : list (StateValue * StateValue)) (version : option Z) (state : option Value) : option Envelope :=
  match l with
  | [] => version ← version; state ← state; Some (SnapshotEnvelope version state)
  | (key, x) :: l =>
      field ← envelope_key key;
      match field, version, state with
      | VersionField, None, _ => version ← u32_of_tree x; envelope_of_fields l (Some version) state
      | StateField, _, None => state ← deserialize x; envelope_of_fields l version (Some state)
      | IgnoredField, _, _ => envelope_of_fields l version state
      | _, _, _ => None
      end
  end.

#[export] Instance envelope_deserialize : Deserialize Envelope := fun t =>
  match t with
  | SMap l => envelope_of_fields l None None
  | SSeq (version :: state :: _) =>
      version ← u32_of_tree version;
      state ← deserialize state;
      Some (SnapshotEnvelope version state)
  | SBytes (version :: state :: _) => Some (SnapshotEnvelope version (JNumber (PosInt state)))
  | _ => None
  end.

(** An envelope of a value with sorted fields is read back from its tree. *)
Lemma envelope_read_back limit version v size t size' : is_u32 version = true -> wf_value v = true ->
  serialize limit 0 (SnapshotEnvelope version (normalize v)) size = Ok (t, size') ->
  deserialize t = Some (SnapshotEnvelope version (normalize v)) /\ wf_tree t.
Proof.
  intros Hver Hv. unfold serialize, envelope_serialize, serialize_struct. intros (n & _ & E)%bind_ok. cbn [ev_schema_version ev_state] in E.
  apply bind_ok in E as ([r m] & Hr & [= <- <-]). cbn [fst].
  apply (serialize_entries_ok _ _ _ (fun f t => exists size size', f size = Ok (t, size'))) in Hr as (entries & -> & HF); cycle 1.
  - repeat constructor; cbn; eauto.
  - repeat constructor.
  - constructor.
  - apply Forall2_cons_inv_l in HF as ([k1 t1] & rest & [Hk1 (? & ? & Ht1)] & HF & ->). apply Forall2_cons_inv_l in HF as ([k2 t2] & rest' & [Hk2 (? & ? & Ht2)] & HF & ->).
    apply Forall2_nil_inv_l in HF as ->. cbn [fst snd] in *. subst k1 k2. apply leaf_tree in Ht1 as ->.
    apply serialize_canonical in Ht2 as [Ht2 Hwf]; [|done]. split.
    + unfold deserialize, envelope_deserialize. cbn [envelope_of_fields app envelope_key String.eqb Ascii.eqb Bool.eqb mbind option_bind u32_of_tree].
      rewrite Hver. cbn [mbind option_bind]. unfold deserialize, json_deserialize. by rewrite Ht2.
    + assert (0 <= version <= u64_max) as Hu by (apply in_range_true in Hver; unfold u32_max, u64_max in *; lia).
      constructor; [done|]. repeat apply Forall_cons_2; [by apply wf_leaf|apply wf_leaf; [done|by apply in_range_true]|by apply wf_leaf|done|constructor].
Qed.
End envelope.

(** [serde_json::to_value] and [from_value] of the state. *)
Class SnapshotFormat `{ViewBindings} := {
  state_to_value : InMemoryMetaState -> option Value;
  state_from_value : Value -> option InMemoryMetaState
}.

(** A state is read back from its value, whose fields may be reordered and which has a
    field for every field of the state; it is a value that [serde_json] can hold. *)
Class SnapshotFormatLaws `{SnapshotFormat} : Prop := {
  state_value_round_trip s v : state_to_value s = Some v ->
    state_from_value (normalize v) = Some s /\ is_Some (get_field "active_view_registries" v) /\ wf_value v = true
}.

(** [canonicalize]: fields sorted by name, at every level. *)
Definition canonicalize (v : Value) : Value := normalize v.

Definition remove_field (name : string) (v : Value) : Value :=
  match v with JObject fs => JObject (filter (fun f => f.1 <> name) fs) | _ => v end.

Section codec.
Context `{SnapshotFormat, ArrowStreams}.

Definition invalid_state : SnapshotCodecError := CodecInvalid "state".
Definition invalid_arrow (e : StateError) : SnapshotCodecError := CodecInvalid ("invalid Arrow runtime state: " +:+ e).

Definition encode (s : InMemoryMetaState) : result SnapshotCodecError bytes :=
  v ← ok_or invalid_state (state_to_value s);
  let envelope := SnapshotEnvelope SNAPSHOT_SCHEMA_VERSION (canonicalize v) in
  expanded_bytes ← map_err invalid_arrow (measure_serializable envelope u64_max);
  _ ← fail_if (MAX_SNAPSHOT_EXPANDED_BYTES <? expanded_bytes) CodecTooLarge;
  arrow_state ← map_err invalid_arrow (from_serializable_bounded envelope MAX_SNAPSHOT_EXPANDED_BYTES);
  _ ← fail_if (MAX_SNAPSHOT_ENCODED_BYTES <? Z.of_nat (length (state_bytes arrow_state))) CodecTooLarge;
  Ok (state_bytes arrow_state).

Definition decode_bounded (body : bytes) (encoded_limit expanded_limit : Z) : result SnapshotCodecError InMemoryMetaState :=
  _ ← fail_if (encoded_limit <? Z.of_nat (length body)) CodecTooLarge;
  arrow_state ← map_err invalid_arrow (from_ipc body expanded_limit);
  _ ← fail_if (expanded_limit <? state_len arrow_state) CodecTooLarge;
  envelope ← map_err invalid_arrow (decode_state (A := Envelope) arrow_state);
  _ ← fail_if (negb (ev_schema_version envelope =? SNAPSHOT_SCHEMA_VERSION)) (UnsupportedSchema (ev_schema_version envelope));
  let had_active_view_registries := bool_decide (is_Some (get_field "active_view_registries" (ev_state envelope))) in
  s ← ok_or invalid_state (state_from_value (ev_state envelope));
  canonical_state ← ok_or invalid_state (state_to_value s);
  canonical_state ←
    (if had_active_view_registries then Ok canonical_state
     else match canonical_state with
          | JObject _ => Ok (remove_field "active_view_registries" canonical_state)
          | _ => Err (CodecInvalid "snapshot state is not an object")
          end);
  canonical ← map_err invalid_arrow (from_serializable_bounded
    (SnapshotEnvelope (ev_schema_version envelope) (canonicalize canonical_state)) MAX_SNAPSHOT_EXPANDED_BYTES);
  _ ← fail_if (bool_decide (state_bytes canonical <> body)) (CodecInvalid "snapshot is not canonical or contains duplicate/unknown fields");
  Ok s.

Definition decode (body : bytes) : result SnapshotCodecError InMemoryMetaState :=
  decode_bounded body MAX_SNAPSHOT_ENCODED_BYTES MAX_SNAPSHOT_EXPANDED_BYTES.
End codec.

(** ** Round trip *)

Lemma get_field_some k v : is_Some (get_field k v) <-> exists fs, v = JObject fs /\ k ∈ fs.*1.
Proof.
  split.
  - destruct v as [| | | | |fs]; try (by intros []). cbn. intros [x (f & Hf & _)%fmap_Some]. exists fs. split; [done|].
    apply List.find_some in Hf as [Hin%list_elem_of_In Hk%String.eqb_eq]. rewrite <-Hk. by apply list_elem_of_fmap_2.
  - intros (fs & -> & (f & -> & Hf)%list_elem_of_fmap). cbn. destruct (List.find _ fs) eqn:E; [by eexists|].
    exfalso. apply list_elem_of_In, (List.find_none _ _ E) in Hf. by rewrite String.eqb_refl in Hf.
Qed.

Lemma canonical_fields k v : is_Some (get_field k v) -> is_Some (get_field k (canonicalize v)).
Proof.
  rewrite !get_field_some. intros (fs & -> & Hk). cbn. eexists. split; [done|]. rewrite sort_on_perm, <-list_fmap_compose.
  exact Hk.
Qed.

Section round_trip.
Context `{SnapshotFormatLaws, !ArrowStreams, !ArrowStreamsLaws}.

Definition envelope_of (v : Value) : Envelope := SnapshotEnvelope SNAPSHOT_SCHEMA_VERSION (canonicalize v).

Lemma encode_value s body : encode s = Ok body -> exists v a,
  state_to_value s = Some v /\ from_serializable_bounded (envelope_of v) MAX_SNAPSHOT_EXPANDED_BYTES = Ok a /\ body = state_bytes a /\
  Z.of_nat (length body) <= MAX_SNAPSHOT_ENCODED_BYTES.
Proof.
  unfold encode. intros (v & Hv%ok_or_ok & E)%bind_ok. cbn zeta in E. apply bind_ok in E as (n & _ & E).
  apply bind_unit_ok in E as [_ E]. apply bind_ok in E as (a & Ha%map_err_ok & E). apply bind_unit_ok in E as [Hlen%fail_if_ok [= <-]].
  apply Z.ltb_ge in Hlen. by exists v, a.
Qed.

(** The Arrow form of the envelope of a state is read back. *)
Lemma envelope_state_read v a : wf_value v = true -> from_serializable_bounded (envelope_of v) MAX_SNAPSHOT_EXPANDED_BYTES = Ok a ->
  Z.of_nat (length (state_bytes a)) <= MAX_SNAPSHOT_ENCODED_BYTES ->
  from_ipc (state_bytes a) MAX_SNAPSHOT_EXPANDED_BYTES = Ok a /\ state_len a <= MAX_SNAPSHOT_EXPANDED_BYTES /\
  decode_state a = Ok (envelope_of v).
Proof.
  intros Hv Ha Hlen. unfold from_serializable_bounded in Ha. apply bind_ok in Ha as ([t n] & Ht & Ha). cbn [fst] in Ha.
  destruct (envelope_read_back _ SNAPSHOT_SCHEMA_VERSION v _ _ _ eq_refl Hv Ht) as [Hdes Hwf].
  destruct (state_read_back _ MAX_SNAPSHOT_EXPANDED_BYTES _ Hwf ltac:(by vm_compute) Ha) as (Hread & Hmax & Htree); [etrans; [exact Hlen|by vm_compute]|]. split_and!; [done|done|].
  unfold decode_state. destruct a as [a|]; [|done]. cbn [ok_or mbind result_bind option_bind] in *. rewrite Htree. cbn [mbind option_bind]. by rewrite Hdes.
Qed.

Lemma snapshot_round_trip s body : encode s = Ok body -> decode body = Ok s.
Proof.
  intros (v & a & Hv & Ha & -> & Hlen)%encode_value. destruct (state_value_round_trip _ _ Hv) as (Hfrom & Hfield & Hwf).
  destruct (envelope_state_read _ _ Hwf Ha Hlen) as (Hread & Hmax & Hdec). unfold decode, decode_bounded.
  rewrite (proj2 (Z.ltb_ge _ _) Hlen). cbn [fail_if mbind result_bind]. rewrite Hread. cbn [map_err mbind result_bind].
  rewrite (proj2 (Z.ltb_ge _ _) Hmax). cbn [fail_if mbind result_bind]. rewrite Hdec. cbn [map_err mbind result_bind ev_schema_version ev_state envelope_of].
  rewrite Z.eqb_refl. cbn [negb fail_if mbind result_bind]. change (normalize v) with (canonicalize v) in Hfrom. rewrite Hfrom. cbn [ok_or mbind result_bind].
  rewrite Hv. cbn [ok_or mbind result_bind]. rewrite bool_decide_eq_true_2 by (by apply canonical_fields). cbn [mbind result_bind].
  unfold envelope_of in Ha. rewrite Ha. cbn [map_err mbind result_bind]. by rewrite bool_decide_eq_false_2 by (by intros Hne).
Qed.

(** States with one encoding are equal. *)
Lemma encode_inj s s' body : encode s = Ok body -> encode s' = Ok body -> s = s'.
Proof. intros E%snapshot_round_trip E'%snapshot_round_trip. rewrite E in E'. by injection E'. Qed.
End round_trip.
