(* ===== verification/RhizaKv.v ===== *)
(** The key-value store under the metadata service,
    [velorix-meta/src/rhiza_kv.rs]: single-key operations of the replicated database
    Rhiza, with the bound on the size of a mutation and the treatment of answers that
    do not say whether a mutation was made.

    A function that awaits is a program: a tree of calls with a continuation for every
    answer. What the database does with a call is in [RhizaDb.v]. *)
From S2P Require Import Prelude BTree Json Digits Segments ObjectKey Hash.

(** * The database, a parameter *)

(** [rhizadb::Error]. *)
Record DbError := DatabaseError { db_code : string; db_message : string }.

(** [rhizadb::MutationReceipt] and [rhizadb::RequestStatus]: the fields that are looked at. *)
Record MutationReceipt := Receipt {
  rc_status : option string;
  rc_applied : option bool;
  rc_error_code : option string
}.
Record RequestStatus := Status { st_state : string; st_receipt : option MutationReceipt }.

(** The answer to a call on a blocking task, which may itself fail. *)
Inductive reply (A : Type) := Replied (r : result DbError A) | TaskFailed (message : string).
Arguments Replied {A}.
Arguments TaskFailed {A}.

(** [base64::STANDARD]. *)
Class Base64 := { b64_encode : bytes -> string; b64_decode : string -> option bytes }.
Class Base64Laws `{Base64} : Prop := {
  b64_round_trip b : b64_decode (b64_encode b) = Some b;
  b64_empty : b64_encode [] = ""
}.

(** The request of [kv_cas]. *)
Record CasRequest := Cas {
  cas_key : string;
  cas_value : string;
  cas_expected : string;
  cas_expected_exists : bool;
  cas_request_id : string
}.

(** * Programs *)

(** [Digest] is [Sha256::digest] in hexadecimal, [NewUuid] is [Uuid::now_v7], and the
    cache holds a value of type [S] for the root it was decoded from. *)
Inductive call (S : Type) : Type :=
| KvGet (key : string)
| KvCas (q : CasRequest)
| RequestStatusOf (request_id : string)
| Digest (body : bytes)
| NewUuid
| CacheRead
| CacheWrite (entry : option (bytes * S)).
Arguments KvGet {S}.
Arguments KvCas {S}.
Arguments RequestStatusOf {S}.
Arguments Digest {S}.
Arguments NewUuid {S}.
Arguments CacheRead {S}.
Arguments CacheWrite {S}.

Definition answer {S} (c : call S) : Type :=
  match c with
  | KvGet _ => reply Value
  | KvCas _ => reply MutationReceipt
  | RequestStatusOf _ => reply RequestStatus
  | Digest _ | NewUuid => string
  | CacheRead => option (bytes * S)
  | CacheWrite _ => unit
  end.

Inductive prog (S A : Type) : Type :=
| Ret (a : A)
| Call (c : call S) (k : answer c -> prog S A).
Arguments Ret {S A} a.
Arguments Call {S A} c k.

Fixpoint bind {S A B} (p : prog S A) (f : A -> prog S B) : prog S B :=
  match p with
  | Ret a => f a
  | Call c k => Call c (fun r => bind (k r) f)
  end.

(** [p.await?]. *)
Definition and_then {S E A B} (p : prog S (result E A)) (f : A -> prog S (result E B)) : prog S (result E B) :=
  bind p (fun r => match r with Ok a => f a | Err e => Ret (Err e) end).

(** [p.await.map_err(f)]. *)
Definition map_error {S E F A} (f : E -> F) (p : prog S (result E A)) : prog S (result F A) :=
  bind p (fun r => Ret (map_err f r)).

Declare Scope rhiza_scope.
Delimit Scope rhiza_scope with rhiza.
Notation "x ←! p ; k" := (and_then p (fun x => k))
  (at level 20, p at level 100, k at level 200, right associativity) : rhiza_scope.
Notation "x ⇐ c ; k" := (Call c (fun x => k))
  (at level 20, c at level 10, k at level 200, right associativity) : rhiza_scope.
Open Scope rhiza_scope.

(** A check: no call. *)
Definition check {S E A} (r : result E A) : prog S (result E A) := Ret r.

(** * Operations *)

(** The [detail] of an indeterminate mutation is left out. *)
Inductive RhizaKvError :=
| Operation (code message : string)
| Indeterminate (request_id : string)
| OutstandingReferences (references : Z)
| RequestTooLarge (key : string) (encoded_bytes limit value_bytes expected_bytes : Z).

Definition MAX_REPLICATED_MUTATION_BYTES : Z := 128 * 1024.

(** [bytes.div_ceil(3) * 4]. *)
Definition div_ceil (n d : Z) : Z := (n + d - 1) / d.
Definition base64_len (n : Z) : Z := div_ceil n 3 * 4.

Definition estimated_mutation_bytes (key : string) (value_bytes expected_bytes : Z) : Z :=
  base64_len value_bytes + base64_len expected_bytes + Z.of_nat (String.length key) + 1024.

Definition check_mutation_size (key : string) (value_bytes expected_bytes : Z) : result RhizaKvError unit :=
  let encoded_bytes := estimated_mutation_bytes key value_bytes expected_bytes in
  fail_if (MAX_REPLICATED_MUTATION_BYTES <? encoded_bytes)
    (RequestTooLarge key encoded_bytes MAX_REPLICATED_MUTATION_BYTES value_bytes expected_bytes).

Definition rejected (receipt : MutationReceipt) : RhizaKvError :=
  Operation (default "rejected" (rc_error_code receipt)) "mutation was rejected".

Definition validate_receipt (request_id : string) (receipt : MutationReceipt) : result RhizaKvError unit :=
  if bool_decide (rc_status receipt = Some "committed") then Ok tt
  else if bool_decide (rc_status receipt = Some "rejected") then Err (rejected receipt)
  else Err (Indeterminate request_id).

Definition operation (e : DbError) : RhizaKvError := Operation (db_code e) (db_message e).

Definition value_as_bool (v : Value) : option bool := match v with JBool b => Some b | _ => None end.

Section operations.
Context `{Base64} {S : Type}.

(** The answer of [kv_get]; a value that is found and empty has no field. *)
Definition read_found (v : Value) : result RhizaKvError (option bytes) :=
  found ← ok_or (Operation "invalid_response" "KV response missing found") (get_field "found" v ≫= value_as_bool);
  if negb found then Ok None
  else match get_field "value" v with
       | None => Ok (Some [])
       | Some encoded =>
           text ← ok_or (Operation "invalid_response" "KV response value is not a string") (value_as_str encoded);
           ok_or (Operation "invalid_response" "base64") (Some <$> b64_decode text)
       end.

Definition get (key : string) : prog S (result RhizaKvError (option bytes)) :=
  r ⇐ (KvGet key);
  Ret match r with
      | TaskFailed message => Err (Operation "join_error" message)
      | Replied (Err e) => Err (operation e)
      | Replied (Ok v) => read_found v
      end.

(** The codes after which the state of a mutation is asked for. *)
Definition is_uncertain (code : string) : bool :=
  String.eqb code "commit_unknown" || String.eqb code "timeout" || String.eqb code "deadline_exceeded" ||
  String.eqb code "invalid_response".

Definition settle (request_id : string) (receipt : MutationReceipt) : result RhizaKvError bool :=
  _ ← validate_receipt request_id receipt;
  Ok (bool_decide (rc_applied receipt = Some true)).

(** The answer to [request_status]. *)
Definition reconcile (request_id : string) (r : reply RequestStatus) : result RhizaKvError bool :=
  match r with
  | TaskFailed _ | Replied (Err _) => Err (Indeterminate request_id)
  | Replied (Ok status) =>
      match st_receipt status with
      | Some receipt =>
          if String.eqb (st_state status) "committed" && bool_decide (rc_status receipt = Some "committed")
          then settle request_id receipt
          else if String.eqb (st_state status) "rejected" && bool_decide (rc_status receipt = Some "rejected")
          then Err (rejected receipt)
          else Err (Indeterminate request_id)
      | None => Err (Indeterminate request_id)
      end
  end.

Definition mutate (q : CasRequest) : prog S (result RhizaKvError bool) :=
  r ⇐ (KvCas q);
  match r with
  | TaskFailed _ => Ret (Err (Indeterminate (cas_request_id q)))
  | Replied (Ok receipt) => Ret (settle (cas_request_id q) receipt)
  | Replied (Err e) =>
      if is_uncertain (db_code e)
      then status ⇐ (RequestStatusOf (cas_request_id q)); Ret (reconcile (cas_request_id q) status)
      else Ret (Err (operation e))
  end.

Definition put_if_absent (request_id key : string) (value : bytes) : prog S (result RhizaKvError bool) :=
  _ ←! check (check_mutation_size key (Z.of_nat (length value)) 0);
  mutate (Cas key (b64_encode value) "" false request_id).

Definition compare_and_set (request_id key : string) (expected : option bytes) (value : bytes) :
    prog S (result RhizaKvError bool) :=
  match expected with
  | None => put_if_absent request_id key value
  | Some expected =>
      _ ←! check (check_mutation_size key (Z.of_nat (length value)) (Z.of_nat (length expected)));
      mutate (Cas key (b64_encode value) (b64_encode expected) true request_id)
  end.
End operations.
