(* ===== verification/RhizaSnapshot.v ===== *)
(** The snapshot protocol, [velorix-meta/src/rhiza_kv_snapshot.rs]: a snapshot is cut
    into pages, each stored once under its digest, and a root that lists the pages is
    replaced by compare-and-set. *)
From S2P Require Import Prelude BTree Json Digits Segments ObjectKey Hash Serde JsonText RhizaKv.

Definition ROOT_KEY : string := "velorix/snapshot/root".
Definition PAGE_BYTES : Z := Z.shiftl 64 10.
Definition MAX_SNAPSHOT_BYTES : Z := Z.shiftl 8 20.
Definition page_key (hash : string) : string := "velorix/snapshot/page/" +:+ hash.

Inductive SnapshotError :=
| SnapshotKv (e : RhizaKvError)
| SnapshotInvalid (reason : string)
| SnapshotOversized.

Inductive CompareExchange := Applied (root : bytes) | Conflict.

Record Manifest := SnapshotManifest {
  sm_schema_version : Z;
  sm_generation : Z;
  sm_pages : list string;
  sm_len : Z;
  sm_content_digest : string
}.

Definition manifest_json (m : Manifest) : Value :=
  JObject [("schema_version", json_of_unsigned (sm_schema_version m)); ("generation", json_of_unsigned (sm_generation m));
    ("pages", JArray (JString <$> sm_pages m)); ("len", json_of_unsigned (sm_len m));
    ("content_digest", JString (sm_content_digest m))].

(** [serde_json::from_slice] into a manifest. *)
Class ManifestReader := { manifest_from_slice : bytes -> option Manifest }.

(** The fields are [u32], [u64] and [usize]. *)
Definition typed_manifest (m : Manifest) : Prop :=
  0 <= sm_schema_version m <= u32_max /\ 0 <= sm_generation m <= u64_max /\ 0 <= sm_len m <= u64_max.

(** A manifest is read back from its text, and what is read has the types of the fields. *)
Class ManifestReaderLaws `{SerdeJson} `{ManifestReader} : Prop := {
  manifest_round_trip m : typed_manifest m -> manifest_from_slice (to_vec (manifest_json m)) = Some m;
  manifest_typed body m : manifest_from_slice body = Some m -> typed_manifest m
}.

Definition hex_digest `{Sha256} (body : bytes) : string := String.concat "" (hex_byte <$> sha256 body).

Definition is_ascii_uppercase (c : Ascii.ascii) : bool := (65 <=? byte_of_ascii c) && (byte_of_ascii c <=? 90).

Definition is_page_digest (p : string) : bool :=
  (String.length p =? 64)%nat && all_bytes (fun b => is_ascii_hexdigit b && negb (is_ascii_uppercase b)) p.

Definition parse_manifest `{ManifestReader} (root : bytes) : result SnapshotError Manifest :=
  _ ← fail_if (16 * 1024 <? Z.of_nat (length root)) SnapshotOversized;
  m ← ok_or (SnapshotInvalid "json") (manifest_from_slice root);
  _ ← fail_if (negb (sm_schema_version m =? 1) || (sm_generation m =? 0) || (MAX_SNAPSHOT_BYTES <? sm_len m) ||
      negb (Z.of_nat (length (sm_pages m)) =? div_ceil (sm_len m) PAGE_BYTES))
    (SnapshotInvalid "manifest bounds/version/pages");
  _ ← fail_if (existsb (fun p => negb (is_page_digest p)) (sm_pages m)) (SnapshotInvalid "invalid page digest");
  Ok m.

(** [bytes.chunks(PAGE_BYTES)]; [fuel] bounds the number of chunks. *)
Fixpoint chunks_fuel (fuel : nat) (size : nat) (l : bytes) : list bytes :=
  match fuel, l with
  | O, _ | _, [] => []
  | S fuel, _ => take size l :: chunks_fuel fuel size (drop size l)
  end.
Definition chunks (size : nat) (l : bytes) : list bytes := chunks_fuel (length l) size l.

Section snapshots.
Context `{Base64, SerdeJson, ManifestReader} {S : Type}.

Definition snapshot (A : Type) : Type := prog S (result SnapshotError A).

(** [RhizaKvSnapshot::root]. *)
Definition root : snapshot (option bytes) := map_error SnapshotKv (get ROOT_KEY).

(** The loop over the pages of a manifest. *)
Fixpoint load_pages (pages : list string) (body : bytes) : snapshot bytes :=
  match pages with
  | [] => Ret (Ok body)
  | hash :: pages =>
      page ←! map_error SnapshotKv (get (page_key hash));
      page ←! check (ok_or (SnapshotInvalid "page missing") page);
      digest ⇐ (Digest page);
      _ ←! check (fail_if (negb (String.eqb digest hash)) (SnapshotInvalid "page digest mismatch"));
      _ ←! check (fail_if ((PAGE_BYTES <? Z.of_nat (length page)) ||
          (MAX_SNAPSHOT_BYTES <? Z.of_nat (length body) + Z.of_nat (length page))) SnapshotOversized);
      load_pages pages (body ++ page)
  end.

Definition load_at (root : bytes) : snapshot (bytes * bytes) :=
  m ←! check (parse_manifest root);
  _ ←! check (fail_if (negb (sm_schema_version m =? 1) || (MAX_SNAPSHOT_BYTES <? sm_len m))
    (SnapshotInvalid "manifest bounds/version"));
  _ ←! check (fail_if (MAX_SNAPSHOT_BYTES / PAGE_BYTES + 1 <? Z.of_nat (length (sm_pages m))) SnapshotOversized);
  body ←! load_pages (sm_pages m) [];
  (if negb (Z.of_nat (length body) =? sm_len m) then Ret (Err (SnapshotInvalid "snapshot length or digest mismatch"))
   else
     digest ⇐ (Digest body);
     _ ←! check (fail_if (negb (String.eqb digest (sm_content_digest m)))
       (SnapshotInvalid "snapshot length or digest mismatch"));
     Ret (Ok (root, body))).

Definition load : snapshot (option (bytes * bytes)) :=
  r ←! root;
  match r with
  | None => Ret (Ok None)
  | Some r => loaded ←! load_at r; Ret (Ok (Some loaded))
  end.

(** A page that is not known to be stored: it is written, or compared with what is stored. *)
Definition store_page (request_id hash : string) (chunk : bytes) : snapshot unit :=
  page_request_id ⇐ (Digest (as_bytes ("page:" +:+ request_id +:+ ":" +:+ hash)));
  inserted ←! map_error SnapshotKv (put_if_absent page_request_id (page_key hash) chunk);
  if (inserted : bool) then Ret (Ok tt)
  else
    stored ←! map_error SnapshotKv (get (page_key hash));
    check (fail_if (bool_decide (stored <> Some chunk)) (SnapshotInvalid "immutable page mismatch")).

(** The loop over the chunks: the digests of all of them. *)
Fixpoint store_pages (request_id : string) (known_pages : list string) (rest : list bytes) : snapshot (list string) :=
  match rest with
  | [] => Ret (Ok [])
  | chunk :: rest =>
      hash ⇐ (Digest chunk);
      _ ←! (if bool_decide (hash ∈ known_pages) then Ret (Ok tt) else store_page request_id hash chunk);
      hashes ←! store_pages request_id (hash :: known_pages) rest;
      Ret (Ok (hash :: hashes))
  end.

Definition next_generation (expected : option Manifest) : result SnapshotError Z :=
  match expected with
  | None => Ok 1
  | Some m => ok_or (SnapshotInvalid "generation overflow") (checked_u64 (sm_generation m + 1))
  end.

Definition transpose {E A} (o : option (result E A)) : result E (option A) :=
  match o with None => Ok None | Some (Ok a) => Ok (Some a) | Some (Err e) => Err e end.

Definition compare_exchange (expected : option bytes) (body : bytes) (request_id : string) : snapshot CompareExchange :=
  _ ←! check (fail_if (String.eqb request_id "" || (64 <? String.length request_id)%nat)
    (SnapshotInvalid "request ID must be 1..64 bytes"));
  _ ←! check (fail_if (MAX_SNAPSHOT_BYTES <? Z.of_nat (length body)) SnapshotOversized);
  expected_manifest ←! check (transpose (parse_manifest <$> expected));
  pages ←! store_pages request_id (default [] (sm_pages <$> expected_manifest)) (chunks (Z.to_nat PAGE_BYTES) body);
  generation ←! check (next_generation expected_manifest);
  content_digest ⇐ (Digest body);
  let manifest := to_vec (manifest_json (SnapshotManifest 1 generation pages (Z.of_nat (length body)) content_digest)) in
  applied ←! map_error SnapshotKv (compare_and_set request_id ROOT_KEY expected manifest);
  Ret (Ok (if (applied : bool) then Applied manifest else Conflict)).
End snapshots.
