(* ===== verification/RhizaMeta.v ===== *)
(** The metadata service over the key-value store,
    [velorix-meta/src/rhiza_meta.rs]: every mutation is evaluated on a copy of the
    state that the root names, and published by replacing the root; a read is evaluated
    on the state of the root. The decoded state is cached with its root.

    The locks of a process only order its own operations and are left out: the
    programs here run in any order. *)
From S2P Require Import Prelude BTree Json Digits ArrowState Segments ObjectKey Hash Relation Serde JsonText StandingProgram MetaTypes SourceCut ViewBootstrap MetaRequests MetaStore MetaMachine SnapshotCodec RhizaKv RhizaSnapshot.

Definition MAX_CAS_ATTEMPTS : nat := 8.

Definition rhiza_error (e : RhizaKvError) : MetaStoreError :=
  match e with
  | Indeterminate request_id => RhizaIndeterminate request_id
  | Operation code message => Rhiza ("Rhiza KV operation failed (" +:+ code +:+ "): " +:+ message)
  | OutstandingReferences references =>
      Rhiza ("Rhiza KV database still has " +:+ nat_to_string references +:+ " outstanding references")
  | RequestTooLarge key encoded_bytes limit value_bytes expected_bytes =>
      Rhiza ("Rhiza KV request for key " +:+ key +:+ " would encode to ~" +:+ nat_to_string encoded_bytes +:+ " bytes, over the " +:+
        nat_to_string limit +:+ "-byte replicated-mutation bound (value " +:+ nat_to_string value_bytes +:+ " bytes, expected " +:+
        nat_to_string expected_bytes +:+ " bytes)")
  end.

Definition snapshot_error (e : SnapshotError) : MetaStoreError :=
  match e with
  | SnapshotKv e => rhiza_error e
  | SnapshotOversized => SnapshotTooLarge
  | SnapshotInvalid reason => Serialization ("invalid snapshot: " +:+ reason)
  end.

Definition codec_error (e : SnapshotCodecError) : MetaStoreError :=
  match e with
  | CodecTooLarge => Serialization "snapshot exceeds its encoded or expanded byte limit"
  | UnsupportedSchema version => Serialization ("unsupported snapshot schema version " +:+ nat_to_string version)
  | CodecInvalid reason => Serialization ("invalid snapshot: " +:+ reason)
  end.

(** * Commands with their outcomes *)

Section outcomes.
Context `{Sha256, SerdeJson, RelationCodec, MetaEnv}.

Definition outcome (c : command) : Type :=
  match c with
  | StoreRelationCatalog _ => StoreRelationCatalogOutcome
  | CreateActiveViewRecord _ | CompareExchangeActiveViewRecord _ => ActiveViewRecordOutcome
  | ImportActiveViewRegistry _ => ImportActiveViewRegistryOutcomeV1
  | ReserveIngestRange _ | ReserveAuthoritativeIngestRange _ | ReserveRelationAuthoritativeIngestRange _ => ReserveIngestRangeOutcome
  | CommitIngestRange _ => CommitIngestRangeOutcome
  | CommitIngestRanges _ => list CommitIngestRangeOutcome
  | PublishIngestReservation _ | PublishRelationIngestReservation _ => PublishIngestReservationOutcome
  | BeginViewBootstrap _ | FixViewBootstrapActivationCut _ | PromoteViewBootstrap _
  | PromoteViewBootstrapWithActiveViewRecord _ => ViewBootstrapOutcome
  | AcquireStandingRuntimeOwner _ | AcquireStandingRuntimeOwnerWithEndpoint _ _ | ReacquireStandingRuntimeOwner _ =>
      AcquireOutcome StandingRuntimeOwnerClaim
  | RenewStandingRuntimeOwner _ _ => StandingRuntimeOwnerClaim
  | PublishStandingRuntimeCheckpoint _ => PublishStandingRuntimeCheckpointOutcome
  | AcquirePartitionAuthority _ => AcquireOutcome PartitionAuthorityToken
  | AcquireRelationPartitionAuthority _ | ReacquireRelationPartitionAuthority _ => AcquireOutcome RelationPartitionAuthorityToken
  | PublishPartitionCheckpointPointer _ => PublishPartitionCheckpointPointerOutcome
  end.

(** What the store answers to a command, with the state it leaves. *)
Definition evaluate (c : command) (clock : checked Z) : meta (outcome c) :=
  match c with
  | StoreRelationCatalog catalog => store_relation_catalog catalog
  | CreateActiveViewRecord q => create_active_view_record q
  | CompareExchangeActiveViewRecord q => compare_exchange_active_view_record clock q
  | ImportActiveViewRegistry q => import_active_view_registry q
  | ReserveIngestRange r => reserve_ingest_range r
  | CommitIngestRange r => commit_ingest_range r
  | CommitIngestRanges l => commit_ingest_ranges l
  | ReserveAuthoritativeIngestRange q => reserve_authoritative_ingest_range q
  | PublishIngestReservation q => publish_ingest_reservation q
  | BeginViewBootstrap q => begin_view_bootstrap q
  | FixViewBootstrapActivationCut q => fix_view_bootstrap_activation_cut clock q
  | PromoteViewBootstrap q => promote_view_bootstrap clock q
  | PromoteViewBootstrapWithActiveViewRecord q => promote_view_bootstrap_with_active_view_record clock q
  | AcquireStandingRuntimeOwner q => acquire_standing_runtime_owner clock q
  | AcquireStandingRuntimeOwnerWithEndpoint q e => acquire_standing_runtime_owner_with_endpoint clock q e
  | ReacquireStandingRuntimeOwner q => reacquire_standing_runtime_owner clock q
  | RenewStandingRuntimeOwner owner ttl_ms => renew_standing_runtime_owner clock owner ttl_ms
  | PublishStandingRuntimeCheckpoint q => publish_standing_runtime_checkpoint clock q
  | AcquirePartitionAuthority q => acquire_partition_authority q
  | AcquireRelationPartitionAuthority q => acquire_relation_partition_authority q
  | ReacquireRelationPartitionAuthority q => reacquire_relation_partition_authority q
  | ReserveRelationAuthoritativeIngestRange q => reserve_relation_authoritative_ingest_range q
  | PublishRelationIngestReservation q => publish_relation_ingest_reservation q
  | PublishPartitionCheckpointPointer q => publish_partition_checkpoint_pointer q
  end.

Lemma evaluate_perform c clock s : (evaluate c clock s).2 = perform clock c s.
Proof. by destruct c. Qed.

(** [InMemoryMetaStore::from_state_for_evaluation] at the next tick, and what the
    command makes of it. *)
Definition next_tick (s : InMemoryMetaState) : option Z := checked_u64 (partition_authority_now_unix_ms s + 1).
Definition evaluated_at (c : command) (tick : Z) (s : InMemoryMetaState) : checked (outcome c) * InMemoryMetaState :=
  evaluate c (Ok tick) (with_partition_authority_now_unix_ms tick s).

(** * The store *)

Context `{Base64, ManifestReader, !SnapshotFormat, !ArrowStreams}.

Definition store (A : Type) : Type := prog InMemoryMetaState (checked A).

Definition cached_state (cached : option (bytes * InMemoryMetaState)) (root : bytes) : option InMemoryMetaState :=
  match cached with
  | Some (cached_root, s) => if bool_decide (cached_root = root) then Some s else None
  | None => None
  end.

(** The cache is looked at before and after the lock for full loads is taken. *)
Definition load_state : store (option bytes * InMemoryMetaState) :=
  current ←! map_error snapshot_error root;
  match current with
  | None =>
      _ ⇐ (CacheWrite None);
      Ret (Ok (None, default_state))
  | Some current =>
      cached ⇐ CacheRead;
      match cached_state cached current with
      | Some s => Ret (Ok (Some current, s))
      | None =>
          cached ⇐ CacheRead;
          match cached_state cached current with
          | Some s => Ret (Ok (Some current, s))
          | None =>
              loaded ←! map_error snapshot_error (load_at current);
              s ←! check (map_err codec_error (decode loaded.2));
              _ ⇐ (CacheWrite (Some (loaded.1, s)));
              Ret (Ok (Some loaded.1, s))
          end
      end
  end.

(** Reads do not change the state. *)
Definition read_eval {R} (read : checked Z -> meta R) : store R :=
  loaded ←! load_state;
  Ret (read (Ok (partition_authority_now_unix_ms loaded.2)) loaded.2).1.

Fixpoint mutate_attempts (attempts : nat) (c : command) : store (outcome c) :=
  match attempts with
  | O => Ret (Err (RhizaContention (Z.of_nat MAX_CAS_ATTEMPTS)))
  | Datatypes.S attempts =>
      loaded ←! load_state;
      tick ←! check (ok_or TimestampOverflow (next_tick loaded.2));
      let evaluated := evaluated_at c tick loaded.2 in
      out ←! check evaluated.1;
      encoded ←! check (map_err codec_error (encode evaluated.2));
      request_id ⇐ NewUuid;
      exchanged ←! map_error snapshot_error (compare_exchange loaded.1 encoded request_id);
      match exchanged with
      | Applied new_root =>
          _ ⇐ (CacheWrite (Some (new_root, evaluated.2)));
          Ret (Ok out)
      | Conflict =>
          _ ⇐ (CacheWrite None);
          mutate_attempts attempts c
      end
  end.

(** The mutating methods of the store. *)
Definition mutate_command (c : command) : store (outcome c) := mutate_attempts MAX_CAS_ATTEMPTS c.
End outcomes.
