(* ===== verification/RhizaDb.v ===== *)
(** What the replicated database promises about its calls, and the processes of the
    metadata service that make them.

    The database applies mutations one at a time. A mutation whose answer is an error,
    or never comes, may have been made, may still be made later, or may never be. A
    receipt that says [committed] or [rejected] tells the truth. Some error codes may
    say that the mutation is never made; which ones do is a parameter about which
    nothing is assumed. *)
From S2P Require Import Prelude BTree Json Digits ArrowState Segments ObjectKey Hash Relation Serde JsonText StandingProgram MetaTypes SourceCut ViewBootstrap MetaRequests MetaStore MetaMachine SnapshotCodec RhizaKv RhizaSnapshot RhizaMeta.

(** * The database *)

(** The error codes with which the database says that a mutation was not made and never
    will be. *)
Class Refusals := { refuses : string -> bool }.

Inductive request_fate := Pending | Resolved (applied : bool) | Refused.
#[export] Instance request_fate_eq_dec : EqDecision request_fate.
Proof. solve_decision. Defined.

(** The log holds the request id, the key and the value of every mutation that was
    made, the oldest first. *)
Record database := Database {
  db_kv : gmap string bytes;
  db_requests : gmap string (CasRequest * request_fate);
  db_log : list (string * (string * bytes))
}.

Definition empty_database : database := Database ∅ ∅ [].

Section database.
Context `{Base64, Refusals}.

Definition cas_expects (q : CasRequest) : option bytes :=
  if cas_expected_exists q then b64_decode (cas_expected q) else None.

Definition set_fate (q : CasRequest) (fate : request_fate) (d : database) : database :=
  Database (db_kv d) (<[cas_request_id q := (q, fate)]> (db_requests d)) (db_log d).

(** A mutation that was received is decided. *)
Inductive decides (q : CasRequest) (d : database) : database -> Prop :=
| DecidesApplied value :
    b64_decode (cas_value q) = Some value -> db_kv d !! cas_key q = cas_expects q ->
    decides q d (Database (<[cas_key q := value]> (db_kv d))
      (<[cas_request_id q := (q, Resolved true)]> (db_requests d)) (db_log d ++ [(cas_request_id q, (cas_key q, value))]))
| DecidesUnchanged :
    db_kv d !! cas_key q <> cas_expects q -> decides q d (set_fate q (Resolved false) d)
| DecidesRefused : decides q d (set_fate q Refused d).

(** A receipt tells the truth about a request. *)
Definition truthful (recorded : option (CasRequest * request_fate)) (receipt : MutationReceipt) : Prop :=
  (rc_status receipt = Some "committed" ->
    exists q, recorded = Some (q, Resolved (bool_decide (rc_applied receipt = Some true)))) /\
  (rc_status receipt = Some "rejected" -> exists q, recorded = Some (q, Refused)).

(** The answer of [kv_get]. *)
Definition found_json (value : option bytes) : Value :=
  match value with
  | None => JObject [("found", JBool false)]
  | Some [] => JObject [("found", JBool true)]
  | Some value => JObject [("found", JBool true); ("value", JString (b64_encode value))]
  end.

(** [kv_cas]: a new request is recorded, and decided at once or later; a request whose
    id is known is not made again. *)
Inductive receives (q : CasRequest) (d : database) : reply MutationReceipt -> database -> Prop :=
| ReceivesNew r d' :
    db_requests d !! cas_request_id q = None ->
    d' = set_fate q Pending d \/ decides q d d' ->
    (forall receipt, r = Replied (Ok receipt) -> truthful (db_requests d' !! cas_request_id q) receipt) ->
    (forall e, r = Replied (Err e) -> refuses (db_code e) = true -> db_requests d' !! cas_request_id q = Some (q, Refused)) ->
    receives q d r d'
| ReceivesKnown r :
    is_Some (db_requests d !! cas_request_id q) ->
    (forall receipt, r = Replied (Ok receipt) -> truthful (db_requests d !! cas_request_id q) receipt) ->
    receives q d r d.
End database.

(** * The world of the processes *)

Section world.
Context `{Sha256, SerdeJson, RelationCodec, MetaEnv, Base64, Refusals, ManifestReader, !SnapshotFormat, !ArrowStreams}.

(** The database, the texts that were hashed, the request ids that were drawn with the
    command they are for, and the caches of the processes. *)
Record world := World {
  w_db : database;
  w_digests : list bytes;
  w_uuids : gmap string command;
  w_caches : gmap nat (bytes * InMemoryMetaState)
}.

Definition initial_world : world := World empty_database [] ∅ ∅.

Definition with_db (d : database) (w : world) : world := World d (w_digests w) (w_uuids w) (w_caches w).

(** A call of a process; a request id is drawn for a command. *)
Inductive serves (process : nat) (label : option command) (w : world) : forall c : call InMemoryMetaState, answer c -> world -> Prop :=
| ServesGet key : serves process label w (KvGet key) (Replied (Ok (found_json (db_kv (w_db w) !! key)))) w
| ServesGetError key e : serves process label w (KvGet key) (Replied (Err e)) w
| ServesGetFailed key message : serves process label w (KvGet key) (TaskFailed message) w
| ServesCas q r d : receives q (w_db w) r d -> serves process label w (KvCas q) r (with_db d w)
| ServesStatus request_id r :
    (forall status receipt, r = Replied (Ok status) -> st_receipt status = Some receipt ->
      truthful (db_requests (w_db w) !! request_id) receipt) ->
    serves process label w (RequestStatusOf request_id) r w
| ServesDigest body :
    serves process label w (Digest body) (hex_digest body) (World (w_db w) (body :: w_digests w) (w_uuids w) (w_caches w))
| ServesUuid request_id c :
    label = Some c -> w_uuids w !! request_id = None -> String.length request_id = 36%nat ->
    serves process label w NewUuid request_id (World (w_db w) (w_digests w) (<[request_id := c]> (w_uuids w)) (w_caches w))
| ServesCacheRead : serves process label w CacheRead (w_caches w !! process) w
| ServesCacheWrite entry :
    serves process label w (CacheWrite entry) tt
      (World (w_db w) (w_digests w) (w_uuids w) (partial_alter (fun _ => entry) process (w_caches w))).

(** A mutation that was received earlier is decided. *)
Inductive settles (w : world) : world -> Prop :=
| Settles request_id q d :
    db_requests (w_db w) !! request_id = Some (q, Pending) -> cas_request_id q = request_id -> decides q (w_db w) d ->
    settles w (with_db d w).

(** The roots that were published, with their request ids. *)
Definition root_log (d : database) : list (string * bytes) :=
  omap (fun '(request_id, (key, value)) => if bool_decide (key = ROOT_KEY) then Some (request_id, value) else None) (db_log d).

(** * Processes *)

(** A mutation in progress or answered: the ids it has drawn, and what had been
    published when it was called. *)
Record mutation := Mutation {
  m_process : nat;
  m_command : command;
  m_prog : store (outcome m_command);
  m_ids : list string;
  m_start : list (string * bytes)
}.

Record reading := Reading {
  r_process : nat;
  r_type : Type;
  r_read : checked Z -> meta r_type;
  r_prog : store r_type;
  r_start : list (string * bytes)
}.

Record system := System {
  s_world : world;
  s_mutations : gmap nat mutation;
  s_readings : gmap nat reading
}.

Definition initial_system : system := System initial_world ∅ ∅.

Definition drawn {c : call InMemoryMetaState} (r : answer c) (ids : list string) : list string :=
  match c return answer c -> list string with NewUuid => fun id => id :: ids | _ => fun _ => ids end r.

Definition forget (process : nat) (w : world) : world :=
  World (w_db w) (w_digests w) (w_uuids w) (delete process (w_caches w)).

(** One step: an operation is called, makes a call of its own, the database decides a
    mutation, or a process stops. *)
Inductive system_step (s : system) : system -> Prop :=
| StepMutate i process c :
    s_mutations s !! i = None ->
    system_step s (System (s_world s)
      (<[i := Mutation process c (mutate_command c) [] (root_log (w_db (s_world s)))]> (s_mutations s)) (s_readings s))
| StepRead i process (A : Type) (read : checked Z -> meta A) :
    s_readings s !! i = None ->
    system_step s (System (s_world s) (s_mutations s)
      (<[i := Reading process A read (read_eval read) (root_log (w_db (s_world s)))]> (s_readings s)))
| StepMutation i process cmd c k ids start r w :
    s_mutations s !! i = Some (Mutation process cmd (Call c k) ids start) ->
    serves process (Some cmd) (s_world s) c r w ->
    system_step s (System w (<[i := Mutation process cmd (k r) (drawn r ids) start]> (s_mutations s)) (s_readings s))
| StepReading i process (A : Type) (read : checked Z -> meta A) c k start r w :
    s_readings s !! i = Some (Reading process A read (Call c k) start) ->
    serves process None (s_world s) c r w ->
    system_step s (System w (s_mutations s) (<[i := Reading process A read (k r) start]> (s_readings s)))
| StepSettle w : settles (s_world s) w -> system_step s (System w (s_mutations s) (s_readings s))
| StepCrash process :
    system_step s (System (forget process (s_world s))
      (filter (fun t => m_process t.2 <> process) (s_mutations s))
      (filter (fun t => r_process t.2 <> process) (s_readings s))).

Definition running (s : system) : Prop := rtc system_step initial_system s.
End world.
