(* ===== verification/RhizaInvariant.v ===== *)
(** What holds of the database in every state of the system: the published roots are
    the snapshots of one history of commands, every request for the root continues a
    state of that history, and pages are stored under their digests.

    All of it holds unless two of the texts that were hashed collide. *)
From S2P Require Import Prelude BTree Json Digits ArrowState Segments ObjectKey Hash Relation Serde JsonText StandingProgram MetaTypes SourceCut ViewBootstrap MetaRequests MetaStore MetaMachine SnapshotCodec RhizaKv RhizaSnapshot RhizaMeta RhizaDb.

Section invariant.
Context `{Sha256Laws, SerdeJson, RelationCodec, MetaEnv, Base64Laws, Refusals, !ManifestReader, !ManifestReaderLaws, !SnapshotFormat, !SnapshotFormatLaws, !ArrowStreams, !ArrowStreamsLaws}.

(** * Collisions *)

(** Two texts that were hashed collide. *)
Definition collided (w : world) : Prop := exists a b, a ∈ w_digests w /\ b ∈ w_digests w /\ collide a b.

Lemma hex_digest_eq w a b :
  a ∈ w_digests w -> b ∈ w_digests w -> hex_digest a = hex_digest b -> collided w \/ a = b.
Proof.
  intros Ha Hb Heq. destruct (sha256_text_eq a b) as [|Hc]; [unfold sha256_text; unfold hex_digest in Heq; by rewrite Heq|by right|].
  left. by exists a, b.
Qed.

Lemma hex_digest_length a : String.length (hex_digest a) = 64%nat.
Proof.
  pose proof (sha256_text_shape a) as Hs. unfold is_sha256_text, sha256_text in Hs.
  rewrite (proj2 (strip_prefix_some _ _ _) eq_refl) in Hs. apply andb_true_iff in Hs as [Hl _]. by apply Nat.eqb_eq.
Qed.

(** * Keys *)

Lemma page_key_root h : page_key h <> ROOT_KEY.
Proof. unfold page_key, ROOT_KEY. discriminate. Qed.
Lemma page_key_inj h h' : page_key h = page_key h' -> h = h'.
Proof. unfold page_key. apply (inj (String.append "velorix/snapshot/page/")). Qed.

Definition stored (w : world) (h : string) (b : bytes) : Prop := db_kv (w_db w) !! page_key h = Some b.

(** * Snapshots and histories *)

Definition page_size : nat := Z.to_nat PAGE_BYTES.
Definition manifest_of (generation : Z) (body : bytes) : Manifest :=
  SnapshotManifest 1 generation (hex_digest <$> chunks page_size body) (Z.of_nat (length body)) (hex_digest body).
Definition root_text (generation : Z) (body : bytes) : bytes := to_vec (manifest_json (manifest_of generation body)).

(** The root [r] is the snapshot of the state [s]. *)
Definition describes (w : world) (r : option bytes) (generation : Z) (s : InMemoryMetaState) : Prop :=
  match r with
  | None => generation = 0 /\ s = default_state
  | Some r => exists body, encode s = Ok body /\ r = root_text generation body /\ 1 <= generation <= u64_max /\
      Z.of_nat (length body) <= MAX_SNAPSHOT_BYTES /\ body ∈ w_digests w /\
      (forall chunk, chunk ∈ chunks page_size body -> stored w (hex_digest chunk) chunk)
  end.

(** The command takes the state to the next one. *)
Definition moves (c : command) (out : outcome c) (s s' : InMemoryMetaState) : Prop :=
  exists tick, next_tick s = Some tick /\ evaluated_at c tick s = (Ok out, s').

(** The published roots, with what they are snapshots of: every one is made from the one
    before by the command its request id was drawn for. *)
Inductive history (w : world) : list (string * bytes) -> option bytes -> Z -> InMemoryMetaState -> Prop :=
| HistoryStart : history w [] None 0 default_state
| HistoryNext l r generation s id v c out s' :
    history w l r generation s -> w_uuids w !! id = Some c -> moves c out s s' ->
    describes w (Some v) (generation + 1) s' ->
    history w (l ++ [(id, v)]) (Some v) (generation + 1) s'.

Lemma history_describes w l r g s : history w l r g s -> describes w r g s.
Proof. by destruct 1. Qed.

Lemma moves_steps c out s s' : moves c out s s' -> meta_steps s s'.
Proof.
  intros (tick & _ & He). eapply rtc_l; [apply (StepTick _ tick)|]. eapply rtc_l; [apply (StepCommand _ (Ok tick) c)|].
  rewrite <-evaluate_perform. unfold evaluated_at in He. rewrite He. apply rtc_refl.
Qed.

(** Every published state is a state the service can reach. *)
Lemma history_reachable w l r g s : history w l r g s -> reachable s.
Proof. induction 1 as [|? ? ? ? ? ? ? ? ? _ IH _ Hm _]; [apply rtc_refl|]. eapply reachable_steps; [done|by eapply moves_steps]. Qed.

Lemma typed_manifest_of g body : 1 <= g <= u64_max -> Z.of_nat (length body) <= MAX_SNAPSHOT_BYTES -> typed_manifest (manifest_of g body).
Proof.
  intros Hg Hl. unfold typed_manifest. cbn. assert (MAX_SNAPSHOT_BYTES <= u64_max) by (by vm_compute).
  assert (1 <= u32_max) by (by vm_compute). lia.
Qed.

Lemma root_text_read g body : 1 <= g <= u64_max -> Z.of_nat (length body) <= MAX_SNAPSHOT_BYTES ->
  manifest_from_slice (root_text g body) = Some (manifest_of g body).
Proof. intros Hg Hl. apply manifest_round_trip. by apply typed_manifest_of. Qed.

(** A root is the snapshot of one state. *)
Lemma describes_unique w r g s g' s' :
  describes w r g s -> describes w r g' s' -> collided w \/ (g = g' /\ s = s').
Proof.
  destruct r as [r|]; [|intros [-> ->] [-> ->]; by right].
  intros (body & He & Hr & Hg & Hl & Hd & _) (body' & He' & Hr' & Hg' & Hl' & Hd' & _).
  pose proof (root_text_read g body Hg Hl) as E. rewrite <-Hr, Hr', root_text_read in E by done.
  injection E as Eg _ _ Ec. destruct (hex_digest_eq w body' body) as [|<-]; [done|done|done|by left|].
  right. split; [done|]. by eapply encode_inj.
Qed.

Lemma history_unique w l r g s l' g' s' :
  history w l r g s -> history w l' r g' s' -> collided w \/ (g = g' /\ s = s').
Proof. intros Hh Hh'. eapply describes_unique; by eapply history_describes. Qed.

(** * What grows *)

Definition grows (w w' : world) : Prop :=
  (forall b, b ∈ w_digests w -> b ∈ w_digests w') /\
  w_uuids w ⊆ w_uuids w' /\
  root_log (w_db w) `prefix_of` root_log (w_db w') /\
  (forall h b, stored w h b -> stored w' h b).

#[export] Instance grows_preorder : PreOrder grows.
Proof.
  split; [intros w; by split_and!|]. intros w1 w2 w3 (? & ? & ? & ?) (? & ? & ? & ?).
  split_and!; [auto|by etransitivity|by etransitivity|auto].
Qed.

Lemma collided_grows w w' : grows w w' -> collided w -> collided w'.
Proof. intros (Hd & _) (a & b & ? & ? & ?). exists a, b. auto. Qed.

Lemma describes_grows w w' r g s : grows w w' -> describes w r g s -> describes w' r g s.
Proof.
  intros (Hd & _ & _ & Hs). destruct r as [r|]; [|done]. intros (body & ? & ? & ? & ? & ? & Hp).
  exists body. split_and!; try done; [lia|lia|auto|]. intros chunk Hc. by apply Hs, Hp.
Qed.

Lemma history_grows w w' l r g s : grows w w' -> history w l r g s -> history w' l r g s.
Proof.
  intros Hg. induction 1 as [|l r g s id v c out s' _ IH Hu Hm Hd]; [constructor|]. econstructor; [done| |done|by eapply describes_grows].
  destruct Hg as (_ & Hsub & _). by eapply lookup_weaken.
Qed.

(** * Requests *)

(** The text whose digest is the request id of a page. *)
Definition page_text (request_id hash : string) : bytes := as_bytes ("page:" +:+ request_id +:+ ":" +:+ hash).

(** A request that stores a page. *)
Definition page_request (w : world) (q : CasRequest) : Prop :=
  cas_expected_exists q = false /\
  exists id b, cas_key q = page_key (hex_digest b) /\ b64_decode (cas_value q) = Some b /\ b ∈ w_digests w /\
    cas_request_id q = hex_digest (page_text id (hex_digest b)) /\ page_text id (hex_digest b) ∈ w_digests w.

(** A request is for the root, under an id that was drawn, or stores a page. *)
Definition request_wf (w : world) (q : CasRequest) : Prop :=
  (cas_key q = ROOT_KEY /\ is_Some (w_uuids w !! cas_request_id q)) \/ page_request w q.

(** A request for the root continues a state of the service. *)
Definition root_sound (w : world) (q : CasRequest) : Prop :=
  exists c g s out s' v, w_uuids w !! cas_request_id q = Some c /\ describes w (cas_expects q) g s /\ moves c out s s' /\
    b64_decode (cas_value q) = Some v /\ describes w (Some v) (g + 1) s'.

Lemma page_request_grows w w' q : grows w w' -> page_request w q -> page_request w' q.
Proof. intros (Hd & _) (He & id & b & ? & ? & ? & ? & ?). split; [done|]. exists id, b. split_and!; auto. Qed.
Lemma request_wf_grows w w' q : grows w w' -> request_wf w q -> request_wf w' q.
Proof.
  intros Hg [[Hk [c Hc]]|Hp]; [left|right; by eapply page_request_grows]. split; [done|]. exists c.
  destruct Hg as (_ & Hsub & _). by eapply lookup_weaken.
Qed.
Lemma root_sound_grows w w' q : grows w w' -> root_sound w q -> root_sound w' q.
Proof.
  intros Hg (c & g & s & out & s' & v & Hu & Hd & Hm & Hv & Hd'). exists c, g, s, out, s', v.
  split_and!; try done; [|by eapply describes_grows|by eapply describes_grows]. destruct Hg as (_ & Hsub & _). by eapply lookup_weaken.
Qed.

(** * The invariant *)

(** What holds whether or not texts collide. *)
Record well_formed (w : world) : Prop := {
  wf_uuids id c : w_uuids w !! id = Some c -> String.length id = 36%nat;
  wf_requests id q fate : db_requests (w_db w) !! id = Some (q, fate) -> cas_request_id q = id /\ request_wf w q;
  wf_log id key v : (id, (key, v)) ∈ db_log (w_db w) ->
    exists q, db_requests (w_db w) !! id = Some (q, Resolved true) /\ cas_key q = key /\ b64_decode (cas_value q) = Some v;
  wf_once : NoDup (db_log (w_db w)).*1;
  wf_pages h b : stored w h b -> hex_digest b = h /\ b ∈ w_digests w;
  wf_stored id q h : db_requests (w_db w) !! id = Some (q, Resolved true) -> cas_key q = page_key h ->
    exists b, b64_decode (cas_value q) = Some b /\ stored w h b
}.

(** What else holds unless texts collide. *)
Record sound (w : world) : Prop := {
  sound_history : exists g s, history w (root_log (w_db w)) (db_kv (w_db w) !! ROOT_KEY) g s;
  sound_requests id q fate : db_requests (w_db w) !! id = Some (q, fate) -> cas_key q = ROOT_KEY -> root_sound w q;
  sound_applied id q : db_requests (w_db w) !! id = Some (q, Resolved true) -> cas_key q = ROOT_KEY ->
    exists l v g s, l ++ [(id, v)] `prefix_of` root_log (w_db w) /\ b64_decode (cas_value q) = Some v /\
      history w l (cas_expects q) g s;
  sound_caches process r s : w_caches w !! process = Some (r, s) -> exists g, describes w (Some r) g s
}.

Definition inv (w : world) : Prop := well_formed w /\ (collided w \/ sound w).

Lemma inv_initial : inv initial_world.
Proof.
  split; [|right]; split; try (by intros; simplify_map_eq); cbn.
  - intros ? ? ? []%not_elem_of_nil.
  - constructor.
  - exists 0, default_state. rewrite lookup_empty. constructor.
Qed.

(** Steps that leave the database alone. *)
Lemma inv_same_db w w' : w_db w' = w_db w -> grows w w' ->
  (forall id c, w_uuids w' !! id = Some c -> String.length id = 36%nat) ->
  (collided w' \/ forall process r s, w_caches w' !! process = Some (r, s) -> exists g, describes w' (Some r) g s) ->
  inv w -> inv w'.
Proof.
  intros Hdb Hg Hu Hc [[_ Hreq Hlog Honce Hpages Hst] Hs]. split.
  - split; rewrite ?Hdb; [done| |done|done| |].
    + intros id q fate Hq. destruct (Hreq id q fate Hq). split; [done|]. by eapply request_wf_grows.
    + intros h b. unfold stored. rewrite Hdb. intros Hb. destruct (Hpages h b Hb). split; [done|]. by apply Hg.
    + intros id q h Hq Hk. destruct (Hst id q h Hq Hk) as (b & ? & ?). exists b. split; [done|]. by apply Hg.
  - destruct Hs as [Hs|[Hh Hrs Ha _]]; [left; by eapply collided_grows|]. destruct Hc as [Hc|Hc]; [by left|right].
    split; rewrite ?Hdb; [| | |done].
    + destruct Hh as (g & s & Hh). exists g, s. by eapply history_grows.
    + intros id q fate Hq Hk. eapply root_sound_grows; [done|by eapply Hrs].
    + intros id q Hq Hk. destruct (Ha id q Hq Hk) as (l & v & g & s & ? & ? & ?). exists l, v, g, s.
      split_and!; [done|done|by eapply history_grows].
Qed.

(** ** Requests are recorded and decided *)

(** A request that is to be recorded. *)
Definition admissible (w : world) (q : CasRequest) : Prop :=
  request_wf w q /\ (collided w \/ (cas_key q = ROOT_KEY -> root_sound w q)) /\
  (db_requests (w_db w) !! cas_request_id q = None \/ db_requests (w_db w) !! cas_request_id q = Some (q, Pending)).

Definition only_request (q : CasRequest) (d d' : database) : Prop :=
  forall id, id <> cas_request_id q -> db_requests d' !! id = db_requests d !! id.

(** A request that is not in the log yet. *)
Lemma admissible_fresh w q key v : well_formed w -> admissible w q -> (cas_request_id q, (key, v)) ∉ db_log (w_db w).
Proof. intros Hwf (_ & _ & Hn) Hin. destruct (wf_log w Hwf _ _ _ Hin) as (q' & Hq' & _). destruct Hn as [E|E]; rewrite E in Hq'; congruence. Qed.

(** The fate of a request changes and nothing is written. *)
Lemma set_fate_inv w q fate : fate <> Resolved true -> inv w -> admissible w q ->
  inv (with_db (set_fate q fate (w_db w)) w) /\ grows w (with_db (set_fate q fate (w_db w)) w).
Proof.
  intros Hfate [Hwf Hs] Hadm. set (w' := with_db _ w). assert (Hg : grows w w') by (by split_and!). split; [|done].
  destruct Hadm as (Hqwf & Hqs & Hn).
  assert (Hlook : forall id q' f, db_requests (w_db w') !! id = Some (q', f) ->
    (id = cas_request_id q /\ q' = q /\ f = fate) \/ db_requests (w_db w) !! id = Some (q', f)).
  { intros id q' f Hq. cbn in Hq. apply lookup_insert_Some in Hq as [[<- [= <- <-]]|[_ ?]]; [by left|by right]. }
  destruct Hwf as [Hu Hreq Hlog Honce Hpages Hst]. split.
  - split; [done| | |done|done|].
    + intros id q' f [(-> & -> & ->)|Hq]%Hlook; [split; [done|by eapply request_wf_grows]|].
      destruct (Hreq _ _ _ Hq). split; [done|]. by eapply request_wf_grows.
    + intros id key v Hin. destruct (Hlog _ _ _ Hin) as (q' & Hq' & ? & ?). exists q'. split_and!; [|done|done].
      cbn. rewrite lookup_insert_ne; [done|]. intros <-. destruct Hn as [E|E]; rewrite E in Hq'; congruence.
    + intros id q' h [(-> & -> & E)|Hq]%Hlook Hk; [congruence|by eapply Hst].
  - destruct Hs as [|[Hh Hrs Ha Hc]]; [by left|]. destruct Hqs as [|Hqs]; [by left|right]. split.
    + destruct Hh as (g & s & Hh). exists g, s. by eapply history_grows.
    + intros id q' f [(-> & -> & ->)|Hq]%Hlook Hk; (eapply root_sound_grows; [done|]); [by apply Hqs|by eapply Hrs].
    + intros id q' [(-> & -> & E)|Hq]%Hlook Hk; [congruence|].
      destruct (Ha _ _ Hq Hk) as (l & v & g & s & ? & ? & ?). exists l, v, g, s. split_and!; [done|done|by eapply history_grows].
    + intros process r s Hcs. destruct (Hc _ _ _ Hcs) as [g Hd]. exists g. by eapply describes_grows.
Qed.

(** The world after a mutation was made. *)
Definition applied_world (q : CasRequest) (v : bytes) (w : world) : world :=
  with_db (Database (<[cas_key q := v]> (db_kv (w_db w))) (<[cas_request_id q := (q, Resolved true)]> (db_requests (w_db w)))
    (db_log (w_db w) ++ [(cas_request_id q, (cas_key q, v))])) w.

Lemma root_log_applied q v w :
  root_log (w_db (applied_world q v w)) =
    root_log (w_db w) ++ (if bool_decide (cas_key q = ROOT_KEY) then [(cas_request_id q, v)] else []).
Proof. unfold root_log. cbn. rewrite omap_app. cbn. by case_bool_decide. Qed.

Lemma applied_grows w q v : request_wf w q -> db_kv (w_db w) !! cas_key q = cas_expects q -> grows w (applied_world q v w).
Proof.
  intros Hq Hk. split_and!; [done|done| |].
  - rewrite root_log_applied. by apply prefix_app_r.
  - intros h b Hb. unfold stored in *. cbn. destruct Hq as [[Hroot _]|(He & _)].
    + rewrite Hroot, lookup_insert_ne; [done|]. intros E. symmetry in E. by apply page_key_root in E.
    + rewrite lookup_insert_ne; [done|]. intros E. unfold cas_expects in Hk. rewrite He, E, Hb in Hk. done.
Qed.

Lemma lookup_applied q v w id q' f : db_requests (w_db (applied_world q v w)) !! id = Some (q', f) ->
  (id = cas_request_id q /\ q' = q /\ f = Resolved true) \/ (id <> cas_request_id q /\ db_requests (w_db w) !! id = Some (q', f)).
Proof. cbn. intros Hq. apply lookup_insert_Some in Hq as [[<- [= <- <-]]|[? ?]]; [by left|right; by split; [congruence|]]. Qed.

Lemma applied_well_formed w q v :
  well_formed w -> admissible w q -> b64_decode (cas_value q) = Some v -> db_kv (w_db w) !! cas_key q = cas_expects q ->
  well_formed (applied_world q v w).
Proof.
  intros Hwf Hadm Hv Hk. pose proof (fun key v => admissible_fresh w q key v Hwf Hadm) as Hfresh.
  destruct Hadm as (Hqwf & _ & Hn). pose proof (applied_grows w q v Hqwf Hk) as Hg.
  destruct Hwf as [Hu Hreq Hlog Honce Hpages Hst]. split; [done| | | | |].
  - intros id q' f [(-> & -> & ->)|[_ Hq]]%lookup_applied; [split; [done|by eapply request_wf_grows]|].
    destruct (Hreq _ _ _ Hq). split; [done|]. by eapply request_wf_grows.
  - intros id key v' [Hin|[= -> -> ->]%list_elem_of_singleton]%elem_of_app.
    + destruct (Hlog _ _ _ Hin) as (q' & Hq' & ? & ?). exists q'. split_and!; [|done|done]. cbn. rewrite lookup_insert_ne; [done|].
      intros <-. by apply Hfresh in Hin.
    + exists q. split_and!; [|done|done]. cbn. by rewrite lookup_insert_eq.
  - cbn. rewrite fmap_app. apply NoDup_app. split_and!; [done| |cbn; apply NoDup_singleton].
    intros id ([id' [key v']] & -> & Hin)%list_elem_of_fmap E%list_elem_of_singleton. cbn in E. subst id'. by apply Hfresh in Hin.
  - intros h b Hb. unfold stored in Hb. cbn in Hb. apply lookup_insert_Some in Hb as [[Hkey <-]|[_ Hb]]; [|by apply Hpages].
    destruct Hqwf as [[Hroot _]|(_ & id & b & Hkb & Hvb & Hd & _)].
    + rewrite Hroot in Hkey. symmetry in Hkey. by apply page_key_root in Hkey.
    + rewrite Hvb in Hv. injection Hv as ->. rewrite Hkb in Hkey. by apply page_key_inj in Hkey as ->.
  - intros id q' h [(-> & -> & _)|[_ Hq]]%lookup_applied Hkey.
    + exists v. split; [done|]. unfold stored. cbn. by rewrite Hkey, lookup_insert_eq.
    + destruct (Hst _ _ _ Hq Hkey) as (b & ? & ?). exists b. split; [done|]. by apply Hg.
Qed.

(** The history after a mutation was made. *)
Lemma applied_history w q v g s :
  request_wf w q -> (cas_key q = ROOT_KEY -> root_sound w q) -> b64_decode (cas_value q) = Some v ->
  db_kv (w_db w) !! cas_key q = cas_expects q -> history w (root_log (w_db w)) (db_kv (w_db w) !! ROOT_KEY) g s ->
  collided w \/ exists g' s', history (applied_world q v w) (root_log (w_db (applied_world q v w)))
    (db_kv (w_db (applied_world q v w)) !! ROOT_KEY) g' s'.
Proof.
  intros Hqwf Hqs Hv Hk Hh. pose proof (applied_grows w q v Hqwf Hk) as Hg. rewrite root_log_applied. cbn.
  destruct Hqwf as [[Hroot _]|(_ & id & b & Hkb & _)].
  - rewrite bool_decide_eq_true_2 by done. destruct (Hqs Hroot) as (c & g0 & s0 & out & s' & v' & Hu & Hd & Hm & Hv' & Hd').
    rewrite Hv in Hv'. injection Hv' as <-. rewrite Hroot in Hk |- *. rewrite Hk in Hh.
    destruct (describes_unique _ _ _ _ _ _ (history_describes _ _ _ _ _ Hh) Hd) as [|[-> ->]]; [by left|right].
    exists (g0 + 1), s'. rewrite lookup_insert_eq. econstructor; [by eapply history_grows|done|done|by eapply describes_grows].
  - right. exists g, s. rewrite Hkb, bool_decide_eq_false_2, app_nil_r by apply page_key_root.
    rewrite lookup_insert_ne by apply page_key_root. by eapply history_grows.
Qed.

Lemma applied_inv w q v :
  inv w -> admissible w q -> b64_decode (cas_value q) = Some v -> db_kv (w_db w) !! cas_key q = cas_expects q ->
  inv (applied_world q v w) /\ grows w (applied_world q v w).
Proof.
  intros [Hwf Hs] Hadm Hv Hk. pose proof (applied_well_formed w q v Hwf Hadm Hv Hk) as Hwf'.
  destruct Hadm as (Hqwf & Hqs & _). pose proof (applied_grows w q v Hqwf Hk) as Hg. split; [|done]. split; [done|].
  destruct Hs as [|[(g & s & Hh) Hrs Ha Hc]]; [by left|]. destruct Hqs as [|Hqs]; [by left|].
  destruct (applied_history w q v g s Hqwf Hqs Hv Hk Hh) as [|Hh']; [by left|right]. split; [done| | |].
  - intros id q' f [(-> & -> & _)|[_ Hq]]%lookup_applied Hkey; (eapply root_sound_grows; [done|]); [by apply Hqs|by eapply Hrs].
  - intros id q' [(-> & -> & _)|[_ Hq]]%lookup_applied Hkey.
    + exists (root_log (w_db w)), v, g, s. rewrite root_log_applied, bool_decide_eq_true_2 by done. split_and!; [done|done|].
      rewrite <-Hk, Hkey. by eapply history_grows.
    + destruct (Ha _ _ Hq Hkey) as (l & v' & g' & s' & Hl & ? & ?). exists l, v', g', s'.
      split_and!; [|done|by eapply history_grows]. etransitivity; [exact Hl|apply Hg].
  - intros process r s' Hcs. destruct (Hc _ _ _ Hcs) as [g' Hd]. exists g'. by eapply describes_grows.
Qed.

Lemma decides_inv w q d :
  inv w -> admissible w q -> decides q (w_db w) d ->
  inv (with_db d w) /\ grows w (with_db d w) /\ only_request q (w_db w) d.
Proof.
  intros Hinv Hadm Hd. destruct Hd as [v Hv Hk|Hk|].
  - destruct (applied_inv w q v Hinv Hadm Hv Hk) as [? ?]. split_and!; [done|done|]. intros id Hid. cbn. by rewrite lookup_insert_ne.
  - destruct (set_fate_inv w q (Resolved false)) as [? ?]; [done..|]. split_and!; [done|done|]. intros id Hid. cbn. by rewrite lookup_insert_ne.
  - destruct (set_fate_inv w q Refused) as [? ?]; [done..|]. split_and!; [done|done|]. intros id Hid. cbn. by rewrite lookup_insert_ne.
Qed.

Lemma receives_inv w q r d :
  inv w -> request_wf w q -> (collided w \/ (cas_key q = ROOT_KEY -> root_sound w q)) -> receives q (w_db w) r d ->
  inv (with_db d w) /\ grows w (with_db d w) /\ only_request q (w_db w) d.
Proof.
  intros Hinv Hq Hs Hr. destruct Hr as [r d Hn Hd _ _|r _ _]; [|by destruct w].
  assert (Hadm : admissible w q) by (split_and!; [done|done|by left]).
  destruct Hd as [->|Hd]; [|by apply decides_inv]. destruct (set_fate_inv w q Pending) as [? ?]; [done..|].
  split_and!; [done|done|]. intros id Hid. cbn. by rewrite lookup_insert_ne.
Qed.

Lemma settles_inv w w' : inv w -> settles w w' ->
  inv w' /\ grows w w' /\ exists q, db_requests (w_db w) !! cas_request_id q = Some (q, Pending) /\
    only_request q (w_db w) (w_db w') /\ exists fate, db_requests (w_db w') !! cas_request_id q = Some (q, fate).
Proof.
  intros Hinv Hst. destruct Hst as [id q d Hq <- Hd].
  destruct (decides_inv w q d) as (? & ? & ?); [done| |done|].
  - destruct Hinv as [Hwf Hs]. destruct (wf_requests w Hwf _ _ _ Hq) as [_ ?]. split_and!; [done| |by right].
    destruct Hs as [|Hs]; [by left|right]. intros Hk. by eapply sound_requests.
  - split_and!; [done|done|]. exists q. split_and!; [done|done|]. destruct Hd; eexists; cbn; by rewrite lookup_insert_eq.
Qed.
End invariant.
