(* ===== verification/RhizaPrograms.v ===== *)
(** What an operation of the metadata service guarantees while others run: the
    interference it tolerates, the steps it takes, and what its answer says. *)
From S2P Require Import Prelude BTree Json Digits ArrowState Segments ObjectKey Hash Relation ObjectKeyProofs Serde JsonText StandingProgram MetaTypes SourceCut ViewBootstrap MetaRequests MetaStore MetaMachine SnapshotCodec RhizaKv RhizaSnapshot RhizaMeta RhizaDb RhizaInvariant.

Section programs.
Context `{Sha256Laws, SerdeJson, RelationCodec, MetaEnv, Base64Laws, Refusals, !ManifestReader, !ManifestReaderLaws, !SnapshotFormat, !SnapshotFormatLaws, !ArrowStreams, !ArrowStreamsLaws}.

(** * Interference *)

(** What others leave of a request of one's own. *)
Definition keeps (before after : option (CasRequest * request_fate)) : Prop :=
  match before with
  | Some (q, Pending) => exists fate, after = Some (q, fate)
  | _ => after = before
  end.

Lemma keeps_trans a b c : keeps a b -> keeps b c -> keeps a c.
Proof. destruct a as [[q []]|]; cbn; [intros [f ->]; destruct f; cbn; [done|..]; intros ->; by eexists|intros ->; done..]. Qed.

(** Steps of others. *)
Definition rely (ids : list string) (w w' : world) : Prop :=
  inv w' /\ grows w w' /\ forall id, id ∈ ids -> keeps (db_requests (w_db w) !! id) (db_requests (w_db w') !! id).

(** A step of one's own leaves the requests of others alone. *)
Definition guarantees (ids : list string) (w w' : world) : Prop :=
  inv w' /\ grows w w' /\
  forall id, is_Some (w_uuids w !! id) -> id ∉ ids -> db_requests (w_db w') !! id = db_requests (w_db w) !! id.

Lemma rely_trans ids w1 w2 w3 : rely ids w1 w2 -> rely ids w2 w3 -> rely ids w1 w3.
Proof.
  intros (_ & Hg & Hk) (? & Hg' & Hk'). split_and!; [done|by etransitivity|]. intros id Hid. eapply keeps_trans; eauto.
Qed.
Lemma rely_refl ids w : inv w -> rely ids w w.
Proof. intros Hw. split_and!; [done|done|]. intros id _. destruct (db_requests (w_db w) !! id) as [[q []]|]; cbn; by eauto. Qed.
Lemma rely_weaken ids ids' w w' : ids ⊆ ids' -> rely ids' w w' -> rely ids w w'.
Proof. intros Hsub (? & ? & Hk). split_and!; [done|done|]. intros id Hid. by apply Hk, Hsub. Qed.

(** * Weakest preconditions *)

Section wp.
Context (process : nat) (label : option command).

Fixpoint wp {A} (p : prog InMemoryMetaState A) (post : list string -> A -> world -> Prop) (ids : list string) (w : world) : Prop :=
  match p with
  | Ret a => post ids a w
  | Call c k => forall w1, rely ids w w1 -> forall r w2, serves process label w1 c r w2 ->
      guarantees ids w1 w2 /\ wp (k r) post (drawn r ids) w2
  end.

Definition stable {A} (post : list string -> A -> world -> Prop) : Prop :=
  forall ids a w w', rely ids w w' -> post ids a w -> post ids a w'.

Lemma wp_prog_stable {A} (p : prog InMemoryMetaState A) post ids w w' : stable post -> rely ids w w' -> wp p post ids w -> wp p post ids w'.
Proof.
  intros Hst Hr. destruct p as [a|c k]; cbn; [by apply Hst|]. intros Hwp w1 Hr1. apply Hwp. by eapply rely_trans.
Qed.

Lemma wp_prog_mono {A} (p : prog InMemoryMetaState A) (post post' : list string -> A -> world -> Prop) ids w :
  (forall ids' a w', post ids' a w' -> post' ids' a w') -> wp p post ids w -> wp p post' ids w.
Proof.
  intros Hp. revert ids w. induction p as [a|c k IH]; intros ids w; cbn; [apply Hp|]. intros Hwp w1 Hr r w2 Hs.
  destruct (Hwp w1 Hr r w2 Hs) as [Hg Hk]. split; [done|by apply IH].
Qed.

Lemma wp_prog_bind {A B} (p : prog InMemoryMetaState A) (f : A -> prog InMemoryMetaState B) post ids w :
  wp p (fun ids' a => wp (f a) post ids') ids w -> wp (bind p f) post ids w.
Proof.
  revert ids w. induction p as [a|c k IH]; intros ids w; cbn; [done|]. intros Hwp w1 Hr r w2 Hs.
  destruct (Hwp w1 Hr r w2 Hs) as [Hg Hk]. split; [done|by apply IH].
Qed.

Lemma wp_prog_then {E A B} (p : prog InMemoryMetaState (result E A)) (f : A -> prog InMemoryMetaState (result E B)) post ids w :
  wp p (fun ids' r w' => match r with Ok a => wp (f a) post ids' w' | Err e => post ids' (Err e) w' end) ids w ->
  wp (x ←! p; f x) post ids w.
Proof. intros Hp. apply wp_prog_bind. eapply wp_prog_mono; [|exact Hp]. by intros ids' [a|e] w'. Qed.

Lemma wp_map_error {E F A} (f : E -> F) (p : prog InMemoryMetaState (result E A)) post ids w :
  wp p (fun ids' r => post ids' (map_err f r)) ids w -> wp (map_error f p) post ids w.
Proof. intros Hp. apply wp_prog_bind. eapply wp_prog_mono; [|exact Hp]. done. Qed.

Lemma wp_check {E A B} (r : result E A) (f : A -> prog InMemoryMetaState (result E B)) post ids w :
  (forall e, r = Err e -> post ids (Err e) w) -> (forall a, r = Ok a -> wp (f a) post ids w) ->
  wp (x ←! check r; f x) post ids w.
Proof. intros He Ha. apply wp_prog_then. destruct r as [a|e]; [by apply Ha|by apply He]. Qed.

(** ** Calls *)

Lemma read_found_json v : read_found (found_json v) = Ok v.
Proof. destruct v as [[|b v]|]; [done| |done]. unfold found_json, read_found. cbn [get_field]. cbn. by rewrite b64_round_trip. Qed.

(** The answers to a call, by kind of call. *)
Definition served (w w' : world) (c : call InMemoryMetaState) : answer c -> Prop :=
  match c with
  | KvGet key => fun r => w' = w /\ (r = Replied (Ok (found_json (db_kv (w_db w) !! key))) \/ (exists e, r = Replied (Err e)) \/
      exists message, r = TaskFailed message)
  | KvCas q => fun r => exists d, w' = with_db d w /\ receives q (w_db w) r d
  | RequestStatusOf request_id => fun r => w' = w /\ forall status receipt, r = Replied (Ok status) ->
      st_receipt status = Some receipt -> truthful (db_requests (w_db w) !! request_id) receipt
  | Digest body => fun r => r = hex_digest body /\ w' = World (w_db w) (body :: w_digests w) (w_uuids w) (w_caches w)
  | NewUuid => fun r => exists c, label = Some c /\ w_uuids w !! r = None /\ String.length r = 36%nat /\
      w' = World (w_db w) (w_digests w) (<[r := c]> (w_uuids w)) (w_caches w)
  | CacheRead => fun r => r = w_caches w !! process /\ w' = w
  | CacheWrite entry => fun _ => w' = World (w_db w) (w_digests w) (w_uuids w) (partial_alter (fun _ => entry) process (w_caches w))
  end.

Lemma serves_served w c r w' : serves process label w c r w' -> served w w' c r.
Proof. intros Hs. destruct Hs; cbn; eauto 10. Qed.

Lemma guarantees_refl ids w : inv w -> guarantees ids w w.
Proof. intros Hw. by split_and!. Qed.

(** The caches after a step that keeps them. *)
Lemma caches_kept w w' : inv w -> grows w w' -> w_caches w' = w_caches w ->
  collided w' \/ forall i r s, w_caches w' !! i = Some (r, s) -> exists g, describes w' (Some r) g s.
Proof.
  intros [_ [Hc|Hs]] Hg Hcs; [left; by eapply collided_grows|right]. rewrite Hcs. intros i r s Hi.
  destruct (sound_caches _ Hs _ _ _ Hi) as [g Hd]. exists g. by eapply describes_grows.
Qed.

Lemma wp_get key post ids w :
  (forall w1, rely ids w w1 -> (forall e, post ids (Err e) w1) /\ post ids (Ok (db_kv (w_db w1) !! key)) w1) ->
  wp (get key) post ids w.
Proof.
  intros Hp w1 Hr r w2 (-> & Hr2)%serves_served. destruct (Hp w1 Hr) as [He Ho]. split; [by apply guarantees_refl, Hr|].
  destruct Hr2 as [->|[[e ->]|[m ->]]]; cbn; [by rewrite read_found_json|done|done].
Qed.

Lemma digest_step w body : inv w ->
  let w' := World (w_db w) (body :: w_digests w) (w_uuids w) (w_caches w) in inv w' /\ grows w w'.
Proof.
  intros Hw w'. assert (Hg : grows w w') by (split_and!; [by right|done|done|done]). split; [|done].
  apply (inv_same_db w); [done|done|apply Hw|by apply (caches_kept w)|done].
Qed.

Lemma wp_digest {A} body (k : string -> prog InMemoryMetaState A) post ids w :
  (forall w1, rely ids w w1 -> body ∈ w_digests w1 -> wp (k (hex_digest body)) post ids w1) ->
  wp (d ⇐ (Digest body); k d) post ids w.
Proof.
  intros Hk w1 (Hinv & Hg & Hids) r w2 (-> & ->)%serves_served. destruct (digest_step w1 body Hinv) as [Hi2 Hg2].
  split; [by split_and!|]. apply Hk; [|left]. split_and!; [done|by etransitivity|done].
Qed.

Lemma wp_cache_read {A} (k : option (bytes * InMemoryMetaState) -> prog InMemoryMetaState A) post ids w :
  (forall w1, rely ids w w1 -> forall cached, w_caches w1 !! process = cached -> wp (k cached) post ids w1) ->
  wp (x ⇐ CacheRead; k x) post ids w.
Proof.
  intros Hk w1 Hr r w2 (-> & ->)%serves_served. split; [by apply guarantees_refl, Hr|]. by apply Hk.
Qed.

Lemma wp_cache_write {A} entry (k : unit -> prog InMemoryMetaState A) post ids w :
  (forall r s, entry = Some (r, s) -> collided w \/ exists g, describes w (Some r) g s) ->
  (forall w1, rely ids w w1 -> wp (k tt) post ids w1) ->
  wp (x ⇐ (CacheWrite entry); k x) post ids w.
Proof.
  intros He Hk w1 Hr [] w2 ->%serves_served. set (w2 := World _ _ _ _). pose proof Hr as (Hinv & Hg & Hids).
  assert (Hg2 : grows w1 w2) by done. assert (Hgw : grows w w2) by by etransitivity. assert (Hi2 : inv w2).
  { apply (inv_same_db w1); [done|done|apply Hinv| |done]. pose proof (caches_kept w1 w1 Hinv ltac:(done) eq_refl) as [|Hold]; [by left|].
    destruct entry as [[r s]|].
    - destruct (He r s eq_refl) as [Hc|[g Hd]]; [left; by apply (collided_grows w)|right].
      intros i r' s'. cbn [w_caches w2]. destruct (decide (i = process)) as [->|Hne].
      + rewrite lookup_partial_alter_eq. intros [= <- <-]. exists g. by apply (describes_grows w).
      + rewrite lookup_partial_alter_ne by done. apply Hold.
    - right. intros i r' s'. cbn [w_caches w2]. destruct (decide (i = process)) as [->|Hne].
      + by rewrite lookup_partial_alter_eq.
      + rewrite lookup_partial_alter_ne by done. apply Hold. }
  split; [by split_and!|]. apply Hk. eapply rely_trans; [exact Hr|]. split_and!; [done|done|].
  intros id _. change (keeps (db_requests (w_db w1) !! id) (db_requests (w_db w1) !! id)). destruct (db_requests (w_db w1) !! id) as [[q []]|]; cbn; by eauto.
Qed.

(** * Loading *)

Lemma parse_manifest_read r m : parse_manifest r = Ok m -> manifest_from_slice r = Some m.
Proof.
  unfold parse_manifest. intros [_ E]%bind_unit_ok. apply bind_ok in E as (m' & Hm%ok_or_ok & E).
  apply bind_unit_ok in E as [_ E]. by apply bind_unit_ok in E as [_ [= ->]].
Qed.

Lemma wp_load_pages pages body ids w : inv w ->
  wp (load_pages pages body) (fun ids' _ w' => ids' = ids /\ rely ids w w') ids w.
Proof.
  revert body w. induction pages as [|hash pages IH]; intros body w Hw; [split; [done|by apply rely_refl]|]. cbn [load_pages].
  apply wp_prog_then, wp_map_error, wp_get. intros w1 Hr1. split; [done|]. cbn [map_err].
  apply wp_check; [done|]. intros page _. apply wp_digest. intros w2 Hr2 _. assert (Hr : rely ids w w2) by by eapply rely_trans.
  apply wp_check; [done|]. intros _ _. apply wp_check; [done|]. intros _ _.
  eapply wp_prog_mono; [|apply IH; apply Hr2]. intros ids' r w' [-> Hr']. split; [done|by eapply rely_trans].
Qed.

Lemma wp_load_at current ids w : inv w ->
  wp (load_at current) (fun ids' r w' => ids' = ids /\ rely ids w w' /\ forall loaded, r = Ok loaded ->
    loaded.1 = current /\ loaded.2 ∈ w_digests w' /\
    exists m, manifest_from_slice current = Some m /\ hex_digest loaded.2 = sm_content_digest m) ids w.
Proof.
  intros Hw. unfold load_at.
  assert (Hfail : forall (e : SnapshotError) w', rely ids w w' -> ids = ids /\ rely ids w w' /\ forall loaded, Err e = Ok loaded ->
    loaded.1 = current /\ loaded.2 ∈ w_digests w' /\ exists m, manifest_from_slice current = Some m /\ hex_digest loaded.2 = sm_content_digest m)
    by done.
  apply wp_check; [intros; by apply Hfail, rely_refl|]. intros m Hm.
  apply parse_manifest_read in Hm as Hread.
  apply wp_check; [intros; by apply Hfail, rely_refl|]. intros _ _.
  apply wp_check; [intros; by apply Hfail, rely_refl|]. intros _ _. apply wp_prog_then.
  eapply wp_prog_mono; [|by apply wp_load_pages]. intros ids' [body|e] w' [-> Hr]; [|by apply Hfail].
  case_match; [by apply Hfail|]. apply wp_digest. intros w2 Hr2 Hin. assert (Hr' : rely ids w w2) by by eapply rely_trans.
  apply wp_check; [intros; by apply Hfail|]. intros _ Hd%fail_if_ok%negb_false_iff%String.eqb_eq. split_and!; [done|done|].
  intros loaded [= <-]. split_and!; [done|done|]. by exists m.
Qed.

(** What is read from the root is the state of a moment of the call. *)
Definition loaded_state (start : list (string * bytes)) (w : world) (current : option bytes) (s : InMemoryMetaState) : Prop :=
  collided w \/ exists l g, start `prefix_of` l /\ l `prefix_of` root_log (w_db w) /\ history w l current g s.

Lemma loaded_grows start w w' current s : grows w w' -> loaded_state start w current s -> loaded_state start w' current s.
Proof.
  intros Hg [Hc|(l & g & Hs & Hl & Hh)]; [left; by eapply collided_grows|right]. exists l, g.
  split_and!; [done|etransitivity; [exact Hl|apply Hg]|by eapply history_grows].
Qed.

(** The root as it is now. *)
Lemma current_history w : inv w -> collided w \/ exists g s, history w (root_log (w_db w)) (db_kv (w_db w) !! ROOT_KEY) g s.
Proof. intros [_ [Hc|Hs]]; [by left|right]. apply Hs. Qed.

(** A state that is described by the root that was read. *)
Lemma loaded_described start w w' current s g :
  (collided w \/ exists g s, start `prefix_of` root_log (w_db w) /\ history w (root_log (w_db w)) current g s) ->
  grows w w' -> describes w' current g s -> loaded_state start w' current s.
Proof.
  intros [Hc|(g0 & s0 & Hst & Hh)] Hg Hd; [left; by eapply collided_grows|].
  assert (Hh' : history w' (root_log (w_db w)) current g0 s0) by by eapply history_grows.
  destruct (describes_unique _ _ _ _ _ _ (history_describes _ _ _ _ _ Hh') Hd) as [|[-> ->]]; [by left|right].
  exists (root_log (w_db w)), g. split_and!; [done|apply Hg|done].
Qed.

Lemma cached_described w root s : inv w -> cached_state (w_caches w !! process) root = Some s ->
  collided w \/ exists g, describes w (Some root) g s.
Proof.
  intros [_ [Hc|Hs]] E; [by left|right]. unfold cached_state in E. destruct (w_caches w !! process) as [[r s']|] eqn:Ec; [|done].
  case_bool_decide; [|done]. simplify_eq. by apply (sound_caches _ Hs process).
Qed.

Lemma decoded_described w root m body s g0 s0 :
  history w (root_log (w_db w)) (Some root) g0 s0 \/ describes w (Some root) g0 s0 ->
  body ∈ w_digests w -> manifest_from_slice root = Some m -> hex_digest body = sm_content_digest m -> decode body = Ok s ->
  collided w \/ describes w (Some root) g0 s.
Proof.
  intros Hd Hin Hm Hh Hs. assert (Hdesc : describes w (Some root) g0 s0) by (destruct Hd as [Hd|]; [by apply history_describes in Hd|done]).
  pose proof Hdesc as (body0 & He & -> & Hg & Hl & Hd0 & _). rewrite root_text_read in Hm by done. injection Hm as <-.
  destruct (hex_digest_eq w body body0) as [| ->]; [done..|by left|right]. apply snapshot_round_trip in He. rewrite He in Hs.
  injection Hs as <-. exact Hdesc.
Qed.

Lemma wp_load_state start ids w : inv w -> start `prefix_of` root_log (w_db w) ->
  wp load_state (fun ids' r w' => ids' = ids /\ rely ids w w' /\
    forall current s, r = Ok (current, s) -> loaded_state start w' current s) ids w.
Proof.
  intros Hw Hstart. unfold load_state, root. apply wp_prog_then, wp_map_error, wp_map_error, wp_get. intros w1 Hr1. split; [done|].
  cbn [map_err]. pose proof Hr1 as (Hinv1 & Hg1 & _).
  assert (Hnow : collided w1 \/ exists g s, start `prefix_of` root_log (w_db w1) /\
    history w1 (root_log (w_db w1)) (db_kv (w_db w1) !! ROOT_KEY) g s).
  { destruct (current_history w1 Hinv1) as [|(g & s & Hh)]; [by left|right]. exists g, s. split; [|done].
    etransitivity; [exact Hstart|apply Hg1]. }
  destruct (db_kv (w_db w1) !! ROOT_KEY) as [current|].
  2: { apply wp_cache_write; [done|]. intros w2 Hr2. split_and!; [done|by eapply rely_trans|]. intros ? ? [= <- <-].
       eapply (loaded_described start w1 w2 None default_state 0); [exact Hnow|apply Hr2|done]. }
  assert (Hhit : forall w2 s, rely ids w1 w2 -> cached_state (w_caches w2 !! process) current = Some s ->
    rely ids w w2 /\ loaded_state start w2 (Some current) s).
  { intros w2 s Hr2 Hcs. split; [by eapply rely_trans|].
    destruct (cached_described w2 current s) as [|[g Hd]]; [apply Hr2|done|by left|]. eapply loaded_described; [exact Hnow|apply Hr2|exact Hd]. }
  apply wp_cache_read. intros w2 Hr2 cached <-. destruct (cached_state _ current) as [s|] eqn:Ec.
  { destruct (Hhit w2 s Hr2 Ec). split_and!; [done|done|]. by intros ? ? [= <- <-]. }
  apply wp_cache_read. intros w3 Hr3 cached <-. assert (Hr13 : rely ids w1 w3) by by eapply rely_trans.
  destruct (cached_state (w_caches w3 !! process) current) as [s|] eqn:Ec3.
  { destruct (Hhit w3 s Hr13 Ec3). split_and!; [done|done|]. by intros ? ? [= <- <-]. }
  apply wp_prog_then, wp_map_error. eapply wp_prog_mono; [|apply wp_load_at, Hr3].
  intros ids' [[r body]|e] w4 (-> & Hr4 & Hl); cbn [map_err]; [|split_and!; [done|by do 2 (eapply rely_trans; [done|])|done]].
  assert (Hr14 : rely ids w1 w4) by by eapply rely_trans. assert (Hr04 : rely ids w w4) by by eapply rely_trans.
  destruct (Hl _ eq_refl) as (E & Hin & m & Hm & Hd). cbn [fst snd] in *. subst r.
  apply wp_check; [intros; by split_and!|]. intros s Hs. apply map_err_ok in Hs.
  assert (Hdesc : collided w4 \/ exists g, describes w4 (Some current) g s).
  { destruct Hnow as [Hc|(g0 & s0 & _ & Hh)]; [left; eapply collided_grows; [apply Hr14|done]|].
    destruct (decoded_described w4 current m body s g0 s0) as [|?]; [|done..|by left|by right; exists g0].
    right. eapply describes_grows; [apply Hr14|]. by eapply history_describes. }
  apply wp_cache_write; [intros ? ? [= <- <-]; exact Hdesc|]. intros w5 Hr5. split_and!; [done|by eapply rely_trans|].
  intros ? ? [= <- <-]. destruct Hdesc as [Hc|[g Hde]]; [left; eapply collided_grows; [apply Hr5|done]|].
  eapply (loaded_described start w1 w5); [exact Hnow|by eapply rely_trans|eapply describes_grows; [apply Hr5|exact Hde]].
Qed.

(** * Mutations *)

Lemma settle_ok id receipt b : settle id receipt = Ok b ->
  rc_status receipt = Some "committed" /\ b = bool_decide (rc_applied receipt = Some true).
Proof.
  unfold settle, validate_receipt. intros (u & Hu & [= <-])%bind_ok. split; [|done]. case_bool_decide; [done|].
  by case_bool_decide.
Qed.
Lemma settle_refused id receipt code message : settle id receipt = Err (Operation code message) -> rc_status receipt = Some "rejected".
Proof. unfold settle, validate_receipt. repeat case_bool_decide; by intros. Qed.

Lemma reconcile_ok id r b : reconcile id r = Ok b ->
  exists status receipt, r = Replied (Ok status) /\ st_receipt status = Some receipt /\ settle id receipt = Ok b.
Proof.
  unfold reconcile. destruct r as [[status|]|]; [|done..]. destruct (st_receipt status) as [receipt|] eqn:E; [|done].
  case_match; [by exists status, receipt|]. by case_match.
Qed.
Lemma reconcile_refused id r code message : reconcile id r = Err (Operation code message) ->
  exists status receipt, r = Replied (Ok status) /\ st_receipt status = Some receipt /\ rc_status receipt = Some "rejected".
Proof.
  unfold reconcile. destruct r as [[status|]|]; [|done..]. destruct (st_receipt status) as [receipt|] eqn:E; [|done].
  case_match eqn:E1; [intros Hs; exists status, receipt; split_and!; [done|done|by eapply settle_refused]|].
  case_match eqn:E2; [|done]. apply andb_true_iff in E2 as [_ E2%bool_decide_eq_true]. intros _. by exists status, receipt.
Qed.

(** Error codes that leave open whether a mutation is made: the state of the request is
    not asked for after them, and the database does not say that it refuses with
    them. *)
Definition open_code (code : string) : Prop :=
  code ∉ ["commit_unknown"; "timeout"; "deadline_exceeded"; "invalid_response"] /\ refuses code = false.

Definition open_error (e : RhizaKvError) : Prop :=
  match e with
  | Indeterminate _ => True
  | Operation code _ => open_code code
  | _ => False
  end.

Lemma certain_code code : is_uncertain code = false -> open_code code \/ refuses code = true.
Proof.
  unfold is_uncertain, open_code. rewrite !orb_false_iff, !String.eqb_neq. intros [[[? ?] ?] ?].
  destruct (refuses code); [by right|left]. split; [|done]. rewrite !not_elem_of_cons. split_and!; [done..|apply not_elem_of_nil].
Qed.

(** What the answer to a mutation says about its request in the database. *)
Definition told (q : CasRequest) (fresh : Prop) (r : result RhizaKvError bool) (w : world) : Prop :=
  match r with
  | Ok b => exists q', db_requests (w_db w) !! cas_request_id q = Some (q', Resolved b) /\ (fresh -> q' = q)
  | Err e => open_error e \/ (fresh -> db_requests (w_db w) !! cas_request_id q = Some (q, Refused))
  end.

(** The requests that a step of one's own does not touch. *)
Definition rely_but (id : string) (ids : list string) (w w' : world) : Prop :=
  inv w' /\ grows w w' /\ forall i, i ∈ ids -> i <> id -> keeps (db_requests (w_db w) !! i) (db_requests (w_db w') !! i).

Lemma receives_told q d r d' : receives q d r d' ->
  (db_requests d !! cas_request_id q = None -> exists fate, db_requests d' !! cas_request_id q = Some (q, fate)) /\
  (forall receipt, r = Replied (Ok receipt) -> truthful (db_requests d' !! cas_request_id q) receipt) /\
  (forall e, r = Replied (Err e) -> refuses (db_code e) = true -> db_requests d !! cas_request_id q = None ->
    db_requests d' !! cas_request_id q = Some (q, Refused)).
Proof.
  intros Hr. destruct Hr as [r d' Hn Hd Ht He|r Hk Ht].
  - split_and!; [|done|naive_solver]. intros _. destruct Hd as [->|[]]; eexists; cbn; by rewrite lookup_insert_eq.
  - split_and!; [intros E|done|intros e _ _ E]; rewrite E in Hk; by destruct Hk.
Qed.

(** What a receipt says, in a world where the request may have been decided since. *)
Lemma told_receipt q (fresh : Prop) w receipt :
  (fresh -> exists fate, db_requests (w_db w) !! cas_request_id q = Some (q, fate)) ->
  truthful (db_requests (w_db w) !! cas_request_id q) receipt -> told q fresh (settle (cas_request_id q) receipt) w.
Proof.
  intros Hf [Hc Hj]. destruct (settle (cas_request_id q) receipt) as [b|e] eqn:E; cbn.
  - apply settle_ok in E as [Es ->]. destruct (Hc Es) as [q' Hq']. exists q'. split; [done|]. intros F. destruct (Hf F) as [f Hf']. congruence.
  - destruct e; try (by left); right.
    + apply settle_refused in E as Es. destruct (Hj Es) as [q' Hq']. intros F. destruct (Hf F) as [f Hf']. congruence.
    + unfold settle, validate_receipt in E. repeat case_bool_decide; done.
    + unfold settle, validate_receipt in E. repeat case_bool_decide; done.
Qed.

Lemma told_status q (fresh : Prop) w r :
  (fresh -> exists fate, db_requests (w_db w) !! cas_request_id q = Some (q, fate)) ->
  (forall status receipt, r = Replied (Ok status) -> st_receipt status = Some receipt ->
    truthful (db_requests (w_db w) !! cas_request_id q) receipt) ->
  told q fresh (reconcile (cas_request_id q) r) w.
Proof.
  intros Hf Ht. destruct (reconcile (cas_request_id q) r) as [b|e] eqn:E.
  - apply reconcile_ok in E as (status & receipt & -> & Hr & Hs). rewrite <-Hs. apply told_receipt; [done|by eapply Ht].
  - destruct e as [code message|id| |]; [|by left| |].
    + apply reconcile_refused in E as (status & receipt & -> & Hr & Hs). destruct (Ht _ _ eq_refl Hr) as [_ Hj].
      destruct (Hj Hs) as [q' Hq']. right. intros F. destruct (Hf F) as [f Hf']. congruence.
    + unfold reconcile, settle, validate_receipt in E. repeat case_match; done.
    + unfold reconcile, settle, validate_receipt in E. repeat case_match; done.
Qed.

Lemma keeps_some q f x : keeps (Some (q, f)) x -> exists f', x = Some (q, f').
Proof. destruct f; cbn; [done|intros ->; by eexists..]. Qed.

Lemma rely_but_trans id ids w1 w2 w3 : rely_but id ids w1 w2 -> rely ids w2 w3 -> rely_but id ids w1 w3.
Proof.
  intros (_ & Hg & Hk) (? & Hg' & Hk'). split_and!; [done|by etransitivity|]. intros i Hi Hne. eapply keeps_trans; eauto.
Qed.

Lemma wp_mutate q ids w :
  inv w ->
  (forall w1, rely ids w w1 -> request_wf w1 q /\ (collided w1 \/ (cas_key q = ROOT_KEY -> root_sound w1 q))) ->
  cas_request_id q ∈ ids \/ String.length (cas_request_id q) = 64%nat ->
  wp (mutate q) (fun ids' r w' => ids' = ids /\ rely_but (cas_request_id q) ids w w' /\
    told q (cas_request_id q ∈ ids /\ db_requests (w_db w) !! cas_request_id q = None) r w') ids w.
Proof.
  intros Hw Hq Hid w1 Hr1 r w2 (d & -> & Hrec)%serves_served. destruct (Hq w1 Hr1) as [Hwf Hs]. pose proof Hr1 as (Hi1 & Hg1 & Hk1).
  destruct (receives_inv w1 q r d Hi1 Hwf Hs Hrec) as (Hi2 & Hg2 & Honly). destruct (receives_told _ _ _ _ Hrec) as (Hnew & Hok & Herr).
  set (w2 := with_db d w1) in *.
  assert (Hfresh : cas_request_id q ∈ ids /\ db_requests (w_db w) !! cas_request_id q = None ->
    db_requests (w_db w1) !! cas_request_id q = None).
  { intros [Hin Hn]. specialize (Hk1 _ Hin). by rewrite Hn in Hk1. }
  assert (Hb : rely_but (cas_request_id q) ids w w2).
  { split_and!; [done|by etransitivity|]. intros i Hi Hne. cbn. rewrite Honly by done. by apply Hk1. }
  split.
  { split_and!; [done|done|]. intros i [c Hc] Hni. cbn. apply Honly. intros ->. destruct Hid as [|Hid]; [done|].
    pose proof (wf_uuids _ (proj1 Hi1) _ _ Hc). congruence. }
  destruct r as [[receipt|e]|message]; [| |split_and!; [done|done|by left]].
  - split_and!; [done|done|]. apply told_receipt; [|by apply Hok]. intros F. by apply Hnew, Hfresh.
  - destruct (is_uncertain (db_code e)) eqn:Eu.
    2: { split_and!; [done|done|]. destruct (certain_code _ Eu) as [Ho|He]; [by left|right]. intros F. by apply (Herr e), Hfresh. }
    intros w3 Hr3 st w4 (-> & Ht)%serves_served. split; [by apply guarantees_refl, Hr3|]. split_and!; [done|by eapply rely_but_trans|].
    apply told_status; [|done]. intros F. destruct (Hnew (Hfresh F)) as [f Hf]. destruct Hr3 as (_ & _ & Hk3).
    specialize (Hk3 _ (proj1 F)). cbn in Hk3. rewrite Hf in Hk3. by apply keeps_some in Hk3.
Qed.

(** ** Pages *)

Lemma page_text_inj id h id' h' : String.length h = String.length h' -> page_text id h = page_text id' h' -> h = h'.
Proof.
  unfold page_text. rewrite !as_bytes_app, !(assoc_L (++)). intros Hl E. apply (inj as_bytes).
  eapply app_inj_2; [|exact E]. by rewrite !length_as_bytes.
Qed.

(** A page whose request was made is stored. *)
Lemma page_made w id chunk q :
  inv w -> chunk ∈ w_digests w -> page_text id (hex_digest chunk) ∈ w_digests w ->
  db_requests (w_db w) !! hex_digest (page_text id (hex_digest chunk)) = Some (q, Resolved true) ->
  collided w \/ stored w (hex_digest chunk) chunk.
Proof.
  intros [Hwf _] Hc Ht Hq. destruct (wf_requests _ Hwf _ _ _ Hq) as [Hid [[_ [c Hu]]|(_ & id' & b & Hk & Hv & Hb & Hid' & Hb')]].
  - apply (wf_uuids _ Hwf) in Hu. rewrite Hid, hex_digest_length in Hu. done.
  - rewrite Hid in Hid'. destruct (hex_digest_eq w _ _ Ht Hb' Hid') as [|E]; [by left|].
    apply page_text_inj in E; [|by rewrite !hex_digest_length]. destruct (hex_digest_eq w _ _ Hc Hb E) as [| ->]; [by left|right].
    destruct (wf_stored _ Hwf _ _ _ Hq Hk) as (b' & Hb'' & ?). congruence.
Qed.

Definition drawn_ids (ids : list string) : Prop := forall id, id ∈ ids -> String.length id = 36%nat.

Lemma rely_page ids w w' body : drawn_ids ids -> rely_but (hex_digest body) ids w w' -> rely ids w w'.
Proof.
  intros Hids (? & ? & Hk). split_and!; [done|done|]. intros i Hi. apply Hk; [done|]. intros ->.
  apply Hids in Hi. by rewrite hex_digest_length in Hi.
Qed.

Lemma wp_store_page id chunk ids w : inv w -> drawn_ids ids -> chunk ∈ w_digests w ->
  wp (store_page id (hex_digest chunk) chunk) (fun ids' r w' => ids' = ids /\ rely ids w w' /\
    (r = Ok tt -> collided w' \/ stored w' (hex_digest chunk) chunk)) ids w.
Proof.
  intros Hw Hids Hc. unfold store_page. apply wp_digest. intros w1 Hr1 Ht. apply wp_prog_then, wp_map_error. unfold put_if_absent.
  fold (page_text id (hex_digest chunk)) in *. set (rid := hex_digest (page_text id (hex_digest chunk))).
  apply wp_check; [intros; by split_and!|]. intros _ _. set (q := Cas _ _ _ _ _).
  assert (Hc1 : chunk ∈ w_digests w1) by by apply Hr1.
  eapply wp_prog_mono; [|apply (wp_mutate q); [apply Hr1| |right; apply hex_digest_length]].
  - intros ids' r w2 (-> & Hb & Htold). assert (Hr2 : rely ids w1 w2) by exact (rely_page _ _ _ _ Hids Hb).
    assert (Hr02 : rely ids w w2) by by eapply rely_trans. destruct r as [[]|e]; [| |by split_and!]; cbn [map_err].
    + split_and!; [done|done|]. intros _. destruct Htold as (q' & Hq' & _).
      eapply page_made; [apply Hr2|by apply Hr2|by apply Hr2|exact Hq'].
    + apply wp_prog_then, wp_map_error, wp_get. intros w3 Hr3. assert (rely ids w w3) by by eapply rely_trans.
      split; [by intros; split_and!|]. cbn [map_err]. split_and!; [done|done|]. intros Hf%fail_if_ok%bool_decide_eq_false%dec_stable.
      right. exact Hf.
  - intros w2 Hr2. split; [right|right; intros E; by apply page_key_root in E]. split; [done|]. exists id, chunk.
    split_and!; [done|apply b64_round_trip|by apply Hr2|done|by apply Hr2].
Qed.

Lemma wp_store_pages id known rest ids w : inv w -> drawn_ids ids ->
  (collided w \/ forall h, h ∈ known -> exists b, stored w h b) ->
  wp (store_pages id known rest) (fun ids' r w' => ids' = ids /\ rely ids w w' /\
    (forall hashes, r = Ok hashes -> hashes = hex_digest <$> rest /\
      (collided w' \/ forall chunk, chunk ∈ rest -> stored w' (hex_digest chunk) chunk))) ids w.
Proof.
  revert known w. induction rest as [|chunk rest IH]; intros known w Hw Hids Hknown; cbn [store_pages].
  { split_and!; [done|by apply rely_refl|]. intros hashes [= <-]. split; [done|]. right. by intros ? ?%not_elem_of_nil. }
  apply wp_digest. intros w1 Hr1 Hc. apply wp_prog_then.
  assert (Hstep : wp (if bool_decide (hex_digest chunk ∈ known) then Ret (Ok tt) else store_page id (hex_digest chunk) chunk)
    (fun ids' r w' => ids' = ids /\ rely ids w1 w' /\ (r = Ok tt -> collided w' \/ stored w' (hex_digest chunk) chunk)) ids w1).
  { case_bool_decide as Hin; [|apply wp_store_page; [apply Hr1|done|done]]. split_and!; [done|apply rely_refl, Hr1|]. intros _.
    destruct Hknown as [Hco|Hknown]; [left; eapply collided_grows; [apply Hr1|done]|]. destruct (Hknown _ Hin) as [b Hb]. assert (Hb1 : stored w1 (hex_digest chunk) b) by by apply Hr1.
    destruct (wf_pages _ (proj1 (proj1 Hr1)) _ _ Hb1) as [Hd Hin1].
    destruct (hex_digest_eq w1 b chunk) as [| ->]; [done..|by left|by right]. }
  eapply wp_prog_mono; [|exact Hstep]. intros ids' [[]|e] w2 (-> & Hr2 & Hst); [|split_and!; [done|by eapply rely_trans|done]].
  assert (Hr02 : rely ids w w2) by by eapply rely_trans. specialize (Hst eq_refl).
  apply wp_prog_then. eapply wp_prog_mono; [|apply (IH (hex_digest chunk :: known)); [apply Hr2|done|]].
  - intros ids' [hashes|e] w3 (-> & Hr3 & Hh); [|split_and!; [done|by eapply rely_trans|done]].
    destruct (Hh _ eq_refl) as [-> Hp]. split_and!; [done|by eapply rely_trans|]. intros ? [= <-]. split; [done|].
    destruct Hst as [Hco|Hst]; [left; eapply collided_grows; [apply Hr3|done]|]. destruct Hp as [|Hp]; [by left|right].
    intros x [->|Hx]%elem_of_cons; [by apply Hr3|by apply Hp].
  - destruct Hst as [Hco|Hst]; [by left|]. destruct Hknown as [Hco|Hknown]; [left; eapply collided_grows; [apply Hr02|done]|right].
    intros h [->|Hin]%elem_of_cons; [by eexists|]. destruct (Hknown _ Hin) as [b Hb]. exists b. by apply Hr02.
Qed.

(** ** Roots *)

(** A request that was not made and will not be. *)
Definition idle (w : world) (id : string) : Prop :=
  match db_requests (w_db w) !! id with
  | None | Some (_, Resolved false) | Some (_, Refused) => True
  | _ => False
  end.

Lemma elem_of_root_log d id v : (id, v) ∈ root_log d <-> (id, (ROOT_KEY, v)) ∈ db_log d.
Proof.
  unfold root_log. rewrite list_elem_of_omap. split.
  - intros ([id' [key v']] & Hin & E). case_bool_decide; [|done]. by simplify_eq.
  - intros Hin. exists (id, (ROOT_KEY, v)). split; [done|]. by rewrite bool_decide_eq_true_2.
Qed.

Lemma idle_unpublished w id v : inv w -> idle w id -> (id, v) ∉ root_log (w_db w).
Proof.
  intros [Hwf _] Hi Hin%elem_of_root_log. destruct (wf_log _ Hwf _ _ _ Hin) as (q & Hq & _). unfold idle in Hi. by rewrite Hq in Hi.
Qed.

Lemma idle_kept w w' id : keeps (db_requests (w_db w) !! id) (db_requests (w_db w') !! id) -> idle w id -> idle w' id.
Proof. unfold idle, keeps. destruct (db_requests (w_db w) !! id) as [[q []]|]; [done|intros ->; done..]. Qed.

(** Two prefixes of one list, the longer of which ends with something the other lacks. *)
Lemma prefix_before {A} (l l' m : list A) x : l `prefix_of` m -> l' ++ [x] `prefix_of` m -> x ∉ l -> l `prefix_of` l'.
Proof.
  intros Hl Hl' Hx. destruct (prefix_weak_total _ _ _ Hl Hl') as [Hp|[k ->]].
  - destruct Hp as [k Hk]. destruct k as [|y k _] using rev_ind.
    + rewrite app_nil_r in Hk. subst l. exfalso. apply Hx. apply elem_of_app. right. by left.
    + rewrite (assoc_L (++)) in Hk. apply app_inj_tail in Hk as [-> _]. by apply prefix_app_r.
  - exfalso. apply Hx. rewrite !elem_of_app. left. right. by left.
Qed.

(** What is proposed: the command continues the state that was loaded. *)
Definition proposed (start : list (string * bytes)) (w : world) (c : command) (out : outcome c) (current : option bytes) (v : bytes)
    (s s' : InMemoryMetaState) : Prop :=
  collided w \/ exists l g, start `prefix_of` l /\ l `prefix_of` root_log (w_db w) /\ history w l current g s /\ moves c out s s' /\
    describes w (Some v) (g + 1) s'.

(** What was published under a request id. *)
Definition published (start : list (string * bytes)) (w : world) (id : string) (c : command) (out : outcome c)
    (v : bytes) (s' : InMemoryMetaState) : Prop :=
  collided w \/ exists l r g s, start `prefix_of` l /\ l ++ [(id, v)] `prefix_of` root_log (w_db w) /\ history w l r g s /\
    moves c out s s' /\ describes w (Some v) (g + 1) s'.

Lemma proposed_grows start w w' c out current v s s' : grows w w' ->
  proposed start w c out current v s s' -> proposed start w' c out current v s s'.
Proof.
  intros Hg [Hc|(l & g & ? & Hl & Hh & ? & Hd)]; [left; by eapply collided_grows|right]. exists l, g.
  split_and!; [done|etransitivity; [exact Hl|apply Hg]|by eapply history_grows|done|by eapply describes_grows].
Qed.
Lemma published_kept start w w' id c out v s' : grows w w' ->
  published start w id c out v s' -> published start w' id c out v s'.
Proof.
  intros Hg [Hc|(l & r & g & s & ? & Hl & Hh & ? & Hd)]; [left; by eapply collided_grows|right]. exists l, r, g, s.
  split_and!; [done|etransitivity; [exact Hl|apply Hg]|by eapply history_grows|done|by eapply describes_grows].
Qed.

(** A request for the root that was made published what was proposed. *)
Lemma request_published start w w' q c out current v s s' :
  inv w -> inv w' -> grows w w' -> proposed start w c out current v s s' -> cas_key q = ROOT_KEY -> cas_expects q = current ->
  b64_decode (cas_value q) = Some v -> db_requests (w_db w) !! cas_request_id q = None ->
  db_requests (w_db w') !! cas_request_id q = Some (q, Resolved true) -> published start w' (cas_request_id q) c out v s'.
Proof.
  intros Hi Hi' Hg [Hc|(l0 & g & Hstart & Hl0 & Hh & Hm & Hd)] Hk He Hv Hn Hq; [left; by eapply collided_grows|].
  destruct Hi' as [_ [|Hs]]; [by left|]. destruct (sound_applied _ Hs _ _ Hq Hk) as (l & v' & g' & s0 & Hl & Hv' & Hh').
  rewrite Hv in Hv'. injection Hv' as <-. rewrite He in Hh'.
  destruct (history_unique _ _ _ _ _ _ _ _ Hh' (history_grows _ _ _ _ _ _ Hg Hh)) as [|[-> ->]]; [by left|right].
  exists l, current, g, s. split_and!; [|done|done|done|by eapply describes_grows].
  eapply prefix_before; [|exact Hl|]; [etransitivity; [exact Hstart|]; etransitivity; [exact Hl0|apply Hg]|].
  intros Hin. eapply (idle_unpublished w (cas_request_id q) v); [done|unfold idle; by rewrite Hn|].
  eapply elem_of_prefix; [exact Hin|]. by etransitivity.
Qed.

(** The answer of a compare-and-set of the root. *)
Definition exchanged (start : list (string * bytes)) (w : world) (id : string) (c : command) (out : outcome c) (v : bytes)
    (s' : InMemoryMetaState) (r : result RhizaKvError bool) : Prop :=
  match r with
  | Ok true => published start w id c out v s'
  | Ok false => idle w id
  | Err e => open_error e \/ idle w id
  end.

Lemma wp_root_cas start q c out current v s s' ids w :
  inv w -> cas_request_id q ∈ ids -> w_uuids w !! cas_request_id q = Some c -> db_requests (w_db w) !! cas_request_id q = None ->
  cas_key q = ROOT_KEY -> cas_expects q = current -> b64_decode (cas_value q) = Some v -> proposed start w c out current v s s' ->
  wp (mutate q) (fun ids' r w' => ids' = ids /\ rely_but (cas_request_id q) ids w w' /\
    exchanged start w' (cas_request_id q) c out v s' r) ids w.
Proof.
  intros Hw Hin Hu Hn Hk He Hv Hp. eapply wp_prog_mono; [|apply wp_mutate; [done| |by left]].
  - intros ids' r w' (-> & Hb & Ht). split_and!; [done|done|]. destruct r as [[]|e]; cbn in *.
    + destruct Ht as (q' & Hq' & Hqq). rewrite (Hqq (conj Hin Hn)) in Hq'. by eapply (request_published start w); [|apply Hb|apply Hb|..].
    + destruct Ht as (q' & Hq' & _). unfold idle. by rewrite Hq'.
    + destruct Ht as [|Ht]; [by left|right]. unfold idle. by rewrite (Ht (conj Hin Hn)).
  - intros w1 Hr1. pose proof Hr1 as (_ & Hg & _). assert (Hu1 : w_uuids w1 !! cas_request_id q = Some c)
      by (destruct Hg as (_ & Hsub & _); by eapply lookup_weaken).
    split; [left; by split; [|exists c]|]. apply (proposed_grows _ _ w1) in Hp; [|done].
    destruct Hp as [|(l & g & _ & _ & Hh & Hm & Hd)]; [by left|right]. intros _. exists c, g, s, out, s', v.
    split_and!; [done| |done|done|done]. rewrite He. by eapply history_describes.
Qed.

Lemma wp_compare_and_set start id c out current v s s' ids w :
  inv w -> id ∈ ids -> w_uuids w !! id = Some c -> db_requests (w_db w) !! id = None -> proposed start w c out current v s s' ->
  wp (compare_and_set id ROOT_KEY current v) (fun ids' r w' => ids' = ids /\ rely_but id ids w w' /\
    exchanged start w' id c out v s' r) ids w.
Proof.
  intros Hw Hin Hu Hn Hp.
  assert (Hidle : forall e, (ids = ids /\ rely_but id ids w w /\ exchanged start w id c out v s' (Err e))).
  { intros e. split_and!; [done|by split_and!; [| |intros i _ _; apply (rely_refl [i] w Hw); left]|].
    right. unfold idle. by rewrite Hn. }
  destruct current as [current|]; cbn [compare_and_set]; unfold put_if_absent; (apply wp_check; [intros; apply Hidle|]); intros _ _;
    (eapply (wp_root_cas start (Cas ROOT_KEY _ _ _ id)); [done|done|done|done|done| |apply b64_round_trip|exact Hp]); [|done].
  cbn. apply b64_round_trip.
Qed.

(** ** Snapshots *)

(** The answer of [compare_exchange]. *)
Definition snapshot_exchanged (start : list (string * bytes)) (w : world) (id : string) (c : command) (out : outcome c)
    (s' : InMemoryMetaState) (r : result SnapshotError CompareExchange) : Prop :=
  match r with
  | Ok (Applied v) => published start w id c out v s'
  | Err (SnapshotKv e) => open_error e \/ idle w id
  | _ => idle w id
  end.

Lemma exchanged_snapshot start w id c out v s' r : exchanged start w id c out v s' r ->
  snapshot_exchanged start w id c out s' (match map_err SnapshotKv r with
    | Ok applied => Ok (if (applied : bool) then Applied v else Conflict)
    | Err e => Err e
    end).
Proof. by destruct r as [[]|]. Qed.

(** The pages of a root that was loaded are stored. *)
Lemma loaded_pages start w current s manifest :
  loaded_state start w current s -> transpose (parse_manifest <$> current) = Ok manifest ->
  collided w \/ (forall h, h ∈ default [] (sm_pages <$> manifest) -> exists b, stored w h b).
Proof.
  intros [|(l & g & _ & _ & Hh)] Hm; [by left|right]. apply history_describes in Hh. destruct current as [current|]; cbn in Hm.
  - destruct (parse_manifest current) as [m|] eqn:E; [|done]. injection Hm as <-. destruct Hh as (body & _ & -> & Hg & Hl & _ & Hp).
    apply parse_manifest_read in E. rewrite root_text_read in E by done. injection E as <-.
    cbn. intros h (chunk & -> & Hc)%list_elem_of_fmap. exists chunk. by apply Hp.
  - injection Hm as <-. by intros h ?%not_elem_of_nil.
Qed.

(** The root that is written is a snapshot of the new state. *)
Lemma loaded_proposed start w c out current manifest generation body s s' :
  loaded_state start w current s -> transpose (parse_manifest <$> current) = Ok manifest ->
  next_generation manifest = Ok generation -> encode s' = Ok body -> moves c out s s' ->
  Z.of_nat (length body) <= MAX_SNAPSHOT_BYTES -> body ∈ w_digests w ->
  (collided w \/ forall chunk, chunk ∈ chunks page_size body -> stored w (hex_digest chunk) chunk) ->
  proposed start w c out current (root_text generation body) s s'.
Proof.
  intros [|(l & g & Hst & Hl & Hh)] Hm Hgen He Hmv Hlen Hin Hp; [by left|]. destruct Hp as [|Hp]; [by left|right]. exists l, g.
  split_and!; [done|done|done|done|].
  assert (generation = g + 1 /\ 1 <= generation <= u64_max) as [-> Hg].
  { apply history_describes in Hh. destruct current as [current|]; cbn in Hm.
    - destruct (parse_manifest current) as [m|] eqn:E; [|done]. injection Hm as <-. destruct Hh as (body0 & _ & -> & Hg & Hl0 & _).
      apply parse_manifest_read in E. rewrite root_text_read in E by done. injection E as <-.
      cbn in Hgen. apply ok_or_ok, checked_u64_add in Hgen as [-> Hu%in_range_true]. lia.
    - injection Hm as <-. destruct Hh as [-> ->]. injection Hgen as <-. assert (1 <= u64_max) by (by vm_compute). lia. }
  exists body. split_and!; try done; lia.
Qed.

Lemma wp_compare_exchange start id c out current body s s' ids w :
  inv w -> drawn_ids ids -> id ∈ ids -> w_uuids w !! id = Some c -> db_requests (w_db w) !! id = None ->
  encode s' = Ok body -> moves c out s s' -> loaded_state start w current s ->
  wp (compare_exchange current body id) (fun ids' r w' => ids' = ids /\ rely_but id ids w w' /\
    snapshot_exchanged start w' id c out s' r) ids w.
Proof.
  intros Hw Hids Hin Hu Hn He Hm Hl.
  assert (Hnone : forall w1, rely ids w w1 -> db_requests (w_db w1) !! id = None).
  { intros w1 (_ & _ & Hk). specialize (Hk _ Hin). by rewrite Hn in Hk. }
  assert (Hearly : forall w1 e, rely ids w w1 -> ids = ids /\ rely_but id ids w w1 /\ snapshot_exchanged start w1 id c out s' (Err e)).
  { intros w1 e Hr. split_and!; [done|split_and!; [apply Hr|apply Hr|intros i Hi _; by apply Hr]|].
    assert (idle w1 id) by (unfold idle; by rewrite (Hnone w1 Hr)). destruct e; [by right|done..]. }
  pose proof (rely_refl ids w Hw) as Hr0. unfold compare_exchange.
  apply wp_check; [intros; by apply Hearly|]. intros _ _. apply wp_check; [intros; by apply Hearly|]. intros _ Hlen%fail_if_ok%Z.ltb_ge.
  apply wp_check; [intros; by apply Hearly|]. intros manifest Hman. apply wp_prog_then.
  eapply wp_prog_mono; [|apply wp_store_pages; [done|done|by eapply loaded_pages]].
  intros ids' [hashes|e] w1 (-> & Hr1 & Hpages); [|by apply Hearly]. destruct (Hpages _ eq_refl) as [-> Hst]. clear Hpages.
  apply wp_check; [intros; by apply Hearly|]. intros generation Hgen. apply wp_digest. intros w2 Hr2 Hd.
  assert (Hr02 : rely ids w w2) by by eapply rely_trans. change (to_vec _) with (root_text generation body).
  apply wp_prog_then, wp_map_error. eapply wp_prog_mono; [|apply (wp_compare_and_set start id c out current (root_text generation body) s s')].
  - intros ids' r w3 (-> & Hb & Hx). apply exchanged_snapshot in Hx. assert (Hb' : rely_but id ids w w3).
    { destruct Hb as (? & Hg & Hk). destruct Hr02 as (_ & Hg2 & Hk2). split_and!; [done|by etransitivity|].
      intros i Hi Hne. eapply keeps_trans; eauto. }
    destruct r as [b|e]; by split_and!.
  - apply Hr2.
  - done.
  - destruct Hr02 as (_ & (_ & Hsub & _) & _). by eapply lookup_weaken.
  - by apply Hnone.
  - eapply loaded_proposed; [eapply loaded_grows; [apply Hr02|done]|done|done|done|done|done|done|].
    destruct Hst as [|Hst]; [left; eapply collided_grows; [apply Hr2|done]|right]. intros chunk Hc. by apply Hr2, Hst.
Qed.

(** * Operations *)

Lemma wp_uuid {A} c (k : string -> prog InMemoryMetaState A) post ids w :
  label = Some c ->
  (forall w1 id w2, rely ids w w1 -> inv w2 -> grows w1 w2 -> w_db w2 = w_db w1 -> String.length id = 36%nat ->
    w_uuids w2 !! id = Some c -> db_requests (w_db w2) !! id = None -> wp (k id) post (id :: ids) w2) ->
  wp (x ⇐ NewUuid; k x) post ids w.
Proof.
  intros Hlabel Hk w1 Hr id w2 (c' & Hc' & Hnone & Hlen & ->)%serves_served. rewrite Hlabel in Hc'. injection Hc' as <-.
  cbn [answer] in id, Hnone, Hlen. pose proof Hr as (Hi1 & _). set (w2 := World _ _ _ _).
  assert (Hg2 : grows w1 w2) by (split_and!; [done|by apply insert_subseteq|done|done]).
  assert (Hi2 : inv w2).
  { apply (inv_same_db w1); [done|done| |by apply (caches_kept w1)|done]. cbn. intros i c' [[<- _]|[_ Hi]]%lookup_insert_Some; [done|].
    by eapply wf_uuids; [apply Hi1|]. }
  split; [by split_and!|]. apply (Hk w1); [done|done|done|done|done|by cbn; rewrite lookup_insert_eq|].
  change (db_requests (w_db w1) !! id = None). destruct (db_requests (w_db w1) !! id) as [[q f]|] eqn:E; [|done]. exfalso.
  destruct (wf_requests _ (proj1 Hi1) _ _ _ E) as [Hid [[_ [c' Hu]]|(_ & i & b & _ & _ & _ & Hid' & _)]].
  - rewrite Hid in Hu. congruence.
  - rewrite Hid in Hid'. by rewrite Hid', hex_digest_length in Hlen.
Qed.

(** Errors that leave open whether a command took effect. *)
Definition unsettled (e : MetaStoreError) : Prop := exists cause, open_error cause /\ e = rhiza_error cause.

(** What the answer to a command says of the requests it made: an outcome was published
    by one of them, an error leaves at most one of them open, and none unless it is
    unsettled. *)
Definition answered (c : command) (start : list (string * bytes)) (ids : list string) (r : checked (outcome c)) (w : world) : Prop :=
  drawn_ids ids /\
  match r with
  | Ok out => exists id v s', id ∈ ids /\ (forall j, j ∈ ids -> j <> id -> idle w j) /\ published start w id c out v s'
  | Err e => (exists id, forall j, j ∈ ids -> j <> id -> idle w j) /\ (unsettled e \/ forall j, j ∈ ids -> idle w j)
  end.

Lemma answered_stable c start : stable (answered c start).
Proof.
  intros ids r w w' (_ & Hg & Hk) [Hids Ha]. split; [done|].
  assert (Hidle : forall j, j ∈ ids -> idle w j -> idle w' j) by (intros j Hj; by apply idle_kept, Hk).
  destruct r as [out|e]; [destruct Ha as (id & v & s' & ? & ? & ?); exists id, v, s'; split_and!; [done|auto|by eapply published_kept]|].
  destruct Ha as [[id Hid] Ha]. split; [exists id; auto|]. destruct Ha; [by left|right; auto].
Qed.

Lemma answered_error c start ids w e : drawn_ids ids -> (forall j, j ∈ ids -> idle w j) -> answered c start ids (Err e) w.
Proof. intros Hd Hi. split_and!; [done|exists ""; auto|by right]. Qed.

Lemma wp_mutate_attempts attempts c start ids w : label = Some c ->
  inv w -> drawn_ids ids -> (forall j, j ∈ ids -> idle w j) -> start `prefix_of` root_log (w_db w) ->
  wp (mutate_attempts attempts c) (answered c start) ids w.
Proof.
  intros Hlabel. revert ids w. induction attempts as [|attempts IH]; intros ids w Hw Hids Hidle Hstart; [by apply answered_error|].
  cbn [mutate_attempts]. apply wp_prog_then. eapply wp_prog_mono; [|by apply (wp_load_state start)].
  assert (Hidle' : forall w', rely ids w w' -> forall j, j ∈ ids -> idle w' j).
  { intros w' (_ & _ & Hk) j Hj. by eapply idle_kept; [apply Hk|apply Hidle]. }
  intros ids' [[current s]|e] w1 (-> & Hr1 & Hl); [|apply answered_error; auto]. specialize (Hl _ _ eq_refl).
  cbn [fst snd]. apply wp_check; [intros; apply answered_error; auto|]. intros tick Htick%ok_or_ok.
  destruct (evaluated_at c tick s) as [res s'] eqn:Eev. cbn [fst snd]. apply wp_check; [intros; apply answered_error; auto|].
  intros out ->. apply wp_check; [intros; apply answered_error; auto|]. intros body Hbody%map_err_ok.
  apply (wp_uuid c); [done|]. intros w2 id w3 Hr2 Hi3 Hg3 Hdb3 Hlen Hu3 Hn3. assert (Hr02 : rely ids w w2) by by eapply rely_trans.
  assert (Hids3 : drawn_ids (id :: ids)) by (intros j [->|Hj]%elem_of_cons; auto).
  apply wp_prog_then, wp_map_error. eapply wp_prog_mono; [|apply (wp_compare_exchange start id c out current body s s')]; try done.
  - intros ids' r w4 (-> & Hb & Hx).
    assert (Hothers : forall j, j ∈ id :: ids -> j <> id -> idle w4 j).
    { intros j Hj Hne. destruct Hb as (_ & _ & Hk). eapply idle_kept; [by apply Hk|]. apply elem_of_cons in Hj as [|Hj]; [done|].
      unfold idle. rewrite Hdb3. by apply (Hidle' w2). }
    assert (Hall : idle w4 id -> forall j, j ∈ id :: ids -> idle w4 j).
    { intros Hid j Hj. destruct (decide (j = id)) as [->|]; [done|by apply Hothers]. }
    destruct r as [[v|]|e]; cbn [map_err].
    + apply wp_cache_write.
      * intros ? ? [= <- <-]. destruct Hx as [|(l & r & g & s0 & _ & _ & _ & _ & Hd)]; [by left|right; by eexists].
      * intros w5 Hr5. eapply answered_stable; [exact Hr5|]. split; [done|]. exists id, v, s'. split_and!; [by left|done|done].
    + apply wp_cache_write; [done|]. intros w5 Hr5. apply IH; [apply Hr5|done| |].
      * intros j Hj. eapply idle_kept; [by apply Hr5|]. by apply Hall.
      * etransitivity; [exact Hstart|]. etransitivity; [apply Hr02|]. etransitivity; [apply Hg3|]. etransitivity; [apply Hb|apply Hr5].
    + destruct e as [e| |]; [|apply answered_error; [done|by apply Hall]..]. split_and!; [done|by exists id|].
      destruct Hx as [|Hx]; [left; by exists e|right; by apply Hall].
  - left.
  - exists tick. by split.
  - eapply loaded_grows; [|exact Hl]. etransitivity; [apply Hr2|done].
Qed.

(** What a read returns is the answer in a published state, of a moment of the call. *)
Definition read_answer {A} (read : checked Z -> meta A) (start : list (string * bytes)) (ids : list string) (r : checked A) (w : world) : Prop :=
  (exists e, r = Err e) \/ exists current s, loaded_state start w current s /\
    r = (read (Ok (partition_authority_now_unix_ms s)) s).1.

Lemma read_answer_stable {A} (read : checked Z -> meta A) start : stable (read_answer read start).
Proof.
  intros ids r w w' (_ & Hg & _) [He|(current & s & Hl & ->)]; [by left|right]. exists current, s. split; [by eapply loaded_grows|done].
Qed.

Lemma wp_read_eval {A} (read : checked Z -> meta A) start ids w : inv w -> start `prefix_of` root_log (w_db w) ->
  wp (read_eval read) (read_answer read start) ids w.
Proof.
  intros Hw Hs. unfold read_eval. apply wp_prog_then. eapply wp_prog_mono; [|by apply (wp_load_state start)].
  intros ids' [[current s]|e] w1 (-> & _ & Hl); [|left; by eexists]. right. exists current, s. split; [by apply Hl|done].
Qed.
End wp.
End programs.
