(* ===== verification/RhizaSystem.v ===== *)
(** The metadata service over the replicated database, as a system of processes that
    call operations, lose answers and stop: whatever their steps are, the roots they
    publish are one history of commands, mutations take effect at most once and as they
    are answered, reads see a state of that history, and an owner of a view that is
    superseded in it is fenced in every process.

    All of it holds unless two of the texts that were hashed collide. *)
From S2P Require Import Prelude BTree Json Digits ArrowState Segments ObjectKey Hash Relation Serde JsonText StandingProgram MetaTypes SourceCut ViewBootstrap MetaRequests MetaStore MetaMachine MetaFencing SnapshotCodec RhizaKv RhizaSnapshot RhizaMeta RhizaDb RhizaInvariant RhizaPrograms.

Section system.
Context `{Sha256Laws, SerdeJson, RelationCodec, MetaEnv, Base64Laws, Refusals, !ManifestReader, !ManifestReaderLaws, !SnapshotFormat, !SnapshotFormatLaws, !ArrowStreams, !ArrowStreamsLaws}.

(** * The invariant *)

(** A mutation keeps to its specification. *)
Definition mutation_ok (w : world) (m : mutation) : Prop :=
  (forall id, id ∈ m_ids m -> w_uuids w !! id = Some (m_command m)) /\
  wp (m_process m) (Some (m_command m)) (m_prog m) (answered (m_command m) (m_start m)) (m_ids m) w.

Definition reading_ok (w : world) (t : reading) : Prop :=
  wp (r_process t) None (r_prog t) (read_answer (r_read t) (r_start t)) [] w.

(** Mutations draw their own ids. *)
Record system_inv (s : system) : Prop := {
  si_world : inv (s_world s);
  si_mutations i m : s_mutations s !! i = Some m -> mutation_ok (s_world s) m;
  si_disjoint i j m m' id : i <> j -> s_mutations s !! i = Some m -> s_mutations s !! j = Some m' -> id ∈ m_ids m -> id ∉ m_ids m';
  si_readings i t : s_readings s !! i = Some t -> reading_ok (s_world s) t
}.

Lemma mutation_ok_stable w w' m : rely (m_ids m) w w' -> mutation_ok w m -> mutation_ok w' m.
Proof.
  intros Hr [Hids Hwp]. split; [|by eapply wp_prog_stable; [apply answered_stable|..]].
  intros id Hc%Hids. destruct Hr as (_ & (_ & Hsub & _) & _). by eapply lookup_weaken.
Qed.

Lemma mutation_ok_drawn w m id : mutation_ok w m -> id ∈ m_ids m -> is_Some (w_uuids w !! id).
Proof. intros [Hids _] Hid. rewrite (Hids id Hid). by eexists. Qed.

Lemma reading_ok_stable w w' t : rely [] w w' -> reading_ok w t -> reading_ok w' t.
Proof. intros Hr. by apply wp_prog_stable; [apply read_answer_stable|]. Qed.

Lemma keeps_same o : keeps o o.
Proof. destruct o as [[q []]|]; cbn; by eauto. Qed.

(** A step of one mutation as the others see it. *)
Lemma guarantees_rely ids ids' w w' : guarantees ids w w' ->
  (forall id, id ∈ ids' -> is_Some (w_uuids w !! id) /\ id ∉ ids) -> rely ids' w w'.
Proof.
  intros (Hi & Hg & Hk) Hids. split_and!; [done|done|]. intros id [Hu Hn]%Hids. rewrite (Hk id Hu Hn). apply keeps_same.
Qed.

Lemma settles_rely ids w w' : inv w -> settles w w' -> rely ids w w'.
Proof.
  intros Hi Hs. destruct (settles_inv w w' Hi Hs) as (Hi' & Hg & q & Hq & Honly & f & Hf). split_and!; [done|done|].
  intros id _. destruct (decide (id = cas_request_id q)) as [->|Hne]; [rewrite Hq; by exists f|].
  rewrite (Honly id Hne). apply keeps_same.
Qed.

Lemma forget_rely ids process w : inv w -> rely ids w (forget process w).
Proof.
  intros Hi. assert (Hg : grows w (forget process w)) by (by split_and!). split_and!; [|done|intros; apply keeps_same].
  apply (inv_same_db w); [done|done| | |done]; [apply Hi|]. destruct Hi as [_ [Hc|Hs]]; [left; by eapply collided_grows|right].
  cbn [forget w_caches]. intros p r s [_ E]%lookup_delete_Some. destruct (sound_caches _ Hs _ _ _ E) as [g Hd]. exists g. by eapply describes_grows.
Qed.

(** The ids a call draws were not drawn before. *)
Lemma drawn_new process cmd w (c : call InMemoryMetaState) (r : answer c) w' ids : serves process (Some cmd) w c r w' -> grows w w' ->
  (forall id, id ∈ ids -> w_uuids w !! id = Some cmd) ->
  (forall id, id ∈ drawn r ids -> w_uuids w' !! id = Some cmd) /\
  (forall id, id ∈ drawn r ids -> id ∈ ids \/ w_uuids w !! id = None).
Proof.
  intros Hs Hg Hids.
  assert (Hkeep : forall id, id ∈ ids -> w_uuids w' !! id = Some cmd).
  { intros id Hc%Hids. destruct Hg as (_ & Hsub & _). by eapply lookup_weaken. }
  destruct Hs as [| | | | | |id c [= <-]| |]; cbn [drawn]; try (split; [exact Hkeep|by left]).
  split; intros id' [->|Hid]%elem_of_cons; [cbn; by rewrite lookup_insert_eq|by apply Hkeep|by right|by left].
Qed.

Lemma reading_draws_none process w (c : call InMemoryMetaState) (r : answer c) w' : serves process None w c r w' -> drawn r [] = [].
Proof. by destruct 1. Qed.

Lemma system_inv_initial : system_inv initial_system.
Proof. split; [apply inv_initial|intros; simplify_map_eq..]. Qed.

(** What every step keeps: the world grows, and the ids of others are left alone. *)
Lemma others_kept s w : system_inv s -> (forall i m, s_mutations s !! i = Some m -> rely (m_ids m) (s_world s) w) -> rely [] (s_world s) w ->
  system_inv (System w (s_mutations s) (s_readings s)).
Proof.
  intros [Hi Hm Hd Hr] Hrely Hrely0. split; cbn; [apply Hrely0| |done|].
  - intros i m E. eapply mutation_ok_stable; eauto.
  - intros i t E. eapply reading_ok_stable; eauto.
Qed.

Lemma step_mutation_inv s i process cmd c k ids start r w : system_inv s ->
  s_mutations s !! i = Some (Mutation process cmd (Call c k) ids start) -> serves process (Some cmd) (s_world s) c r w ->
  guarantees ids (s_world s) w /\
  system_inv (System w (<[i := Mutation process cmd (k r) (drawn r ids) start]> (s_mutations s)) (s_readings s)).
Proof.
  intros Hs E Hc. pose proof Hs as [Hi Hm Hd Hr]. destruct (Hm _ _ E) as [Hids Hwp]. cbn in Hids, Hwp.
  destruct (Hwp _ (rely_refl _ _ Hi) _ _ Hc) as [Hg Hwp']. split; [done|].
  destruct (drawn_new _ _ _ _ _ _ _ Hc (proj1 (proj2 Hg)) Hids) as [Hnew Hold].
  assert (Hothers : forall j m, j <> i -> s_mutations s !! j = Some m -> rely (m_ids m) (s_world s) w).
  { intros j m Hne Ej. eapply guarantees_rely; [done|]. intros id Hid. split; [by eapply mutation_ok_drawn; eauto|].
    exact (Hd _ _ _ _ _ Hne Ej E Hid). }
  assert (Hfresh : forall j m id, j <> i -> s_mutations s !! j = Some m -> id ∈ m_ids m -> id ∉ drawn r ids).
  { intros j m id Hne Ej Hid [Hid'|Hn]%Hold; [by eapply (Hd j i)|]. destruct (mutation_ok_drawn _ _ _ (Hm _ _ Ej) Hid). congruence. }
  split; cbn.
  - apply Hg.
  - intros j m [[<- <-]|[Hne Ej]]%lookup_insert_Some; [by split|]. eapply mutation_ok_stable; eauto.
  - intros j j' m m' id Hne [[<- <-]|[Hj Ej]]%lookup_insert_Some [[<- <-]|[Hj' Ej']]%lookup_insert_Some; [done| | |exact (Hd _ _ _ _ _ Hne Ej Ej')].
    + intros Hid Hid'. by eapply (Hfresh j').
    + intros Hid. by eapply (Hfresh j).
  - intros j t Ej. eapply reading_ok_stable; [|eauto]. eapply guarantees_rely; [done|]. intros ? []%not_elem_of_nil.
Qed.

Lemma step_reading_inv s i process (A : Type) (read : checked Z -> meta A) c k start r w : system_inv s ->
  s_readings s !! i = Some (Reading process A read (Call c k) start) -> serves process None (s_world s) c r w ->
  guarantees [] (s_world s) w /\
  system_inv (System w (s_mutations s) (<[i := Reading process A read (k r) start]> (s_readings s))).
Proof.
  intros Hs E Hc. pose proof Hs as [Hi Hm Hd Hr]. pose proof (Hr _ _ E) as Hwp. cbn in Hwp.
  destruct (Hwp _ (rely_refl _ _ Hi) _ _ Hc) as [Hg Hwp']. rewrite (reading_draws_none _ _ _ _ _ Hc) in Hwp'. split; [done|].
  assert (Hrely : forall ids, (forall id, id ∈ ids -> is_Some (w_uuids (s_world s) !! id)) -> rely ids (s_world s) w).
  { intros ids Hids. eapply guarantees_rely; [done|]. intros id Hid. split; [by apply Hids|apply not_elem_of_nil]. }
  split; cbn; [apply Hg| |done|].
  - intros j m Ej. eapply mutation_ok_stable; [|eauto]. apply Hrely. intros id. by apply mutation_ok_drawn, (Hm _ _ Ej).
  - intros j t [[<- <-]|[Hne Ej]]%lookup_insert_Some; [done|]. eapply reading_ok_stable; [|eauto]. apply Hrely. intros ? []%not_elem_of_nil.
Qed.

Lemma called_inv s : system_inv s ->
  (forall i process c, s_mutations s !! i = None -> system_inv (System (s_world s)
    (<[i := Mutation process c (mutate_command c) [] (root_log (w_db (s_world s)))]> (s_mutations s)) (s_readings s))) /\
  (forall i process (A : Type) (read : checked Z -> meta A), system_inv (System (s_world s) (s_mutations s)
    (<[i := Reading process A read (read_eval read) (root_log (w_db (s_world s)))]> (s_readings s)))).
Proof.
  intros [Hi Hm Hd Hr]. split.
  - intros i process c Hn. split; cbn; [done| | |done].
    + intros j m [[<- <-]|[Hne Ej]]%lookup_insert_Some; [|eauto]. split; [intros ? []%not_elem_of_nil|].
      change (wp process (Some c) (mutate_attempts MAX_CAS_ATTEMPTS c) (answered c (root_log (w_db (s_world s)))) [] (s_world s)).
      apply wp_mutate_attempts; [done|done|intros ? []%not_elem_of_nil..|done].
    + intros j j' m m' id Hne [[<- <-]|[Hj Ej]]%lookup_insert_Some [[<- <-]|[Hj' Ej']]%lookup_insert_Some;
        [done|intros []%not_elem_of_nil|intros _; apply not_elem_of_nil|exact (Hd _ _ _ _ _ Hne Ej Ej')].
  - intros i process A read. split; cbn; [done|done|done|].
    intros j t [[<- <-]|[Hne Ej]]%lookup_insert_Some; [|eauto].
    change (wp process None (read_eval read) (read_answer read (root_log (w_db (s_world s)))) [] (s_world s)). by apply wp_read_eval.
Qed.

Lemma crash_inv s process : system_inv s ->
  system_inv (System (forget process (s_world s))
    (filter (fun t => m_process t.2 <> process) (s_mutations s)) (filter (fun t => r_process t.2 <> process) (s_readings s))).
Proof.
  intros Hs. pose proof (fun ids => forget_rely ids process _ (si_world _ Hs)) as Hrely.
  destruct (others_kept _ _ Hs (fun i m _ => Hrely (m_ids m)) (Hrely [])) as [Hi Hm Hd Hr]. split; cbn in *; [done| | |].
  - intros i m [E _]%map_lookup_filter_Some. eauto.
  - intros i j m m' id Hne [E _]%map_lookup_filter_Some [E' _]%map_lookup_filter_Some. eauto.
  - intros i t [E _]%map_lookup_filter_Some. eauto.
Qed.

Lemma system_step_inv s s' : system_inv s -> system_step s s' -> system_inv s'.
Proof.
  intros Hs Hst. destruct Hst.
  - by apply called_inv.
  - by apply called_inv.
  - by eapply step_mutation_inv.
  - by eapply step_reading_inv.
  - apply others_kept; [done|intros; eapply settles_rely; [apply Hs|done]..].
  - by apply crash_inv.
Qed.

Lemma running_inv s : running s -> system_inv s.
Proof. apply (rtc_ind_r system_inv); [apply system_inv_initial|]. intros s1 s2 _ Hst Hi. by eapply system_step_inv. Qed.

(** * Answers *)

(** No mutation that still runs makes requests under the id. *)
Definition closed (s : system) (id : string) : Prop :=
  is_Some (w_uuids (s_world s) !! id) /\
  forall i m, s_mutations s !! i = Some m -> id ∈ m_ids m -> exists r, m_prog m = Ret r.

Definition id_kept (s s' : system) (id : string) : Prop :=
  keeps (db_requests (w_db (s_world s)) !! id) (db_requests (w_db (s_world s')) !! id).

Lemma uuid_kept w w' id : grows w w' -> is_Some (w_uuids w !! id) -> is_Some (w_uuids w' !! id).
Proof. intros (_ & Hsub & _) [c Hc]. exists c. by eapply lookup_weaken. Qed.

Lemma step_grows s s' : system_inv s -> system_step s s' -> grows (s_world s) (s_world s').
Proof.
  intros Hs Hst. destruct Hst as [| | | |w Hw|process]; cbn [s_world]; [done|done|..].
  - by eapply step_mutation_inv.
  - by eapply step_reading_inv.
  - by apply (settles_rely [] _ _ (si_world _ Hs) Hw).
  - by apply (forget_rely [] process _ (si_world _ Hs)).
Qed.

Lemma steps_grow s s' : system_inv s -> rtc system_step s s' -> grows (s_world s) (s_world s').
Proof.
  intros Hs Hst. induction Hst as [s|s s1 s' Hst _ IH]; [done|]. etransitivity; [by eapply step_grows|].
  apply IH. by eapply system_step_inv.
Qed.

Lemma system_step_kept s s' id : system_inv s -> system_step s s' -> closed s id -> id_kept s s' id /\ closed s' id.
Proof.
  intros Hs Hst [Hu Hc]. pose proof (uuid_kept _ _ id (step_grows _ _ Hs Hst) Hu) as Hu'.
  enough (id_kept s s' id /\ forall i m, s_mutations s' !! i = Some m -> id ∈ m_ids m -> exists r, m_prog m = Ret r) by by (unfold closed; naive_solver).
  unfold id_kept. destruct Hst as [i process c Hn| |i process cmd c k ids start r w E Hsv|i process A read c k start r w E Hsv|w Hsv|process];
    cbn [s_world s_mutations].
  - split; [apply keeps_same|]. intros j m [[<- <-]|[_ Ej]]%lookup_insert_Some; [intros []%not_elem_of_nil|eauto].
  - split; [apply keeps_same|done].
  - destruct (step_mutation_inv _ _ _ _ _ _ _ _ _ _ Hs E Hsv) as [(_ & Hg & Hk) _].
    assert (Hid : id ∉ ids) by (intros Hid; by destruct (Hc _ _ E Hid)).
    rewrite (Hk id Hu Hid). split; [apply keeps_same|].
    intros j m [[<- <-]|[_ Ej]]%lookup_insert_Some; [|eauto]. cbn.
    destruct (drawn_new _ _ _ _ _ _ ids Hsv Hg (proj1 (si_mutations _ Hs _ _ E))) as [_ Hold].
    intros [|Hn]%Hold; [done|]. rewrite Hn in Hu. by destruct Hu.
  - destruct (step_reading_inv _ _ _ _ _ _ _ _ _ _ Hs E Hsv) as [(_ & Hg & Hk) _].
    rewrite (Hk id Hu (not_elem_of_nil _)). split; [apply keeps_same|done].
  - destruct (settles_rely [id] _ _ (si_world _ Hs) Hsv) as (_ & Hg & Hk). split; [apply Hk; by left|done].
  - split; [apply keeps_same|]. intros j m [Ej _]%map_lookup_filter_Some. eauto.
Qed.

Lemma system_steps_kept s s' id : system_inv s -> rtc system_step s s' -> closed s id -> id_kept s s' id /\ closed s' id.
Proof.
  intros Hs Hst. induction Hst as [s|s s1 s' Hst _ IH]; intros Hc; [split; [apply keeps_same|done]|].
  destruct (system_step_kept s s1 id Hs Hst Hc) as [Hk Hc1]. destruct (IH (system_step_inv _ _ Hs Hst) Hc1) as [Hk' Hc'].
  split; [by eapply keeps_trans|done].
Qed.

(** The ids of a mutation that was answered are closed. *)
Lemma answered_closed s i process c r ids start id : system_inv s ->
  s_mutations s !! i = Some (Mutation process c (Ret r) ids start) -> id ∈ ids -> closed s id.
Proof.
  intros Hs E Hid. pose proof (si_mutations _ Hs _ _ E) as Hm. split; [by eapply mutation_ok_drawn|].
  intros j m Ej Hj. destruct (decide (i = j)) as [<-|Hne]; [|by destruct (si_disjoint _ Hs _ _ _ _ _ Hne E Ej Hid)].
  rewrite E in Ej. injection Ej as <-. cbn. by eexists.
Qed.

Lemma idle_unlogged s id : system_inv s -> idle (s_world s) id -> id ∉ (root_log (w_db (s_world s))).*1.
Proof. intros Hs Hid ([id' v] & Eid & Hin)%list_elem_of_fmap. cbn in Eid. subst id'. eapply idle_unpublished; [apply Hs|done|done]. Qed.

Lemma root_log_once w : well_formed w -> NoDup (root_log (w_db w)).*1.
Proof.
  intros Hwf. pose proof (wf_once _ Hwf) as Hnd. unfold root_log. induction (db_log (w_db w)) as [|[id [key v]] l IH]; [constructor|].
  apply NoDup_cons in Hnd as [Hid Hnd]. cbn. case_bool_decide; [|by apply IH]. apply NoDup_cons. split; [|by apply IH].
  intros ([id' v'] & Eid & ([id0 [key0 v0]] & Hin & E)%list_elem_of_omap)%list_elem_of_fmap. case_bool_decide; [|done]. simplify_eq/=.
  apply Hid. apply list_elem_of_fmap. by exists (id', (ROOT_KEY, v')).
Qed.

(** * Theorems *)

(** C5: However processes interleave, stop and lose answers, the root is the snapshot of a
    state that the metadata service reaches, the last of a history in which every
    published root is made from the one before by the command it was published for; no
    request is published twice. *)
Theorem published_states_reachable s : running s ->
  NoDup (root_log (w_db (s_world s))).*1 /\
  (collided (s_world s) \/ exists g st,
    history (s_world s) (root_log (w_db (s_world s))) (db_kv (w_db (s_world s)) !! ROOT_KEY) g st /\ reachable st).
Proof.
  intros [[Hwf Hi] _ _ _]%running_inv. split; [by apply root_log_once|]. destruct Hi as [|Hs]; [by left|right].
  destruct (sound_history _ Hs) as (g & st & Hh). exists g, st. split; [done|by eapply history_reachable].
Qed.

(** C4: The answer to a mutation says what happened to it, then and ever after: an outcome
    is that of one command in the history, made after the call; after an error at most
    one of its requests is or will be published, and none unless the error is
    indeterminate or the error of the database with a code that is neither one of
    [commit_unknown], [timeout], [deadline_exceeded] and [invalid_response] nor one
    with which the database refuses. *)
Theorem mutation_answer_exact s s' i process c r ids start :
  running s -> s_mutations s !! i = Some (Mutation process c (Ret r) ids start) -> rtc system_step s s' ->
  collided (s_world s') \/
  match r with
  | Ok out => exists id v l root g st st', id ∈ ids /\ start `prefix_of` l /\ l ++ [(id, v)] `prefix_of` root_log (w_db (s_world s)) /\
      history (s_world s) l root g st /\ moves c out st st' /\ history (s_world s) (l ++ [(id, v)]) (Some v) (g + 1) st' /\
      forall j, j ∈ ids -> j <> id -> j ∉ (root_log (w_db (s_world s'))).*1
  | Err e => (exists id, forall j, j ∈ ids -> j <> id -> j ∉ (root_log (w_db (s_world s'))).*1) /\
      (unsettled e \/ forall j, j ∈ ids -> j ∉ (root_log (w_db (s_world s'))).*1)
  end.
Proof.
  intros Hs E Hst. pose proof (running_inv s Hs) as Hi. assert (Hi' : system_inv s') by (apply running_inv; exact (transitivity Hs Hst)).
  destruct (si_mutations _ Hi _ _ E) as [Hids [_ Ha]].
  assert (Hnever : forall j, j ∈ ids -> idle (s_world s) j -> j ∉ (root_log (w_db (s_world s'))).*1).
  { intros j Hj Hidle. apply idle_unlogged; [done|]. eapply idle_kept; [|exact Hidle].
    apply system_steps_kept; [done|done|by eapply answered_closed]. }
  destruct r as [out|e]; cbn in Ha; [|right].
  - destruct Ha as (id & v & st' & Hid & Hothers & Hp). destruct Hp as [Hc|(l & root & g & st & Hl & Hpre & Hh & Hm & Hd)].
    + left. eapply collided_grows; [exact (steps_grow _ _ Hi Hst)|done].
    + right. exists id, v, l, root, g, st, st'. split_and!; try done; [|eauto]. econstructor; [done|by apply Hids|done|done].
  - destruct Ha as [[id Hid] Ha]. split; [exists id; eauto|]. destruct Ha; [by left|right; eauto].
Qed.

(** C6: What a read returns is the answer in one state of the history, published between
    its call and its return. *)
Theorem reads_linearizable s i process (A : Type) (read : checked Z -> meta A) a start :
  running s -> s_readings s !! i = Some (Reading process A read (Ret (Ok a)) start) ->
  collided (s_world s) \/ exists l root g st, start `prefix_of` l /\ l `prefix_of` root_log (w_db (s_world s)) /\
    history (s_world s) l root g st /\ reachable st /\ (read (Ok (partition_authority_now_unix_ms st)) st).1 = Ok a.
Proof.
  intros Hs%running_inv E. pose proof (si_readings _ Hs _ _ E) as Hr. cbn in Hr.
  destruct Hr as [[? [=]]|(root & st & [Hc|(l & g & ? & ? & Hh)] & Ha)]; [by left|right]. exists l, root, g, st.
  split_and!; [done|done|done|by eapply history_reachable|done].
Qed.
End system.

(** * Superseded owners *)

Section fencing.
Context `{Sha256Laws, SerdeJson, RelationCodec, MetaEnv, Base64Laws, Refusals, !ManifestReader, !ManifestReaderLaws, !SnapshotFormat, !SnapshotFormatLaws, !ArrowStreams, !ArrowStreamsLaws}.

(** ** Histories *)

Lemma history_root w l r g s : history w l r g s -> r = snd <$> last l.
Proof. destruct 1; [done|]. by rewrite last_snoc. Qed.

(** Later states of one history are reached from earlier ones. *)
Lemma history_steps w l r g s l' r' g' s' : history w l r g s -> history w l' r' g' s' -> l `prefix_of` l' ->
  collided w \/ meta_steps s s'.
Proof.
  intros Hh Hh'. revert Hh. induction Hh' as [|l' r' g' s' id v c out s2 Hh' IH Hu Hm Hd]; intros Hh Hpre.
  - apply prefix_nil_inv in Hpre as ->. pose proof (history_root _ _ _ _ _ Hh) as Hr. cbn in Hr. subst r.
    destruct (history_unique _ _ _ _ _ _ _ _ Hh (HistoryStart w)) as [|[_ ->]]; [by left|right; apply rtc_refl].
  - destruct (decide (l = l' ++ [(id, v)])) as [->|Hne].
    + pose proof (history_root _ _ _ _ _ Hh) as Hr. rewrite last_snoc in Hr. cbn in Hr. subst r.
      destruct (describes_unique _ _ _ _ _ _ (history_describes _ _ _ _ _ Hh) Hd) as [|[_ ->]]; [by left|right; apply rtc_refl].
    + assert (Hl : l `prefix_of` l').
      { destruct Hpre as [k Hk]. destruct k as [|x k _] using rev_ind; [by rewrite app_nil_r in Hk|].
        rewrite (assoc_L (++)) in Hk. apply app_inj_tail in Hk as [-> _]. by apply prefix_app_r. }
      destruct (IH Hh Hl) as [|Hs]; [by left|right]. etransitivity; [exact Hs|by eapply moves_steps].
Qed.

(** ** Owners *)

(** The owner that gives a command. *)
Definition uses_owner (c : command) : option StandingRuntimeOwnerToken :=
  match c with
  | PublishStandingRuntimeCheckpoint q => Some (pk_owner q)
  | FixViewBootstrapActivationCut q => Some (fx_owner q)
  | PromoteViewBootstrap q => Some (pm_owner q)
  | PromoteViewBootstrapWithActiveViewRecord q => Some (pm_owner (vp_bootstrap q))
  | RenewStandingRuntimeOwner owner _ => Some owner
  | _ => None
  end.

Lemma fenced_command t s c clock : fenced_out t s -> uses_owner c = Some t -> exists e, evaluate c clock s = (Err e, s).
Proof.
  intros Hf Hc. destruct (Hf clock) as (Hpub & Hfix & Hprom & Hpromr & Hrenew). destruct c; cbn in Hc; try done; injection Hc as Hc; cbn.
  - by apply Hfix.
  - by apply Hprom.
  - by apply Hpromr.
  - subst. apply Hrenew.
  - by apply Hpub.
Qed.

(** C7: A command of an owner that was superseded in a published state before the command
    was called is answered with an error, whichever process it is given to. *)
Theorem replicated_owner_fenced s i process c r ids start t l root g st claim :
  running s -> s_mutations s !! i = Some (Mutation process c (Ret r) ids start) -> uses_owner c = Some t ->
  history (s_world s) l root g st -> l `prefix_of` start ->
  standing_runtime_owners st !! token_scope t = Some claim -> superseded t claim ->
  collided (s_world s) \/ exists e, r = Err e.
Proof.
  intros Hs%running_inv E Ht Hh Hl Hclaim Hsup. destruct r as [out|e]; [|right; by exists e].
  destruct (si_mutations _ Hs _ _ E) as [_ Ha]. change (answered c start ids (Ok out) (s_world s)) in Ha.
  destruct Ha as [_ (id & v & st' & _ & _ & Hp)].
  destruct Hp as [|(l' & root' & g' & s1 & Hst & _ & Hh' & (tick & _ & Hev) & _)]; [by left|].
  destruct (history_steps _ _ _ _ _ _ _ _ _ Hh Hh' ltac:(by etransitivity)) as [|Hsteps]; [by left|].
  assert (Hsteps' : meta_steps st (with_partition_authority_now_unix_ms tick s1)) by (eapply rtc_r; [done|apply StepTick]).
  destruct (fenced_command t (with_partition_authority_now_unix_ms tick s1) c (Ok tick)) as [e He]; [|done|].
  - apply refused_fenced. intros key now. exact (superseded_refused st _ t claim key now (history_reachable _ _ _ _ _ Hh) Hsteps' Hclaim Hsup).
  - unfold evaluated_at in Hev. by rewrite He in Hev.
Qed.
End fencing.
