(* ===== verification/RhizaDurable.v ===== *)
(** A published snapshot can be read: its root and its pages keep within the limits of
    the store and of the snapshot protocol, and a process whose calls are answered loads
    the state that was published last. *)
From S2P Require Import Prelude BTree Json Digits ArrowState Segments ObjectKey ObjectKeyProofs Hash Relation Serde JsonText StandingProgram MetaTypes SourceCut ViewBootstrap MetaRequests MetaStore MetaMachine SnapshotCodec RhizaKv RhizaSnapshot RhizaMeta RhizaDb RhizaInvariant RhizaPrograms RhizaSystem.

(** * Chunks *)

Lemma chunks_fuel_spec fuel size l : (0 < size)%nat -> (length l <= fuel)%nat ->
  concat (chunks_fuel fuel size l) = l /\
  Z.of_nat (length (chunks_fuel fuel size l)) = div_ceil (Z.of_nat (length l)) (Z.of_nat size) /\
  Forall (fun c => (length c <= size)%nat) (chunks_fuel fuel size l).
Proof.
  intros Hsize. assert (Hempty : div_ceil 0 (Z.of_nat size) = 0) by (unfold div_ceil; apply Z.div_small; lia).
  revert l. induction fuel as [|fuel IH]; intros l Hl; [by destruct l; [|cbn in Hl; lia]|].
  destruct l as [|x l]; [done|]. cbn [chunks_fuel]. set (xs := x :: l) in *.
  assert (Hxs : (0 < length xs)%nat) by (cbn; lia).
  destruct (IH (drop size xs)) as (Hc & Hn & Hf); [rewrite length_drop; lia|]. split_and!.
  - cbn [concat]. rewrite Hc. apply take_drop.
  - cbn [length]. rewrite Nat2Z.inj_succ, Hn, length_drop. destruct (decide (length xs <= size)%nat) as [Hle|Hgt].
    + replace (length xs - size)%nat with 0%nat by lia. change (Z.of_nat 0) with 0. rewrite Hempty. unfold div_ceil.
      apply Z.div_unique with (r := Z.of_nat (length xs) - 1); lia.
    + unfold div_ceil. replace (Z.of_nat (length xs) + Z.of_nat size - 1)
        with (Z.of_nat (length xs - size) + Z.of_nat size - 1 + 1 * Z.of_nat size) by lia. rewrite Z.div_add by lia. lia.
  - constructor; [rewrite length_take; lia|done].
Qed.

Lemma page_size_eq : Z.of_nat page_size = PAGE_BYTES.
Proof. unfold page_size. by rewrite Z2Nat.id by by vm_compute. Qed.

Lemma pages_spec body :
  concat (chunks page_size body) = body /\
  Z.of_nat (length (chunks page_size body)) = div_ceil (Z.of_nat (length body)) PAGE_BYTES /\
  forall c, c ∈ chunks page_size body -> Z.of_nat (length c) <= PAGE_BYTES.
Proof.
  assert (HP : 0 < PAGE_BYTES) by by vm_compute. pose proof page_size_eq as Hps.
  destruct (chunks_fuel_spec (length body) page_size body) as (Hc & Hn & Hf); [lia|done|]. rewrite Hps in Hn. split_and!; [done|done|].
  intros c Hin. rewrite Forall_forall in Hf. specialize (Hf c Hin). cbn beta in Hf. lia.
Qed.

Lemma pages_few body : Z.of_nat (length body) <= MAX_SNAPSHOT_BYTES -> Z.of_nat (length (chunks page_size body)) <= 128.
Proof.
  intros Hl. destruct (pages_spec body) as (_ & -> & _). unfold div_ceil.
  change MAX_SNAPSHOT_BYTES with 8388608 in Hl. change PAGE_BYTES with 65536.
  assert ((Z.of_nat (length body) + 65536 - 1) / 65536 < 129); [|lia]. apply Z.div_lt_upper_bound; lia.
Qed.

(** * Texts *)

(** A character that a JSON string holds as it is. *)
Definition plain_char (c : Ascii.ascii) : bool :=
  (32 <=? byte_of_ascii c) && (byte_of_ascii c <? 127) && negb (byte_of_ascii c =? 34) && negb (byte_of_ascii c =? 92).

(** [serde_json] writes printable ASCII characters other than the quote and the
    backslash as they are. *)
Class PlainStrings `{SerdeJson} : Prop := {
  ser_string_plain s : all_bytes plain_char s = true -> as_bytes (ser_string s) = 34 :: as_bytes s ++ [34]
}.

Lemma lower_hex_byte b : 0 <= b < 256 ->
  all_bytes (fun c => is_ascii_hexdigit c && negb (is_ascii_uppercase c) && plain_char c) (hex_byte b) = true.
Proof.
  intros Hb. assert (forallb (fun b => all_bytes (fun c => is_ascii_hexdigit c && negb (is_ascii_uppercase c) && plain_char c) (hex_byte b))
    (seqZ 0 256) = true) as Hall by (vm_compute; reflexivity).
  rewrite forallb_forall in Hall. apply Hall. rewrite <-list_elem_of_In, elem_of_seqZ. lia.
Qed.

Lemma join_length sep (l : list bytes) n : (forall t, t ∈ l -> (length t <= n)%nat) ->
  (length (join [sep] l) <= length l * S n)%nat.
Proof.
  destruct l as [|t l]; intros Hl; [done|]. unfold join. rewrite length_app. assert (Ht : (length t <= n)%nat) by (apply Hl; by left).
  assert (length (concat ((fun y => [sep] ++ y) <$> l)) <= length l * S n)%nat; [|cbn [length]; lia].
  assert (Hl' : forall t, t ∈ l -> (length t <= n)%nat) by (intros; apply Hl; by right). clear Hl Ht.
  induction l as [|t' l IH]; [done|]. rewrite fmap_cons. cbn [concat]. rewrite !length_app. cbn [length]. assert (length t' <= n)%nat by (apply Hl'; by left).
  specialize (IH ltac:(intros; apply Hl'; by right)). lia.
Qed.

Section durable.
Context `{Sha256Laws, SerdeJsonLaws, RelationCodec, MetaEnv, Base64Laws, Refusals, !ManifestReader, !ManifestReaderLaws, !SnapshotFormat, !SnapshotFormatLaws, !ArrowStreams, !ArrowStreamsLaws, !PlainStrings}.

Lemma hex_digest_plain b :
  all_bytes (fun c => is_ascii_hexdigit c && negb (is_ascii_uppercase c) && plain_char c) (hex_digest b) = true.
Proof.
  unfold hex_digest. induction (sha256_bytes b) as [|x l Hx _ IH]; [done|]. rewrite fmap_cons, concat_cons, all_bytes_app, IH, andb_true_r.
  by apply lower_hex_byte.
Qed.

Lemma hex_digest_page b : is_page_digest (hex_digest b) = true.
Proof.
  unfold is_page_digest. rewrite hex_digest_length. cbn. eapply all_bytes_weaken; [|apply hex_digest_plain].
  intros c. cbn. by rewrite !andb_true_iff; intros [? ?].
Qed.

Lemma plain_length s : all_bytes plain_char s = true -> length (as_bytes (ser_string s)) = (String.length s + 2)%nat.
Proof. intros Hs. rewrite ser_string_plain by done. cbn. rewrite length_app, length_as_bytes. cbn. lia. Qed.

Lemma digest_length b : length (as_bytes (ser_string (hex_digest b))) = 66%nat.
Proof.
  rewrite plain_length, hex_digest_length; [done|]. eapply all_bytes_weaken; [|apply hex_digest_plain].
  intros c. cbn. by rewrite andb_true_iff; intros [_ ?].
Qed.

Lemma unsigned_length n : 0 <= n <= u64_max -> (length (as_bytes (ser_number (PosInt n))) <= 20)%nat.
Proof.
  intros Hn. rewrite ser_number_pos, length_as_bytes by done. unfold u64_max in Hn.
  assert (18446744073709551615 < 10 ^ 20) by done. assert (18446744073709551615 < 10 ^ 39) by done.
  apply length_nat_to_string; [lia|change (Z.of_nat 20) with 20; lia|done].
Qed.

Lemma page_list_length cs : (length (join [44%Z] (to_vec <$> (JString <$> (hex_digest <$> cs)))) <= length cs * 67)%nat.
Proof.
  rewrite <-!list_fmap_compose. etransitivity; [apply (join_length _ _ 66)|by rewrite length_fmap].
  intros t (c & -> & _)%list_elem_of_fmap. cbn. by rewrite digest_length.
Qed.

(** A root of a snapshot fits the limit on roots. *)
Lemma root_length g body : 1 <= g <= u64_max -> Z.of_nat (length body) <= MAX_SNAPSHOT_BYTES ->
  Z.of_nat (length (root_text g body)) <= 16 * 1024.
Proof.
  intros Hg Hl. pose proof (pages_few body Hl) as Hfew. pose proof (page_list_length (chunks page_size body)) as Hpages.
  assert (MAX_SNAPSHOT_BYTES <= u64_max) by by vm_compute. assert (1 <= u64_max) by by vm_compute.
  pose proof (unsigned_length 1 ltac:(lia)). pose proof (unsigned_length g ltac:(lia)).
  pose proof (unsigned_length (Z.of_nat (length body)) ltac:(lia)). pose proof (digest_length body).
  pose proof (plain_length "schema_version" eq_refl) as L1. pose proof (plain_length "generation" eq_refl) as L2.
  pose proof (plain_length "pages" eq_refl) as L3. pose proof (plain_length "len" eq_refl) as L4.
  pose proof (plain_length "content_digest" eq_refl) as L5. cbn [String.length] in L1, L2, L3, L4, L5.
  assert (E : root_text g body = [123] ++ join [44] [as_bytes (ser_string "schema_version") ++ 58 :: as_bytes (ser_number (PosInt 1));
    as_bytes (ser_string "generation") ++ 58 :: as_bytes (ser_number (PosInt g));
    as_bytes (ser_string "pages") ++ 58 :: [91] ++ join [44] (to_vec <$> (JString <$> (hex_digest <$> chunks page_size body))) ++ [93];
    as_bytes (ser_string "len") ++ 58 :: as_bytes (ser_number (PosInt (Z.of_nat (length body))));
    as_bytes (ser_string "content_digest") ++ 58 :: as_bytes (ser_string (hex_digest body))] ++ [125]) by done.
  rewrite E. unfold join at 1. cbn [fmap list_fmap concat]. repeat (rewrite length_app || cbn [length]).
  lia.
Qed.

(** A root is read back as what it was written from. *)
Lemma parse_root g body : 1 <= g <= u64_max -> Z.of_nat (length body) <= MAX_SNAPSHOT_BYTES ->
  parse_manifest (root_text g body) = Ok (manifest_of g body).
Proof.
  intros Hg Hl. unfold parse_manifest. rewrite (proj2 (Z.ltb_ge _ _) (root_length g body Hg Hl)). cbn [fail_if mbind result_bind].
  rewrite root_text_read by done. cbn [ok_or mbind result_bind manifest_of sm_schema_version sm_generation sm_len sm_pages].
  destruct (pages_spec body) as (_ & Hn & _). rewrite length_fmap, Hn, !Z.eqb_refl, (proj2 (Z.ltb_ge _ _) Hl), (proj2 (Z.eqb_neq g 0)) by lia.
  cbn. replace (existsb _ _) with false; [done|]. symmetry. apply not_true_is_false. rewrite existsb_exists.
  intros (p & Hin%list_elem_of_In & Hp). apply list_elem_of_fmap in Hin as (c & -> & _). by rewrite hex_digest_page in Hp.
Qed.

(** C26: The pages and the root of a snapshot that is not too large fit the limits on the
    mutations of the store and the limit on roots, and the root is read back. *)
Theorem snapshot_within_bounds g body expected : 1 <= g <= u64_max -> Z.of_nat (length body) <= MAX_SNAPSHOT_BYTES ->
  (expected = 0 \/ exists g' body', 1 <= g' <= u64_max /\ Z.of_nat (length body') <= MAX_SNAPSHOT_BYTES /\
    expected = Z.of_nat (length (root_text g' body'))) ->
  (forall chunk, chunk ∈ chunks page_size body ->
    check_mutation_size (page_key (hex_digest chunk)) (Z.of_nat (length chunk)) 0 = Ok tt) /\
  check_mutation_size ROOT_KEY (Z.of_nat (length (root_text g body))) expected = Ok tt /\
  parse_manifest (root_text g body) = Ok (manifest_of g body).
Proof.
  intros Hg Hl Hexp. pose proof (root_length g body Hg Hl) as Hroot.
  assert (He : 0 <= expected <= 16 * 1024).
  { destruct Hexp as [->|(g' & body' & Hg' & Hl' & ->)]; [lia|]. pose proof (root_length g' body' Hg' Hl'). lia. }
  assert (Hceil : forall n m, 0 <= n <= m -> 0 <= base64_len n <= base64_len m).
  { intros n m Hnm. unfold base64_len, div_ceil. pose proof (Z.div_pos (n + 3 - 1) 3 ltac:(lia) ltac:(lia)).
    pose proof (Z.div_le_mono (n + 3 - 1) (m + 3 - 1) 3 ltac:(lia) ltac:(lia)). lia. }
  assert (Hfit : forall key v e, 0 <= v <= PAGE_BYTES -> 0 <= e <= 16 * 1024 -> (String.length key <= 100)%nat ->
    check_mutation_size key v e = Ok tt).
  { intros key v e Hv%Hceil Hee%Hceil Hk. unfold check_mutation_size, estimated_mutation_bytes. cbn zeta.
    change (base64_len PAGE_BYTES) with 87384 in Hv. change (base64_len (16 * 1024)) with 21848 in Hee.
    by rewrite (proj2 (Z.ltb_ge _ _)) by (unfold MAX_REPLICATED_MUTATION_BYTES; lia). }
  assert (16 * 1024 <= PAGE_BYTES) by by vm_compute. split_and!.
  - intros chunk Hc. destruct (pages_spec body) as (_ & _ & Hp). specialize (Hp chunk Hc). apply Hfit; [lia|lia|].
    rewrite <-length_as_bytes. unfold page_key. rewrite as_bytes_app, length_app, !length_as_bytes, hex_digest_length. cbn. lia.
  - apply Hfit; [lia|done|cbn; lia].
  - by apply parse_root.
Qed.

(** * Calls that are answered *)

(** The answer of a store that is up, to the calls of a read. *)
Definition respond (process : nat) (w : world) (c : call InMemoryMetaState) : option (answer c * world) :=
  match c with
  | KvGet key => Some (Replied (Ok (found_json (db_kv (w_db w) !! key))), w)
  | Digest body => Some (hex_digest body, World (w_db w) (body :: w_digests w) (w_uuids w) (w_caches w))
  | CacheRead => Some (w_caches w !! process, w)
  | CacheWrite entry => Some (tt, World (w_db w) (w_digests w) (w_uuids w) (partial_alter (fun _ => entry) process (w_caches w)))
  | KvCas _ | RequestStatusOf _ | NewUuid => None
  end.

Lemma respond_serves process label w c r w' : respond process w c = Some (r, w') -> serves process label w c r w'.
Proof. destruct c; cbn; intros [= <- <-]; constructor. Qed.

(** A program whose calls are answered, with nothing in between. *)
Fixpoint run {A} (process : nat) (p : prog InMemoryMetaState A) (w : world) : option (A * world) :=
  match p with
  | Ret a => Some (a, w)
  | Call c k => match respond process w c with Some (r, w') => run process (k r) w' | None => None end
  end.

Lemma run_prog_bind {A B} process (p : prog InMemoryMetaState A) (f : A -> prog InMemoryMetaState B) w a w' :
  run process p w = Some (a, w') -> run process (bind p f) w = run process (f a) w'.
Proof.
  revert w. induction p as [a0|c k IH]; intros w; cbn; [by intros [= <- <-]|]. destruct (respond process w c) as [[r w1]|]; [apply IH|done].
Qed.

Lemma run_prog_then {A B E} process (p : prog InMemoryMetaState (result E A)) (f : A -> prog InMemoryMetaState (result E B)) w a w' :
  run process p w = Some (Ok a, w') -> run process (and_then p f) w = run process (f a) w'.
Proof. apply (run_prog_bind process p (fun r => match r with Ok a => f a | Err e => Ret (Err e) end)). Qed.

Lemma run_check {A B E} process (a : A) (f : A -> prog InMemoryMetaState (result E B)) w :
  run process (and_then (check (Ok a)) f) w = run process (f a) w.
Proof. done. Qed.

Lemma run_map_error {A E F} process (f : E -> F) (p : prog InMemoryMetaState (result E A)) w a w' :
  run process p w = Some (Ok a, w') -> run process (map_error f p) w = Some (Ok a, w').
Proof. intros E0. unfold map_error. by rewrite (run_prog_bind _ _ _ _ _ _ E0). Qed.

Lemma run_prog_get process key w : run process (get key) w = Some (Ok (db_kv (w_db w) !! key), w).
Proof. cbn. by rewrite read_found_json. Qed.

Lemma run_load_pages process cs body w :
  (forall c, c ∈ cs -> stored w (hex_digest c) c /\ Z.of_nat (length c) <= PAGE_BYTES) ->
  Z.of_nat (length (body ++ concat cs)) <= MAX_SNAPSHOT_BYTES ->
  exists w', run process (load_pages (hex_digest <$> cs) body) w = Some (Ok (body ++ concat cs), w').
Proof.
  revert body w. induction cs as [|c cs IH]; intros body w Hcs Hl; [exists w; cbn; by rewrite app_nil_r|].
  rewrite fmap_cons. cbn [load_pages]. destruct (Hcs c) as [Hst Hc]; [by left|]. unfold stored in Hst.
  erewrite run_prog_then by (apply run_map_error, run_prog_get). rewrite Hst. cbn [ok_or]. rewrite run_check. cbn [run respond].
  rewrite String.eqb_refl. cbn [negb fail_if]. rewrite run_check. cbn [concat] in Hl |- *. rewrite (assoc_L (++)) in Hl |- *.
  rewrite length_app in Hl. rewrite (proj2 (Z.ltb_ge _ _) Hc), (proj2 (Z.ltb_ge MAX_SNAPSHOT_BYTES _)) by (rewrite length_app in Hl; lia).
  cbn [orb fail_if]. rewrite run_check. match goal with |- context [run process _ ?w1] => destruct (IH (body ++ c) w1) as [w' Hrun] end.
  - intros c' Hc'. apply (Hcs c'). by right.
  - rewrite length_app. lia.
  - by exists w'.
Qed.

Lemma run_load_at process g body w : 1 <= g <= u64_max -> Z.of_nat (length body) <= MAX_SNAPSHOT_BYTES ->
  (forall c, c ∈ chunks page_size body -> stored w (hex_digest c) c) ->
  exists w', run process (load_at (root_text g body)) w = Some (Ok (root_text g body, body), w').
Proof.
  intros Hg Hl Hst. unfold load_at. rewrite parse_root, run_check by done. destruct (pages_spec body) as (Hbody & Hn & Hsize).
  cbn [manifest_of sm_schema_version sm_len sm_pages sm_content_digest]. rewrite (proj2 (Z.ltb_ge _ _) Hl). change (1 =? 1) with true.
  cbn [negb orb fail_if]. rewrite run_check. pose proof (pages_few body Hl) as Hfew. rewrite length_fmap.
  change (MAX_SNAPSHOT_BYTES / PAGE_BYTES + 1) with 129. rewrite (proj2 (Z.ltb_ge _ _)) by lia. cbn [fail_if]. rewrite run_check.
  destruct (run_load_pages process (chunks page_size body) [] w) as [w1 Hrun]; [auto|by rewrite Hbody|].
  rewrite (run_prog_then _ _ _ _ _ _ Hrun). cbn [app]. rewrite Hbody, Z.eqb_refl. cbn [negb run respond]. rewrite String.eqb_refl.
  cbn [negb fail_if]. rewrite run_check. by eexists.
Qed.

(** The state that was published last is loaded. *)
Lemma run_load_state process w g st : inv w -> describes w (db_kv (w_db w) !! ROOT_KEY) g st ->
  collided w \/ exists w', run process load_state w = Some (Ok (db_kv (w_db w) !! ROOT_KEY, st), w').
Proof.
  intros Hi Hd. unfold load_state, root. erewrite run_prog_then by (apply run_map_error, run_map_error, run_prog_get).
  destruct (db_kv (w_db w) !! ROOT_KEY) as [current|]; [|right; destruct Hd as [_ ->]; by eexists].
  cbn [run respond]. destruct (cached_state (w_caches w !! process) current) as [s|] eqn:Ec.
  { destruct (cached_described process w current s Hi Ec) as [|[g' Hd']]; [by left|].
    destruct (describes_unique _ _ _ _ _ _ Hd Hd') as [|[_ <-]]; [by left|right]. by eexists. }
  right. cbn [run respond]. rewrite Ec. destruct Hd as (body & Henc & -> & Hg & Hl & _ & Hst).
  destruct (run_load_at process g body w Hg Hl Hst) as [w1 Hrun].
  rewrite (run_prog_then _ _ _ _ _ _ (run_map_error _ _ _ _ _ _ Hrun)). cbn [fst snd]. rewrite (snapshot_round_trip _ _ Henc). cbn [map_err].
  rewrite run_check. cbn [run respond]. by eexists.
Qed.

(** C24: In every state of the system, a read whose calls are answered returns the answer in
    the state that was published last. *)
Theorem published_state_served s process (A : Type) (read : checked Z -> meta A) : running s ->
  collided (s_world s) \/ exists g st w',
    history (s_world s) (root_log (w_db (s_world s))) (db_kv (w_db (s_world s)) !! ROOT_KEY) g st /\
    run process (read_eval read) (s_world s) = Some ((read (Ok (partition_authority_now_unix_ms st)) st).1, w').
Proof.
  intros [Hi _ _ _]%running_inv. destruct (current_history _ Hi) as [|(g & st & Hh)]; [by left|].
  destruct (run_load_state process _ g st Hi (history_describes _ _ _ _ _ Hh)) as [|[w' Hrun]]; [by left|right].
  exists g, st, w'. split; [done|]. unfold read_eval. by rewrite (run_prog_then _ _ _ _ _ _ Hrun).
Qed.
End durable.
