(* ===== verification/AppendOnly.v ===== *)
(** Programs that only create objects.

    Such a program never replaces or deletes an object, so whatever it finds in
    the store stays there when every other writer is of this kind. [adding] is
    what a program establishes when the store only grows around it. *)
From stdpp Require Import sorting.
From S2P Require Import Prelude BTree Json Digits Segments ObjectStore.

Definition creates (c : call) : bool := match c with Put _ _ | Delete _ => false | _ => true end.

Fixpoint create_only {A} (p : prog A) : Prop :=
  match p with
  | Ret _ => True
  | Call c k => creates c = true /\ forall r, create_only (k r)
  end.

Lemma read_only_create_only {A} (p : prog A) : read_only p -> create_only p.
Proof. induction p as [a|c k IH]; [done|]. intros [Hc Hk]. split; [by destruct c|auto]. Qed.

Lemma create_only_bind {A B} (p : prog A) (f : A -> prog B) :
  create_only p -> (forall a, create_only (f a)) -> create_only (bind p f).
Proof. intros Hp Hf. induction p as [a|c k IH]; cbn in *; naive_solver. Qed.

Lemma create_only_and_then {E A B} (p : prog (result E A)) (f : A -> prog (result E B)) :
  create_only p -> (forall a, create_only (f a)) -> create_only (x ←! p; f x).
Proof. intros Hp Hf. apply create_only_bind; [done|]. by intros [a|e]; [apply Hf|]. Qed.

Lemma create_only_request c : creates c = true -> create_only (request c).
Proof. by cbn. Qed.

Lemma create_only_collect {E A B} (f : A -> prog (result E B)) l :
  (forall x, create_only (f x)) -> create_only (collect f l).
Proof.
  intros Hf. induction l; cbn [collect]; [done|]. apply create_only_and_then; [done|].
  intros y. by apply create_only_and_then.
Qed.
Lemma create_only_fold_each {E A S} (f : S -> A -> prog (result E S)) s l :
  (forall s x, create_only (f s x)) -> create_only (fold_each f s l).
Proof. intros Hf. revert s. induction l; intros s; cbn [fold_each]; [done|]. by apply create_only_and_then. Qed.

#[export] Hint Resolve create_only_bind create_only_and_then create_only_request create_only_collect
  create_only_fold_each : programs.

(** Proves that a program only reads, or only creates, from its shape. *)
Ltac only_reads :=
  repeat match goal with
  | |- forall _, _ => intros ?
  | |- read_only (Ret _) => exact I
  | |- read_only (request _) => by apply read_only_request
  | |- read_only (and_then _ _) => apply read_only_and_then
  | |- read_only (bind _ _) => apply read_only_bind
  | |- read_only (collect _ _) => apply read_only_collect
  | |- read_only (fold_each _ _ _) => apply read_only_fold_each
  | |- read_only (match ?x with _ => _ end) => destruct x
  | |- read_only _ => by auto with programs
  end.
Ltac only_creates :=
  repeat match goal with
  | |- forall _, _ => intros ?
  | |- create_only (Ret _) => exact I
  | |- create_only (request _) => by apply create_only_request
  | |- create_only (and_then _ _) => apply create_only_and_then
  | |- create_only (bind _ _) => apply create_only_bind
  | |- create_only (match ?x with _ => _ end) => destruct x
  | |- create_only _ => by auto with programs
  | |- create_only _ => by apply read_only_create_only; auto with programs
  end.

(** * The store grows *)

(** What a request of such a program does. *)
Definition adds (o : objects) (c : call) (o' : objects) : Prop := o ⊆ o'.

Lemma answers_adds o c r o' : creates c = true -> answers o c r o' -> o ⊆ o'.
Proof.
  destruct c; try done; intros _; cbn.
  1,2,4,5,6: by intros [-> _].
  assert (o !! location = None -> o ⊆ <[location:=body]> o) as Hins by (intros; by apply insert_subseteq).
  destruct r as [u|[]]; intros Hans; try (destruct Hans as [->|[? ->]]; auto); try (by destruct Hans as [_ ->]).
  all: destruct Hans as [? ->]; auto.
Qed.

Lemma adds_grows o c o' : adds o c o' -> o ⊆ o'.
Proof. done. Qed.
Lemma adds_read o c : writes c = false -> adds o c o.
Proof. by intros _; apply map_subseteq_po. Qed.
#[export] Hint Resolve adds_grows adds_read : core.

Lemma create_only_wp {A} (p : prog A) o : create_only p -> wp (⊆) adds p (fun _ _ => True) o.
Proof.
  revert o. induction p as [a|c k IH]; intros o; [done|]. intros [Hc Hk] o1 r o2 _ Hans.
  split; [by eapply answers_adds|auto].
Qed.

(** * What a program that only reads establishes *)

(** Nothing changes. *)
Definition keeps (o : objects) (c : call) (o' : objects) : Prop := o' = o.

Section reading.
Context (R : relation objects) `{!PreOrder R}.

(** [R] is what the other writers do meanwhile. *)
Definition reading {E A} (p : prog (result E A)) (post : A -> objects -> Prop) (o : objects) : Prop :=
  ensures R keeps p post o.

Lemma keeps_rely o c o' : keeps o c o' -> R o o'.
Proof using Type*. by intros ->. Qed.
Lemma keeps_reading o c : writes c = false -> keeps o c o.
Proof using Type. done. Qed.
#[local] Hint Resolve keeps_rely keeps_reading : core.

Lemma reading_then {E A B} (p : prog (result E A)) (f : A -> prog (result E B)) P Q o :
  reading p P o -> (forall a o', R o o' -> P a o' -> reading (f a) Q o') -> reading (x ←! p; f x) Q o.
Proof using Type*. apply (ensures_and_then R keeps); eauto. Qed.

Lemma reading_lift {E A B} (r : result E A) (f : A -> prog (result E B)) Q o :
  (forall a, r = Ok a -> reading (f a) Q o) -> reading (x ←! Ret r; f x) Q o.
Proof using Type. destruct r as [a|e]; intros Hf; [by apply Hf|done]. Qed.

Lemma reading_ret {E A} (r : result E A) (Q : A -> objects -> Prop) o :
  (forall a, r = Ok a -> Q a o) -> reading (Ret r) Q o.
Proof using Type. done. Qed.

Lemma reading_mono {E A} (p : prog (result E A)) (P Q : A -> objects -> Prop) o :
  reading p P o -> (forall a o', R o o' -> P a o' -> Q a o') -> reading p Q o.
Proof using Type*. apply (ensures_mono R keeps); eauto. Qed.

Lemma reading_any {E A} (p : prog (result E A)) o : read_only p -> reading p (fun _ _ => True) o.
Proof using Type*. intros Hp. eapply wp_mono; [|by apply (wp_read_only R keeps); eauto]. done. Qed.

(** A read, and what the program makes of its answer. *)
Lemma reading_read {E A} c (f : answer c -> result E A) (Q : A -> objects -> Prop) o : writes c = false ->
  (forall r o1 a, R o o1 -> answers o1 c r o1 -> f r = Ok a -> Q a o1) ->
  reading (bind (request c) (fun r => Ret (f r))) Q o.
Proof using Type*.
  intros Hc Hf. apply wp_bind. apply (wp_read R keeps); eauto. intros r o1 Ho Hans a Ha. by eapply Hf.
Qed.

Lemma reading_get {E} l (e : store_error -> E) o :
  reading (bind (request (Get l)) (fun r => Ret (map_err e r))) (fun body o' => o' !! l = Some body) o.
Proof using Type*. apply reading_read; [done|]. intros [body|] o1 a _ [_ Hans] [= <-]. done. Qed.

Lemma reading_collect {E A B} (f : A -> prog (result E B)) (P : A -> B -> objects -> Prop) l o :
  (forall x y o1 o2, R o1 o2 -> P x y o1 -> P x y o2) ->
  (forall x o', x ∈ l -> R o o' -> reading (f x) (P x) o') ->
  reading (collect f l) (fun ys o' => Forall2 (fun x y => P x y o') l ys) o.
Proof using Type*. intros HP Hf. apply (wp_collect R keeps) with (P := P); eauto. Qed.

Lemma reading_fold_each {E A S} (f : S -> A -> prog (result E S)) (P : list A -> S -> objects -> Prop) s l o :
  (forall xs s o1 o2, R o1 o2 -> P xs s o1 -> P xs s o2) -> P [] s o ->
  (forall xs x s o', x ∈ l -> R o o' -> P xs s o' -> reading (f s x) (fun s' => P (xs ++ [x]) s') o') ->
  reading (fold_each f s l) (fun s' => P l s') o.
Proof using Type*. apply (ensures_fold_each R keeps); eauto. Qed.

(** In a program whose own requests [G] allows. *)
Lemma wp_keeps {A} G (p : prog A) post o : (forall o c, G o c o) -> wp R keeps p post o -> wp R G p post o.
Proof using Type.
  intros HG. revert o. induction p as [a|c k IH]; intros o; cbn [wp]; [done|]. intros Hp o1 r o2 HR Hans.
  destruct (Hp o1 r o2 HR Hans) as [-> Hk]. auto.
Qed.

Lemma wp_reading {E A B} G (p : prog (result E A)) (f : result E A -> prog B) P Q o :
  (forall o c, G o c o) -> reading p P o ->
  (forall r o', R o o' -> (forall a, r = Ok a -> P a o') -> wp R G (f r) Q o') -> wp R G (bind p f) Q o.
Proof using Type*.
  intros HG Hp Hf. apply wp_bind, wp_keeps; [done|]. eapply (wp_reach R keeps); eauto.
Qed.

Lemma wp_reads {A B} G (q : prog A) (f : A -> prog B) Q o :
  (forall o c, G o c o) -> read_only q -> (forall a o', R o o' -> wp R G (f a) Q o') -> wp R G (bind q f) Q o.
Proof using Type*.
  intros HG Hq Hf. apply wp_bind, wp_keeps; [done|]. eapply (wp_reach R keeps); eauto.
  by apply (wp_read_only R keeps); eauto.
Qed.

(** The locations under the prefix, in order. *)
Definition listed (prefix : string) (o : objects) (locations : list string) : Prop :=
  StronglySorted (fun a b => cmp a b = Lt) locations /\
  forall l, l ∈ locations <-> is_Some (o !! l) /\ under prefix l = true.

Lemma sort_strict (ls : list string) : NoDup ls -> StronglySorted (fun a b => cmp a b = Lt) (sort_on (fun l => l) ls).
Proof.
  intros Hnd. pose proof (sort_on_sorted (fun l : string => l) ls) as Hs.
  rewrite <-(sort_on_perm (fun l : string => l)) in Hnd. induction Hs as [|x l _ IH Hx]; [constructor|].
  apply NoDup_cons in Hnd as [Hnin Hnd]. constructor; [auto|]. rewrite Forall_forall in *. intros y Hy.
  destruct (proj1 (leb_cases x y) (Hx y Hy)) as [?|<-]; done.
Qed.

Lemma reading_sorted_list {E} prefix (e : store_error -> E) o :
  reading (locations ←! bind (request (List prefix)) (fun r => Ret (map_err e r)); Ret (Ok (sort_on (fun l => l) locations)))
    (fun ls o' => exists o1, R o o1 /\ R o1 o' /\ listed prefix o1 ls) o.
Proof using Type*.
  eapply (reading_then _ _ (fun ls o' => exists o1, R o o1 /\ R o1 o' /\ NoDup ls /\
    forall l, l ∈ ls <-> is_Some (o1 !! l) /\ under prefix l = true)).
  - apply reading_read; [done|]. intros [ls|e'] o1 a Ho Hans [= <-]. destruct Hans as (_ & Hnd & Hls). by exists o1.
  - intros ls o' Ho (o1 & ? & ? & Hnd & Hls). apply reading_ret. intros a [= <-]. exists o1. split_and!; [done..|].
    split; [by apply sort_strict|]. intros l. by rewrite sort_on_perm.
Qed.

End reading.

(** * Runs *)

Section runs.
Context `{ObjectStoreLaws}.

Lemma exec_reading (R : relation objects) `{!PreOrder R} env {E B} (p : prog (result E B)) post s trace b s' :
  (forall s1 s2, env s1 s2 -> R (content s1) (content s2)) -> stable R post -> reading R p post (content s) ->
  exec env p s trace (Ok b) s' -> post b (content s').
Proof.
  intros Henv Hst Hp Hex. eapply (exec_ensures R keeps) in Hex as [? _]; eauto. intros o c o' ->. done.
Qed.

(** The other writers only add objects. *)
Definition grows_around (env : store -> store -> Prop) : Prop := forall s1 s2, env s1 s2 -> content s1 ⊆ content s2.

Lemma steps_create_only {A} (startable : prog A -> Prop) s ps s' ps' :
  (forall p, startable p -> create_only p) -> Forall create_only ps ->
  steps_to startable (s, ps) (s', ps') -> content s ⊆ content s'.
Proof.
  intros Hstart Hps Hsteps. eapply (steps_wp startable (⊆) adds) in Hsteps as [? _]; eauto.
  - intros p o Hp. by apply create_only_wp, Hstart.
  - eapply Forall_impl; [exact Hps|]. intros p Hp. by apply create_only_wp.
Qed.
End runs.
