(* ===== verification/CatalogRegistry.v ===== *)
(** The registry of relation catalogs in the object store,
    [velorix-storage/src/relation_catalog_registry.rs]. *)
From S2P Require Import Prelude BTree Json Digits Segments ObjectKey Hash ObjectStore Relation.

Inductive CreateRelationCatalogOutcome := CatalogCreated | CatalogDuplicate.

Inductive RelationCatalogRegistryError :=
| CatalogKey (error : ObjectKeyError)
| CatalogValidation (error : RelationSchemaError)
| CatalogRecordConflict (object_key : ObjectKey)
| CatalogRecordIdentityMismatch (object_key : ObjectKey)
| CatalogSerde
| CatalogObjectStore (error : store_error).

Section registry.
Context `{Sha256, RelationCodec}.

Abbreviation registry A := (prog (result RelationCatalogRegistryError A)).

Definition catalog_key (relation_id relation_version : string) : result RelationCatalogRegistryError ObjectKey :=
  map_err CatalogKey (relation_catalog relation_id relation_version).

Definition schema_key (c : VelorixRelationCatalogV1) : result RelationCatalogRegistryError ObjectKey :=
  catalog_key (rs_relation_id (relation_schema c)) (rs_relation_version (relation_schema c)).

Definition read_catalog_object (object_key : ObjectKey) : registry VelorixRelationCatalogV1 :=
  body ←! bind (request (Get (as_str object_key))) (fun r => Ret (map_err CatalogObjectStore r));
  Ret (ok_or CatalogSerde (catalog_from_slice body)).

Definition validate_record_identity (object_key : ObjectKey) (record : VelorixRelationCatalogV1) :
    result RelationCatalogRegistryError unit :=
  expected ← schema_key record;
  fail_if (negb (bool_decide (object_key = expected))) (CatalogRecordIdentityMismatch object_key).

Definition create_catalog (c : VelorixRelationCatalogV1) : registry CreateRelationCatalogOutcome :=
  _ ←! Ret (map_err CatalogValidation (validate_ingest_adapter_scope c));
  object_key ←! Ret (schema_key c);
  body ←! Ret (ok_or CatalogSerde (catalog_to_vec c));
  bind (request (PutCreate (as_str object_key) body)) (fun r =>
    match r with
    | Ok _ => Ret (Ok CatalogCreated)
    | Err AlreadyExists =>
        existing ←! read_catalog_object object_key;
        Ret (if bool_decide (existing = c) then Ok CatalogDuplicate else Err (CatalogRecordConflict object_key))
    | Err e => Ret (Err (CatalogObjectStore e))
    end).

Definition read_catalog (relation_id relation_version : string) : registry VelorixRelationCatalogV1 :=
  object_key ←! Ret (catalog_key relation_id relation_version);
  record ←! read_catalog_object object_key;
  _ ←! Ret (map_err CatalogValidation (validate_ingest_adapter_scope record));
  _ ←! Ret (validate_record_identity object_key record);
  Ret (Ok record).

End registry.
