(* ===== verification/IngestLog.v ===== *)
(** The ingest log, [velorix-storage/src/log.rs]: its records, their checks, and
    the operations of [IngestLog].

    Committed batches are objects under [v1/ingest]. Every batch has an admission
    record under [v1/ingest-admission], next to the decisions that expire
    records whose batch never came. The index under [v1/ingest-admission-index]
    has one object per reservation, named after the digest of the state it was
    made in.

    As in the publisher, a [Path] is the text of the key it is made from. The
    reasons of errors leave out the values that the source interpolates. *)
From Stdlib Require Import Ascii.
From S2P Require Import Prelude BTree Json Digits Segments ObjectKey Hash ObjectStore Relation Serde JsonText IngestEnvelope CatalogRegistry.

(** * Data *)

Record IngestBatch := Batch { b_descriptor : IngestBatchDescriptor; b_payload : bytes }.

Record IngestStagingRecord := Staging {
  sg_object_key : ObjectKey;
  sg_payload_digest : string;
  sg_payload : bytes
}.

Inductive IngestStagingWriteOutcome :=
| StagingCreated (record : IngestStagingRecord)
| StagingDuplicate (record : IngestStagingRecord)
| StagingConflict (object_key : ObjectKey) (existing_digest requested_digest : string).

Record IngestCommitGuardBindingV1 := Binding {
  g_schema_version : Z;
  g_binding_kind : string;
  g_subject : string;
  g_owner_id : string;
  g_owner_epoch : Z
}.

Record DurableIngestAdmissionRecordV1 := Admission {
  a_schema_version : Z;
  a_record_kind : string;
  a_stream_id : string;
  a_partition_id : Z;
  a_start_offset_inclusive : Z;
  a_end_offset_exclusive : Z;
  a_event_time_watermark : option InputEventTimeWatermark;
  a_batch_key : ObjectKey;
  a_admission_record_key : ObjectKey;
  a_payload_digest : string;
  a_relation_id : string;
  a_relation_version : string;
  a_schema_fingerprint : string;
  a_admission_mode : string;
  a_commit_guard_binding : option IngestCommitGuardBindingV1
}.

(** [DurableIngestAdmissionExpiryDecisionRecordV1]. *)
Record ExpiryDecisionRecord := Expiry {
  x_schema_version : Z;
  x_record_kind : string;
  x_stream_id : string;
  x_partition_id : Z;
  x_start_offset_inclusive : Z;
  x_end_offset_exclusive : Z;
  x_batch_key : ObjectKey;
  x_admission_record_key : ObjectKey;
  x_observed_missing_batch_key : ObjectKey;
  x_expiry_decision_key : ObjectKey;
  x_admission_record_digest : string;
  x_expired_reason : string;
  x_operator_id : string
}.

(** [RangeAdmissionIndexTransitionRecordV1]. *)
Record TransitionRecord := Transition {
  t_schema_version : Z;
  t_record_kind : string;
  t_stream_id : string;
  t_partition_id : Z;
  t_previous_state_digest : string;
  t_next_state_digest : string;
  t_admitted : DurableIngestAdmissionRecordV1
}.

Record RangeAdmissionIndexState := IndexState {
  indexed_admissions : list DurableIngestAdmissionRecordV1;
  active_admissions : list DurableIngestAdmissionRecordV1;
  indexed_expired_admission_keys : gset ObjectKey;
  state_digest : string
}.

Record IngestAdmissionReconstruction := Reconstruction {
  active_records : list DurableIngestAdmissionRecordV1;
  expired_orphan_admission_records : Z
}.

Record ReplayCheckpoint := Checkpoint {
  cp_relation_id : option string;
  cp_relation_version : option string;
  cp_stream_id : string;
  cp_partition_id : Z;
  cp_end_offset_exclusive : Z
}.

Inductive AppendValidatedEnvelopeOutcome :=
| Appended (descriptor : IngestBatchDescriptor)
| Duplicate (descriptor : IngestBatchDescriptor)
| Conflict (descriptor : IngestBatchDescriptor) (object_key : ObjectKey) (reason : string).

(** [Admitted], [Duplicate] and [Conflict] in the source. *)
Inductive AdmissionReservationOutcome :=
| NewlyAdmitted
| AlreadyAdmitted
| ReservationConflict (object_key : ObjectKey) (reason : string).

Inductive IngestCommitGuardPhase := BeforeAdmission | BeforeCommit.

#[export] Instance IngestBatch_eq_dec : EqDecision IngestBatch.
Proof. solve_decision. Defined.
#[export] Instance IngestCommitGuardBindingV1_eq_dec : EqDecision IngestCommitGuardBindingV1.
Proof. solve_decision. Defined.
#[export] Instance DurableIngestAdmissionRecordV1_eq_dec : EqDecision DurableIngestAdmissionRecordV1.
Proof. solve_decision. Defined.
#[export] Instance ExpiryDecisionRecord_eq_dec : EqDecision ExpiryDecisionRecord.
Proof. solve_decision. Defined.
#[export] Instance TransitionRecord_eq_dec : EqDecision TransitionRecord.
Proof. solve_decision. Defined.

Inductive IngestLogError `{ArrowIpc} :=
| LogKey (error : ObjectKeyError)
| BatchAlreadyExists (object_key : ObjectKey)
| InvalidIngestStagingDigest (digest : string)
| IngestStagingDigestMismatch (object_key : ObjectKey) (expected actual : string)
| MissingIngestStagingObject (object_key : ObjectKey)
| IngestStagingConditionalCreateUnsupported (object_key : ObjectKey) (reason : string)
| MalformedIngestKey (key : string) (source : ObjectKeyError)
| MalformedIngestAdmissionRecord (key reason : string)
| MalformedIngestAdmissionExpiryDecision (key reason : string)
| MalformedIngestAdmissionIndexTransition (key reason : string)
| IngestAdmissionExpiryDecisionConflict (expiry_decision_key : ObjectKey)
| CannotExpireCommittedIngestAdmission (admission_record_key batch_key : ObjectKey)
| AdmissionSerializationGuardMismatch (guard_stream_id : string) (guard_partition_id : Z)
    (stream_id : string) (partition_id : Z)
| IngestCommitGuardRejected (descriptor : IngestBatchDescriptor) (phase : IngestCommitGuardPhase) (reason : string)
| OverlappingCommittedRange (stream_id : string) (partition_id : Z) (previous current : ObjectKey)
| CheckpointInsideBatch (checkpoint_end_offset_exclusive : Z) (object_key : ObjectKey)
| CheckpointInsideAdmittedRange (checkpoint_end_offset_exclusive : Z) (admission_record_key : ObjectKey)
| MissingIngestAdmissionRecord (batch_key : ObjectKey)
| IngestAdmissionMismatch (admission_record_key batch_key : ObjectKey) (field : string)
| DuplicateReplayCheckpoint (stream_id : string) (partition_id : Z)
| LogCatalogRegistry (error : RelationCatalogRegistryError)
| LogRelationSchema (error : RelationSchemaError)
| RelationCatalogMismatch (field : string)
| LogEnvelope (error : IngestEnvelopeError)
| LogObjectStore (error : store_error)
| LogJson.

(** * JSON *)

Definition key_json (k : ObjectKey) : Value := JString (as_str k).

Definition binding_json (g : IngestCommitGuardBindingV1) : Value :=
  JObject [("schema_version", json_of_unsigned (g_schema_version g)); ("binding_kind", JString (g_binding_kind g));
    ("subject", JString (g_subject g)); ("owner_id", JString (g_owner_id g));
    ("owner_epoch", json_of_unsigned (g_owner_epoch g))].

Definition admission_json (a : DurableIngestAdmissionRecordV1) : Value :=
  JObject ([("schema_version", json_of_unsigned (a_schema_version a)); ("record_kind", JString (a_record_kind a));
    ("stream_id", JString (a_stream_id a)); ("partition_id", json_of_unsigned (a_partition_id a));
    ("start_offset_inclusive", json_of_unsigned (a_start_offset_inclusive a));
    ("end_offset_exclusive", json_of_unsigned (a_end_offset_exclusive a))] ++
    watermark_field (a_event_time_watermark a) ++
    [("batch_key", key_json (a_batch_key a)); ("admission_record_key", key_json (a_admission_record_key a));
     ("payload_digest", JString (a_payload_digest a)); ("relation_id", JString (a_relation_id a));
     ("relation_version", JString (a_relation_version a)); ("schema_fingerprint", JString (a_schema_fingerprint a));
     ("admission_mode", JString (a_admission_mode a))] ++
    match a_commit_guard_binding a with Some g => [("commit_guard_binding", binding_json g)] | None => [] end).

Definition expiry_json (x : ExpiryDecisionRecord) : Value :=
  JObject [("schema_version", json_of_unsigned (x_schema_version x)); ("record_kind", JString (x_record_kind x));
    ("stream_id", JString (x_stream_id x)); ("partition_id", json_of_unsigned (x_partition_id x));
    ("start_offset_inclusive", json_of_unsigned (x_start_offset_inclusive x));
    ("end_offset_exclusive", json_of_unsigned (x_end_offset_exclusive x));
    ("batch_key", key_json (x_batch_key x)); ("admission_record_key", key_json (x_admission_record_key x));
    ("observed_missing_batch_key", key_json (x_observed_missing_batch_key x));
    ("expiry_decision_key", key_json (x_expiry_decision_key x));
    ("admission_record_digest", JString (x_admission_record_digest x));
    ("expired_reason", JString (x_expired_reason x)); ("operator_id", JString (x_operator_id x))].

Definition transition_json (t : TransitionRecord) : Value :=
  JObject [("schema_version", json_of_unsigned (t_schema_version t)); ("record_kind", JString (t_record_kind t));
    ("stream_id", JString (t_stream_id t)); ("partition_id", json_of_unsigned (t_partition_id t));
    ("previous_state_digest", JString (t_previous_state_digest t));
    ("next_state_digest", JString (t_next_state_digest t)); ("admitted", admission_json (t_admitted t))].

(** [RangeAdmissionIndexStateDigestV1]. *)
Definition index_state_json (stream_id : string) (partition_id : Z)
    (active_admissions : list DurableIngestAdmissionRecordV1) : Value :=
  JObject [("schema_version", json_of_unsigned 1); ("record_kind", JString "ingest_admission_index_state_v1");
    ("stream_id", JString stream_id); ("partition_id", json_of_unsigned partition_id);
    ("active_admissions", JArray (admission_json <$> active_admissions))].

(** [serde_json::from_slice] of the records. *)
Class IngestCodec := {
  admission_from_slice : bytes -> option DurableIngestAdmissionRecordV1;
  expiry_from_slice : bytes -> option ExpiryDecisionRecord;
  transition_from_slice : bytes -> option TransitionRecord
}.

Section log.
Context `{Sha256, SerdeJson, RelationCodec, EnvelopeCodec, ArrowIpc, IngestCodec}.

Abbreviation checked := (result IngestLogError).
Abbreviation logging A := (prog (result IngestLogError A)).

Definition fetch_log (location : string) : logging bytes :=
  bind (request (Get location)) (fun r => Ret (map_err LogObjectStore r)).

(** [list(..).try_collect()] and the sort by location. *)
Definition sorted_listing (prefix : string) : logging (list string) :=
  locations ←! bind (request (List prefix)) (fun r => Ret (map_err LogObjectStore r));
  Ret (Ok (sort_on (fun l => l) locations)).

Definition INGEST_PREFIX : string := "v1/ingest".
Definition ADMISSION_PREFIX : string := "v1/ingest-admission".
Definition INGEST_ADMISSION_RECORD_KIND_V1 : string := "ingest_range_admission_v1".
Definition INGEST_ADMISSION_EXPIRY_DECISION_RECORD_KIND_V1 : string := "ingest_admission_orphan_expiry_decision_v1".
Definition INGEST_ADMISSION_INDEX_TRANSITION_RECORD_KIND_V1 : string := "ingest_admission_index_transition_v1".
Definition ADMISSION_MODE : string := "process_local_serialized".

Definition is_sha256_digest (value : string) : bool := is_sha256_text value.
Definition digest_bytes (body : bytes) : string := sha256_text body.

Definition validate_staging_digest (digest : string) : checked unit :=
  fail_if (negb (is_sha256_digest digest)) (InvalidIngestStagingDigest digest).

(** * Checks of records *)

Definition malformed_admission (a : DurableIngestAdmissionRecordV1) (bad : bool) (reason : string) : checked unit :=
  fail_if bad (MalformedIngestAdmissionRecord (as_str (a_admission_record_key a)) reason).

Definition validate_binding (g : IngestCommitGuardBindingV1) (admission_record_key : ObjectKey) : checked unit :=
  let malformed (bad : bool) (reason : string) : checked unit :=
    fail_if bad (MalformedIngestAdmissionRecord (as_str admission_record_key) reason) in
  _ ← malformed (negb (g_schema_version g =? 1)) "commit_guard_binding has unsupported schema_version";
  _ ← malformed (is_blank (g_binding_kind g)) "commit_guard_binding.binding_kind must be nonempty";
  _ ← malformed (is_blank (g_subject g)) "commit_guard_binding.subject must be nonempty";
  _ ← malformed (is_blank (g_owner_id g)) "commit_guard_binding.owner_id must be nonempty";
  malformed (g_owner_epoch g =? 0) "commit_guard_binding.owner_epoch must be greater than zero".

(** [DurableIngestAdmissionRecordV1::validate_key]. *)
Definition validate_admission (a : DurableIngestAdmissionRecordV1) : checked unit :=
  expected_batch_key ← map_err LogKey (ingest_batch (a_stream_id a) (a_partition_id a)
    (a_start_offset_inclusive a) (a_end_offset_exclusive a));
  expected_admission_record_key ← map_err LogKey (ingest_admission_record (a_stream_id a) (a_partition_id a)
    (a_start_offset_inclusive a) (a_end_offset_exclusive a));
  _ ← malformed_admission a (negb (a_schema_version a =? 1)) "unsupported schema_version";
  _ ← malformed_admission a (negb (String.eqb (a_record_kind a) INGEST_ADMISSION_RECORD_KIND_V1)) "unsupported record_kind";
  _ ← malformed_admission a (negb (bool_decide (a_batch_key a = expected_batch_key))) "batch_key does not match record range";
  _ ← malformed_admission a (negb (bool_decide (a_admission_record_key a = expected_admission_record_key)))
    "admission_record_key does not match expected";
  _ ← malformed_admission a (negb (is_sha256_digest (a_payload_digest a))) "payload_digest must be sha256:<64 hex chars>";
  _ ← malformed_admission a (is_blank (a_relation_id a)) "relation_id must be nonempty";
  _ ← malformed_admission a (is_blank (a_relation_version a)) "relation_version must be nonempty";
  _ ← malformed_admission a (negb (is_sha256_digest (a_schema_fingerprint a))) "schema_fingerprint must be sha256:<64 hex chars>";
  _ ← malformed_admission a (negb (String.eqb (a_admission_mode a) ADMISSION_MODE)) "unsupported admission_mode";
  match a_commit_guard_binding a with
  | Some g => validate_binding g (a_admission_record_key a)
  | None => Ok tt
  end.

Definition admission_descriptor (a : DurableIngestAdmissionRecordV1) : checked IngestBatchDescriptor :=
  _ ← validate_admission a;
  Ok (Descriptor (a_stream_id a) (a_partition_id a) (a_start_offset_inclusive a) (a_end_offset_exclusive a) (a_batch_key a)).

Definition for_external_admission (stream_id : string) (partition_id start_offset_inclusive end_offset_exclusive : Z)
    (payload_digest relation_id relation_version schema_fingerprint : string) :
    checked DurableIngestAdmissionRecordV1 :=
  batch_key ← map_err LogKey (ingest_batch stream_id partition_id start_offset_inclusive end_offset_exclusive);
  admission_record_key ← map_err LogKey
    (ingest_admission_record stream_id partition_id start_offset_inclusive end_offset_exclusive);
  let record := Admission 1 INGEST_ADMISSION_RECORD_KIND_V1 stream_id partition_id start_offset_inclusive
    end_offset_exclusive None batch_key admission_record_key payload_digest relation_id relation_version
    schema_fingerprint ADMISSION_MODE None in
  _ ← validate_admission record;
  Ok record.

Definition expiry_prefix (stream_id : string) (partition_id lo hi : Z) : string :=
  "v1/ingest-admission/" +:+ stream_id +:+ "/p=" +:+ zero_padded PARTITION_WIDTH partition_id +:+ "/ranges/" +:+
  zero_padded OFFSET_WIDTH lo +:+ "-" +:+ zero_padded OFFSET_WIDTH hi +:+ "/expiry-decisions/".

(** [DurableIngestAdmissionExpiryDecisionRecordV1::validate_key]. *)
Definition validate_expiry (x : ExpiryDecisionRecord) : checked unit :=
  let malformed (bad : bool) (reason : string) : checked unit :=
    fail_if bad (MalformedIngestAdmissionExpiryDecision (as_str (x_expiry_decision_key x)) reason) in
  expected_batch_key ← map_err LogKey (ingest_batch (x_stream_id x) (x_partition_id x)
    (x_start_offset_inclusive x) (x_end_offset_exclusive x));
  expected_admission_record_key ← map_err LogKey (ingest_admission_record (x_stream_id x) (x_partition_id x)
    (x_start_offset_inclusive x) (x_end_offset_exclusive x));
  _ ← malformed (negb (x_schema_version x =? 1)) "unsupported schema_version";
  _ ← malformed (negb (String.eqb (x_record_kind x) INGEST_ADMISSION_EXPIRY_DECISION_RECORD_KIND_V1)) "unsupported record_kind";
  _ ← malformed (negb (bool_decide (x_batch_key x = expected_batch_key))) "batch_key does not match decision range";
  _ ← malformed (negb (bool_decide (x_admission_record_key x = expected_admission_record_key)))
    "admission_record_key does not match expected";
  _ ← malformed (negb (bool_decide (x_observed_missing_batch_key x = expected_batch_key)))
    "observed_missing_batch_key does not match expected";
  _ ← malformed (negb (starts_with (expiry_prefix (x_stream_id x) (x_partition_id x) (x_start_offset_inclusive x)
      (x_end_offset_exclusive x)) (as_str (x_expiry_decision_key x))))
    "expiry_decision_key does not match decision range";
  _ ← malformed (negb (is_sha256_digest (x_admission_record_digest x)))
    "admission_record_digest must be sha256:<64 hex chars>";
  _ ← malformed (is_blank (x_expired_reason x)) "expired_reason must be nonempty";
  malformed (is_blank (x_operator_id x)) "operator_id must be nonempty".

Definition expires_admission (x : ExpiryDecisionRecord) (admission_bytes : bytes)
    (a : DurableIngestAdmissionRecordV1) : bool :=
  String.eqb (x_stream_id x) (a_stream_id a) && (x_partition_id x =? a_partition_id a) &&
  (x_start_offset_inclusive x =? a_start_offset_inclusive a) &&
  (x_end_offset_exclusive x =? a_end_offset_exclusive a) &&
  bool_decide (x_batch_key x = a_batch_key a) && bool_decide (x_observed_missing_batch_key x = a_batch_key a) &&
  bool_decide (x_admission_record_key x = a_admission_record_key a) &&
  String.eqb (x_admission_record_digest x) (digest_bytes admission_bytes).

(** * The range-admission index *)

Definition range_admission_index_partition_prefix (stream_id : string) (partition_id : Z) : string :=
  "v1/ingest-admission-index/" +:+ stream_id +:+ "/p=" +:+ zero_padded PARTITION_WIDTH partition_id +:+ "/advances".

Definition range_admission_index_transition_key (stream_id : string) (partition_id : Z)
    (previous_state_digest : string) : checked string :=
  let prefix := range_admission_index_partition_prefix stream_id partition_id in
  let malformed := MalformedIngestAdmissionIndexTransition prefix "previous_state_digest must be sha256:<64 hex chars>" in
  hex ← ok_or malformed (strip_prefix "sha256:" previous_state_digest);
  _ ← fail_if (negb (String.length hex =? 64)%nat || negb (all_bytes is_ascii_hexdigit hex)) malformed;
  Ok (prefix +:+ "/" +:+ hex +:+ ".transition.json").

Definition parse_range_admission_index_partition (key : string) : checked (string * Z) :=
  let malformed (reason : string) := MalformedIngestAdmissionIndexTransition key reason in
  match split "/"%char key with
  | [version; namespace; stream_id; partition; advances; transition_file] =>
      _ ← fail_if (negb (String.eqb version "v1" && String.eqb namespace "ingest-admission-index" &&
          String.eqb advances "advances")) (malformed "unexpected object under v1/ingest-admission-index");
      _ ← fail_if (String.eqb stream_id "") (malformed "stream_id must be nonempty");
      partition ← ok_or (malformed "partition segment must start with p=") (strip_prefix "p=" partition);
      _ ← fail_if (negb (String.length partition =? 10)%nat || negb (all_digits partition))
        (malformed "partition segment must be p=<10 digits>");
      _ ← fail_if (match strip_suffix ".transition.json" transition_file with
                   | Some digest => negb ((String.length digest =? 64)%nat && all_bytes is_ascii_hexdigit digest)
                   | None => true
                   end) (malformed "transition file must be <64 hex chars>.transition.json");
      partition_id ← ok_or (malformed "invalid partition id") (parse_unsigned u32_max partition);
      Ok (stream_id, partition_id)
  | _ => Err (malformed "unexpected object under v1/ingest-admission-index")
  end.

Definition admission_sort_key (a : DurableIngestAdmissionRecordV1) : string * (Z * (Z * (Z * string))) :=
  (a_stream_id a, (a_partition_id a, (a_start_offset_inclusive a,
    (a_end_offset_exclusive a, as_str (a_admission_record_key a))))).
Definition sort_admission_records : list DurableIngestAdmissionRecordV1 -> list DurableIngestAdmissionRecordV1 :=
  sort_on admission_sort_key.

Definition range_admission_index_state_digest (stream_id : string) (partition_id : Z)
    (admissions : list DurableIngestAdmissionRecordV1) : string :=
  digest_bytes (to_vec (index_state_json stream_id partition_id admissions)).

Fixpoint conflict_with (record : DurableIngestAdmissionRecordV1) (d : IngestBatchDescriptor)
    (active : list DurableIngestAdmissionRecordV1) : checked AdmissionReservationOutcome :=
  match active with
  | [] => Ok NewlyAdmitted
  | candidate :: active =>
      c ← admission_descriptor candidate;
      if bool_decide (a_admission_record_key candidate = a_admission_record_key record) then
        if bool_decide (candidate = record) then Ok AlreadyAdmitted
        else Ok (ReservationConflict (a_batch_key candidate) "same_range_different_digest_reserved")
      else if String.eqb (d_stream_id c) (d_stream_id d) && (d_partition_id c =? d_partition_id d) &&
              (d_start_offset_inclusive c <? d_end_offset_exclusive d) &&
              (d_start_offset_inclusive d <? d_end_offset_exclusive c)
      then Ok (ReservationConflict (a_batch_key candidate) "range_overlap_reserved")
      else conflict_with record d active
  end.

Definition admission_conflict (active : list DurableIngestAdmissionRecordV1)
    (record : DurableIngestAdmissionRecordV1) : checked AdmissionReservationOutcome :=
  d ← admission_descriptor record;
  conflict_with record d active.

Definition range_admission_index_transition (record : DurableIngestAdmissionRecordV1)
    (state : RangeAdmissionIndexState) : TransitionRecord :=
  let indexed := sort_admission_records (indexed_admissions state ++ [record]) in
  Transition 1 INGEST_ADMISSION_INDEX_TRANSITION_RECORD_KIND_V1 (a_stream_id record) (a_partition_id record)
    (state_digest state) (range_admission_index_state_digest (a_stream_id record) (a_partition_id record) indexed) record.

(** [RangeAdmissionIndexTransitionRecordV1::validate_key]. *)
Definition validate_transition (t : TransitionRecord) (key : string) : checked unit :=
  let malformed (bad : bool) (reason : string) : checked unit :=
    fail_if bad (MalformedIngestAdmissionIndexTransition key reason) in
  _ ← validate_admission (t_admitted t);
  _ ← malformed (negb (t_schema_version t =? 1)) "unsupported schema_version";
  _ ← malformed (negb (String.eqb (t_record_kind t) INGEST_ADMISSION_INDEX_TRANSITION_RECORD_KIND_V1)) "unsupported record_kind";
  _ ← malformed (negb (String.eqb (t_stream_id t) (a_stream_id (t_admitted t))))
    "transition stream_id does not match admitted record";
  _ ← malformed (negb (t_partition_id t =? a_partition_id (t_admitted t)))
    "transition partition_id does not match admitted record";
  _ ← malformed (negb (is_sha256_digest (t_previous_state_digest t))) "previous_state_digest must be sha256:<64 hex chars>";
  _ ← malformed (negb (is_sha256_digest (t_next_state_digest t))) "next_state_digest must be sha256:<64 hex chars>";
  expected_key ← range_admission_index_transition_key (t_stream_id t) (t_partition_id t) (t_previous_state_digest t);
  malformed (negb (String.eqb key expected_key)) "stored path does not match expected".

(** Whether one of the records has the key. *)
Definition has_key (records : list DurableIngestAdmissionRecordV1) (key : ObjectKey) : bool :=
  existsb (fun a => bool_decide (a_admission_record_key a = key)) records.

Definition is_admitted (r : AdmissionReservationOutcome) : bool := match r with NewlyAdmitted => true | _ => false end.

Definition apply_to_state (t : TransitionRecord) (state : RangeAdmissionIndexState) : checked RangeAdmissionIndexState :=
  key ← range_admission_index_transition_key (t_stream_id t) (t_partition_id t) (t_previous_state_digest t);
  let malformed (bad : bool) (reason : string) : checked unit :=
    fail_if bad (MalformedIngestAdmissionIndexTransition key reason) in
  _ ← validate_transition t key;
  _ ← malformed (negb (String.eqb (t_previous_state_digest t) (state_digest state)))
    "previous_state_digest does not match current head";
  let admitted_key := a_admission_record_key (t_admitted t) in
  let expired := bool_decide (admitted_key ∈ indexed_expired_admission_keys state) in
  let self_materialized := has_key (active_admissions state) admitted_key in
  let skip := expired || self_materialized in
  _ ← (if skip then Ok tt else
       outcome ← admission_conflict (active_admissions state) (t_admitted t);
       malformed (negb (is_admitted outcome)) "transition admits an overlapping active range");
  let indexed :=
    if has_key (indexed_admissions state) admitted_key then indexed_admissions state
    else sort_admission_records (indexed_admissions state ++ [t_admitted t]) in
  let next_digest := range_admission_index_state_digest (t_stream_id t) (t_partition_id t) indexed in
  _ ← malformed (negb (String.eqb (t_next_state_digest t) next_digest))
    "next_state_digest does not match computed digest";
  let active :=
    if skip then active_admissions state else sort_admission_records (active_admissions state ++ [t_admitted t]) in
  Ok (IndexState indexed active (indexed_expired_admission_keys state) next_digest).

(** The transitions by their previous digest. *)
Definition group_transitions (ts : list TransitionRecord) : gmap string (list TransitionRecord) :=
  foldl (fun m t => <[t_previous_state_digest t := default [] (m !! t_previous_state_digest t) ++ [t]]> m) ∅ ts.

(** The [while let] loop: every round removes a bucket, so the number of buckets
    bounds the rounds. *)
Fixpoint follow_transitions (fuel : nat) (prefix : string) (buckets : gmap string (list TransitionRecord))
    (state : RangeAdmissionIndexState) : checked RangeAdmissionIndexState :=
  match fuel with
  | O => Ok state
  | S fuel =>
      match buckets !! state_digest state with
      | None => Ok state
      | Some [t] =>
          state' ← apply_to_state t state;
          follow_transitions fuel prefix (delete (state_digest state) buckets) state'
      | Some _ => Err (MalformedIngestAdmissionIndexTransition prefix "multiple transitions share previous_state_digest")
      end
  end.

(** * Descriptors and ranges *)

Definition parse_ingest_descriptor (value : string) : checked IngestBatchDescriptor :=
  '(object_key, parts) ← map_err (MalformedIngestKey value) (parse_ingest_batch value);
  Ok (Descriptor (ib_stream_id parts) (ib_partition_id parts) (ib_start_offset_inclusive parts)
        (ib_end_offset_exclusive parts) object_key).

Definition ranges_overlap (previous current : IngestBatchDescriptor) : bool :=
  String.eqb (d_stream_id previous) (d_stream_id current) && (d_partition_id previous =? d_partition_id current) &&
  (d_start_offset_inclusive previous <? d_end_offset_exclusive current) &&
  (d_start_offset_inclusive current <? d_end_offset_exclusive previous) &&
  negb (bool_decide (d_object_key previous = d_object_key current)).

(** The loop over [windows(2)]. *)
Fixpoint validate_non_overlapping_ranges (ds : list IngestBatchDescriptor) : checked unit :=
  match ds with
  | previous :: (current :: _) as rest =>
      _ ← fail_if (String.eqb (d_stream_id previous) (d_stream_id current) &&
          (d_partition_id previous =? d_partition_id current) &&
          (d_start_offset_inclusive current <? d_end_offset_exclusive previous))
        (OverlappingCommittedRange (d_stream_id current) (d_partition_id current)
           (d_object_key previous) (d_object_key current));
      validate_non_overlapping_ranges rest
  | _ => Ok tt
  end.

Definition list_committed : logging (list IngestBatchDescriptor) :=
  locations ←! sorted_listing INGEST_PREFIX;
  descriptors ←! Ret (try_map parse_ingest_descriptor locations);
  _ ←! Ret (validate_non_overlapping_ranges descriptors);
  Ret (Ok descriptors).

(** * Batches *)

Definition new_bootstrap_unchecked (stream_id : string)
    (partition_id start_offset_inclusive end_offset_exclusive : Z) (payload : bytes) : checked IngestBatch :=
  object_key ← map_err LogKey (ingest_batch stream_id partition_id start_offset_inclusive end_offset_exclusive);
  Ok (Batch (Descriptor stream_id partition_id start_offset_inclusive end_offset_exclusive object_key) payload).

Definition from_validated_envelope_with_envelope (payload : bytes) : checked (IngestBatch * IngestEnvelope) :=
  envelope ← map_err LogEnvelope (decode payload);
  let h := without_digest (header envelope) in
  object_key ← map_err LogKey (ingest_batch (h_stream_id h) (h_partition_id h) (h_start_offset_inclusive h)
    (h_end_offset_exclusive h));
  let descriptor := Descriptor (h_stream_id h) (h_partition_id h) (h_start_offset_inclusive h)
    (h_end_offset_exclusive h) object_key in
  _ ← map_err LogEnvelope (validate_descriptor envelope descriptor);
  Ok (Batch descriptor payload, envelope).

Definition from_validated_envelope (payload : bytes) : checked IngestBatch :=
  '(batch, _) ← from_validated_envelope_with_envelope payload;
  Ok batch.

Definition batch_location (batch : IngestBatch) : string := as_str (d_object_key (b_descriptor batch)).

Definition append_batch (batch : IngestBatch) : logging unit :=
  bind (request (PutCreate (batch_location batch) (b_payload batch))) (fun r =>
    Ret (match r with
         | Ok _ => Ok tt
         | Err AlreadyExists => Err (BatchAlreadyExists (d_object_key (b_descriptor batch)))
         | Err e => Err (LogObjectStore e)
         end)).

(** The object in the place of a batch has the digest of the batch or another. *)
Definition compare_with_existing (batch : IngestBatch) (existing : bytes) : checked AppendValidatedEnvelopeOutcome :=
  existing ← map_err LogEnvelope (decode existing);
  incoming ← map_err LogEnvelope (decode (b_payload batch));
  if String.eqb (h_payload_digest (header existing)) (h_payload_digest (header incoming))
  then Ok (Duplicate (b_descriptor batch))
  else Ok (Conflict (b_descriptor batch) (d_object_key (b_descriptor batch)) "same_key_different_digest").

Definition append_validated_batch (batch : IngestBatch) : logging AppendValidatedEnvelopeOutcome :=
  bind (append_batch batch) (fun r =>
    match r with
    | Ok _ => Ret (Ok (Appended (b_descriptor batch)))
    | Err (BatchAlreadyExists object_key) =>
        existing ←! fetch_log (as_str object_key);
        Ret (compare_with_existing batch existing)
    | Err e => Ret (Err e)
    end).

Definition existing_batch_conflict (batch : IngestBatch) : logging (option AppendValidatedEnvelopeOutcome) :=
  bind (request (Get (batch_location batch))) (fun r =>
    Ret (match r with
         | Ok existing => outcome ← compare_with_existing batch existing; Ok (Some outcome)
         | Err NotFound => Ok None
         | Err e => Err (LogObjectStore e)
         end)).

Definition append_validated_batch_single_writer (batch : IngestBatch) : logging AppendValidatedEnvelopeOutcome :=
  let descriptor := b_descriptor batch in
  committed ←! list_committed;
  match List.find (fun c => ranges_overlap c descriptor) committed with
  | Some c => Ret (Ok (Conflict descriptor (d_object_key c) "range_overlap_committed"))
  | None => append_validated_batch batch
  end.

Definition append_validated_envelope (payload : bytes) : logging AppendValidatedEnvelopeOutcome :=
  batch ←! Ret (from_validated_envelope payload);
  append_validated_batch batch.

Definition append_validated_envelope_single_writer (payload : bytes) : logging AppendValidatedEnvelopeOutcome :=
  batch ←! Ret (from_validated_envelope payload);
  append_validated_batch_single_writer batch.

(** * Catalog checks *)

(** The largest value that is not null, over all batches. *)
Definition max_column (values : record_batch -> string -> option (list (option Z))) (batches : list record_batch)
    (name : string) : checked Z :=
  columns ← try_map (fun b => ok_or (RelationCatalogMismatch "event_time_watermark.event_time_column") (values b name)) batches;
  match omap id (concat columns) with
  | [] => Err (RelationCatalogMismatch "event_time_watermark.event_time_column")
  | v :: vs => Ok (foldl Z.max v vs)
  end.

(** The product of [i64]s wraps around in a release build. *)
Definition wrapping_i64 (z : Z) : Z := (z + 2 ^ 63) mod 2 ^ 64 - 2 ^ 63.

Definition NANOS_PER_DAY : Z := 86400000000000.

Definition event_time_max (c : RelationColumnV1) (batches : list record_batch) : checked Z :=
  match physical_arrow_type c with
  | PInt64 => max_column int64_values batches (column_name c)
  | PDate32 => days ← max_column date32_values batches (column_name c); Ok (wrapping_i64 (days * NANOS_PER_DAY))
  | PTimestampNanosecond _ => max_column timestamp_values batches (column_name c)
  | _ => Err (RelationCatalogMismatch "event_time_watermark.event_time_column_type")
  end.

Definition validate_event_time_watermark_against_catalog_and_batches (h : HeaderWithoutDigest)
    (catalog : VelorixRelationCatalogV1) (batches : list record_batch) : checked unit :=
  match h_event_time_watermark h with
  | None => Ok tt
  | Some watermark =>
      let id_mismatch := RelationCatalogMismatch "event_time_watermark.event_time_column_id" in
      id ← ok_or id_mismatch (event_time_column_id (relation_schema catalog));
      _ ← fail_if (negb (String.eqb (w_event_time_column_id watermark) id)) id_mismatch;
      column ← ok_or id_mismatch (find_column (relation_schema catalog) id);
      actual_max ← event_time_max column batches;
      fail_if (w_max_observed_event_time_ns watermark <? actual_max)
        (RelationCatalogMismatch "event_time_watermark.max_observed_event_time_ns")
  end.

(** The registry of the log, or a fresh one on the same store, reads the catalog. *)
Definition catalog_validated_batch (payload : bytes) : logging IngestBatch :=
  envelope ←! Ret (map_err LogEnvelope (decode payload));
  let h := without_digest (header envelope) in
  catalog ←! bind (read_catalog (h_relation_id h) (h_relation_version h)) (fun r => Ret (map_err LogCatalogRegistry r));
  _ ←! Ret (fail_if (negb (String.eqb (h_schema_fingerprint h) (rc_schema_fingerprint catalog)))
    (RelationCatalogMismatch "schema_fingerprint"));
  batches ←! Ret (map_err LogEnvelope (record_batches envelope));
  _ ←! Ret (validate_event_time_watermark_against_catalog_and_batches h catalog batches);
  _ ←! Ret (try_fold (fun _ b => map_err LogRelationSchema
    (validate_record_batch_matches_catalog catalog (batch_fields b))) tt batches);
  Ret (from_validated_envelope payload).

Definition append_catalog_validated_envelope_log (payload : bytes) : logging AppendValidatedEnvelopeOutcome :=
  batch ←! catalog_validated_batch payload;
  append_validated_batch batch.

Definition append_catalog_validated_envelope_single_writer (payload : bytes) :
    logging AppendValidatedEnvelopeOutcome :=
  batch ←! catalog_validated_batch payload;
  append_validated_batch_single_writer batch.

(** * Admission records *)

(** One object under [v1/ingest-admission], for [list_admission_record_bodies]:
    expiry decisions are passed over. *)
Definition read_admission_body (location : string) : logging (option (bytes * DurableIngestAdmissionRecordV1)) :=
  if ends_with ".expiry.json" location then
    Ret (_ ← map_err (fun _ => MalformedIngestAdmissionExpiryDecision location "key") (parse location); Ok None)
  else if negb (ends_with ".admission.json" location) then
    Ret (Err (MalformedIngestAdmissionRecord location "unexpected object under v1/ingest-admission"))
  else
    _ ←! Ret (map_err (fun _ => MalformedIngestAdmissionRecord location "key") (parse location));
    body ←! fetch_log location;
    record ←! Ret (ok_or LogJson (admission_from_slice body));
    _ ←! Ret (validate_admission record);
    _ ←! Ret (fail_if (negb (String.eqb location (as_str (a_admission_record_key record))))
      (MalformedIngestAdmissionRecord location "stored path does not match body admission_record_key"));
    Ret (Ok (Some (body, record))).

Definition list_admission_record_bodies : logging (list (bytes * DurableIngestAdmissionRecordV1)) :=
  locations ←! sorted_listing ADMISSION_PREFIX;
  records ←! collect read_admission_body locations;
  Ret (Ok (omap id records)).

Definition list_admission_records : logging (list DurableIngestAdmissionRecordV1) :=
  records ←! list_admission_record_bodies;
  Ret (Ok records.*2).

Definition read_expiry_decision (location : string) : logging (option ExpiryDecisionRecord) :=
  if ends_with ".admission.json" location then
    Ret (_ ← map_err (fun _ => MalformedIngestAdmissionRecord location "key") (parse location); Ok None)
  else if negb (ends_with ".expiry.json" location) then
    Ret (Err (MalformedIngestAdmissionExpiryDecision location "unexpected object under v1/ingest-admission"))
  else
    _ ←! Ret (map_err (fun _ => MalformedIngestAdmissionExpiryDecision location "key") (parse location));
    body ←! fetch_log location;
    record ←! Ret (ok_or LogJson (expiry_from_slice body));
    _ ←! Ret (validate_expiry record);
    _ ←! Ret (fail_if (negb (String.eqb location (as_str (x_expiry_decision_key record))))
      (MalformedIngestAdmissionExpiryDecision location "stored path does not match body expiry_decision_key"));
    Ret (Ok (Some record)).

Definition list_admission_expiry_decisions : logging (list ExpiryDecisionRecord) :=
  locations ←! sorted_listing ADMISSION_PREFIX;
  records ←! collect read_expiry_decision locations;
  Ret (Ok (omap id records)).

Definition object_exists (key : ObjectKey) : logging bool :=
  bind (request (Get (as_str key))) (fun r =>
    Ret (match r with
         | Ok _ => Ok true
         | Err NotFound => Ok false
         | Err e => Err (LogObjectStore e)
         end)).

Definition is_expired (decisions : list ExpiryDecisionRecord) (admission_bytes : bytes)
    (a : DurableIngestAdmissionRecordV1) : bool :=
  existsb (fun x => expires_admission x admission_bytes a) decisions.

Definition admission_has_matching_expiry (admission_bytes : bytes) (a : DurableIngestAdmissionRecordV1) : logging bool :=
  decisions ←! list_admission_expiry_decisions;
  Ret (Ok (is_expired decisions admission_bytes a)).

Definition in_partition (stream_id : string) (partition_id : Z) (a : DurableIngestAdmissionRecordV1) : bool :=
  String.eqb (a_stream_id a) stream_id && (a_partition_id a =? partition_id).

(** One step of the loop of [list_expired_orphan_admission_keys]. *)
Definition add_expired_orphan (stream_id : string) (partition_id : Z) (decisions : list ExpiryDecisionRecord)
    (expired : gset ObjectKey) (b : bytes * DurableIngestAdmissionRecordV1) : logging (gset ObjectKey) :=
  if negb (in_partition stream_id partition_id b.2) then Ret (Ok expired)
  else
    found ←! object_exists (a_batch_key b.2);
    Ret (Ok (if found then expired
             else if is_expired decisions b.1 b.2 then {[ a_admission_record_key b.2 ]} ∪ expired else expired)).

Definition list_expired_orphan_admission_keys (stream_id : string) (partition_id : Z)
    (bodies : list (bytes * DurableIngestAdmissionRecordV1)) : logging (gset ObjectKey) :=
  decisions ←! list_admission_expiry_decisions;
  fold_each (add_expired_orphan stream_id partition_id decisions) ∅ bodies.

(** The fields of an admission record against the committed batch. *)
Definition validate_admission_field (a : DurableIngestAdmissionRecordV1) (d : IngestBatchDescriptor)
    (field expected actual : string) : checked unit :=
  fail_if (negb (String.eqb expected actual))
    (IngestAdmissionMismatch (a_admission_record_key a) (d_object_key d) field).

(** [serde_json::to_string] of an optional watermark. *)
Definition watermark_text (w : option InputEventTimeWatermark) : bytes :=
  match w with Some w => to_vec (watermark_json w) | None => as_bytes "null" end.

Definition validate_admission_matches_replayed_batch (a : DurableIngestAdmissionRecordV1)
    (d : IngestBatchDescriptor) (e : IngestEnvelope) : checked unit :=
  let h := without_digest (header e) in
  let field := validate_admission_field a d in
  _ ← field "batch_key" (as_str (d_object_key d)) (as_str (a_batch_key a));
  _ ← field "stream_id" (d_stream_id d) (a_stream_id a);
  _ ← field "partition_id" (nat_to_string (d_partition_id d)) (nat_to_string (a_partition_id a));
  _ ← field "start_offset_inclusive" (nat_to_string (d_start_offset_inclusive d)) (nat_to_string (a_start_offset_inclusive a));
  _ ← field "end_offset_exclusive" (nat_to_string (d_end_offset_exclusive d)) (nat_to_string (a_end_offset_exclusive a));
  _ ← field "payload_digest" (h_payload_digest (header e)) (a_payload_digest a);
  _ ← field "relation_id" (h_relation_id h) (a_relation_id a);
  _ ← field "relation_version" (h_relation_version h) (a_relation_version a);
  _ ← field "schema_fingerprint" (h_schema_fingerprint h) (a_schema_fingerprint a);
  _ ← fail_if (negb (bool_decide (watermark_text (h_event_time_watermark h) = watermark_text (a_event_time_watermark a))))
    (IngestAdmissionMismatch (a_admission_record_key a) (d_object_key d) "event_time_watermark");
  field "admission_mode" ADMISSION_MODE (a_admission_mode a).

Definition validate_committed_admission (a : DurableIngestAdmissionRecordV1) (d : IngestBatchDescriptor) : logging unit :=
  body ←! fetch_log (as_str (d_object_key d));
  envelope ←! Ret (map_err LogEnvelope (decode body));
  _ ←! Ret (map_err LogEnvelope (validate_descriptor envelope d));
  Ret (validate_admission_matches_replayed_batch a d envelope).

(** [descriptors.map(|d| (d.object_key, d)).collect::<HashMap<_, _>>()]. *)
Definition by_object_key (ds : list IngestBatchDescriptor) : gmap ObjectKey IngestBatchDescriptor :=
  foldl (fun m d => <[d_object_key d := d]> m) ∅ ds.

Definition reconstruct_step (committed_by_key : gmap ObjectKey IngestBatchDescriptor)
    (decisions : list ExpiryDecisionRecord) (r : IngestAdmissionReconstruction)
    (b : bytes * DurableIngestAdmissionRecordV1) : logging IngestAdmissionReconstruction :=
  let a := b.2 in
  match committed_by_key !! a_batch_key a with
  | Some d =>
      _ ←! validate_committed_admission a d;
      Ret (Ok (Reconstruction (active_records r ++ [a]) (expired_orphan_admission_records r)))
  | None =>
      if negb (is_expired decisions b.1 a)
      then Ret (Ok (Reconstruction (active_records r ++ [a]) (expired_orphan_admission_records r)))
      else Ret (Ok (Reconstruction (active_records r) (expired_orphan_admission_records r + 1)))
  end.

Definition reconstruct_admission_namespace : logging IngestAdmissionReconstruction :=
  committed ←! list_committed;
  decisions ←! list_admission_expiry_decisions;
  bodies ←! list_admission_record_bodies;
  fold_each (reconstruct_step (by_object_key committed) decisions) (Reconstruction [] 0) bodies.

(** Also [IngestLog::reconstruct_active_admissions]. *)
Definition list_active_admission_records : logging (list DurableIngestAdmissionRecordV1) :=
  r ←! reconstruct_admission_namespace;
  Ret (Ok (active_records r)).

(** * Loading the index *)

Definition transition_malformed (t : TransitionRecord) (reason : string) : checked unit :=
  key ← range_admission_index_transition_key (t_stream_id t) (t_partition_id t) (t_previous_state_digest t);
  Err (MalformedIngestAdmissionIndexTransition key reason).

Definition validate_index_transition_materialized_admission (t : TransitionRecord)
    (require_materialized_admission : bool) : logging unit :=
  bind (request (Get (as_str (a_admission_record_key (t_admitted t))))) (fun r =>
    match r with
    | Ok body =>
        materialized ←! Ret (ok_or LogJson (admission_from_slice body));
        _ ←! Ret (validate_admission materialized);
        Ret (if bool_decide (materialized = t_admitted t) && bool_decide (body = to_vec (admission_json (t_admitted t)))
             then Ok tt
             else transition_malformed t "materialized admission does not match indexed transition")
    | Err NotFound =>
        if negb require_materialized_admission then Ret (Ok tt)
        else Ret (transition_malformed t "indexed transition is missing materialized admission")
    | Err e => Ret (Err (LogObjectStore e))
    end).

Definition read_transition (require_materialized_admission : bool) (key : string) : logging TransitionRecord :=
  _ ←! Ret (fail_if (negb (ends_with ".transition.json" key))
    (MalformedIngestAdmissionIndexTransition key "unexpected object under v1/ingest-admission-index"));
  body ←! fetch_log key;
  t ←! Ret (ok_or LogJson (transition_from_slice body));
  _ ←! Ret (validate_transition t key);
  _ ←! validate_index_transition_materialized_admission t require_materialized_admission;
  Ret (Ok t).

Definition list_range_admission_index_transitions (stream_id : string) (partition_id : Z)
    (require_materialized_admission : bool) : logging (list TransitionRecord) :=
  locations ←! sorted_listing (range_admission_index_partition_prefix stream_id partition_id);
  collect (read_transition require_materialized_admission) locations.

Definition load_range_admission_index_state_for_partition (stream_id : string) (partition_id : Z)
    (require_materialized_admission : bool) : logging RangeAdmissionIndexState :=
  transitions ←! list_range_admission_index_transitions stream_id partition_id require_materialized_admission;
  bodies ←! list_admission_record_bodies;
  expired ←! list_expired_orphan_admission_keys stream_id partition_id bodies;
  let indexed := sort_admission_records (List.filter (in_partition stream_id partition_id) bodies.*2) in
  active ←! list_active_admission_records;
  let active := sort_admission_records (List.filter (in_partition stream_id partition_id) active) in
  let state := IndexState indexed active expired
    (range_admission_index_state_digest stream_id partition_id indexed) in
  let buckets := group_transitions transitions in
  Ret (follow_transitions (size buckets) (range_admission_index_partition_prefix stream_id partition_id) buckets state).

Definition load_range_admission_index_state (record : DurableIngestAdmissionRecordV1) : logging RangeAdmissionIndexState :=
  _ ←! Ret (validate_admission record);
  load_range_admission_index_state_for_partition (a_stream_id record) (a_partition_id record) false.

(** The partitions, without duplicates and sorted. *)
Definition list_range_admission_index_partitions : logging (list (string * Z)) :=
  locations ←! sorted_listing "v1/ingest-admission-index";
  partitions ←! Ret (try_map parse_range_admission_index_partition locations);
  Ret (Ok (sort_on (fun p => p) (remove_dups partitions))).

(** A record replaces one inserted before with the same key. *)
Definition insert_records (m : gmap ObjectKey DurableIngestAdmissionRecordV1)
    (l : list DurableIngestAdmissionRecordV1) : gmap ObjectKey DurableIngestAdmissionRecordV1 :=
  foldl (fun m a => <[a_admission_record_key a := a]> m) m l.

Definition reconstruct_range_admission_index_active_records : logging (list DurableIngestAdmissionRecordV1) :=
  partitions ←! list_range_admission_index_partitions;
  records_by_key ←! fold_each (fun m p =>
    state ←! load_range_admission_index_state_for_partition p.1 p.2 true;
    Ret (Ok (insert_records m (active_admissions state)))) ∅ partitions;
  Ret (Ok (sort_admission_records (map_to_list records_by_key).*2)).

(** * Replay *)

(** The smallest end offset of the checkpoints of each stream partition. *)
Definition checkpoint_step (s : gset (string * Z * option string * option string) * gmap (string * Z) Z)
    (c : ReplayCheckpoint) : checked (gset (string * Z * option string * option string) * gmap (string * Z) Z) :=
  let '(seen, offsets) := s in
  let replay_key := (cp_stream_id c, cp_partition_id c, cp_relation_id c, cp_relation_version c) in
  _ ← fail_if (bool_decide (replay_key ∈ seen)) (DuplicateReplayCheckpoint (cp_stream_id c) (cp_partition_id c));
  let offset := match offsets !! (cp_stream_id c, cp_partition_id c) with
                | Some checkpoint_end => Z.min checkpoint_end (cp_end_offset_exclusive c)
                | None => cp_end_offset_exclusive c
                end in
  Ok ({[ replay_key ]} ∪ seen, <[(cp_stream_id c, cp_partition_id c) := offset]> offsets).

Definition validate_checkpoints (checkpoints : list ReplayCheckpoint) : checked (gmap (string * Z) Z) :=
  '(_, offsets) ← try_fold checkpoint_step (∅, ∅) checkpoints;
  Ok offsets.

Definition checkpoint_end (offsets : gmap (string * Z) Z) (d : IngestBatchDescriptor) : Z :=
  default 0 (offsets !! (d_stream_id d, d_partition_id d)).

(** Whether the range is after the checkpoint; [inside] is the error of a range
    the checkpoint cuts. *)
Definition in_window (offsets : gmap (string * Z) Z) (inside : Z -> IngestLogError) (d : IngestBatchDescriptor) :
    checked bool :=
  let checkpoint_end := checkpoint_end offsets d in
  if d_end_offset_exclusive d <=? checkpoint_end then Ok false
  else if (d_start_offset_inclusive d <? checkpoint_end) && (checkpoint_end <? d_end_offset_exclusive d)
  then Err (inside checkpoint_end)
  else Ok true.

Definition batch_in_replay_window (offsets : gmap (string * Z) Z) (d : IngestBatchDescriptor) : checked bool :=
  in_window offsets (fun stop => CheckpointInsideBatch stop (d_object_key d)) d.

Definition admission_in_replay_window (offsets : gmap (string * Z) Z) (d : IngestBatchDescriptor)
    (admission_record_key : ObjectKey) : checked bool :=
  in_window offsets (fun stop => CheckpointInsideAdmittedRange stop admission_record_key) d.

(** The loop of [replay_from] and [replay_validated_envelopes_from], with what
    each does to the body of a batch. *)
Definition replay_batch (validate : IngestBatchDescriptor -> bytes -> checked unit) (offsets : gmap (string * Z) Z)
    (d : IngestBatchDescriptor) : logging (option IngestBatch) :=
  inside ←! Ret (batch_in_replay_window offsets d);
  if inside then
    body ←! fetch_log (as_str (d_object_key d));
    _ ←! Ret (validate d body);
    Ret (Ok (Some (Batch d body)))
  else Ret (Ok None).

Definition replay_with (validate : IngestBatchDescriptor -> bytes -> checked unit)
    (checkpoints : list ReplayCheckpoint) : logging (list IngestBatch) :=
  offsets ←! Ret (validate_checkpoints checkpoints);
  committed ←! list_committed;
  batches ←! collect (replay_batch validate offsets) committed;
  Ret (Ok (omap id batches)).

Definition replay_from (checkpoints : list ReplayCheckpoint) : logging (list IngestBatch) :=
  replay_with (fun _ _ => Ok tt) checkpoints.

Definition validate_envelope_body (d : IngestBatchDescriptor) (body : bytes) : checked unit :=
  envelope ← map_err LogEnvelope (decode body);
  map_err LogEnvelope (validate_descriptor envelope d).

Definition replay_validated_envelopes_from (checkpoints : list ReplayCheckpoint) : logging (list IngestBatch) :=
  replay_with validate_envelope_body checkpoints.

(** The records of one step of the loop of [list_committed_admission_metadata],
    and of [replay_admitted_validated_envelopes_from]. *)
Definition add_metadata (admissions : gmap ObjectKey DurableIngestAdmissionRecordV1)
    (a : DurableIngestAdmissionRecordV1) : checked (gmap ObjectKey DurableIngestAdmissionRecordV1) :=
  _ ← fail_if (bool_decide (is_Some (admissions !! a_batch_key a)))
    (MalformedIngestAdmissionRecord (as_str (a_admission_record_key a)) "duplicate admission metadata for committed batch");
  Ok (<[a_batch_key a := a]> admissions).

Definition take_metadata (s : gmap ObjectKey DurableIngestAdmissionRecordV1 * list DurableIngestAdmissionRecordV1)
    (d : IngestBatchDescriptor) :
    checked (gmap ObjectKey DurableIngestAdmissionRecordV1 * list DurableIngestAdmissionRecordV1) :=
  a ← ok_or (MissingIngestAdmissionRecord (d_object_key d)) (s.1 !! d_object_key d);
  descriptor ← admission_descriptor a;
  _ ← fail_if (negb (bool_decide (descriptor = d)))
    (MalformedIngestAdmissionRecord (as_str (a_admission_record_key a)) "committed descriptor differs from admission metadata");
  Ok (delete (d_object_key d) s.1, s.2 ++ [a]).

Definition list_committed_admission_metadata : logging (list DurableIngestAdmissionRecordV1) :=
  committed ←! list_committed;
  records ←! list_admission_records;
  admissions ←! Ret (try_fold add_metadata ∅ records);
  s ←! Ret (try_fold take_metadata (admissions, []) committed);
  Ret (Ok s.2).

Definition add_replay_admission (committed_by_key : gmap ObjectKey IngestBatchDescriptor) (offsets : gmap (string * Z) Z)
    (admissions : gmap ObjectKey DurableIngestAdmissionRecordV1) (a : DurableIngestAdmissionRecordV1) :
    checked (gmap ObjectKey DurableIngestAdmissionRecordV1) :=
  d ← admission_descriptor a;
  match committed_by_key !! a_batch_key a with
  | None => Ok admissions
  | Some _ =>
      inside ← admission_in_replay_window offsets d (a_admission_record_key a);
      Ok (if (inside : bool) then <[a_batch_key a := a]> admissions else admissions)
  end.

(** The admissions not used yet and the batches replayed so far. *)
Definition replay_admitted_batch (offsets : gmap (string * Z) Z)
    (s : gmap ObjectKey DurableIngestAdmissionRecordV1 * list IngestBatch) (d : IngestBatchDescriptor) :
    logging (gmap ObjectKey DurableIngestAdmissionRecordV1 * list IngestBatch) :=
  inside ←! Ret (batch_in_replay_window offsets d);
  if negb inside then Ret (Ok s) else
  body ←! fetch_log (as_str (d_object_key d));
  envelope ←! Ret (map_err LogEnvelope (decode body));
  _ ←! Ret (map_err LogEnvelope (validate_descriptor envelope d));
  a ←! Ret (ok_or (MissingIngestAdmissionRecord (d_object_key d)) (s.1 !! d_object_key d));
  _ ←! Ret (validate_admission_matches_replayed_batch a d envelope);
  Ret (Ok (delete (d_object_key d) s.1, s.2 ++ [Batch d body])).

Definition replay_admitted_validated_envelopes_from (checkpoints : list ReplayCheckpoint) : logging (list IngestBatch) :=
  offsets ←! Ret (validate_checkpoints checkpoints);
  committed ←! list_committed;
  records ←! list_admission_records;
  admissions ←! Ret (try_fold (add_replay_admission (by_object_key committed) offsets) ∅ records);
  s ←! fold_each (replay_admitted_batch offsets) (admissions, []) committed;
  Ret (Ok s.2).

(** * Staging *)

Definition staging_with_digest (object_key : ObjectKey) (payload : bytes) (payload_digest : string) :
    checked IngestStagingRecord :=
  _ ← map_err LogKey (parse_ingest_staging (as_str object_key));
  _ ← validate_staging_digest payload_digest;
  let actual_digest := digest_bytes payload in
  _ ← fail_if (negb (String.eqb payload_digest actual_digest))
    (IngestStagingDigestMismatch object_key payload_digest actual_digest);
  Ok (Staging object_key payload_digest payload).

Definition new_staging (object_key : ObjectKey) (payload : bytes) : checked IngestStagingRecord :=
  staging_with_digest object_key payload (digest_bytes payload).

Definition stage_ingest_record (record : IngestStagingRecord) : logging IngestStagingWriteOutcome :=
  let location := as_str (sg_object_key record) in
  _ ←! Ret (map_err LogKey (parse_ingest_staging location));
  _ ←! Ret (validate_staging_digest (sg_payload_digest record));
  _ ←! Ret (fail_if (negb (String.eqb (digest_bytes (sg_payload record)) (sg_payload_digest record)))
    (IngestStagingDigestMismatch (sg_object_key record) (sg_payload_digest record) (digest_bytes (sg_payload record))));
  bind (request (PutCreate location (sg_payload record))) (fun r =>
    match r with
    | Ok _ => Ret (Ok (StagingCreated record))
    | Err AlreadyExists =>
        existing ←! fetch_log location;
        let existing_digest := digest_bytes existing in
        Ret (Ok (if String.eqb existing_digest (sg_payload_digest record)
                 then StagingDuplicate (Staging (sg_object_key record) existing_digest existing)
                 else StagingConflict (sg_object_key record) existing_digest (sg_payload_digest record)))
    | Err (NotSupported source) => Ret (Err (IngestStagingConditionalCreateUnsupported (sg_object_key record) source))
    | Err (NotImplemented operation implementer) =>
        Ret (Err (IngestStagingConditionalCreateUnsupported (sg_object_key record)
          (operation +:+ " is not implemented by " +:+ implementer)))
    | Err e => Ret (Err (LogObjectStore e))
    end).

(** Also [stage_write]. *)
Definition write_ingest_staging (object_key : string) (payload : bytes) (payload_digest : string) :
    logging IngestStagingWriteOutcome :=
  key ←! Ret (map_err LogKey (parse_ingest_staging object_key));
  record ←! Ret (staging_with_digest key.1 payload payload_digest);
  stage_ingest_record record.

(** Also [read_staging]. *)
Definition read_ingest_staging (object_key expected_digest : string) : logging bytes :=
  key ←! Ret (map_err LogKey (parse_ingest_staging object_key));
  _ ←! Ret (validate_staging_digest expected_digest);
  body ←! bind (request (Get (as_str key.1))) (fun r =>
    Ret (map_err (fun e => match e with NotFound => MissingIngestStagingObject key.1 | e => LogObjectStore e end) r));
  _ ←! Ret (fail_if (negb (String.eqb (digest_bytes body) expected_digest))
    (IngestStagingDigestMismatch key.1 expected_digest (digest_bytes body)));
  Ret (Ok body).

End log.
