(* ===== verification/IngestLogProofs.v ===== *)
(** What the ingest log returns while other writers only add objects: the list
    of committed batches and the replays of [IngestLog.v]. *)
From Stdlib Require Import Ascii.
From stdpp Require Import sorting.
From S2P Require Import Prelude BTree Json Digits Segments ObjectKey Hash Relation ObjectKeyProofs ObjectStore Serde JsonText IngestEnvelope AppendOnly CatalogRegistry IngestLog.

(** * Keys of committed batches *)

Lemma string_cmp_between pre x y c :
  string_cmp (pre +:+ x) c = Lt -> string_cmp c (pre +:+ y) = Lt -> exists z, c = pre +:+ z.
Proof.
  revert c. induction pre as [|a pre IH]; intros c; [by exists c|]. rewrite !append_cons.
  destruct c as [|b c]; [done|]. cbn [string_cmp]. intros H1 H2.
  assert (a = b) as <-.
  { destruct (cmp a b) eqn:Hab; cbn in H1; [by apply cmp_eq in Hab| |done].
    destruct (cmp b a) eqn:Hba; cbn in H2; [by apply cmp_eq in Hba| |done].
    by rewrite (cmp_antisym a b), Hab in Hba. }
  rewrite (proj2 (cmp_eq a a) eq_refl) in H1, H2. cbn in H1, H2.
  destruct (IH c H1 H2) as [z ->]. exists z. by rewrite append_cons.
Qed.

Definition batch_artifact (d : IngestBatchDescriptor) : artifact :=
  ObjectKeyProofs.IngestBatch (d_stream_id d) (d_partition_id d) (d_start_offset_inclusive d) (d_end_offset_exclusive d).

(** A descriptor of a batch: its key is made of its stream, partition and range. *)
Definition described (d : IngestBatchDescriptor) : Prop :=
  typed (batch_artifact d) /\ build (batch_artifact d) = Ok (d_object_key d).

Definition same_partition (d e : IngestBatchDescriptor) : Prop :=
  d_stream_id d = d_stream_id e /\ d_partition_id d = d_partition_id e.

(** The location of a descriptor. *)
Definition located (d : IngestBatchDescriptor) : string := as_str (d_object_key d).

Definition partition_root (d : IngestBatchDescriptor) : string :=
  "v1/ingest/" +:+ d_stream_id d +:+ "/p=" +:+ partition_text (d_partition_id d) +:+ "/".

Lemma located_root d : described d ->
  located d = partition_root d +:+ range (d_start_offset_inclusive d) (d_end_offset_exclusive d) +:+ ".batch".
Proof.
  intros [_ [_ Hk]%build_text]. unfold located, partition_root. rewrite Hk. unfold key_text. cbn [segments batch_artifact as_str].
  rewrite !joined_cons, joined_one, !append_assoc. reflexivity.
Qed.

Lemma split_inj c a b x y : lacks c a = true -> lacks c b = true ->
  a +:+ String c x = b +:+ String c y -> a = b /\ x = y.
Proof.
  intros Ha Hb Heq. assert (split_once c (a +:+ String c x) = Some (a, x)) as H1 by by apply split_once_some.
  assert (split_once c (b +:+ String c y) = Some (b, y)) as H2 by by apply split_once_some.
  rewrite Heq, H2 in H1. by injection H1 as -> ->.
Qed.

(** The batches of a partition are neighbours in the order of keys. *)
Lemma partition_contiguous d c e : described d -> described c -> described e -> same_partition d e ->
  string_cmp (located d) (located c) = Lt -> string_cmp (located c) (located e) = Lt -> same_partition d c.
Proof.
  intros Hd Hc He [Hs Hp]. rewrite (located_root d), (located_root e) by done.
  assert (partition_root e = partition_root d) as -> by (unfold partition_root; by rewrite Hs, Hp).
  intros H1 H2. destruct (string_cmp_between _ _ _ _ H1 H2) as [z Hz]. rewrite (located_root c Hc) in Hz.
  unfold partition_root in Hz. rewrite !append_assoc in Hz. apply append_cancel_l in Hz.
  destruct Hd as [(Hd1 & _) [[Hsd _] _]%build_text], Hc as [(Hc1 & _) [[Hsc _] _]%build_text].
  apply split_inj in Hz as [Hst Hz]; [|by apply clean_safe..]. apply (append_cancel_l "p=") in Hz.
  apply split_inj in Hz as [Hpt _]; [|by apply clean_partition..].
  split; [by rewrite Hst|]. by apply partition_text_inj.
Qed.

Lemma parse_ingest_descriptor_ok `{ArrowIpc} v d :
  parse_ingest_descriptor v = Ok d <-> described d /\ located d = v.
Proof.
  unfold parse_ingest_descriptor, described. rewrite bind_ok. setoid_rewrite map_err_ok. split.
  - intros ([k p] & (-> & Ht & Hb)%parse_ingest_batch_reads & [= <-]). done.
  - destruct d as [s p lo hi k]. unfold located. cbn. intros [[Ht Hb] <-].
    exists (k, IngestBatchKey s p lo hi). split; [|done]. apply parse_ingest_batch_reads.
    split; [by destruct k|]. done.
Qed.

Lemma described_range d : described d -> d_start_offset_inclusive d < d_end_offset_exclusive d.
Proof. by intros [_ [[_ ?] _]%build_text]. Qed.

(** * Keys of admission records and expiry decisions *)

Lemma append_inj a b c d : String.length c = String.length d -> a +:+ c = b +:+ d -> a = b /\ c = d.
Proof.
  intros Hl. revert b. induction a as [|x a IH]; intros [|y b] Heq; rewrite ?append_cons, ?append_nil_l in Heq.
  - done.
  - exfalso. apply (f_equal String.length) in Heq. cbn in Heq. rewrite append_length in Heq. lia.
  - exfalso. apply (f_equal String.length) in Heq. cbn in Heq. rewrite append_length in Heq. lia.
  - injection Heq as -> [-> ->]%IH. done.
Qed.

Lemma ends_with_true q s : ends_with q s = true <-> exists r, s = r +:+ q.
Proof.
  unfold ends_with. rewrite bool_decide_eq_true. unfold is_Some. setoid_rewrite strip_suffix_some. done.
Qed.

Lemma ends_with_exclusive l : ends_with ".admission.json" l = true -> ends_with ".expiry.json" l = false.
Proof.
  intros [r ->]%ends_with_true. apply not_true_iff_false. intros [r' Hr]%ends_with_true.
  change ".admission.json" with (".admiss" +:+ "ion.json") in Hr. change ".expiry.json" with (".exp" +:+ "iry.json") in Hr.
  rewrite <-!append_assoc in Hr. by apply append_inj in Hr as [_ ?].
Qed.

Definition admission_artifact (a : DurableIngestAdmissionRecordV1) : artifact :=
  IngestAdmissionRecord (a_stream_id a) (a_partition_id a) (a_start_offset_inclusive a) (a_end_offset_exclusive a).
Definition admission_batch_artifact (a : DurableIngestAdmissionRecordV1) : artifact :=
  ObjectKeyProofs.IngestBatch (a_stream_id a) (a_partition_id a) (a_start_offset_inclusive a) (a_end_offset_exclusive a).

(** The locations of a record and of its batch. *)
Definition record_location (a : DurableIngestAdmissionRecordV1) : string := as_str (a_admission_record_key a).
Definition batch_of (a : DurableIngestAdmissionRecordV1) : string := as_str (a_batch_key a).

Lemma validate_admission_keys `{ArrowIpc} a : validate_admission a = Ok tt ->
  admissible (admission_artifact a) /\ build (admission_artifact a) = Ok (a_admission_record_key a) /\
  build (admission_batch_artifact a) = Ok (a_batch_key a).
Proof.
  unfold validate_admission, malformed_admission. intros (bk & Hbk%map_err_ok & (rk & Hrk%map_err_ok & Ha)%bind_ok)%bind_ok.
  rewrite !bind_unit_ok, !fail_if_ok in Ha. destruct Ha as (_ & _ & Hb & Hr & _).
  apply negb_false_iff, bool_decide_eq_true in Hb, Hr. subst.
  unfold admission_artifact, admission_batch_artifact. cbn [build]. by destruct (build_text (admission_artifact a) _ Hrk).
Qed.

Lemma record_location_text `{ArrowIpc} a : validate_admission a = Ok tt ->
  record_location a = key_text (admission_artifact a) /\ under ADMISSION_PREFIX (record_location a) = true /\
  ends_with ".admission.json" (record_location a) = true.
Proof.
  intros (_ & Hr & _)%validate_admission_keys. apply build_text in Hr as [_ Hr]. unfold record_location. rewrite Hr.
  split; [done|]. unfold key_text. cbn [segments admission_artifact as_str]. rewrite !joined_cons, joined_one. split.
  - apply starts_with_true. eexists. reflexivity.
  - apply ends_with_true. rewrite <-!append_cons, <-!append_assoc. eexists. reflexivity.
Qed.

(** * Committed batches *)

(** The ranges of different batches of one partition do not meet. *)
Definition disjoint_ranges (d e : IngestBatchDescriptor) : Prop :=
  same_partition d e -> d_end_offset_exclusive d <= d_start_offset_inclusive e.

(** Descriptors in the order of their keys. *)
Definition key_ordered (ds : list IngestBatchDescriptor) : Prop :=
  StronglySorted (fun d e => string_cmp (located d) (located e) = Lt) ds.

Lemma validate_non_overlapping_ranges_ok `{ArrowIpc} ds : Forall described ds -> key_ordered ds ->
  validate_non_overlapping_ranges ds = Ok tt -> StronglySorted disjoint_ranges ds.
Proof.
  intros Hds Hord. induction ds as [|d ds IH]; [constructor|]. apply Forall_cons in Hds as [Hd Hds].
  apply StronglySorted_inv in Hord as [Hord Hfirst]. destruct ds as [|c ds]; [repeat constructor|].
  cbn [validate_non_overlapping_ranges]. rewrite bind_unit_ok, fail_if_ok. intros [Hdc Hrest].
  specialize (IH Hds Hord Hrest).
  assert (disjoint_ranges d c) as Hdisj.
  { intros [Hs Hp]. rewrite Hs, Hp, String.eqb_refl, Z.eqb_refl in Hdc. cbn in Hdc. lia. }
  constructor; [done|]. constructor; [done|]. rewrite Forall_forall. intros e He Hde.
  apply Forall_cons in Hds as [Hc Hds]. apply Forall_cons in Hfirst as [Hlt Hfirst].
  apply StronglySorted_inv in Hord as [_ Hord]. apply StronglySorted_inv in IH as [_ IH].
  rewrite Forall_forall in Hds, Hord, IH. pose proof (Hds e He) as Hed.
  assert (same_partition d c) as Hsame by (apply (partition_contiguous d c e); auto).
  specialize (IH e He). pose proof (described_range c Hc). specialize (Hdisj Hsame).
  enough (d_end_offset_exclusive c <= d_start_offset_inclusive e) by lia. apply IH.
  unfold same_partition in *. destruct Hsame, Hde. by split; congruence.
Qed.

(** [ds] describes the objects under [v1/ingest], in order and without overlap. *)
Definition committed_in (o : objects) (ds : list IngestBatchDescriptor) : Prop :=
  key_ordered ds /\ Forall described ds /\ StronglySorted disjoint_ranges ds /\
  forall l, l ∈ located <$> ds <-> is_Some (o !! l) /\ under INGEST_PREFIX l = true.

Lemma try_map_parse_ok `{ArrowIpc} ls ds :
  try_map parse_ingest_descriptor ls = Ok ds <-> Forall described ds /\ located <$> ds = ls.
Proof.
  revert ds. induction ls as [|l ls IH]; intros ds; cbn [try_map].
  - split; [by intros [= <-]|]. by intros [_ ->%fmap_nil_inv].
  - rewrite bind_ok. split.
    + intros (d & [Hd <-]%parse_ingest_descriptor_ok & (ds' & [Hds <-]%IH & [= <-])%bind_ok). auto.
    + intros [Hds Hl]. destruct ds as [|d ds]; [done|]. cbn in Hl. injection Hl as <- <-.
      apply Forall_cons in Hds as [??]. exists d. split; [by apply parse_ingest_descriptor_ok|].
      apply bind_ok. exists ds. split; [by apply IH|done].
Qed.

Lemma Forall2_member_l {A B} (P : A -> B -> Prop) l k x : Forall2 P l k -> x ∈ l -> exists y, y ∈ k /\ P x y.
Proof. induction 1; intros Hx; [by apply not_elem_of_nil in Hx|]. apply elem_of_cons in Hx as [->|?]; set_solver. Qed.
Lemma Forall2_member_r {A B} (P : A -> B -> Prop) l k y : Forall2 P l k -> y ∈ k -> exists x, x ∈ l /\ P x y.
Proof. induction 1; intros Hx; [by apply not_elem_of_nil in Hx|]. apply elem_of_cons in Hx as [->|?]; set_solver. Qed.

Lemma StronglySorted_fmap_inv {A B} (R : B -> B -> Prop) (f : A -> B) l :
  StronglySorted R (f <$> l) -> StronglySorted (fun x y => R (f x) (f y)) l.
Proof.
  induction l as [|x l IH]; cbn; intros Hs; [constructor|]. apply StronglySorted_inv in Hs as [Hs Hx].
  constructor; [auto|]. by rewrite Forall_fmap in Hx.
Qed.

Section committed.
Context `{Sha256, SerdeJson, RelationCodec, EnvelopeCodec, ArrowIpc, IngestCodec}.
Context (R : relation objects) `{!PreOrder R}.
Hypothesis R_adds : forall o o', R o o' -> o ⊆ o'.

Lemma list_committed_reading o : reading R list_committed (fun ds o' => exists o1, R o o1 /\ R o1 o' /\ committed_in o1 ds) o.
Proof using Type*.
  unfold list_committed. eapply (reading_then R); [apply (reading_sorted_list R)|].
  intros ls o' Ho (o1 & Ho1 & Ho' & Hsorted & Hls). apply (reading_lift R). intros ds [Hds <-]%try_map_parse_ok.
  apply (reading_lift R). intros [] Hval. apply (reading_ret R). intros ? [= <-]. exists o1. split_and!; [done..|].
  apply (StronglySorted_fmap_inv _ located) in Hsorted. split_and!; [done..| |done].
  by apply validate_non_overlapping_ranges_ok.
Qed.

(** * Replay *)

(** The smallest end offset that the checkpoints give the partition. *)
Definition least_end (cs : list ReplayCheckpoint) (key : string * Z) (m : Z) : Prop :=
  (exists c, c ∈ cs /\ (cp_stream_id c, cp_partition_id c) = key /\ cp_end_offset_exclusive c = m) /\
  forall c, c ∈ cs -> (cp_stream_id c, cp_partition_id c) = key -> m <= cp_end_offset_exclusive c.

Lemma try_fold_snoc {E S A} (f : S -> A -> result E S) s l x :
  try_fold f s (l ++ [x]) = (s' ← try_fold f s l; f s' x).
Proof. rewrite try_fold_app. destruct (try_fold f s l) as [s'|]; cbn; [by destruct (f s' x)|done]. Qed.

Definition cp_key (c : ReplayCheckpoint) : string * Z := (cp_stream_id c, cp_partition_id c).

Lemma least_end_snoc cs c key m :
  least_end (cs ++ [c]) key m <->
  if decide (cp_key c = key)
  then m <= cp_end_offset_exclusive c /\ (m = cp_end_offset_exclusive c \/ exists c', c' ∈ cs /\ cp_key c' = key /\ cp_end_offset_exclusive c' = m) /\
       forall c', c' ∈ cs -> cp_key c' = key -> m <= cp_end_offset_exclusive c'
  else least_end cs key m.
Proof using Type.
  unfold least_end. fold cp_key. setoid_rewrite elem_of_app. setoid_rewrite list_elem_of_singleton.
  destruct (decide (cp_key c = key)); split.
  - intros [(c' & [Hc'| ->] & ? & <-) Hmin]; split_and!; eauto; intros; apply Hmin; auto.
  - intros (Hm & [-> |(c' & ? & ? & <-)] & Hmin); (split; [eauto|]); intros c'' [?| ->] ?; auto; lia.
  - intros [(c' & [Hc'| ->] & ? & <-) Hmin]; [|done]. split; [eauto|]. intros; apply Hmin; auto.
  - intros [(c' & Hc' & ? & <-) Hmin]. split; [eauto 6|]. intros c'' [?| ->] ?; [auto|done].
Qed.

Lemma validate_checkpoints_ok cs offsets : validate_checkpoints cs = Ok offsets ->
  forall key, match offsets !! key with
              | Some m => least_end cs key m
              | None => forall c, c ∈ cs -> cp_key c <> key
              end.
Proof using Type.
  unfold validate_checkpoints. intros ([seen offs] & Hfold & [= <-])%bind_ok. revert seen offs Hfold.
  induction cs as [|c cs IH] using rev_ind; intros seen offs.
  - intros [= <- <-] key. rewrite lookup_empty. intros c Hc. by apply not_elem_of_nil in Hc.
  - rewrite try_fold_snoc, bind_ok. intros ([seen' offs'] & Hfold & Hstep) key. specialize (IH _ _ Hfold key).
    unfold checkpoint_step in Hstep. rewrite bind_unit_ok in Hstep. destruct Hstep as [_ [= <- <-]].
    fold (cp_key c). destruct (decide (cp_key c = key)) as [<-|Hne].
    + rewrite lookup_insert_eq. apply least_end_snoc. rewrite decide_True by done. destruct (offs' !! cp_key c) as [m|].
      * destruct IH as [(c' & Hc' & Hk' & He') Hmin]. split_and!; [lia| |].
        -- destruct (Z.min_spec m (cp_end_offset_exclusive c)) as [[_ ->]|[_ ->]]; eauto.
        -- intros c'' Hc'' Hk''. specialize (Hmin c'' Hc'' Hk''). lia.
      * split_and!; [lia|auto|]. intros c' Hc' Hk'. by destruct (IH c' Hc').
    + rewrite lookup_insert_ne by done. destruct (offs' !! key).
      * apply least_end_snoc. by rewrite decide_False.
      * intros c' [?| ->%list_elem_of_singleton]%elem_of_app; auto.
Qed.

(** Where replay starts in the partition of a batch: the smallest of its
    checkpoints, or offset zero. *)
Definition starts_at (cs : list ReplayCheckpoint) (d : IngestBatchDescriptor) (from : Z) : Prop :=
  least_end cs (d_stream_id d, d_partition_id d) from \/
  from = 0 /\ forall c, c ∈ cs -> cp_key c <> (d_stream_id d, d_partition_id d).

Lemma checkpoint_end_starts_at cs offsets d : validate_checkpoints cs = Ok offsets ->
  starts_at cs d (checkpoint_end offsets d).
Proof using Type.
  intros Hcs. pose proof (validate_checkpoints_ok _ _ Hcs (d_stream_id d, d_partition_id d)) as Hk.
  unfold starts_at, checkpoint_end. destruct (offsets !! _); [by left|by right].
Qed.

Lemma in_window_ok offsets inside d b : d_start_offset_inclusive d < d_end_offset_exclusive d ->
  in_window offsets inside d = Ok b <->
  if b : bool then checkpoint_end offsets d <= d_start_offset_inclusive d
  else d_end_offset_exclusive d <= checkpoint_end offsets d.
Proof using Type.
  intros Hd. unfold in_window. destruct (Z.leb_spec (d_end_offset_exclusive d) (checkpoint_end offsets d)).
  - split; [by intros [= <-]|]. destruct b; [lia|done].
  - destruct (Z.ltb_spec (d_start_offset_inclusive d) (checkpoint_end offsets d)), (Z.ltb_spec (checkpoint_end offsets d) (d_end_offset_exclusive d));
      cbn; destruct b; split; try done; lia.
Qed.

(** What a replay returns, for the committed batches [ds]: the batches after the
    checkpoint of their partition, in order, each with the body of its object.
    No checkpoint is inside a batch. *)
Definition replays (cs : list ReplayCheckpoint) (ds : list IngestBatchDescriptor) (bs : list IngestBatch)
    (o : objects) : Prop :=
  exists from : IngestBatchDescriptor -> Z,
    (forall d, starts_at cs d (from d)) /\
    Forall (fun d => d_end_offset_exclusive d <= from d \/ from d <= d_start_offset_inclusive d) ds /\
    b_descriptor <$> bs = filter (fun d => from d <= d_start_offset_inclusive d) ds /\
    Forall (fun b => o !! located (b_descriptor b) = Some (b_payload b)) bs.

Lemma replays_weaken cs ds bs o o' : o ⊆ o' -> replays cs ds bs o -> replays cs ds bs o'.
Proof using Type.
  intros Ho (from & ? & ? & ? & Hb). exists from. split_and!; [done..|]. eapply Forall_impl; [exact Hb|].
  cbn. intros b Hl. by apply (lookup_weaken _ _ _ _ Hl).
Qed.

(** The batch of a descriptor, for the loop of a replay. *)
Definition replayed (valid : IngestBatchDescriptor -> bytes -> Prop) (offsets : gmap (string * Z) Z)
    (d : IngestBatchDescriptor) (b : option IngestBatch) (o : objects) : Prop :=
  match b with
  | Some b => b_descriptor b = d /\ checkpoint_end offsets d <= d_start_offset_inclusive d /\
      o !! located d = Some (b_payload b) /\ valid d (b_payload b)
  | None => d_end_offset_exclusive d <= checkpoint_end offsets d
  end.

Lemma replay_batch_reading validate offsets d o : described d ->
  reading R (replay_batch validate offsets d) (replayed (fun d body => validate d body = Ok tt) offsets d) o.
Proof using Type*.
  intros Hd%described_range. apply (reading_lift R). intros b Hb%in_window_ok; [|done]. destruct b; cbn [replayed].
  - eapply (reading_then R); [apply (reading_get R)|]. intros body o' _ Hbody. apply (reading_lift R). intros [] Hval.
    apply (reading_ret R). by intros ? [= <-].
  - apply (reading_ret R). by intros ? [= <-].
Qed.

Lemma replayed_bodies valid offsets ds bs o : Forall described ds ->
  Forall2 (fun d b => replayed valid offsets d b o) ds bs ->
  Forall (fun d => d_end_offset_exclusive d <= checkpoint_end offsets d \/ checkpoint_end offsets d <= d_start_offset_inclusive d) ds /\
  b_descriptor <$> omap id bs = filter (fun d => checkpoint_end offsets d <= d_start_offset_inclusive d) ds /\
  Forall (fun b => o !! located (b_descriptor b) = Some (b_payload b) /\ valid (b_descriptor b) (b_payload b)) (omap id bs).
Proof using Type.
  intros Hds Hall. induction Hall as [|d b ds bs Hb _ IH]; [done|]. apply Forall_cons in Hds as [Hd%described_range Hds].
  destruct (IH Hds) as (Hcut & Hdesc & Hbody). destruct b as [b|]; cbn [replayed] in Hb.
  - destruct Hb as (<- & Hle & Hl & Hv). rewrite filter_cons_True by done.
    change (omap id (Some b :: bs)) with (b :: omap id bs). rewrite fmap_cons, Hdesc. auto.
  - rewrite filter_cons_False by lia. change (omap id (None :: bs)) with (omap id bs). auto.
Qed.

Lemma replay_with_reading validate cs o :
  reading R (replay_with validate cs) (fun bs o' => exists o1 ds, R o o1 /\ R o1 o' /\ committed_in o1 ds /\
    replays cs ds bs o' /\ Forall (fun b => validate (b_descriptor b) (b_payload b) = Ok tt) bs) o.
Proof using Type*.
  apply (reading_lift R). intros offsets Hcs. eapply (reading_then R); [apply list_committed_reading|].
  intros ds o' _ (o1 & Ho1 & Ho' & Hcom). pose proof Hcom as (_ & Hds & _).
  eapply (reading_then R).
  - apply (reading_collect R _ (fun d b => replayed (fun d body => validate d body = Ok tt) offsets d b)).
    + intros d [b|] o2 o3 Hle; [|done]. cbn. intros (? & ? & Hl & ?). split_and!; [done..| |done]. by eapply lookup_weaken, R_adds.
    + intros d o2 Hd _. apply replay_batch_reading. by rewrite Forall_forall in Hds; auto.
  - intros bs o2 Ho2 Hbs. apply (reading_ret R). intros ? [= <-].
    destruct (replayed_bodies _ _ _ _ _ Hds Hbs) as (Hcut & Hdesc & [Hbody Hval]%Forall_and).
    exists o1, ds. split_and!; [done|by trans o'|done| |done].
    exists (checkpoint_end offsets). split_and!; auto. intros d. by apply checkpoint_end_starts_at.
Qed.

(** * Admission records and expiry decisions *)

(** The record is stored, with this body. *)
Definition stored_admission (o : objects) (body : bytes) (a : DurableIngestAdmissionRecordV1) : Prop :=
  o !! record_location a = Some body /\ admission_from_slice body = Some a /\ validate_admission a = Ok tt.

Definition stored_decision (o : objects) (x : ExpiryDecisionRecord) : Prop :=
  exists body, o !! as_str (x_expiry_decision_key x) = Some body /\ expiry_from_slice body = Some x /\
    validate_expiry x = Ok tt /\ ends_with ".expiry.json" (as_str (x_expiry_decision_key x)) = true.

Lemma stored_admission_weaken o o' body a : o ⊆ o' -> stored_admission o body a -> stored_admission o' body a.
Proof using Type. intros Hle (? & ? & ?). split_and!; [by eapply lookup_weaken|done..]. Qed.
Lemma stored_decision_weaken o o' x : o ⊆ o' -> stored_decision o x -> stored_decision o' x.
Proof using Type. intros Hle (body & ? & ?). exists body. split; [by eapply lookup_weaken|done]. Qed.

Definition body_read (l : string) (y : option (bytes * DurableIngestAdmissionRecordV1)) (o : objects) : Prop :=
  match y with
  | Some (body, a) => stored_admission o body a /\ record_location a = l
  | None => ends_with ".expiry.json" l = true
  end.

Lemma read_admission_body_reading l o : reading R (read_admission_body l) (body_read l) o.
Proof using Type*.
  unfold read_admission_body. destruct (ends_with ".expiry.json" l) eqn:Hl.
  { apply (reading_ret R). intros y (_ & _ & [= <-])%bind_ok. done. }
  destruct (ends_with ".admission.json" l); [|done]. cbn [negb]. apply (reading_lift R). intros _ _.
  eapply (reading_then R); [apply (reading_get R)|]. intros body o' _ Hbody.
  apply (reading_lift R). intros a Ha%ok_or_ok. apply (reading_lift R). intros [] Hval.
  apply (reading_lift R). intros [] Hkey%fail_if_ok. apply (reading_ret R). intros ? [= <-].
  apply negb_false_iff, String.eqb_eq in Hkey as ->. done.
Qed.

Lemma list_admission_record_bodies_reading o :
  reading R list_admission_record_bodies (fun bs o' => exists o1, R o o1 /\ R o1 o' /\
    (forall body a, (body, a) ∈ bs -> stored_admission o' body a) /\
    (forall body a, stored_admission o1 body a -> (body, a) ∈ bs)) o.
Proof using Type*.
  unfold list_admission_record_bodies. eapply (reading_then R); [apply (reading_sorted_list R)|].
  intros ls o' _ (o1 & Ho1 & Ho' & _ & Hls). eapply (reading_then R).
  - apply (reading_collect R _ body_read).
    + intros l [[body a]|] o2 o3 Hle; [|done]. intros [Hst ?]. split; [|done]. eapply stored_admission_weaken; [by apply R_adds|done].
    + intros l o2 _ _. apply read_admission_body_reading.
  - intros ys o2 Ho2 Hys. apply (reading_ret R). intros ? [= <-]. exists o1. split_and!; [done|by trans o'| |].
    + intros body a (y & Hy & Heq)%list_elem_of_omap. cbn in Heq. subst y.
      by destruct (Forall2_member_r _ _ _ _ Hys Hy) as (l & _ & [? _]).
    + intros body a Hst. pose proof Hst as (Hl & Hread & Hval).
      destruct (record_location_text a Hval) as (_ & Hunder & Hends).
      assert (record_location a ∈ ls) as Hin by (apply Hls; split; [by eexists|done]).
      destruct (Forall2_member_l _ _ _ _ Hys Hin) as ([[body' a']|] & Hy & Hbody); cbn [body_read] in Hbody.
      * destruct Hbody as [(Hl' & Hread' & _) Hloc]. rewrite Hloc in Hl'.
        assert (body' = body) as -> by (eapply lookup_weaken in Hl; [|apply R_adds; trans o'; eassumption]; congruence).
        assert (a' = a) as -> by congruence. apply list_elem_of_omap. by exists (Some (body, a)).
      * by rewrite ends_with_exclusive in Hbody.
Qed.

Definition decision_read (l : string) (y : option ExpiryDecisionRecord) (o : objects) : Prop :=
  match y with
  | Some x => stored_decision o x /\ as_str (x_expiry_decision_key x) = l
  | None => ends_with ".admission.json" l = true
  end.

Lemma read_expiry_decision_reading l o : reading R (read_expiry_decision l) (decision_read l) o.
Proof using Type*.
  unfold read_expiry_decision. destruct (ends_with ".admission.json" l) eqn:Hl.
  { apply (reading_ret R). intros y (_ & _ & [= <-])%bind_ok. done. }
  destruct (ends_with ".expiry.json" l) eqn:He; [|done]. cbn [negb]. apply (reading_lift R). intros _ _.
  eapply (reading_then R); [apply (reading_get R)|]. intros body o' _ Hbody.
  apply (reading_lift R). intros x Hx%ok_or_ok. apply (reading_lift R). intros [] Hval.
  apply (reading_lift R). intros [] Hkey%fail_if_ok. apply (reading_ret R). intros ? [= <-].
  apply negb_false_iff, String.eqb_eq in Hkey as ->. by split; [exists body|].
Qed.

Lemma decision_under x : validate_expiry x = Ok tt -> under ADMISSION_PREFIX (as_str (x_expiry_decision_key x)) = true.
Proof using Type.
  unfold validate_expiry. intros (? & _ & (? & _ & Hx)%bind_ok)%bind_ok.
  rewrite !bind_unit_ok, !fail_if_ok in Hx. destruct Hx as (_ & _ & _ & _ & _ & Hx & _).
  apply negb_false_iff, starts_with_true in Hx as [r ->]. unfold expiry_prefix. rewrite append_assoc.
  apply starts_with_app.
Qed.

Lemma list_admission_expiry_decisions_reading o :
  reading R list_admission_expiry_decisions (fun xs o' => exists o1, R o o1 /\ R o1 o' /\
    (forall x, x ∈ xs -> stored_decision o' x) /\ (forall x, stored_decision o1 x -> x ∈ xs)) o.
Proof using Type*.
  unfold list_admission_expiry_decisions. eapply (reading_then R); [apply (reading_sorted_list R)|].
  intros ls o' _ (o1 & Ho1 & Ho' & _ & Hls). eapply (reading_then R).
  - apply (reading_collect R _ decision_read).
    + intros l [x|] o2 o3 Hle; [|done]. intros [Hst ?]. split; [|done]. eapply stored_decision_weaken; [by apply R_adds|done].
    + intros l o2 _ _. apply read_expiry_decision_reading.
  - intros ys o2 Ho2 Hys. apply (reading_ret R). intros ? [= <-]. exists o1. split_and!; [done|by trans o'| |].
    + intros x (y & Hy & Heq)%list_elem_of_omap. cbn in Heq. subst y.
      by destruct (Forall2_member_r _ _ _ _ Hys Hy) as (l & _ & [? _]).
    + intros x (body & Hl & Hread & Hval & Hends).
      assert (as_str (x_expiry_decision_key x) ∈ ls) as Hin by (apply Hls; split; [by eexists|by apply decision_under]).
      destruct (Forall2_member_l _ _ _ _ Hys Hin) as ([x'|] & Hy & Hbody); cbn [decision_read] in Hbody.
      * destruct Hbody as [(body' & Hl' & Hread' & _) Hloc]. rewrite Hloc in Hl'.
        assert (body' = body) as -> by (eapply lookup_weaken in Hl; [|apply R_adds; trans o'; eassumption]; congruence).
        assert (x' = x) as -> by congruence. apply list_elem_of_omap. by exists (Some x).
      * by rewrite ends_with_exclusive in Hends.
Qed.

(** * Replay of admitted batches *)

(** A stored admission record matches the envelope of the batch. *)
Definition backed (o : objects) (b : IngestBatch) : Prop :=
  exists body a e, stored_admission o body a /\ decode (b_payload b) = Ok e /\
    validate_descriptor e (b_descriptor b) = Ok tt /\
    validate_admission_matches_replayed_batch a (b_descriptor b) e = Ok tt.

Definition all_stored (o : objects) (m : gmap ObjectKey DurableIngestAdmissionRecordV1) : Prop :=
  forall k a, m !! k = Some a -> exists body, stored_admission o body a.

Lemma replay_admissions_stored committed offsets records m o :
  Forall (fun a => exists body, stored_admission o body a) records ->
  try_fold (add_replay_admission committed offsets) ∅ records = Ok m -> all_stored o m.
Proof using Type.
  rewrite Forall_forall. intros Hrec. apply try_fold_inv; [by intros k a|]. intros m1 a m2 Ha Hm1.
  unfold add_replay_admission. intros (d & _ & Hm2)%bind_ok. destruct (committed !! _); [|by injection Hm2 as <-].
  apply bind_ok in Hm2 as ([] & _ & [= <-]); [|done].
  intros k a'. destruct (decide (k = a_batch_key a)) as [->|].
  - rewrite lookup_insert_eq. intros [= <-]. auto.
  - rewrite lookup_insert_ne by done. apply Hm1.
Qed.

(** The state of the loop after the descriptors [ds]. *)
Definition replaying (offsets : gmap (string * Z) Z) (ds : list IngestBatchDescriptor)
    (s : gmap ObjectKey DurableIngestAdmissionRecordV1 * list IngestBatch) (o : objects) : Prop :=
  all_stored o s.1 /\
  Forall (fun d => d_end_offset_exclusive d <= checkpoint_end offsets d \/ checkpoint_end offsets d <= d_start_offset_inclusive d) ds /\
  b_descriptor <$> s.2 = filter (fun d => checkpoint_end offsets d <= d_start_offset_inclusive d) ds /\
  Forall (fun b => o !! located (b_descriptor b) = Some (b_payload b) /\ backed o b) s.2.

Lemma backed_weaken o o' b : o ⊆ o' -> backed o b -> backed o' b.
Proof using Type. intros Hle (body & a & e & ? & ?). exists body, a, e. split; [by eapply stored_admission_weaken|done]. Qed.

Lemma replaying_weaken offsets ds s o o' : o ⊆ o' -> replaying offsets ds s o -> replaying offsets ds s o'.
Proof using Type.
  intros Hle (Hadm & Hcut & Hdesc & Hb). split_and!; [|done..|].
  - intros k a [body Ha]%Hadm. exists body. by eapply stored_admission_weaken.
  - eapply Forall_impl; [exact Hb|]. intros b [??]. split; [by eapply lookup_weaken|by eapply backed_weaken].
Qed.

Lemma replay_admitted_batch_reading offsets xs s d o : described d -> replaying offsets xs s o ->
  reading R (replay_admitted_batch offsets s d) (replaying offsets (xs ++ [d])) o.
Proof using Type*.
  intros Hd%described_range Hs. apply (reading_lift R). intros b Hb%in_window_ok; [|done]. destruct b; cbn [negb].
  - eapply (reading_then R); [apply (reading_get R)|]. intros body o' Ho Hbody.
    apply R_adds in Ho. apply (replaying_weaken _ _ _ _ _ Ho) in Hs as (Hadm & Hcut & Hdesc & Hbs).
    apply (reading_lift R). intros e He%map_err_ok. apply (reading_lift R). intros [] Hval%map_err_ok.
    apply (reading_lift R). intros a Ha%ok_or_ok. apply (reading_lift R). intros [] Hmatch.
    apply (reading_ret R). intros ? [= <-]. unfold replaying. cbn [fst snd].
    rewrite fmap_app, filter_app, Hdesc, !Forall_app, !Forall_singleton, (filter_cons_True _ d) by done. split_and!; auto.
    + intros k a' [_ Hk]%lookup_delete_Some. by eapply Hadm.
    + destruct (Hadm _ _ Ha) as [abody ?]. by exists abody, a, e.
  - destruct Hs as (Hadm & Hcut & Hdesc & Hbs). apply (reading_ret R). intros ? [= <-]. unfold replaying.
    rewrite filter_app, Hdesc, Forall_app, Forall_singleton, (filter_cons_False _ d), filter_nil, app_nil_r by lia. auto.
Qed.

Lemma replay_admitted_reading cs o :
  reading R (replay_admitted_validated_envelopes_from cs) (fun bs o' => exists o1 ds, R o o1 /\ R o1 o' /\
    committed_in o1 ds /\ replays cs ds bs o' /\ Forall (backed o') bs) o.
Proof using Type*.
  apply (reading_lift R). intros offsets Hcs. eapply (reading_then R); [apply list_committed_reading|].
  intros ds o' _ (o1 & Ho1 & Ho' & Hcom). pose proof Hcom as (_ & Hds & _). rewrite Forall_forall in Hds.
  eapply (reading_then R).
  { eapply (reading_then R); [apply list_admission_record_bodies_reading|]. intros bodies o2 _ (_ & _ & _ & Hst & _).
    apply (reading_ret R _ (fun rs o => Forall (fun a => exists body, stored_admission o body a) rs)). intros ? [= <-].
    rewrite Forall_fmap, Forall_forall. intros [body a] ?. exists body. by apply Hst. }
  intros records o2 Ho2 Hrec. apply (reading_lift R). intros m Hm.
  pose proof (replay_admissions_stored _ _ _ _ _ Hrec Hm) as Hstored.
  eapply (reading_then R).
  - apply (reading_fold_each R _ (replaying offsets)).
    + intros xs s o3 o4 Hle%R_adds. by apply replaying_weaken.
    + done.
    + intros xs d s o3 Hd _ Hs. by apply replay_admitted_batch_reading; auto.
  - intros s o3 Ho3 (_ & Hcut & Hdesc & [Hbody Hbacked]%Forall_and). apply (reading_ret R). intros ? [= <-].
    exists o1, ds. split_and!; [done|by trans o2; [trans o'|]|done| |done].
    exists (checkpoint_end offsets). split_and!; auto. intros d. by apply checkpoint_end_starts_at.
Qed.
End committed.

(** * Runs *)

(** What a run establishes that holds at one moment of it. *)
Lemma exec_reading_grown `{ObjectStoreLaws} env {E B} (p : prog (result E B)) (P : B -> objects -> objects -> Prop) s trace b s' :
  grows_around env -> (forall b o1 o o', o ⊆ o' -> P b o1 o -> P b o1 o') ->
  reading (⊆) p (fun b o' => exists o1, content s ⊆ o1 /\ o1 ⊆ o' /\ P b o1 o') (content s) ->
  exec env p s trace (Ok b) s' -> exists o1, content s ⊆ o1 /\ o1 ⊆ content s' /\ P b o1 (content s').
Proof.
  intros Henv HP Hp Hex. revert Hex. apply (exec_reading (⊆) env p
    (fun b o' => exists o1, content s ⊆ o1 /\ o1 ⊆ o' /\ P b o1 o')); [exact Henv| |exact Hp].
  intros a o o' Ho (o1 & ? & ? & ?). exists o1. split_and!; [done|by trans o|eauto].
Qed.

Lemma run_reading_grown {E B} (p : prog (result E B)) (P : B -> objects -> objects -> Prop) o b :
  (forall b o1 o o', o ⊆ o' -> P b o1 o -> P b o1 o') ->
  reading (⊆) p (fun b o' => exists o1, o ⊆ o1 /\ o1 ⊆ o' /\ P b o1 o') o -> run p o = (Ok b, o) -> P b o o.
Proof.
  intros HP Hp Hrun. destruct (run_exec (fun _ _ => False) p o) as [trace Hex]. rewrite Hrun in Hex.
  destruct (@exec_reading_grown memory_store memory_store_laws (fun _ _ => False) E B p P o trace b o (fun _ _ => False_ind _) HP Hp Hex)
    as (o1 & H1 & H2 & Hb). cbn in *. by assert (o1 = o) as -> by by apply (anti_symm (⊆)).
Qed.

Lemma run_bind {A B} (p : prog A) (f : A -> prog B) o : run (bind p f) o = run (f (run p o).1) (run p o).2.
Proof.
  revert o. induction p as [a|c k IH]; intros o; cbn [bind run]; [done|]. destruct (memory_answer o c). apply IH.
Qed.

Lemma run_then {E A B} (p : prog (result E A)) (f : A -> prog (result E B)) o a o' :
  run p o = (Ok a, o') -> run (x ←! p; f x) o = run (f a) o'.
Proof. intros Hp. unfold and_then. by rewrite run_bind, Hp. Qed.

Lemma run_lift {E A B} (r : result E A) (f : A -> prog (result E B)) o a :
  r = Ok a -> run (x ←! Ret r; f x) o = run (f a) o.
Proof. by intros ->. Qed.

Lemma run_get {E} l (e : store_error -> E) o body : o !! l = Some body ->
  run (bind (request (Get l)) (fun r => Ret (map_err e r))) o = (Ok body, o).
Proof. intros Hl. cbn. by rewrite Hl. Qed.

Lemma run_collect {E A B} (f : A -> prog (result E B)) l ys o :
  Forall2 (fun x y => run (f x) o = (Ok y, o)) l ys -> run (collect f l) o = (Ok ys, o).
Proof.
  induction 1 as [|x y l ys Hx _ IH]; cbn [collect]; [done|].
  rewrite (run_then _ _ _ _ _ Hx). by rewrite (run_then _ _ _ _ _ IH).
Qed.

Lemma strictly_sorted_unique (l1 l2 : list string) :
  StronglySorted (fun a b => cmp a b = Lt) l1 -> StronglySorted (fun a b => cmp a b = Lt) l2 ->
  (forall x, x ∈ l1 <-> x ∈ l2) -> l1 = l2.
Proof.
  intros H1 H2 Hin. assert (forall l, StronglySorted (fun a b : string => cmp a b = Lt) l -> NoDup l) as Hnd.
  { induction 1 as [|x l _ IH Hx]; constructor; [|done]. intros Hin'. rewrite Forall_forall in Hx. specialize (Hx x Hin').
    by rewrite (proj2 (cmp_eq x x)) in Hx. }
  eapply StronglySorted_unique_strong; [|exact H1|exact H2|by apply NoDup_Permutation; auto].
  intros x y _ _ Hxy Hyx. pose proof (cmp_antisym x y) as Hanti. by rewrite Hxy, Hyx in Hanti.
Qed.

Lemma StronglySorted_fmap {A B} (R : B -> B -> Prop) (f : A -> B) l :
  StronglySorted (fun x y => R (f x) (f y)) l -> StronglySorted R (f <$> l).
Proof. induction 1; cbn; constructor; [done|]. by apply Forall_fmap. Qed.

Section alone.
Context `{Sha256, SerdeJson, RelationCodec, EnvelopeCodec, ArrowIpc, IngestCodec}.

Lemma run_sorted_listing prefix o ls : listed prefix o ls -> run (sorted_listing prefix) o = (Ok ls, o).
Proof using Type.
  intros Hls. unfold sorted_listing. erewrite run_then; [|reflexivity]. cbn [run]. do 2 f_equal.
  destruct Hls as [Hs Hls].
  assert (answers o (List prefix) (memory_answer o (List prefix)).1 o) as (_ & Hnd & Hmem)
    by exact (memory_store_laws.(serve_answers) o (List prefix) _ o eq_refl).
  apply strictly_sorted_unique; [by apply sort_strict|done|]. intros x. rewrite sort_on_perm, Hls. apply Hmem.
Qed.

Lemma validate_non_overlapping_ranges_total ds :
  StronglySorted disjoint_ranges ds -> validate_non_overlapping_ranges ds = Ok tt.
Proof using Type.
  induction ds as [|d ds IH]; [done|]. intros [Hs Hd]%StronglySorted_inv. destruct ds as [|c ds]; [done|].
  cbn [validate_non_overlapping_ranges]. rewrite bind_unit_ok, fail_if_ok. split; [|by apply IH].
  apply Forall_cons in Hd as [Hdc _]. apply not_true_iff_false. rewrite !andb_true_iff, String.eqb_eq, Z.eqb_eq, Z.ltb_lt.
  intros [[Hst Hp] Hlt]. specialize (Hdc (conj Hst Hp)). lia.
Qed.

Lemma run_list_committed o ds : committed_in o ds -> run list_committed o = (Ok ds, o).
Proof using Type.
  intros (Hord & Hds & Hdisj & Hall). unfold list_committed.
  erewrite run_then; [|apply run_sorted_listing; split; [|exact Hall]].
  - erewrite run_lift; [|by apply try_map_parse_ok]. erewrite run_lift; [done|]. by apply validate_non_overlapping_ranges_total.
  - by apply StronglySorted_fmap.
Qed.

Definition replay_key (c : ReplayCheckpoint) : string * Z * option string * option string :=
  (cp_stream_id c, cp_partition_id c, cp_relation_id c, cp_relation_version c).

Lemma validate_checkpoints_total cs : NoDup (replay_key <$> cs) -> exists offsets, validate_checkpoints cs = Ok offsets.
Proof using Type.
  intros Hnd. enough (exists s, try_fold checkpoint_step (∅, ∅) cs = Ok s /\ forall k, k ∈ s.1 <-> k ∈ replay_key <$> cs)
    as ([seen offsets] & Hs & _) by (exists offsets; unfold validate_checkpoints; by rewrite Hs).
  induction cs as [|c cs IH] using rev_ind; [by exists (∅, ∅); set_solver|].
  rewrite fmap_app in Hnd. apply NoDup_app in Hnd as (Hnd & Hc & _). destruct (IH Hnd) as ([seen offsets] & Hs & Hseen).
  rewrite try_fold_snoc, Hs. cbn [mbind result_bind checkpoint_step]. fold (replay_key c).
  rewrite bool_decide_false by (intros Hin%Hseen; apply (Hc _ Hin); left). eexists. split; [reflexivity|].
  intros k. cbn [fst] in *. rewrite fmap_app, elem_of_app, elem_of_union, elem_of_singleton, Hseen.
  cbn [fmap list_fmap]. rewrite list_elem_of_singleton. tauto.
Qed.

(** No checkpoint of its partition that replay starts from is inside the batch. *)
Definition uncut (cs : list ReplayCheckpoint) (d : IngestBatchDescriptor) : Prop :=
  forall from, starts_at cs d from -> d_end_offset_exclusive d <= from \/ from <= d_start_offset_inclusive d.

Lemma run_replay_batch validate offsets o d :
  described d -> is_Some (o !! located d) -> (forall d body, validate d body = Ok tt) ->
  d_end_offset_exclusive d <= checkpoint_end offsets d \/ checkpoint_end offsets d <= d_start_offset_inclusive d ->
  exists b, run (replay_batch validate offsets d) o = (Ok b, o).
Proof using Type.
  intros Hd%described_range [body Hbody] Hval Hcut. unfold replay_batch.
  assert (exists b, batch_in_replay_window offsets d = Ok b) as [b Hb].
  { destruct Hcut; [exists false|exists true]; by apply in_window_ok. }
  erewrite run_lift; [|exact Hb]. destruct b; [|by eexists].
  erewrite run_then; [|by apply run_get]. erewrite run_lift; [|apply Hval]. by eexists.
Qed.

Lemma run_replay_from cs ds o : committed_in o ds -> NoDup (replay_key <$> cs) -> Forall (uncut cs) ds ->
  exists bs, run (replay_from cs) o = (Ok bs, o).
Proof using Type.
  intros Hcom [offsets Hoff]%validate_checkpoints_total Hcut. unfold replay_from, replay_with.
  erewrite run_lift; [|exact Hoff]. erewrite run_then; [|by apply run_list_committed].
  destruct Hcom as (_ & Hds & _ & Hall).
  assert (exists ys, Forall2 (fun d y => run (replay_batch (fun _ _ => Ok tt) offsets d) o = (Ok y, o)) ds ys) as [ys Hys].
  { assert (Forall (fun d => is_Some (o !! located d)) ds) as Hstored.
    { rewrite Forall_forall. intros d Hd. apply Hall. by apply list_elem_of_fmap_2. }
    clear Hall. induction ds as [|d ds IH]; [by exists []|].
    apply Forall_cons in Hds as [??], Hcut as [Hc ?], Hstored as [??]. destruct IH as [ys ?]; [done..|].
    destruct (run_replay_batch (fun _ _ => Ok tt) offsets o d) as [y ?]; [done..| |by exists (y :: ys); constructor].
    by apply Hc, checkpoint_end_starts_at. }
  erewrite run_then; [|by apply run_collect]. by eexists.
Qed.

Lemma list_committed_run o ds : run list_committed o = (Ok ds, o) -> committed_in o ds.
Proof using Type.
  apply (run_reading_grown _ (fun ds o _ => committed_in o ds)); [done|]. by apply (list_committed_reading (⊆)).
Qed.

Lemma replay_from_reading cs o : reading (⊆) (replay_from cs) (fun bs o' => exists o1, o ⊆ o1 /\ o1 ⊆ o' /\
  exists ds, committed_in o1 ds /\ replays cs ds bs o') o.
Proof using Type.
  eapply (reading_mono (⊆)); [by apply (replay_with_reading (⊆))|].
  intros bs o' _ (o1 & ds & ? & ? & ? & ? & _). exists o1. split_and!; [done..|]. by exists ds.
Qed.

Context `{!ObjectStore, !ObjectStoreLaws}.

(** C12: While other writers only add objects, [list_committed] returns the batches
    that were in the store at one moment of the call: all of them, in the order of
    their keys, with ranges that do not overlap within a partition. Alone, it
    returns exactly when the committed ranges do not overlap. *)
Theorem list_committed_exact :
  (forall env s trace ds s', grows_around env -> exec env list_committed s trace (Ok ds) s' ->
     exists o, content s ⊆ o /\ o ⊆ content s' /\ committed_in o ds) /\
  (forall o ds, run list_committed o = (Ok ds, o) <-> committed_in o ds).
Proof using Type*.
  split.
  - intros env s trace ds s' Henv Hex. revert Hex.
    apply (exec_reading_grown env _ (fun ds o _ => committed_in o ds)); [done..|]. by apply (list_committed_reading (⊆)).
  - intros o ds. split; [|apply run_list_committed]. intros Hrun.
    revert Hrun.
    apply (run_reading_grown _ (fun ds o _ => committed_in o ds)); [done|]. by apply (list_committed_reading (⊆)).
Qed.

(** C11: While other writers only add objects, [replay_from] returns exactly the
    committed batches after the smallest checkpoint of their partition, in the order of
    their keys and with the stored bodies, and it fails when a checkpoint is
    inside a batch. Alone, it returns when no two checkpoints are the same and no
    checkpoint is inside a batch. *)
Theorem replay_exact cs :
  (forall env s trace bs s', grows_around env -> exec env (replay_from cs) s trace (Ok bs) s' ->
     exists o ds, content s ⊆ o /\ o ⊆ content s' /\ committed_in o ds /\ replays cs ds bs (content s')) /\
  (forall o ds, committed_in o ds -> NoDup (replay_key <$> cs) -> Forall (uncut cs) ds ->
     exists bs, run (replay_from cs) o = (Ok bs, o) /\ replays cs ds bs o).
Proof using Type*.
  assert (forall bs o1 o o', o ⊆ o' -> (exists ds, committed_in o1 ds /\ replays cs ds bs o) ->
    exists ds, committed_in o1 ds /\ replays cs ds bs o') as Hmono.
  { intros bs o1 o o' Ho (ds & ? & ?). exists ds. split; [done|]. by eapply replays_weaken. }
  split.
  - intros env s trace bs s' Henv Hex. apply (exec_reading_grown env _ _ _ _ _ _ Henv Hmono) in Hex.
    + destruct Hex as (o1 & ? & ? & ds & ? & ?). by exists o1, ds.
    + apply replay_from_reading.
  - intros o ds Hcom Hnd Hcut. destruct (run_replay_from cs ds o Hcom Hnd Hcut) as [bs Hrun]. exists bs. split; [done|].
    apply (run_reading_grown _ _ _ _ Hmono) in Hrun as (ds' & Hcom' & Hr); [|apply replay_from_reading].
    apply run_list_committed in Hcom, Hcom'. rewrite Hcom in Hcom'. by injection Hcom' as ->.
Qed.

(** While other writers only add objects, the batches that
    [replay_admitted_validated_envelopes_from] returns are again the committed
    batches after the checkpoints; and each is an envelope that decodes, agrees with its
    descriptor and has a stored admission record with its range, digest, relation
    and watermark. *)
Theorem replay_admitted_backed cs env s trace bs s' :
  grows_around env -> exec env (replay_admitted_validated_envelopes_from cs) s trace (Ok bs) s' ->
  exists o ds, content s ⊆ o /\ o ⊆ content s' /\ committed_in o ds /\ replays cs ds bs (content s') /\
    Forall (backed (content s')) bs.
Proof using Type*.
  intros Henv Hex.
  apply (exec_reading_grown env _ (fun bs o1 o' => exists ds, committed_in o1 ds /\ replays cs ds bs o' /\
    Forall (backed o') bs) _ _ _ _ Henv) in Hex.
  - destruct Hex as (o1 & ? & ? & ds & ? & ?). by exists o1, ds.
  - intros bs' o1 o o' Ho (ds & ? & ? & Hb). exists ds. split_and!; [done|by eapply replays_weaken|].
    eapply Forall_impl; [exact Hb|]. intros b. by apply backed_weaken.
  - eapply (reading_mono (⊆)); [by apply (replay_admitted_reading (⊆))|].
    intros bs' o' _ (o1 & ds & ? & ? & ?). exists o1. split_and!; [done..|]. by exists ds.
Qed.
End alone.

(** * Following transitions *)

(** The number of buckets is enough fuel: with more, the loop returns the same. *)
Lemma follow_transitions_fuel `{Sha256, SerdeJson, ArrowIpc} fuel prefix buckets st : (size buckets <= fuel)%nat ->
  follow_transitions fuel prefix buckets st = follow_transitions (size buckets) prefix buckets st.
Proof.
  remember (size buckets) as n eqn:Hn. revert fuel buckets st Hn. induction n as [|n IH]; intros fuel buckets st Hn Hle.
  - apply eq_sym, map_size_empty_inv in Hn as ->. destruct fuel; [done|]. cbn [follow_transitions]. by rewrite lookup_empty.
  - destruct fuel as [|fuel]; [lia|]. cbn [follow_transitions].
    destruct (buckets !! state_digest st) as [[|t [|]]|] eqn:Hb; try done.
    destruct (apply_to_state t st) as [st'|]; [|done]. cbn [mbind result_bind]. apply IH; [|lia].
    rewrite map_size_delete, Hb. lia.
Qed.

(** * Event times *)

Section event_time.
Context `{Sha256, SerdeJson, RelationCodec, EnvelopeCodec, ArrowIpc, IngestCodec}.

(** The values of an event-time column, and the time of one in nanoseconds. *)
Definition column_values (c : RelationColumnV1) (b : record_batch) : option (list (option Z)) :=
  match physical_arrow_type c with
  | PInt64 => int64_values b (column_name c)
  | PDate32 => date32_values b (column_name c)
  | PTimestampNanosecond _ => timestamp_values b (column_name c)
  | _ => None
  end.
Definition event_time_ns (c : RelationColumnV1) (v : Z) : Z :=
  match physical_arrow_type c with PDate32 => v * NANOS_PER_DAY | _ => v end.

(** The days of which the time in nanoseconds is an [i64]. *)
Definition DATE32_NANOS_MAX : Z := 106751.

Lemma foldl_max vs v : forall x, x ∈ v :: vs -> x <= foldl Z.max v vs.
Proof using Type.
  revert v. induction vs as [|w vs IH]; intros v x; cbn [foldl].
  - intros ->%list_elem_of_singleton. lia.
  - intros [-> |Hx]%elem_of_cons; [specialize (IH (Z.max v w) (Z.max v w) ltac:(left)); lia|].
    apply elem_of_cons in Hx as [-> |Hx]; [specialize (IH (Z.max v w) (Z.max v w) ltac:(left)); lia|].
    apply IH. by right.
Qed.

Lemma foldl_max_in vs v : foldl Z.max v vs ∈ v :: vs.
Proof using Type.
  revert v. induction vs as [|w vs IH]; intros v; cbn [foldl]; [left|].
  specialize (IH (Z.max v w)). apply elem_of_cons in IH as [Heq|Hin]; [|by do 2 right].
  rewrite Heq. destruct (Z.max_spec v w) as [[_ ->]|[_ ->]]; [right; left|left].
Qed.

Lemma max_column_ok values batches name m : max_column values batches name = Ok m ->
  (forall b vs v, b ∈ batches -> values b name = Some vs -> Some v ∈ vs -> v <= m) /\
  exists b vs, b ∈ batches /\ values b name = Some vs /\ Some m ∈ vs.
Proof using Type.
  unfold max_column. intros (columns & Hcols%try_map_ok & Hmax)%bind_ok.
  assert (forall v, v ∈ omap id (concat columns) <-> exists b vs, b ∈ batches /\ values b name = Some vs /\ Some v ∈ vs) as Hin.
  { intros v. rewrite list_elem_of_omap. split.
    - intros (x & Hx & Hv). cbn in Hv. subst x. apply list_elem_of_In, in_concat in Hx as (vs & Hvs & Hx).
      apply list_elem_of_In in Hvs, Hx. destruct (Forall2_member_r _ _ _ _ Hcols Hvs) as (b & Hb & Hval%ok_or_ok). eauto.
    - intros (b & vs & Hb & Hval & Hv). exists (Some v). split; [|done]. apply list_elem_of_In, in_concat. exists vs.
      rewrite <-!list_elem_of_In. split; [|done].
      destruct (Forall2_member_l _ _ _ _ Hcols Hb) as (vs' & Hvs' & Hval'%ok_or_ok). congruence. }
  destruct (omap id (concat columns)) as [|v vs] eqn:Hall; [done|]. injection Hmax as <-. split.
  - intros b ws w Hb Hws Hw. apply foldl_max, Hin. eauto.
  - apply Hin, foldl_max_in.
Qed.

Lemma wrapping_i64_small z : - 2 ^ 63 <= z < 2 ^ 63 -> wrapping_i64 z = z.
Proof using Type. intros Hz. unfold wrapping_i64. rewrite Z.mod_small; lia. Qed.

(** A watermark that passes the check is not below any event time of the batches,
    as long as a date is at most 106751 days from the epoch: beyond that the number
    of nanoseconds is not an [i64]. *)
Theorem event_time_watermark_covers h w catalog batches id column :
  h_event_time_watermark h = Some w ->
  validate_event_time_watermark_against_catalog_and_batches h catalog batches = Ok tt ->
  event_time_column_id (relation_schema catalog) = Some id -> find_column (relation_schema catalog) id = Some column ->
  (physical_arrow_type column = PDate32 -> forall b vs v, b ∈ batches -> column_values column b = Some vs -> Some v ∈ vs ->
     - DATE32_NANOS_MAX <= v <= DATE32_NANOS_MAX) ->
  forall b vs v, b ∈ batches -> column_values column b = Some vs -> Some v ∈ vs ->
  event_time_ns column v <= w_max_observed_event_time_ns w.
Proof using Type.
  intros Hw Hval Hid Hcol Hdates. unfold validate_event_time_watermark_against_catalog_and_batches in Hval.
  rewrite Hw, Hid in Hval. cbn [ok_or mbind result_bind] in Hval. rewrite bind_unit_ok, Hcol in Hval. destruct Hval as [_ Hval].
  cbn [ok_or mbind result_bind] in Hval. apply bind_ok in Hval as (m & Hm & Hle%fail_if_ok).
  apply Z.ltb_ge in Hle. unfold event_time_max, event_time_ns, column_values in *.
  destruct (physical_arrow_type column); try done.
  - destruct (max_column_ok _ _ _ _ Hm) as [Hmax _]. intros b vs v Hb Hvs Hv. specialize (Hmax b vs v Hb Hvs Hv). lia.
  - apply bind_ok in Hm as (days & Hdays & Hm). apply (inj Ok) in Hm. destruct (max_column_ok _ _ _ _ Hdays) as [Hmax (b & vs & Hb & Hvs & Hin)].
    pose proof (Hdates eq_refl b vs days Hb Hvs Hin) as Hr. unfold DATE32_NANOS_MAX in Hr.
    rewrite wrapping_i64_small in Hm by (unfold NANOS_PER_DAY; lia).
    intros b' vs' v Hb' Hvs' Hv. specialize (Hmax b' vs' v Hb' Hvs' Hv). unfold NANOS_PER_DAY in *. nia.
  - destruct (max_column_ok _ _ _ _ Hm) as [Hmax _]. intros b vs v Hb Hvs Hv. specialize (Hmax b vs v Hb Hvs Hv). lia.
Qed.
End event_time.
