(* ===== verification/IngestAdmission.v ===== *)
(** Admission of ingest batches, [DurableIngestAdmission] and
    [IngestAdmissionCoordinator] of [velorix-storage/src/log.rs].

    A coordinator keeps the committed descriptors it has seen in a cache in its
    process: its operations take the cache and return it. One call of a
    coordinator works on the cache at a time here; the mutex of a stream partition,
    which makes calls of one coordinator wait for each other, and the counters of
    list requests are left out. *)
From S2P Require Import Prelude BTree Json Digits Segments ObjectKey Hash Capability ObjectStore Relation Serde JsonText IngestEnvelope CatalogRegistry IngestLog.

(** [AdmissionSerializationGuard]. *)
Record AdmissionSerializationGuard := SerializationGuard { guard_stream_id : string; guard_partition_id : Z }.

(** The trait [IngestCommitGuard]. *)
Record IngestCommitGuard := CommitGuard {
  verify : IngestCommitGuardPhase -> IngestBatchDescriptor -> prog (result string unit);
  admission_binding : IngestBatchDescriptor -> option IngestCommitGuardBindingV1
}.

Inductive ReserveIngestRangeAdmissionOutcome :=
| Reserved
| ReserveDuplicate
| ReserveConflict (object_key : ObjectKey) (reason : string).

Record IngestAdmissionReconstructionReport := Report {
  report_active_admission_records : Z;
  report_expired_orphan_admission_records : Z
}.

Abbreviation cache := (option (list IngestBatchDescriptor)).

Section admission.
Context `{Sha256, SerdeJson, RelationCodec, EnvelopeCodec, ArrowIpc, IngestCodec}.

Abbreviation logging A := (prog (result IngestLogError A)).

(** A computation that can use the cache. *)
Definition cached (A : Type) : Type := cache -> prog (result IngestLogError A * cache).

Definition cached_ret {A} (r : result IngestLogError A) : cached A := fun c => Ret (r, c).
Definition cached_bind {A B} (m : cached A) (f : A -> cached B) : cached B :=
  fun c => bind (m c) (fun rc => match rc.1 with Ok a => f a rc.2 | Err e => Ret (Err e, rc.2) end).
Definition uncached {A} (p : logging A) : cached A := fun c => bind p (fun r => Ret (r, c)).
Notation "x ←# m ; k" := (cached_bind m (fun x => k))
  (at level 20, m at level 100, k at level 200, right associativity) : prog_scope.

(** * Records *)

Definition admission_record_for_batch_with_commit_guard (batch : IngestBatch) (guard : option IngestCommitGuard) :
    result IngestLogError DurableIngestAdmissionRecordV1 :=
  envelope ← map_err LogEnvelope (decode (b_payload batch));
  let h := without_digest (header envelope) in
  let d := b_descriptor batch in
  let binding := match guard with Some g => admission_binding g d | None => None end in
  admission_record_key ← map_err LogKey (ingest_admission_record (d_stream_id d) (d_partition_id d)
    (d_start_offset_inclusive d) (d_end_offset_exclusive d));
  let record := Admission 1 INGEST_ADMISSION_RECORD_KIND_V1 (d_stream_id d) (d_partition_id d)
    (d_start_offset_inclusive d) (d_end_offset_exclusive d) (h_event_time_watermark h) (d_object_key d)
    admission_record_key (h_payload_digest (header envelope)) (h_relation_id h) (h_relation_version h)
    (h_schema_fingerprint h) ADMISSION_MODE binding in
  _ ← validate_admission record;
  Ok record.

Definition admission_record_for_batch (batch : IngestBatch) : result IngestLogError DurableIngestAdmissionRecordV1 :=
  admission_record_for_batch_with_commit_guard batch None.

Definition ZERO_DIGEST : string :=
  "sha256:0000000000000000000000000000000000000000000000000000000000000000".

Definition index_probe_record_for_descriptor (d : IngestBatchDescriptor) :
    result IngestLogError DurableIngestAdmissionRecordV1 :=
  admission_record_key ← map_err LogKey (ingest_admission_record (d_stream_id d) (d_partition_id d)
    (d_start_offset_inclusive d) (d_end_offset_exclusive d));
  let record := Admission 1 INGEST_ADMISSION_RECORD_KIND_V1 (d_stream_id d) (d_partition_id d)
    (d_start_offset_inclusive d) (d_end_offset_exclusive d) None (d_object_key d) admission_record_key
    ZERO_DIGEST "index_probe" "index_probe" ZERO_DIGEST ADMISSION_MODE None in
  _ ← validate_admission record;
  Ok record.

Definition expiry_decision_record_for_admission (admission_bytes : bytes) (a : DurableIngestAdmissionRecordV1)
    (decision_id expired_reason operator_id : string) : result IngestLogError ExpiryDecisionRecord :=
  expiry_decision_key ← map_err LogKey (ingest_admission_orphan_expiry_decision (a_stream_id a) (a_partition_id a)
    (a_start_offset_inclusive a) (a_end_offset_exclusive a) decision_id);
  let record := Expiry 1 INGEST_ADMISSION_EXPIRY_DECISION_RECORD_KIND_V1 (a_stream_id a) (a_partition_id a)
    (a_start_offset_inclusive a) (a_end_offset_exclusive a) (a_batch_key a) (a_admission_record_key a) (a_batch_key a)
    expiry_decision_key (digest_bytes admission_bytes) expired_reason operator_id in
  _ ← validate_expiry record;
  Ok record.

(** * Guards *)

Definition validate_serialization_guard (g : AdmissionSerializationGuard) (d : IngestBatchDescriptor) :
    result IngestLogError unit :=
  fail_if (negb (String.eqb (guard_stream_id g) (d_stream_id d) && (guard_partition_id g =? d_partition_id d)))
    (AdmissionSerializationGuardMismatch (guard_stream_id g) (guard_partition_id g) (d_stream_id d) (d_partition_id d)).

Definition verify_ingest_commit_guard (guard : option IngestCommitGuard) (phase : IngestCommitGuardPhase)
    (d : IngestBatchDescriptor) : logging unit :=
  match guard with
  | None => Ret (Ok tt)
  | Some g => bind (verify g phase d) (fun r => Ret (map_err (IngestCommitGuardRejected d phase) r))
  end.

(** * Committed ranges *)

Definition committed_descriptors : cached (list IngestBatchDescriptor) := fun c =>
  match c with
  | Some committed => Ret (Ok committed, c)
  | None => bind list_committed (fun r =>
      Ret (r, match r with Ok loaded => Some loaded | Err _ => None end))
  end.

Definition cache_committed (d : IngestBatchDescriptor) (c : cache) : cache :=
  match c with Some committed => Some (committed ++ [d]) | None => None end.

(** The committed range that conflicts, if any. *)
Definition overlapping_committed (d : IngestBatchDescriptor) (committed : list IngestBatchDescriptor) :
    option IngestBatchDescriptor :=
  List.find (fun c => negb (bool_decide (d_object_key c = d_object_key d)) && ranges_overlap c d) committed.

Definition committed_overlap_conflict (d : IngestBatchDescriptor) : cached (option AppendValidatedEnvelopeOutcome) :=
  committed ←# committed_descriptors;
  cached_ret (Ok ((fun c => Conflict d (d_object_key c) "range_overlap_committed") <$> overlapping_committed d committed)).

Definition indexed_or_committed_overlap_conflict (d : IngestBatchDescriptor) :
    cached (option AppendValidatedEnvelopeOutcome) :=
  conflict ←# committed_overlap_conflict d;
  match conflict with
  | None => cached_ret (Ok None)
  | Some committed_conflict =>
      state ←# uncached (load_range_admission_index_state_for_partition (d_stream_id d) (d_partition_id d) false);
      probe ←# cached_ret (index_probe_record_for_descriptor d);
      outcome ←# cached_ret (admission_conflict (active_admissions state) probe);
      cached_ret (Ok (Some (match outcome with
        | ReservationConflict object_key reason => Conflict d object_key reason
        | _ => committed_conflict
        end)))
  end.

(** * Reservation *)

Definition INGEST_ADMISSION_INDEX_MAX_ADVANCES : nat := Z.to_nat 10000.

Fixpoint reserve_rounds (rounds : nat) (record : DurableIngestAdmissionRecordV1) : logging AdmissionReservationOutcome :=
  match rounds with
  | O => Ret (Err (MalformedIngestAdmissionIndexTransition
      (range_admission_index_partition_prefix (a_stream_id record) (a_partition_id record))
      "admission index exceeded its advances"))
  | S rounds =>
      state ←! load_range_admission_index_state record;
      outcome ←! Ret (admission_conflict (active_admissions state) record);
      match outcome with
      | NewlyAdmitted =>
          let transition := range_admission_index_transition record state in
          key ←! Ret (range_admission_index_transition_key (t_stream_id transition) (t_partition_id transition)
            (t_previous_state_digest transition));
          bind (request (PutCreate key (to_vec (transition_json transition)))) (fun r =>
            match r with
            | Ok _ => Ret (Ok NewlyAdmitted)
            | Err AlreadyExists => reserve_rounds rounds record
            | Err e => Ret (Err (LogObjectStore e))
            end)
      | outcome => Ret (Ok outcome)
      end
  end.

Definition reserve_range_admission_index (record : DurableIngestAdmissionRecordV1) : logging AdmissionReservationOutcome :=
  reserve_rounds INGEST_ADMISSION_INDEX_MAX_ADVANCES record.

Definition materialize_admission_record (record : DurableIngestAdmissionRecordV1) : logging AdmissionReservationOutcome :=
  let location := as_str (a_admission_record_key record) in
  let body := to_vec (admission_json record) in
  bind (request (PutCreate location body)) (fun r =>
    match r with
    | Ok _ => Ret (Ok NewlyAdmitted)
    | Err AlreadyExists =>
        existing_bytes ←! fetch_log location;
        existing ←! Ret (ok_or LogJson (admission_from_slice existing_bytes));
        _ ←! Ret (validate_admission existing);
        expired ←! admission_has_matching_expiry existing_bytes existing;
        missing ←! (if expired then found ←! object_exists (a_batch_key existing); Ret (Ok (negb found)) else Ret (Ok false));
        if missing : bool then Ret (Ok (ReservationConflict (a_batch_key existing) "admission_expired"))
        else if bool_decide (existing = record) && bool_decide (existing_bytes = body) then Ret (Ok AlreadyAdmitted)
        else if bool_decide (existing = record) then
          Ret (Err (MalformedIngestAdmissionRecord location "materialized admission bytes do not match indexed transition"))
        else Ret (Ok (ReservationConflict (a_batch_key existing) "same_range_different_digest_reserved"))
    | Err e => Ret (Err (LogObjectStore e))
    end).

Definition expired_materialized_admission_conflict (record : DurableIngestAdmissionRecordV1) :
    logging (option AdmissionReservationOutcome) :=
  decisions ←! list_admission_expiry_decisions;
  bodies ←! list_admission_record_bodies;
  match List.find (fun b => bool_decide (a_admission_record_key b.2 = a_admission_record_key record)) bodies with
  | None => Ret (Ok None)
  | Some (existing_bytes, existing) =>
      if is_expired decisions existing_bytes existing then
        found ←! object_exists (a_batch_key existing);
        Ret (Ok (if found then None else Some (ReservationConflict (a_batch_key existing) "admission_expired")))
      else Ret (Ok None)
  end.

Definition reserve_then_materialize_admission_record (record : DurableIngestAdmissionRecordV1) :
    logging AdmissionReservationOutcome :=
  conflict ←! expired_materialized_admission_conflict record;
  match conflict with
  | Some conflict => Ret (Ok conflict)
  | None =>
      reserved ←! reserve_range_admission_index record;
      match reserved with
      | ReservationConflict _ _ => Ret (Ok reserved)
      | _ =>
          materialized ←! materialize_admission_record record;
          Ret (Ok (match reserved, materialized with
                   | _, ReservationConflict _ _ => materialized
                   | NewlyAdmitted, NewlyAdmitted => NewlyAdmitted
                   | _, _ => AlreadyAdmitted
                   end))
      end
  end.

Definition reserve_then_materialize_admission (batch : IngestBatch) (guard : option IngestCommitGuard) :
    logging AdmissionReservationOutcome :=
  record ←! Ret (admission_record_for_batch_with_commit_guard batch guard);
  reserve_then_materialize_admission_record record.

(** * Commit *)

(** The guard is asked again, the batch is appended and the cache extended. *)
Definition commit_validated_batch (batch : IngestBatch) (guard : option IngestCommitGuard) :
    cached AppendValidatedEnvelopeOutcome := fun c =>
  bind (verify_ingest_commit_guard guard BeforeCommit (b_descriptor batch)) (fun r =>
    match r with
    | Err e => Ret (Err e, c)
    | Ok _ => bind (append_validated_batch batch) (fun r =>
        Ret (r, match r with Ok (Appended _) => cache_committed (b_descriptor batch) c | _ => c end))
    end).

Definition reserve_then_append_validated_batch (batch : IngestBatch) (guard : option IngestCommitGuard) :
    cached AppendValidatedEnvelopeOutcome :=
  existing ←# uncached (existing_batch_conflict batch);
  match existing with
  | Some existing => cached_ret (Ok existing)
  | None =>
      outcome ←# uncached (reserve_then_materialize_admission batch guard);
      match outcome with
      | ReservationConflict object_key reason => cached_ret (Ok (Conflict (b_descriptor batch) object_key reason))
      | _ => commit_validated_batch batch guard
      end
  end.

Definition admit_validated_batch_indexed_before_committed_fallback (batch : IngestBatch)
    (guard : option IngestCommitGuard) : cached AppendValidatedEnvelopeOutcome :=
  existing ←# uncached (existing_batch_conflict batch);
  match existing with
  | Some existing => cached_ret (Ok existing)
  | None =>
      conflict ←# indexed_or_committed_overlap_conflict (b_descriptor batch);
      match conflict with
      | Some conflict => cached_ret (Ok conflict)
      | None =>
          outcome ←# uncached (reserve_then_materialize_admission batch guard);
          match outcome with
          | ReservationConflict object_key reason => cached_ret (Ok (Conflict (b_descriptor batch) object_key reason))
          | _ =>
              conflict ←# indexed_or_committed_overlap_conflict (b_descriptor batch);
              match conflict with
              | Some conflict => cached_ret (Ok conflict)
              | None => commit_validated_batch batch guard
              end
          end
      end
  end.

(** [reserve_before] is [reserve_before_committed_overlap]. *)
Definition admit_validated_batch_with_commit_guard (reserve_before : bool) (batch : IngestBatch)
    (g : AdmissionSerializationGuard) (guard : option IngestCommitGuard) : cached AppendValidatedEnvelopeOutcome :=
  _ ←# cached_ret (validate_serialization_guard g (b_descriptor batch));
  _ ←# uncached (verify_ingest_commit_guard guard BeforeAdmission (b_descriptor batch));
  if reserve_before then admit_validated_batch_indexed_before_committed_fallback batch guard
  else
    conflict ←# committed_overlap_conflict (b_descriptor batch);
    match conflict with
    | Some conflict => cached_ret (Ok conflict)
    | None => reserve_then_append_validated_batch batch guard
    end.

Definition materialize_external_admission_then_append_validated_batch (batch : IngestBatch)
    (guard : option IngestCommitGuard) : cached AppendValidatedEnvelopeOutcome :=
  existing ←# uncached (existing_batch_conflict batch);
  match existing with
  | Some existing => cached_ret (Ok existing)
  | None =>
      record ←# cached_ret (admission_record_for_batch batch);
      outcome ←# uncached (materialize_admission_record record);
      match outcome with
      | ReservationConflict object_key reason => cached_ret (Ok (Conflict (b_descriptor batch) object_key reason))
      | _ => commit_validated_batch batch guard
      end
  end.

(** * Expiry *)

(** [DurableIngestAdmission::expire_orphan_admission] and the coordinator's. *)
Definition expire_orphan_admission (stream_id : string) (partition_id start_offset_inclusive end_offset_exclusive : Z)
    (decision_id expired_reason operator_id : string) : logging ExpiryDecisionRecord :=
  admission_record_key ←! Ret (map_err LogKey
    (ingest_admission_record stream_id partition_id start_offset_inclusive end_offset_exclusive));
  batch_key ←! Ret (map_err LogKey (ingest_batch stream_id partition_id start_offset_inclusive end_offset_exclusive));
  bodies ←! list_admission_record_bodies;
  match List.find (fun b => bool_decide (a_admission_record_key b.2 = admission_record_key)) bodies with
  | None => Ret (Err (MissingIngestAdmissionRecord batch_key))
  | Some (admission_bytes, a) =>
      found ←! object_exists (a_batch_key a);
      _ ←! Ret (fail_if found (CannotExpireCommittedIngestAdmission (a_admission_record_key a) (a_batch_key a)));
      decision ←! Ret (expiry_decision_record_for_admission admission_bytes a decision_id expired_reason operator_id);
      let location := as_str (x_expiry_decision_key decision) in
      bind (request (PutCreate location (to_vec (expiry_json decision)))) (fun r =>
        match r with
        | Ok _ => Ret (Ok decision)
        | Err AlreadyExists =>
            body ←! fetch_log location;
            existing ←! Ret (ok_or LogJson (expiry_from_slice body));
            _ ←! Ret (validate_expiry existing);
            Ret (if bool_decide (existing = decision) then Ok existing
                 else Err (IngestAdmissionExpiryDecisionConflict (x_expiry_decision_key decision)))
        | Err e => Ret (Err (LogObjectStore e))
        end)
  end.

(** * The coordinator *)

(** Whether [IngestAdmissionCoordinator::new_checked] accepts the store. *)
Definition coordinator_new_checked (c : Capability.AuthoritativeObjectStoreCapabilitiesV1) :
    result Capability.AuthoritativeObjectStoreCapabilityError unit :=
  _ ← Capability.validate_namespace c Capability.IngestAdmission;
  _ ← Capability.validate_namespace c Capability.IngestAdmissionIndex;
  _ ← Capability.validate_namespace c Capability.Ingest;
  profile ← Capability.validate_namespace c Capability.RelationCatalog;
  map_err (Capability.NamespaceProfile Capability.RelationCatalog) (Capability.validate_for_velorix_durability profile).

Definition append_catalog_validated_envelope_with_optional_commit_guard (reserve_before : bool) (payload : bytes)
    (guard : option IngestCommitGuard) : cached AppendValidatedEnvelopeOutcome :=
  batch ←# uncached (catalog_validated_batch payload);
  let d := b_descriptor batch in
  admit_validated_batch_with_commit_guard reserve_before batch (SerializationGuard (d_stream_id d) (d_partition_id d)) guard.

Definition append_catalog_validated_envelope (reserve_before : bool) (payload : bytes) :
    cached AppendValidatedEnvelopeOutcome :=
  append_catalog_validated_envelope_with_optional_commit_guard reserve_before payload None.

Definition append_catalog_validated_envelope_with_commit_guard (reserve_before : bool) (payload : bytes)
    (guard : IngestCommitGuard) : cached AppendValidatedEnvelopeOutcome :=
  append_catalog_validated_envelope_with_optional_commit_guard reserve_before payload (Some guard).

Definition append_catalog_validated_envelope_after_external_admission (payload : bytes) :
    cached AppendValidatedEnvelopeOutcome :=
  batch ←# uncached (catalog_validated_batch payload);
  materialize_external_admission_then_append_validated_batch batch None.

Definition append_validated_envelope_after_external_admission (payload : bytes) :
    cached AppendValidatedEnvelopeOutcome :=
  batch ←# cached_ret (from_validated_envelope payload);
  materialize_external_admission_then_append_validated_batch batch None.

Definition reserve_external_ingest_range_admission (record : DurableIngestAdmissionRecordV1) :
    cached ReserveIngestRangeAdmissionOutcome :=
  d ←# cached_ret (admission_descriptor record);
  conflict ←# committed_overlap_conflict d;
  match conflict with
  | Some (Conflict _ object_key reason) => cached_ret (Ok (ReserveConflict object_key reason))
  | _ =>
      outcome ←# uncached (reserve_then_materialize_admission_record record);
      cached_ret (Ok (match outcome with
        | NewlyAdmitted => Reserved
        | AlreadyAdmitted => ReserveDuplicate
        | ReservationConflict object_key reason => ReserveConflict object_key reason
        end))
  end.

Definition reconstruct_active_admissions : logging IngestAdmissionReconstructionReport :=
  reconstruction ←! reconstruct_admission_namespace;
  indexed ←! reconstruct_range_admission_index_active_records;
  let by_key := insert_records (insert_records ∅ (active_records reconstruction)) indexed in
  Ret (Ok (Report (Z.of_nat (size by_key)) (expired_orphan_admission_records reconstruction))).

End admission.

Notation "x ←# m ; k" := (cached_bind m (fun x => k))
  (at level 20, m at level 100, k at level 200, right associativity) : prog_scope.
