(* ===== verification/IngestAdmissionProofs.v ===== *)
(** Admission keeps the ranges of a partition apart.

    [IngestAdmission.v] serializes the calls for one stream partition with a
    mutex in the process. Here one call at a time works on a partition, may stop
    after any of its requests, and everyone else may add any object but a batch or an
    admission record of the partition. Then the committed ranges of the
    partition never overlap, and every committed batch has its admission record. *)
From stdpp Require Import sorting.
From S2P Require Import Prelude BTree Json Digits Segments ObjectKey Hash Relation ObjectKeyProofs ObjectStore Serde JsonText IngestEnvelope AppendOnly CatalogRegistry IngestLog IngestLogProofs IngestAdmission.

(** * Records are read back *)

Definition typed_binding (g : IngestCommitGuardBindingV1) : Prop :=
  is_u32 (g_schema_version g) = true /\ is_u64 (g_owner_epoch g) = true.

(** Values of the Rust types. *)
Definition typed_admission (a : DurableIngestAdmissionRecordV1) : Prop :=
  is_u32 (a_schema_version a) = true /\ is_u32 (a_partition_id a) = true /\
  is_u64 (a_start_offset_inclusive a) = true /\ is_u64 (a_end_offset_exclusive a) = true /\
  match a_event_time_watermark a with Some w => typed_watermark w | None => True end /\
  match a_commit_guard_binding a with Some g => typed_binding g | None => True end.

(** [from_slice] reads back what [to_vec] writes of a record whose keys
    deserialize, and gives values of the Rust types. *)
Class IngestCodecLaws `{SerdeJson, IngestCodec} : Prop := {
  admission_round_trip a : typed_admission a ->
    deserialize (as_str (a_batch_key a)) = Some (a_batch_key a) ->
    deserialize (as_str (a_admission_record_key a)) = Some (a_admission_record_key a) ->
    admission_from_slice (to_vec (admission_json a)) = Some a;
  admission_from_slice_typed body a : admission_from_slice body = Some a -> typed_admission a
}.

Section partition.
Context `{Sha256, SerdeJson, RelationCodec, EnvelopeCodec, ArrowIpc, IngestCodec}.
Context `{!IngestCodecLaws, !EnvelopeCodecLaws}.

Lemma stored_round_trip a : typed_admission a -> validate_admission a = Ok tt ->
  admission_from_slice (to_vec (admission_json a)) = Some a.
Proof using Type*.
  intros Ht (Ha & Hr & Hb)%validate_admission_keys. apply admission_round_trip; [done|..].
  - apply build_text in Hb as [Hadm ->]. unfold deserialize. cbn [as_str]. rewrite parse_readable; [done| |done|done].
    destruct Ht as (_ & ? & ? & ? & _). done.
  - apply build_text in Hr as [_ ->]. unfold deserialize. cbn [as_str]. rewrite parse_readable; [done| |done|done].
    destruct Ht as (_ & ? & ? & ? & _). done.
Qed.

(** * The partition *)

Context (s : string) (p : Z).

Definition batch_text (lo hi : Z) : string := key_text (ObjectKeyProofs.IngestBatch s p lo hi).
Definition record_text (lo hi : Z) : string := key_text (IngestAdmissionRecord s p lo hi).

(** Others add objects, but no batch and no admission record of the partition. *)
Definition elsewhere (o o' : objects) : Prop :=
  o ⊆ o' /\ forall lo hi, o' !! batch_text lo hi = o !! batch_text lo hi /\ o' !! record_text lo hi = o !! record_text lo hi.

#[export] Instance elsewhere_preorder : PreOrder elsewhere.
Proof using Type.
  split; [by split|]. intros o1 o2 o3 [H12 E12] [H23 E23]. split; [by trans o2|]. intros lo hi.
  destruct (E12 lo hi), (E23 lo hi). split; congruence.
Qed.

Lemma elsewhere_adds o o' : elsewhere o o' -> o ⊆ o'.
Proof using Type. by intros []. Qed.

Definition mine (a : DurableIngestAdmissionRecordV1) : Prop := a_stream_id a = s /\ a_partition_id a = p.

(** Ranges of one partition that share an offset. *)
Definition overlap (a b : DurableIngestAdmissionRecordV1) : Prop :=
  a_stream_id a = a_stream_id b /\ a_partition_id a = a_partition_id b /\
  a_start_offset_inclusive a < a_end_offset_exclusive b /\ a_start_offset_inclusive b < a_end_offset_exclusive a.

(** The batch of the record is committed, or no decision expires the record. *)
Definition live (o : objects) (a : DurableIngestAdmissionRecordV1) : Prop :=
  exists body, stored_admission o body a /\
    (is_Some (o !! batch_of a) \/ forall x, stored_decision o x -> expires_admission x body a = false).

(** Records at different locations do not overlap. *)
Definition apart (a b : DurableIngestAdmissionRecordV1) : Prop :=
  record_location a <> record_location b -> ~ overlap a b.

(** The range is free of the live records of others. *)
Definition clear_for (o : objects) (a : DurableIngestAdmissionRecordV1) : Prop :=
  forall b, mine b -> live o b -> apart a b.

Definition descriptor_of (a : DurableIngestAdmissionRecordV1) : IngestBatchDescriptor :=
  Descriptor (a_stream_id a) (a_partition_id a) (a_start_offset_inclusive a) (a_end_offset_exclusive a) (a_batch_key a).

(** Every committed batch has its record, and live records are apart. *)
Record partition_inv (o : objects) : Prop := {
  committed_admitted d : described d -> d_stream_id d = s -> d_partition_id d = p -> is_Some (o !! located d) ->
    exists body a, stored_admission o body a /\ descriptor_of a = d;
  live_apart a b : mine a -> mine b -> live o a -> live o b -> apart a b
}.

Lemma record_location_mine a : mine a -> validate_admission a = Ok tt ->
  record_location a = record_text (a_start_offset_inclusive a) (a_end_offset_exclusive a).
Proof using Type. intros [Hs Hp] (-> & _)%record_location_text. unfold record_text, admission_artifact. by rewrite Hs, Hp. Qed.

Lemma batch_of_mine a : mine a -> validate_admission a = Ok tt ->
  batch_of a = batch_text (a_start_offset_inclusive a) (a_end_offset_exclusive a).
Proof using Type.
  intros [Hs Hp] (_ & _ & Hb)%validate_admission_keys. apply build_text in Hb as [_ Hb]. unfold batch_of, batch_text.
  rewrite Hb. unfold admission_batch_artifact. by rewrite Hs, Hp.
Qed.

Lemma located_text d : described d -> d_stream_id d = s -> d_partition_id d = p ->
  located d = batch_text (d_start_offset_inclusive d) (d_end_offset_exclusive d).
Proof using Type. intros [_ [_ Hk]%build_text] Hs Hp. unfold located, batch_text. rewrite Hk. unfold batch_artifact. by rewrite Hs, Hp. Qed.

Lemma stored_elsewhere o o' body a :
  elsewhere o o' -> mine a -> stored_admission o' body a -> stored_admission o body a.
Proof using Type.
  intros [_ Hsame] Ha (Hl & Hread & Hval). split_and!; [|done..]. rewrite record_location_mine in * by done.
  by rewrite <-(proj2 (Hsame _ _)).
Qed.

Lemma batch_elsewhere o o' a : elsewhere o o' -> mine a -> validate_admission a = Ok tt ->
  is_Some (o' !! batch_of a) <-> is_Some (o !! batch_of a).
Proof using Type. intros [_ Hsame] Ha Hval. rewrite batch_of_mine by done. by rewrite (proj1 (Hsame _ _)). Qed.

Lemma live_elsewhere o o' a : elsewhere o o' -> mine a -> live o' a -> live o a.
Proof using Type.
  intros Ho Ha (body & Hst & Hlive). exists body. split; [by eapply stored_elsewhere|].
  destruct Hlive as [Hb|Hx]; [left|right].
  - apply (batch_elsewhere _ _ _ Ho Ha); [apply Hst|done].
  - intros x Hdec. eapply Hx, stored_decision_weaken; [by apply elsewhere_adds|done].
Qed.

Lemma clear_for_elsewhere o o' a : elsewhere o o' -> clear_for o a -> clear_for o' a.
Proof using Type. intros Ho Hc b Hb Hlive. apply Hc; [done|]. by eapply live_elsewhere. Qed.

Lemma partition_inv_elsewhere o o' : elsewhere o o' -> partition_inv o -> partition_inv o'.
Proof using Type.
  intros Ho [Hc Hl]. split.
  - intros d Hd Hs Hp Hst. rewrite located_text in Hst by done. rewrite (proj1 (proj2 Ho _ _)) in Hst.
    destruct (Hc d) as (body & a & ? & ?); [done..|by rewrite located_text|]. exists body, a. split; [|done].
    eapply stored_admission_weaken; [by apply elsewhere_adds|done].
  - intros a b Ha Hb Hla Hlb. by apply Hl; eauto using live_elsewhere.
Qed.

(** * Loading the index *)

Abbreviation reading := (reading elsewhere).

Lemma by_object_key_spec ds k : is_Some (by_object_key ds !! k) <-> exists d, d ∈ ds /\ d_object_key d = k.
Proof using Type.
  unfold by_object_key. induction ds as [|d ds IH] using rev_ind.
  - cbn. rewrite lookup_empty. split; [by intros [? ?]|]. intros (d & Hd & _). by apply not_elem_of_nil in Hd.
  - rewrite foldl_app. cbn [foldl]. setoid_rewrite elem_of_app. setoid_rewrite list_elem_of_singleton.
    destruct (decide (d_object_key d = k)) as [<-|Hne].
    + rewrite lookup_insert_eq. split; [eauto|by eexists].
    + rewrite lookup_insert_ne by done. rewrite IH. split; [by intros (? & ? & ?); eauto|].
      intros (d' & [?| ->] & ?); [eauto|done].
Qed.

Lemma existsb_false {A} (f : A -> bool) l : existsb f l = false <-> forall x, x ∈ l -> f x = false.
Proof using Type.
  induction l as [|y l IH]; cbn.
  - split; [|done]. intros _ x Hx. by apply not_elem_of_nil in Hx.
  - rewrite orb_false_iff, IH. setoid_rewrite elem_of_cons. naive_solver.
Qed.

Lemma batch_text_under lo hi : under INGEST_PREFIX (batch_text lo hi) = true.
Proof using Type. unfold batch_text, key_text. cbn [segments]. rewrite !joined_cons. apply starts_with_true. eexists. reflexivity. Qed.

(** The records that [reconstruct_admission_namespace] keeps. *)
Definition kept (committed : gmap ObjectKey IngestBatchDescriptor) (xs : list ExpiryDecisionRecord)
    (b : bytes * DurableIngestAdmissionRecordV1) : bool :=
  bool_decide (is_Some (committed !! a_batch_key b.2)) || negb (is_expired xs b.1 b.2).

Lemma reconstruct_step_reading committed xs r b o :
  reading (reconstruct_step committed xs r b) (fun r' _ =>
    active_records r' = active_records r ++ if kept committed xs b then [b.2] else []) o.
Proof using Type.
  unfold reconstruct_step, kept. destruct (committed !! a_batch_key b.2) as [d|] eqn:Hd.
  - eapply (reading_then elsewhere).
    + apply (reading_any elsewhere). unfold validate_committed_admission, fetch_log. only_reads.
    + intros _ o' _ _. apply (reading_ret elsewhere). by intros ? [= <-].
  - rewrite (bool_decide_false (is_Some None)) by (by intros [? ?]). cbn [orb].
    destruct (negb (is_expired xs b.1 b.2)); apply (reading_ret elsewhere); intros ? [= <-]; [done|]. cbn. by rewrite app_nil_r.
Qed.

Lemma reconstruct_reading o :
  reading reconstruct_admission_namespace (fun r o' =>
    (forall a, a ∈ active_records r -> validate_admission a = Ok tt /\ (mine a -> live o a)) /\
    (forall a, mine a -> live o' a -> a ∈ active_records r)) o.
Proof using Type.
  unfold reconstruct_admission_namespace.
  eapply (reading_then elsewhere); [apply (list_committed_reading elsewhere elsewhere_adds)|].
  intros ds o1 Ho1 (oc & Hoc & Hoc1 & (_ & Hds & _ & Hcom)).
  eapply (reading_then elsewhere); [apply (list_admission_expiry_decisions_reading elsewhere elsewhere_adds)|].
  intros xs o2 Ho2 (ox & Hox & Hox2 & Hxs & Hxall).
  eapply (reading_then elsewhere); [apply (list_admission_record_bodies_reading elsewhere elsewhere_adds)|].
  intros bs o3 Ho3 (ob & Hob & Hob3 & Hbs & Hball).
  eapply (reading_mono elsewhere); [apply (reading_fold_each elsewhere _ (fun ys r _ =>
    active_records r = (filter (fun b => kept (by_object_key ds) xs b = true) ys).*2))|].
  - done.
  - done.
  - intros ys b r o4 _ _ Hr. eapply (reading_mono elsewhere); [apply reconstruct_step_reading|].
    intros r' o5 _ ->. rewrite Hr, filter_app, fmap_app. f_equal.
    destruct (kept _ xs b) eqn:Hk; [rewrite filter_cons_True by done|rewrite filter_cons_False by congruence]; done.
  - intros r o4 Ho4 Hr.
    assert (forall a, a ∈ active_records r <-> exists body, (body, a) ∈ bs /\ kept (by_object_key ds) xs (body, a) = true) as Hact.
    { intros a. rewrite Hr, list_elem_of_fmap. setoid_rewrite list_elem_of_filter. split.
      - intros ([body a'] & -> & ? & ?). eauto.
      - intros (body & ? & ?). by exists (body, a). }
    split; [intros a (body & Hin & Hk)%Hact|intros a Ha (body & Hst & Hlive); apply Hact; exists body].
    + pose proof (Hbs _ _ Hin) as Hst. split; [apply Hst|]. intros Ha. exists body.
      assert (elsewhere o o3) as Ho by (etrans; [exact Ho1|by etrans; [exact Ho2|]]).
      split; [by apply (stored_elsewhere _ _ _ _ Ho)|].
      apply orb_true_iff in Hk as [(d & Hd & Hkey)%bool_decide_eq_true%by_object_key_spec|Hx].
      * left. apply (batch_elsewhere _ _ _ Hoc Ha); [apply Hst|]. apply Hcom, list_elem_of_fmap.
        exists d. split; [|done]. unfold batch_of, located. cbn in Hkey. by rewrite Hkey.
      * right. intros x Hdec. apply negb_true_iff in Hx. apply (proj1 (existsb_false _ _) Hx), Hxall.
        eapply stored_decision_weaken; [|exact Hdec]. apply elsewhere_adds. by trans o1.
    + assert (elsewhere ob o4) as Hob4 by by trans o3. assert (elsewhere oc o4) as Hoc4 by (etrans; [exact Hoc1|etrans; [exact Ho2|by etrans; [exact Ho3|]]]).
      split; [by eapply Hball, stored_elsewhere|]. apply orb_true_iff. destruct Hlive as [Hb|Hx]; [left|right].
      * apply bool_decide_eq_true, by_object_key_spec. apply (batch_elsewhere _ _ _ Hoc4 Ha) in Hb; [|apply Hst].
        assert (batch_of a ∈ located <$> ds) as (d & Hd & Hin)%list_elem_of_fmap.
        { apply Hcom. split; [done|]. rewrite batch_of_mine by (done || apply Hst). apply batch_text_under. }
        exists d. split; [done|]. cbn. unfold batch_of, located in Hd. destruct (a_batch_key a), (d_object_key d); cbn in Hd; congruence.
      * apply negb_true_iff, existsb_false. intros x Hin. cbn. apply Hx. eapply stored_decision_weaken; [|by apply Hxs].
        apply elsewhere_adds. by trans o3.
Qed.

Lemma apart_sym a b : apart a b -> apart b a.
Proof using Type. unfold apart, overlap. intros Hab Hne Ho. apply Hab; [done|]. naive_solver. Qed.

Lemma conflict_with_outcome record active out :
  conflict_with record (descriptor_of record) active = Ok out ->
  (out = NewlyAdmitted -> forall c, c ∈ active -> apart record c) /\ (out = AlreadyAdmitted -> record ∈ active).
Proof using Type.
  induction active as [|c active IH]; cbn [conflict_with].
  { intros [= <-]. split; [|done]. intros _ c Hc. by apply not_elem_of_nil in Hc. }
  intros (d & (_ & [= <-])%bind_unit_ok & Hout)%bind_ok. cbn [d_stream_id d_partition_id d_start_offset_inclusive d_end_offset_exclusive descriptor_of] in Hout.
  case_bool_decide; [case_bool_decide; simplify_eq; split; [done|by left| done|done]|].
  destruct (String.eqb _ _ && _ && _ && _) eqn:Hov; [by simplify_eq|].
  destruct (IH Hout) as [Hadm Halr]. split; [|by right; auto].
  intros -> c' [-> |?]%elem_of_cons; [|by apply Hadm]. intros _ (Hs & Hp & Hlo & Hhi).
  rewrite Hs, Hp, String.eqb_refl, Z.eqb_refl, (proj2 (Z.ltb_lt _ _) Hlo), (proj2 (Z.ltb_lt _ _) Hhi) in Hov. done.
Qed.

Lemma admission_conflict_outcome record active out : admission_conflict active record = Ok out ->
  validate_admission record = Ok tt /\
  (out = NewlyAdmitted -> forall c, c ∈ active -> apart record c) /\ (out = AlreadyAdmitted -> record ∈ active).
Proof using Type.
  intros (d & (Hval & [= <-])%bind_unit_ok & Hout)%bind_ok. split; [done|]. by apply conflict_with_outcome.
Qed.

(** The active records are apart, and the live ones of the partition are among
    them. *)
Record state_ok (o : objects) (st : RangeAdmissionIndexState) : Prop := {
  active_apart a b : a ∈ active_admissions st -> b ∈ active_admissions st -> apart a b;
  live_active a : mine a -> live o a -> a ∈ active_admissions st
}.

Lemma apply_to_state_ok o t st st' : state_ok o st -> apply_to_state t st = Ok st' -> state_ok o st'.
Proof using Type.
  intros [Hap Hl]. unfold apply_to_state. intros (key & _ & (_ & _ & (_ & _ & Hst)%bind_ok)%bind_ok)%bind_ok.
  destruct (_ || has_key (active_admissions st) _) eqn:Hskip.
  - apply bind_unit_ok in Hst as (_ & (_ & [= <-])%bind_unit_ok). by split.
  - apply bind_unit_ok in Hst as ((out & (_ & Hadm & _)%admission_conflict_outcome & Hout)%bind_ok & (_ & [= <-])%bind_unit_ok).
    apply fail_if_ok, negb_false_iff in Hout. destruct out; try done. specialize (Hadm eq_refl).
    split; cbn [active_admissions]; unfold sort_admission_records; setoid_rewrite sort_on_perm;
      setoid_rewrite elem_of_app; setoid_rewrite list_elem_of_singleton.
    + intros a b [Ha| ->] [Hb| ->]; [by apply Hap|by apply apart_sym, Hadm|by apply Hadm|]. by intros [].
    + intros a ??. left. by apply Hl.
Qed.

Lemma follow_transitions_ok o fuel prefix buckets st st' :
  state_ok o st -> follow_transitions fuel prefix buckets st = Ok st' -> state_ok o st'.
Proof using Type.
  revert buckets st. induction fuel as [|fuel IH]; intros buckets st Hst; cbn [follow_transitions]; [by intros [= <-]|].
  destruct (buckets !! state_digest st) as [[|t [|]]|]; try done; [|by intros [= <-]].
  intros (st1 & Hst1 & Hf)%bind_ok. eapply IH; [|exact Hf]. by eapply apply_to_state_ok.
Qed.

Lemma read_only_listing prefix : read_only (sorted_listing prefix).
Proof using Type. unfold sorted_listing. only_reads. Qed.
Lemma read_only_fetch_log l : read_only (fetch_log l).
Proof using Type. unfold fetch_log. only_reads. Qed.
Lemma read_only_object_exists k : read_only (object_exists k).
Proof using Type. unfold object_exists. only_reads. Qed.
#[local] Hint Resolve read_only_listing read_only_fetch_log read_only_object_exists : programs.
Lemma read_only_transitions st pt m : read_only (list_range_admission_index_transitions st pt m).
Proof using Type.
  unfold list_range_admission_index_transitions, read_transition, validate_index_transition_materialized_admission. only_reads.
Qed.
Lemma read_only_decisions : read_only list_admission_expiry_decisions.
Proof using Type. unfold list_admission_expiry_decisions, read_expiry_decision. only_reads. Qed.
Lemma read_only_bodies : read_only list_admission_record_bodies.
Proof using Type. unfold list_admission_record_bodies, read_admission_body. only_reads. Qed.
#[local] Hint Resolve read_only_transitions read_only_decisions read_only_bodies : programs.
Lemma read_only_expired_keys st pt bs : read_only (list_expired_orphan_admission_keys st pt bs).
Proof using Type. unfold list_expired_orphan_admission_keys, add_expired_orphan. only_reads. Qed.
#[local] Hint Resolve read_only_expired_keys : programs.

Lemma in_partition_mine a : in_partition s p a = true <-> mine a.
Proof using Type. unfold in_partition, mine. by rewrite andb_true_iff, String.eqb_eq, Z.eqb_eq. Qed.

Lemma load_reading flag o : partition_inv o ->
  reading (load_range_admission_index_state_for_partition s p flag) (fun st o' => state_ok o' st) o.
Proof using Type.
  intros Hinv. unfold load_range_admission_index_state_for_partition.
  eapply (reading_then elsewhere); [apply (reading_any elsewhere); auto with programs|]. intros ts o1 Ho1 _.
  eapply (reading_then elsewhere); [apply (reading_any elsewhere); auto with programs|]. intros bs o2 Ho2 _.
  eapply (reading_then elsewhere); [apply (reading_any elsewhere); auto with programs|]. intros expired o3 Ho3 _.
  unfold list_active_admission_records.
  eapply (reading_then elsewhere).
  { eapply (reading_then elsewhere); [apply reconstruct_reading|]. intros r o4 Ho4 Hr.
    apply (reading_ret elsewhere _ (fun l o4 => (forall a, a ∈ l -> validate_admission a = Ok tt /\ (mine a -> live o3 a)) /\
      forall a, mine a -> live o4 a -> a ∈ l)). by intros ? [= <-]. }
  intros active o4 Ho4 [Hsound Hall]. apply (reading_ret elsewhere). intros st Hst.
  eapply follow_transitions_ok; [|exact Hst].
  assert (partition_inv o3) as [_ Hapart].
  { eapply partition_inv_elsewhere; [|exact Hinv]. etrans; [exact Ho1|by etrans; [exact Ho2|]]. }
  split; cbn [active_admissions]; unfold sort_admission_records; setoid_rewrite sort_on_perm;
    setoid_rewrite list_elem_of_In; setoid_rewrite filter_In; setoid_rewrite in_partition_mine; setoid_rewrite <-list_elem_of_In.
  - intros a b [Ha Hma] [Hb Hmb]. apply Hapart; [done..| |]; by apply Hsound.
  - intros a Ha Hlive. by split; [apply Hall|].
Qed.

(** * Reserving *)

(** What a request of a call for the partition does. *)
Definition keeps_inv (o : objects) (c : call) (o' : objects) : Prop := partition_inv o -> partition_inv o'.
Abbreviation wp := (wp elsewhere keeps_inv).

Lemma keeps_inv_same o c : keeps_inv o c o.
Proof using Type. by intros ?. Qed.
#[local] Hint Resolve keeps_inv_same : core.

Lemma wp_mono_reading {E A B} (q : prog (result E A)) (f : result E A -> prog B) P Q o :
  reading q P o -> (forall r o', elsewhere o o' -> (forall a, r = Ok a -> P a o') -> wp (f r) Q o') -> wp (bind q f) Q o.
Proof using Type. apply (wp_reading elsewhere keeps_inv). auto. Qed.

(** The same where the rest of the program only runs on success. *)
Lemma wp_then {E A B} (q : prog (result E A)) (f : A -> prog (result E B)) P (Q : result E B -> objects -> Prop) o :
  reading q P o -> (forall e o', elsewhere o o' -> Q (Err e) o') ->
  (forall a o', elsewhere o o' -> P a o' -> wp (f a) Q o') -> wp (x ←! q; f x) Q o.
Proof using Type.
  intros Hq Herr Hf. unfold and_then. eapply wp_mono_reading; [exact Hq|]. intros [a|e] o' Ho HP; [by apply Hf; auto|].
  by apply Herr.
Qed.

Lemma put_answers o l b r o' : answers o (PutCreate l b) r o' ->
  (r <> Ok tt /\ o' = o) \/ (o !! l = None /\ o' = <[l := b]> o /\ r <> Err AlreadyExists).
Proof using Type.
  destruct r as [[]|[]]; cbn; intros Hans; try (destruct Hans as [-> |[? ->]]); try (destruct Hans as [? ->]); auto.
Qed.

Lemma insert_elsewhere o l b : o !! l = None -> (forall lo hi, l <> batch_text lo hi /\ l <> record_text lo hi) ->
  elsewhere o (<[l := b]> o).
Proof using Type.
  intros Hl Hne. split; [by apply insert_subseteq|]. intros lo hi. destruct (Hne lo hi).
  by rewrite !lookup_insert_ne.
Qed.

Lemma batch_text_shape lo hi : exists r, batch_text lo hi = "v1/ingest" +:+ "/" +:+ r.
Proof using Type. unfold batch_text, key_text. cbn [segments]. rewrite !joined_cons. eexists. reflexivity. Qed.
Lemma record_text_shape lo hi : exists r, record_text lo hi = "v1/ingest" +:+ "-admission/" +:+ r.
Proof using Type. unfold record_text, key_text. cbn [segments]. rewrite !joined_cons. eexists. reflexivity. Qed.

Lemma batch_record_text lo hi lo' hi' : batch_text lo hi <> record_text lo' hi'.
Proof using Type.
  destruct (batch_text_shape lo hi) as [r ->], (record_text_shape lo' hi') as [r' ->].
  intros Heq%append_cancel_l. discriminate Heq.
Qed.

Lemma transition_key_elsewhere st pt digest key :
  range_admission_index_transition_key st pt digest = Ok key -> forall lo hi, key <> batch_text lo hi /\ key <> record_text lo hi.
Proof using Type.
  unfold range_admission_index_transition_key. intros (hex & _ & (_ & _ & [= <-])%bind_ok)%bind_ok lo hi.
  destruct (batch_text_shape lo hi) as [r ->], (record_text_shape lo hi) as [r' ->].
  unfold range_admission_index_partition_prefix. change "v1/ingest-admission-index/" with ("v1/ingest" +:+ "-admission-index/").
  rewrite !append_assoc. split; intros Heq%append_cancel_l; discriminate Heq.
Qed.

(** A reservation that is not a conflict clears the range. *)
Definition reserved_for (record : DurableIngestAdmissionRecordV1) (r : result IngestLogError AdmissionReservationOutcome)
    (o : objects) : Prop :=
  partition_inv o /\ forall out, r = Ok out -> (out = NewlyAdmitted \/ out = AlreadyAdmitted) -> clear_for o record.

Lemma reserve_rounds_wp rounds record o : mine record -> partition_inv o ->
  wp (reserve_rounds rounds record) (reserved_for record) o.
Proof using Type.
  intros Hmine. revert o. induction rounds as [|rounds IH]; intros o Hinv; cbn [reserve_rounds]; [by split|].
  assert (forall e o', elsewhere o o' -> reserved_for record (Err e) o') as Herr.
  { intros e o' Ho. split; [by eapply partition_inv_elsewhere|done]. }
  pose proof Hmine as [Hs Hp]. eapply wp_then; [|exact Herr|].
  - unfold load_range_admission_index_state. apply (reading_lift elsewhere). intros [] _. rewrite Hs, Hp. by apply load_reading.
  - intros st o1 Ho1 [Hap Hlive]. pose proof (partition_inv_elsewhere _ _ Ho1 Hinv) as Hinv1.
    destruct (admission_conflict _ record) as [out|e] eqn:Hout; cbn [and_then bind]; [|by apply Herr].
    apply admission_conflict_outcome in Hout as (Hval & Hadm & Halr).
    assert (out = NewlyAdmitted \/ out = AlreadyAdmitted -> clear_for o1 record) as Hclear.
    { intros [-> | ->] b Hb Hlb; [by apply Hadm, Hlive|]. by apply Hap; auto. }
    destruct out as [| |k reason]; [|split; [done|by intros out [= <-]]..].
    destruct (range_admission_index_transition_key _ _ _) as [key|e] eqn:Hkey; cbn [and_then bind]; [|by apply Herr].
    intros o2 r o3 Ho2 Hans. apply put_answers in Hans.
    assert (elsewhere o2 o3) as Ho3.
    { destruct Hans as [[_ ->]|(Hnone & -> & _)]; [done|]. apply insert_elsewhere; [done|]. by eapply transition_key_elsewhere. }
    assert (partition_inv o3) as Hinv3 by (eapply partition_inv_elsewhere; [|exact Hinv1]; by trans o2).
    assert (clear_for o3 record) as Hc3 by (eapply clear_for_elsewhere; [|apply Hclear; auto]; by trans o2).
    split; [by intros _|]. destruct r as [[]|[]]; cbn [bind ObjectStore.wp]; try (by split; [|by intros ? [= <-]]).
    by apply IH.
Qed.

(** * Storing the record *)

Lemma live_insert o l b a : o !! l = None -> l <> record_location a -> l <> batch_of a -> live (<[l := b]> o) a -> live o a.
Proof using Type.
  intros Hnone Hr Hb (body & (Hl & Hread & Hval) & Hlive). rewrite lookup_insert_ne in Hl by done.
  rewrite lookup_insert_ne in Hlive by done. exists body. split; [done|]. destruct Hlive as [|Hx]; [by left|right].
  intros x Hst. eapply Hx, stored_decision_weaken; [by apply insert_subseteq|done].
Qed.

Lemma live_valid o a : live o a -> validate_admission a = Ok tt.
Proof using Type. by intros (body & (_ & _ & ?) & _). Qed.

(** The record is stored and its range is clear. *)
Definition admitted_in (o : objects) (record : DurableIngestAdmissionRecordV1) : Prop :=
  clear_for o record /\ exists body, stored_admission o body record.

Lemma stored_unique o body a body' a' :
  stored_admission o body a -> stored_admission o body' a' -> record_location a = record_location a' -> a = a'.
Proof using Type. intros (Hl & Hread & _) (Hl' & Hread' & _) Heq. rewrite Heq in Hl. congruence. Qed.

Lemma insert_record o record : mine record -> typed_admission record -> validate_admission record = Ok tt ->
  o !! record_location record = None -> partition_inv o -> clear_for o record ->
  let o' := <[record_location record := to_vec (admission_json record)]> o in
  partition_inv o' /\ admitted_in o' record.
Proof using Type*.
  intros Hm Ht Hval Hnone [Hcom Hapart] Hclear o'.
  assert (stored_admission o' (to_vec (admission_json record)) record) as Hst.
  { split_and!; [by apply lookup_insert_eq|by apply stored_round_trip|done]. }
  assert (forall a, mine a -> live o' a -> a = record \/ live o a) as Hlive.
  { intros a Ha Hla. pose proof (live_valid _ _ Hla) as Hva. destruct (decide (record_location record = record_location a)) as [Heq|Hne].
    - left. destruct Hla as (body & Hsa & _). by eapply stored_unique.
    - right. eapply live_insert; [exact Hnone|done| |exact Hla].
      rewrite batch_of_mine, record_location_mine by done. intros Heq. by eapply batch_record_text. }
  split; [split|split].
  - intros d Hd Hs Hp Hsome. rewrite located_text in Hsome by done. unfold o' in Hsome.
    rewrite record_location_mine, lookup_insert_ne in Hsome by (done || (intros Heq; by eapply batch_record_text)).
    destruct (Hcom d) as (body & a & ? & ?); [done..|by rewrite located_text|]. exists body, a. split; [|done].
    eapply stored_admission_weaken; [by apply insert_subseteq|done].
  - intros a b Ha Hb Hla Hlb. apply (Hlive a Ha) in Hla as [-> |Hla]; apply (Hlive b Hb) in Hlb as [-> |Hlb];
      [by intros []|by apply Hclear|by apply apart_sym, Hclear|by apply Hapart].
  - intros b Hb Hlb. apply (Hlive b Hb) in Hlb as [-> |Hlb]; [by intros []|by apply Hclear].
  - by eexists.
Qed.

Definition materialized_as (record : DurableIngestAdmissionRecordV1) (r : result IngestLogError AdmissionReservationOutcome)
    (o : objects) : Prop :=
  partition_inv o /\ forall out, r = Ok out -> (out = NewlyAdmitted \/ out = AlreadyAdmitted) -> admitted_in o record.

Lemma admitted_elsewhere o o' record : elsewhere o o' -> admitted_in o record -> admitted_in o' record.
Proof using Type.
  intros Ho [Hc [body Hst]]. split; [by eapply clear_for_elsewhere|]. exists body.
  eapply stored_admission_weaken; [by apply elsewhere_adds|done].
Qed.

Lemma materialize_wp record o : mine record -> typed_admission record -> validate_admission record = Ok tt ->
  partition_inv o -> clear_for o record ->
  wp (materialize_admission_record record) (materialized_as record) o.
Proof using Type*.
  intros Hm Ht Hval Hinv Hclear. unfold materialize_admission_record. intros o1 r o2 Ho1 Hans.
  apply (partition_inv_elsewhere _ _ Ho1) in Hinv. apply (clear_for_elsewhere _ _ _ Ho1) in Hclear.
  fold (record_location record) in *. pose proof Hans as Hput. apply put_answers in Hput.
  destruct Hput as [[Hr ->]|(Hnone & -> & Hr)].
  2: { destruct (insert_record o1 record) as [Hinv2 Hadm]; [done..|]. split; [by intros _|].
       destruct r as [[]|[]]; try done; cbn [bind ObjectStore.wp]; (split; [done|]); by intros ? [= <-]. }
  split; [done|]. destruct r as [[]|[]]; try done; cbn [bind]; try (by split).
  assert (forall e o', elsewhere o1 o' -> materialized_as record (Err e) o') as Herr.
  { intros e o' Ho. split; [by eapply partition_inv_elsewhere|done]. }
  eapply wp_then; [apply (reading_get elsewhere)|done|]. intros body o2 Ho2 Hbody.
  destruct (ok_or LogJson (admission_from_slice body)) as [a|] eqn:Ha; cbn [and_then bind]; [|by apply Herr].
  destruct (validate_admission a) as [[]|] eqn:Hva; cbn [and_then bind]; [|by apply Herr].
  eapply wp_then; [apply (reading_any elsewhere)|intros; apply Herr; by trans o2|].
  { unfold admission_has_matching_expiry. only_reads. }
  intros expired o3 Ho3 _. eapply wp_then; [apply (reading_any elsewhere)|intros; apply Herr; trans o2; [|trans o3]; done|].
  { destruct expired; only_reads. }
  intros missing o4 Ho4 _. assert (elsewhere o2 o4) as Ho24 by by trans o3. assert (elsewhere o1 o4) as Ho14 by by trans o2.
  assert (forall out, out <> NewlyAdmitted -> out <> AlreadyAdmitted -> materialized_as record (Ok out) o4) as Hother.
  { intros out ??. split; [by eapply partition_inv_elsewhere|]. by intros ? [= <-] [?|?]. }
  destruct missing; [by apply Hother|]. destruct (bool_decide (a = record)) eqn:Heq.
  - apply bool_decide_eq_true in Heq as ->. case_bool_decide; cbn [andb]; [|by apply Herr].
    split; [by eapply partition_inv_elsewhere|]. intros ? _ _. apply (admitted_elsewhere o2 o4 _ Ho24).
    split; [by eapply clear_for_elsewhere|]. exists body. apply ok_or_ok in Ha. done.
  - cbn [andb]. by apply Hother.
Qed.

(** * Committing *)

Lemma same_batch a b : mine a -> mine b -> typed_admission a -> typed_admission b ->
  validate_admission a = Ok tt -> validate_admission b = Ok tt -> batch_of a = batch_of b ->
  record_location a = record_location b.
Proof using Type.
  intros Ha Hb (_ & ? & ? & ? & _) (_ & ? & ? & ? & _) Hva Hvb Heq.
  rewrite !record_location_mine by done.
  pose proof (validate_admission_keys a Hva) as (_ & _ & Hba). pose proof (validate_admission_keys b Hvb) as (_ & _ & Hbb).
  unfold batch_of in Heq. destruct (a_batch_key a) as [ka], (a_batch_key b) as [kb]. cbn in Heq. subst kb.
  apply (build_inj (admission_batch_artifact a) (admission_batch_artifact b) (Key ka)) in Hba; [|done..].
  injection Hba as _ _ -> ->. done.
Qed.

Lemma insert_batch o record payload : mine record -> typed_admission record -> described (descriptor_of record) ->
  o !! batch_of record = None -> partition_inv o -> admitted_in o record ->
  partition_inv (<[batch_of record := payload]> o).
Proof using Type*.
  intros Hm Ht Hd Hnone [Hcom Hapart] [Hclear [body Hst]]. pose proof Hst as (_ & _ & Hval).
  set (o' := <[batch_of record := payload]> o).
  assert (forall a, validate_admission a = Ok tt -> mine a -> batch_of record <> record_location a) as Hne.
  { intros a Hva Ha. rewrite batch_of_mine, record_location_mine by done. apply batch_record_text. }
  assert (forall a, mine a -> live o' a -> a = record \/ live o a) as Hlive.
  { intros a Ha Hla. pose proof (live_valid _ _ Hla) as Hva. destruct (decide (batch_of record = batch_of a)) as [Heq|Hb].
    - left. destruct Hla as (body' & (Hl & Hread & _) & _). unfold o' in Hl. rewrite lookup_insert_ne in Hl by auto.
      eapply (stored_unique o body' _ body); [done|done|]. symmetry.
      apply same_batch; eauto using admission_from_slice_typed.
    - right. eapply live_insert; eauto. }
  split.
  - intros d Hdd Hs Hp Hsome. destruct (decide (located d = batch_of record)) as [Heq|Hb].
    + exists body, record. split; [eapply stored_admission_weaken; [by apply insert_subseteq|done]|].
      assert (parse_ingest_descriptor (located d) = Ok d) as Hpd by by apply parse_ingest_descriptor_ok.
      assert (parse_ingest_descriptor (located (descriptor_of record)) = Ok (descriptor_of record)) as Hpr by by apply parse_ingest_descriptor_ok.
      change (located (descriptor_of record)) with (batch_of record) in Hpr. rewrite <-Heq, Hpd in Hpr. by injection Hpr as ->.
    + unfold o' in Hsome. rewrite lookup_insert_ne in Hsome by done. destruct (Hcom d) as (body' & a & ? & ?); [done..|].
      exists body', a. split; [eapply stored_admission_weaken; [by apply insert_subseteq|done]|done].
  - intros a b Ha Hb Hla Hlb. apply (Hlive a Ha) in Hla as [-> |Hla]; apply (Hlive b Hb) in Hlb as [-> |Hlb];
      [by intros []|by apply Hclear|by apply apart_sym, Hclear|by apply Hapart].
Qed.

(** Every request keeps the invariant. *)
Definition safe {A} (q : prog A) (o : objects) : Prop := wp q (fun _ _ => True) o.

Lemma wp_only_reads {A B} (q : prog A) (f : A -> prog B) Q o :
  read_only q -> (forall a o', elsewhere o o' -> wp (f a) Q o') -> wp (bind q f) Q o.
Proof using Type.
  apply (wp_reads elsewhere keeps_inv). auto.
Qed.

Lemma safe_reads {A} (q : prog A) o : read_only q -> safe q o.
Proof using Type.
  revert o. induction q as [a|c k IH]; intros o; [done|]. intros [Hc Hk] o1 r o2 _ ->%answers_read; [|done].
  split; [auto|]. by apply IH.
Qed.

(** A guard that only reads. *)
Definition guard_reads (guard : option IngestCommitGuard) : Prop :=
  match guard with
  | Some g => (forall phase d, read_only (verify g phase d)) /\
      forall d b, admission_binding g d = Some b -> typed_binding b
  | None => True
  end.

Lemma read_only_verify guard phase d : guard_reads guard -> read_only (verify_ingest_commit_guard guard phase d).
Proof using Type. destruct guard as [g|]; [|done]. intros [Hv _]. apply read_only_bind; [auto|done]. Qed.

Lemma commit_safe batch guard record c o : guard_reads guard -> b_descriptor batch = descriptor_of record ->
  mine record -> typed_admission record -> described (descriptor_of record) -> partition_inv o -> admitted_in o record ->
  safe (commit_validated_batch batch guard c) o.
Proof using Type*.
  intros Hg Hb Hm Ht Hd Hinv Hadm. unfold commit_validated_batch. apply wp_only_reads; [by apply read_only_verify|].
  intros [u|e] o1 Ho1; [|done]. apply (partition_inv_elsewhere _ _ Ho1) in Hinv. apply (admitted_elsewhere _ _ _ Ho1) in Hadm.
  unfold append_validated_batch, append_batch, batch_location. rewrite Hb. intros o2 r o3 Ho2 Hans.
  apply (partition_inv_elsewhere _ _ Ho2) in Hinv. apply (admitted_elsewhere _ _ _ Ho2) in Hadm. split.
  - intros _. apply put_answers in Hans as [[_ ->]|(Hnone & -> & _)]; [done|]. by apply insert_batch.
  - destruct r as [[]|[]]; cbn [bind]; try done. apply safe_reads. unfold fetch_log. only_reads.
Qed.

Lemma decode_typed payload e : decode payload = Ok e -> typed_header (without_digest (header e)).
Proof using Type*.
  unfold decode. intros ([h body] & Hs & Hd)%bind_ok. rewrite !bind_unit_ok in Hd. destruct Hd as (_ & _ & Hd).
  apply bind_ok in Hd as (n & _ & (_ & [= <-])%bind_unit_ok). cbn [header].
  unfold split_envelope in Hs. rewrite !bind_unit_ok in Hs. destruct Hs as (_ & _ & Hs).
  apply bind_ok in Hs as (n' & _ & (_ & (h' & Hh%ok_or_ok & [= <- <-])%bind_ok)%bind_unit_ok).
  by eapply header_from_slice_typed.
Qed.

(** A batch of the partition. *)
Definition own_batch (batch : IngestBatch) : Prop :=
  described (b_descriptor batch) /\ d_stream_id (b_descriptor batch) = s /\ d_partition_id (b_descriptor batch) = p.

Lemma admission_record_facts batch guard record : own_batch batch -> guard_reads guard ->
  admission_record_for_batch_with_commit_guard batch guard = Ok record ->
  b_descriptor batch = descriptor_of record /\ mine record /\ typed_admission record /\ validate_admission record = Ok tt.
Proof using Type*.
  intros (Hd & Hs & Hp) Hg. unfold admission_record_for_batch_with_commit_guard.
  intros (e & (_ & _ & _ & _ & Hw)%map_err_ok%decode_typed & Hrec)%bind_ok.
  apply bind_ok in Hrec as (rk & _ & (Hval & Hrec)%bind_unit_ok). apply (inj Ok) in Hrec as <-.
  destruct Hd as [(? & ? & ?) _]. split_and!; [by destruct (b_descriptor batch)|done| |done].
  split_and!; [done..|]. cbn [a_commit_guard_binding]. destruct guard as [g|]; [|done].
  destruct (admission_binding g _) eqn:Hbind; [|done]. by eapply Hg.
Qed.

Lemma expired_conflict_reading record o :
  reading (expired_materialized_admission_conflict record)
    (fun c _ => forall out, c = Some out -> out <> NewlyAdmitted /\ out <> AlreadyAdmitted) o.
Proof using Type.
  unfold expired_materialized_admission_conflict.
  eapply (reading_then elsewhere); [apply (reading_any elsewhere); auto with programs|]. intros decisions o1 _ _.
  eapply (reading_then elsewhere); [apply (reading_any elsewhere); auto with programs|]. intros bodies o2 _ _.
  destruct (List.find _ bodies) as [[body a]|]; [|by apply (reading_ret elsewhere); intros ? [= <-]].
  destruct (is_expired _ _ _); [|by apply (reading_ret elsewhere); intros ? [= <-]].
  eapply (reading_then elsewhere); [apply (reading_any elsewhere); auto with programs|]. intros found o3 _ _.
  apply (reading_ret elsewhere). intros ? [= <-] out. destruct found; [done|]. by intros [= <-].
Qed.

Lemma reserve_then_materialize_record_wp record o : mine record -> typed_admission record ->
  validate_admission record = Ok tt -> partition_inv o ->
  wp (reserve_then_materialize_admission_record record) (materialized_as record) o.
Proof using Type*.
  intros Hm Ht Hval Hinv. unfold reserve_then_materialize_admission_record.
  eapply wp_then; [apply expired_conflict_reading|..].
  { intros e o' Ho. split; [by eapply partition_inv_elsewhere|done]. }
  intros conflict o1 Ho1 Hconf. apply (partition_inv_elsewhere _ _ Ho1) in Hinv. destruct conflict as [conflict|].
  { split; [done|]. destruct (Hconf conflict eq_refl). by intros out [= <-] [?|?]. }
  apply wp_and_then. eapply wp_mono; [|by apply reserve_rounds_wp].
  intros [out|e] o2 [Hinv2 Hout]; [|by split]. specialize (Hout out eq_refl).
  destruct out as [| |k reason]; [| |by split; [|by intros ? [= <-] [?|?]]].
  all: apply wp_and_then; eapply wp_mono; [|by apply materialize_wp; auto].
  all: intros [m|e] o3 [Hinv3 Hmat]; [|by split]; split; [done|]; intros out' [= <-] Hout';
    apply (Hmat m eq_refl); destruct m; naive_solver.
Qed.

(** * The calls *)

Lemma safe_cached {A B} (m : cached A) (f : A -> cached B) c o :
  wp (m c) (fun rc o' => forall a, rc.1 = Ok a -> safe (f a rc.2) o') o -> safe (cached_bind m f c) o.
Proof using Type.
  intros Hm. apply wp_bind. eapply wp_mono; [|exact Hm]. intros [[a|e] c'] o' Hf; [by apply (Hf a)|done].
Qed.

Lemma safe_cached_ret {A B} (r : result IngestLogError A) (f : A -> cached B) c o :
  (forall a, r = Ok a -> safe (f a c) o) -> safe (cached_bind (cached_ret r) f c) o.
Proof using Type. intros Hf. by apply safe_cached. Qed.

Lemma safe_cached_reads {A B} (m : cached A) (f : A -> cached B) c o : read_only (m c) ->
  partition_inv o -> (forall a c' o', partition_inv o' -> safe (f a c') o') -> safe (cached_bind m f c) o.
Proof using Type.
  intros Hm Hinv Hf. apply wp_only_reads; [done|]. intros [[a|e] c'] o' Ho; [|done].
  by apply Hf; eapply partition_inv_elsewhere.
Qed.

Lemma safe_uncached {A B} (q : prog (result IngestLogError A)) (f : A -> cached B) c o :
  wp q (fun r o' => forall a, r = Ok a -> safe (f a c) o') o -> safe (cached_bind (uncached q) f c) o.
Proof using Type. intros Hq. apply safe_cached, wp_bind. exact Hq. Qed.

Lemma read_only_uncached {A} (q : prog (result IngestLogError A)) c : read_only q -> read_only (uncached q c).
Proof using Type. intros. by apply read_only_bind. Qed.

Lemma read_only_cached_bind {A B} (m : cached A) (f : A -> cached B) c :
  read_only (m c) -> (forall a c, read_only (f a c)) -> read_only (cached_bind m f c).
Proof using Type. intros Hm Hf. apply read_only_bind; [done|]. by intros [[a|e] c']; cbn. Qed.

Lemma existing_reads batch : read_only (existing_batch_conflict batch).
Proof using Type. unfold existing_batch_conflict. only_reads. Qed.

Lemma read_only_list_committed : read_only list_committed.
Proof using Type. unfold list_committed. only_reads. Qed.
#[local] Hint Resolve existing_reads read_only_list_committed read_only_uncached : programs.

Lemma read_only_load st pt flag : read_only (load_range_admission_index_state_for_partition st pt flag).
Proof using Type.
  unfold load_range_admission_index_state_for_partition, list_active_admission_records, reconstruct_admission_namespace,
    reconstruct_step, validate_committed_admission. only_reads.
Qed.

Lemma read_only_committed d c : read_only (committed_overlap_conflict d c).
Proof using Type.
  apply read_only_cached_bind; [|done]. unfold committed_descriptors. destruct c; [done|]. only_reads.
Qed.

Lemma read_only_indexed d c : read_only (indexed_or_committed_overlap_conflict d c).
Proof using Type.
  apply read_only_cached_bind; [apply read_only_committed|]. intros [conflict|] c'; [|done].
  apply read_only_cached_bind; [apply read_only_uncached, read_only_load|]. intros st c2.
  apply read_only_cached_bind; [done|]. intros probe c3. by apply read_only_cached_bind.
Qed.

(** Reserve, store the record, and go on with it. *)
Lemma reserve_then_safe {B} batch guard (f : AdmissionReservationOutcome -> cached B) c o :
  own_batch batch -> guard_reads guard -> partition_inv o ->
  (forall k reason o', safe (f (ReservationConflict k reason) c) o') ->
  (forall out record o', b_descriptor batch = descriptor_of record -> mine record -> typed_admission record ->
     partition_inv o' -> admitted_in o' record -> safe (f out c) o') ->
  safe (cached_bind (uncached (reserve_then_materialize_admission batch guard)) f c) o.
Proof using Type*.
  intros Hown Hg Hinv Hconf Hf. apply safe_uncached. unfold reserve_then_materialize_admission.
  destruct (admission_record_for_batch_with_commit_guard batch guard) as [record|e] eqn:Hrec; cbn [and_then bind]; [|done].
  destruct (admission_record_facts _ _ _ Hown Hg Hrec) as (Hb & Hm & Ht & Hval).
  eapply wp_mono; [|by apply reserve_then_materialize_record_wp]. intros r o' [Hinv' Hmat] out Hout.
  destruct out as [| |k reason]; [| |apply Hconf]; by eapply Hf; eauto.
Qed.

Lemma reserve_then_append_safe batch guard c o : own_batch batch -> guard_reads guard -> partition_inv o ->
  safe (reserve_then_append_validated_batch batch guard c) o.
Proof using Type*.
  intros Hown Hg Hinv. apply safe_cached_reads; [auto with programs|done|]. intros [existing|] c' o' Hinv'; [done|].
  apply reserve_then_safe; [done..|]. intros out record o2 Hb Hm Ht Hinv2 Hadm.
  destruct out; [| |done]; (eapply commit_safe; [done..|rewrite <-Hb; apply Hown|done|done]).
Qed.

Lemma indexed_before_safe batch guard c o : own_batch batch -> guard_reads guard -> partition_inv o ->
  safe (admit_validated_batch_indexed_before_committed_fallback batch guard c) o.
Proof using Type*.
  intros Hown Hg Hinv. apply safe_cached_reads; [auto with programs|done|]. intros [existing|] c1 o1 Hinv1; [done|].
  apply safe_cached_reads; [apply read_only_indexed|done|]. intros [conflict|] c2 o2 Hinv2; [done|].
  apply reserve_then_safe; [done..|]. intros out record o3 Hb Hm Ht Hinv3 Hadm.
  destruct out; [| |done].
  all: apply wp_only_reads; [apply read_only_indexed|]; intros [[[conflict|]|e] c4] o4 Ho4; [done| |done].
  all: eapply commit_safe; [done..|rewrite <-Hb; apply Hown| |]; eauto using partition_inv_elsewhere, admitted_elsewhere.
Qed.

Lemma admit_safe reserve_before batch g guard c o : own_batch batch -> guard_reads guard -> partition_inv o ->
  safe (admit_validated_batch_with_commit_guard reserve_before batch g guard c) o.
Proof using Type*.
  intros Hown Hg Hinv. apply safe_cached_ret. intros [] _.
  apply safe_cached_reads; [by apply read_only_uncached, read_only_verify|done|]. intros _ c1 o1 Hinv1.
  destruct reserve_before; [by apply indexed_before_safe|].
  apply safe_cached_reads; [apply read_only_committed|done|]. intros [conflict|] c2 o2 Hinv2; [done|].
  by apply reserve_then_append_safe.
Qed.

(** The payload is an envelope of the partition. *)
Definition own_payload (payload : bytes) : Prop :=
  forall e, decode payload = Ok e -> h_stream_id (without_digest (header e)) = s /\ h_partition_id (without_digest (header e)) = p.

Lemma from_validated_envelope_own payload batch : own_payload payload ->
  from_validated_envelope payload = Ok batch -> own_batch batch.
Proof using Type*.
  intros Hown. unfold from_validated_envelope, from_validated_envelope_with_envelope.
  intros ([batch' e] & (e' & He%map_err_ok & (k & Hk%map_err_ok & (_ & Heq)%bind_unit_ok)%bind_ok)%bind_ok & [= <-])%bind_ok.
  apply (inj Ok) in Heq. injection Heq as <- <-. destruct (Hown _ He). pose proof (decode_typed _ _ He) as (_ & ? & ? & ? & _).
  done.
Qed.

Lemma read_only_catalog relation version : read_only (read_catalog relation version).
Proof using Type. unfold read_catalog, read_catalog_object. only_reads. Qed.

Lemma catalog_validated_batch_reading payload o : own_payload payload ->
  reading (catalog_validated_batch payload) (fun batch _ => own_batch batch) o.
Proof using Type*.
  intros Hown. apply (reading_lift elsewhere). intros e _.
  eapply (reading_then elsewhere); [apply (reading_any elsewhere), read_only_bind; [apply read_only_catalog|done]|]. intros catalog o1 _ _.
  apply (reading_lift elsewhere). intros _ _. apply (reading_lift elsewhere). intros batches _.
  apply (reading_lift elsewhere). intros _ _. apply (reading_lift elsewhere). intros _ _.
  apply (reading_ret elsewhere). intros batch. by apply from_validated_envelope_own.
Qed.

Lemma append_safe reserve_before payload guard c o : own_payload payload -> guard_reads guard -> partition_inv o ->
  safe (append_catalog_validated_envelope_with_optional_commit_guard reserve_before payload guard c) o.
Proof using Type*.
  intros Hown Hg Hinv. apply safe_cached. unfold uncached.
  eapply wp_mono_reading; [by apply catalog_validated_batch_reading|].
  cbn. intros r o' Ho Hb batch ->. apply admit_safe; [by apply Hb|done|by eapply partition_inv_elsewhere].
Qed.

Lemma reserve_external_safe record c o : mine record -> typed_admission record -> partition_inv o ->
  safe (reserve_external_ingest_range_admission record c) o.
Proof using Type*.
  intros Hm Ht Hinv. apply safe_cached_ret. intros d (Hval & _)%bind_unit_ok.
  apply safe_cached_reads; [apply read_only_committed|done|]. intros conflict c1 o1 Hinv1.
  assert (safe (cached_bind (uncached (reserve_then_materialize_admission_record record)) (fun outcome =>
    cached_ret (Ok (match outcome with NewlyAdmitted => Reserved | AlreadyAdmitted => ReserveDuplicate
      | ReservationConflict object_key reason => ReserveConflict object_key reason end))) c1) o1) as Hsafe.
  { apply safe_uncached. eapply wp_mono; [|by apply reserve_then_materialize_record_wp]. done. }
  destruct conflict as [[]|]; done.
Qed.

(** * The ranges of a partition *)

(** A call of the partition: an append through a coordinator, with any of its
    options and any cache, or the reservation of a range for an external writer. *)
Inductive partition_call : prog unit -> Prop :=
| call_append reserve_before payload guard c : own_payload payload -> guard_reads guard ->
    partition_call (bind (append_catalog_validated_envelope_with_optional_commit_guard reserve_before payload guard c) (fun _ => Ret tt))
| call_reserve record c : mine record -> typed_admission record ->
    partition_call (bind (reserve_external_ingest_range_admission record c) (fun _ => Ret tt)).

Lemma partition_call_safe q o : partition_call q -> partition_inv o -> safe q o.
Proof using Type*.
  intros Hq Hinv. destruct Hq as [rb payload guard c Hown Hg|record c Hm Ht]; apply wp_bind.
  - by apply append_safe.
  - by apply reserve_external_safe.
Qed.

Context `{!ObjectStore, !ObjectStoreLaws}.

(** The objects and the call that holds the mutex of the partition, if any. The
    call makes requests and ends after any of them; others work elsewhere. *)
Inductive serialized_step : store * option (prog unit) -> store * option (prog unit) -> Prop :=
| serialized_start st q : partition_call q -> serialized_step (st, None) (st, Some q)
| serialized_request st c k r st' : serve st c r st' -> serialized_step (st, Some (Call c k)) (st', Some (k r))
| serialized_end st q : serialized_step (st, Some q) (st, None)
| serialized_elsewhere st st' q : elsewhere (content st) (content st') -> serialized_step (st, q) (st', q).

Lemma serialized_inv st q st' q' : rtc serialized_step (st, q) (st', q') ->
  partition_inv (content st) -> match q with Some q => safe q (content st) | None => True end ->
  partition_inv (content st').
Proof using Type*.
  intros Hsteps Hinv Hq.
  enough (partition_inv (content (st', q').1) /\ match (st', q').2 with Some q => safe q (content (st', q').1) | None => True end) as [? _] by done.
  revert Hsteps. generalize (st', q'). clear st' q'. intros c'.
  apply (rtc_ind_r (fun c => partition_inv (content c.1) /\ match c.2 with Some q => safe q (content c.1) | None => True end) (st, q)); [done|].
  intros c1 c2 _ Hstep [Hinv1 Hq1]. destruct Hstep as [s1 q1 Hc|s1 c k r s2 Hs%serve_answers|s1 q1|s1 s2 q1 He]; cbn [fst snd] in *.
  - split; [done|]. by apply partition_call_safe.
  - destruct (Hq1 _ _ _ ltac:(reflexivity) Hs) as [HG Hk]. split; [by apply HG|done].
  - done.
  - split; [by eapply partition_inv_elsewhere|]. destruct q1 as [q1|]; [|done]. by eapply (wp_stable elsewhere keeps_inv).
Qed.

Definition committed_batch (o : objects) (d : IngestBatchDescriptor) : Prop :=
  described d /\ d_stream_id d = s /\ d_partition_id d = p /\ is_Some (o !! located d).

(** No batch and no admission record of the partition. *)
Definition fresh_partition (o : objects) : Prop := forall lo hi, o !! batch_text lo hi = None /\ o !! record_text lo hi = None.

Lemma fresh_inv o : fresh_partition o -> partition_inv o.
Proof using Type.
  intros Hf. split.
  - intros d Hd Hs Hp [b Hb]. rewrite located_text in Hb by done. by rewrite (proj1 (Hf _ _)) in Hb.
  - intros a b Ha _ (body & (Hl & _ & Hval) & _). rewrite record_location_mine in Hl by done. by rewrite (proj2 (Hf _ _)) in Hl.
Qed.

Lemma inv_disjoint o d e : partition_inv o -> committed_batch o d -> committed_batch o e -> d <> e ->
  d_end_offset_exclusive d <= d_start_offset_inclusive e \/ d_end_offset_exclusive e <= d_start_offset_inclusive d.
Proof using Type.
  intros [Hcom Hapart] (Hd & Hds & Hdp & Hdb) (He & Hes & Hep & Heb) Hne.
  destruct (Hcom d Hd Hds Hdp Hdb) as (body & a & Hst & <-), (Hcom e He Hes Hep Heb) as (body' & b & Hst' & <-).
  assert (live o a) as Hla by (exists body; split; [done|by left]).
  assert (live o b) as Hlb by (exists body'; split; [done|by left]).
  assert (record_location a <> record_location b) as Hloc by (intros Heq; apply Hne; by rewrite (stored_unique _ _ _ _ _ Hst Hst' Heq)).
  pose proof (Hapart a b (conj Hds Hdp) (conj Hes Hep) Hla Hlb Hloc) as Hno. cbn in *. unfold overlap in Hno.
  destruct (Z.le_gt_cases (a_end_offset_exclusive a) (a_start_offset_inclusive b)); [by left|].
  destruct (Z.le_gt_cases (a_end_offset_exclusive b) (a_start_offset_inclusive a)); [by right|].
  exfalso. apply Hno. split_and!; [congruence..|lia|lia].
Qed.

(** C10: When one call at a time works on a stream partition, whatever its options,
    wherever it stops, and whatever else others write, the committed ranges of
    the partition never overlap and every committed batch has its admission record. *)
Theorem serialized_admission_keeps_ranges_apart st st' q :
  fresh_partition (content st) -> rtc serialized_step (st, None) (st', q) ->
  (forall d e, committed_batch (content st') d -> committed_batch (content st') e -> d <> e ->
     d_end_offset_exclusive d <= d_start_offset_inclusive e \/ d_end_offset_exclusive e <= d_start_offset_inclusive d) /\
  (forall d, committed_batch (content st') d -> exists body a, stored_admission (content st') body a /\ descriptor_of a = d).
Proof using Type*.
  intros Hf%fresh_inv Hsteps. pose proof (serialized_inv _ _ _ _ Hsteps Hf I) as Hinv. split.
  - intros d e. by apply inv_disjoint.
  - intros d (Hd & Hs & Hp & Hb). by apply Hinv.
Qed.
End partition.

(** * Objects are only added *)

Section append_only.
Context `{Sha256, SerdeJson, RelationCodec, EnvelopeCodec, ArrowIpc, IngestCodec}.

Definition guard_creates (guard : option IngestCommitGuard) : Prop :=
  match guard with Some g => forall phase d, create_only (verify g phase d) | None => True end.

Definition ignore {A} (q : prog A) : prog unit := bind q (fun _ => Ret tt).

(** The operations of the log, of a coordinator and of the catalog registry. *)
Inductive log_operation : prog unit -> Prop :=
| op_reads {A} (q : prog A) : read_only q -> log_operation (ignore q)
| op_append batch : log_operation (ignore (append_validated_batch batch))
| op_append_single_writer batch : log_operation (ignore (append_validated_batch_single_writer batch))
| op_coordinator reserve_before payload guard c : guard_creates guard ->
    log_operation (ignore (append_catalog_validated_envelope_with_optional_commit_guard reserve_before payload guard c))
| op_external payload c : log_operation (ignore (append_catalog_validated_envelope_after_external_admission payload c))
| op_external_validated payload c : log_operation (ignore (append_validated_envelope_after_external_admission payload c))
| op_reserve record c : log_operation (ignore (reserve_external_ingest_range_admission record c))
| op_expire stream_id partition_id lo hi decision_id reason operator_id :
    log_operation (ignore (expire_orphan_admission stream_id partition_id lo hi decision_id reason operator_id))
| op_stage record : log_operation (ignore (stage_ingest_record record))
| op_catalog catalog : log_operation (ignore (create_catalog catalog)).

Lemma create_only_cached_bind {A B} (m : cached A) (f : A -> cached B) c :
  create_only (m c) -> (forall a c, create_only (f a c)) -> create_only (cached_bind m f c).
Proof using Type. intros Hm Hf. apply create_only_bind; [done|]. by intros [[a|e] c']; cbn. Qed.
Lemma create_only_cached_ret {A} (r : result IngestLogError A) c : create_only (cached_ret r c).
Proof using Type. done. Qed.
Lemma create_only_uncached {A} (q : prog (result IngestLogError A)) c : create_only q -> create_only (uncached q c).
Proof using Type. intros. by apply create_only_bind. Qed.

#[local] Hint Resolve read_only_listing read_only_fetch_log read_only_object_exists read_only_transitions read_only_decisions
  read_only_bodies read_only_expired_keys read_only_load existing_reads read_only_list_committed read_only_catalog
  create_only_cached_ret : programs.

Lemma reserve_rounds_creates rounds record : create_only (reserve_rounds rounds record).
Proof using Type.
  induction rounds as [|rounds IH]; cbn [reserve_rounds]; [done|].
  apply create_only_and_then; [|intros st; only_creates].
  apply read_only_create_only. unfold load_range_admission_index_state. only_reads.
Qed.

Lemma materialize_creates record : create_only (materialize_admission_record record).
Proof using Type.
  unfold materialize_admission_record. only_creates. apply read_only_create_only. unfold admission_has_matching_expiry. only_reads.
Qed.
#[local] Hint Resolve reserve_rounds_creates materialize_creates : programs.

Lemma reserve_then_materialize_creates record : create_only (reserve_then_materialize_admission_record record).
Proof using Type.
  unfold reserve_then_materialize_admission_record, reserve_range_admission_index. only_creates.
  apply read_only_create_only. unfold expired_materialized_admission_conflict. only_reads.
Qed.

Lemma append_validated_batch_creates batch : create_only (append_validated_batch batch).
Proof using Type. unfold append_validated_batch, append_batch. only_creates. Qed.
#[local] Hint Resolve reserve_then_materialize_creates append_validated_batch_creates : programs.

Lemma verify_creates guard phase d : guard_creates guard -> create_only (verify_ingest_commit_guard guard phase d).
Proof using Type. destruct guard as [g|]; [|done]. intros Hv. apply create_only_bind; [apply Hv|done]. Qed.

Lemma commit_creates batch guard c : guard_creates guard -> create_only (commit_validated_batch batch guard c).
Proof using Type.
  intros Hg. unfold commit_validated_batch. apply create_only_bind; [by apply verify_creates|]. only_creates.
Qed.

(** Takes a computation with a cache apart. *)
Ltac cached_creates :=
  repeat match goal with
  | |- forall _, _ => intros ?
  | |- create_only (cached_bind _ _ _) => apply create_only_cached_bind
  | |- create_only (cached_ret _ _) => exact I
  | |- create_only (uncached _ _) => apply create_only_uncached
  | |- create_only ((match ?x with _ => _ end) _) => destruct x
  | |- create_only (commit_validated_batch _ _ _) => by apply commit_creates
  | |- create_only (committed_overlap_conflict _ _) => apply read_only_create_only, read_only_committed
  | |- create_only (indexed_or_committed_overlap_conflict _ _) => apply read_only_create_only, read_only_indexed
  end; only_creates.

Lemma reserve_then_materialize_batch_creates batch guard : create_only (reserve_then_materialize_admission batch guard).
Proof using Type. unfold reserve_then_materialize_admission. only_creates. Qed.
Lemma catalog_validated_batch_creates payload : create_only (catalog_validated_batch payload).
Proof using Type. apply read_only_create_only. unfold catalog_validated_batch. only_reads. Qed.
#[local] Hint Resolve reserve_then_materialize_batch_creates catalog_validated_batch_creates : programs.

Lemma admit_creates reserve_before batch g guard c : guard_creates guard ->
  create_only (admit_validated_batch_with_commit_guard reserve_before batch g guard c).
Proof using Type.
  intros Hg. unfold admit_validated_batch_with_commit_guard, admit_validated_batch_indexed_before_committed_fallback,
    reserve_then_append_validated_batch. cached_creates. by apply verify_creates.
Qed.

Lemma external_creates batch c : create_only (materialize_external_admission_then_append_validated_batch batch None c).
Proof using Type. unfold materialize_external_admission_then_append_validated_batch. cached_creates. Qed.

Lemma log_operation_creates q : log_operation q -> create_only q.
Proof using Type.
  intros Hq. destruct Hq; unfold ignore; apply create_only_bind; try done.
  - by apply read_only_create_only.
  - only_creates.
  - unfold append_validated_batch_single_writer. only_creates.
  - apply create_only_cached_bind; [apply create_only_uncached; only_creates|]. intros b c'. by apply admit_creates.
  - apply create_only_cached_bind; [apply create_only_uncached; only_creates|]. intros b c'. apply external_creates.
  - apply create_only_cached_bind; [done|]. intros b c'. apply external_creates.
  - unfold reserve_external_ingest_range_admission. cached_creates.
  - unfold expire_orphan_admission. only_creates.
  - unfold stage_ingest_record. only_creates.
  - unfold create_catalog, read_catalog_object. only_creates.
Qed.

Context `{!ObjectStore, !ObjectStoreLaws}.

(** Any number of operations of the log, of coordinators and of the registry, in
    any interleaving and stopping anywhere, only add objects: a batch, an
    admission record, a decision, a transition, a staged object or a catalog that
    is in the store stays as it is. *)
Theorem ingest_objects_stay st st' ps : steps_to log_operation (st, []) (st', ps) ->
  forall l body, content st !! l = Some body -> content st' !! l = Some body.
Proof using Type*.
  intros Hsteps l body Hl. eapply lookup_weaken; [exact Hl|].
  eapply (steps_create_only log_operation); [apply log_operation_creates|constructor|exact Hsteps].
Qed.
End append_only.
