(* ===== verification/IngestSamples.v ===== *)
(** Concrete codecs for the ingest log, and what the theorems about envelopes,
    catalogs and admission say of a small log on a store in memory. *)
From stdpp Require Import sorting.
From S2P Require Import Prelude BTree Json Digits Segments ObjectKey Hash Relation ObjectKeyProofs ObjectStore Serde JsonText JsonRead Codec IngestEnvelope AppendOnly CatalogRegistry IngestLog IngestLogProofs IngestAdmission IngestAdmissionProofs.

#[local] Existing Instance plain_json.

(** * Fields of objects *)

Definition get_string (k : string) (v : Value) : option string :=
  match get_field k v with Some (JString s) => Some s | _ => None end.
Definition get_unsigned (max : Z) (k : string) (v : Value) : option Z :=
  match get_field k v with Some (JNumber (PosInt n)) => if in_range 0 max n then Some n else None | _ => None end.
Definition get_i64 (k : string) (v : Value) : option Z :=
  match get_field k v with
  | Some (JNumber (PosInt n)) | Some (JNumber (NegInt n)) => if is_i64 n then Some n else None
  | _ => None
  end.
Definition get_key (k : string) (v : Value) : option ObjectKey := s ← get_string k v; deserialize s.

(** An optional field. *)
Definition get_optional {A} (read : Value -> option A) (k : string) (v : Value) : option (option A) :=
  match get_field k v with Some w => Some <$> read w | None => Some None end.

Lemma get_unsigned_range max k v n : get_unsigned max k v = Some n -> in_range 0 max n = true.
Proof. unfold get_unsigned. intros. repeat case_match; naive_solver. Qed.
Lemma get_i64_range k v n : get_i64 k v = Some n -> is_i64 n = true.
Proof. unfold get_i64. intros. repeat case_match; naive_solver. Qed.

(** * Records *)

Definition watermark_of_json (v : Value) : option InputEventTimeWatermark :=
  stream_id ← get_string "stream_id" v;
  partition_id ← get_unsigned u32_max "partition_id" v;
  event_time_column_id ← get_string "event_time_column_id" v;
  max_observed ← get_i64 "max_observed_event_time_ns" v;
  watermark ← get_i64 "watermark_ns" v;
  Some (Watermark stream_id partition_id event_time_column_id max_observed watermark).

Definition header_of_json (v : Value) : option IngestEnvelopeHeader :=
  schema_version ← get_unsigned u32_max "schema_version" v;
  format ← get_string "format" v;
  stream_id ← get_string "stream_id" v;
  partition_id ← get_unsigned u32_max "partition_id" v;
  lo ← get_unsigned u64_max "start_offset_inclusive" v;
  hi ← get_unsigned u64_max "end_offset_exclusive" v;
  w ← get_optional watermark_of_json "event_time_watermark" v;
  relation_id ← get_string "relation_id" v;
  relation_version ← get_string "relation_version" v;
  fingerprint ← get_string "schema_fingerprint" v;
  digest ← get_string "payload_digest" v;
  compression ← get_string "compression" v;
  Some (Header (HeaderPart schema_version format stream_id partition_id lo hi w relation_id relation_version fingerprint compression) digest).

Definition binding_of_json (v : Value) : option IngestCommitGuardBindingV1 :=
  schema_version ← get_unsigned u32_max "schema_version" v;
  kind ← get_string "binding_kind" v;
  subject ← get_string "subject" v;
  owner_id ← get_string "owner_id" v;
  owner_epoch ← get_unsigned u64_max "owner_epoch" v;
  Some (Binding schema_version kind subject owner_id owner_epoch).

Definition admission_of_json (v : Value) : option DurableIngestAdmissionRecordV1 :=
  schema_version ← get_unsigned u32_max "schema_version" v;
  kind ← get_string "record_kind" v;
  stream_id ← get_string "stream_id" v;
  partition_id ← get_unsigned u32_max "partition_id" v;
  lo ← get_unsigned u64_max "start_offset_inclusive" v;
  hi ← get_unsigned u64_max "end_offset_exclusive" v;
  w ← get_optional watermark_of_json "event_time_watermark" v;
  batch_key ← get_key "batch_key" v;
  record_key ← get_key "admission_record_key" v;
  digest ← get_string "payload_digest" v;
  relation_id ← get_string "relation_id" v;
  relation_version ← get_string "relation_version" v;
  fingerprint ← get_string "schema_fingerprint" v;
  mode ← get_string "admission_mode" v;
  binding ← get_optional binding_of_json "commit_guard_binding" v;
  Some (Admission schema_version kind stream_id partition_id lo hi w batch_key record_key digest relation_id
    relation_version fingerprint mode binding).

Definition expiry_of_json (v : Value) : option ExpiryDecisionRecord :=
  schema_version ← get_unsigned u32_max "schema_version" v;
  kind ← get_string "record_kind" v;
  stream_id ← get_string "stream_id" v;
  partition_id ← get_unsigned u32_max "partition_id" v;
  lo ← get_unsigned u64_max "start_offset_inclusive" v;
  hi ← get_unsigned u64_max "end_offset_exclusive" v;
  batch_key ← get_key "batch_key" v;
  record_key ← get_key "admission_record_key" v;
  missing_key ← get_key "observed_missing_batch_key" v;
  decision_key ← get_key "expiry_decision_key" v;
  digest ← get_string "admission_record_digest" v;
  reason ← get_string "expired_reason" v;
  operator_id ← get_string "operator_id" v;
  Some (Expiry schema_version kind stream_id partition_id lo hi batch_key record_key missing_key decision_key digest reason operator_id).

Definition transition_of_json (v : Value) : option TransitionRecord :=
  schema_version ← get_unsigned u32_max "schema_version" v;
  kind ← get_string "record_kind" v;
  stream_id ← get_string "stream_id" v;
  partition_id ← get_unsigned u32_max "partition_id" v;
  previous ← get_string "previous_state_digest" v;
  next ← get_string "next_state_digest" v;
  admitted ← get_field "admitted" v;
  admitted ← admission_of_json admitted;
  Some (Transition schema_version kind stream_id partition_id previous next admitted).

#[local] Instance sample_envelope_codec : EnvelopeCodec := { header_from_slice body := v ← read_text body; header_of_json v }.
#[local] Instance sample_ingest_codec : IngestCodec := {
  admission_from_slice body := v ← read_text body; admission_of_json v;
  expiry_from_slice body := v ← read_text body; expiry_of_json v;
  transition_from_slice body := v ← read_text body; transition_of_json v
}.

(** ** They are read back *)

Lemma get_string_json k v s : get_field k v = Some (JString s) -> get_string k v = Some s.
Proof. unfold get_string. by intros ->. Qed.
Lemma get_unsigned_json max k v n : get_field k v = Some (json_of_unsigned n) -> in_range 0 max n = true -> get_unsigned max k v = Some n.
Proof. unfold get_unsigned. intros -> Hn. cbn [json_of_unsigned]. by rewrite Hn. Qed.
Lemma get_i64_json k v n : get_field k v = Some (json_of_i64 n) -> is_i64 n = true -> get_i64 k v = Some n.
Proof. unfold get_i64, json_of_i64. intros -> Hn. destruct (n <? 0); by rewrite Hn. Qed.
Lemma get_key_json k v key : get_field k v = Some (key_json key) -> deserialize (as_str key) = Some key -> get_key k v = Some key.
Proof. unfold get_key. intros Hf Hd. by rewrite (get_string_json _ _ _ Hf). Qed.
Lemma get_optional_json {A} (read : Value -> option A) (json : A -> Value) k v x :
  get_field k v = json <$> x -> (forall y, x = Some y -> read (json y) = Some y) -> get_optional read k v = Some x.
Proof. unfold get_optional. intros -> Hx. destruct x as [y|]; [|done]. cbn. by rewrite Hx. Qed.

(** Reads the next field of a record. *)
Ltac read_field :=
  first [ erewrite get_string_json by reflexivity
        | erewrite get_unsigned_json by first [reflexivity|assumption]
        | erewrite get_i64_json by first [reflexivity|assumption]
        | erewrite get_key_json by first [reflexivity|assumption] ]; cbn [mbind option_bind].

Lemma watermark_of_watermark_json w : typed_watermark w -> watermark_of_json (watermark_json w) = Some w.
Proof. intros (? & ? & ?). unfold watermark_of_json. repeat read_field. by destruct w. Qed.

Lemma header_of_header_json h : typed_header (without_digest h) -> header_of_json (header_json h) = Some h.
Proof.
  destruct h as [[ver fmt st pt lo hi w rel relv fp comp] digest]. intros (? & ? & ? & ? & Hw). cbn [without_digest h_event_time_watermark] in *.
  unfold header_of_json. rewrite (get_optional_json watermark_of_json watermark_json _ _ w).
  - destruct w; repeat read_field; done.
  - by destruct w.
  - intros y ->. by apply watermark_of_watermark_json.
Qed.

Lemma binding_of_binding_json g : typed_binding g -> binding_of_json (binding_json g) = Some g.
Proof. intros (? & ?). unfold binding_of_json. repeat read_field. by destruct g. Qed.

Lemma admission_of_admission_json a : typed_admission a -> deserialize (as_str (a_batch_key a)) = Some (a_batch_key a) ->
  deserialize (as_str (a_admission_record_key a)) = Some (a_admission_record_key a) -> admission_of_json (admission_json a) = Some a.
Proof.
  destruct a as [ver kind st pt lo hi w bk rk digest rel relv fp mode g]. intros (? & ? & ? & ? & Hw & Hg) Hbk Hrk.
  cbn [a_event_time_watermark a_commit_guard_binding a_batch_key a_admission_record_key] in *.
  unfold admission_of_json. rewrite (get_optional_json watermark_of_json watermark_json _ _ w).
  - rewrite (get_optional_json binding_of_json binding_json _ _ g).
    + destruct w, g; repeat read_field; done.
    + by destruct w, g.
    + intros y ->. by apply binding_of_binding_json.
  - by destruct w, g.
  - intros y ->. by apply watermark_of_watermark_json.
Qed.

Lemma plain_object fs : forallb (fun f => plain_value f.2) fs = true -> plain_value (JObject fs) = true.
Proof. done. Qed.

Lemma plain_watermark w : typed_watermark w -> plain_value (watermark_json w) = true.
Proof.
  intros (Hp & Hm & Hw). unfold watermark_json, json_of_i64. cbn -[Z.ltb in_range i64_min i64_max u64_max].
  unfold is_u32, is_i64 in *. rewrite !andb_true_iff. split_and!; try done; repeat case_match; cbn; range.
Qed.

Lemma plain_header h : typed_header (without_digest h) -> plain_value (header_json h) = true.
Proof.
  intros (Hv & Hp & Hs & He & Hw). unfold header_json. apply plain_object. rewrite !forallb_app, !andb_true_iff.
  split_and!; [|destruct (h_event_time_watermark _); [|done]|done].
  - cbn. rewrite !andb_true_iff. split_and!; range.
  - cbn [watermark_field forallb snd]. by rewrite plain_watermark.
Qed.

Lemma plain_admission a : typed_admission a -> plain_value (admission_json a) = true.
Proof.
  intros (Hv & Hp & Hs & He & Hw & Hg). unfold admission_json. apply plain_object. rewrite !forallb_app, !andb_true_iff.
  split_and!; [|destruct (a_event_time_watermark _); [|done]|done|destruct (a_commit_guard_binding _) as [g|]; [|done]].
  - cbn. rewrite !andb_true_iff. split_and!; range.
  - cbn [watermark_field forallb snd]. by rewrite plain_watermark.
  - destruct Hg. cbn. rewrite !andb_true_iff. split_and!; range.
Qed.

Lemma watermark_of_json_typed v w : watermark_of_json v = Some w -> typed_watermark w.
Proof.
  unfold watermark_of_json. intros. repeat (case_match || simplify_option_eq).
  split_and!; eauto using get_unsigned_range, get_i64_range.
Qed.

Lemma get_optional_typed {A} (read : Value -> option A) (P : A -> Prop) k v x :
  (forall w y, read w = Some y -> P y) -> get_optional read k v = Some x -> match x with Some y => P y | None => True end.
Proof.
  unfold get_optional. intros Hread. destruct (get_field k v) as [w|]; [|by intros [= <-]].
  intros (y & Hy & ->)%fmap_Some. by eapply Hread.
Qed.

(** Takes the fields of a record apart. *)
Ltac fields_of H :=
  repeat match type of H with
  | mbind _ _ = Some _ => apply bind_Some in H as (? & ? & H)
  end; apply (inj Some) in H.

Lemma header_of_json_typed v h : header_of_json v = Some h -> typed_header (without_digest h).
Proof.
  unfold header_of_json. intros Hh. fields_of Hh. subst h. split_and!; eauto using get_unsigned_range.
  eapply get_optional_typed; [apply watermark_of_json_typed|eassumption].
Qed.

Lemma binding_of_json_typed v g : binding_of_json v = Some g -> typed_binding g.
Proof. unfold binding_of_json. intros Hg. fields_of Hg. subst g. split; eauto using get_unsigned_range. Qed.

Lemma admission_of_json_typed v a : admission_of_json v = Some a -> typed_admission a.
Proof.
  unfold admission_of_json. intros Ha. fields_of Ha. subst a. split_and!; eauto using get_unsigned_range.
  - eapply (get_optional_typed watermark_of_json); [apply watermark_of_json_typed|eassumption].
  - eapply (get_optional_typed binding_of_json); [apply binding_of_json_typed|eassumption].
Qed.

#[local] Instance sample_envelope_codec_laws : EnvelopeCodecLaws.
Proof.
  split.
  - intros h Hh. cbn [header_from_slice sample_envelope_codec]. rewrite read_text_to_vec by by apply plain_header.
    by apply header_of_header_json.
  - intros body h (v & _ & Hh)%bind_Some. by eapply header_of_json_typed.
Qed.

#[local] Instance sample_ingest_codec_laws : IngestCodecLaws.
Proof.
  split.
  - intros a Ha Hb Hr. cbn [admission_from_slice sample_ingest_codec]. rewrite read_text_to_vec by by apply plain_admission.
    by apply admission_of_admission_json.
  - intros body a (v & _ & Ha)%bind_Some. by eapply admission_of_json_typed.
Qed.

(** * A log *)

(** A checksum in the place of the hash. *)
Definition checksum (body : bytes) : Z := foldl (fun h b => Z.land (h * 16777619 + b + 1) 18446744073709551615) 14695981039346656037 body.
#[local] Instance sample_sha256 : Sha256 := { sha256 body := le_bytes 32 (checksum body) }.

#[local] Instance sample_sha256_laws : Sha256Laws.
Proof.
  split; [intros b; apply length_le_bytes|]. intros b. cbn [sha256 sample_sha256]. generalize (checksum b).
  generalize 32%nat as n. induction n as [|n IH]; intros z; constructor; [|apply IH].
  change 255 with (Z.ones 8). rewrite Z.land_ones by lia. apply Z.mod_pos_bound. lia.
Qed.

(** Batches of dates, written as JSON. *)
Definition batches_json (batches : list (list Z)) : Value := JArray (JArray ∘ fmap json_of_i64 <$> batches).
Definition batches_of_json (v : Value) : option (list (list Z)) :=
  match v with
  | JArray l => mapM (fun w => match w with JArray zs => mapM value_as_i64 zs | _ => None end) l
  | _ => None
  end.

Definition is_date32 (z : Z) : bool := in_range (- 2 ^ 31) (2 ^ 31 - 1) z.

#[local] Instance sample_arrow : ArrowIpc := {
  record_batch := list Z;
  batch_fields _ := [new_field "id" DInt64 false; new_field "day" DDate32 false; new_field "weight" DInt64 false];
  batch_metadata _ := ∅;
  arrow_error := unit;
  stream_write batches := if forallb (forallb is_i64) batches then Ok (to_vec (batches_json batches)) else Err tt;
  stream_read body := ok_or tt (v ← read_text body; batches_of_json v);
  int64_values _ _ := None;
  date32_values days name := if forallb is_date32 days then Some (Some <$> days) else None;
  timestamp_values _ _ := None
}.

Lemma i64_of_json z : is_i64 z = true -> value_as_i64 (json_of_i64 z) = Some z.
Proof. intros Hz. unfold json_of_i64. destruct (Z.ltb_spec z 0); cbn; [done|]. unfold checked_i64. by rewrite Hz. Qed.

Lemma batches_of_batches_json batches : forallb (forallb is_i64) batches = true ->
  plain_value (batches_json batches) = true /\ batches_of_json (batches_json batches) = Some batches.
Proof.
  intros Hall. unfold batches_json. cbn [batches_of_json plain_value].
  assert (forall zs, forallb is_i64 zs = true -> forallb plain_value (json_of_i64 <$> zs) = true /\
    mapM value_as_i64 (json_of_i64 <$> zs) = Some zs) as Hrow.
  { induction zs as [|z zs IH]; [done|]. cbn [forallb]. intros [Hz Hzs]%andb_true_iff. destruct (IH Hzs) as [Hp Hm].
    rewrite fmap_cons. cbn [forallb]. rewrite Hp, andb_true_r. split.
    - unfold json_of_i64. destruct (Z.ltb_spec z 0); cbn; unfold is_i64 in Hz; range.
    - cbn [mapM]. by rewrite i64_of_json, Hm. }
  induction batches as [|zs batches IH]; [done|]. cbn [forallb] in Hall. apply andb_true_iff in Hall as [Hzs Hall].
  destruct (IH Hall) as [Hp Hm], (Hrow zs Hzs) as [Hp' Hm']. rewrite fmap_cons. cbn [forallb]. rewrite Hp.
  split; [by rewrite andb_true_r|]. cbn [mapM compose]. rewrite Hm'. cbn [mbind option_bind]. by rewrite Hm.
Qed.

#[local] Instance sample_arrow_laws : ArrowIpcLaws.
Proof.
  split.
  - intros batches body _. cbn [stream_write stream_read sample_arrow]. destruct (forallb (forallb is_i64) batches) eqn:Hall; [|done].
    destruct (batches_of_batches_json batches Hall) as [Hp Hb]. intros Heq. apply (inj Ok) in Heq as <-.
    rewrite read_text_to_vec by done. cbn [mbind option_bind]. by rewrite Hb.
  - intros days name values v. cbn [date32_values sample_arrow]. destruct (forallb is_date32 days) eqn:Hall; [|done].
    intros [= <-] (z & [= ->] & Hz)%list_elem_of_fmap. rewrite forallb_forall in Hall. apply list_elem_of_In in Hz.
    specialize (Hall z Hz). unfold is_date32 in Hall. rewrite in_range_true in Hall. lia.
Qed.

Definition sample_schema : VelorixRelationSchemaV1 :=
  RelationSchema "orders" "orders" "v1"
    [Column "c0" "id" LInt64 PInt64 false 0 PrimaryKey; Column "c1" "day" LDate PDate32 false 1 EventTime;
     Column "c2" "weight" LInt64 PInt64 false 2 Weight]
    ["c0"] "c2" [InsertOp; DeleteOp] (Some "c1").

Definition sample_schema_to_vec (s : VelorixRelationSchemaV1) : option bytes := if bool_decide (s = sample_schema) then Some [1] else None.

Definition sample_fingerprint : string := sha256_text (SCHEMA_FINGERPRINT_V1_DOMAIN ++ [1]).
Definition sample_catalog : VelorixRelationCatalogV1 :=
  Catalog 1 sample_schema sample_fingerprint "orders" TableMode "orders" sample_fingerprint "incremental-adapter-generic-v1" SourceRelation.

#[local] Instance sample_relation_codec : RelationCodec := {
  schema_to_vec := sample_schema_to_vec;
  catalog_to_vec c := if bool_decide (c = sample_catalog) then Some [2] else None;
  catalog_from_slice body := if bool_decide (body = [2]) then Some sample_catalog else None
}.

#[local] Instance sample_relation_codec_laws : RelationCodecLaws.
Proof.
  split. intros s t b. cbn [schema_to_vec sample_relation_codec]. unfold sample_schema_to_vec.
  repeat case_bool_decide; congruence.
Qed.

Definition sample_store : objects := (run (create_catalog sample_catalog) ∅).2.

Definition sample_request (lo hi : Z) (w : option InputEventTimeWatermark) : IngestEnvelopeEncodeRequest :=
  EncodeRequest "orders" "v1" sample_fingerprint "orders" 3 lo hi w.
Definition sample_payload (lo hi : Z) : bytes :=
  match encode_batches (sample_request lo hi None) [[20000; 20001]] with Ok body => body | Err _ => [] end.

Definition sample_append (reserve_before : bool) (lo hi : Z) : prog (result IngestLogError AppendValidatedEnvelopeOutcome * cache) :=
  append_catalog_validated_envelope reserve_before (sample_payload lo hi) None.

(** Proves an equation by evaluating both sides. *)
Ltac evaluated := lazymatch goal with |- _ = ?r => vm_cast_no_check (eq_refl r) end.

(** * Three writers *)

(** At most [n] requests of program [i] on the store in memory. *)
Fixpoint advance {A} (n i : nat) (c : objects * list (prog A)) : objects * list (prog A) :=
  match n with
  | O => c
  | S n =>
      match c.2 !! i with
      | Some (Call q k) => let '(r, o) := memory_answer c.1 q in advance n i (o, <[i := k r]> c.2)
      | _ => c
      end
  end.

Lemma advance_steps {A} (startable : prog A -> Prop) n i c : steps_to startable c (advance n i c).
Proof.
  revert c. induction n as [|n IH]; intros [o ps]; cbn [advance fst snd]; [apply rtc_refl|].
  destruct (ps !! i) as [[a|q k]|] eqn:Hi; try apply rtc_refl.
  destruct (memory_answer o q) as [r o'] eqn:Hans. eapply rtc_l; [|apply IH].
  by apply (@step_call memory_store A startable o ps i q k r o').
Qed.

Lemma start_steps {A} (startable : prog A -> Prop) (o : objects) ps qs : Forall startable qs ->
  steps_to startable (o, ps) (o, ps ++ qs).
Proof.
  intros Hq. revert ps. induction Hq as [|q qs Hq _ IH]; intros ps; [rewrite app_nil_r; apply rtc_refl|].
  eapply rtc_l; [by apply (@step_start memory_store A startable o ps q)|].
  replace (ps ++ q :: qs) with ((ps ++ [q]) ++ qs) by by rewrite <-app_assoc. apply IH.
Qed.

Definition race (pause : nat) (reserve_before : bool) : objects * list (prog (result IngestLogError AppendValidatedEnvelopeOutcome * cache)) :=
  advance 100 0 (advance 100 2 (advance 100 1 (advance pause 0
    (sample_store, [sample_append reserve_before 0 10; sample_append reserve_before 20 30; sample_append reserve_before 5 15])))).

(** A call of a coordinator of its own. *)
Definition coordinator_append (reserve_before : bool) (q : prog (result IngestLogError AppendValidatedEnvelopeOutcome * cache)) : Prop :=
  exists payload, q = append_catalog_validated_envelope reserve_before payload None.

Definition sample_descriptor (lo hi : Z) : IngestBatchDescriptor :=
  match new_bootstrap_unchecked "orders" 3 lo hi [] with
  | Ok batch => b_descriptor batch
  | Err _ => Descriptor "" 0 0 0 (Key "")
  end.

Lemma sample_append_call reserve_before lo hi : coordinator_append reserve_before (sample_append reserve_before lo hi).
Proof. exists (sample_payload lo hi). unfold sample_append. reflexivity. Qed.

(** The results of the programs that have ended. *)
Definition outcomes {A C} (ps : list (prog (A * C))) : list (option A) :=
  (fun q => match q with Ret rc => Some rc.1 | Call _ _ => None end) <$> ps.

Lemma race_outcome reserve_before :
  outcomes (race 12 reserve_before).2 =
    [Some (Ok (Appended (sample_descriptor 0 10))); Some (Ok (Appended (sample_descriptor 20 30)));
     Some (Ok (Appended (sample_descriptor 5 15)))] /\
  (run list_committed (race 12 reserve_before).1).1 =
    Err (OverlappingCommittedRange "orders" 3 (d_object_key (sample_descriptor 0 10)) (d_object_key (sample_descriptor 5 15))).
Proof. destruct reserve_before; split; evaluated. Qed.

(** C40: Writers in different processes can commit ranges that overlap. The first
    reserves its range in the index and stops before it stores its admission
    record; the second reserves and stores a disjoint range, after which the index
    is loaded from a state that the first reservation is not reached from; the
    third is admitted to a range that overlaps the first, and the first goes on.
    All three report that they appended, and the log cannot be listed any more. *)
Theorem index_fence_admits_overlap reserve_before : exists o ps,
  steps_to (coordinator_append reserve_before) (sample_store, []) (o, ps) /\
  outcomes ps = [Some (Ok (Appended (sample_descriptor 0 10))); Some (Ok (Appended (sample_descriptor 20 30)));
     Some (Ok (Appended (sample_descriptor 5 15)))] /\
  (run list_committed o).1 =
    Err (OverlappingCommittedRange "orders" 3 (d_object_key (sample_descriptor 0 10)) (d_object_key (sample_descriptor 5 15))).
Proof.
  exists (race 12 reserve_before).1, (race 12 reserve_before).2. split; [|apply race_outcome].
  rewrite <-surjective_pairing. unfold race.
  etransitivity; [apply (start_steps _ _ [] [sample_append reserve_before 0 10; sample_append reserve_before 20 30; sample_append reserve_before 5 15])|].
  - repeat (apply Forall_cons_2; [apply sample_append_call|]). apply Forall_nil_2.
  - cbn [app]. do 3 (etransitivity; [|apply advance_steps]). apply advance_steps.
Qed.

(** * One writer at a time *)

Lemma serialized_run q (o : objects) : partition_call "orders" 3 q ->
  rtc (serialized_step "orders" 3) (o, None) ((run q o).2, None).
Proof.
  intros Hq. eapply rtc_l; [by apply (@serialized_start _ _ _ _ _ _ _ _ memory_store)|]. clear Hq.
  revert o. induction q as [a|c k IH]; intros o; cbn [run].
  - apply rtc_once. exact (@serialized_end _ _ _ _ _ _ _ _ memory_store o (Ret a)).
  - destruct (memory_answer o c) as [r o'] eqn:Hc. eapply rtc_l; [|apply (IH r o')].
    by apply (@serialized_request _ _ _ _ _ _ _ _ memory_store o c k r o').
Qed.

Definition sample_call (lo hi : Z) : prog unit := bind (sample_append false lo hi) (fun _ => Ret tt).

(** Whether the payload is an envelope of partition 3 of [orders]. *)
Definition of_orders (payload : bytes) : bool :=
  match decode payload with
  | Ok e => String.eqb (h_stream_id (without_digest (header e))) "orders" && (h_partition_id (without_digest (header e)) =? 3)
  | Err _ => true
  end.

Lemma of_orders_own payload : of_orders payload = true -> own_payload "orders" 3 payload.
Proof. unfold of_orders, own_payload. intros Hp e He. rewrite He in Hp. by rewrite andb_true_iff, String.eqb_eq, Z.eqb_eq in Hp. Qed.

Lemma sample_call_ok lo hi : of_orders (sample_payload lo hi) = true -> partition_call "orders" 3 (sample_call lo hi).
Proof.
  intros Hp. unfold sample_call, sample_append, append_catalog_validated_envelope. apply call_append; [|done].
  by apply of_orders_own.
Qed.

Definition sample_log : objects := (run (sample_call 10 20) (run (sample_call 0 10) sample_store).2).2.

Lemma sample_log_reached : rtc (serialized_step "orders" 3) (sample_store, None) (sample_log, None).
Proof. etransitivity; apply serialized_run, sample_call_ok; evaluated. Qed.

Lemma sample_store_fresh : fresh_partition "orders" 3 sample_store.
Proof.
  assert (sample_store = {[ "v1/" +:+ "relations/orders/versions/v1.relation.json" := [2] ]}) as -> by evaluated.
  intros lo hi. destruct (batch_text_shape "orders" 3 lo hi) as [r ->], (record_text_shape "orders" 3 lo hi) as [r' ->].
  split; apply lookup_singleton_ne; change "v1/ingest" with ("v1/" +:+ "ingest"); rewrite append_assoc;
    intros Heq%append_cancel_l; discriminate Heq.
Qed.

Definition committedb (o : objects) (d : IngestBatchDescriptor) : bool :=
  match parse_ingest_descriptor (located d) with Ok d' => bool_decide (d' = d) | Err _ => false end &&
  bool_decide (d_stream_id d = "orders") && bool_decide (d_partition_id d = 3) && bool_decide (is_Some (o !! located d)).

Lemma committedb_ok o d : committedb o d = true -> committed_batch "orders" 3 o d.
Proof.
  unfold committedb, committed_batch. rewrite !andb_true_iff, !bool_decide_eq_true. intros [[[Hd Hs] Hp] Hb].
  split_and!; [|done..]. destruct (parse_ingest_descriptor _) as [d'|] eqn:Hparse; [|done].
  apply bool_decide_eq_true in Hd as ->. by apply parse_ingest_descriptor_ok in Hparse as [? _].
Qed.

Lemma sample_log_committed : committed_batch "orders" 3 sample_log (sample_descriptor 0 10) /\
  committed_batch "orders" 3 sample_log (sample_descriptor 10 20).
Proof. split; apply committedb_ok; evaluated. Qed.

Lemma serialized_admission_keeps_ranges_apart_witness :
  committed_batch "orders" 3 sample_log (sample_descriptor 0 10) /\ committed_batch "orders" 3 sample_log (sample_descriptor 10 20) /\
  (d_end_offset_exclusive (sample_descriptor 0 10) <= d_start_offset_inclusive (sample_descriptor 10 20) \/
   d_end_offset_exclusive (sample_descriptor 10 20) <= d_start_offset_inclusive (sample_descriptor 0 10)) /\
  exists body a, stored_admission sample_log body a /\ descriptor_of a = sample_descriptor 0 10.
Proof.
  destruct sample_log_committed as [Hd He].
  destruct (@serialized_admission_keeps_ranges_apart _ _ _ _ _ _ _ _ "orders" 3 memory_store _ sample_store sample_log None
    sample_store_fresh sample_log_reached) as [Hdisj Hadm].
  split_and!; [exact Hd|exact He| |exact (Hadm _ Hd)]. apply (Hdisj _ _ Hd He). vm_compute. congruence.
Defined.

(** * Lists and replays *)

Definition sample_committed : list IngestBatchDescriptor := [sample_descriptor 0 10; sample_descriptor 10 20].

Lemma sample_listed : run list_committed sample_log = (Ok sample_committed, sample_log).
Proof. evaluated. Qed.

Lemma list_committed_exact_witness : committed_in sample_log sample_committed.
Proof.
  apply (proj2 list_committed_exact sample_log sample_committed). exact sample_listed.
Defined.

(** Replay from offset 10 of the partition. *)
Definition sample_checkpoints : list ReplayCheckpoint := [Checkpoint None None "orders" 3 10].

Lemma sample_uncut : Forall (uncut sample_checkpoints) sample_committed.
Proof.
  assert (forall d, d ∈ sample_committed -> cp_key (Checkpoint None None "orders" 3 10) = (d_stream_id d, d_partition_id d) /\
    (d_end_offset_exclusive d <= 10 \/ 10 <= d_start_offset_inclusive d)) as Hall.
  { intros d [-> |[-> |Hd%not_elem_of_nil]%elem_of_cons]%elem_of_cons; [vm_compute; split; [done|by left]|vm_compute; split; [done|by right]|done]. }
  apply Forall_forall. intros d Hd from Hfrom. destruct (Hall d Hd) as [Hkey Hcut].
  destruct Hfrom as [[(c & ->%list_elem_of_singleton & _ & <-) _]|[_ Hnone]]; [exact Hcut|].
  destruct (Hnone (Checkpoint None None "orders" 3 10)); [left|exact Hkey].
Qed.

Lemma replay_exact_witness : exists bs, run (replay_from sample_checkpoints) sample_log = (Ok bs, sample_log) /\
  replays sample_checkpoints sample_committed bs sample_log.
Proof.
  apply (proj2 (replay_exact sample_checkpoints) sample_log sample_committed).
  - apply list_committed_run. exact sample_listed.
  - apply NoDup_singleton.
  - exact sample_uncut.
Defined.

Definition ok_value {E A} (r : result E A) : option A := match r with Ok a => Some a | Err _ => None end.

Definition sample_replayed : list IngestBatch :=
  default [] (ok_value (run (replay_admitted_validated_envelopes_from sample_checkpoints) sample_log).1).

Lemma sample_replay : run (replay_admitted_validated_envelopes_from sample_checkpoints) sample_log = (Ok sample_replayed, sample_log) /\
  b_descriptor <$> sample_replayed = [sample_descriptor 10 20].
Proof. split; evaluated. Qed.

Lemma replay_admitted_backed_witness : exists o ds, sample_log ⊆ o /\ o ⊆ sample_log /\ committed_in o ds /\
  replays sample_checkpoints ds sample_replayed sample_log /\ Forall (backed sample_log) sample_replayed.
Proof.
  destruct (run_exec (fun _ _ => False) (replay_admitted_validated_envelopes_from sample_checkpoints) sample_log) as [trace Hex].
  rewrite (proj1 sample_replay) in Hex.
  exact (replay_admitted_backed sample_checkpoints _ _ _ _ _ (fun _ _ => False_ind _) Hex).
Defined.

(** * Envelopes, catalogs and event times *)

Definition sample_days : record_batch := [20000; 20001].
Definition sample_batches : list record_batch := [sample_days].
Definition sample_encoded : EncodedIngestEnvelope :=
  default (Encoded [] (Header (request_header (sample_request 0 10 None)) ""))
    (ok_value (encode_batches_with_header (sample_request 0 10 None) sample_batches)).

Lemma sample_encodes : encode_batches_with_header (sample_request 0 10 None) sample_batches = Ok sample_encoded.
Proof. evaluated. Qed.

Lemma sample_header_typed w : match w with Some w => typed_watermark w | None => True end ->
  typed_header (request_header (sample_request 0 10 w)).
Proof. by repeat split. Qed.

Lemma envelope_round_trip_witness : exists envelope, decode (encoded_bytes sample_encoded) = Ok envelope /\
  header envelope = encoded_header sample_encoded /\ without_digest (header envelope) = request_header (sample_request 0 10 None) /\
  record_batches envelope = Ok sample_batches.
Proof. exact (envelope_round_trip _ _ _ (sample_header_typed None I) sample_encodes). Defined.

Definition sample_envelope : IngestEnvelope :=
  default (Envelope (Header (request_header (sample_request 0 10 None)) "") []) (ok_value (decode (encoded_bytes sample_encoded))).

Lemma sample_decodes : decode (encoded_bytes sample_encoded) = Ok sample_envelope.
Proof. evaluated. Qed.

Lemma envelope_digest_pins_content_witness : sample_envelope = sample_envelope \/ collide (digested sample_envelope) (digested sample_envelope).
Proof. exact (envelope_digest_pins_content _ _ _ _ sample_decodes sample_decodes eq_refl). Defined.

Lemma sample_catalog_valid : validate_catalog sample_catalog = Ok tt.
Proof. evaluated. Qed.

Lemma valid_catalog_arrow_schema_witness :
  (exists metadata, datafusion_schema_from_catalog sample_catalog = Ok (arrow_fields sample_catalog, metadata)) /\
  (forall fields, validate_record_batch_matches_catalog sample_catalog fields = Ok tt <-> fields = arrow_fields sample_catalog).
Proof. destruct (valid_catalog_arrow_schema sample_catalog sample_catalog_valid) as (Hs & _ & _ & _ & Hb). split; [exact Hs|exact Hb]. Defined.

Lemma fingerprint_pins_schema_witness : relation_schema sample_catalog = relation_schema sample_catalog \/
  exists b b', schema_to_vec (relation_schema sample_catalog) = Some b /\ schema_to_vec (relation_schema sample_catalog) = Some b' /\
    collide (SCHEMA_FINGERPRINT_V1_DOMAIN ++ b) (SCHEMA_FINGERPRINT_V1_DOMAIN ++ b').
Proof. exact (fingerprint_pins_schema _ _ sample_catalog_valid sample_catalog_valid eq_refl eq_refl eq_refl). Defined.

(** A header with a watermark for the column of dates. *)
Definition sample_watermarked (max_observed : Z) : HeaderWithoutDigest :=
  request_header (sample_request 0 10 (Some (Watermark "orders" 3 "c1" max_observed 0))).
Definition sample_column : RelationColumnV1 := Column "c1" "day" LDate PDate32 false 1 EventTime.

Lemma event_time_watermark_covers_witness :
  event_time_ns sample_column 20001 <= 1728086400000000000.
Proof.
  apply (event_time_watermark_covers (sample_watermarked 1728086400000000000) (Watermark "orders" 3 "c1" 1728086400000000000 0)
    sample_catalog sample_batches "c1" sample_column) with (b := sample_days) (vs := [Some 20000; Some 20001]).
  - reflexivity.
  - evaluated.
  - reflexivity.
  - reflexivity.
  - intros _ b vs v ->%list_elem_of_singleton [= <-] Hv. unfold DATE32_NANOS_MAX.
    apply elem_of_cons in Hv as [[= ->]|[[= ->]|Hv%not_elem_of_nil]%elem_of_cons]; [lia|lia|done].
  - left.
  - evaluated.
  - right. left.
Defined.

(** A date more than 106751 days after the epoch makes the number of nanoseconds
    wrap around: a watermark that is centuries below the event time of the batch
    passes the check. *)
Theorem date32_event_time_wraps : exists days,
  validate_event_time_watermark_against_catalog_and_batches (sample_watermarked 0) sample_catalog [[days]] = Ok tt /\
  column_values sample_column [days] = Some [Some days] /\ 0 < event_time_ns sample_column days.
Proof. exists 106752. split_and!; [evaluated|evaluated|by vm_compute]. Qed.

(** * Objects stay *)

Definition sample_location : string := as_str (d_object_key (sample_descriptor 0 10)).

Definition sample_first : objects := (run (sample_call 0 10) sample_store).2.

Lemma sample_first_stored : sample_first !! sample_location = Some (sample_payload 0 10).
Proof. evaluated. Qed.

Lemma sample_call_operation lo hi : log_operation (sample_call lo hi).
Proof. unfold sample_call, sample_append, append_catalog_validated_envelope. by apply op_coordinator. Qed.

(** A batch that is appended stays when a range that overlaps it is appended. *)
Lemma ingest_objects_stay_witness : (run (sample_call 5 15) sample_first).2 !! sample_location = Some (sample_payload 0 10).
Proof.
  pose proof (run_steps log_operation (sample_call 5 15) sample_first [] (sample_call_operation 5 15)) as Hsteps.
  revert Hsteps. generalize (run (sample_call 5 15) sample_first). intros r Hsteps.
  exact (@ingest_objects_stay _ _ _ _ _ _ memory_store _ sample_first r.2 ([] ++ [Ret r.1]) Hsteps sample_location _ sample_first_stored).
Defined.
