(* ===== verification/MetaSamples.v ===== *)
(** The metadata service at work: an input that is reserved, committed and published,
    a view that is bootstrapped and activated, owners that follow each other, and what
    the theorems about the service say of these runs. *)
From S2P Require Import Prelude BTree Json Digits Segments ObjectKey Hash Relation Serde JsonText StandingProgram MetaTypes SourceCut SourceCutProofs RelationCutProofs ViewBootstrap MetaRequests MetaStore MetaMachine MetaFencing MetaViews MetaIngest MetaRelation IngestSamples.

#[local] Existing Instance plain_json.
#[local] Existing Instance sample_sha256.
#[local] Existing Instance sample_relation_codec.

(** Views without plans; every endpoint parses and every registry is small. *)
#[local] Instance sample_bindings : ViewBindings := {
  logical_plan := unit;
  published_relation := unit;
  input_binding := unit
}.
#[local] Instance sample_env : MetaEnv := {
  endpoint_from_shared _ := true;
  snapshot_to_vec_len s := Some (Z.of_nat (length (vt_records s)))
}.

(** * Runs *)

(** Commands with the time they are evaluated at, which is also the tick of the
    authority clock. *)
Definition performed (s : InMemoryMetaState) (step : Z * command) : InMemoryMetaState :=
  perform (Ok step.1) step.2 (with_partition_authority_now_unix_ms step.1 s).
Definition after (s : InMemoryMetaState) (steps : list (Z * command)) : InMemoryMetaState := foldl performed s steps.

Lemma after_steps steps s : meta_steps s (after s steps).
Proof.
  revert s. induction steps as [|[now c] steps IH]; intros s; [apply rtc_refl|]. cbn.
  eapply rtc_l; [apply (StepTick _ now)|]. eapply rtc_l; [apply (StepCommand _ (Ok now) c)|]. apply IH.
Qed.
Lemma after_reachable steps : reachable (after default_state steps).
Proof. apply after_steps. Qed.
Lemma after_app_steps l l' : meta_steps (after default_state l) (after default_state (l ++ l')).
Proof. unfold after. rewrite foldl_app. apply after_steps. Qed.

(** * Ingest *)

Definition orders : IngestSourceRelationIdentityV1 := RelationIdentity "orders" "v1" 1 "fingerprint".
Definition orders_range (lo hi : Z) (batch_key : string) : IngestRangeReservation :=
  Reservation "stream" 0 lo hi batch_key "digest" "orders" "v1" "fingerprint" 1.

(** A hole after offset 20, and a range that is not committed before it. *)
Definition ingested : list (Z * command) :=
  [(1, ReserveIngestRange (orders_range 5 10 "b1")); (2, CommitIngestRange (orders_range 5 10 "b1"));
   (3, ReserveIngestRange (orders_range 10 15 "b2")); (4, CommitIngestRange (orders_range 10 15 "b2"));
   (5, ReserveIngestRange (orders_range 15 20 "b3")); (6, ReserveIngestRange (orders_range 30 40 "b4"))].

Example ingested_cut : (capture_ingest_source_cut (CaptureCut [orders]) (after default_state ingested)).1 =
  Ok (SourceCut 1 4 [RelationCut orders [PartitionCut "stream" 1 0 1 5 15]]).
Proof. evaluated. Qed.

(** * A view *)

Definition hash_of (text : string) : string := sha256_text (as_bytes text).

Definition orders_coverage (processed : Z) : RuntimeCheckpointInputCoverageV1 :=
  InputCoverage 1 1 "plan" 4 [RelationCoverage "orders" "v1" 1 "fingerprint" [PartitionCoverage "stream" 1 0 1 5 processed]].

Definition view_pointer (previous : option StandingRuntimeCheckpointPointer) (epoch processed : Z) : StandingRuntimeCheckpointPointer :=
  let content := hash_of "content" in
  CheckpointPointer None "tenant" "program" "view"
    match standing_runtime_checkpoint "tenant" "program" "view" epoch content with Ok (Key k) => k | Err _ => "" end
    epoch content (hash_of "manifest") [] 1 "plan"
    match stable_hash (orders_coverage processed) with Ok h => h | Err _ => "" end
    (Some (orders_coverage processed))
    match previous with Some p => cp_checkpoint_key p | None => "" end
    match previous with Some p => cp_manifest_hash p | None => "" end.
Definition first_pointer : StandingRuntimeCheckpointPointer := view_pointer None 1 15.
Definition second_pointer : StandingRuntimeCheckpointPointer := view_pointer (Some first_pointer) 2 20.

Definition owner_a : StandingRuntimeOwnerToken := OwnerToken "tenant" "program" "view" "a" 1.
Definition owner_b : StandingRuntimeOwnerToken := OwnerToken "tenant" "program" "view" "b" 2.
Definition view_key : scope := ("tenant", "program", "view").

Definition bootstrapped : list (Z * command) :=
  ingested ++
  [(10, BeginViewBootstrap (BeginBootstrap "tenant" "program" "view" "plan" [1] [orders] [] 0));
   (11, AcquireStandingRuntimeOwner (AcquireOwner "tenant" "program" "view" "a" 1000));
   (12, PublishStandingRuntimeCheckpoint (PublishCheckpoint None first_pointer owner_a None))].
Definition fix_request : FixViewBootstrapActivationCutRequest := FixActivationCut "tenant" "program" "view" 1 "plan" owner_a.
Definition activation : list (Z * command) :=
  [(13, CommitIngestRange (orders_range 15 20 "b3"));
   (14, FixViewBootstrapActivationCut fix_request);
   (15, PublishStandingRuntimeCheckpoint (PublishCheckpoint (Some first_pointer) second_pointer owner_a None));
   (16, PromoteViewBootstrap (PromoteBootstrap "tenant" "program" "view" 1 "plan" second_pointer owner_a))].
Definition activated : list (Z * command) := bootstrapped ++ activation.

Definition lifecycle_of (s : InMemoryMetaState) : option (ViewBootstrapLifecycleV1 * option IngestSourceCutV1) :=
  (fun c => (vw_lifecycle c, vw_activation_cut c)) <$> view_bootstraps s !! view_key.

Example activated_view : lifecycle_of (after default_state activated) =
  Some (ActiveView, Some (SourceCut 1 4 [RelationCut orders [PartitionCut "stream" 1 0 1 5 20]])).
Proof. evaluated. Qed.

(** The states that the witnesses speak of. They are evaluated only by [evaluated]. *)
Definition active_state : InMemoryMetaState := after default_state activated.
Lemma active_reachable : reachable active_state.
Proof. exact (after_reachable activated). Qed.
Definition bootstrapped_state : InMemoryMetaState := after default_state bootstrapped.
Lemma bootstrapped_reachable : reachable bootstrapped_state.
Proof. exact (after_reachable bootstrapped). Qed.
Lemma bootstrapped_active : meta_steps bootstrapped_state active_state.
Proof. exact (after_app_steps bootstrapped activation). Qed.
#[local] Opaque active_state bootstrapped_state.

Lemma summary_some {A B} (f : A -> B) (o : option A) b : f <$> o = Some b -> exists a, o = Some a /\ f a = b.
Proof. destruct o as [a|]; [|done]. intros [= <-]. by exists a. Qed.

Lemma active_view_covered_witness :
  exists c a p p', view_bootstraps active_state !! view_key = Some c /\ vw_activation_cut c = Some a /\
    vw_active_checkpoint c = Some p /\
    checkpoint_covers_source_cut p a = true /\ checkpoint_covers_source_cut p (vw_bootstrap_cut c) = true /\
    (vw_view_inputs c = [] \/ exists progress, cp_published_input_bootstrap p = Some progress /\
      matches_control progress c = true /\ is_complete progress = true) /\
    standing_runtime_checkpoints active_state !! view_key = Some p' /\ rtc succeeds p p'.
Proof.
  destruct (summary_some vw_lifecycle (view_bootstraps active_state !! view_key) ActiveView) as (c & Hc & Hl); [evaluated|].
  pose proof (active_view_covered active_state view_key c active_reachable Hc Hl) as (a & p & p' & Hrest).
  exists c, a, p, p'. exact (conj Hc Hrest).
Defined.

(** ** Pointers and bootstraps *)

Lemma bootstrapped_checkpoint : standing_runtime_checkpoints bootstrapped_state !! view_key = Some first_pointer.
Proof. evaluated. Qed.
Lemma active_checkpoint : standing_runtime_checkpoints active_state !! view_key = Some second_pointer.
Proof. evaluated. Qed.

Lemma checkpoint_lineage_witness :
  rtc succeeds first_pointer second_pointer /\ progress_kept (cp_published_input_bootstrap first_pointer) (cp_published_input_bootstrap second_pointer).
Proof.
  destruct (checkpoint_lineage bootstrapped_state active_state view_key first_pointer bootstrapped_active bootstrapped_checkpoint)
    as (p & Hp & Hl & _ & _ & Hk).
  rewrite active_checkpoint in Hp. apply (inj Some) in Hp as <-. exact (conj Hl Hk).
Defined.

Lemma bootstrap_immutable_witness :
  exists c c', view_bootstraps bootstrapped_state !! view_key = Some c /\ vw_lifecycle c = Bootstrapping /\
    view_bootstraps active_state !! view_key = Some c' /\ control_le c c'.
Proof.
  destruct (summary_some vw_lifecycle (view_bootstraps bootstrapped_state !! view_key) Bootstrapping) as (c & Hc & Hl); [evaluated|].
  destruct (bootstrap_immutable bootstrapped_state active_state view_key c bootstrapped_active Hc) as (c' & Hc' & Hle).
  exists c, c'. exact (conj Hc (conj Hl (conj Hc' Hle))).
Defined.

Lemma source_cut_exact_witness :
  exists cut, capture_ingest_source_cut (CaptureCut [orders]) bootstrapped_state = (Ok cut, bootstrapped_state) /\
    Forall (relation_exact (committed_ingest_batch_keys bootstrapped_state)
      (all_reservations (ingest_reservations bootstrapped_state))) (cut_relations cut).
Proof.
  destruct (source_cut_exact bootstrapped_state (CaptureCut [orders]) bootstrapped_reachable) as (cut & Hcut & _ & _ & Hex);
    [evaluated|]. exists cut. exact (conj Hcut Hex).
Defined.

Lemma bootstrapped_owned : owned (Ok 13) bootstrapped_state view_key owner_a.
Proof. exists 13. split; [done|]. evaluated. Qed.

Lemma activation_cut_fixable_witness :
  exists control cut, source_cut_covers cut (vw_bootstrap_cut control) = true /\
    fix_view_bootstrap_activation_cut (Ok 13) fix_request bootstrapped_state =
      (Ok (BootstrapDone (set_activation_cut cut control)),
       with_view_bootstraps (<[view_key := set_activation_cut cut control]> (view_bootstraps bootstrapped_state)) bootstrapped_state).
Proof.
  destruct (summary_some (fun c => (names_bootstrap c 1 "plan" owner_a view_key, vw_activation_cut c, vw_lifecycle c,
      vw_bootstrap_generation c, vw_plan_hash c, checkpoint_covers_source_cut first_pointer (vw_bootstrap_cut c)))
    (view_bootstraps bootstrapped_state !! view_key) (true, None, Bootstrapping, 1, "plan", true)) as (c & Hc & E); [evaluated|].
  injection E as Hn Ha Hl Hg Hp Hcov.
  destruct (activation_cut_fixable (Ok 13) bootstrapped_state fix_request c first_pointer bootstrapped_reachable) as (cut & Hcut).
  - evaluated.
  - evaluated.
  - exact bootstrapped_owned.
  - exact Hc.
  - exact Hn.
  - exact Ha.
  - exact Hl.
  - exact bootstrapped_checkpoint.
  - rewrite Hg. evaluated.
  - rewrite Hp. evaluated.
  - exact Hcov.
  - exists c, cut. exact Hcut.
Defined.

(** * Takeovers *)

(** The owners of the view and the authorities of its partition and of the relation
    partition pass from [a] to [b] once their leases have run out. *)
Definition partition_key_of_view : PartitionAuthorityKey := AuthorityKey "namespace" "view" "stream" 0.
Definition relation_key : RelationPartitionAuthorityKey := RelationAuthorityKey "namespace" "orders" "stream" 0.
Definition taken_over : list (Z * command) :=
  [(1, AcquireStandingRuntimeOwnerWithEndpoint (AcquireOwner "tenant" "program" "view" "a" 10) "http://host");
   (1, AcquirePartitionAuthority (AcquireAuthority partition_key_of_view "a" None 10));
   (1, AcquireRelationPartitionAuthority (AcquireRelationAuthority relation_key "a" None 10));
   (20, AcquireStandingRuntimeOwnerWithEndpoint (AcquireOwner "tenant" "program" "view" "b" 1000) "http://host");
   (20, AcquirePartitionAuthority (AcquireAuthority partition_key_of_view "b" None 1000));
   (20, AcquireRelationPartitionAuthority (AcquireRelationAuthority relation_key "b" None 1000))].
Definition later_writes : list (Z * command) :=
  [(21, ReserveAuthoritativeIngestRange (ReserveAuthoritative (orders_range 0 10 "b1") (AuthorityToken partition_key_of_view "b" 2 1020)));
   (22, PublishIngestReservation (PublishReservation (orders_range 0 10 "b1") (AuthorityToken partition_key_of_view "b" 2 1020) "r1" "d1" "o1" "h1"))].

Definition taken_state : InMemoryMetaState := after default_state taken_over.
Definition written_state : InMemoryMetaState := after default_state (taken_over ++ later_writes).
Lemma taken_reachable : reachable taken_state.
Proof. exact (after_reachable taken_over). Qed.
Lemma taken_written : meta_steps taken_state written_state.
Proof. exact (after_app_steps taken_over later_writes). Qed.
#[local] Opaque taken_state written_state.

Definition claim_b : StandingRuntimeOwnerClaim := OwnerClaim "tenant" "program" "view" "b" (Some "http://host") 2 1020.
Lemma taken_owner : standing_runtime_owners taken_state !! view_key = Some claim_b.
Proof. evaluated. Qed.

Lemma superseded_owner_fenced_witness : fenced_out owner_a written_state.
Proof.
  apply (superseded_owner_fenced taken_state written_state owner_a claim_b taken_reachable taken_written taken_owner).
  left. cbn. lia.
Defined.

Lemma superseded_authority_fenced_witness :
  (publish_ingest_reservation (PublishReservation (orders_range 0 10 "b1") (AuthorityToken partition_key_of_view "a" 1 11)
    "r2" "d2" "o2" "h2") written_state).2 = written_state.
Proof.
  eapply (superseded_authority_fenced taken_state written_state (AuthorityToken partition_key_of_view "a" 1 11)
    (AuthorityToken partition_key_of_view "b" 2 1020) taken_written); [evaluated|]. left. cbn. lia.
Defined.

Lemma superseded_relation_authority_fenced_witness :
  reserve_relation_authoritative_ingest_range (ReserveRelation (orders_range 10 20 "b2") (RelationAuthorityToken relation_key "a" 1 11))
    written_state = (Ok RangeConflict, written_state).
Proof.
  eapply (superseded_relation_authority_fenced taken_state written_state (RelationAuthorityToken relation_key "a" 1 11)
    (RelationAuthorityToken relation_key "b" 2 1020) taken_written); [evaluated| |evaluated]. left. cbn. lia.
Defined.

(** A process that restarts under a new name on its endpoint takes over a running lease. *)
Definition restart : command := ReacquireStandingRuntimeOwner (ReacquireOwner claim_b "c" "http://host" 1000).
Definition claim_c : StandingRuntimeOwnerClaim := OwnerClaim "tenant" "program" "view" "c" (Some "http://host") 3 1021.
Lemma live_owner_kept_witness :
  (oc_owner_id claim_c = oc_owner_id claim_b /\ oc_owner_epoch claim_c = oc_owner_epoch claim_b) \/
  (oc_owner_epoch claim_c = oc_owner_epoch claim_b + 1 /\
   is_Some (oc_owner_endpoint claim_b) /\ oc_owner_endpoint claim_c = oc_owner_endpoint claim_b).
Proof.
  apply (live_owner_kept 21 restart taken_state view_key claim_b claim_c taken_owner); [cbn; lia|evaluated].
Defined.

(** * Publications *)

Definition publication_1 : AuthoritativeIngestPublication :=
  Publication (orders_range 0 10 "b1") partition_key_of_view "r1" "d1" "o1" "h1".
Lemma written_reachable : reachable written_state.
Proof. exact (reachable_steps _ _ taken_reachable taken_written). Qed.

Lemma published_once_witness :
  authoritative_ingest_publications written_state !! "r1" = Some publication_1 /\
  forall id p, authoritative_ingest_publications written_state !! id = Some p ->
    partition_of (p_reservation p) = ("stream", 0) -> overlaps (orders_range 0 10 "b1") (p_reservation p) = true ->
    id = "r1" /\ p = publication_1.
Proof.
  split; [evaluated|]. intros id p Hp Hpart Ho.
  destruct (published_once written_state written_state written_reachable (rtc_refl _ _)) as [Hpub _].
  destruct (Hpub "r1" id publication_1 p) as [<- <-]; [evaluated|exact Hp|symmetry; exact Hpart|exact Ho|]. by split.
Defined.

Definition token_b : RelationPartitionAuthorityToken := RelationAuthorityToken relation_key "b" 2 1020.
Definition relation_writes : list (Z * command) :=
  [(21, ReserveRelationAuthoritativeIngestRange (ReserveRelation (orders_range 0 10 "b1") token_b));
   (22, PublishRelationIngestReservation (PublishRelation (orders_range 0 10 "b1") token_b "r1" "d1" "o1" "h1"));
   (23, ReserveRelationAuthoritativeIngestRange (ReserveRelation (orders_range 10 20 "b2") token_b));
   (24, PublishRelationIngestReservation (PublishRelation (orders_range 10 20 "b2") token_b "r2" "d2" "o2" "h2"))].
Definition related_state : InMemoryMetaState := after default_state (taken_over ++ relation_writes).
Lemma related_reachable : reachable related_state.
Proof. exact (after_reachable (taken_over ++ relation_writes)). Qed.
#[local] Opaque related_state.

Definition orders_cut : RelationIngestSourceIdentityCutV1 :=
  IdentityCut orders (RelationSourceCut 1 "namespace" "orders"
    [RelationPartitionCut "stream" 0 0 20
      [PublicationRef "r1" 0 10 "b1" "digest" "o1" "h1"; PublicationRef "r2" 10 20 "b2" "digest" "o2" "h2"]]).

Lemma relation_cuts_exact_witness :
  capture_relation_ingest_source_cuts (CaptureRelationCuts "namespace" [orders]) related_state = (Ok [orders_cut], related_state) /\
  (exists id p, relation_authoritative_ingest_publications related_state !! id = Some p /\
    p_reservation p = orders_range 10 20 "b2").
Proof.
  assert (capture_relation_ingest_source_cuts (CaptureRelationCuts "namespace" [orders]) related_state = (Ok [orders_cut], related_state))
    as Hcut by (apply injective_projections; evaluated).
  split; [exact Hcut|]. destruct (relation_cuts_exact related_state _ _ related_reachable Hcut) as [_ Hc].
  destruct (Hc orders_cut) as (_ & _ & Hall); [left|]. apply (Hall (orders_range 10 20 "b2") relation_key); evaluated.
Defined.

(** * Registries *)

Definition registry_scope : ActiveViewRegistryScopeV1 := RegistryScope "store" "namespace".
Definition record_at (view_id path : string) : ActiveMaterializedViewRecord :=
  ViewRecord 1 view_id "spec" None (Some (ApiMetadata None (Some path) None [] None None [] None)) None None None.
Definition imported : list (Z * command) :=
  [(1, ImportActiveViewRegistry (ImportRegistry registry_scope [record_at "v1" "/one"; record_at "v2" "/two/"]))].
Definition edited : list (Z * command) :=
  [(2, CreateActiveViewRecord (CreateRecord registry_scope (record_at "v3" "/two")));
   (3, CompareExchangeActiveViewRecord (CompareExchangeRecord registry_scope "v2" 1 (record_at "v2" "/three") None));
   (4, CreateActiveViewRecord (CreateRecord registry_scope (record_at "v3" "/two")))].
Definition imported_state : InMemoryMetaState := after default_state imported.
Definition edited_state : InMemoryMetaState := after default_state (imported ++ edited).
Lemma edited_reachable : reachable edited_state.
Proof. exact (after_reachable (imported ++ edited)). Qed.
Lemma imported_edited : meta_steps imported_state edited_state.
Proof. exact (after_app_steps imported edited). Qed.
#[local] Opaque imported_state edited_state.

(** The second path of [v2] makes room for [v3]: two revisions. *)
Lemma registry_readable_witness :
  exists r records, vg_snapshot_revision r = 3 /\
    read_active_view_registry_snapshot registry_scope edited_state = (Ok (RegistrySnapshot 3 true records), edited_state) /\
    records ≡ₚ (map_to_list (vg_records r)).*2.
Proof.
  destruct (summary_some vg_snapshot_revision (active_view_registries edited_state !! registry_scope) 3) as (r & Hr & Hrev); [evaluated|].
  destruct (registry_readable edited_state registry_scope r edited_reachable Hr) as (records & Hread & Hperm & _); [evaluated|].
  exists r, records. rewrite Hrev in Hread. exact (conj Hrev (conj Hread Hperm)).
Defined.

Lemma registry_revision_identifies_witness :
  exists r r', active_view_registries imported_state !! registry_scope = Some r /\
    active_view_registries edited_state !! registry_scope = Some r' /\ vg_snapshot_revision r <= vg_snapshot_revision r'.
Proof.
  destruct (summary_some vg_snapshot_revision (active_view_registries imported_state !! registry_scope) 1) as (r & Hr & _); [evaluated|].
  destruct (registry_revision_identifies imported_state edited_state registry_scope r imported_edited Hr) as (r' & Hr' & _ & Hle & _).
  exists r, r'. exact (conj Hr (conj Hr' Hle)).
Defined.

(** * Ranges that arrive late *)

(** The authority of the partition reserves a range below the base that the bootstrap
    of the view was sealed with. *)
Definition lower_range : IngestRangeReservation := orders_range 0 5 "b0".
Definition lowered : list (Z * command) :=
  bootstrapped ++
  [(13, AcquirePartitionAuthority (AcquireAuthority partition_key_of_view "a" None 1000));
   (14, ReserveAuthoritativeIngestRange (ReserveAuthoritative lower_range (AuthorityToken partition_key_of_view "a" 1 1013)))].
Definition lowered_state : InMemoryMetaState := after default_state lowered.
Lemma lowered_reachable : reachable lowered_state.
Proof. exact (after_reachable lowered). Qed.
Lemma lowered_then l : meta_steps lowered_state (after lowered_state l).
Proof. exact (after_steps l lowered_state). Qed.
#[local] Opaque lowered_state.

Lemma lower_range_blocks_activation_witness :
  (reserve_ingest_range lower_range bootstrapped_state).1 = Ok RangeConflict /\
  forall l, exists c, view_bootstraps (after lowered_state l) !! view_key = Some c /\ vw_activation_cut c = None /\
    vw_lifecycle c = Bootstrapping.
Proof.
  split; [evaluated|]. intros l.
  destruct (summary_some (fun c => (vw_activation_cut c, vw_lifecycle c, below_base lower_range (vw_bootstrap_cut c)))
    (view_bootstraps lowered_state !! view_key) (None, Bootstrapping, true)) as (c & Hc & E); [evaluated|].
  injection E as Ha Hl Hb.
  apply (lower_range_blocks_activation lowered_state _ view_key lower_range c lowered_reachable (lowered_then l) Hc Ha Hl);
    [|exact Hb].
  apply (bool_decide_eq_true_1 (lower_range ∈ all_reservations (ingest_reservations lowered_state))). evaluated.
Defined.

(** ** Overlapping ranges of both kinds *)

Definition authorized_state : InMemoryMetaState :=
  after default_state [(1, AcquireRelationPartitionAuthority (AcquireRelationAuthority relation_key "a" None 1000))].
Definition relation_range : ReserveRelationAuthoritativeIngestRangeRequest :=
  ReserveRelation (orders_range 0 10 "b1") (RelationAuthorityToken relation_key "a" 1 1001).
Definition legacy_range : IngestRangeReservation := orders_range 5 15 "b2".

Lemma overlap_depends_on_order_witness :
  (reserve_relation_authoritative_ingest_range relation_range (reserve_ingest_range legacy_range authorized_state).2).1 = Ok RangeConflict /\
  (reserve_ingest_range legacy_range (reserve_relation_authoritative_ingest_range relation_range authorized_state).2).1 = Ok RangeReserved.
Proof.
  destruct (overlap_depends_on_order relation_range legacy_range authorized_state) as [Hrefused [Hreserved _]];
    [evaluated|evaluated|reflexivity|reflexivity|]. exact (conj Hrefused Hreserved).
Defined.
