(* ===== verification/RelationPublisher.v ===== *)
(** The publisher of relation ingest, [velorix-control/src/relation_ingest_publisher.rs]: it
    holds the authority over a partition of a relation, reserves the range of a batch in
    the metadata service, stages the payload in the object store and publishes the
    reservation with a reference to the staged object.

    An operation is a program that calls the metadata service and the object store. The
    token of the session and the two flags of the publisher are passed along; the mutex
    of the session makes its operations one at a time. *)
From S2P Require Import Prelude BTree Json Digits Segments ObjectKey Hash ObjectStore Relation Serde JsonText IngestEnvelope CatalogRegistry IngestLog StandingProgram MetaTypes SourceCut ViewBootstrap MetaRequests MetaStore MetaMachine RhizaMeta.

Definition REQUEST_SCHEMA_VERSION : Z := 1.
Definition REQUEST_ID_PREFIX : string := "relation-ingest-v1-".

(** * Data *)

Record RelationIngestPublisherConfig := PublisherConfig {
  pc_namespace : string;
  pc_relation_id : string;
  pc_relation_version : string;
  pc_schema_fingerprint : string;
  pc_stream_id : string;
  pc_partition_id : Z;
  pc_owner_id : string;
  pc_authority_ttl_ms : Z
}.

Record RelationIngestScope := IngestScope {
  is_namespace : string;
  is_relation_id : string;
  is_relation_version : string;
  is_schema_fingerprint : string;
  is_stream_id : string;
  is_partition_id : Z
}.

Definition from_config (config : RelationIngestPublisherConfig) : RelationIngestScope :=
  IngestScope (pc_namespace config) (pc_relation_id config) (pc_relation_version config) (pc_schema_fingerprint config)
    (pc_stream_id config) (pc_partition_id config).

Definition authority_key (scope : RelationIngestScope) : RelationPartitionAuthorityKey :=
  RelationAuthorityKey (is_namespace scope) (is_relation_id scope) (is_stream_id scope) (is_partition_id scope).

(** The publisher with its session: the token, and whether the token was taken again
    after a restart; whether the capability was checked. *)
Record RelationIngestPublisher := IngestPublisher {
  ip_config : RelationIngestPublisherConfig;
  ip_token : option RelationPartitionAuthorityToken;
  ip_restart_reacquire_attempted : bool;
  ip_capability_validated : bool
}.

Definition session_scope (p : RelationIngestPublisher) : RelationIngestScope := from_config (ip_config p).
Definition with_token (token : option RelationPartitionAuthorityToken) (p : RelationIngestPublisher) : RelationIngestPublisher :=
  IngestPublisher (ip_config p) token (ip_restart_reacquire_attempted p) (ip_capability_validated p).
Definition with_attempted (p : RelationIngestPublisher) : RelationIngestPublisher :=
  IngestPublisher (ip_config p) (ip_token p) true (ip_capability_validated p).
Definition with_validated (p : RelationIngestPublisher) : RelationIngestPublisher :=
  IngestPublisher (ip_config p) (ip_token p) (ip_restart_reacquire_attempted p) true.

Record RelationIngestCapability := IngestCapability {
  rc_backend_name : string;
  rc_relation_scoped_authority : bool;
  rc_committed_publication_source_cut : bool;
  rc_durable_across_restart : bool
}.

Record PublishedRelationIngest := PublishedIngest {
  pi_reservation : IngestRangeReservation;
  pi_request_id : string;
  pi_request_digest : string;
  pi_object_key : ObjectKey;
  pi_object_digest : string;
  pi_outcome : PublishIngestReservationOutcome
}.

Inductive RelationIngestPublisherError `{ArrowIpc} :=
| InvalidConfig (field : string)
| InvalidTtl
| UnsupportedRelationIngestCapability (backend_name : string) (missing : list string)
| CapabilityNotValidated
| NotStarted
| RestartReacquireAlreadyAttempted
| AuthorityConflict (current : RelationPartitionAuthorityToken)
| AuthorityLost (source : MetaStoreError)
| PublisherRangeConflict (reservation : IngestRangeReservation)
| PublisherStagingConflict (object_key : ObjectKey) (existing_digest requested_digest : string)
| RequestConflict (request_id : string)
| PublicationMissing (request_id : string)
| PublicationMismatch (request_id : string)
| UncertainPublication (request_id : string) (first_error retry_error : MetaStoreError)
| PublisherMeta (source : MetaStoreError)
| PublisherStorage (source : IngestLogError)
| PublisherObjectKey (source : ObjectKeyError).

(** * Programs *)

(** A tree of calls [C], with a continuation for every answer. *)
Inductive act {C : Type} (answer : C -> Type) (A : Type) : Type :=
| Done (a : A)
| Do (c : C) (k : answer c -> act answer A).
Arguments Done {C answer A} a.
Arguments Do {C answer A} c k.

Fixpoint act_bind {C} {answer : C -> Type} {A B} (p : act answer A) (f : A -> act answer B) : act answer B :=
  match p with
  | Done a => f a
  | Do c k => Do c (fun r => act_bind (k r) f)
  end.

Section programs.
Context `{Sha256, SerdeJson, RelationCodec, MetaEnv, ArrowIpc}.

(** A command of the metadata service, a read of it at some reading of its clock, its
    report of capabilities, or a request to the object store. *)
Inductive service_call :=
| Order (c : command)
| Ask (B : Type) (read : option Z -> meta B)
| Capabilities
| Object (c : ObjectStore.call).

Definition service_answer (c : service_call) : Type :=
  match c with
  | Order c => result MetaStoreError (outcome c)
  | Ask B _ => result MetaStoreError B
  | Capabilities => result MetaStoreError RelationIngestCapability
  | Object c => ObjectStore.answer c
  end.

(** A program over the object store. *)
Fixpoint storing {A} (p : prog A) : act service_answer A :=
  match p with
  | Ret a => Done a
  | Call c k => Do (Object c) (fun r => storing (k r))
  end.

(** The answer of an operation, with the publisher it leaves. *)
Definition answered_by (A : Type) : Type := act service_answer (result RelationIngestPublisherError A * RelationIngestPublisher).

Definition ends {A} (p : RelationIngestPublisher) (r : result RelationIngestPublisherError A) : answered_by A := Done (r, p).

(** [r?]: an error ends the operation. *)
Definition checked_then {A B} (p : RelationIngestPublisher) (r : result RelationIngestPublisherError A) (k : A -> answered_by B) : answered_by B :=
  match r with Ok a => k a | Err e => ends p (Err e) end.

Definition ask_then {A B} (p : RelationIngestPublisher) (read : option Z -> meta A) (k : A -> answered_by B) : answered_by B :=
  Do (Ask A read) (fun r => checked_then p (map_err PublisherMeta r) k).

(** * Requests *)

Definition config_field (field value : string) : result RelationIngestPublisherError unit := fail_if (is_blank value) (InvalidConfig field).

Definition validate_config (config : RelationIngestPublisherConfig) : result RelationIngestPublisherError unit :=
  _ ← config_field "namespace" (pc_namespace config);
  _ ← config_field "relation_id" (pc_relation_id config);
  _ ← config_field "relation_version" (pc_relation_version config);
  _ ← config_field "schema_fingerprint" (pc_schema_fingerprint config);
  _ ← config_field "stream_id" (pc_stream_id config);
  _ ← config_field "owner_id" (pc_owner_id config);
  fail_if (pc_authority_ttl_ms config =? 0) InvalidTtl.

Definition new_publisher (config : RelationIngestPublisherConfig) : result RelationIngestPublisherError RelationIngestPublisher :=
  _ ← validate_config config;
  Ok (IngestPublisher config None false false).

Definition validate_relation_ingest_capability (capability : RelationIngestCapability) : result RelationIngestPublisherError unit :=
  let missing :=
    (if rc_relation_scoped_authority capability then [] else ["relation_scoped_authority"]) ++
    (if rc_committed_publication_source_cut capability then [] else ["committed_publication_source_cut"]) ++
    (if rc_durable_across_restart capability then [] else ["durable_across_restart"]) in
  match missing with
  | [] => Ok tt
  | _ => Err (UnsupportedRelationIngestCapability (rc_backend_name capability) missing)
  end.

Definition request_identity (scope : RelationIngestScope) (start_offset_inclusive end_offset_exclusive : Z) (payload_digest : string) :
    result RelationIngestPublisherError bytes :=
  _ ← fail_if (end_offset_exclusive <=? start_offset_inclusive) (InvalidConfig "offset_range");
  Ok (to_vec (JObject [("schema_version", json_of_unsigned REQUEST_SCHEMA_VERSION); ("namespace", JString (is_namespace scope));
    ("relation_id", JString (is_relation_id scope)); ("relation_version", JString (is_relation_version scope));
    ("schema_fingerprint", JString (is_schema_fingerprint scope)); ("stream_id", JString (is_stream_id scope));
    ("partition_id", json_of_unsigned (is_partition_id scope)); ("start_offset_inclusive", json_of_unsigned start_offset_inclusive);
    ("end_offset_exclusive", json_of_unsigned end_offset_exclusive); ("payload_digest", JString payload_digest)])).

Definition deterministic_request_digest (scope : RelationIngestScope) (start_offset_inclusive end_offset_exclusive : Z)
    (payload_digest : string) : result RelationIngestPublisherError string :=
  identity ← request_identity scope start_offset_inclusive end_offset_exclusive payload_digest;
  Ok (sha256_text identity).

(** [s.trim_start_matches(prefix)]; every round drops a byte at least. *)
Fixpoint drop_prefixes (fuel : nat) (prefix s : string) : string :=
  match fuel, strip_prefix prefix s with
  | S fuel, Some rest => drop_prefixes fuel prefix rest
  | _, _ => s
  end.

Definition deterministic_request_id (scope : RelationIngestScope) (start_offset_inclusive end_offset_exclusive : Z)
    (payload_digest : string) : result RelationIngestPublisherError string :=
  digest ← deterministic_request_digest scope start_offset_inclusive end_offset_exclusive payload_digest;
  Ok (REQUEST_ID_PREFIX +:+ drop_prefixes (String.length digest) "sha256:" digest).

Definition validate_publication_match (publication : RelationAuthoritativeIngestPublication)
    (q : PublishRelationIngestReservationRequest) : result RelationIngestPublisherError unit :=
  fail_if (bool_decide (p_reservation publication <> pl_reservation q) ||
      bool_decide (p_authority_key publication <> rt_key (pl_authority q)) ||
      negb (String.eqb (p_request_id publication) (pl_request_id q)) ||
      negb (String.eqb (p_request_digest publication) (pl_request_digest q)) ||
      negb (String.eqb (p_object_key publication) (pl_object_key q)) ||
      negb (String.eqb (p_object_digest publication) (pl_object_digest q)))
    (PublicationMismatch (pl_request_id q)).

(** * The authority *)

Definition reacquire_not_fenced : RelationIngestPublisherError :=
  AuthorityLost (UnsupportedCapability "relation_authority_reacquire_not_fenced").

(** The token after a restart is the next one of the same owner. *)
Definition follows (p : RelationIngestPublisher) (observed next : RelationPartitionAuthorityToken) : bool :=
  bool_decide (checked_u64 (rt_owner_epoch observed + 1) = Some (rt_owner_epoch next)) &&
  bool_decide (rt_key observed = rt_key next) && bool_decide (rt_key next = authority_key (session_scope p)) &&
  String.eqb (rt_owner_id observed) (rt_owner_id next) && String.eqb (rt_owner_id next) (pc_owner_id (ip_config p)).

Definition take_authority (p : RelationIngestPublisher) (reacquire : bool) (observed_token : option RelationPartitionAuthorityToken)
    (r : result MetaStoreError (AcquireOutcome RelationPartitionAuthorityToken)) : answered_by RelationPartitionAuthorityToken :=
  match r with
  | Ok (Acquired next) =>
      if reacquire && match observed_token with Some observed => negb (follows p observed next) | None => false end
      then ends (with_token None p) (Err reacquire_not_fenced)
      else ends (with_token (Some next) p) (Ok next)
  | Ok (Renewed next) =>
      if negb reacquire then ends (with_token (Some next) p) (Ok next)
      else ends (with_token None p) (Err reacquire_not_fenced)
  | Ok (AcquireConflict current) => ends (with_token None p) (Err (AuthorityConflict current))
  | Err source => ends (with_token None p) (Err (AuthorityLost source))
  end.

Definition request_authority (p : RelationIngestPublisher) (reacquire : bool) (current_token : option RelationPartitionAuthorityToken) :
    answered_by RelationPartitionAuthorityToken :=
  let q := AcquireRelationAuthority (authority_key (session_scope p)) (pc_owner_id (ip_config p)) current_token
    (pc_authority_ttl_ms (ip_config p)) in
  if reacquire && bool_decide (is_Some current_token)
  then Do (Order (ReacquireRelationPartitionAuthority q)) (take_authority p reacquire current_token)
  else Do (Order (AcquireRelationPartitionAuthority q)) (take_authority p reacquire current_token).

Definition acquire_with (p : RelationIngestPublisher) (reacquire : bool) : answered_by RelationPartitionAuthorityToken :=
  if reacquire && ip_restart_reacquire_attempted p then ends p (Err RestartReacquireAlreadyAttempted)
  else if reacquire then
    let p := with_attempted p in
    ask_then p (fun clock => read_relation_partition_authority clock (authority_key (session_scope p))) (request_authority p true)
  else request_authority p false (ip_token p).

Definition acquire_or_renew (p : RelationIngestPublisher) : answered_by RelationPartitionAuthorityToken := acquire_with p false.
Definition reacquire_after_restart (p : RelationIngestPublisher) : answered_by RelationPartitionAuthorityToken := acquire_with p true.

(** The capability is looked at once. *)
Definition check_capability (p : RelationIngestPublisher)
    (k : RelationIngestPublisher -> answered_by RelationPartitionAuthorityToken) : answered_by RelationPartitionAuthorityToken :=
  if ip_capability_validated p then k p
  else Do Capabilities (fun r => checked_then p (map_err PublisherMeta r) (fun capability =>
    checked_then p (validate_relation_ingest_capability capability) (fun _ => k (with_validated p)))).

Definition start (p : RelationIngestPublisher) : answered_by RelationPartitionAuthorityToken := check_capability p acquire_or_renew.
Definition start_after_restart (p : RelationIngestPublisher) : answered_by RelationPartitionAuthorityToken :=
  check_capability p reacquire_after_restart.
Definition renew (p : RelationIngestPublisher) : answered_by RelationPartitionAuthorityToken :=
  if ip_capability_validated p then acquire_or_renew p else ends p (Err CapabilityNotValidated).

(** * Publication *)

Definition lost_authority (p : RelationIngestPublisher) {A} (reason : string) : answered_by A :=
  ends (with_token None p) (Err (AuthorityLost (UnsupportedCapability reason))).

Definition matching_publication (p : RelationIngestPublisher) (q : PublishRelationIngestReservationRequest)
    (publication : RelationAuthoritativeIngestPublication) : answered_by RelationAuthoritativeIngestPublication :=
  checked_then p (validate_publication_match publication q) (fun _ =>
    if bool_decide (p_authority_key publication <> rt_key (pl_authority q)) then lost_authority p "publication_authority_mismatch"
    else ends p (Ok publication)).

Definition verify_publication (p : RelationIngestPublisher) (q : PublishRelationIngestReservationRequest) :
    answered_by RelationAuthoritativeIngestPublication :=
  ask_then p (fun _ => read_relation_authoritative_ingest_publication (pl_request_id q)) (fun found =>
    checked_then p (ok_or (PublicationMissing (pl_request_id q)) found) (matching_publication p q)).

(** The last look, after the retry failed as well. *)
Definition verify_again (q : PublishRelationIngestReservationRequest) (first_error retry_error : MetaStoreError)
    (answer : result RelationIngestPublisherError RelationAuthoritativeIngestPublication * RelationIngestPublisher) :
    answered_by RelationAuthoritativeIngestPublication :=
  match answer with
  | (Err (PublicationMissing _), p) => ends p (Err (UncertainPublication (pl_request_id q) first_error retry_error))
  | (r, p) => ends p r
  end.

Definition verify_after_uncertain_publish (p : RelationIngestPublisher) (q : PublishRelationIngestReservationRequest)
    (first_error : MetaStoreError) : answered_by RelationAuthoritativeIngestPublication :=
  Do (Ask _ (fun _ => read_relation_authoritative_ingest_publication (pl_request_id q))) (fun found =>
    match found with
    | Ok (Some publication) => matching_publication p q publication
    | Ok None =>
        Do (Order (PublishRelationIngestReservation q)) (fun retried =>
          match retried with
          | Ok PublicationCommitted | Ok PublicationDuplicate => verify_publication p q
          | Ok InvalidAuthority => lost_authority p "invalid_relation_authority"
          | Ok PublicationConflict => ends p (Err (RequestConflict (pl_request_id q)))
          | Err retry_error => act_bind (verify_publication p q) (verify_again q first_error retry_error)
          end)
    | Err read_error => ends p (Err (UncertainPublication (pl_request_id q) first_error read_error))
    end).

(** What the answer to the publication makes of the operation. *)
Definition settle_publication (p : RelationIngestPublisher) (q : PublishRelationIngestReservationRequest)
    (r : result MetaStoreError PublishIngestReservationOutcome) : answered_by PublishIngestReservationOutcome :=
  let verified outcome (v : answered_by RelationAuthoritativeIngestPublication) : answered_by PublishIngestReservationOutcome :=
    act_bind v (fun answer => checked_then answer.2 answer.1 (fun _ => ends answer.2 (Ok outcome))) in
  match r with
  | Ok PublicationCommitted => verified PublicationCommitted (verify_publication p q)
  | Ok PublicationDuplicate => verified PublicationDuplicate (verify_publication p q)
  | Ok PublicationConflict => ends p (Err (RequestConflict (pl_request_id q)))
  | Ok InvalidAuthority => lost_authority p "invalid_relation_authority"
  | Err source => verified PublicationCommitted (verify_after_uncertain_publish p q source)
  end.

(** What a publisher derives from a batch before it calls anything. *)
Definition prepare_request (p : RelationIngestPublisher) (authority : RelationPartitionAuthorityToken)
    (start_offset_inclusive end_offset_exclusive : Z) (payload : bytes) :
    result RelationIngestPublisherError (ObjectKey * PublishRelationIngestReservationRequest) :=
  let c := ip_config p in
  let payload_digest := digest_bytes payload in
  request_id ← deterministic_request_id (session_scope p) start_offset_inclusive end_offset_exclusive payload_digest;
  request_digest ← deterministic_request_digest (session_scope p) start_offset_inclusive end_offset_exclusive payload_digest;
  batch_key ← map_err PublisherObjectKey (ingest_batch (pc_stream_id c) (pc_partition_id c) start_offset_inclusive end_offset_exclusive);
  staging_key ← map_err PublisherObjectKey
    (ingest_staging (pc_stream_id c) (pc_partition_id c) start_offset_inclusive end_offset_exclusive request_id);
  let reservation := Reservation (pc_stream_id c) (pc_partition_id c) start_offset_inclusive end_offset_exclusive (as_str batch_key)
    payload_digest (pc_relation_id c) (pc_relation_version c) (pc_schema_fingerprint c) (rt_owner_epoch authority) in
  Ok (staging_key, PublishRelation reservation authority request_id request_digest (as_str staging_key) payload_digest).

Definition stage_and_publish (p : RelationIngestPublisher) (staging_key : ObjectKey) (payload : bytes)
    (q : PublishRelationIngestReservationRequest) : answered_by PublishedRelationIngest :=
  act_bind (storing (write_ingest_staging (as_str staging_key) payload (pl_object_digest q))) (fun staged =>
    checked_then p (map_err PublisherStorage staged) (fun staged =>
      match staged with
      | StagingCreated _ | StagingDuplicate _ =>
          Do (Order (PublishRelationIngestReservation q)) (fun r =>
            act_bind (settle_publication p q r) (fun answer => checked_then answer.2 answer.1 (fun outcome =>
              ends answer.2 (Ok (PublishedIngest (pl_reservation q) (pl_request_id q) (pl_request_digest q) staging_key
                (pl_object_digest q) outcome)))))
      | StagingConflict _ existing_digest requested_digest =>
          ends p (Err (PublisherStagingConflict staging_key existing_digest requested_digest))
      end)).

Definition publish (p : RelationIngestPublisher) (start_offset_inclusive end_offset_exclusive : Z) (payload : bytes) :
    answered_by PublishedRelationIngest :=
  if negb (ip_capability_validated p) then ends p (Err CapabilityNotValidated)
  else checked_then p (ok_or NotStarted (ip_token p)) (fun authority =>
    checked_then p (prepare_request p authority start_offset_inclusive end_offset_exclusive payload) (fun '(staging_key, q) =>
      Do (Order (ReserveRelationAuthoritativeIngestRange (ReserveRelation (pl_reservation q) authority))) (fun r =>
        match r with
        | Ok RangeReserved | Ok RangeDuplicate => stage_and_publish p staging_key payload q
        | Ok RangeConflict =>
            ask_then p (fun clock => read_relation_partition_authority clock (rt_key authority)) (fun current =>
              if bool_decide (current <> Some authority) then lost_authority p "stale_relation_authority"
              else ends p (Err (PublisherRangeConflict (pl_reservation q))))
        | Err source => ends p (Err (PublisherMeta source))
        end))).
End programs.
