(* ===== verification/RelationPublisherProofs.v ===== *)
(** Publishers of relation ingest next to each other: what is acknowledged is published and
    staged for good, and a retry under a later epoch is turned down.

    The metadata service is one state that commands change one at a time, as the theorems
    about the replicated store allow; an answer can be lost, and the command be carried
    out at any later time. Others change the objects by adding to them and the metadata as
    they like, but do not publish relation ingest. *)
From S2P Require Import Prelude BTree Json Digits Segments ObjectKey Hash ObjectStore Relation Serde JsonText IngestEnvelope CatalogRegistry IngestLog ObjectKeyProofs StandingProgram MetaTypes SourceCut ViewBootstrap MetaRequests MetaStore MetaMachine MetaViews MetaIngest MetaRelation RhizaMeta AppendOnly RelationPublisher.

Section publishers.
Context `{Sha256Laws, SerdeJson, RelationCodec, MetaEnv, ArrowIpc}.

(** * The services *)

Record site := Site {
  st_meta : InMemoryMetaState;
  st_objects : objects;
  st_pending : list command
}.

Inductive serves_call (w : site) : forall c : service_call, service_answer c -> site -> Prop :=
| ServesOrder c clock :
    serves_call w (Order c) (evaluate c clock (st_meta w)).1 (Site (evaluate c clock (st_meta w)).2 (st_objects w) (st_pending w))
| ServesLost c e : serves_call w (Order c) (Err e) (Site (st_meta w) (st_objects w) (c :: st_pending w))
| ServesAsk B read clock : serves_call w (Ask B read) (read clock (st_meta w)).1 w
| ServesAskFailed B read e : serves_call w (Ask B read) (Err e) w
| ServesCapabilities r : serves_call w Capabilities r w
| ServesObject c r o : answers (st_objects w) c r o -> serves_call w (Object c) r (Site (st_meta w) o (st_pending w)).

(** What happens elsewhere. *)
Inductive elsewhere (w : site) : site -> Prop :=
| ElsewhereMeta s :
    meta_steps (st_meta w) s ->
    relation_authoritative_ingest_publications s = relation_authoritative_ingest_publications (st_meta w) ->
    elsewhere w (Site s (st_objects w) (st_pending w))
| ElsewherePending c clock : c ∈ st_pending w -> elsewhere w (Site (perform clock c (st_meta w)) (st_objects w) (st_pending w))
| ElsewhereObjects o : st_objects w ⊆ o -> elsewhere w (Site (st_meta w) o (st_pending w)).

(** * Publishers *)

(** A batch that is being published, with the state of the metadata when it was called. *)
Record attempt := Attempt {
  tr_publisher : RelationIngestPublisher;
  tr_start_offset_inclusive : Z;
  tr_end_offset_exclusive : Z;
  tr_payload : bytes;
  tr_called : InMemoryMetaState;
  tr_act : answered_by PublishedRelationIngest
}.

Record publishers := Publishers { ps_site : site; ps_attempts : gmap nat attempt }.

Definition initial_publishers : publishers := Publishers (Site default_state ∅ []) ∅.

Inductive publishers_step (s : publishers) : publishers -> Prop :=
| StepPublish i p lo hi payload :
    ps_attempts s !! i = None ->
    publishers_step s (Publishers (ps_site s) (<[i := Attempt p lo hi payload (st_meta (ps_site s)) (publish p lo hi payload)]> (ps_attempts s)))
| StepCall i p lo hi payload called c k r w :
    ps_attempts s !! i = Some (Attempt p lo hi payload called (Do c k)) -> serves_call (ps_site s) c r w ->
    publishers_step s (Publishers w (<[i := Attempt p lo hi payload called (k r)]> (ps_attempts s)))
| StepElsewhere w : elsewhere (ps_site s) w -> publishers_step s (Publishers w (ps_attempts s))
| StepStop i : publishers_step s (Publishers (ps_site s) (delete i (ps_attempts s))).

Definition running_publishers (s : publishers) : Prop := rtc publishers_step initial_publishers s.

(** * What holds of the services *)

Definition publications (w : site) : gmap string RelationAuthoritativeIngestPublication :=
  relation_authoritative_ingest_publications (st_meta w).

(** An object with the digest. *)
Definition staged (o : objects) (key digest : string) : Prop := exists body, o !! key = Some body /\ digest_bytes body = digest.

Definition publication_of (q : PublishRelationIngestReservationRequest) : RelationAuthoritativeIngestPublication :=
  Publication (pl_reservation q) (rt_key (pl_authority q)) (pl_request_id q) (pl_request_digest q) (pl_object_key q) (pl_object_digest q).

Definition publication_staged (o : objects) (p : RelationAuthoritativeIngestPublication) : Prop :=
  staged o (p_object_key p) (p_object_digest p) /\ p_object_digest p = r_payload_digest (p_reservation p).

(** A command that a publisher gives: a publication is of a staged object. *)
Definition command_ok (o : objects) (c : command) : Prop :=
  match c with
  | ReserveRelationAuthoritativeIngestRange _ => True
  | PublishRelationIngestReservation q => publication_staged o (publication_of q)
  | _ => False
  end.

Record site_inv (w : site) : Prop := {
  sv_reachable : reachable (st_meta w);
  sv_publications : map_Forall (fun _ p => publication_staged (st_objects w) p) (publications w);
  sv_pending c : c ∈ st_pending w -> command_ok (st_objects w) c
}.

Definition site_le (w w' : site) : Prop := meta_steps (st_meta w) (st_meta w') /\ st_objects w ⊆ st_objects w'.
#[export] Instance site_le_preorder : PreOrder site_le.
Proof.
  split; [intros w; split; [apply rtc_refl|done]|]. intros w1 w2 w3 [? ?] [? ?].
  split; [unfold meta_steps in *; by etransitivity|by etransitivity].
Qed.

Lemma staged_grows o o' key digest : o ⊆ o' -> staged o key digest -> staged o' key digest.
Proof. intros Ho (body & Hb & Hd). exists body. split; [by eapply lookup_weaken|done]. Qed.
Lemma publication_staged_grows o o' p : o ⊆ o' -> publication_staged o p -> publication_staged o' p.
Proof. intros Ho [Hs Hd]. split; [by eapply staged_grows|done]. Qed.
Lemma command_ok_grows o o' c : o ⊆ o' -> command_ok o c -> command_ok o' c.
Proof. intros Ho. destruct c; try done. by apply publication_staged_grows. Qed.

(** ** Commands *)

Lemma reserve_publications q s :
  relation_authoritative_ingest_publications (reserve_relation_authoritative_ingest_range q s).2 = relation_authoritative_ingest_publications s.
Proof.
  change (wpm (reserve_relation_authoritative_ingest_range q) s
    (fun s' => relation_authoritative_ingest_publications s' = relation_authoritative_ingest_publications s)).
  unfold reserve_relation_authoritative_ingest_range. meta_run; done.
Qed.

Lemma publish_publications q s : let s' := (publish_relation_ingest_reservation q s).2 in
  relation_authoritative_ingest_publications s' = relation_authoritative_ingest_publications s \/
  relation_authoritative_ingest_publications s' = <[pl_request_id q := publication_of q]> (relation_authoritative_ingest_publications s).
Proof.
  change (wpm (publish_relation_ingest_reservation q) s (fun s' =>
    relation_authoritative_ingest_publications s' = relation_authoritative_ingest_publications s \/
    relation_authoritative_ingest_publications s' = <[pl_request_id q := publication_of q]> (relation_authoritative_ingest_publications s))).
  unfold publish_relation_ingest_reservation. meta_run; by auto.
Qed.

Lemma perform_steps c clock s : meta_steps s (perform clock c s).
Proof. apply rtc_once, StepCommand. Qed.

Lemma perform_staged o c clock s : command_ok o c ->
  map_Forall (fun _ p => publication_staged o p) (relation_authoritative_ingest_publications s) ->
  map_Forall (fun _ p => publication_staged o p) (relation_authoritative_ingest_publications (perform clock c s)).
Proof.
  intros Hc Hs. destruct c; try done; cbn [perform].
  - by rewrite reserve_publications.
  - destruct (publish_publications q s) as [->| ->]; [done|]. by apply map_Forall_insert_2.
Qed.

Lemma performed_inv w c clock : site_inv w -> command_ok (st_objects w) c ->
  site_inv (Site (perform clock c (st_meta w)) (st_objects w) (st_pending w)) /\
  site_le w (Site (perform clock c (st_meta w)) (st_objects w) (st_pending w)).
Proof.
  intros [Hr Hp Hq] Hc. split; [|split; [apply perform_steps|done]]. split; cbn; [|by apply perform_staged|done].
  eapply reachable_steps; [done|apply perform_steps].
Qed.

Lemma elsewhere_inv w w' : site_inv w -> elsewhere w w' -> site_inv w' /\ site_le w w'.
Proof.
  intros Hw He. pose proof Hw as [Hr Hp Hq]. destruct He as [s Hs Hsame|c clock Hc|o Ho].
  - split; [|by split]. split; cbn; [by eapply reachable_steps|unfold publications; cbn; by rewrite Hsame|done].
  - apply performed_inv; auto.
  - split; [|split; [apply rtc_refl|done]]. split; cbn; [done| |intros c Hc; eapply command_ok_grows; eauto].
    intros id p Hid. eapply publication_staged_grows; [done|by eapply Hp].
Qed.

(** * Programs next to others *)

(** A call that a publisher may make. *)
Definition call_ok (o : objects) (c : service_call) : Prop :=
  match c with
  | Order c => command_ok o c
  | Object c => creates c = true
  | _ => True
  end.

Lemma serves_inv w c r w' : site_inv w -> call_ok (st_objects w) c -> serves_call w c r w' -> site_inv w' /\ site_le w w'.
Proof.
  intros Hw Hc Hs. pose proof Hw as [Hr Hp Hq]. destruct Hs as [c clock|c e| | | |c r o Ha]; try done.
  - rewrite evaluate_perform. by apply performed_inv.
  - split; [|split; [apply rtc_refl|done]]. split; cbn; [done|done|]. intros c' [->|Hc']%elem_of_cons; auto.
  - pose proof (answers_adds _ _ _ _ Hc Ha) as Ho. split; [|split; [apply rtc_refl|done]].
    split; cbn; [done| |intros c' Hc'; eapply command_ok_grows; eauto].
    intros id p Hid. eapply publication_staged_grows; [done|by eapply Hp].
Qed.

Fixpoint wpa {A} (p : act service_answer A) (post : A -> site -> Prop) (w : site) : Prop :=
  match p with
  | Done a => post a w
  | Do c k => forall w1, site_le w w1 -> site_inv w1 -> call_ok (st_objects w1) c /\
      forall r w2, serves_call w1 c r w2 -> site_inv w2 -> wpa (k r) post w2
  end.

Definition lasting {A} (post : A -> site -> Prop) : Prop := forall a w w', site_le w w' -> post a w -> post a w'.

Lemma wpa_lasting {A} (p : act service_answer A) post w w' : lasting post -> site_le w w' -> wpa p post w -> wpa p post w'.
Proof. intros Hp Hle. destruct p as [a|c k]; cbn; [by apply Hp|]. intros Hwp w1 Hle1. apply Hwp. by etransitivity. Qed.

Lemma wpa_mono {A} (p : act service_answer A) (post post' : A -> site -> Prop) w :
  (forall a w', post a w' -> post' a w') -> wpa p post w -> wpa p post' w.
Proof.
  intros Hp. revert w. induction p as [a|c k IH]; intros w; cbn; [apply Hp|]. intros Hwp w1 Hle Hi.
  destruct (Hwp w1 Hle Hi) as [Hc Hk]. split; [done|]. intros r w2 Hs Hi2. by apply IH, Hk.
Qed.

Lemma wpa_bind {A B} (p : act service_answer A) (f : A -> act service_answer B) post w :
  wpa p (fun a => wpa (f a) post) w -> wpa (act_bind p f) post w.
Proof.
  revert w. induction p as [a|c k IH]; intros w; cbn; [done|]. intros Hwp w1 Hle Hi.
  destruct (Hwp w1 Hle Hi) as [Hc Hk]. split; [done|]. intros r w2 Hs Hi2. by apply IH, Hk.
Qed.

(** The world a program ends in is later than the one it starts in. *)
Lemma wpa_reach {A} (p : act service_answer A) (post : A -> site -> Prop) w : wpa p post w -> wpa p (fun a w' => site_le w w' /\ post a w') w.
Proof.
  revert w. induction p as [a|c k IH]; intros w; cbn; [by split|]. intros Hwp w1 Hle Hi. destruct (Hwp w1 Hle Hi) as [Hc Hk].
  split; [done|]. intros r w2 Hs Hi2. destruct (serves_inv _ _ _ _ Hi Hc Hs) as [_ Hle2].
  eapply wpa_mono; [|by apply IH, Hk]. intros a w' [Hle' Ha]. split; [|done]. etransitivity; [exact Hle|]. by etransitivity.
Qed.

(** The calls by their kind. *)
Definition served_as (w : site) (c : service_call) : service_answer c -> site -> Prop :=
  match c with
  | Order c => fun r w' => (exists clock, r = (evaluate c clock (st_meta w)).1) \/ exists e, r = Err e
  | Ask B read => fun r w' => w' = w /\ ((exists clock, r = (read clock (st_meta w)).1) \/ exists e, r = Err e)
  | Capabilities => fun _ w' => w' = w
  | Object c => fun r w' => exists o, answers (st_objects w) c r o /\ w' = Site (st_meta w) o (st_pending w)
  end.
Lemma serves_served_as w c r w' : serves_call w c r w' -> served_as w c r w'.
Proof. destruct 1; cbn; eauto. Qed.

(** A read of the metadata. *)
Lemma wpa_ask {A B} (read : option Z -> meta B) (k : result MetaStoreError B -> act service_answer A) post w :
  (forall w1 r, site_le w w1 -> site_inv w1 -> (exists clock, r = (read clock (st_meta w1)).1) \/ (exists e, r = Err e) -> wpa (k r) post w1) ->
  wpa (Do (Ask B read) k) post w.
Proof. intros Hk w1 Hle Hi. split; [done|]. intros r w2 [-> Hr]%serves_served_as Hi2. by apply Hk. Qed.

(** A command, whose answer can be lost. *)
Lemma wpa_order {A} c (k : result MetaStoreError (outcome c) -> act service_answer A) post w :
  (forall w1, site_le w w1 -> site_inv w1 -> command_ok (st_objects w1) c) ->
  (forall w1 w2 r, site_le w w1 -> site_inv w1 -> site_le w1 w2 -> site_inv w2 ->
    (exists clock, r = (evaluate c clock (st_meta w1)).1) \/ (exists e, r = Err e) -> wpa (k r) post w2) ->
  wpa (Do (Order c) k) post w.
Proof.
  intros Hc Hk w1 Hle Hi. split; [by apply Hc|]. intros r w2 Hs Hi2.
  assert (Hcall : call_ok (st_objects w1) (Order c)) by (by apply Hc).
  destruct (serves_inv _ _ _ _ Hi Hcall Hs) as [_ Hle2]. apply serves_served_as in Hs. by apply (Hk w1).
Qed.

(** What an answer of a publisher says. *)
Definition acknowledges {A} (good : A -> site -> Prop) (answer : result RelationIngestPublisherError A * RelationIngestPublisher) (w : site) : Prop :=
  forall a, answer.1 = Ok a -> good a w.

Lemma wpa_checked {A B} p (r : result RelationIngestPublisherError A) (k : A -> answered_by B) good w :
  (forall a, r = Ok a -> wpa (k a) (acknowledges good) w) -> wpa (checked_then p r k) (acknowledges good) w.
Proof. destruct r as [a|e]; intros Hk; [by apply Hk|]. intros b [=]. Qed.

(** The publication of a request is there. *)
Definition committed_as (q : PublishRelationIngestReservationRequest) (w : site) : Prop :=
  publications w !! pl_request_id q = Some (publication_of q).

Lemma committed_kept q w w' : site_le w w' -> committed_as q w -> committed_as q w'.
Proof. intros [Hs _] Hc. destruct (steps_publications _ _ Hs) as [_ Hsub]. by eapply lookup_weaken. Qed.

(** * Staging *)

Lemma staging_key_text v k : parse_ingest_staging v = Ok k -> as_str k.1 = v.
Proof.
  unfold parse_ingest_staging, parse. intros (key & Hk & E)%bind_ok. apply bind_ok in E as (parts & _ & [= <-]). cbn.
  case_match; [done|]. by apply bind_ok in Hk as (u & _ & [= <-]).
Qed.

(** A staging write that succeeds leaves an object with the digest. *)
Lemma write_staging_ensures key payload digest o :
  ensures (⊆) adds (write_ingest_staging key payload digest) (fun out o' =>
    match out with StagingConflict _ _ _ => True | _ => staged o' key digest end) o.
Proof.
  unfold write_ingest_staging. destruct (parse_ingest_staging key) as [k|] eqn:Ek; [|done]. cbn [map_err and_then bind].
  apply staging_key_text in Ek. destruct (staging_with_digest k.1 payload digest) as [record|] eqn:Er; [|done]. cbn [and_then bind].
  unfold staging_with_digest in Er. apply bind_ok in Er as (? & _ & Er). apply bind_unit_ok in Er as [_ Er].
  apply bind_unit_ok in Er as [Hd%fail_if_ok [= <-]]. apply negb_false_iff, String.eqb_eq in Hd.
  unfold stage_ingest_record. cbn [sg_object_key sg_payload_digest sg_payload]. rewrite Ek.
  destruct (map_err LogKey _); [|done]. cbn [and_then bind]. destruct (validate_staging_digest _) as [[]|]; [|done]. cbn [and_then bind].
  rewrite <-Hd, String.eqb_refl. cbn [negb fail_if and_then bind]. apply wp_bind. intros o1 r o2 Ho Ha.
  split; [by eapply (answers_adds _ (PutCreate key payload))|]. destruct r as [[]|e].
  - intros out [= <-]. destruct Ha as [_ ->]. exists payload. by rewrite lookup_insert_eq.
  - destruct e; try (by intros ? [=]). intros o3 r o4 Ho3 [-> Hr]. split; [by apply adds_read|]. destruct r as [existing|e']; [|by intros ? [=]].
    intros out Hout. cbn in Hout. destruct (String.eqb_spec (digest_bytes existing) digest) as [E|]; injection Hout as <-; [by exists existing|done].
Qed.

(** Programs over the object store run as they do there. *)
Lemma wpa_storing {A} (p : prog A) post w : create_only p -> wp (⊆) adds p post (st_objects w) ->
  wpa (storing p) (fun a w' => post a (st_objects w')) w.
Proof.
  revert w. induction p as [a|c k IH]; intros w; [done|]. intros [Hc Hk] Hwp w1 [_ Ho] Hi. split; [done|].
  intros r w2 (o & Ha & ->)%serves_served_as Hi2. apply IH; [done|]. by apply (Hwp (st_objects w1) r o).
Qed.

Lemma write_staging_creates key payload digest : create_only (write_ingest_staging key payload digest).
Proof. unfold write_ingest_staging, stage_ingest_record. only_creates. Qed.

(** * Publication *)

Lemma publication_read id s found :
  (read_relation_authoritative_ingest_publication id s).1 = Ok found -> found = relation_authoritative_ingest_publications s !! id.
Proof. unfold read_relation_authoritative_ingest_publication. destruct (require_non_empty "request_id" id); cbn; [|done]. by intros [= <-]. Qed.

Lemma publication_matches publication q : validate_publication_match publication q = Ok tt -> publication = publication_of q.
Proof.
  unfold validate_publication_match. intros Hf%fail_if_ok. rewrite !orb_false_iff, !bool_decide_eq_false, !negb_false_iff, !String.eqb_eq in Hf.
  destruct publication as [r key id digest object object_digest], Hf as (((((Hr & Hk) & Hid) & Hd) & Ho) & Hod). cbn in *.
  unfold publication_of. f_equal; try done; by apply dec_stable.
Qed.

Lemma wpa_matching p q publication w : publications w !! pl_request_id q = Some publication ->
  wpa (matching_publication p q publication) (acknowledges (fun _ => committed_as q)) w.
Proof.
  intros Hp. apply wpa_checked. intros [] Hm. apply publication_matches in Hm as ->. case_bool_decide; [by intros ? [=]|].
  by intros ? _.
Qed.

Lemma wpa_verify p q w : wpa (verify_publication p q) (acknowledges (fun _ => committed_as q)) w.
Proof.
  apply wpa_ask. intros w1 r Hle Hi Hr. apply wpa_checked. intros found Hf. apply wpa_checked. intros publication Hp%ok_or_ok.
  apply wpa_matching. destruct Hr as [[clock ->]|[e ->]]; [|done].
  apply map_err_ok, publication_read in Hf. by subst.
Qed.

(** What a request refers to is staged. *)
Definition request_staged (q : PublishRelationIngestReservationRequest) (w : site) : Prop :=
  publication_staged (st_objects w) (publication_of q).
Lemma request_staged_kept q w w' : site_le w w' -> request_staged q w -> request_staged q w'.
Proof. intros [_ Ho]. by apply publication_staged_grows. Qed.

Lemma wpa_publish_order {A} q (k : result MetaStoreError PublishIngestReservationOutcome -> act service_answer A) post w :
  request_staged q w -> (forall w2 r, request_staged q w2 -> wpa (k r) post w2) ->
  wpa (Do (Order (PublishRelationIngestReservation q)) k) post w.
Proof.
  intros Hq Hk. apply wpa_order; [intros w1 Hle _; by eapply request_staged_kept|].
  intros w1 w2 r Hle _ Hle2 _ _. apply Hk. eapply request_staged_kept; [|exact Hq]. by etransitivity.
Qed.

Lemma wpa_uncertain p q e w : request_staged q w ->
  wpa (verify_after_uncertain_publish p q e) (acknowledges (fun _ => committed_as q)) w.
Proof.
  intros Hq. apply wpa_ask. intros w1 r Hle Hi Hr. destruct r as [[publication|]|e']; [| |by intros ? [=]].
  - apply wpa_matching. destruct Hr as [[clock Hr]|[? [=]]]. by apply eq_sym, publication_read in Hr.
  - apply wpa_publish_order; [by eapply request_staged_kept|]. intros w2 [[]|retry_error] _; try (by intros ? [=]); try apply wpa_verify.
    apply wpa_bind. eapply wpa_mono; [|apply wpa_verify]. intros [[publication|[]] p'] w3 Ha; try (by intros ? [=]). exact Ha.
Qed.

Lemma wpa_settle p q r w : request_staged q w -> wpa (settle_publication p q r) (acknowledges (fun _ => committed_as q)) w.
Proof.
  intros Hq. assert (Hverified : forall (out : PublishIngestReservationOutcome) (v : answered_by RelationAuthoritativeIngestPublication),
    wpa v (acknowledges (fun _ => committed_as q)) w ->
    wpa (act_bind v (fun answer => checked_then answer.2 answer.1 (fun _ => ends answer.2 (Ok out))))
      (acknowledges (fun _ => committed_as q)) w).
  { intros out v Hv. apply wpa_bind. eapply wpa_mono; [|exact Hv]. intros [answer p'] w' Ha. apply wpa_checked.
    intros publication Hp a _. by eapply Ha. }
  destruct r as [[]|source]; cbn [settle_publication]; try (by intros ? [=]); apply Hverified; [apply wpa_verify..|by apply wpa_uncertain].
Qed.

(** What an acknowledged batch is: a publication that names an object with the digest. *)
Definition acknowledged (payload : bytes) (out : PublishedRelationIngest) (w : site) : Prop :=
  staged (st_objects w) (as_str (pi_object_key out)) (digest_bytes payload) /\
  exists publication, publications w !! pi_request_id out = Some publication /\ p_reservation publication = pi_reservation out /\
    p_object_key publication = as_str (pi_object_key out) /\ p_object_digest publication = digest_bytes payload /\
    r_payload_digest (pi_reservation out) = digest_bytes payload.

Lemma acknowledged_lasting payload : lasting (acknowledges (acknowledged payload)).
Proof.
  intros answer w w' [Hs Ho] Ha out Hout. destruct (Ha out Hout) as (Hst & publication & Hp & Hrest). split; [by eapply staged_grows|].
  exists publication. split; [|done]. destruct (steps_publications _ _ Hs) as [_ Hsub]. by eapply lookup_weaken.
Qed.

Lemma prepared p authority lo hi payload staging_key q : prepare_request p authority lo hi payload = Ok (staging_key, q) ->
  pl_object_key q = as_str staging_key /\ pl_object_digest q = digest_bytes payload /\
  r_payload_digest (pl_reservation q) = digest_bytes payload /\ r_writer_epoch (pl_reservation q) = rt_owner_epoch authority /\
  pl_authority q = authority.
Proof.
  unfold prepare_request. cbn zeta. intros (? & _ & E)%bind_ok. apply bind_ok in E as (? & _ & E). apply bind_ok in E as (? & _ & E).
  apply bind_ok in E as (? & _ & E). by injection E as <- <-.
Qed.

Lemma wpa_stage_and_publish p authority lo hi payload staging_key q w : prepare_request p authority lo hi payload = Ok (staging_key, q) ->
  wpa (stage_and_publish p staging_key payload q) (acknowledges (acknowledged payload)) w.
Proof.
  intros Hq. destruct (prepared _ _ _ _ _ _ _ Hq) as (Hkey & Hdigest & Hpayload & _). unfold stage_and_publish. apply wpa_bind.
  eapply wpa_mono; [|eapply wpa_storing; [apply write_staging_creates|apply write_staging_ensures]].
  intros r w1 Hr. apply wpa_checked. intros out Hout%map_err_ok. specialize (Hr out Hout). cbn beta in Hr.
  assert (Hgo : staged (st_objects w1) (as_str staging_key) (pl_object_digest q) ->
    wpa (Do (Order (PublishRelationIngestReservation q)) (fun r =>
      act_bind (settle_publication p q r) (fun answer => checked_then answer.2 answer.1 (fun outcome =>
        ends answer.2 (Ok (PublishedIngest (pl_reservation q) (pl_request_id q) (pl_request_digest q) staging_key
          (pl_object_digest q) outcome)))))) (acknowledges (acknowledged payload)) w1).
  { intros Hst. apply wpa_publish_order; [split; cbn; [by rewrite Hkey|congruence]|]. intros w2 r' Hq2. apply wpa_bind.
    eapply wpa_mono; [|by apply wpa_reach, wpa_settle]. intros [answer p'] w3 [Hle3 Ha]. apply wpa_checked. intros out' Hout' a [= <-].
    destruct (request_staged_kept _ _ _ Hle3 Hq2) as [Hst3 _]. cbn in Hst3. rewrite Hkey, Hdigest in Hst3.
    split; [done|]. exists (publication_of q). split_and!; [by eapply Ha|done..]. }
  destruct out; [by apply Hgo..|by intros ? [=]].
Qed.

Lemma wpa_publish p lo hi payload w : wpa (publish p lo hi payload) (acknowledges (acknowledged payload)) w.
Proof.
  unfold publish. case_match; [by intros ? [=]|]. apply wpa_checked. intros authority Ht. apply wpa_checked. intros [staging_key q] Hq.
  apply wpa_order; [done|]. intros w1 w2 r _ _ _ _ _. destruct r as [[]|source]; [by eapply wpa_stage_and_publish..| |by intros ? [=]].
  apply wpa_ask. intros w3 r _ _ _. apply wpa_checked. intros current _. case_bool_decide; by intros ? [=].
Qed.

(** ** A range that was reserved under another epoch *)

Lemma reservation_keys_kept s s' : meta_steps s s' -> relation_authority_reservation_keys s ⊆ relation_authority_reservation_keys s'.
Proof.
  set (R s s' := relation_authority_reservation_keys s ⊆ relation_authority_reservation_keys s').
  assert (PreOrder R) by (unfold R; split; [intros ?; done|intros ? ? ?; by etransitivity]). revert s s'.
  apply (steps_preorder R); unfold R; [by intros|by intros|]. intros clock s1 s2 He. destruct He; subst; cbn; try done. by apply insert_subseteq.
Qed.

Lemma batch_key_taken s r r0 t k : reachable s -> relation_authority_reservation_keys s !! r0 = Some k ->
  r <> r0 -> r_batch_key r = r_batch_key r0 ->
  let a := (reserve_relation_authoritative_ingest_range (ReserveRelation r t) s).1 in a = Ok RangeConflict \/ exists e, a = Err e.
Proof.
  intros Hs%reachable_relation Hk Hne Hb. destruct (ro_keys _ Hs _ _ Hk) as (_ & _ & _ & _ & Hbatch).
  unfold reserve_relation_authoritative_ingest_range, mbind, meta_bind, lift, state. cbn [rr_reservation rr_authority].
  destruct (validate_reserve_relation _) as [[]|e]; [|right; by eexists].
  destruct (negb _); [by left|]. destruct (relation_authority_reservation_keys s !! r) as [k'|] eqn:Er.
  - destruct (ro_keys _ Hs _ _ Er) as (_ & _ & _ & _ & Hbatch'). rewrite Hb in Hbatch'. congruence.
  - rewrite Hb, Hbatch, (bool_decide_eq_true_2 (is_Some (Some r0))) by by eexists. rewrite orb_true_r. by left.
Qed.

Lemma prepared_batch_key p t t0 lo hi payload k k0 q q0 : prepare_request p t lo hi payload = Ok (k, q) ->
  prepare_request p t0 lo hi payload = Ok (k0, q0) -> r_batch_key (pl_reservation q) = r_batch_key (pl_reservation q0).
Proof.
  unfold prepare_request. cbn zeta. intros (? & E1 & E)%bind_ok (? & E1' & E')%bind_ok.
  apply bind_ok in E as (? & E2 & E), E' as (? & E2' & E'). apply bind_ok in E as (? & E3 & E), E' as (? & E3' & E').
  apply bind_ok in E as (? & _ & E), E' as (? & _ & E'). injection E as <- <-. injection E' as <- <-. cbn. congruence.
Qed.

(** The batch is reserved for the owner of [t0], and the publisher holds another epoch. *)
Definition reserved_before (t0 : RelationPartitionAuthorityToken) (p : RelationIngestPublisher) (lo hi : Z) (payload : bytes)
    (s : InMemoryMetaState) : bool :=
  match ip_token p, prepare_request p t0 lo hi payload with
  | Some t, Ok (_, q0) =>
      bool_decide (is_Some (relation_authority_reservation_keys s !! pl_reservation q0)) && negb (rt_owner_epoch t =? rt_owner_epoch t0)
  | _, _ => false
  end.

Lemma reserved_before_true t0 p lo hi payload s : reserved_before t0 p lo hi payload s = true ->
  exists t staging_key q0 k, ip_token p = Some t /\ prepare_request p t0 lo hi payload = Ok (staging_key, q0) /\
    relation_authority_reservation_keys s !! pl_reservation q0 = Some k /\ rt_owner_epoch t <> rt_owner_epoch t0.
Proof.
  unfold reserved_before. destruct (ip_token p) as [t|]; [|done]. destruct (prepare_request p t0 lo hi payload) as [[k0 q0]|]; [|done].
  intros [[k Hk]%bool_decide_eq_true Hne%negb_true_iff%Z.eqb_neq]%andb_true_iff. by exists t, k0, q0, k.
Qed.

Lemma wpa_retry t0 p lo hi payload w : reserved_before t0 p lo hi payload (st_meta w) = true ->
  wpa (publish p lo hi payload) (acknowledges (fun _ _ => False)) w.
Proof.
  intros (t & k0 & q0 & k & Ht & Hq0 & Hk & Hne)%reserved_before_true. unfold publish. case_match; [by intros ? [=]|]. apply wpa_checked.
  intros authority Ha%ok_or_ok. rewrite Ht in Ha. injection Ha as <-. apply wpa_checked. intros [staging_key q] Hq.
  assert (Hr : pl_reservation q <> pl_reservation q0).
  { intros E. destruct (prepared _ _ _ _ _ _ _ Hq) as (_ & _ & _ & He & _), (prepared _ _ _ _ _ _ _ Hq0) as (_ & _ & _ & He0 & _). congruence. }
  apply wpa_order; [done|]. intros w1 w2 r [Hle _] Hi _ _ Hans.
  assert (Hrefused : r = Ok RangeConflict \/ exists e, r = Err e).
  { destruct Hans as [[clock ->]|]; [|by right]. apply (batch_key_taken _ _ (pl_reservation q0) _ k); [apply Hi| |done|by eapply prepared_batch_key].
    eapply lookup_weaken; [exact Hk|by apply reservation_keys_kept]. }
  destruct Hrefused as [->|[e ->]]; [|by intros ? [=]]. apply wpa_ask. intros w3 r _ _ _. apply wpa_checked. intros current _.
  case_bool_decide; by intros ? [=].
Qed.

(** * Many publishers *)

Lemma initial_site_inv : site_inv (ps_site initial_publishers).
Proof. split; cbn; [apply rtc_refl|apply map_Forall_empty|intros ? []%not_elem_of_nil]. Qed.

Section many.
Context (good : RelationIngestPublisher -> Z -> Z -> bytes -> InMemoryMetaState -> PublishedRelationIngest -> site -> Prop).
Hypothesis good_lasting : forall p lo hi payload s, lasting (acknowledges (good p lo hi payload s)).
Hypothesis good_start : forall p lo hi payload w, wpa (publish p lo hi payload) (acknowledges (good p lo hi payload (st_meta w))) w.

Definition attempt_ok (w : site) (a : attempt) : Prop :=
  wpa (tr_act a) (acknowledges (good (tr_publisher a) (tr_start_offset_inclusive a) (tr_end_offset_exclusive a) (tr_payload a) (tr_called a))) w.

Lemma attempts_kept w w' (m : gmap nat attempt) : site_le w w' -> map_Forall (fun _ => attempt_ok w) m -> map_Forall (fun _ => attempt_ok w') m.
Proof using good_lasting. intros Hle Hm i a Ha. eapply wpa_lasting; [apply good_lasting|done|by eapply Hm]. Qed.

Lemma publishers_step_inv s s' : publishers_step s s' -> site_inv (ps_site s) -> map_Forall (fun _ => attempt_ok (ps_site s)) (ps_attempts s) ->
  site_inv (ps_site s') /\ site_le (ps_site s) (ps_site s') /\ map_Forall (fun _ => attempt_ok (ps_site s')) (ps_attempts s').
Proof using good_lasting good_start.
  intros Hst Hi Hm. destruct Hst as [i p lo hi payload _|i p lo hi payload called c k r w E Hs|w He|i]; cbn.
  - split_and!; [done|done|]. apply map_Forall_insert_2; [apply good_start|done].
  - destruct (Hm _ _ E _ (reflexivity _) Hi) as [Hc Hk]. destruct (serves_inv _ _ _ _ Hi Hc Hs) as [Hi' Hle]. split_and!; [done|done|].
    apply map_Forall_insert_2; [by apply Hk|by eapply attempts_kept].
  - destruct (elsewhere_inv _ _ Hi He) as [Hi' Hle]. split_and!; [done|done|by eapply attempts_kept].
  - split_and!; [done|done|by apply map_Forall_delete].
Qed.

Lemma publishers_steps_inv s s' : rtc publishers_step s s' -> site_inv (ps_site s) -> map_Forall (fun _ => attempt_ok (ps_site s)) (ps_attempts s) ->
  site_inv (ps_site s') /\ site_le (ps_site s) (ps_site s') /\ map_Forall (fun _ => attempt_ok (ps_site s')) (ps_attempts s').
Proof using good_lasting good_start.
  intros Hst. induction Hst as [|s s1 s' Hst _ IH]; [done|]. intros Hi Hm. destruct (publishers_step_inv _ _ Hst Hi Hm) as (Hi1 & Hle & Hm1).
  destruct (IH Hi1 Hm1) as (? & Hle' & ?). split_and!; [done|by etransitivity|done].
Qed.

Lemma running_attempts s : running_publishers s -> site_inv (ps_site s) /\ map_Forall (fun _ => attempt_ok (ps_site s)) (ps_attempts s).
Proof using good_lasting good_start.
  intros Hs. destruct (publishers_steps_inv _ _ Hs) as (? & _ & ?); [apply initial_site_inv|apply map_Forall_empty|done].
Qed.
End many.

(** C8: Whatever publishers do next to each other, while nobody else publishes relation ingest,
    every publication names an object that is staged with its digest; and a batch that was acknowledged stays
    published and staged, with the payload that was given unless that collides with
    another text. *)
Theorem acknowledged_batch_durable s s' i p lo hi payload called out p' :
  running_publishers s -> ps_attempts s !! i = Some (Attempt p lo hi payload called (Done (Ok out, p'))) -> rtc publishers_step s s' ->
  map_Forall (fun _ => publication_staged (st_objects (ps_site s'))) (publications (ps_site s')) /\
  (exists body, st_objects (ps_site s') !! as_str (pi_object_key out) = Some body /\ (body = payload \/ collide body payload)) /\
  exists publication, publications (ps_site s') !! pi_request_id out = Some publication /\ p_reservation publication = pi_reservation out /\
    p_object_key publication = as_str (pi_object_key out) /\ p_object_digest publication = digest_bytes payload.
Proof.
  intros Hs E Hst. pose (good (_ : RelationIngestPublisher) (_ _ : Z) payload (_ : InMemoryMetaState) := acknowledged payload).
  assert (Hl : forall p lo hi payload s, lasting (acknowledges (good p lo hi payload s))) by (intros; apply acknowledged_lasting).
  assert (Hstart : forall p lo hi payload w, wpa (publish p lo hi payload) (acknowledges (good p lo hi payload (st_meta w))) w)
    by (intros; apply wpa_publish).
  destruct (running_attempts good Hl Hstart s Hs) as [Hi Hm]. destruct (publishers_steps_inv good Hl Hstart s s' Hst Hi Hm) as (Hi' & Hle & _).
  destruct (acknowledged_lasting payload _ _ _ Hle (Hm _ _ E) out eq_refl) as ((body & Hb & Hd) & publication & ? & ? & ? & ? & _).
  split_and!; [apply Hi'| |by exists publication]. exists body. split; [done|]. by apply sha256_text_eq.
Qed.

(** C38: The retry of a batch is turned down when the publisher reserved the batch under an earlier
    epoch, also when the batch was acknowledged. *)
Theorem retry_after_takeover_refused s i p lo hi payload called r p' t0 :
  running_publishers s -> ps_attempts s !! i = Some (Attempt p lo hi payload called (Done (r, p'))) ->
  reserved_before t0 p lo hi payload called = true -> exists e, r = Err e.
Proof.
  intros Hs E Hb. pose (good p lo hi payload s (_ : PublishedRelationIngest) (_ : site) := reserved_before t0 p lo hi payload s = false).
  destruct (running_attempts good) with (s := s) as [_ Hm]; [| |done|].
  - intros ? ? ? ? ? answer w w' _ Ha. exact Ha.
  - intros p1 lo1 hi1 payload1 w. unfold good. destruct (reserved_before t0 p1 lo1 hi1 payload1 (st_meta w)) eqn:Er.
    + eapply wpa_mono; [|by eapply wpa_retry]. intros answer w' Ha out Ho. by destruct (Ha out Ho).
    + eapply wpa_mono; [|apply wpa_publish]. done.
  - destruct r as [out|e]; [|by exists e]. pose proof (Hm _ _ E out eq_refl) as Hg. unfold good in Hg. cbn in Hg. congruence.
Qed.
End publishers.
