(* ===== verification/RelationPublisherSamples.v ===== *)
(** A publisher of relation ingest at work: it takes the authority, publishes a batch, is
    restarted, and publishes the batch again. *)
From S2P Require Import Prelude BTree Json Digits Segments ObjectKey Hash ObjectStore Relation Serde JsonText IngestEnvelope CatalogRegistry IngestLog StandingProgram MetaTypes SourceCut ViewBootstrap MetaRequests MetaStore MetaMachine RhizaMeta RelationPublisher RelationPublisherProofs IngestSamples MetaSamples.

#[local] Existing Instance plain_json.
#[local] Existing Instance sample_sha256.
#[local] Existing Instance sample_sha256_laws.
#[local] Existing Instance sample_relation_codec.
#[local] Existing Instance sample_bindings.
#[local] Existing Instance sample_env.
#[local] Existing Instance sample_arrow.

(** * Runs *)

(** A metadata service whose clock shows [now] and a store in memory answer every call. *)
Definition served (now : Z) (w : site) (c : service_call) : service_answer c * site :=
  match c with
  | Order c =>
      let answer := evaluate c (Ok now) (st_meta w) in (answer.1, Site answer.2 (st_objects w) (st_pending w))
  | Ask B read => ((read (Some now) (st_meta w)).1, w)
  | Capabilities => (Ok (IngestCapability "rhiza" true true true), w)
  | Object c => let answer := memory_answer (st_objects w) c in (answer.1, Site (st_meta w) answer.2 (st_pending w))
  end.

Lemma served_call now w c : serves_call w c (served now w c).1 (served now w c).2.
Proof.
  destruct c as [c|B read| |c]; cbn; [apply ServesOrder|apply (ServesAsk _ B read)|apply ServesCapabilities|].
  apply ServesObject. exact (memory_store_laws.(serve_answers) (st_objects w) c _ _ (surjective_pairing _)).
Qed.

Fixpoint run_act {A} (now : Z) (p : act service_answer A) (w : site) : act service_answer A * site :=
  match p with
  | Done a => (Done a, w)
  | Do c k => let answer := served now w c in run_act now (k answer.1) answer.2
  end.

(** A batch is published by one publisher while the others wait. *)
Definition published (now : Z) (i : nat) (p : RelationIngestPublisher) (lo hi : Z) (payload : bytes) (s : publishers) : publishers :=
  let r := run_act now (publish p lo hi payload) (ps_site s) in
  Publishers r.2 (<[i := Attempt p lo hi payload (st_meta (ps_site s)) r.1]> (ps_attempts s)).

Lemma run_act_steps now i p lo hi payload called a w m :
  rtc publishers_step (Publishers w (<[i := Attempt p lo hi payload called a]> m))
    (Publishers (run_act now a w).2 (<[i := Attempt p lo hi payload called (run_act now a w).1]> m)).
Proof.
  revert w. induction a as [a|c k IH]; intros w; [apply rtc_refl|]. eapply rtc_l; [|apply IH].
  rewrite <-(insert_insert_eq m i (Attempt p lo hi payload called (k (served now w c).1)) (Attempt p lo hi payload called (Do c k))).
  eapply StepCall; [apply lookup_insert_eq|apply served_call].
Qed.

Lemma published_steps now i p lo hi payload s : ps_attempts s !! i = None -> rtc publishers_step s (published now i p lo hi payload s).
Proof. intros Hi. eapply rtc_l; [by apply (StepPublish _ i p lo hi payload)|]. apply run_act_steps. Qed.

(** Commands that other processes give. *)
Definition meanwhile (l : list (Z * command)) (s : publishers) : publishers :=
  Publishers (Site (after (st_meta (ps_site s)) l) (st_objects (ps_site s)) (st_pending (ps_site s))) (ps_attempts s).

Lemma meanwhile_steps l s : publications (ps_site (meanwhile l s)) = publications (ps_site s) -> rtc publishers_step s (meanwhile l s).
Proof. intros E. apply rtc_once. apply (StepElsewhere _ (ps_site (meanwhile l s))). by apply ElsewhereMeta; [apply after_steps|]. Qed.

(** * A restart *)

Definition orders_publisher : RelationIngestPublisher :=
  IngestPublisher (PublisherConfig "namespace" "orders" "v1" "fingerprint" "stream" 0 "a" 1000) None false false.
Definition first_token : RelationPartitionAuthorityToken := RelationAuthorityToken relation_key "a" 1 1001.
Definition next_token : RelationPartitionAuthorityToken := RelationAuthorityToken relation_key "a" 2 1010.
Definition started_publisher : RelationIngestPublisher := with_token (Some first_token) (with_validated orders_publisher).
Definition restarted_publisher : RelationIngestPublisher :=
  with_token (Some next_token) (with_attempted (with_validated orders_publisher)).
Definition batch : bytes := as_bytes "batch".

Definition started : publishers :=
  meanwhile [(1, AcquireRelationPartitionAuthority (AcquireRelationAuthority relation_key "a" None 1000))] initial_publishers.
Definition acknowledged_batch : publishers := published 2 0 started_publisher 0 10 batch started.
Definition restarted : publishers :=
  meanwhile [(10, ReacquireRelationPartitionAuthority (AcquireRelationAuthority relation_key "a" (Some first_token) 1000))]
    acknowledged_batch.
Definition retried : publishers := published 11 1 restarted_publisher 0 10 batch restarted.

(** The services at a tick of the authority clock. *)
Definition ticked (now : Z) (w : site) : site :=
  Site (with_partition_authority_now_unix_ms now (st_meta w)) (st_objects w) (st_pending w).

Example start_acquires :
  (run_act 1 (start orders_publisher) (ticked 1 (ps_site initial_publishers))).1 = Done (Ok first_token, started_publisher).
Proof. evaluated. Qed.
Example start_after_restart_reacquires :
  (run_act 10 (start_after_restart orders_publisher) (ticked 10 (ps_site acknowledged_batch))).1 = Done (Ok next_token, restarted_publisher).
Proof. evaluated. Qed.

Lemma acknowledged_running : running_publishers acknowledged_batch.
Proof.
  unfold running_publishers; etransitivity; [exact (meanwhile_steps [(1, AcquireRelationPartitionAuthority (AcquireRelationAuthority relation_key "a" None 1000))]
    initial_publishers eq_refl)|]. exact (published_steps 2 0 started_publisher 0 10 batch started eq_refl).
Qed.

Lemma restarted_publications : publications (ps_site restarted) = publications (ps_site acknowledged_batch).
Proof.
  apply (bool_decide_eq_true_1 (publications (ps_site restarted) = publications (ps_site acknowledged_batch))). evaluated.
Qed.

Lemma retried_later : rtc publishers_step acknowledged_batch retried.
Proof.
  etransitivity; [exact (meanwhile_steps _ acknowledged_batch restarted_publications)|].
  apply (published_steps 11 1 restarted_publisher 0 10 batch restarted). evaluated.
Qed.

(** The answer to the first attempt. *)
Definition acknowledgement : PublishedRelationIngest :=
  match ps_attempts acknowledged_batch !! 0%nat with
  | Some (Attempt _ _ _ _ _ (Done (Ok out, _))) => out
  | _ => PublishedIngest (orders_range 0 10 "") "" "" (Key "") "" PublicationConflict
  end.
Definition refused_range : IngestRangeReservation :=
  match prepare_request restarted_publisher next_token 0 10 batch with
  | Ok (_, q) => pl_reservation q
  | Err _ => orders_range 0 10 ""
  end.

Lemma first_attempt : ps_attempts acknowledged_batch !! 0%nat =
  Some (Attempt started_publisher 0 10 batch (st_meta (ps_site started)) (Done (Ok acknowledgement, started_publisher))).
Proof. evaluated. Qed.
Lemma second_attempt : ps_attempts retried !! 1%nat =
  Some (Attempt restarted_publisher 0 10 batch (st_meta (ps_site restarted)) (Done (Err (PublisherRangeConflict refused_range), restarted_publisher))).
Proof. evaluated. Qed.
Lemma reserved_by_first : reserved_before first_token restarted_publisher 0 10 batch (st_meta (ps_site restarted)) = true.
Proof. evaluated. Qed.
Lemma retried_running : running_publishers retried.
Proof. unfold running_publishers. etransitivity; [exact acknowledged_running|exact retried_later]. Qed.

Lemma first_attempt_kept : tr_act <$> ps_attempts retried !! 0%nat = Some (Done (Ok acknowledgement, started_publisher)).
Proof. evaluated. Qed.

#[local] Opaque acknowledged_batch retried restarted started acknowledgement refused_range.

Lemma acknowledged_batch_durable_witness :
  (exists body, st_objects (ps_site retried) !! as_str (pi_object_key acknowledgement) = Some body /\
    (body = batch \/ collide body batch)) /\
  exists publication, publications (ps_site retried) !! pi_request_id acknowledgement = Some publication.
Proof.
  destruct (acknowledged_batch_durable acknowledged_batch retried 0 started_publisher 0 10 batch (st_meta (ps_site started))
    acknowledgement started_publisher acknowledged_running first_attempt retried_later) as (_ & Hobject & publication & Hp & _).
  exact (conj Hobject (ex_intro _ publication Hp)).
Defined.

(** The batch was acknowledged, and its retry after the restart is a conflict of ranges. *)
Lemma retry_after_takeover_refused_witness :
  tr_act <$> ps_attempts retried !! 0%nat = Some (Done (Ok acknowledgement, started_publisher)) /\
  exists e, tr_act <$> ps_attempts retried !! 1%nat = Some (Done (Err e, restarted_publisher)).
Proof.
  destruct (retry_after_takeover_refused retried 1 restarted_publisher 0 10 batch (st_meta (ps_site restarted)) _
    restarted_publisher first_token retried_running second_attempt reserved_by_first) as [e He].
  split; [exact first_attempt_kept|]. exists e. rewrite second_attempt. cbn. by rewrite He.
Defined.
