(* ===== verification/RhizaSamples.v ===== *)
(** The replicated metadata service at work: a mutation that is answered, one whose
    answer is lost and which is made later, a read that sees both, and what the theorems
    about the system say of this run. *)
From S2P Require Import Prelude BTree Json Digits Codec ArrowState Segments ObjectKey Hash Relation Serde JsonText JsonRead StandingProgram MetaTypes SourceCut ViewBootstrap MetaRequests MetaStore MetaMachine MetaFencing SnapshotCodec RhizaKv RhizaSnapshot RhizaMeta RhizaDb RhizaInvariant RhizaPrograms RhizaSystem RhizaDurable IngestSamples MetaSamples.

#[local] Existing Instance plain_json.
#[local] Existing Instance plain_json_laws.
#[local] Existing Instance sample_sha256.
#[local] Existing Instance sample_sha256_laws.
#[local] Existing Instance sample_relation_codec.
#[local] Existing Instance sample_bindings.
#[local] Existing Instance sample_env.

(** * Parameters *)

(** Bytes as the binary digits of a number that stands for them. *)
Fixpoint bits (p : positive) : string :=
  match p with xH => "1" | xO p => String (digit_char 0) (bits p) | xI p => String (digit_char 1) (bits p) end.
Fixpoint unbits (s : string) : option positive :=
  match s with
  | EmptyString => None
  | String c EmptyString => Some xH
  | String c s => (if Ascii.eqb c (digit_char 0) then xO else xI) <$> unbits s
  end.
Lemma unbits_bits p : unbits (bits p) = Some p.
Proof. induction p as [p IH|p IH|]; [..|done]; cbn; destruct (bits p) eqn:E; [by destruct p|by rewrite IH|by destruct p|by rewrite IH]. Qed.

#[local] Instance sample_base64 : Base64 := {
  b64_encode b := match b with [] => "" | _ => bits (countable.encode b) end;
  b64_decode s := match s with EmptyString => Some [] | _ => unbits s ≫= countable.decode end
}.
#[local] Instance sample_base64_laws : Base64Laws.
Proof.
  split; [|done]. intros [|x b]; [done|]. cbn [b64_encode b64_decode sample_base64].
  destruct (bits _) eqn:E; [by destruct (countable.encode (x :: b))|]. rewrite <-E, unbits_bits. cbn. apply decode_encode.
Qed.

(** Manifests are read from their JSON. *)
Definition unsigned_of (v : Value) : option Z :=
  match v with JNumber (PosInt n) => if is_u64 n then Some n else None | _ => None end.
Definition manifest_of_json (v : Value) : option Manifest :=
  version ← get_field "schema_version" v ≫= unsigned_of;
  generation ← get_field "generation" v ≫= unsigned_of;
  pages ← get_field "pages" v;
  pages ← match pages with JArray l => mapM value_as_str l | _ => None end;
  len ← get_field "len" v ≫= unsigned_of;
  digest ← get_field "content_digest" v ≫= value_as_str;
  if version <=? u32_max then Some (SnapshotManifest version generation pages len digest) else None.

#[local] Instance sample_manifest_reader : ManifestReader := { manifest_from_slice body := read_text body ≫= manifest_of_json }.

Lemma unsigned_of_json n : 0 <= n <= u64_max -> unsigned_of (json_of_unsigned n) = Some n.
Proof. intros Hn. unfold json_of_unsigned, unsigned_of, is_u64. by rewrite (proj2 (in_range_true _ _ _) Hn). Qed.
Lemma unsigned_of_range v n : unsigned_of v = Some n -> 0 <= n <= u64_max.
Proof. destruct v as [| |[m| |]| | |]; try done. cbn. case_match eqn:E; [|done]. intros [= <-]. by apply in_range_true in E. Qed.
Lemma strings_of_json l : mapM value_as_str (JString <$> l) = Some l.
Proof. induction l as [|s l IH]; [done|]. cbn in IH |- *. by rewrite IH. Qed.

#[local] Instance sample_manifest_reader_laws : ManifestReaderLaws.
Proof.
  split.
  - intros [version generation pages len digest] (Hv & Hg & Hl). cbn [sm_schema_version sm_generation sm_len] in *.
    assert (u32_max <= u64_max) by by vm_compute.
    cbn [manifest_from_slice sample_manifest_reader]. rewrite read_text_to_vec.
    + cbn [mbind option_bind]. unfold manifest_of_json, manifest_json. cbn [sm_schema_version sm_generation sm_pages sm_len sm_content_digest].
      cbn [get_field List.find fst String.eqb Ascii.eqb Bool.eqb fmap option_fmap option_map snd mbind option_bind].
      rewrite !unsigned_of_json by lia. cbn [mbind option_bind]. rewrite strings_of_json. cbn [mbind option_bind value_as_str].
      by rewrite (proj2 (Z.leb_le _ _)) by lia.
    + unfold manifest_json, json_of_unsigned. cbn [plain_value forallb snd integral wf_number sm_schema_version sm_generation sm_pages sm_len sm_content_digest].
      rewrite !(proj2 (in_range_true _ _ _)) by lia. cbn [andb]. rewrite !andb_true_r. apply forallb_forall.
      intros v Hin%list_elem_of_In. by apply list_elem_of_fmap in Hin as (s & -> & _).
  - intros body m. cbn [manifest_from_slice sample_manifest_reader]. intros (v & _ & Hm)%bind_Some. unfold manifest_of_json in Hm.
    apply bind_Some in Hm as (version & Hv & Hm). apply bind_Some in Hm as (generation & Hg & Hm). apply bind_Some in Hm as (pages & _ & Hm).
    apply bind_Some in Hm as (pages' & _ & Hm). apply bind_Some in Hm as (len & Hl & Hm). apply bind_Some in Hm as (digest & _ & Hm).
    apply bind_Some in Hv as (? & _ & Hv%unsigned_of_range). apply bind_Some in Hg as (? & _ & Hg%unsigned_of_range).
    apply bind_Some in Hl as (? & _ & Hl%unsigned_of_range). case_match eqn:E; [|done]. injection Hm as <-.
    apply Z.leb_le in E. unfold typed_manifest. cbn. lia.
Qed.

(** Texts without escapes are written as they are. *)
#[local] Instance sample_plain_strings : PlainStrings.
Proof.
  split. intros s Hs. change (as_bytes (ser_string s)) with (to_vec (JString s)). rewrite to_vec_string. do 2 f_equal.
  induction s as [|c s IH]; [done|]. cbn [all_bytes] in Hs. apply andb_true_iff in Hs as [Hc Hs]. unfold as_bytes in *. cbn.
  rewrite IH by done. unfold plain_char in Hc. unfold json_escape. repeat (case_match; [lia|]). done.
Qed.

(** States that hold no more than their clock and the owners of views, as JSON. *)
Definition no_entries `{Countable K} {A} (m : gmap K A) : bool := match map_to_list m with [] => true | _ => false end.
Lemma no_entries_empty `{Countable K} {A} (m : gmap K A) : no_entries m = true -> m = ∅.
Proof. unfold no_entries. destruct (map_to_list m) eqn:E; [|done]. intros _. by apply map_to_list_empty_iff. Qed.

Definition owners_only (s : InMemoryMetaState) : bool :=
  no_entries (relation_catalogs s) && no_entries (ingest_reservations s) && no_entries (legacy_batch_keys s) &&
  no_entries (authoritative_ingest_reservation_keys s) && bool_decide (committed_ingest_batch_keys s = ∅) &&
  no_entries (authoritative_ingest_publications s) && (ingest_catalog_epoch s =? 0) && no_entries (view_bootstraps s) &&
  no_entries (active_view_registries s) && no_entries (view_dependency_graph_revisions s) &&
  no_entries (standing_runtime_checkpoints s) && no_entries (partition_authorities s) && no_entries (partition_checkpoint_pointers s) &&
  no_entries (relation_partition_authorities s) && no_entries (relation_ingest_reservations s) &&
  no_entries (relation_authority_reservation_keys s) && no_entries (relation_batch_keys s) &&
  no_entries (relation_authoritative_ingest_publications s) && no_entries (relation_reservation_publications s).

Definition owners_state (owners : gmap scope StandingRuntimeOwnerClaim) (now : Z) : InMemoryMetaState :=
  with_standing_runtime_owners owners (with_partition_authority_now_unix_ms now default_state).

Lemma owners_only_state s : owners_only s = true -> s = owners_state (standing_runtime_owners s) (partition_authority_now_unix_ms s).
Proof.
  destruct s. unfold owners_only. cbn. rewrite !andb_true_iff, bool_decide_eq_true, Z.eqb_eq. intros Hs. destruct_and!.
  repeat match goal with Hm : no_entries _ = true |- _ => apply no_entries_empty in Hm end. by subst.
Qed.

Definition owner_entry : Type := scope * StandingRuntimeOwnerClaim.
Definition entry_json (e : owner_entry) : Value :=
  let '(tenant, program, view, c) := e in
  JArray [JString tenant; JString program; JString view;
    JString (oc_tenant_id c); JString (oc_program_id c); JString (oc_view_id c); JString (oc_owner_id c);
    match oc_owner_endpoint c with Some e => JString e | None => JNull end;
    json_of_unsigned (oc_owner_epoch c); json_of_unsigned (oc_expires_at_unix_ms c)].
Definition entry_of_json (v : Value) : option owner_entry :=
  match v with
  | JArray [JString tenant; JString program; JString view; JString t; JString p; JString w; JString owner; endpoint; epoch; expires] =>
      epoch ← unsigned_of epoch;
      expires ← unsigned_of expires;
      Some (tenant, program, view, OwnerClaim t p w owner (value_as_str endpoint) epoch expires)
  | _ => None
  end.
Definition entry_bounded (e : owner_entry) : bool := is_u64 (oc_owner_epoch e.2) && is_u64 (oc_expires_at_unix_ms e.2).

Lemma entry_round_trip e : entry_bounded e = true -> entry_of_json (normalize (entry_json e)) = Some e.
Proof.
  destruct e as [[[tenant program] view] [t p w owner endpoint epoch expires]]. unfold entry_bounded. cbn [snd oc_owner_epoch oc_expires_at_unix_ms].
  intros [H1%in_range_true H2%in_range_true]%andb_true_iff.
  destruct endpoint; unfold json_of_unsigned; cbn -[unsigned_of]; fold (json_of_unsigned epoch) (json_of_unsigned expires);
    by rewrite !unsigned_of_json by done.
Qed.
Lemma entries_round_trip l : forallb entry_bounded l = true -> mapM entry_of_json (normalize <$> (entry_json <$> l)) = Some l.
Proof.
  induction l as [|e l IH]; [done|]. cbn [forallb]. intros [He Hl]%andb_true_iff. rewrite !fmap_cons. cbn [mapM].
  rewrite entry_round_trip by done. cbn. by rewrite (IH Hl).
Qed.

Lemma entry_wf e : entry_bounded e = true -> wf_value (entry_json e) = true.
Proof.
  destruct e as [[[tenant program] view] c]. unfold entry_bounded. cbn [snd]. unfold is_u64. intros [H1 H2]%andb_true_iff. unfold entry_json, json_of_unsigned.
  cbn [wf_value forallb wf_number]. rewrite H1, H2. by destruct (oc_owner_endpoint c).
Qed.

Definition state_json (s : InMemoryMetaState) : Value :=
  JObject [("active_view_registries", JArray []);
    ("partition_authority_now_unix_ms", json_of_unsigned (partition_authority_now_unix_ms s));
    ("standing_runtime_owners", JArray (entry_json <$> map_to_list (standing_runtime_owners s)))].
Definition state_of_json (v : Value) : option InMemoryMetaState :=
  now ← get_field "partition_authority_now_unix_ms" v ≫= unsigned_of;
  owners ← get_field "standing_runtime_owners" v;
  owners ← match owners with JArray l => mapM entry_of_json l | _ => None end;
  Some (owners_state (list_to_map owners) now).

#[local] Instance sample_snapshot_format : SnapshotFormat := {
  state_to_value s :=
    if owners_only s && is_u64 (partition_authority_now_unix_ms s) && forallb entry_bounded (map_to_list (standing_runtime_owners s))
    then Some (state_json s) else None;
  state_from_value := state_of_json
}.
Lemma state_json_read s : is_u64 (partition_authority_now_unix_ms s) = true ->
  forallb entry_bounded (map_to_list (standing_runtime_owners s)) = true ->
  state_of_json (normalize (state_json s)) = Some (owners_state (standing_runtime_owners s) (partition_authority_now_unix_ms s)).
Proof.
  intros Hn%in_range_true He. transitivity (now ← unsigned_of (json_of_unsigned (partition_authority_now_unix_ms s));
    owners ← mapM entry_of_json (normalize <$> (entry_json <$> map_to_list (standing_runtime_owners s)));
    Some (owners_state (list_to_map owners) now)); [done|].
  rewrite unsigned_of_json, entries_round_trip by done. cbn. by rewrite list_to_map_to_list.
Qed.
#[local] Instance sample_snapshot_format_laws : SnapshotFormatLaws.
Proof.
  split. intros s v. cbn [state_to_value state_from_value sample_snapshot_format]. case_match eqn:E; [|done]. intros <-%(inj Some).
  apply andb_true_iff in E as [[Ho Hn]%andb_true_iff He]. split_and!; [|by eexists|].
  - rewrite state_json_read by done. by rewrite <-owners_only_state.
  - unfold state_json, json_of_unsigned. unfold is_u64 in Hn. cbn -[in_range entry_json]. rewrite Hn. cbn [andb]. rewrite andb_true_r.
    rewrite forallb_forall in He |- *. intros v Hv%list_elem_of_In. apply list_elem_of_fmap in Hv as (e & -> & Hin). by apply entry_wf, He, list_elem_of_In.
Qed.

(** ** Streams *)

(** Rows as JSON, with one buffer that is not compressed; nothing is written that would
    not be read back, or that is longer than the columns are. *)
Definition option_json {A} (f : A -> Value) (o : option A) : Value := JArray (match o with Some x => [f x] | None => [] end).
Definition option_of_json {A} (f : Value -> option A) (v : Value) : option (option A) :=
  match v with JArray [] => Some None | JArray [x] => Some <$> f x | _ => None end.
Definition bool_of_json (v : Value) : option bool := match v with JBool b => Some b | _ => None end.
Definition node_json (n : Node) : Value :=
  JArray [json_of_unsigned (nd_kind n); json_of_unsigned (nd_children n); option_json JBool (nd_boolean n); option_json json_of_i64 (nd_signed n);
    option_json json_of_unsigned (nd_unsigned n); option_json json_of_unsigned (nd_float n); option_json JString (nd_text n);
    option_json (fun b => JArray (json_of_unsigned <$> b)) (nd_binary n)].
Definition node_of_json (v : Value) : option Node :=
  match v with
  | JArray [kind; children; boolean; signed; unsigned; float; text; binary] =>
      kind ← unsigned_of kind;
      children ← unsigned_of children;
      boolean ← option_of_json bool_of_json boolean;
      signed ← option_of_json value_as_i64 signed;
      unsigned ← option_of_json unsigned_of unsigned;
      float ← option_of_json unsigned_of float;
      text ← option_of_json value_as_str text;
      binary ← option_of_json (fun v => match v with JArray l => mapM unsigned_of l | _ => None end) binary;
      Some (TreeNode kind children boolean signed unsigned float text binary)
  | _ => None
  end.

Definition sample_schema : bytes := [0].
Definition sample_batch (rows : nat) (data : bytes) : bytes := 1 :: le_bytes 4 (Z.of_nat rows) ++ le_bytes 8 (Z.of_nat (length data)).
Definition uncompressed (text : bytes) : bytes := [255; 255; 255; 255; 255; 255; 255; 255] ++ text.
Definition sample_stream (rows : list Node) : bytes :=
  let data := uncompressed (to_vec (JArray (node_json <$> rows))) in
  frame sample_schema ++ frame (sample_batch (length rows) data) ++ data ++ frame [].

(** The text is after the schema, the message of the batch and the mark of a buffer. *)
Definition stream_rows (body : bytes) : option (list Node) :=
  let len := Z.to_nat (le_value (take 8 (drop 22 body)) - 8) in
  v ← read_text (take len (drop 38 body));
  match v with JArray l => mapM node_of_json l | _ => None end.

#[local] Instance sample_streams : ArrowStreams := {
  write_stream metadata rows :=
    if bool_decide (metadata = base_metadata) && (Z.of_nat (length rows) <? 2 ^ 32) &&
       (Z.of_nat (length (uncompressed (to_vec (JArray (node_json <$> rows))))) <? 2 ^ 63) &&
       (Z.of_nat (length (to_vec (JArray (node_json <$> rows)))) <=? columnar_bytes rows) &&
       bool_decide (stream_rows (sample_stream rows) = Some rows)
    then Some (sample_stream rows) else None;
  write_schema metadata := if bool_decide (metadata = base_metadata) then Some (frame sample_schema) else None;
  read_metadata body := if bool_decide (take 9 body = frame sample_schema) then Some base_metadata else None;
  read_batches body := [Some (stream_rows body)];
  root_as_message message :=
    match message with
    | [0] => Some (IpcMessage 0 SchemaHeader)
    | 1 :: b => let len := le_value (drop 4 b) in
        Some (IpcMessage len (BatchHeader (le_value (take 4 b)) (Some (true, true)) (Some [(0, len)])))
    | _ => None
    end;
  json_of_wide n := None
}.

#[local] Instance sample_streams_laws : ArrowStreamsLaws.
Proof.
  split; intros metadata rows body _; cbn [write_stream sample_streams]; case_match eqn:E; try done; intros <-%(inj Some);
    rewrite !andb_true_iff, !bool_decide_eq_true, !Z.ltb_lt, Z.leb_le in E; destruct E as ((((-> & Hrows) & Hdata) & Hcolumns) & Hread).
  - set (data := uncompressed (to_vec (JArray (node_json <$> rows)))) in *. set (n := Z.of_nat (length data)) in *.
    assert (n = 8 + Z.of_nat (length (to_vec (JArray (node_json <$> rows))))) as Hn by (unfold n, data, uncompressed; rewrite length_app; cbn [length]; lia).
    assert (declared data (0, n) = n - 8) as Hdeclared.
    { unfold declared. cbn [fst snd]. rewrite (proj2 (Z.eqb_neq _ _)) by lia. by change (take 8 (drop (Z.to_nat 0) data)) with [255; 255; 255; 255; 255; 255; 255; 255]. }
    exists sample_schema, (sample_batch (length rows) data), data, [(0, n)]. split_and!; try done.
    + cbn [root_as_message sample_streams sample_batch]. rewrite take_app_length', drop_app_length' by (by rewrite length_le_bytes).
      rewrite !le_value_bytes, !Z.mod_small; [done|..]; fold n; [change (8 * Z.of_nat 8) with 64|change (8 * Z.of_nat 4) with 32]; lia.
    + constructor; [|done]. unfold buffer_in. rewrite Hdeclared. cbn [fst snd]. lia.
    + cbn [fmap list_fmap zsum]. rewrite Hdeclared. lia.
  - cbn [read_metadata read_batches sample_streams]. split; [|by rewrite Hread]. by rewrite bool_decide_eq_true_2.
Qed.

(** The codes with which nothing was done. *)
#[local] Instance sample_refusals : Refusals := {| refuses code := String.eqb code "invalid_request" |}.

(** * A run *)

(** The answer to a mutation of the store; the answer to a root can be lost, and the
    root be written later. *)
Definition reply_cas (lost : bool) (q : CasRequest) (d : database) : option (reply MutationReceipt * database) :=
  match db_requests d !! cas_request_id q with
  | Some _ => None
  | None =>
      if lost && String.eqb (cas_key q) ROOT_KEY then Some (TaskFailed "lost", set_fate q Pending d)
      else if bool_decide (db_kv d !! cas_key q = cas_expects q)
      then match b64_decode (cas_value q) with
           | Some value => Some (Replied (Ok (Receipt (Some "committed") (Some true) None)),
               Database (<[cas_key q := value]> (db_kv d)) (<[cas_request_id q := (q, Resolved true)]> (db_requests d))
                 (db_log d ++ [(cas_request_id q, (cas_key q, value))]))
           | None => None
           end
      else Some (Replied (Ok (Receipt (Some "committed") (Some false) None)), set_fate q (Resolved false) d)
  end.

Lemma reply_cas_receives lost q d r d' : reply_cas lost q d = Some (r, d') -> receives q d r d'.
Proof.
  unfold reply_cas. destruct (db_requests d !! _) eqn:En; [done|]. case_match; [intros [= <- <-]; apply ReceivesNew; [done|by left|done|done]|].
  case_bool_decide as Hk.
  - destruct (b64_decode _) as [value|] eqn:Ev; [|done]. intros [= <- <-]. apply ReceivesNew; [done|right; by constructor| |done].
    intros receipt [= <-]. split; [intros _|done]. exists q. cbn. by rewrite lookup_insert_eq.
  - intros [= <- <-]. apply ReceivesNew; [done|right; by constructor| |done].
    intros receipt [= <-]. split; [intros _|done]. exists q. cbn. by rewrite lookup_insert_eq.
Qed.

(** The answer to a call of a mutation, whose next request id is [id]. *)
Definition serve (lost : bool) (id : string) (process : nat) (cmd : command) (w : world) (c : call InMemoryMetaState) : option (answer c * world) :=
  match c return option (answer c * world) with
  | KvCas q => '(r, d) ← reply_cas lost q (w_db w); Some (r, with_db d w)
  | NewUuid => if bool_decide (w_uuids w !! id = None) && (String.length id =? 36)%nat
      then Some (id, World (w_db w) (w_digests w) (<[id := cmd]> (w_uuids w)) (w_caches w)) else None
  | c => respond process w c
  end.

Lemma serve_serves lost id process cmd w c r w' : serve lost id process cmd w c = Some (r, w') -> serves process (Some cmd) w c r w'.
Proof.
  destruct c; cbn [serve]; try apply respond_serves.
  - intros ([r' d] & Hr%reply_cas_receives & [= <- <-])%bind_Some. by constructor.
  - case_match eqn:E; [|done]. apply andb_true_iff in E as [Hn%bool_decide_eq_true Hl%Nat.eqb_eq]. intros [= <- <-]. by apply ServesUuid.
Qed.

Fixpoint execute (calls : nat) (lost : bool) (id : string) (i : nat) (s : system) : system :=
  match calls with
  | O => s
  | Datatypes.S calls =>
      match s_mutations s !! i with
      | Some (Mutation process cmd (Call c k) ids start) =>
          match serve lost id process cmd (s_world s) c with
          | Some (r, w) => execute calls lost id i
              (System w (<[i := Mutation process cmd (k r) (drawn r ids) start]> (s_mutations s)) (s_readings s))
          | None => s
          end
      | _ => s
      end
  end.

Lemma execute_steps calls lost id i s : rtc system_step s (execute calls lost id i s).
Proof.
  revert s. induction calls as [|calls IH]; intros s; [done|]. cbn [execute].
  destruct (s_mutations s !! i) as [[process cmd [a|c k] ids start]|] eqn:E; [done| |done].
  destruct (serve lost id process cmd (s_world s) c) as [[r w]|] eqn:Es; [|done].
  eapply rtc_l; [|apply IH]. eapply StepMutation; [done|by eapply serve_serves].
Qed.

Definition mutated (lost : bool) (id : string) (i : nat) (process : nat) (cmd : command) (s : system) : system :=
  execute 40 lost id i (System (s_world s)
    (<[i := Mutation process cmd (mutate_command cmd) [] (root_log (w_db (s_world s)))]> (s_mutations s)) (s_readings s)).

Lemma mutated_steps lost id i process cmd s : s_mutations s !! i = None -> rtc system_step s (mutated lost id i process cmd s).
Proof. intros Hn. eapply rtc_l; [by apply StepMutate|]. apply execute_steps. Qed.

Definition first_id : string := "00000000-0000-4000-8000-000000000001".
Definition second_id : string := "00000000-0000-4000-8000-000000000002".
Definition third_id : string := "00000000-0000-4000-8000-000000000003".

(** A lease of one tick, and one that follows it. *)
Definition acquired_by (owner : string) : command := AcquireStandingRuntimeOwner (AcquireOwner "tenant" "program" "view" owner 1).
Definition claim_of (owner : string) (epoch expires : Z) : StandingRuntimeOwnerClaim :=
  OwnerClaim "tenant" "program" "view" owner None epoch expires.

(** One mutation is answered. *)
Definition answered_system : system := mutated false first_id 0 0 (acquired_by "a") initial_system.
(** The answer to the next is lost. *)
Definition lost_system : system := mutated true second_id 1 1 (acquired_by "b") answered_system.

Definition root_ids (s : system) : list string := (root_log (w_db (s_world s))).*1.
Definition mutation_done (s : system) (i : nat) : option bool :=
  m ← s_mutations s !! i;
  match m_prog m with Ret (Ok _) => Some true | Ret (Err _) => Some false | _ => None end.

Example answered_run : mutation_done answered_system 0 = Some true /\ root_ids answered_system = [first_id].
Proof. split; evaluated. Qed.
Example lost_run : mutation_done lost_system 1 = Some false /\ root_ids lost_system = [first_id].
Proof. split; evaluated. Qed.

(** A root that was received is written. *)
Definition settled (id : string) (s : system) : system :=
  match db_requests (w_db (s_world s)) !! id with
  | Some (q, Pending) =>
      match b64_decode (cas_value q) with
      | Some value =>
          if bool_decide (cas_request_id q = id) && bool_decide (db_kv (w_db (s_world s)) !! cas_key q = cas_expects q)
          then System (with_db (Database (<[cas_key q := value]> (db_kv (w_db (s_world s))))
            (<[cas_request_id q := (q, Resolved true)]> (db_requests (w_db (s_world s))))
            (db_log (w_db (s_world s)) ++ [(cas_request_id q, (cas_key q, value))])) (s_world s)) (s_mutations s) (s_readings s)
          else s
      | None => s
      end
  | _ => s
  end.

Lemma settled_steps id s : rtc system_step s (settled id s).
Proof.
  unfold settled. destruct (db_requests _ !! id) as [[q []]|] eqn:Eq; try done. destruct (b64_decode _) as [value|] eqn:Ev; [|done].
  case_match eqn:E; [|done]. apply andb_true_iff in E as [Hid%bool_decide_eq_true Hk%bool_decide_eq_true].
  apply rtc_once, StepSettle, (Settles _ id q); [done|done|by constructor].
Qed.

Fixpoint execute_read (calls : nat) (i : nat) (s : system) : system :=
  match calls with
  | O => s
  | Datatypes.S calls =>
      match s_readings s !! i with
      | Some (Reading process A read (Call c k) start) =>
          match respond process (s_world s) c with
          | Some (r, w) => execute_read calls i (System w (s_mutations s) (<[i := Reading process A read (k r) start]> (s_readings s)))
          | None => s
          end
      | _ => s
      end
  end.

Lemma execute_read_steps calls i s : rtc system_step s (execute_read calls i s).
Proof.
  revert s. induction calls as [|calls IH]; intros s; [done|]. cbn [execute_read].
  destruct (s_readings s !! i) as [[process A read [a|c k] start]|] eqn:E; [done| |done].
  destruct (respond process (s_world s) c) as [[r w]|] eqn:Es; [|done].
  eapply rtc_l; [|apply IH]. eapply StepReading; [done|by eapply respond_serves].
Qed.

Definition stopped (process : nat) (s : system) : system :=
  System (forget process (s_world s)) (filter (fun t => m_process t.2 <> process) (s_mutations s))
    (filter (fun t => r_process t.2 <> process) (s_readings s)).
Lemma stopped_step process s : rtc system_step s (stopped process s).
Proof. apply rtc_once, StepCrash. Qed.

Definition consulted (i process : nat) (A : Type) (read : checked Z -> meta A) (s : system) : system :=
  execute_read 40 i (System (s_world s) (s_mutations s)
    (<[i := Reading process A read (read_eval read) (root_log (w_db (s_world s)))]> (s_readings s))).
Lemma consulted_steps i process A read s : s_readings s !! i = None -> rtc system_step s (consulted i process A read s).
Proof. intros Hn. eapply rtc_l; [by apply StepRead|]. apply execute_read_steps. Qed.

(** The second root is written after its answer was lost, its process stops, and a third
    process reads. *)
Definition settled_system : system := settled second_id lost_system.
Definition stopped_system : system := stopped 1 settled_system.
Definition sample_read (now : checked Z) : meta (option StandingRuntimeOwnerClaim) :=
  read_standing_runtime_owner now "tenant" "program" "view".
Definition owner_type : Type := option StandingRuntimeOwnerClaim.
Definition read_system : system := consulted 0 2 owner_type sample_read stopped_system.

Lemma answered_slots : s_mutations initial_system !! 0%nat = None /\ s_mutations answered_system !! 1%nat = None /\
  s_readings stopped_system !! 0%nat = None.
Proof. split_and!; evaluated. Qed.
Lemma answered_running : running answered_system.
Proof. exact (mutated_steps false first_id 0 0 (acquired_by "a") initial_system (proj1 answered_slots)). Qed.
Lemma lost_steps : rtc system_step answered_system lost_system.
Proof. exact (mutated_steps true second_id 1 1 (acquired_by "b") answered_system (proj1 (proj2 answered_slots))). Qed.
Lemma stopped_steps : rtc system_step lost_system stopped_system.
Proof. transitivity settled_system; [exact (settled_steps second_id lost_system)|exact (stopped_step 1 settled_system)]. Qed.
Lemma read_steps : rtc system_step stopped_system read_system.
Proof. exact (consulted_steps 0 2 owner_type sample_read stopped_system (proj2 (proj2 answered_slots))). Qed.

Definition first_roots : list (string * bytes) := root_log (w_db (s_world answered_system)).
Definition all_roots : list (string * bytes) := root_log (w_db (s_world stopped_system)).
Lemma answered_mutation : s_mutations answered_system !! 0%nat = Some (Mutation 0 (acquired_by "a") (Ret (Ok (Acquired (claim_of "a" 1 2)))) [first_id] []).
Proof. evaluated. Qed.
Lemma lost_mutation : s_mutations lost_system !! 1%nat =
  Some (Mutation 1 (acquired_by "b") (Ret (Err (RhizaIndeterminate second_id))) [second_id] first_roots).
Proof. evaluated. Qed.
Lemma answered_reading : s_readings read_system !! 0%nat = Some (Reading 2 owner_type sample_read (Ret (Ok (Some (claim_of "b" 2 3)))) all_roots).
Proof. evaluated. Qed.
Lemma all_root_ids : all_roots.*1 = [first_id; second_id].
Proof. evaluated. Qed.
(** The first owner tries to renew its lease in a process of its own. *)
Definition first_owner : StandingRuntimeOwnerToken := OwnerToken "tenant" "program" "view" "a" 1.
Definition fenced_system : system := mutated false third_id 2 3 (RenewStandingRuntimeOwner first_owner 5) read_system.
Lemma fenced_steps : rtc system_step read_system fenced_system.
Proof. apply (mutated_steps false third_id 2 3 (RenewStandingRuntimeOwner first_owner 5) read_system). evaluated. Qed.

(** The two states that were published. *)
Definition first_state : InMemoryMetaState := (evaluated_at (acquired_by "a") 1 default_state).2.
Definition second_state : InMemoryMetaState := (evaluated_at (acquired_by "b") 2 first_state).2.
Definition body_of (s : InMemoryMetaState) : bytes := match encode s with Ok body => body | Err _ => [] end.
Definition history_roots : list (string * bytes) :=
  [(first_id, root_text 1 (body_of first_state)); (second_id, root_text 2 (body_of second_state))].

Lemma fenced_mutation : s_mutations fenced_system !! 2%nat =
  Some (Mutation 3 (RenewStandingRuntimeOwner first_owner 5) (Ret (Err StandingRuntimeOwnerMismatch)) [] history_roots).
Proof. evaluated. Qed.

(** A root that is the snapshot of a state, by evaluation. *)
Definition describedb (w : world) (g : Z) (s : InMemoryMetaState) : bool :=
  match encode s with Ok _ => true | Err _ => false end && (1 <=? g) && (g <=? u64_max) &&
  (Z.of_nat (length (body_of s)) <=? MAX_SNAPSHOT_BYTES) && bool_decide (body_of s ∈ w_digests w) &&
  forallb (fun chunk => bool_decide (db_kv (w_db w) !! page_key (hex_digest chunk) = Some chunk)) (chunks page_size (body_of s)).
Lemma describedb_ok w g s : describedb w g s = true -> describes w (Some (root_text g (body_of s))) g s.
Proof.
  unfold describedb. rewrite !andb_true_iff, !Z.leb_le, bool_decide_eq_true, forallb_forall. intros (((((He & ?) & ?) & ?) & ?) & Hp).
  exists (body_of s). split_and!; try done.
  - unfold body_of. by destruct (encode s).
  - intros chunk Hc%list_elem_of_In%Hp. by apply bool_decide_eq_true in Hc.
Qed.
Lemma described_states : describedb (s_world fenced_system) 1 first_state = true /\ describedb (s_world fenced_system) 2 second_state = true /\
  w_uuids (s_world fenced_system) !! first_id = Some (acquired_by "a") /\ w_uuids (s_world fenced_system) !! second_id = Some (acquired_by "b").
Proof. split_and!; evaluated. Qed.
Lemma published_moves : moves (acquired_by "a") (Acquired (claim_of "a" 1 2)) default_state first_state /\
  moves (acquired_by "b") (Acquired (claim_of "b" 2 3)) first_state second_state /\
  standing_runtime_owners second_state !! token_scope first_owner = Some (claim_of "b" 2 3).
Proof. split_and!; [exists 1; split; evaluated|exists 2; split; evaluated|evaluated]. Qed.

#[local] Opaque first_state second_state fenced_system.
Lemma fenced_history : history (s_world fenced_system) history_roots (Some (root_text 2 (body_of second_state))) 2 second_state.
Proof.
  destruct described_states as (H1%describedb_ok & H2%describedb_ok & Hu1 & Hu2). destruct published_moves as (Hm1 & Hm2 & _).
  exact (HistoryNext _ _ _ 1 _ _ _ _ _ _ (HistoryNext _ _ _ 0 _ _ _ _ _ _ (HistoryStart _) Hu1 Hm1 H1) Hu2 Hm2 H2).
Qed.

#[local] Opaque answered_system lost_system settled_system stopped_system read_system.

Lemma lost_running : running lost_system.
Proof. exact (transitivity answered_running lost_steps). Qed.
Lemma stopped_running : running stopped_system.
Proof. exact (transitivity lost_running stopped_steps). Qed.
Lemma read_running : running read_system.
Proof. exact (transitivity stopped_running read_steps). Qed.

(** * The theorems on the run *)

Lemma published_states_reachable_witness :
  NoDup (root_log (w_db (s_world stopped_system))).*1 /\
  (collided (s_world stopped_system) \/ exists g st,
    history (s_world stopped_system) (root_log (w_db (s_world stopped_system))) (db_kv (w_db (s_world stopped_system)) !! ROOT_KEY) g st /\ reachable st).
Proof. exact (published_states_reachable stopped_system stopped_running). Defined.

(** The first mutation was made once; the second, which was answered as indeterminate,
    was made after that. *)
Lemma mutation_answer_exact_witness :
  (collided (s_world read_system) \/ exists id v l root g st st', id ∈ [first_id] /\ [] `prefix_of` l /\
    l ++ [(id, v)] `prefix_of` root_log (w_db (s_world answered_system)) /\
    history (s_world answered_system) l root g st /\ moves (acquired_by "a") (Acquired (claim_of "a" 1 2)) st st' /\
    history (s_world answered_system) (l ++ [(id, v)]) (Some v) (g + 1) st' /\
    forall j, j ∈ [first_id] -> j <> id -> j ∉ (root_log (w_db (s_world read_system))).*1) /\
  (collided (s_world read_system) \/ (exists id, forall j, j ∈ [second_id] -> j <> id -> j ∉ (root_log (w_db (s_world read_system))).*1) /\
    (unsettled (RhizaIndeterminate second_id) \/ forall j, j ∈ [second_id] -> j ∉ (root_log (w_db (s_world read_system))).*1)) /\
  all_roots.*1 = [first_id; second_id].
Proof.
  pose proof (transitivity stopped_steps read_steps) as Hlost. split_and!.
  - exact (mutation_answer_exact answered_system read_system 0 0 (acquired_by "a") (Ok (Acquired (claim_of "a" 1 2))) [first_id] [] answered_running answered_mutation
      (transitivity lost_steps Hlost)).
  - exact (mutation_answer_exact lost_system read_system 1 1 (acquired_by "b") (Err (RhizaIndeterminate second_id)) [second_id] first_roots
      lost_running lost_mutation Hlost).
  - exact all_root_ids.
Defined.

Lemma reads_linearizable_witness :
  collided (s_world read_system) \/ exists l root g st, all_roots `prefix_of` l /\ l `prefix_of` root_log (w_db (s_world read_system)) /\
    history (s_world read_system) l root g st /\ reachable st /\ (sample_read (Ok (partition_authority_now_unix_ms st)) st).1 = Ok (Some (claim_of "b" 2 3)).
Proof. exact (reads_linearizable read_system 0 2 owner_type sample_read (Some (claim_of "b" 2 3)) all_roots read_running answered_reading). Defined.

Lemma published_state_served_witness :
  collided (s_world stopped_system) \/ exists g st w',
    history (s_world stopped_system) (root_log (w_db (s_world stopped_system))) (db_kv (w_db (s_world stopped_system)) !! ROOT_KEY) g st /\
    run 3 (read_eval sample_read) (s_world stopped_system) = Some ((sample_read (Ok (partition_authority_now_unix_ms st)) st).1, w').
Proof. exact (published_state_served stopped_system 3 owner_type sample_read stopped_running). Defined.

Lemma snapshot_within_bounds_witness :
  (forall chunk, chunk ∈ chunks page_size [1; 2; 3] ->
    check_mutation_size (page_key (hex_digest chunk)) (Z.of_nat (length chunk)) 0 = Ok tt) /\
  check_mutation_size ROOT_KEY (Z.of_nat (length (root_text 1 [1; 2; 3]))) 0 = Ok tt /\
  parse_manifest (root_text 1 [1; 2; 3]) = Ok (manifest_of 1 [1; 2; 3]).
Proof. apply (snapshot_within_bounds 1 [1; 2; 3] 0); [vm_compute; split; discriminate|vm_compute; discriminate|by left]. Defined.

Lemma replicated_owner_fenced_witness :
  collided (s_world fenced_system) \/
  exists e, (Err StandingRuntimeOwnerMismatch : checked (outcome (RenewStandingRuntimeOwner first_owner 5))) = Err e.
Proof.
  apply (replicated_owner_fenced fenced_system 2 3 (RenewStandingRuntimeOwner first_owner 5) (Err StandingRuntimeOwnerMismatch) []
    history_roots first_owner history_roots (Some (root_text 2 (body_of second_state))) 2 second_state (claim_of "b" 2 3)).
  - exact (transitivity read_running fenced_steps).
  - exact fenced_mutation.
  - reflexivity.
  - exact fenced_history.
  - reflexivity.
  - exact (proj2 (proj2 published_moves)).
  - left. reflexivity.
Defined.
