(* ===== verification/Text.v ===== *)
(** The text encodings of JSON values: the ordered encoding v1 of
    [velorix-core/src/delta.rs], which keys [DeltaBatch::net_rows], and the
    canonical JSON text that keys every operator's state
    ([velorix-core/src/operator.rs], [canonical_json]).

    A function that appends to a [&mut Vec<u8>] returns the bytes it appends. *)
From S2P Require Import Prelude BTree Json Digits Serde.

(** * Ordered text encoding (v1) *)

Definition is_ascii_control (b : Z) : bool := (b <? 32) || (b =? 127).

Definition escape_byte (b : Z) : bytes :=
  if b =? 34 then [92; 34] else
  if b =? 92 then [92; 92] else
  if b =? 10 then [92; 110] else
  if b =? 13 then [92; 114] else
  if b =? 9 then [92; 116] else
  if is_ascii_control b then unicode_escape b else [b].

Definition quoted (s : string) : bytes := literal escape_byte s.

(** Field names are written between quotes as they are. *)
Definition raw_key (k : string) : bytes := [34] ++ as_bytes k ++ [34].

Fixpoint encode_json_ordered `{SerdeJson} (value : Value) : bytes :=
  match value with
  | JNull => as_bytes "null"
  | JBool false => as_bytes "false"
  | JBool true => as_bytes "true"
  | JNumber n => as_bytes (ser_number n)
  | JString s => quoted s
  | JArray arr => [91] ++ join [44] (encode_json_ordered <$> arr) ++ [93]
  | JObject map =>
      [123] ++ join [44] ((fun f => raw_key f.1 ++ [58] ++ f.2) <$>
        sort_on fst ((fun f => (f.1, encode_json_ordered f.2)) <$> map)) ++ [125]
  end.

(** [TypedBinaryKey] is its bytes, compared lexicographically. *)
Definition encode_kv_ordered `{SerdeJson} (key value : Value) : bytes :=
  encode_json_ordered key ++ encode_json_ordered value.

Definition encode_key_ordered `{SerdeJson} (key : Value) : bytes := encode_json_ordered key.

(** * Canonical JSON text *)

(** [items.join(",")]. *)
Definition commas (items : list string) : string := String.concat "," items.

Fixpoint canonical_json `{SerdeJson} (value : Value) : string :=
  match value with
  | JNull => "null"
  | JBool false => "false"
  | JBool true => "true"
  | JNumber n => ser_number n
  | JString s => ser_string s
  | JArray values => "[" +:+ commas (canonical_json <$> values) +:+ "]"
  | JObject values =>
      "{" +:+ commas (sort_on id
        ((fun f => ser_string f.1 +:+ ":" +:+ canonical_json f.2) <$> values)) +:+ "}"
  end.


(** * The printers are instances of [text] *)

(** v1: numbers and strings as JSON, field names unescaped, fields by name. *)
Definition v1_text `{SerdeJson} : Value -> bytes :=
  text (fun n => as_bytes (ser_number n)) quoted raw_key (sort_on fst).

Lemma encode_json_ordered_text `{SerdeJson} v : encode_json_ordered v = v1_text v.
Proof.
  unfold v1_text. induction v as [|[]| | |l IH|fs IH] using Value_ind'; try done; simpl.
  - do 3 f_equal. apply list_fmap_ext. rewrite Forall_forall in IH.
    intros i x Hi%list_elem_of_lookup_2. by apply IH.
  - do 3 f_equal. unfold pfield. f_equal. f_equal. apply list_fmap_ext. rewrite Forall_forall in IH.
    intros i x Hi%list_elem_of_lookup_2. f_equal. by apply IH.
Qed.

(** Field names whose raw form ends at the closing quote. *)
Definition no_quote (k : string) : bool := forallb (fun b => negb (b =? 34)) (as_bytes k).

Lemma raw_key_prefix k k' r r' : no_quote k = true -> no_quote k' = true ->
  raw_key k ++ r = raw_key k' ++ r' -> k = k' /\ r = r'.
Proof.
  unfold no_quote, raw_key. intros Hk Hk' Heq. simpl in Heq. injection Heq as Heq.
  rewrite <-!(assoc_L (++)) in Heq. simpl in Heq.
  enough (as_bytes k = as_bytes k' /\ r = r') as [Hb ->] by (split; [by apply (inj as_bytes)|done]).
  revert Hk Hk' Heq. generalize (as_bytes k) (as_bytes k').
  induction l as [|b l IH]; intros [|b' l'] Hl Hl' Heq; simpl in *.
  - by injection Heq as ->.
  - injection Heq as <- _. done.
  - injection Heq as -> _. done.
  - injection Heq as -> Heq. apply andb_true_iff in Hl as [_ Hl], Hl' as [_ Hl'].
    by destruct (IH l' Hl Hl' Heq) as [-> ->].
Qed.

Lemma quoted_prefix s s' r r' : quoted s ++ r = quoted s' ++ r' -> s = s' /\ r = r'.
Proof. apply literal_prefix. vm_compute. reflexivity. Qed.

Lemma v1_printer `{SerdeJsonLaws} :
  printer_ok (fun n => as_bytes (ser_number n)) quoted raw_key (sort_on fst) wf_number no_quote.
Proof.
  split.
  - apply ser_number_numeric.
  - intros n Hn. apply (ser_number_nonempty n). by apply (inj as_bytes).
  - intros n m Hn Hm Heq. apply ser_number_inj; [done..|]. by apply (inj as_bytes).
  - intros s. unfold quoted, literal. simpl. eauto.
  - apply quoted_prefix.
  - intros k. unfold raw_key. simpl. eauto.
  - intros k k' r r' Hk Hk' Heq. apply raw_key_prefix in Heq as [-> Heq]; [|done..].
    by injection Heq.
  - intros l. apply sort_on_perm.
Qed.

Section v1.
Context `{SerdeJsonLaws}.

Definition v1_ok : Value -> bool := covered wf_number no_quote.

Lemma encode_json_ordered_unique v w r r' :
  v1_ok v = true -> v1_ok w = true -> (shape v = 3 -> delimited r /\ delimited r') ->
  encode_json_ordered v ++ r = encode_json_ordered w ++ r' -> normalize v = normalize w /\ r = r'.
Proof. rewrite !encode_json_ordered_text. apply (text_unique v1_printer). Qed.

Lemma encode_json_ordered_proper v w :
  v1_ok v = true -> v1_ok w = true -> normalize v = normalize w ->
  encode_json_ordered v = encode_json_ordered w.
Proof.
  rewrite !encode_json_ordered_text. apply text_proper.
  intros l1 l2 Hp Hnd. by apply sort_on_ext.
Qed.

(** Two pairs of values are told apart by [encode_kv_ordered]. *)
Lemma encode_kv_ordered_unique k v k' v' :
  v1_ok k = true -> v1_ok v = true -> v1_ok k' = true -> v1_ok v' = true -> shape k <> 3 ->
  encode_kv_ordered k v = encode_kv_ordered k' v' <->
  normalize k = normalize k' /\ normalize v = normalize v'.
Proof.
  intros Hk Hv Hk' Hv' Hnum. unfold encode_kv_ordered. split.
  - intros Heq. apply encode_json_ordered_unique in Heq as [-> Heq]; [|done..]. split; [done|].
    apply (encode_json_ordered_unique v v' [] []); [done..|]. by rewrite Heq.
  - intros [Heqk Heqv]. f_equal; by apply encode_json_ordered_proper.
Qed.

(** [encode_kv_ordered] tells two (key, value) pairs apart, up to the order
    of object fields, when the key is not a number and no object field name
    contains a quote: the domain on which the v1 identity of a row is sound. *)
Theorem encode_kv_ordered_identifies k v k' v' :
  v1_ok k = true -> v1_ok v = true -> v1_ok k' = true -> v1_ok v' = true -> shape k <> 3 ->
  encode_kv_ordered k v = encode_kv_ordered k' v' <->
  normalize k = normalize k' /\ normalize v = normalize v'.
Proof. apply encode_kv_ordered_unique. Qed.
End v1.

Lemma numbers_run_together `{SerdeJsonLaws} :
  encode_kv_ordered (JNumber (PosInt 1)) (JNumber (PosInt 23))
    = encode_kv_ordered (JNumber (PosInt 12)) (JNumber (PosInt 3)).
Proof.
  unfold encode_kv_ordered. simpl. rewrite !ser_number_pos by (unfold u64_max; lia). reflexivity.
Qed.

(** Outside that domain distinct pairs share an encoding: numeric keys run
    into numeric values, and a field name that contains a quote can spell out
    further fields. *)
Theorem encode_kv_ordered_collisions `{SerdeJsonLaws} :
  let num n := JNumber (PosInt n) in
  let quote := String (Ascii.ascii_of_nat 34) EmptyString in
  let odd_name := "a" +:+ quote +:+ ":null," +:+ quote +:+ "b" in
  encode_kv_ordered (num 1) (num 23) = encode_kv_ordered (num 12) (num 3) /\
  encode_json_ordered (JObject [(odd_name, JNull)])
    = encode_json_ordered (JObject [("a", JNull); ("b", JNull)]).
Proof. split; [exact numbers_run_together|reflexivity]. Qed.

(** * Canonical JSON text is unambiguous *)

Section canonical.
Context `{SerdeJsonLaws}.

Definition canonical_key (k : string) : bytes := as_bytes (ser_string k).
Definition canonical_text : Value -> bytes :=
  text (fun n => as_bytes (ser_number n)) canonical_key canonical_key (sort_on (pfield canonical_key)).

Lemma as_bytes_cmp s t : cmp (as_bytes s) (as_bytes t) = cmp s t.
Proof.
  revert t. induction s as [|c s IH]; intros [|d t]; try done.
  change (lex (cmp (byte_of_ascii c) (byte_of_ascii d)) (cmp (as_bytes s) (as_bytes t))
    = lex (cmp c d) (cmp s t)).
  rewrite IH. f_equal. unfold byte_of_ascii. apply N2Z.inj_compare.
Qed.

Lemma as_bytes_commas l : as_bytes (commas l) = join [44] (as_bytes <$> l).
Proof.
  unfold commas. induction l as [|x [|y l] IH]; [done| |].
  - simpl. by rewrite app_nil_r.
  - change (String.concat "," (x :: y :: l)) with (x +:+ "," +:+ String.concat "," (y :: l)).
    rewrite !as_bytes_app, IH. done.
Qed.

Lemma canonical_json_text v : as_bytes (canonical_json v) = canonical_text v.
Proof.
  unfold canonical_text. induction v as [|[]| | |l IH|fs IH] using Value_ind'; try done; simpl.
  - rewrite !as_bytes_app, as_bytes_commas. do 3 f_equal. rewrite <-list_fmap_compose.
    apply list_fmap_ext. rewrite Forall_forall in IH.
    intros i x Hi%list_elem_of_lookup_2. by apply IH.
  - rewrite !as_bytes_app, as_bytes_commas. do 3 f_equal.
    rewrite <-(sort_on_fmap (pfield canonical_key) _ id) by done.
    unfold sort_on. rewrite <-(sort_by_fmap as_bytes _ (fun x y => leb (id x) (id y)))
      by (intros x y; unfold leb, id; by rewrite as_bytes_cmp).
    f_equal. rewrite <-!list_fmap_compose. apply list_fmap_ext.
    rewrite Forall_forall in IH. intros i x Hi%list_elem_of_lookup_2.
    simpl. unfold pfield. rewrite !as_bytes_app. do 2 f_equal. by apply IH.
Qed.

Lemma canonical_key_prefix k k' r r' :
  canonical_key k ++ r = canonical_key k' ++ r' -> k = k' /\ r = r'.
Proof. apply ser_string_prefix. Qed.

Lemma canonical_printer :
  printer_ok (fun n => as_bytes (ser_number n)) canonical_key canonical_key
    (sort_on (pfield canonical_key)) wf_number (fun _ => true).
Proof.
  split.
  - apply ser_number_numeric.
  - intros n Hn. apply (ser_number_nonempty n). by apply (inj as_bytes).
  - intros n m Hn Hm Heq. apply ser_number_inj; [done..|]. by apply (inj as_bytes).
  - apply ser_string_head.
  - apply canonical_key_prefix.
  - apply ser_string_head.
  - intros k k' r r' _ _ Heq. apply canonical_key_prefix in Heq as [-> Heq]. by injection Heq.
  - intros l. apply sort_on_perm.
Qed.

Lemma canonical_arrange l1 l2 : l1 ≡ₚ l2 -> NoDup l1.*1 ->
  sort_on (pfield canonical_key) l1 = sort_on (pfield canonical_key) l2.
Proof.
  intros Hp Hnd. apply sort_on_ext; [done|].
  apply NoDup_fmap_2_strong; [|by apply NoDup_fmap_1 in Hnd].
  intros [k t] [k' t'] Hx Hy Heq. unfold pfield in Heq. simpl in Heq.
  apply canonical_key_prefix in Heq as [-> Heq]. by injection Heq as ->.
Qed.

Lemma covered_wf v : covered wf_number (fun _ => true) v = wf_value v.
Proof.
  induction v as [| | | |l IH|fs IH] using Value_ind'; try done; simpl.
  - induction IH as [|x l Hx _ IHl]; simpl; [done|]. by rewrite Hx, IHl.
  - f_equal. induction IH as [|x l Hx _ IHl]; simpl; [done|]. by rewrite Hx, IHl.
Qed.

Lemma canonical_json_proper v w : wf_value v = true -> wf_value w = true ->
  normalize v = normalize w -> canonical_json v = canonical_json w.
Proof.
  rewrite <-!covered_wf. intros Hv Hw Heq. apply (inj as_bytes). rewrite !canonical_json_text.
  eapply text_proper; [apply canonical_arrange|done..].
Qed.

Lemma canonical_json_inj v w : wf_value v = true -> wf_value w = true ->
  canonical_json v = canonical_json w -> normalize v = normalize w.
Proof.
  rewrite <-!covered_wf. intros Hv Hw Heq. apply (f_equal as_bytes) in Heq.
  rewrite !canonical_json_text in Heq.
  apply (text_unique canonical_printer v w [] []); [done..|]. by rewrite !app_nil_r.
Qed.

(** The canonical text that keys every operator's state is the same for two
    values exactly when they are the same JSON value. *)
Theorem canonical_json_identifies v w : wf_value v = true -> wf_value w = true ->
  canonical_json v = canonical_json w <-> normalize v = normalize w.
Proof. split; [by apply canonical_json_inj|by apply canonical_json_proper]. Qed.
End canonical.

(** * Witnesses *)

Definition row_a : Value := JObject [("n", JNumber (PosInt 7)); ("id", JString "x")].
Definition row_b : Value := JObject [("id", JString "x"); ("n", JNumber (PosInt 7))].

Lemma encode_kv_ordered_identifies_witness :
  @encode_kv_ordered plain_json (JString "k") row_a = @encode_kv_ordered plain_json (JString "k") row_b.
Proof.
  apply (@encode_kv_ordered_identifies plain_json plain_json_laws); try (vm_compute; reflexivity);
    [vm_compute; discriminate|split; vm_compute; reflexivity].
Defined.

Lemma encode_kv_ordered_collisions_witness :
  @encode_kv_ordered plain_json (JNumber (PosInt 1)) (JNumber (PosInt 23))
    = @encode_kv_ordered plain_json (JNumber (PosInt 12)) (JNumber (PosInt 3)).
Proof. apply (@encode_kv_ordered_collisions plain_json plain_json_laws). Defined.

Lemma canonical_json_identifies_witness :
  @canonical_json plain_json row_a = @canonical_json plain_json row_b.
Proof.
  apply (@canonical_json_identifies plain_json plain_json_laws); vm_compute; reflexivity.
Defined.
