(* ===== verification/Delta.v ===== *)
(** Weighted change records, [velorix-core/src/delta.rs]: records, batches and
    the consolidation of a batch into its net rows.

    A batch denotes a Z-set: a finite map from rows to integer weights. The
    theorems say that consolidation computes it, within the integer ranges and
    on the rows whose v1 encoding is unambiguous. *)
From stdpp Require Import sorting.
From S2P Require Import Prelude BTree Json Digits Serde Text.

Inductive DeltaError := WeightOverflow.
#[export] Instance DeltaError_eq_dec : EqDecision DeltaError.
Proof. solve_decision. Defined.

(** The newtypes around a JSON value, and the records over them. *)
Record DeltaKey := DKey { key_json : Value }.
Record DeltaValue := DValue { value_json : Value }.
Record DeltaRecord := DRecord { key : DeltaKey; value : DeltaValue; weight : Z }.
Record DeltaBatch := DBatch { records : list DeltaRecord }.

#[export] Instance DeltaKey_eq_dec : EqDecision DeltaKey.
Proof. solve_decision. Defined.
#[export] Instance DeltaValue_eq_dec : EqDecision DeltaValue.
Proof. solve_decision. Defined.
#[export] Instance DeltaRecord_eq_dec : EqDecision DeltaRecord.
Proof. solve_decision. Defined.
#[export] Instance DeltaBatch_eq_dec : EqDecision DeltaBatch.
Proof. solve_decision. Defined.

Definition record_inverse (r : DeltaRecord) : result DeltaError DeltaRecord :=
  w ← ok_or WeightOverflow (checked_i64 (- weight r));
  Ok (DRecord (key r) (value r) w).

Definition combine (a b : DeltaBatch) : DeltaBatch := DBatch (records a ++ records b).

Definition inverse (b : DeltaBatch) : result DeltaError DeltaBatch :=
  rs ← try_map record_inverse (records b); Ok (DBatch rs).

Definition diff (a b : DeltaBatch) : result DeltaError DeltaBatch :=
  rs ← try_map record_inverse (records a); Ok (DBatch (rs ++ records b)).

Section net.
Context `{SerdeJson}.

Abbreviation net_map := (btree bytes (DeltaKey * DeltaValue * Z)).

(** The identity of a record's row. *)
Definition row_id (r : DeltaRecord) : bytes :=
  encode_kv_ordered (key_json (key r)) (value_json (value r)).

(** One iteration of the consolidation loop. *)
Definition net_step (net : net_map) (r : DeltaRecord) : result DeltaError net_map :=
  let '(k, v, w) := default (key r, value r, 0) (net !! row_id r) in
  w' ← ok_or WeightOverflow (checked_i128 (w + weight r));
  Ok (<[row_id r := (k, v, w')]> net).

(** [into_values().filter_map(..).collect()]. *)
Fixpoint collect_net (l : list (DeltaKey * DeltaValue * Z)) :
    result DeltaError (list DeltaRecord) :=
  match l with
  | [] => Ok []
  | (k, v, w) :: l =>
      if w =? 0 then collect_net l else
      w' ← ok_or WeightOverflow (checked_i64 w);
      rest ← collect_net l;
      Ok (DRecord k v w' :: rest)
  end.

Definition net_rows (b : DeltaBatch) : result DeltaError (list DeltaRecord) :=
  net ← try_fold net_step ∅ (records b);
  collect_net (entries net).*2.

Definition weight_step (weights : btree bytes Z) (r : DeltaRecord) :
    result DeltaError (btree bytes Z) :=
  w' ← ok_or WeightOverflow (checked_i128 (default 0 (weights !! row_id r) + weight r));
  Ok (<[row_id r := w']> weights).

Definition count_step (count w : Z) : result DeltaError Z :=
  if w =? 0 then Ok count else
  _ ← ok_or WeightOverflow (checked_i64 w);
  Ok (count + 1).

Definition net_row_count (b : DeltaBatch) : result DeltaError Z :=
  weights ← try_fold weight_step ∅ (records b);
  try_fold count_step 0 (entries weights).*2.

(** * The Z-set of a batch *)

(** Total weight of the records with identity [i]. *)
Definition id_weight (i : bytes) (l : list DeltaRecord) : Z :=
  zsum ((fun r => if decide (row_id r = i) then weight r else 0) <$> l).

Lemma id_weight_app i l1 l2 : id_weight i (l1 ++ l2) = id_weight i l1 + id_weight i l2.
Proof. unfold id_weight. by rewrite fmap_app, zsum_app. Qed.

Lemma id_weight_cons i r l :
  id_weight i (r :: l) = (if decide (row_id r = i) then weight r else 0) + id_weight i l.
Proof. done. Qed.

Lemma id_weight_absent i l : i ∉ row_id <$> l -> id_weight i l = 0.
Proof.
  intros Hi. apply zsum_zero. intros r Hr. destruct (decide _) as [<-|]; [|done].
  exfalso. apply Hi. by apply list_elem_of_fmap_2.
Qed.

(** Batches a [Vec] can hold: weights of type [i64], and fewer than 2^63
    records, so that no [i128] accumulator can overflow. *)
Definition batch_ok (l : list DeltaRecord) : Prop :=
  Forall (fun r => is_i64 (weight r) = true) l /\ Z.of_nat (length l) < 2 ^ 63.

Lemma id_weight_bound i l : Forall (fun r => is_i64 (weight r) = true) l ->
  - (2 ^ 63 * Z.of_nat (length l)) <= id_weight i l <= 2 ^ 63 * Z.of_nat (length l).
Proof.
  induction 1 as [|r l Hr _ IH]; [done|]. rewrite id_weight_cons. simpl length.
  destruct (decide _); range.
Qed.

Lemma id_weight_i128 i l : batch_ok l -> is_i128 (id_weight i l) = true.
Proof.
  intros [Hl Hn]. pose proof (id_weight_bound i l Hl). apply in_range_true.
  unfold i128_min, i128_max. lia.
Qed.

(** The map after a prefix: every identity seen, with its first record's key and
    value, and the total of its weights. *)
Definition net_inv (l : list DeltaRecord) (net : net_map) : Prop := forall i,
  match net !! i with
  | None => i ∉ row_id <$> l
  | Some (k, v, w) => w = id_weight i l /\
      exists r, List.find (fun r => bool_decide (row_id r = i)) l = Some r /\ key r = k /\ value r = v
  end.

Lemma find_snoc {A} (p : A -> bool) l x :
  List.find p (l ++ [x]) = match List.find p l with Some y => Some y | None => if p x then Some x else None end.
Proof. induction l as [|y l IH]; simpl; [by destruct (p x)|]. by destruct (p y). Qed.

Lemma find_row_id i l r : List.find (fun r => bool_decide (row_id r = i)) l = Some r ->
  r ∈ l /\ row_id r = i.
Proof. intros [Hin Hi%bool_decide_eq_true]%find_some. split; [by apply list_elem_of_In|done]. Qed.

Lemma find_absent i l : i ∉ row_id <$> l -> List.find (fun r => bool_decide (row_id r = i)) l = None.
Proof.
  intros Hi. destruct (List.find _ l) eqn:Hf; [|done]. exfalso. apply Hi.
  apply find_row_id in Hf as [Hin <-]. by apply list_elem_of_fmap_2.
Qed.

Lemma net_step_inv l net r : batch_ok (l ++ [r]) -> net_inv l net ->
  exists net', net_step net r = Ok net' /\ net_inv (l ++ [r]) net'.
Proof.
  intros Hok Hinv. unfold net_step. pose proof (Hinv (row_id r)) as Hr.
  pose proof (id_weight_i128 (row_id r) _ Hok) as H128.
  rewrite id_weight_app, id_weight_cons, decide_True in H128 by done.
  change (id_weight (row_id r) []) with 0 in H128. rewrite Z.add_0_r in H128.
  destruct (default _ _) as [[k v] w] eqn:Hd.
  assert (w = id_weight (row_id r) l /\ exists r0,
    List.find (fun r0 => bool_decide (row_id r0 = row_id r)) (l ++ [r]) = Some r0 /\ key r0 = k /\ value r0 = v)
    as [Hw Hfind].
  { rewrite find_snoc. destruct (net !! row_id r) as [[[k0 v0] w0]|]; simpl in Hd.
    - injection Hd as -> -> ->. destruct Hr as [Hw (r0 & Hf & Hk & Hv)]. rewrite Hf. eauto.
    - injection Hd as <- <- <-. rewrite find_absent, bool_decide_eq_true_2 by done.
      rewrite id_weight_absent by done. eauto. }
  unfold checked_i128. rewrite Hw, H128. simpl. eexists. split; [done|]. intros i.
  destruct (decide (row_id r = i)) as [<-|Hi].
  - rewrite lookup_insert_eq, id_weight_app, id_weight_cons, decide_True by done.
    change (id_weight (row_id r) []) with 0. split; [lia|done].
  - rewrite lookup_insert_ne by done. specialize (Hinv i).
    destruct (net !! i) as [[[k0 v0] w0]|].
    + rewrite id_weight_app, id_weight_cons, decide_False by done.
      change (id_weight i []) with 0. destruct Hinv as [-> (r0 & Hf & Hk & Hv)].
      split; [lia|]. rewrite find_snoc, Hf. eauto.
    + rewrite fmap_app, elem_of_app. intros [?|Hin]; [done|].
      apply list_elem_of_singleton in Hin. congruence.
Qed.

Lemma batch_ok_prefix l1 l2 : batch_ok (l1 ++ l2) -> batch_ok l1.
Proof. intros [Hw Hl]. rewrite length_app in Hl. apply Forall_app in Hw as [? _]. split; [done|lia]. Qed.

Lemma net_fold_inv l2 l1 net : batch_ok (l1 ++ l2) -> net_inv l1 net ->
  exists net', try_fold net_step net l2 = Ok net' /\ net_inv (l1 ++ l2) net'.
Proof.
  revert l1 net. induction l2 as [|r l2 IH]; intros l1 net Hok Hinv; simpl.
  - rewrite app_nil_r. eauto.
  - rewrite cons_middle, (assoc_L (++)) in Hok |- *.
    destruct (net_step_inv l1 net r) as (net' & -> & Hinv'); [eapply batch_ok_prefix, Hok|done|].
    simpl. by apply IH.
Qed.

(** The rows of a consolidated map, in the order of their identities. *)
Definition net_row (e : DeltaKey * DeltaValue * Z) : option DeltaRecord :=
  if e.2 =? 0 then None else Some (DRecord e.1.1 e.1.2 e.2).

Lemma collect_net_spec l :
  collect_net l = if forallb (fun e => is_i64 e.2) l then Ok (omap net_row l) else Err WeightOverflow.
Proof.
  induction l as [|[[k v] w] l IH]; [done|]. cbn [collect_net forallb].
  change (omap net_row ((k, v, w) :: l)) with
    (match net_row (k, v, w) with Some r => r :: omap net_row l | None => omap net_row l end).
  rewrite IH. unfold net_row at 3; simpl. destruct (Z.eqb_spec w 0) as [->|Hw]; [done|].
  unfold checked_i64. destruct (is_i64 w); simpl; [|done]. by destruct (forallb _ l).
Qed.

(** Consolidated rows: distinct identities in increasing order, no zero weight. *)
Definition consolidated (rows : list DeltaRecord) : Prop :=
  StronglySorted (fun r r' => cmp (row_id r) (row_id r') = Lt) rows /\
  Forall (fun r => weight r <> 0) rows.

(** The rows a consolidated map yields carry the weights of the batch. *)
Lemma net_inv_row l net i k v w : net_inv l net -> net !! i = Some (k, v, w) ->
  w = id_weight i l /\ exists r, r ∈ l /\ row_id r = i /\ key r = k /\ value r = v.
Proof.
  intros Hinv Hi. specialize (Hinv i). rewrite Hi in Hinv.
  destruct Hinv as [-> (r & [? ?]%find_row_id & ? & ?)]. eauto 10.
Qed.

Lemma net_inv_row_id l net i k v w : net_inv l net -> net !! i = Some (k, v, w) ->
  row_id (DRecord k v w) = i.
Proof. intros Hinv Hi. by destruct (net_inv_row _ _ _ _ _ _ Hinv Hi) as (_ & r & _ & <- & <- & <-). Qed.

Lemma rows_consolidated l net : net_inv l net -> consolidated (omap net_row (entries net).*2).
Proof.
  intros Hinv. rewrite omap_fmap. split.
  - eapply StronglySorted_omap; [|apply entries_StronglySorted].
    intros [i [[k v] w]] [j [[k' v'] w']] x' y' Hx Hy.
    apply elem_of_entries in Hx, Hy. unfold net_row; simpl.
    destruct (w =? 0), (w' =? 0); intros [= <-] [= <-]; simpl.
    by rewrite (net_inv_row_id _ _ _ _ _ _ Hinv Hx), (net_inv_row_id _ _ _ _ _ _ Hinv Hy).
  - apply Forall_forall. intros r ([i [[k v] w]] & _ & Hr)%list_elem_of_omap.
    unfold net_row in Hr; simpl in Hr.
    destruct (Z.eqb_spec w 0); [done|]. by injection Hr as <-.
Qed.

Lemma rows_weight l net i : net_inv l net ->
  id_weight i (omap net_row (entries net).*2) = id_weight i l.
Proof.
  intros Hinv. assert (Hsum : id_weight i (omap net_row (entries net).*2) =
    msum (fun j e => if decide (j = i) then e.2 else 0) net).
  { unfold msum. assert (Hids : forall j k v w, (j, (k, v, w)) ∈ entries net -> row_id (DRecord k v w) = j).
    { intros j k v w Hj%elem_of_entries. by eapply net_inv_row_id. }
    revert Hids. generalize (entries net).
    induction l0 as [|[j [[k v] w]] es IH]; intros Hids; [done|].
    rewrite !fmap_cons. cbn [zsum fst snd]. rewrite <-IH by (intros; eapply Hids; by right).
    change (omap net_row ((k, v, w) :: es.*2)) with
      (match net_row (k, v, w) with Some r => r :: omap net_row es.*2 | None => omap net_row es.*2 end).
    unfold net_row at 1; cbn [fst snd]. destruct (Z.eqb_spec w 0) as [->|Hw].
    - by destruct (decide _).
    - rewrite id_weight_cons, (Hids j) by left. done. }
  rewrite Hsum, (msum_only _ _ i).
  - specialize (Hinv i). destruct (net !! i) as [[[k v] w]|]; simpl.
    + rewrite decide_True by done. by destruct Hinv as [-> _].
    + by rewrite id_weight_absent.
  - intros j e Hj _. by rewrite decide_False.
Qed.

(** What [net_rows] returns, on every batch it can be given. *)
Lemma net_rows_spec b : batch_ok (records b) ->
  match net_rows b with
  | Ok rows => consolidated rows /\ (forall i, id_weight i rows = id_weight i (records b)) /\
      (forall r, r ∈ records b -> is_i64 (id_weight (row_id r) (records b)) = true) /\
      (forall r, r ∈ rows -> exists r', r' ∈ records b /\ key r' = key r /\ value r' = value r)
  | Err e => exists r, r ∈ records b /\ is_i64 (id_weight (row_id r) (records b)) = false
  end.
Proof.
  intros Hok. unfold net_rows.
  destruct (net_fold_inv (records b) [] ∅ Hok) as (net & -> & Hinv).
  { intros i. rewrite lookup_empty. apply not_elem_of_nil. }
  simpl in Hinv. simpl. rewrite collect_net_spec.
  destruct (forallb (fun e => is_i64 e.2) (entries net).*2) eqn:Hall.
  - rewrite forallb_forall in Hall. split_and!.
    + by eapply rows_consolidated.
    + intros i. by apply rows_weight.
    + intros r Hr. specialize (Hinv (row_id r)).
      destruct (net !! row_id r) as [[[k v] w]|] eqn:Hi.
      * destruct Hinv as [<- _]. apply (Hall (k, v, w)), list_elem_of_In.
        apply (list_elem_of_fmap_2 snd _ (row_id r, (k, v, w))), elem_of_entries, Hi.
      * destruct Hinv. by apply list_elem_of_fmap_2.
    + intros r ([[k v] w] & Hin & Hr)%list_elem_of_omap.
      apply list_elem_of_fmap_1 in Hin as ([i e] & Heq & Hi%elem_of_entries).
      simpl in Heq. subst e. destruct (net_inv_row _ _ _ _ _ _ Hinv Hi) as (_ & r' & ? & _ & ? & ?).
      unfold net_row in Hr; simpl in Hr. destruct (w =? 0); [done|]. injection Hr as <-. eauto.
  - apply not_true_iff_false in Hall. rewrite forallb_forall in Hall.
    assert (Hex : ~ Forall (fun e => is_i64 e.2 = true) (entries net).*2).
    { rewrite Forall_forall. contradict Hall. intros e He%list_elem_of_In. auto. }
    apply not_Forall_Exists, Exists_exists in Hex as (e & Hin & He%not_true_is_false); [|apply _].
    apply list_elem_of_fmap_1 in Hin as ([i e'] & -> & Hi%elem_of_entries).
    destruct e' as [[k v] w]. destruct (net_inv_row _ _ _ _ _ _ Hinv Hi) as (-> & r & ? & <- & _).
    eauto.
Qed.

(** ** Counting without keeping the rows *)

Lemma weight_fold_net net l :
  try_fold weight_step (snd <$> net) l = fmap (M:=btree bytes) snd <$> try_fold net_step net l.
Proof.
  revert net. induction l as [|r l IH]; intros net; [done|]. simpl.
  assert (weight_step (snd <$> net) r = fmap (M:=btree bytes) snd <$> net_step net r) as ->.
  { unfold weight_step, net_step. rewrite lookup_fmap.
    destruct (net !! row_id r) as [[[k v] w]|]; simpl; (destruct (checked_i128 _); [|done]);
      cbn [ok_or mbind result_bind fmap result_fmap]; f_equal; symmetry; apply fmap_insert. }
  destruct (net_step net r) as [net'|]; simpl; [apply IH|done].
Qed.

Lemma count_fold (es : list (DeltaKey * DeltaValue * Z)) c :
  try_fold count_step c es.*2 =
    if forallb (fun e => is_i64 e.2) es then Ok (c + Z.of_nat (length (omap net_row es)))
    else Err WeightOverflow.
Proof.
  revert c. induction es as [|[[k v] w] es IH]; intros c; [simpl; f_equal; lia|].
  rewrite fmap_cons. cbn [try_fold forallb snd].
  change (omap net_row ((k, v, w) :: es)) with
    (match net_row (k, v, w) with Some r => r :: omap net_row es | None => omap net_row es end).
  assert (count_step c w = if w =? 0 then Ok c else
    if is_i64 w then Ok (c + 1) else Err WeightOverflow) as ->.
  { unfold count_step, checked_i64. by destruct (w =? 0), (is_i64 w). }
  unfold net_row at 1; cbn [snd]. destruct (Z.eqb_spec w 0) as [->|Hw]; simpl; [apply IH|].
  destruct (is_i64 w); simpl; [|done]. rewrite IH. destruct (forallb _ es); [|done].
  f_equal. lia.
Qed.

(** ** Batches with the same Z-set *)

(** A row list as (identity, weight) pairs. *)
Definition weights_of (rows : list DeltaRecord) : list (bytes * Z) :=
  (fun r => (row_id r, weight r)) <$> rows.

Lemma consolidated_weight rows r : consolidated rows -> r ∈ rows ->
  id_weight (row_id r) rows = weight r.
Proof.
  intros [Hs _]. induction Hs as [|x rows Hs IH Hx]; [by intros ?%not_elem_of_nil|].
  rewrite Forall_forall in Hx. rewrite id_weight_cons, elem_of_cons. intros [->|Hr].
  - rewrite decide_True, id_weight_absent; [lia| |done].
    intros (y & Heq & Hy)%list_elem_of_fmap_1. apply Hx in Hy.
    by apply cmp_lt_ne in Hy.
  - rewrite IH, decide_False; [done| |done]. by apply cmp_lt_ne, Hx.
Qed.

Lemma consolidated_NoDup rows : consolidated rows -> NoDup (row_id <$> rows).
Proof.
  intros [Hs _]. induction Hs as [|x l Hs IH Hx]; csimpl; constructor; [|done].
  rewrite Forall_forall in Hx. intros (y & Heq & Hy%Hx)%list_elem_of_fmap_1.
  by apply cmp_lt_ne in Hy.
Qed.

Lemma elem_of_weights rows i w : consolidated rows ->
  (i, w) ∈ weights_of rows <-> w <> 0 /\ id_weight i rows = w.
Proof.
  intros Hc. split.
  - intros (r & [= -> ->] & Hr)%list_elem_of_fmap_1.
    split; [|by apply consolidated_weight]. destruct Hc as [_ Hz].
    rewrite Forall_forall in Hz. by apply Hz.
  - intros [Hw Hi]. destruct (decide (i ∈ row_id <$> rows)) as [Hin|Hin].
    + apply list_elem_of_fmap_1 in Hin as (r & -> & Hr).
      apply list_elem_of_fmap. exists r. rewrite consolidated_weight in Hi by done. by subst w.
    + rewrite id_weight_absent in Hi by done. congruence.
Qed.

Lemma weights_sorted rows : consolidated rows ->
  StronglySorted (fun p q => cmp p.1 q.1 = Lt) (weights_of rows).
Proof.
  intros [Hs _]. unfold weights_of. induction Hs as [|x rows Hs IH Hx]; csimpl; constructor; [done|].
  by apply Forall_fmap.
Qed.

Lemma consolidated_unique rows1 rows2 : consolidated rows1 -> consolidated rows2 ->
  (forall i, id_weight i rows1 = id_weight i rows2) -> weights_of rows1 = weights_of rows2.
Proof.
  intros H1 H2 Heq.
  assert (Hnd : forall rows, consolidated rows -> NoDup (weights_of rows)).
  { intros rows Hs%consolidated_NoDup. apply (NoDup_fmap_1 fst).
    unfold weights_of. by rewrite <-list_fmap_compose. }
  eapply StronglySorted_unique_strong; [|by apply weights_sorted..|].
  - intros x y _ _ Hxy Hyx. pose proof (cmp_lt_trans _ _ _ Hxy Hyx) as Hxx.
    by rewrite cmp_refl in Hxx.
  - apply NoDup_Permutation; [by apply Hnd..|]. intros [i w].
    by rewrite !elem_of_weights, Heq.
Qed.

Lemma present i l : id_weight i l <> 0 -> exists r, r ∈ l /\ row_id r = i.
Proof.
  intros Hi. destruct (decide (i ∈ row_id <$> l)) as [(r & -> & ?)%list_elem_of_fmap_1|Hn]; [eauto|].
  by rewrite id_weight_absent in Hi.
Qed.

Lemma net_rows_ext b1 b2 : batch_ok (records b1) -> batch_ok (records b2) ->
  (forall i, id_weight i (records b1) = id_weight i (records b2)) ->
  weights_of <$> net_rows b1 = weights_of <$> net_rows b2.
Proof.
  intros H1 H2 Heq. pose proof (net_rows_spec b1 H1) as S1. pose proof (net_rows_spec b2 H2) as S2.
  assert (Hzero : forall i, is_i64 (id_weight i (records b1)) = false ->
    id_weight i (records b1) <> 0) by (by intros i Hi Hz; rewrite Hz in Hi).
  destruct (net_rows b1) as [rows1|[]], (net_rows b2) as [rows2|[]]; simpl.
  - f_equal. destruct S1 as (? & S1 & _), S2 as (? & S2 & _).
    apply consolidated_unique; [done..|]. intros i. by rewrite S1, S2.
  - destruct S1 as (_ & _ & S1 & _), S2 as (r & Hr & Hbad). rewrite <-Heq in Hbad.
    destruct (present _ _ (Hzero _ Hbad)) as (r1 & Hr1 & Hid).
    apply S1 in Hr1. rewrite Hid in Hr1. congruence.
  - destruct S2 as (_ & _ & S2 & _), S1 as (r & Hr & Hbad).
    pose proof (Hzero _ Hbad) as Hnz. rewrite Heq in Hbad, Hnz.
    destruct (present _ _ Hnz) as (r1 & Hr1 & Hid).
    apply S2 in Hr1. rewrite Hid in Hr1. congruence.
  - done.
Qed.

(** ** Inverses *)

Lemma record_inverse_ok r r' : record_inverse r = Ok r' ->
  key r' = key r /\ value r' = value r /\ weight r' = - weight r /\ is_i64 (- weight r) = true.
Proof.
  unfold record_inverse. intros (w & [-> Hw]%ok_or_ok%checked_i64_some & [= <-])%bind_ok. done.
Qed.

Lemma inverses_weight l l' i : try_map record_inverse l = Ok l' -> id_weight i l' = - id_weight i l.
Proof.
  intros Hl%try_map_ok. induction Hl as [|r r' l l' Hr Hl IH]; [done|].
  rewrite !id_weight_cons, IH. apply record_inverse_ok in Hr as (Hk & Hv & Hw & _).
  unfold row_id. rewrite Hk, Hv, Hw. destruct (decide _); lia.
Qed.

(** [net_row_count] is the number of rows [net_rows] returns, and fails
    exactly when it does, on every batch. *)
Theorem net_row_count_length b :
  net_row_count b = (fun rows => Z.of_nat (length rows)) <$> net_rows b.
Proof.
  unfold net_row_count, net_rows.
  pose proof (weight_fold_net ∅ (records b)) as Hfold. rewrite fmap_empty in Hfold.
  rewrite Hfold. destruct (try_fold net_step ∅ (records b)) as [net|e]; [|done].
  rewrite Ok_fmap, !Ok_bind, entries_fmap, collect_net_spec.
  replace ((prod_map id snd <$> entries net).*2) with (((entries net).*2).*2)
    by (rewrite <-!list_fmap_compose; done).
  rewrite count_fold. by destruct (forallb _ _).
Qed.

(** Appending the difference [diff a b] to [a] consolidates to the same
    rows and weights as [b], or fails as [b] does. *)
Theorem diff_reaches a b d : diff a b = Ok d -> batch_ok (records (combine a d)) ->
  weights_of <$> net_rows (combine a d) = weights_of <$> net_rows b.
Proof.
  unfold diff. intros (l & Hl & [= <-])%bind_ok Hok. simpl in Hok.
  apply net_rows_ext; [done| |].
  - destruct Hok as [Hw Hlen]. rewrite !length_app in Hlen.
    rewrite !Forall_app in Hw. split; [apply Hw|lia].
  - intros i. simpl. rewrite !id_weight_app, (inverses_weight _ _ i Hl). lia.
Qed.

End net.

(** * Rows as JSON values *)

Section zset.
Context `{SerdeJsonLaws}.

(** Rows on which the v1 identity is unambiguous. *)
Definition row_ok (r : DeltaRecord) : Prop :=
  v1_ok (key_json (key r)) = true /\ v1_ok (value_json (value r)) = true /\
  shape (key_json (key r)) <> 3.

Definition same_row (r r' : DeltaRecord) : Prop :=
  normalize (key_json (key r)) = normalize (key_json (key r')) /\
  normalize (value_json (value r)) = normalize (value_json (value r')).
#[local] Instance same_row_dec r r' : Decision (same_row r r').
Proof. unfold same_row. apply _. Defined.

(** The weight of the row of [r] in the Z-set of a batch. *)
Definition row_weight (r : DeltaRecord) (l : list DeltaRecord) : Z :=
  zsum ((fun r' => if decide (same_row r' r) then weight r' else 0) <$> l).

Lemma row_weight_id r l : row_ok r -> Forall row_ok l -> row_weight r l = id_weight (row_id r) l.
Proof.
  intros (Hk & Hv & Hs) Hl. rewrite Forall_forall in Hl. apply zsum_ext. intros r' Hr'.
  destruct (Hl r' Hr') as (Hk' & Hv' & Hs'). apply decide_ext.
  unfold row_id. by rewrite encode_kv_ordered_unique.
Qed.

(** Consolidation computes the Z-set of a batch whose rows are in the v1
    domain: it succeeds exactly when every row's total weight is an [i64], and
    then each row's weight in the result is its total in the batch, no weight
    is zero and no two rows are the same JSON row. *)
Theorem net_rows_zset b : batch_ok (records b) -> Forall row_ok (records b) ->
  match net_rows b with
  | Ok rows =>
      (forall r, row_ok r -> row_weight r rows = row_weight r (records b)) /\
      (forall r, r ∈ rows -> weight r <> 0) /\
      (forall i j r r', rows !! i = Some r -> rows !! j = Some r' -> same_row r r' -> i = j) /\
      (forall r, r ∈ records b -> is_i64 (row_weight r (records b)) = true)
  | Err _ => exists r, r ∈ records b /\ is_i64 (row_weight r (records b)) = false
  end.
Proof.
  intros Hok Hrows. pose proof (net_rows_spec b Hok) as Hspec.
  assert (Hall : forall r, r ∈ records b -> row_ok r) by (by apply Forall_forall).
  destruct (net_rows b) as [rows|e].
  - destruct Hspec as ([Hs Hz] & Hw & Hfit & Hsrc).
    assert (Hok' : Forall row_ok rows).
    { apply Forall_forall. intros r (r' & Hr' & Hk & Hv)%Hsrc. apply Hall in Hr'.
      unfold row_ok. by rewrite <-Hk, <-Hv. }
    split_and!.
    + intros r Hr. by rewrite !row_weight_id, Hw.
    + by apply Forall_forall.
    + intros i j r r' Hi Hj Hsame.
      assert (Hid : row_id r = row_id r').
      { rewrite Forall_forall in Hok'. unfold row_id.
        destruct (Hok' r) as (? & ? & ?); [by eapply list_elem_of_lookup_2|].
        destruct (Hok' r') as (? & ? & ?); [by eapply list_elem_of_lookup_2|].
        by apply encode_kv_ordered_unique. }
      apply (NoDup_lookup (row_id <$> rows) i j (row_id r)); [by apply consolidated_NoDup|..];
        rewrite list_lookup_fmap; [by rewrite Hi|by rewrite Hj, Hid].
    + intros r Hr. rewrite row_weight_id; auto.
  - destruct Hspec as (r & Hr & Hbad). exists r. split; [done|]. rewrite row_weight_id; auto.
Qed.

Definition num_row (k v w : Z) : DeltaRecord :=
  DRecord (DKey (JNumber (PosInt k))) (DValue (JNumber (PosInt v))) w.

(** Outside that domain consolidation merges distinct rows: inserting the
    row (1, 23) and deleting the row (12, 3) is reported as no change. *)
Theorem net_rows_merges_distinct_rows :
  net_rows (DBatch [num_row 1 23 1; num_row 12 3 (-1)]) = Ok [] /\
  ~ same_row (num_row 1 23 1) (num_row 12 3 (-1)).
Proof.
  split; [|by intros [[=] _]].
  set (b := DBatch _). assert (Hw : forall i, id_weight i (records b) = 0).
  { intros i. unfold b. simpl. rewrite !id_weight_cons. unfold row_id. simpl key. simpl value.
    simpl key_json. simpl value_json. rewrite numbers_run_together.
    change (id_weight i []) with 0. simpl weight. destruct (decide _); lia. }
  assert (Hok : batch_ok (records b)) by (split; [by repeat constructor|done]).
  pose proof (net_rows_spec b Hok) as Hspec. destruct (net_rows b) as [rows|e].
  - destruct Hspec as (Hc & Heq & _). destruct rows as [|r rows]; [done|]. exfalso.
    pose proof (consolidated_weight _ r Hc ltac:(left)) as Hr. rewrite Heq, Hw in Hr.
    destruct Hc as [_ Hz]. by apply Forall_cons in Hz as [? _].
  - destruct Hspec as (r & _ & Hbad). by rewrite Hw in Hbad.
Qed.
End zset.

(** * Witnesses *)

Definition str_row (k v : string) (w : Z) : DeltaRecord :=
  DRecord (DKey (JString k)) (DValue (JString v)) w.

Definition before : DeltaBatch := DBatch [str_row "a" "x" 2; str_row "b" "y" 1].
Definition after : DeltaBatch := DBatch [str_row "b" "y" 1; str_row "c" "z" 5].

Lemma diff_reaches_witness :
  exists d, diff before after = Ok d /\
    @weights_of plain_json <$> @net_rows plain_json (combine before d)
      = @weights_of plain_json <$> @net_rows plain_json after.
Proof.
  eexists. split; [vm_compute; reflexivity|].
  apply (@diff_reaches plain_json before after); [vm_compute; reflexivity|].
  split; [repeat constructor|vm_compute; reflexivity].
Defined.

Definition demo_rows : list DeltaRecord :=
  match @net_rows plain_json (combine before after) with Ok rows => rows | Err _ => [] end.
Lemma demo_rows_ok : @net_rows plain_json (combine before after) = Ok demo_rows.
Proof. vm_compute. reflexivity. Qed.

Lemma net_rows_zset_witness : length demo_rows = 3%nat /\
  forall r, row_ok r -> row_weight r demo_rows = row_weight r (records (combine before after)).
Proof.
  split; [vm_compute; reflexivity|].
  assert (Hok : batch_ok (records (combine before after))) by (split; [repeat constructor|vm_compute; reflexivity]).
  assert (Hrows : Forall row_ok (records (combine before after))) by (repeat constructor; discriminate).
  pose proof (@net_rows_zset plain_json plain_json_laws (combine before after) Hok Hrows) as Hz.
  rewrite demo_rows_ok in Hz. exact (proj1 Hz).
Defined.

Lemma net_rows_merges_distinct_rows_witness :
  @net_rows plain_json (DBatch [num_row 1 23 1; num_row 12 3 (-1)]) = Ok [].
Proof. apply (@net_rows_merges_distinct_rows plain_json plain_json_laws). Defined.
