(* ===== verification/Join.v ===== *)
(** The incremental keyed equi-join of [velorix-core/src/operator.rs]: each side
    keeps the net weight of every (key, value) it has seen, and each input batch
    yields the change of the joined rows.

    The Rust struct is generic in the closure [join_values]; here it is a
    section variable, a function of the two values ([prepare_epoch] requires an
    [Fn]). The theorems ask of it that it cannot tell apart two values with the
    same canonical text. *)
From S2P Require Import Prelude BTree Json Digits Serde Text Delta.

Inductive OperatorError :=
| DeltaErr (e : DeltaError)
| OpWeightOverflow
| NonIntegerAggregateValue
| NonDecimalAggregateValue
| DecimalPrecisionOverflow
| InvalidAggregateStateValue.
#[export] Instance OperatorError_eq_dec : EqDecision OperatorError.
Proof. solve_decision. Defined.

(** * Stateless operators *)

Definition map_delta_batch (input : DeltaBatch)
    (transform : DeltaRecord -> result OperatorError (DeltaKey * DeltaValue)) :
    result OperatorError DeltaBatch :=
  rs ← try_map (fun r => kv ← transform r; Ok (DRecord kv.1 kv.2 (weight r))) (records input);
  Ok (DBatch rs).

(** [filter_map] to [Some(Ok)], [None] or [Some(Err)], then [collect]. *)
Fixpoint try_filter {A} (p : A -> result OperatorError bool) (l : list A) : result OperatorError (list A) :=
  match l with
  | [] => Ok []
  | x :: l =>
      keep ← p x;
      rest ← try_filter p l;
      Ok (if (keep : bool) then x :: rest else rest)
  end.

Definition filter_delta_batch (input : DeltaBatch)
    (predicate : DeltaRecord -> result OperatorError bool) : result OperatorError DeltaBatch :=
  rs ← try_filter predicate (records input); Ok (DBatch rs).

(** * One side of the join *)

Record SideStateRecord := SRecord { s_key : DeltaKey; s_value : DeltaValue; s_weight : Z }.

Definition to_record (s : SideStateRecord) : result OperatorError DeltaRecord :=
  Ok (DRecord (s_key s) (s_value s) (s_weight s)).

Abbreviation SideValues := (btree string SideStateRecord).
Abbreviation SideState := (btree string SideValues).
Abbreviation SideOverlay := (btree string (btree string (option SideStateRecord))).

Definition checked_weight_product (left right : Z) : result OperatorError Z :=
  ok_or OpWeightOverflow (checked_i64 (left * right)).

Section side.
Context `{SerdeJson}.

Definition key_text (k : DeltaKey) : string := canonical_json (key_json k).
Definition value_text (v : DeltaValue) : string := canonical_json (value_json v).

(** The new weight of a cell: through [i128], back to [i64]. *)
Definition add_weight (old delta : Z) : result OperatorError Z :=
  w ← ok_or OpWeightOverflow (checked_i128 (old + delta));
  ok_or OpWeightOverflow (checked_i64 w).

(** [values.remove] or [values.insert], by the new weight. *)
Definition set_cell (values : SideValues) (v : string) (c : option SideStateRecord) : SideValues :=
  match c with Some r => <[v := r]> values | None => delete v values end.

(** The inner map back under its key, or no entry when it is empty. *)
Definition set_values (s : SideState) (k : string) (values : SideValues) : SideState :=
  match entries values with [] => delete k s | _ => <[k := values]> s end.

Definition side_step (next : SideState) (r : DeltaRecord) : result OperatorError SideState :=
  let k := key_text (key r) in
  let v := value_text (value r) in
  let values := default ∅ (next !! k) in
  w ← add_weight (default 0 (s_weight <$> values !! v)) (weight r);
  Ok (set_values next k
       (set_cell values v (if w =? 0 then None else Some (SRecord (key r) (value r) w)))).

Definition applied (s : SideState) (input : DeltaBatch) : result OperatorError SideState :=
  try_fold side_step s (records input).

(** [expect] on the conversion, which never fails: [None] would be the panic. *)
Definition side_batch (s : SideState) : option DeltaBatch :=
  match try_map to_record (concat ((fun kv => (entries kv.2).*2) <$> entries s)) with
  | Ok rs => Some (DBatch rs)
  | Err _ => None
  end.

Definition net_records_for_key (s : SideState) (k : DeltaKey) : result OperatorError (list DeltaRecord) :=
  match s !! key_text k with
  | None => Ok []
  | Some values => try_map to_record (entries values).*2
  end.

(** ** Overlays *)

Definition merge_values (values : SideValues) (replacements : btree string (option SideStateRecord)) :
    SideValues :=
  foldl (fun vs p => set_cell vs p.1 p.2) values (entries replacements).

Definition merged_records_for_key (base : SideState) (overlay : SideOverlay) (k : DeltaKey) :
    result OperatorError (list DeltaRecord) :=
  let values := default ∅ (base !! key_text k) in
  let values := match overlay !! key_text k with
    | Some replacements => merge_values values replacements | None => values end in
  try_map to_record (entries values).*2.

Definition apply_overlay_record (base : SideState) (overlay : SideOverlay) (r : DeltaRecord) :
    result OperatorError SideOverlay :=
  let k := key_text (key r) in
  let v := value_text (value r) in
  let previous := match overlay !! k ≫= (!!) v with
    | Some entry => entry
    | None => base !! k ≫= (!!) v
    end in
  w ← add_weight (default 0 (s_weight <$> previous)) (weight r);
  let replacement := if w =? 0 then None else Some (SRecord (key r) (value r) w) in
  Ok (<[k := <[v := replacement]> (default ∅ (overlay !! k))]> overlay).

Definition apply_overlay (base : SideState) (overlay : SideOverlay) : SideState :=
  foldl (fun s p => set_values s p.1 (merge_values (default ∅ (s !! p.1)) p.2)) base (entries overlay).
End side.

(** * The join *)

Inductive JoinInputSide := Left | Right.

(** [join_values] is the section variable [jv]. *)
Record KeyedEquiJoin := Join {
  left : SideState;
  right : SideState;
  instance_id : Z;
  revision : Z
}.

Record PreparedKeyedEquiJoinEpoch := PreparedEpoch {
  base_revision : Z;
  join_instance_id : Z;
  left_overlay : SideOverlay;
  right_overlay : SideOverlay;
  touched : btree string DeltaKey;
  output : DeltaBatch
}.

Definition overlay_of (p : PreparedKeyedEquiJoinEpoch) (side : JoinInputSide) : SideOverlay :=
  match side with Left => left_overlay p | Right => right_overlay p end.
Definition side_of (j : KeyedEquiJoin) (side : JoinInputSide) : SideState :=
  match side with Left => left j | Right => right j end.

Section join.
Context `{SerdeJson} (jv : DeltaValue -> DeltaValue -> result OperatorError DeltaValue).

(** [NEXT_JOIN_INSTANCE_ID] hands out [instance]. *)
Definition join_new (instance : Z) : KeyedEquiJoin := Join ∅ ∅ instance 0.

(** The joined rows of one input record with the records of the other side. *)
Definition join_record (side : JoinInputSide) (r : DeltaRecord) (others : list DeltaRecord) :
    result OperatorError (list DeltaRecord) :=
  try_map (fun o =>
    w ← checked_weight_product (weight r) (weight o);
    v ← match side with Left => jv (value r) (value o) | Right => jv (value o) (value r) end;
    Ok (DRecord (key r) v w)) others.

Definition join_step (side : JoinInputSide) (other : SideState) (out : list DeltaRecord) (r : DeltaRecord) :
    result OperatorError (list DeltaRecord) :=
  others ← net_records_for_key other (key r);
  rows ← join_record side r others;
  Ok (out ++ rows).

Definition join_against (side : JoinInputSide) (input : DeltaBatch) (other : SideState) :
    result OperatorError DeltaBatch :=
  out ← try_fold (join_step side other) [] (records input); Ok (DBatch out).

Definition apply_left (j : KeyedEquiJoin) (input : DeltaBatch) :
    result OperatorError (KeyedEquiJoin * DeltaBatch) :=
  out ← join_against Left input (right j);
  l ← applied (left j) input;
  Ok (Join l (right j) (instance_id j) (wrapping_add_u64 (revision j) 1), out).

Definition apply_right (j : KeyedEquiJoin) (input : DeltaBatch) :
    result OperatorError (KeyedEquiJoin * DeltaBatch) :=
  out ← join_against Right input (left j);
  r ← applied (right j) input;
  Ok (Join (left j) r (instance_id j) (wrapping_add_u64 (revision j) 1), out).

(** The loop state of [prepare_epoch]. *)
Record epoch_state := EpochState {
  e_left : SideOverlay; e_right : SideOverlay;
  e_touched : btree string DeltaKey; e_out : list DeltaRecord }.

Definition prepare_record (j : KeyedEquiJoin) (side : JoinInputSide) (e : epoch_state) (r : DeltaRecord) :
    result OperatorError epoch_state :=
  let touched := match e_touched e !! key_text (key r) with
    | Some _ => e_touched e | None => <[key_text (key r) := key r]> (e_touched e) end in
  others ← match side with
    | Left => merged_records_for_key (right j) (e_right e) (key r)
    | Right => merged_records_for_key (left j) (e_left e) (key r)
    end;
  rows ← join_record side r others;
  match side with
  | Left =>
      ov ← apply_overlay_record (left j) (e_left e) r;
      Ok (EpochState ov (e_right e) touched (e_out e ++ rows))
  | Right =>
      ov ← apply_overlay_record (right j) (e_right e) r;
      Ok (EpochState (e_left e) ov touched (e_out e ++ rows))
  end.

Definition prepare_epoch (j : KeyedEquiJoin) (inputs : list (JoinInputSide * DeltaBatch)) :
    result OperatorError PreparedKeyedEquiJoinEpoch :=
  e ← try_fold (fun e i => try_fold (prepare_record j i.1) e (records i.2))
        (EpochState ∅ ∅ ∅ []) inputs;
  Ok (PreparedEpoch (revision j) (instance_id j) (e_left e) (e_right e) (e_touched e) (DBatch (e_out e))).

Definition validate_prepared_epoch (j : KeyedEquiJoin) (p : PreparedKeyedEquiJoinEpoch) :
    result OperatorError unit :=
  fail_if (negb (join_instance_id p =? instance_id j) || negb (base_revision p =? revision j))
    OpWeightOverflow.

Definition commit_prepared_epoch (j : KeyedEquiJoin) (p : PreparedKeyedEquiJoinEpoch) :
    result OperatorError KeyedEquiJoin :=
  _ ← validate_prepared_epoch j p;
  Ok (Join (apply_overlay (left j) (left_overlay p)) (apply_overlay (right j) (right_overlay p))
        (instance_id j) (wrapping_add_u64 (revision j) 1)).

Definition touched_keys (p : PreparedKeyedEquiJoinEpoch) (side : JoinInputSide) : list DeltaKey :=
  List.filter (fun k => match overlay_of p side !! key_text k with Some _ => true | None => false end)
    (entries (touched p)).*2.

Definition prepared_side_records (j : KeyedEquiJoin) (p : PreparedKeyedEquiJoinEpoch)
    (side : JoinInputSide) (k : DeltaKey) (after : bool) : result OperatorError (list DeltaRecord) :=
  if after then merged_records_for_key (side_of j side) (overlay_of p side) k
  else net_records_for_key (side_of j side) k.

Definition left_state (j : KeyedEquiJoin) : option DeltaBatch := side_batch (left j).
Definition right_state (j : KeyedEquiJoin) : option DeltaBatch := side_batch (right j).

Definition restore_state (j : KeyedEquiJoin) (l r : DeltaBatch) : result OperatorError KeyedEquiJoin :=
  l' ← applied ∅ l;
  r' ← applied ∅ r;
  rev ← ok_or OpWeightOverflow (checked_u64 (revision j + 1));
  Ok (Join l' r' (instance_id j) rev).
End join.
