(* ===== verification/JoinProofs.v ===== *)
(** Correctness of the incremental keyed equi-join: what the two sides hold, that
    every output is the change of the full join, and that a prepared epoch is
    the sequential application of its inputs. *)
From S2P Require Import Prelude BTree Json Digits Serde Text Delta Join.

(** * Cells *)

Definition cell (s : SideState) (k v : string) : option SideStateRecord := s !! k ≫= (!!) v.
Definition cell_weight (s : SideState) (k v : string) : Z := default 0 (s_weight <$> cell s k v).

(** No key is kept for an empty map of values. *)
Definition no_empty (s : SideState) : Prop := forall k values, s !! k = Some values -> values <> ∅.

Lemma add_weight_ok o d w : add_weight o d = Ok w <-> w = o + d /\ is_i64 (o + d) = true.
Proof.
  unfold add_weight. rewrite bind_ok. setoid_rewrite ok_or_ok. split.
  - intros (w' & [-> _]%checked_i128_some & [-> ?]%checked_i64_some). done.
  - intros [-> Hw]. exists (o + d). rewrite checked_i128_some, checked_i64_some.
    split_and!; [done| |done|done]. range.
Qed.

Lemma default_lookup_cell (s : SideState) k v : default ∅ (s !! k) !! v = cell s k v.
Proof. unfold cell. destruct (s !! k) as [values|]; simpl; [done|]. apply lookup_empty. Qed.

Lemma lookup_set_cell (values : SideValues) v c v' :
  set_cell values v c !! v' = if decide (v' = v) then c else values !! v'.
Proof.
  destruct c as [r|]; simpl; destruct (decide (v' = v)) as [->|Hv].
  - apply lookup_insert_eq.
  - by apply lookup_insert_ne.
  - apply lookup_delete_eq.
  - by apply lookup_delete_ne.
Qed.

Lemma set_values_lookup (s : SideState) k values k' :
  set_values s k values !! k' =
    if decide (k' = k) then (if decide (values = ∅) then None else Some values) else s !! k'.
Proof.
  unfold set_values. destruct (entries values) as [|e es] eqn:He.
  - apply entries_empty_iff in He as ->. rewrite (decide_True (P := ∅ = ∅)) by done.
    destruct (decide (k' = k)) as [->|Hk]; [apply lookup_delete_eq|by apply lookup_delete_ne].
  - rewrite (decide_False (P := values = ∅)) by (intros ->; done).
    destruct (decide (k' = k)) as [->|Hk]; [apply lookup_insert_eq|by apply lookup_insert_ne].
Qed.

Lemma cell_set_values (s : SideState) k values k' v :
  cell (set_values s k values) k' v = if decide (k' = k) then values !! v else cell s k' v.
Proof.
  unfold cell. rewrite set_values_lookup. destruct (decide (k' = k)); [|done].
  destruct (decide (values = ∅)) as [->|]; simpl; [by rewrite lookup_empty|done].
Qed.

Lemma no_empty_set_values s k values : no_empty s -> no_empty (set_values s k values).
Proof.
  intros Hs k' values'. rewrite set_values_lookup.
  destruct (decide (k' = k)); [|apply Hs]. destruct (decide (values = ∅)); congruence.
Qed.

(** Two sides with the same cells are the same map. *)
Lemma side_ext s1 s2 : no_empty s1 -> no_empty s2 ->
  (forall k v, cell s1 k v = cell s2 k v) -> s1 = s2.
Proof.
  intros H1 H2 Heq. apply map_eq. intros k.
  assert (Hval : default ∅ (s1 !! k) = default ∅ (s2 !! k)).
  { apply map_eq. intros v. rewrite !default_lookup_cell. apply Heq. }
  destruct (s1 !! k) as [v1|] eqn:E1, (s2 !! k) as [v2|] eqn:E2; simpl in Hval;
    [by f_equal|..|done].
  - by destruct (H1 _ _ E1).
  - by destruct (H2 _ _ E2).
Qed.

Definition write_cell (s : SideState) (k v : string) (c : option SideStateRecord) : SideState :=
  set_values s k (set_cell (default ∅ (s !! k)) v c).

Lemma cell_write_cell s k v c k' v' :
  cell (write_cell s k v c) k' v' = if decide (k' = k /\ v' = v) then c else cell s k' v'.
Proof.
  unfold write_cell. rewrite cell_set_values, lookup_set_cell, default_lookup_cell.
  destruct (decide (k' = k)) as [->|], (decide (v' = v)) as [->|];
    destruct (decide _); try naive_solver; done.
Qed.

Lemma default_write_cell s k v c k' :
  default ∅ (write_cell s k v c !! k') =
    if decide (k' = k) then set_cell (default ∅ (s !! k)) v c else default ∅ (s !! k').
Proof.
  apply map_eq. intros v'. rewrite default_lookup_cell, cell_write_cell.
  destruct (decide (k' = k)) as [->|].
  - rewrite lookup_set_cell, default_lookup_cell.
    destruct (decide (v' = v)), (decide _); try naive_solver; done.
  - rewrite default_lookup_cell. destruct (decide _); naive_solver.
Qed.

Lemma no_empty_write_cell s k v c : no_empty s -> no_empty (write_cell s k v c).
Proof. apply no_empty_set_values. Qed.

Lemma msum_set_cell f values v c :
  msum f (set_cell values v c) = msum f values - default 0 (f v <$> values !! v) + default 0 (f v <$> c).
Proof. destruct c; simpl; [apply msum_insert|rewrite msum_delete; lia]. Qed.

Section side_facts.
Context `{SerdeJson}.

(** What a record leaves in its cell. *)
Definition new_cell (s : SideState) (r : DeltaRecord) : option SideStateRecord :=
  let w := cell_weight s (key_text (key r)) (value_text (value r)) + weight r in
  if w =? 0 then None else Some (SRecord (key r) (value r) w).

Lemma side_step_ok s r s' : side_step s r = Ok s' <->
  is_i64 (cell_weight s (key_text (key r)) (value_text (value r)) + weight r) = true /\
  s' = write_cell s (key_text (key r)) (value_text (value r)) (new_cell s r).
Proof.
  unfold side_step. rewrite default_lookup_cell.
  change (default 0 (s_weight <$> cell s ?k ?v)) with (cell_weight s k v).
  rewrite bind_ok. setoid_rewrite add_weight_ok. split.
  - intros (w & [-> Hw] & [= <-]). done.
  - intros [Hw ->]. eexists. split; [done|]. done.
Qed.

(** The invariant of a side: no empty inner map, every record in the cell of its
    own texts, weights non-zero and of type [i64]. *)
Definition record_ok (k v : string) (r : SideStateRecord) : Prop :=
  key_text (s_key r) = k /\ value_text (s_value r) = v /\
  s_weight r <> 0 /\ is_i64 (s_weight r) = true.
Definition side_ok (s : SideState) : Prop :=
  no_empty s /\ forall k v r, cell s k v = Some r -> record_ok k v r.

Lemma side_ok_empty : side_ok ∅.
Proof.
  split; [intros k values; by rewrite lookup_empty|].
  intros k v r. unfold cell. by rewrite lookup_empty.
Qed.

Lemma side_step_side_ok s r s' : side_ok s -> side_step s r = Ok s' -> side_ok s'.
Proof.
  intros [Hne Hc] [Hw ->]%side_step_ok. split; [by apply no_empty_write_cell|].
  intros k v r'. rewrite cell_write_cell. destruct (decide _) as [[-> ->]|]; [|apply Hc].
  unfold new_cell. case_match eqn:Hz; [done|]. intros [= <-].
  unfold record_ok; simpl. apply Z.eqb_neq in Hz. done.
Qed.

(** Total weight of the records of a list with given texts. *)
Definition text_weight (k v : string) (l : list DeltaRecord) : Z :=
  zsum ((fun r => if decide (key_text (key r) = k /\ value_text (value r) = v) then weight r else 0) <$> l).

Lemma cell_weight_step s r s' k v : side_step s r = Ok s' ->
  cell_weight s' k v = cell_weight s k v + text_weight k v [r].
Proof.
  intros [Hw ->]%side_step_ok. unfold text_weight, cell_weight at 1; simpl.
  rewrite cell_write_cell. destruct (decide _) as [[-> ->]|Hn].
  - rewrite decide_True by done. unfold new_cell. case_match eqn:Hz; simpl; lia.
  - rewrite decide_False by naive_solver. unfold cell_weight. lia.
Qed.

Lemma text_weight_cons k v r l : text_weight k v (r :: l) = text_weight k v [r] + text_weight k v l.
Proof. unfold text_weight. rewrite !fmap_cons. simpl. lia. Qed.

(** The batch is applied when every running weight fits. *)
Lemma applied_spec s l s' : side_ok s -> try_fold side_step s l = Ok s' ->
  side_ok s' /\ forall k v, cell_weight s' k v = cell_weight s k v + text_weight k v l.
Proof.
  revert s. induction l as [|r l IH]; intros s Hs; simpl.
  - intros [= <-]. split; [done|]. intros k v. change (text_weight k v []) with 0. lia.
  - intros (s1 & H1 & H2)%bind_ok. destruct (IH s1) as [Hok Hw]; [by eapply side_step_side_ok|done|].
    split; [done|]. intros k v. rewrite Hw, (cell_weight_step _ _ _ _ _ H1), (text_weight_cons k v r l). lia.
Qed.

(** ** Sums over one key *)

Definition proper_fn (f : DeltaValue -> Z) : Prop :=
  forall x y, value_text x = value_text y -> f x = f y.

Definition side_sum (s : SideState) (k : string) (f : DeltaValue -> Z) : Z :=
  msum (fun _ r => f (s_value r) * s_weight r) (default ∅ (s !! k)).

Definition batch_sum (l : list DeltaRecord) (k : string) (f : DeltaValue -> Z) : Z :=
  zsum ((fun r => if decide (key_text (key r) = k) then f (value r) * weight r else 0) <$> l).

(** Applying a batch adds the batch's sum. *)
Lemma side_sum_step s r s' k f : side_ok s -> proper_fn f -> side_step s r = Ok s' ->
  side_sum s' k f = side_sum s k f + batch_sum [r] k f.
Proof.
  intros [_ Hc] Hf [Hw ->]%side_step_ok. unfold side_sum, batch_sum; simpl.
  rewrite default_write_cell. destruct (decide (k = _)) as [->|Hk].
  - rewrite decide_True, msum_set_cell, default_lookup_cell by done.
    set (v := value_text (value r)) in *. set (kt := key_text (key r)) in *.
    assert (Hold : default 0 ((fun r0 => f (s_value r0) * s_weight r0) <$> cell s kt v)
      = f (value r) * cell_weight s kt v).
    { unfold cell_weight. destruct (cell s kt v) as [r0|] eqn:Hcell; simpl; [|lia].
      apply Hc in Hcell as (_ & Hv & _). by rewrite (Hf _ (value r)). }
    rewrite Hold. unfold new_cell. fold kt v. case_match eqn:Hz; simpl; nia.
  - rewrite decide_False by done. lia.
Qed.

Lemma side_sum_applied s l s' k f : side_ok s -> proper_fn f -> try_fold side_step s l = Ok s' ->
  side_sum s' k f = side_sum s k f + batch_sum l k f.
Proof.
  revert s. induction l as [|r l IH]; intros s Hs Hf; simpl.
  - intros [= <-]. unfold batch_sum; simpl. lia.
  - intros (s1 & H1 & H2)%bind_ok. rewrite (IH s1), (side_sum_step s r s1);
      [|done..|by eapply side_step_side_ok|done|done].
    unfold batch_sum. rewrite !fmap_cons. simpl. lia.
Qed.
End side_facts.

(** * The change of the full join *)

Definition rec_of (s : SideStateRecord) : DeltaRecord := DRecord (s_key s) (s_value s) (s_weight s).

Lemma to_records l : try_map to_record l = Ok (rec_of <$> l).
Proof. by apply try_map_pure. Qed.

Section incremental.
Context `{SerdeJson} (jv : DeltaValue -> DeltaValue -> result OperatorError DeltaValue).

(** [join_values] sees only the canonical text of its arguments. *)
Definition jv_proper : Prop := forall x x' y y',
  value_text x = value_text x' -> value_text y = value_text y' ->
  match jv x y, jv x' y' with
  | Ok z, Ok z' => value_text z = value_text z'
  | Err _, Err _ => True
  | _, _ => False
  end.

(** 1 when [x] and [y] join to a row of text [u]. *)
Definition pairs (u : string) (x y : DeltaValue) : Z :=
  match jv x y with Ok z => if decide (value_text z = u) then 1 else 0 | Err _ => 0 end.

Lemma pairs_proper_l u y : jv_proper -> proper_fn (fun x => pairs u x y).
Proof.
  intros Hp x x' Hx. unfold pairs. specialize (Hp x x' y y Hx eq_refl).
  destruct (jv x y), (jv x' y); try done. by rewrite Hp.
Qed.
Lemma pairs_proper_r u x : jv_proper -> proper_fn (pairs u x).
Proof.
  intros Hp y y' Hy. unfold pairs. specialize (Hp x x y y' eq_refl Hy).
  destruct (jv x y), (jv x y'); try done. by rewrite Hp.
Qed.

Definition oriented (side : JoinInputSide) (f : DeltaValue -> DeltaValue -> Z) (x y : DeltaValue) : Z :=
  match side with Left => f x y | Right => f y x end.

Lemma net_records_sum s r others (f : DeltaValue -> Z) : net_records_for_key s (key r) = Ok others ->
  zsum ((fun o => f (value o) * weight o) <$> others) = side_sum s (key_text (key r)) f.
Proof.
  unfold net_records_for_key, side_sum, msum. destruct (s !! _) as [values|]; simpl.
  - rewrite to_records. intros [= <-]. by rewrite <-!list_fmap_compose.
  - by intros [= <-].
Qed.

Lemma join_record_weight side r others rows k u : join_record jv side r others = Ok rows ->
  text_weight k u rows =
    if decide (key_text (key r) = k)
    then zsum ((fun o => oriented side (pairs u) (value r) (value o) * weight o) <$> others) * weight r
    else 0.
Proof.
  intros Hrows%try_map_ok. unfold text_weight.
  induction Hrows as [|o row others rows Hrow _ IH]; [by destruct (decide _)|].
  rewrite !fmap_cons. cbn [zsum]. rewrite IH. clear IH.
  apply bind_ok in Hrow as (w & Hw & (v & Hv & [= <-])%bind_ok).
  unfold checked_weight_product in Hw. apply ok_or_ok, checked_i64_some in Hw as [-> _]. simpl.
  destruct (decide (key_text (key r) = k)) as [Hk|Hk]; [|rewrite decide_False by naive_solver; lia].
  assert (oriented side (pairs u) (value r) (value o) = if decide (value_text v = u) then 1 else 0) as ->.
  { unfold pairs. destruct side; simpl; by rewrite Hv. }
  destruct (decide (value_text v = u)); [rewrite decide_True by done|rewrite decide_False by naive_solver]; lia.
Qed.

Lemma text_weight_app k v l1 l2 : text_weight k v (l1 ++ l2) = text_weight k v l1 + text_weight k v l2.
Proof. unfold text_weight. by rewrite fmap_app, zsum_app. Qed.

Lemma join_against_weight side input other out k u : join_against jv side input other = Ok out ->
  text_weight k u (records out) =
    batch_sum (records input) k (fun x => side_sum other k (oriented side (pairs u) x)).
Proof.
  unfold join_against. intros (l & Hl & [= <-])%bind_ok. simpl.
  enough (Hgen : forall acc l, try_fold (join_step jv side other) acc (records input) = Ok l ->
    text_weight k u l = text_weight k u acc +
      batch_sum (records input) k (fun x => side_sum other k (oriented side (pairs u) x)))
    by (by rewrite (Hgen [] l Hl)).
  clear. induction (records input) as [|r rs IH]; intros acc l Hl; simpl in Hl.
  - injection Hl as <-. unfold batch_sum; simpl. lia.
  - apply bind_ok in Hl as (acc' & Hstep & Hl). rewrite (IH _ _ Hl). unfold join_step in Hstep.
    apply bind_ok in Hstep as (others & Ho & (rows & Hr & [= <-])%bind_ok).
    rewrite text_weight_app, (join_record_weight _ _ _ _ _ _ Hr). unfold batch_sum. rewrite fmap_cons.
    cbn [zsum]. destruct (decide _) as [<-|]; [|lia].
    rewrite (net_records_sum _ _ _ _ Ho). lia.
Qed.

(** ** Sequences of inputs *)

Definition apply_input (st : KeyedEquiJoin * list DeltaRecord) (input : JoinInputSide * DeltaBatch) :
    result OperatorError (KeyedEquiJoin * list DeltaRecord) :=
  r ← match input.1 with
      | Left => apply_left jv st.1 input.2 | Right => apply_right jv st.1 input.2 end;
  Ok (r.1, st.2 ++ records r.2).

(** The inputs applied one after the other, with all their outputs. *)
Definition run_inputs (j : KeyedEquiJoin) (inputs : list (JoinInputSide * DeltaBatch)) :
    result OperatorError (KeyedEquiJoin * list DeltaRecord) :=
  try_fold apply_input (j, []) inputs.

(** The records given to one side. *)
Definition inputs_of (side : JoinInputSide) (inputs : list (JoinInputSide * DeltaBatch)) : list DeltaRecord :=
  concat ((fun i => match side, i.1 with
    | Left, Left | Right, Right => records i.2 | _, _ => [] end) <$> inputs).

Definition join_ok (j : KeyedEquiJoin) : Prop := side_ok (left j) /\ side_ok (right j).

(** The full join of two sides: the weight of the row [u] under the key [k]. *)
Definition full_join (j : KeyedEquiJoin) (k u : string) : Z :=
  side_sum (left j) k (fun x => side_sum (right j) k (pairs u x)).

Lemma side_sum_swap l r k (f : DeltaValue -> DeltaValue -> Z) :
  side_sum l k (fun x => side_sum r k (f x)) = side_sum r k (fun y => side_sum l k (fun x => f x y)).
Proof.
  unfold side_sum, msum.
  transitivity (zsum ((fun p : string * SideStateRecord => zsum ((fun q : string * SideStateRecord =>
      f (s_value p.2) (s_value q.2) * s_weight q.2 * s_weight p.2)
    <$> entries (default ∅ (r !! k)))) <$> entries (default ∅ (l !! k)))).
  - apply zsum_ext. intros p _. rewrite Z.mul_comm, <-zsum_mul. apply zsum_ext. intros; lia.
  - rewrite zsum_swap. apply zsum_ext. intros q _. symmetry.
    rewrite Z.mul_comm, <-zsum_mul. apply zsum_ext. intros; lia.
Qed.

Lemma proper_side_sum s k (f : DeltaValue -> DeltaValue -> Z) :
  (forall y, proper_fn (fun x => f x y)) -> proper_fn (fun x => side_sum s k (f x)).
Proof.
  intros Hf x x' Hx. unfold side_sum. apply msum_ext. intros v r _.
  by rewrite (Hf (s_value r) x x' Hx).
Qed.

Lemma apply_input_spec j out input j' out' : jv_proper -> join_ok j ->
  apply_input (j, out) input = Ok (j', out') ->
  join_ok j' /\
  (forall k u, full_join j' k u + text_weight k u out = full_join j k u + text_weight k u out') /\
  (forall k f, proper_fn f -> side_sum (left j') k f = side_sum (left j) k f + batch_sum (inputs_of Left [input]) k f) /\
  (forall k f, proper_fn f -> side_sum (right j') k f = side_sum (right j) k f + batch_sum (inputs_of Right [input]) k f).
Proof.
  intros Hp [Hl Hr] Happ. destruct input as [side b].
  apply bind_ok in Happ as ([j1 o] & Happ & [= -> <-]). unfold inputs_of.
  destruct side; cbn [fst snd fmap list_fmap concat] in *; rewrite ?app_nil_r.
  - apply bind_ok in Happ as (o' & Ho & (l' & Hl' & [= <- <-])%bind_ok). simpl.
    destruct (applied_spec _ _ _ Hl Hl') as [Hok _]. split_and!; [done|..].
    + intros k u. unfold full_join; simpl.
      rewrite (side_sum_applied _ _ _ _ _ Hl (proper_side_sum _ _ _ (fun y => pairs_proper_l u y Hp)) Hl').
      rewrite text_weight_app, (join_against_weight _ _ _ _ _ _ Ho).
      change (oriented Left (pairs u)) with (pairs u). lia.
    + intros k f Hf. by apply side_sum_applied.
    + intros k f Hf. unfold batch_sum; simpl. lia.
  - apply bind_ok in Happ as (o' & Ho & (r' & Hr' & [= <- <-])%bind_ok). simpl.
    destruct (applied_spec _ _ _ Hr Hr') as [Hok _]. split_and!; [done|..].
    + intros k u. unfold full_join; simpl. rewrite !(side_sum_swap (left j)).
      rewrite (side_sum_applied _ _ _ _ _ Hr
        (proper_side_sum _ _ (fun y x => pairs u x y) (fun x => pairs_proper_r u x Hp)) Hr').
      rewrite text_weight_app, (join_against_weight _ _ _ _ _ _ Ho).
      change (oriented Right (pairs u)) with (fun y x => pairs u x y). cbv beta. lia.
    + intros k f Hf. unfold batch_sum; simpl. lia.
    + intros k f Hf. by apply side_sum_applied.
Qed.

Lemma batch_sum_app l1 l2 k f : batch_sum (l1 ++ l2) k f = batch_sum l1 k f + batch_sum l2 k f.
Proof. unfold batch_sum. by rewrite fmap_app, zsum_app. Qed.

Lemma inputs_of_cons side i ins : inputs_of side (i :: ins) = inputs_of side [i] ++ inputs_of side ins.
Proof. unfold inputs_of. rewrite !fmap_cons. simpl. by rewrite app_nil_r. Qed.

Lemma run_inputs_spec inputs j out j' out' : jv_proper -> join_ok j ->
  try_fold apply_input (j, out) inputs = Ok (j', out') ->
  join_ok j' /\
  (forall k u, full_join j' k u + text_weight k u out = full_join j k u + text_weight k u out') /\
  (forall k f, proper_fn f -> side_sum (left j') k f = side_sum (left j) k f + batch_sum (inputs_of Left inputs) k f) /\
  (forall k f, proper_fn f -> side_sum (right j') k f = side_sum (right j) k f + batch_sum (inputs_of Right inputs) k f).
Proof.
  intros Hp. revert j out. induction inputs as [|i ins IH]; intros j out Hj Hrun; simpl in Hrun.
  - injection Hrun as <- <-. split_and!; [done|done|..]; intros; unfold inputs_of, batch_sum; simpl; lia.
  - apply bind_ok in Hrun as ([j1 out1] & H1 & H2).
    destruct (apply_input_spec _ _ _ _ _ Hp Hj H1) as (Hj1 & Hf1 & Hl1 & Hr1).
    destruct (IH _ _ Hj1 H2) as (Hj2 & Hf2 & Hl2 & Hr2). split_and!; [done|..].
    + intros k u. specialize (Hf1 k u). specialize (Hf2 k u). lia.
    + intros k f Hf. rewrite Hl2, Hl1, (inputs_of_cons Left i ins), batch_sum_app by done. lia.
    + intros k f Hf. rewrite Hr2, Hr1, (inputs_of_cons Right i ins), batch_sum_app by done. lia.
Qed.

(** C14: Incremental view maintenance. Whatever batches are given to the two
    sides and in whatever order, the outputs of all the steps add up to the
    relational join of everything the left side and everything the right side
    was given: the weight of every row under every key is the sum, over the
    pairs of input records that join to it, of the products of their weights. *)
Theorem join_outputs_total inst inputs j' out : jv_proper ->
  run_inputs (join_new inst) inputs = Ok (j', out) ->
  forall k u, text_weight k u out =
    batch_sum (inputs_of Left inputs) k (fun x => batch_sum (inputs_of Right inputs) k (pairs u x)).
Proof.
  intros Hp Hrun k u. unfold run_inputs in Hrun.
  apply run_inputs_spec in Hrun as (_ & Hf & Hl & Hr); [|done|by split; apply side_ok_empty].
  specialize (Hf k u). unfold full_join at 2 in Hf. simpl in Hf.
  assert (Hempty : forall f, side_sum ∅ k f = 0) by (intros; unfold side_sum; by rewrite lookup_empty).
  rewrite Hempty in Hf. change (text_weight k u []) with 0 in Hf.
  assert (Hright : forall x, side_sum (right j') k (pairs u x)
    = batch_sum (inputs_of Right inputs) k (pairs u x)).
  { intros x. rewrite Hr, Hempty by (by apply pairs_proper_r). done. }
  unfold full_join in Hf. rewrite Hl, Hempty in Hf by (apply proper_side_sum; intros; by apply pairs_proper_l).
  assert (text_weight k u out = batch_sum (inputs_of Left inputs) k
    (fun x => side_sum (right j') k (pairs u x))) as -> by lia. apply zsum_ext. intros r _. destruct (decide _); [|done]. by rewrite Hright.
Qed.
End incremental.

(** * A prepared epoch is the sequence of its inputs *)

Lemma lookup_merge_values values replacements v :
  merge_values values replacements !! v =
    match replacements !! v with Some c => c | None => values !! v end.
Proof.
  unfold merge_values.
  apply (foldl_entries (fun vs v => vs !! v) (fun _ c => c)).
  intros vs [v' c] v''. apply lookup_set_cell.
Qed.

Lemma default_set_values s k values k' :
  default ∅ (set_values s k values !! k') = if decide (k' = k) then values else default ∅ (s !! k').
Proof.
  rewrite set_values_lookup. destruct (decide (k' = k)); [|done].
  by destruct (decide (values = ∅)) as [->|].
Qed.

Lemma default_apply_overlay base overlay k :
  default ∅ (apply_overlay base overlay !! k) =
    match overlay !! k with
    | Some replacements => merge_values (default ∅ (base !! k)) replacements
    | None => default ∅ (base !! k)
    end.
Proof.
  unfold apply_overlay.
  apply (foldl_entries (fun s k => default ∅ (s !! k)) merge_values).
  intros s [k' reps] k''. rewrite default_set_values. simpl. by destruct (decide (k'' = k')) as [->|].
Qed.

Lemma cell_apply_overlay base overlay k v :
  cell (apply_overlay base overlay) k v =
    match overlay !! k ≫= (!!) v with Some c => c | None => cell base k v end.
Proof.
  rewrite <-default_lookup_cell, default_apply_overlay. destruct (overlay !! k) as [reps|]; simpl.
  - rewrite lookup_merge_values, default_lookup_cell. done.
  - apply default_lookup_cell.
Qed.

Lemma no_empty_apply_overlay base overlay : no_empty base -> no_empty (apply_overlay base overlay).
Proof.
  unfold apply_overlay. generalize (entries overlay). intros l. revert base.
  induction l as [|p l IH]; intros base Hb; simpl; [done|]. apply IH. by apply no_empty_set_values.
Qed.

Lemma apply_overlay_empty base : apply_overlay base ∅ = base.
Proof. done. Qed.

Section epochs.
Context `{SerdeJson} (jv : DeltaValue -> DeltaValue -> result OperatorError DeltaValue).

Lemma net_records_default s k :
  net_records_for_key s k = Ok (rec_of <$> (entries (default ∅ (s !! key_text k))).*2).
Proof. unfold net_records_for_key. destruct (s !! key_text k); simpl; [apply to_records|done]. Qed.

Lemma merged_records_net base overlay k :
  merged_records_for_key base overlay k = net_records_for_key (apply_overlay base overlay) k.
Proof. unfold merged_records_for_key. by rewrite to_records, net_records_default, default_apply_overlay. Qed.

(** Recording a change in the overlay is applying it to the overlaid side. *)
Lemma apply_overlay_record_step base overlay r : no_empty base ->
  side_step (apply_overlay base overlay) r = apply_overlay base <$> apply_overlay_record base overlay r.
Proof.
  intros Hb. unfold side_step, apply_overlay_record.
  set (k := key_text (key r)). set (v := value_text (value r)).
  rewrite default_lookup_cell, cell_apply_overlay.
  change (base !! k ≫= (!!) v) with (cell base k v).
  set (prev := match overlay !! k ≫= (!!) v with Some c => c | None => cell base k v end).
  destruct (add_weight _ _) as [w|e]; [|done]. rewrite !Ok_bind, Ok_fmap. f_equal.
  set (c := if w =? 0 then None else _).
  change (set_values _ k _) with (write_cell (apply_overlay base overlay) k v c).
  apply side_ext.
  - by apply no_empty_write_cell, no_empty_apply_overlay.
  - by apply no_empty_apply_overlay.
  - intros k' v'. rewrite cell_write_cell, !cell_apply_overlay.
    destruct (decide (k' = k)) as [->|Hk].
    + rewrite lookup_insert_eq. simpl. destruct (decide (v' = v)) as [->|Hv].
      * rewrite decide_True, lookup_insert_eq by done. done.
      * rewrite decide_False, lookup_insert_ne by naive_solver.
        destruct (overlay !! k); simpl; done.
    + rewrite decide_False, lookup_insert_ne by naive_solver. done.
Qed.

Lemma apply_overlay_records base overlay l : no_empty base ->
  try_fold side_step (apply_overlay base overlay) l
    = apply_overlay base <$> try_fold (apply_overlay_record base) overlay l.
Proof.
  intros Hb. revert overlay. induction l as [|r l IH]; intros overlay; [done|]. simpl.
  rewrite apply_overlay_record_step by done.
  destruct (apply_overlay_record base overlay r); simpl; [apply IH|done].
Qed.

Definition opposite (side : JoinInputSide) : JoinInputSide :=
  match side with Left => Right | Right => Left end.
Definition ov_of (side : JoinInputSide) (e : epoch_state) : SideOverlay :=
  match side with Left => e_left e | Right => e_right e end.
Definition with_ov (side : JoinInputSide) (e : epoch_state) ov t out : epoch_state :=
  match side with
  | Left => EpochState ov (e_right e) t out
  | Right => EpochState (e_left e) ov t out
  end.
Definition touch (t : btree string DeltaKey) (r : DeltaRecord) : btree string DeltaKey :=
  match t !! key_text (key r) with Some _ => t | None => <[key_text (key r) := key r]> t end.

(** The other side as the record sees it. *)
Definition seen (j : KeyedEquiJoin) (side : JoinInputSide) (e : epoch_state) : SideState :=
  apply_overlay (side_of j (opposite side)) (ov_of (opposite side) e).

Lemma prepare_record_eq j side e r : prepare_record jv j side e r =
  out ← join_step jv side (seen j side e) (e_out e) r;
  ov ← apply_overlay_record (side_of j side) (ov_of side e) r;
  Ok (with_ov side e ov (touch (e_touched e) r) out).
Proof.
  unfold prepare_record, join_step, seen. destruct side; cbn [side_of opposite ov_of with_ov];
    rewrite merged_records_net, net_records_default, !Ok_bind;
    (destruct (join_record _ _ _ _); [|done]); rewrite !Ok_bind; done.
Qed.

(** Joining and recording, interleaved or one after the other. *)
Lemma prepare_records_ok j side l e e' :
  try_fold (prepare_record jv j side) e l = Ok e' <-> exists out ov,
    try_fold (join_step jv side (seen j side e)) (e_out e) l = Ok out /\
    try_fold (apply_overlay_record (side_of j side)) (ov_of side e) l = Ok ov /\
    e' = with_ov side e ov (foldl touch (e_touched e) l) out.
Proof.
  revert e. induction l as [|r l IH]; intros e; simpl.
  - split; [intros [= <-]|intros (? & ? & [= <-] & [= <-] & ->)].
    + eexists _, _. split_and!; [done..|]. by destruct side, e.
    + by destruct side, e.
  - rewrite prepare_record_eq. rewrite bind_ok. split.
    + intros (e1 & (out1 & Ho & (ov1 & Hov & [= <-])%bind_ok)%bind_ok & (out & ov & H1 & H2 & ->)%IH).
      exists out, ov. rewrite Ho, Hov, !Ok_bind. by destruct side.
    + intros (out & ov & (out1 & Ho & Ho')%bind_ok & (ov1 & Hov & Hov')%bind_ok & ->).
      eexists. rewrite Ho, Ok_bind, Hov, Ok_bind. split; [done|]. apply IH.
      exists out, ov. by destruct side.
Qed.

Lemma join_step_acc side other acc l :
  try_fold (join_step jv side other) acc l = (app acc) <$> try_fold (join_step jv side other) [] l.
Proof.
  revert acc. enough (Hgen : forall a b, try_fold (join_step jv side other) (a ++ b) l
    = (app a) <$> try_fold (join_step jv side other) b l).
  { intros acc. rewrite <-Hgen. by rewrite app_nil_r. }
  induction l as [|r l IH]; intros a b; [done|]. cbn [try_fold].
  assert (join_step jv side other (a ++ b) r = (app a) <$> join_step jv side other b r) as ->.
  { unfold join_step. rewrite net_records_default, !Ok_bind.
    destruct (join_record _ _ _ _); [|done]. by rewrite !Ok_bind, Ok_fmap, (assoc_L (++)). }
  destruct (join_step jv side other b r) as [b'|]; [|done]. rewrite Ok_fmap, !Ok_bind. apply IH.
Qed.

(** The state of a preparation stands for the state after the same inputs. *)
Definition simulates (j : KeyedEquiJoin) (e : epoch_state) (st : KeyedEquiJoin * list DeltaRecord) : Prop :=
  left st.1 = apply_overlay (left j) (e_left e) /\
  right st.1 = apply_overlay (right j) (e_right e) /\ st.2 = e_out e.

Definition both_ok {A B} (R : A -> B -> Prop) (x : result OperatorError A) (y : result OperatorError B) : Prop :=
  match x, y with Ok a, Ok b => R a b | Err _, Err _ => True | _, _ => False end.

Lemma both_ok_intro {A B} (R : A -> B -> Prop) x y :
  (forall a, x = Ok a -> exists b, y = Ok b /\ R a b) ->
  (forall b, y = Ok b -> exists a, x = Ok a) -> both_ok R x y.
Proof. destruct x, y; simpl; naive_solver. Qed.

Lemma prepare_batch_sim j e st side b : no_empty (left j) -> no_empty (right j) ->
  simulates j e st ->
  both_ok (simulates j) (try_fold (prepare_record jv j side) e (records b)) (apply_input jv st (side, b)).
Proof.
  intros Hl Hr (Hsl & Hsr & Hout). destruct st as [jc out]. simpl in *.
  assert (Hside : no_empty (side_of j side)) by by destruct side.
  assert (Happ : forall r, apply_input jv (jc, out) (side, b) = Ok r <-> exists rows s,
    try_fold (join_step jv side (seen j side e)) [] (records b) = Ok rows /\
    try_fold side_step (apply_overlay (side_of j side) (ov_of side e)) (records b) = Ok s /\
    r = (match side with
         | Left => Join s (right jc) (instance_id jc) (wrapping_add_u64 (revision jc) 1)
         | Right => Join (left jc) s (instance_id jc) (wrapping_add_u64 (revision jc) 1) end, out ++ rows)).
  { intros r. unfold apply_input, apply_left, apply_right, join_against, applied, seen.
    destruct side; cbn [fst snd side_of opposite ov_of]; rewrite Hsl, Hsr;
      (destruct (try_fold (join_step _ _ _) [] _) as [rows|]; [|simpl; naive_solver]);
      (destruct (try_fold side_step _ _) as [s|]; simpl; naive_solver). }
  apply both_ok_intro.
  - intros e' (out' & ov & Ho & Hov & ->)%prepare_records_ok.
    rewrite join_step_acc in Ho. destruct (try_fold (join_step _ _ _) [] _) as [rows|] eqn:Hrows; [|done].
    rewrite Ok_fmap in Ho. injection Ho as <-.
    eexists. split; [apply Happ; eexists rows, _; split_and!; [done| |done]|].
    + by rewrite apply_overlay_records, Hov.
    + unfold simulates. rewrite Hout. by destruct side.
  - intros r (rows & s & Hrows & Hs & ->)%Happ.
    rewrite apply_overlay_records in Hs by done.
    destruct (try_fold (apply_overlay_record _) _ _) as [ov|] eqn:Hov; [|done].
    eexists. apply prepare_records_ok. eexists _, ov. split_and!; [|exact Hov|done].
    by rewrite join_step_acc, Hrows.
Qed.

Lemma prepare_epoch_sim j inputs : join_ok j ->
  both_ok (fun p st =>
      output p = DBatch st.2 /\
      commit_prepared_epoch j p = Ok (Join (left st.1) (right st.1) (instance_id j)
        (wrapping_add_u64 (revision j) 1)))
    (prepare_epoch jv j inputs) (run_inputs jv j inputs).
Proof.
  intros [[Hl _] [Hr _]].
  assert (Hsim : forall e st, simulates j e st -> both_ok (simulates j)
    (try_fold (fun e i => try_fold (prepare_record jv j i.1) e (records i.2)) e inputs)
    (try_fold (apply_input jv) st inputs)).
  { induction inputs as [|[side b] inputs IH]; intros e st Hs; [done|]. cbn [try_fold fst snd].
    pose proof (prepare_batch_sim j e st side b Hl Hr Hs) as Hb.
    destruct (try_fold (prepare_record jv j side) e (records b)) as [e'|],
      (apply_input jv st (side, b)) as [st'|]; try done. by apply IH. }
  unfold prepare_epoch, run_inputs.
  specialize (Hsim (EpochState ∅ ∅ ∅ []) (j, [])).
  destruct (try_fold _ (EpochState ∅ ∅ ∅ []) inputs) as [e|],
    (try_fold (apply_input jv) (j, []) inputs) as [st|]; simpl; try (by apply Hsim).
  destruct Hsim as (Hsl & Hsr & Hout); [done|]. rewrite Hsl, Hsr, Hout.
  unfold commit_prepared_epoch, validate_prepared_epoch; simpl. by rewrite !Z.eqb_refl.
Qed.

(** C16: Preparing an epoch and committing it is applying its inputs one after
    the other: both succeed or both fail, the prepared output is the
    concatenation of the outputs of the steps, and the two sides end equal. *)
Theorem prepared_epoch_sequential j inputs : join_ok j ->
  both_ok (fun p st =>
      output p = DBatch st.2 /\
      commit_prepared_epoch j p = Ok (Join (left st.1) (right st.1) (instance_id j)
        (wrapping_add_u64 (revision j) 1)))
    (prepare_epoch jv j inputs) (run_inputs jv j inputs).
Proof. apply prepare_epoch_sim. Qed.

Lemma wrapping_succ_ne n : is_u64 n = true -> wrapping_add_u64 n 1 <> n.
Proof.
  intros Hn. unfold wrapping_add_u64. apply in_range_true in Hn. unfold u64_max in Hn.
  destruct (decide (n = 2 ^ 64 - 1)) as [->|]; [done|]. rewrite Z.mod_small; lia.
Qed.

Lemma commit_stale j p : base_revision p <> revision j \/ join_instance_id p <> instance_id j ->
  commit_prepared_epoch j p = Err OpWeightOverflow.
Proof.
  intros Hp. unfold commit_prepared_epoch, validate_prepared_epoch.
  destruct Hp as [Hp|Hp]; apply Z.eqb_neq in Hp; rewrite Hp; [by rewrite orb_true_r|done].
Qed.

(** A prepared epoch can be committed only on the join it was prepared from
    and only while that join is unchanged: after any successful apply, commit or
    restore, and on any other instance, it is rejected. *)
Theorem stale_epoch_rejected j inputs p j' :
  is_u64 (revision j) = true -> prepare_epoch jv j inputs = Ok p ->
  (exists b out, apply_left jv j b = Ok (j', out)) \/ (exists b out, apply_right jv j b = Ok (j', out)) \/
  (exists q, commit_prepared_epoch j q = Ok j') \/ (exists l r, restore_state j l r = Ok j') \/
  instance_id j' <> instance_id j ->
  commit_prepared_epoch j' p = Err OpWeightOverflow.
Proof.
  intros Hrev Hp Hj'. apply commit_stale. unfold prepare_epoch in Hp.
  apply bind_ok in Hp as (e & _ & [= <-]). simpl. pose proof (wrapping_succ_ne _ Hrev) as Hne.
  destruct Hj' as [(b & o & Hj')|[(b & o & Hj')|[(q & Hj')|[(l & r & Hj')|Hj']]]]; [left..|right; congruence].
  - apply bind_ok in Hj' as (? & _ & (? & _ & [= <- _])%bind_ok). simpl. congruence.
  - apply bind_ok in Hj' as (? & _ & (? & _ & [= <- _])%bind_ok). simpl. congruence.
  - apply bind_ok in Hj' as (? & _ & [= <-]). simpl. congruence.
  - apply bind_ok in Hj' as (? & _ & (? & _ & (rev & [-> _]%ok_or_ok%checked_u64_some & [= <-])%bind_ok)%bind_ok).
    simpl. lia.
Qed.

(** ** Restoring a saved side *)

Definition texts (r : SideStateRecord) : string * string := (key_text (s_key r), value_text (s_value r)).

Lemma fresh_cells rs s : NoDup (texts <$> rs) ->
  (forall r, r ∈ rs -> cell s (texts r).1 (texts r).2 = None /\ s_weight r <> 0 /\ is_i64 (s_weight r) = true) ->
  exists s', try_fold side_step s (rec_of <$> rs) = Ok s' /\ (no_empty s -> no_empty s') /\
    (forall r, r ∈ rs -> cell s' (texts r).1 (texts r).2 = Some r) /\
    (forall k v, (k, v) ∉ texts <$> rs -> cell s' k v = cell s k v).
Proof.
  revert s. induction rs as [|r rs IH]; intros s Hnd Hrs; [exists s; set_solver|].
  rewrite fmap_cons in Hnd. apply NoDup_cons in Hnd as [Hr Hnd].
  destruct (Hrs r) as (Hc & Hw & H64); [left|].
  set (s1 := write_cell s (texts r).1 (texts r).2 (Some r)).
  assert (Hstep : side_step s (rec_of r) = Ok s1).
  { apply side_step_ok. simpl. unfold new_cell, cell_weight. simpl.
    change (key_text (s_key r)) with (texts r).1. change (value_text (s_value r)) with (texts r).2.
    rewrite Hc. simpl. split; [done|]. rewrite Z.add_0_l. apply Z.eqb_neq in Hw. rewrite Hw. by destruct r. }
  destruct (IH s1 Hnd) as (s' & Hf & Hne & Hin & Hout).
  { intros r' Hr'. destruct (Hrs r') as (Hc' & ?); [by right|]. split; [|done].
    unfold s1. rewrite cell_write_cell, decide_False; [done|].
    intros [H1 H2]. apply Hr. rewrite (surjective_pairing (texts r)), <-H1, <-H2, <-surjective_pairing.
    by apply list_elem_of_fmap_2. }
  exists s'. rewrite fmap_cons. cbn [try_fold]. rewrite Hstep, Ok_bind. split_and!; [done|..].
  - intros Hs. by apply Hne, no_empty_write_cell.
  - intros r' [->|Hr']%elem_of_cons; [|by apply Hin].
    rewrite Hout by (by rewrite <-surjective_pairing). unfold s1.
    by rewrite cell_write_cell, decide_True.
  - intros k v Hkv. rewrite fmap_cons, not_elem_of_cons in Hkv. destruct Hkv as [Hkv Hn].
    rewrite Hout by done. unfold s1. rewrite cell_write_cell, decide_False; [done|].
    intros [-> ->]. by destruct Hkv, (texts r).
Qed.

(** The records of a side, as [batch] lists them. *)
Definition side_records (s : SideState) : list SideStateRecord :=
  concat ((fun kv => (entries kv.2).*2) <$> entries s).

Lemma elem_of_side_records s r : r ∈ side_records s <-> exists k v, cell s k v = Some r.
Proof.
  unfold side_records, cell. rewrite list_elem_of_In, in_concat. split.
  - intros (x & Hx & Hr). apply list_elem_of_In, list_elem_of_fmap_1 in Hx as ([k values] & -> & Hk).
    apply list_elem_of_In, list_elem_of_fmap_1 in Hr as ([v r'] & -> & Hv).
    apply elem_of_entries in Hk, Hv. exists k, v. simpl in *. by rewrite Hk.
  - intros (k & v & Hc). destruct (s !! k) as [values|] eqn:Hk; [|done]. simpl in Hc.
    apply elem_of_entries in Hk, Hc. exists (entries values).*2. rewrite <-!list_elem_of_In. split.
    + apply list_elem_of_fmap. by exists (k, values).
    + apply list_elem_of_fmap. by exists (v, r).
Qed.

Lemma side_records_NoDup s : side_ok s -> NoDup (texts <$> side_records s).
Proof.
  intros [_ Hc]. unfold side_records.
  assert (Htext : forall k values v r, (k, values) ∈ entries s -> (v, r) ∈ entries values -> texts r = (k, v)).
  { intros k values v r Hk%elem_of_entries Hv%elem_of_entries.
    destruct (Hc k v r) as (<- & <- & _); [|done]. unfold cell. by rewrite Hk. }
  pose proof (entries_NoDup s) as Hnd. revert Htext Hnd.
  induction (entries s) as [|[k values] es IH]; intros Htext Hnd; [constructor|].
  change (NoDup (k :: es.*1)) in Hnd. apply NoDup_cons in Hnd as [Hk Hnd]. rewrite fmap_cons. cbn [concat snd].
  rewrite fmap_app. apply NoDup_app. split_and!.
  - rewrite <-list_fmap_compose. pose proof (entries_NoDup values) as Hv.
    apply NoDup_fmap_2_strong; [|by apply NoDup_fmap_1 in Hv].
    intros [v r] [v' r'] Hr Hr' Heq. simpl in Heq.
    rewrite (Htext k values v r), (Htext k values v' r') in Heq by (done || left).
    injection Heq as <-. apply elem_of_entries in Hr, Hr'. congruence.
  - intros [k' v'] Hin1 Hin2. apply Hk.
    apply list_elem_of_fmap_1 in Hin1 as (r & Hr & Hin1).
    apply list_elem_of_fmap_1 in Hin1 as ([v0 r0] & -> & Hin1).
    simpl in Hr. rewrite (Htext k values v0 r0) in Hr by (done || left). injection Hr as -> ->.
    apply list_elem_of_fmap_1 in Hin2 as (r & Hr & Hin2).
    rewrite list_elem_of_In, in_concat in Hin2. destruct Hin2 as (x & Hx & Hrx).
    apply list_elem_of_In, list_elem_of_fmap_1 in Hx as ([k2 values2] & -> & Hx).
    apply list_elem_of_In, list_elem_of_fmap_1 in Hrx as ([v2 r2] & -> & Hrx). simpl in *.
    rewrite (Htext k2 values2 v2 r2) in Hr by (done || by right). injection Hr as -> ->.
    apply list_elem_of_fmap. by exists (k2, values2).
  - apply IH; [|done]. intros; eapply Htext; [by right|done].
Qed.

Lemma applied_side_batch s : side_ok s ->
  exists b, side_batch s = Some b /\ applied ∅ b = Ok s.
Proof.
  intros Hs. unfold side_batch. fold (side_records s). rewrite to_records.
  eexists. split; [done|]. unfold applied. simpl.
  destruct (fresh_cells (side_records s) ∅) as (s' & -> & Hne & Hin & Hout).
  - by apply side_records_NoDup.
  - intros r (k & v & Hc)%elem_of_side_records. apply Hs in Hc as (_ & _ & ? & ?).
    split_and!; [|done..]. unfold cell. by rewrite lookup_empty.
  - f_equal. destruct Hs as [Hsne Hsc]. apply side_ext; [|done|].
    { apply Hne. intros k values. by rewrite lookup_empty. }
    intros k v. destruct (cell s k v) as [r|] eqn:Hc.
    + destruct (Hsc _ _ _ Hc) as (<- & <- & _).
      apply (Hin r). apply elem_of_side_records. eauto.
    + rewrite Hout; [unfold cell; by rewrite lookup_empty|].
      intros (r & Hr & (k' & v' & Hc')%elem_of_side_records)%list_elem_of_fmap_1.
      destruct (Hsc _ _ _ Hc') as (<- & <- & _). unfold texts in Hr. injection Hr as -> ->. congruence.
Qed.

(** Saving both sides of a join and restoring them into any join gives back
    exactly the same sides; the conversion of the stored records never panics. *)
Theorem restore_state_round_trip j j0 : join_ok j -> is_u64 (revision j0 + 1) = true ->
  exists l r, left_state j = Some l /\ right_state j = Some r /\
    restore_state j0 l r = Ok (Join (left j) (right j) (instance_id j0) (revision j0 + 1)).
Proof.
  intros [Hl Hr] Hrev. destruct (applied_side_batch _ Hl) as (l & Hlb & Hla).
  destruct (applied_side_batch _ Hr) as (r & Hrb & Hra). exists l, r.
  unfold restore_state, checked_u64. by rewrite Hla, Hra, Hrev.
Qed.

Lemma apply_input_ok j out input j' out' : join_ok j ->
  apply_input jv (j, out) input = Ok (j', out') -> join_ok j'.
Proof.
  intros [Hl Hr] ([j1 o] & Happ & [= -> <-])%bind_ok. destruct input as [[] b]; simpl in Happ.
  - apply bind_ok in Happ as (o' & _ & (l & Ha & [= <- _])%bind_ok).
    by destruct (applied_spec _ _ _ Hl Ha) as [? _].
  - apply bind_ok in Happ as (o' & _ & (r & Ha & [= <- _])%bind_ok).
    by destruct (applied_spec _ _ _ Hr Ha) as [? _].
Qed.

Lemma run_inputs_ok inputs j out j' out' : join_ok j ->
  try_fold (apply_input jv) (j, out) inputs = Ok (j', out') -> join_ok j'.
Proof.
  intros Hj Hrun.
  refine (try_fold_inv (fun st => join_ok st.1) _ _ (j, out) (j', out') Hj _ Hrun).
  intros [j1 o1] i [j2 o2] _ Hj1 Hi. by eapply apply_input_ok.
Qed.

(** The joins a program can reach. *)
Inductive reachable : KeyedEquiJoin -> Prop :=
| reach_new inst : reachable (join_new inst)
| reach_left j b j' out : reachable j -> apply_left jv j b = Ok (j', out) -> reachable j'
| reach_right j b j' out : reachable j -> apply_right jv j b = Ok (j', out) -> reachable j'
| reach_commit j inputs p j' : reachable j ->
    prepare_epoch jv j inputs = Ok p -> commit_prepared_epoch j p = Ok j' -> reachable j'
| reach_restore j l r j' : reachable j -> restore_state j l r = Ok j' -> reachable j'.

Lemma reachable_ok j : reachable j -> join_ok j.
Proof.
  induction 1 as [inst|j b j' out _ IH Hj'|j b j' out _ IH Hj'|j ins p j' _ IH Hp Hc|j l r j' _ IH Hj'].
  - split; apply side_ok_empty.
  - eapply (apply_input_ok j [] (Left, b)); [done|]. unfold apply_input; simpl. by rewrite Hj'.
  - eapply (apply_input_ok j [] (Right, b)); [done|]. unfold apply_input; simpl. by rewrite Hj'.
  - pose proof (prepare_epoch_sim j ins IH) as Hsim. rewrite Hp in Hsim.
    destruct (run_inputs jv j ins) as [[j1 o]|] eqn:Hrun; [|done].
    destruct Hsim as [_ Hc']. rewrite Hc in Hc'. injection Hc' as ->.
    by apply (run_inputs_ok _ _ _ _ _ IH) in Hrun.
  - apply bind_ok in Hj' as (l' & Hl & (r' & Hr & (rev & _ & [= <-])%bind_ok)%bind_ok).
    destruct (applied_spec _ _ _ side_ok_empty Hl), (applied_spec _ _ _ side_ok_empty Hr). done.
Qed.

(** Every join a program can reach keeps the invariant of its sides (no key
    without values, every record under its own canonical texts, weights
    non-zero and of type [i64]), and each side reads back without a panic. *)
Theorem reachable_join_ok j : reachable j ->
  join_ok j /\ (exists l, left_state j = Some l) /\ (exists r, right_state j = Some r).
Proof.
  intros Hj%reachable_ok. split; [done|]. destruct Hj as [Hl Hr].
  destruct (applied_side_batch _ Hl) as (l & ? & _), (applied_side_batch _ Hr) as (r & ? & _). eauto.
Qed.

(** Applying a batch to one side adds exactly the batch's weights, cell by
    cell, and leaves the other side alone. *)
Theorem apply_adds_weights j side b j' out : join_ok j ->
  match side with Left => apply_left jv j b | Right => apply_right jv j b end = Ok (j', out) ->
  side_of j' (opposite side) = side_of j (opposite side) /\
  forall k v, cell_weight (side_of j' side) k v
    = cell_weight (side_of j side) k v + text_weight k v (records b).
Proof.
  intros [Hl Hr] Happ. destruct side;
    apply bind_ok in Happ as (o & _ & (s & Hs & [= <- _])%bind_ok); simpl.
  - by destruct (applied_spec _ _ _ Hl Hs) as [_ Hw].
  - by destruct (applied_spec _ _ _ Hr Hs) as [_ Hw].
Qed.
End epochs.

(** * Witnesses *)

#[local] Existing Instance plain_json.

(** Joins two strings by writing one after the other. *)
Definition concat_values (x y : DeltaValue) : result OperatorError DeltaValue :=
  Ok (DValue (JArray [value_json x; value_json y])).

Lemma concat_values_proper : @jv_proper plain_json concat_values.
Proof.
  intros x x' y y' Hx Hy. unfold concat_values, value_text in *.
  cbn [value_json canonical_json fmap list_fmap]. by rewrite Hx, Hy.
Qed.

Definition demo_inputs : list (JoinInputSide * DeltaBatch) :=
  [(Left, DBatch [str_row "k" "a" 2; str_row "k" "b" 1]);
   (Right, DBatch [str_row "k" "x" 3; str_row "z" "y" 1]);
   (Left, DBatch [str_row "k" "a" (-2)])].

Definition demo_join : KeyedEquiJoin :=
  match @run_inputs plain_json concat_values (join_new 1) demo_inputs with
  | Ok (j, _) => j | Err _ => join_new 1 end.

Lemma demo_reachable : @reachable plain_json concat_values demo_join.
Proof.
  unfold demo_join, run_inputs. destruct (try_fold _ _ demo_inputs) as [[j out]|] eqn:Hrun; [|constructor].
  assert (Hr : @reachable plain_json concat_values (join_new 1, @nil DeltaRecord).1) by constructor.
  refine (try_fold_inv (fun st => @reachable plain_json concat_values st.1) _ _ _ _ Hr _ Hrun).
  intros [j1 o1] [side b] [j2 o2] _ Hj1 Hi. unfold apply_input in Hi. simpl in Hi.
  apply bind_ok in Hi as ([j3 o3] & Hi & [= <- _]). simpl in *.
  destruct side; [by eapply reach_left|by eapply reach_right].
Qed.

Lemma demo_ok : @join_ok plain_json demo_join.
Proof. eapply reachable_ok, demo_reachable. Qed.

Lemma join_outputs_total_witness : exists j' out,
  @run_inputs plain_json concat_values (join_new 1) demo_inputs = Ok (j', out) /\ length out = 3%nat /\
  forall k u, @text_weight plain_json k u out =
    batch_sum (inputs_of Left demo_inputs) k
      (fun x => batch_sum (inputs_of Right demo_inputs) k (@pairs plain_json concat_values u x)).
Proof.
  eexists _, _. split; [vm_compute; reflexivity|]. split; [reflexivity|].
  eapply (@join_outputs_total plain_json concat_values 1);
    [apply concat_values_proper|vm_compute; reflexivity].
Defined.

Definition demo_epoch : list (JoinInputSide * DeltaBatch) :=
  [(Right, DBatch [str_row "k" "x" (-3)]); (Left, DBatch [str_row "z" "c" 4])].

Definition demo_token : PreparedKeyedEquiJoinEpoch :=
  match prepare_epoch concat_values demo_join demo_epoch with
  | Ok p => p | Err _ => PreparedEpoch 0 0 ∅ ∅ ∅ (DBatch []) end.
Lemma demo_token_ok : prepare_epoch concat_values demo_join demo_epoch = Ok demo_token.
Proof. vm_compute. reflexivity. Qed.

Definition demo_next : KeyedEquiJoin :=
  match commit_prepared_epoch demo_join demo_token with Ok j => j | Err _ => demo_join end.
Lemma demo_next_ok : commit_prepared_epoch demo_join demo_token = Ok demo_next.
Proof. vm_compute. reflexivity. Qed.

Lemma prepared_epoch_sequential_witness :
  both_ok (fun p st => output p = DBatch st.2 /\
      commit_prepared_epoch demo_join p = Ok (Join (left st.1) (right st.1) (instance_id demo_join)
        (wrapping_add_u64 (revision demo_join) 1)))
    (Ok demo_token) (run_inputs concat_values demo_join demo_epoch).
Proof.
  rewrite <-demo_token_ok.
  exact (@prepared_epoch_sequential plain_json concat_values demo_join demo_epoch demo_ok).
Defined.

Lemma stale_epoch_rejected_witness : commit_prepared_epoch demo_next demo_token = Err OpWeightOverflow.
Proof.
  apply (@stale_epoch_rejected plain_json concat_values demo_join demo_epoch demo_token demo_next);
    [vm_compute; reflexivity|exact demo_token_ok|].
  right; right; left. exists demo_token. exact demo_next_ok.
Defined.

Lemma restore_state_round_trip_witness : exists l r,
  left_state demo_join = Some l /\ right_state demo_join = Some r /\
  @restore_state plain_json (join_new 9) l r = Ok (Join (left demo_join) (right demo_join) 9 1).
Proof.
  apply (@restore_state_round_trip plain_json demo_join (join_new 9)); [exact demo_ok|vm_compute; reflexivity].
Defined.

Lemma reachable_join_ok_witness : exists l, left_state demo_join = Some l.
Proof. apply (@reachable_join_ok plain_json concat_values demo_join demo_reachable). Defined.

Definition demo_left : KeyedEquiJoin * DeltaBatch :=
  match apply_left concat_values demo_join (DBatch [str_row "k" "c" 5]) with
  | Ok r => r | Err _ => (demo_join, DBatch []) end.

Lemma apply_adds_weights_witness :
  side_of demo_left.1 Right = side_of demo_join Right /\
  forall k v, cell_weight (side_of demo_left.1 Left) k v
    = cell_weight (side_of demo_join Left) k v + text_weight k v [str_row "k" "c" 5].
Proof.
  apply (@apply_adds_weights plain_json concat_values demo_join Left (DBatch [str_row "k" "c" 5])
    demo_left.1 demo_left.2); [exact demo_ok|vm_compute; reflexivity].
Defined.
