(* ===== verification/Decimal.v ===== *)
(** Decimal128 text, [velorix-core/src/operator.rs]: a fixed-scale decimal is an
    [i128] count of units of the last place, written with exactly [scale]
    digits after the point. The parser accepts exactly what the formatter
    writes. *)
From Stdlib Require Import Ascii.
From S2P Require Import Prelude BTree Json Digits Serde Text Delta Join.

(** * Pieces of [str] *)

(** [strip_prefix('-')]. *)
Definition strip_minus (s : string) : option string :=
  match s with
  | String c rest => if Ascii.eqb c "-"%char then Some rest else None
  | EmptyString => None
  end.

(** [split_once('.')]. *)
Fixpoint split_dot (s : string) : option (string * string) :=
  match s with
  | EmptyString => None
  | String c rest =>
      if Ascii.eqb c "."%char then Some (EmptyString, rest)
      else match split_dot rest with Some (a, b) => Some (String c a, b) | None => None end
  end.

(** [split_off] at an index. *)
Fixpoint split_at (n : nat) (s : string) : string * string :=
  match n, s with
  | O, _ => (EmptyString, s)
  | S n, String c rest => let '(a, b) := split_at n rest in (String c a, b)
  | S _, EmptyString => (EmptyString, EmptyString)
  end.

Fixpoint zeros (n : nat) : string :=
  match n with O => EmptyString | S n => String "0"%char (zeros n) end.

(** [str::parse::<i128>] on a string of ASCII digits. *)
Definition parse_digits (s : string) : option Z :=
  match s with EmptyString => None | _ => checked_i128 (undigits (string_digits s)) end.

(** * The functions *)

(** [u128::ilog10], on a positive value. *)
Definition ilog10 (n : Z) : Z := Z.of_nat (length (digits n)) - 1.

Definition ensure_decimal128_precision (value precision : Z) : result OperatorError unit :=
  let digits := if value =? 0 then 1 else ilog10 value + 1 in
  fail_if (precision <? digits) DecimalPrecisionOverflow.

Fixpoint scale_factor (n : nat) (factor : Z) : option Z :=
  match n with
  | O => Some factor
  | S n => factor ← checked_i128 (factor * 10); scale_factor n factor
  end.
Definition decimal128_scale_factor (scale : nat) : option Z := scale_factor scale 1.

Definition format_decimal128_value (value : Z) (scale : nat) : string :=
  let digits := nat_to_string (Z.abs value) in
  let decimal :=
    match scale with
    | O => digits
    | _ =>
        if (String.length digits <=? scale)%nat
        then "0." +:+ zeros (scale - String.length digits) +:+ digits
        else let '(whole, fractional) := split_at (String.length digits - scale) digits in
             whole +:+ "." +:+ fractional
    end in
  if value <? 0 then "-" +:+ decimal else decimal.

Definition parse_decimal128_str (value : string) (precision : Z) (scale : nat) : option Z :=
  let '(negative, digits) := match strip_minus value with
    | Some rest => (true, rest) | None => (false, value) end in
  if String.eqb digits "" then None else
  '(whole, fractional) ← match split_dot digits with
    | Some parts => Some parts
    | None => match scale with O => Some (digits, EmptyString) | _ => None end
    end;
  if String.eqb whole "" || negb (all_digits whole)
     || negb (Nat.eqb (String.length fractional) scale) || negb (all_digits fractional)
  then None else
  magnitude ← parse_digits whole;
  factor ← decimal128_scale_factor scale;
  magnitude ← checked_i128 (magnitude * factor);
  magnitude ← match scale with
    | O => Some magnitude
    | _ => f ← parse_digits fractional; checked_i128 (magnitude + f)
    end;
  match ensure_decimal128_precision (Z.abs magnitude) precision with
  | Err _ => None
  | Ok _ =>
      signed_magnitude ← (if (negative : bool) then checked_i128 (- magnitude) else Some magnitude);
      if String.eqb (format_decimal128_value signed_magnitude scale) value
      then Some signed_magnitude else None
  end.

Definition parse_decimal128_value (value : Value) (precision : Z) (scale : nat) : result OperatorError Z :=
  s ← ok_or NonDecimalAggregateValue (value_as_str value);
  ok_or NonDecimalAggregateValue (parse_decimal128_str s precision scale).

Definition parse_decimal128_value_for_state (value : Value) (precision : Z) (scale : nat) :
    result OperatorError Z :=
  s ← ok_or InvalidAggregateStateValue (value_as_str value);
  ok_or InvalidAggregateStateValue (parse_decimal128_str s precision scale).

(** * Facts on the pieces *)

Lemma string_app_nil_r (s : string) : s +:+ "" = s.
Proof. induction s as [|c s IH]; [done|]. exact (f_equal (String c) IH). Qed.

Lemma scale_factor_spec n f : 0 < f ->
  scale_factor n f = if f * 10 ^ Z.of_nat n <=? i128_max then Some (f * 10 ^ Z.of_nat n)
    else match n with O => Some f | _ => None end.
Proof.
  revert f. induction n as [|n IH]; intros f Hf; cbn [scale_factor].
  - change (10 ^ Z.of_nat 0) with 1. rewrite Z.mul_1_r. by destruct (f <=? i128_max).
  - replace (f * 10 ^ Z.of_nat (S n)) with (f * 10 * 10 ^ Z.of_nat n)
      by (rewrite Nat2Z.inj_succ, Z.pow_succ_r by lia; lia).
    assert (1 <= 10 ^ Z.of_nat n) by (apply (Z.pow_le_mono_r 10 0); lia).
    unfold checked_i128. destruct (is_i128 (f * 10)) eqn:H128; simpl.
    + rewrite IH by lia. destruct (Z.leb_spec (f * 10 * 10 ^ Z.of_nat n) i128_max); [done|].
      destruct n; [|done]. change (10 ^ Z.of_nat 0) with 1 in *. range.
    + destruct (Z.leb_spec (f * 10 * 10 ^ Z.of_nat n) i128_max); [|done].
      apply not_true_iff_false in H128. destruct H128. unfold is_i128. rewrite in_range_true.
      unfold i128_min. nia.
Qed.

Lemma decimal128_scale_factor_some n f :
  decimal128_scale_factor n = Some f <-> f = 10 ^ Z.of_nat n /\ 10 ^ Z.of_nat n <= i128_max.
Proof.
  unfold decimal128_scale_factor. rewrite scale_factor_spec, Z.mul_1_l by lia.
  destruct (Z.leb_spec (10 ^ Z.of_nat n) i128_max); [naive_solver|].
  destruct n; [|naive_solver lia]. change (10 ^ Z.of_nat 0) with 1 in *. unfold i128_max in *. lia.
Qed.

Lemma split_dot_digits l s : Forall digit l ->
  split_dot (digits_string l +:+ String "."%char s) = Some (digits_string l, s).
Proof.
  induction 1 as [|d l Hd _ IH]; [done|]. simpl.
  destruct (Ascii.eqb_spec (digit_char d) "."%char) as [Heq|_].
  - apply (f_equal byte_of_ascii) in Heq. rewrite digit_char_byte in Heq by done.
    change (byte_of_ascii "."%char) with 46 in Heq. unfold digit in Hd. lia.
  - change (String.append (digits_string l) (String "."%char s)) with (digits_string l +:+ String "."%char s).
    by rewrite IH.
Qed.

Lemma split_dot_none l : Forall digit l -> split_dot (digits_string l) = None.
Proof.
  induction 1 as [|d l Hd _ IH]; [done|]. simpl.
  destruct (Ascii.eqb_spec (digit_char d) "."%char) as [Heq|_]; [|by rewrite IH].
  apply (f_equal byte_of_ascii) in Heq. rewrite digit_char_byte in Heq by done.
  change (byte_of_ascii "."%char) with 46 in Heq. unfold digit in Hd. lia.
Qed.

Lemma split_at_digits n l :
  split_at n (digits_string l) = (digits_string (take n l), digits_string (drop n l)).
Proof.
  revert l. induction n as [|n IH]; intros l; [done|]. destruct l as [|d l]; [done|]. simpl.
  by rewrite IH.
Qed.

Lemma zeros_digits n : zeros n = digits_string (replicate n 0).
Proof. induction n as [|n IH]; [done|]. simpl. by rewrite IH. Qed.

Lemma undigits_zeros n l : undigits (replicate n 0 ++ l) = undigits l.
Proof.
  rewrite undigits_app. assert (undigits (replicate n 0) = 0) as ->; [|lia].
  induction n as [|n IH]; [done|]. simpl. rewrite undigits_cons, IH. lia.
Qed.

Lemma digit_zeros n : Forall digit (replicate n 0).
Proof. apply Forall_replicate. unfold digit. lia. Qed.

(** * Round trip *)

Lemma parse_digits_string l : Forall digit l -> l <> [] ->
  parse_digits (digits_string l) = checked_i128 (undigits l).
Proof.
  intros Hl Hne. unfold parse_digits. rewrite string_digits_string by done.
  by destruct l.
Qed.

(** The decimal part the formatter writes: a whole and a fractional part. *)
Lemma format_parts value scale : Z.abs value <= i128_max -> exists whole frac,
  Forall digit whole /\ Forall digit frac /\ whole <> [] /\ length frac = scale /\
  undigits whole * 10 ^ Z.of_nat scale + undigits frac = Z.abs value /\
  format_decimal128_value value scale =
    (if value <? 0 then "-" else "") +:+ digits_string whole +:+
      match scale with O => "" | _ => String "."%char (digits_string frac) end.
Proof.
  intros Hv. assert (Hr : 0 <= Z.abs value < 10 ^ 39) by (unfold i128_max in Hv; lia).
  destruct (digits_spec _ Hr) as [Hd Hu]. pose proof (digits_nonempty _ Hr) as Hne.
  unfold format_decimal128_value, nat_to_string. set (ds := digits (Z.abs value)) in *.
  assert (Hsign : forall s, (if value <? 0 then "-" +:+ s else s) = (if value <? 0 then "-" else "") +:+ s)
    by (by intros; destruct (value <? 0)).
  rewrite length_digits_string. destruct scale as [|sc].
  { exists ds, []. split_and!; [done|done|done|done| |].
    - change (10 ^ Z.of_nat 0) with 1. change (undigits []) with 0. lia.
    - by rewrite Hsign, string_app_nil_r. }
  destruct (Nat.leb_spec (length ds) (S sc)) as [Hle|Hgt].
  - exists [0], (replicate (S sc - length ds) 0 ++ ds). split_and!.
    + by apply (digit_zeros 1).
    + apply Forall_app. split; [apply digit_zeros|done].
    + done.
    + rewrite length_app, length_replicate. lia.
    + rewrite undigits_zeros, Hu, undigits_single. lia.
    + rewrite Hsign, zeros_digits, digits_string_app. done.
  - exists (take (length ds - S sc) ds), (drop (length ds - S sc) ds). split_and!.
    + by apply Forall_take.
    + by apply Forall_drop.
    + intros Hnil. apply (f_equal length) in Hnil. rewrite length_take in Hnil. simpl in Hnil. lia.
    + rewrite length_drop. lia.
    + pose proof (undigits_app (take (length ds - S sc) ds) (drop (length ds - S sc) ds)) as Happ.
      rewrite take_drop, Hu, length_drop in Happ.
      replace (length ds - (length ds - S sc))%nat with (S sc) in Happ by lia. lia.
    + rewrite Hsign, split_at_digits. done.
Qed.

Lemma format_strip value scale : Z.abs value <= i128_max ->
  exists body, body <> EmptyString /\
  match strip_minus (format_decimal128_value value scale) with
    | Some rest => (true, rest) | None => (false, format_decimal128_value value scale) end = (value <? 0, body) /\
  exists whole frac, Forall digit whole /\ Forall digit frac /\ whole <> [] /\ length frac = scale /\
    undigits whole * 10 ^ Z.of_nat scale + undigits frac = Z.abs value /\
    body = digits_string whole +:+ match scale with O => "" | _ => String "."%char (digits_string frac) end.
Proof.
  intros Hv. destruct (format_parts value scale Hv) as (whole & frac & Hw & Hf & Hne & Hlen & Hsum & ->).
  set (body := digits_string whole +:+ _).
  assert (exists d t, body = String (digit_char d) t /\ digit d) as (d & t & Hb & Hd).
  { destruct whole as [|d whole]; [done|]. apply Forall_cons in Hw as [Hd _].
    unfold body. simpl. eauto. }
  exists body. split; [by rewrite Hb|]. split; [|by exists whole, frac].
  destruct (value <? 0); simpl; [done|]. change (String.append "" body) with body.
  rewrite Hb. simpl.
  destruct (Ascii.eqb_spec (digit_char d) "-"%char) as [Heq|_]; [|done].
  apply (f_equal byte_of_ascii) in Heq. rewrite digit_char_byte in Heq by done.
  change (byte_of_ascii "-"%char) with 45 in Heq. unfold digit in Hd. lia.
Qed.

Lemma parse_format value precision scale :
  Z.abs value <= i128_max -> 10 ^ Z.of_nat scale <= i128_max ->
  ensure_decimal128_precision (Z.abs value) precision = Ok tt ->
  parse_decimal128_str (format_decimal128_value value scale) precision scale = Some value.
Proof.
  intros Hv Hscale Hprec.
  destruct (format_strip value scale Hv) as (body & Hne & Hstrip & whole & frac & Hw & Hf & Hwne & Hlen & Hsum & Hbody).
  unfold parse_decimal128_str. rewrite Hstrip.
  destruct (String.eqb_spec body "") as [?|_]; [done|].
  assert (Hsplit : match split_dot body with Some parts => Some parts
    | None => match scale with O => Some (body, EmptyString) | _ => None end end
    = Some (digits_string whole, digits_string frac)).
  { rewrite Hbody. destruct scale.
    - destruct frac; [|done]. by rewrite string_app_nil_r, split_dot_none.
    - by rewrite split_dot_digits. }
  rewrite Hsplit. simpl. rewrite !all_digits_string, length_digits_string, Hlen, Nat.eqb_refl by done.
  assert (String.eqb (digits_string whole) "" = false) as -> by by destruct whole.
  simpl. pose proof (undigits_bound _ Hw) as Hwb. pose proof (undigits_bound _ Hf) as Hfb.
  assert (Hpow : 1 <= 10 ^ Z.of_nat scale) by (apply (Z.pow_le_mono_r 10 0); lia).
  set (w := undigits whole) in *. set (f := undigits frac) in *. set (t := 10 ^ Z.of_nat scale) in *.
  assert (Hbounds : 0 <= w <= Z.abs value /\ 0 <= w * t <= Z.abs value /\ 0 <= f <= Z.abs value).
  { clear -Hsum Hwb Hfb Hpow. destruct Hwb as [? _], Hfb as [? _]. nia. }
  assert (H128 : forall z, 0 <= z <= Z.abs value -> checked_i128 z = Some z).
  { intros z Hz. apply checked_i128_some. split; [done|]. apply in_range_true. unfold i128_min, i128_max in *. lia. }
  rewrite (parse_digits_string whole Hw Hwne). fold w. rewrite H128 by apply Hbounds. simpl.
  rewrite (proj2 (decimal128_scale_factor_some scale t)) by done. simpl.
  rewrite H128 by apply Hbounds. simpl.
  assert (match scale with O => Some (w * t)
    | _ => f ← parse_digits (digits_string frac); checked_i128 (w * t + f) end
    = Some (Z.abs value)) as ->.
  { destruct scale.
    - destruct frac; [|done]. change f with 0 in Hsum. f_equal. lia.
    - rewrite (parse_digits_string frac Hf) by by destruct frac. fold f. rewrite H128 by apply Hbounds.
      simpl. rewrite Hsum. apply H128. lia. }
  simpl. rewrite Z.abs_eq, Hprec by lia.
  assert ((if value <? 0 then checked_i128 (- Z.abs value) else Some (Z.abs value)) = Some value) as ->.
  { destruct (Z.ltb_spec value 0); [|f_equal; lia]. apply checked_i128_some. split; [lia|].
    apply in_range_true. unfold i128_min, i128_max in *. lia. }
  simpl. by rewrite String.eqb_refl.
Qed.

Lemma parse_digits_nonneg s z : all_digits s = true -> parse_digits s = Some z -> 0 <= z <= i128_max.
Proof.
  intros Hs%string_digits_digit. unfold parse_digits. destruct s as [|c s]; [done|].
  intros [-> Hr]%checked_i128_some. apply in_range_true in Hr. split; [|lia].
  by apply undigits_bound.
Qed.

Lemma parse_format_inv s precision scale v : parse_decimal128_str s precision scale = Some v ->
  s = format_decimal128_value v scale /\ ensure_decimal128_precision (Z.abs v) precision = Ok tt /\
  10 ^ Z.of_nat scale <= i128_max /\ Z.abs v <= i128_max.
Proof.
  unfold parse_decimal128_str.
  destruct (match strip_minus s with Some _ => _ | None => _ end) as [negative ds].
  destruct (String.eqb ds ""); [done|].
  destruct (match split_dot ds with Some _ => _ | None => _ end) as [[whole frac]|]; [simpl|done].
  destruct (_ || _) eqn:Hguard; [done|]. rewrite !orb_false_iff, !negb_false_iff in Hguard.
  destruct Hguard as [[[_ Hw] _] Hf].
  destruct (parse_digits whole) as [m|] eqn:Hm; [simpl|done].
  destruct (decimal128_scale_factor scale) as [f|] eqn:Hfac; [simpl|done].
  apply decimal128_scale_factor_some in Hfac as [-> Hscale].
  assert (Hpow : 0 <= 10 ^ Z.of_nat scale) by (apply Z.pow_nonneg; lia).
  apply parse_digits_nonneg in Hm as [Hm _]; [|done].
  destruct (checked_i128 (m * _)) as [m1|] eqn:Hm1; [simpl|done].
  apply checked_i128_some in Hm1 as [-> Hm1].
  destruct (match scale with O => _ | _ => _ end) as [m2|] eqn:Hm2; [simpl|done].
  assert (Hm2' : 0 <= m2 <= i128_max).
  { destruct scale.
    - injection Hm2 as <-. apply in_range_true in Hm1. nia.
    - destruct (parse_digits frac) as [fr|] eqn:Hfr; [simpl in Hm2|done].
      apply parse_digits_nonneg in Hfr as [Hfr _]; [|done].
      apply checked_i128_some in Hm2 as [-> Hm2]. apply in_range_true in Hm2. nia. }
  clear Hm2 Hm1. destruct (ensure_decimal128_precision (Z.abs m2) precision) as [[]|] eqn:Hp; [|done].
  assert (forall sm, (if negative : bool then checked_i128 (- m2) else Some m2) = Some sm -> Z.abs sm = Z.abs m2).
  { intros sm. destruct negative; [intros [-> _]%checked_i128_some; lia|by intros [= ->]]. }
  destruct (if negative then _ else _) as [sm|]; [simpl|done].
  destruct (String.eqb_spec (format_decimal128_value sm scale) s) as [Heq|]; [|done].
  intros [= <-]. rewrite (H sm eq_refl). split_and!; [done..|lia].
Qed.

(** The decimal parser accepts exactly the canonical texts: a string parses to
    [v] if and only if it is what the formatter writes for [v] at that scale,
    [v] is within the declared precision, and both [v] and the scale factor fit
    an [i128]. No other spelling of a number is accepted. *)
Theorem parse_decimal128_exact s precision scale v :
  parse_decimal128_str s precision scale = Some v <->
  s = format_decimal128_value v scale /\ ensure_decimal128_precision (Z.abs v) precision = Ok tt /\
  10 ^ Z.of_nat scale <= i128_max /\ Z.abs v <= i128_max.
Proof.
  split; [apply parse_format_inv|]. intros (-> & ? & ? & ?). by apply parse_format.
Qed.

(** The precision check counts decimal digits. *)
Lemma ensure_precision_spec value precision : 0 <= value < 10 ^ 39 -> 1 <= precision ->
  ensure_decimal128_precision value precision = Ok tt <-> value < 10 ^ precision.
Proof.
  intros Hv Hp. unfold ensure_decimal128_precision. rewrite fail_if_ok.
  destruct (Z.eqb_spec value 0) as [->|Hnz].
  - split; intros; [|lia]. apply Z.pow_pos_nonneg; lia.
  - unfold ilog10. pose proof (digits_length value Hv Hnz) as [Hlo Hhi].
    set (n := Z.of_nat (length (digits value))) in *. split.
    + intros Hle%Z.ltb_ge. apply (Z.lt_le_trans _ (10 ^ n)); [done|].
      apply Z.pow_le_mono_r; lia.
    + intros Hlt. apply Z.ltb_ge. destruct (Z.le_gt_cases (n - 1 + 1) precision); [done|].
      assert (10 ^ precision <= 10 ^ (n - 1)) by (apply Z.pow_le_mono_r; lia). lia.
Qed.
