(* ===== verification/Aggregate.v ===== *)
(** The keyed sum/count aggregate of [velorix-core/src/operator.rs], with its
    optional multiset of values from which minimum and maximum are read.

    A method on [&mut self] returns the new value of [self]; a state map is keyed
    by the canonical text of the group key. *)
From S2P Require Import Prelude BTree Json Digits Serde Text Delta Join Decimal.

Inductive AggregateValueMode :=
| Integer
| Decimal128 (precision : Z) (scale : nat).

Definition parse_input (m : AggregateValueMode) (v : DeltaValue) : result OperatorError Z :=
  match m with
  | Integer => ok_or NonIntegerAggregateValue (value_as_i64 (value_json v))
  | Decimal128 precision scale => parse_decimal128_value (value_json v) precision scale
  end.

Definition parse_state_sum (m : AggregateValueMode) (v : Value) : result OperatorError Z :=
  match m with
  | Integer => ok_or InvalidAggregateStateValue (value_as_i64 v)
  | Decimal128 precision scale => parse_decimal128_value_for_state v precision scale
  end.

Definition aggregate_sum_json_value (sum : Z) (m : AggregateValueMode) : result OperatorError Value :=
  match m with
  | Integer => s ← ok_or OpWeightOverflow (checked_i64 sum); Ok (json_of_i64 s)
  | Decimal128 precision scale =>
      _ ← ensure_decimal128_precision (Z.abs sum) precision;
      Ok (JString (format_decimal128_value sum scale))
  end.

(** * Entries *)

Record AggregateValueEntry := AValue { av_value : Value; av_weight : Z }.
Abbreviation value_map := (btree Z AggregateValueEntry).
Record AggregateEntry := AEntry { ae_key : DeltaKey; ae_sum : Z; ae_count : Z; ae_values : value_map }.

Definition add_weighted (e : AggregateEntry) (sum count weight : Z) : result OperatorError AggregateEntry :=
  sum_delta ← ok_or OpWeightOverflow (checked_i128 (sum * weight));
  count_delta ← ok_or OpWeightOverflow (checked_i128 (count * weight));
  s ← ok_or OpWeightOverflow (checked_i128 (ae_sum e + sum_delta));
  c ← ok_or OpWeightOverflow (checked_i128 (ae_count e + count_delta));
  Ok (AEntry (ae_key e) s c (ae_values e)).

Definition is_empty {A} (m : btree Z A) : bool := match entries m with [] => true | _ => false end.

Definition is_zero (e : AggregateEntry) : bool :=
  (ae_sum e =? 0) && (ae_count e =? 0) && is_empty (ae_values e).

(** The weight of [order_value] after a change, and the map with it. *)
Definition put_value (values : value_map) (order_value : Z) (value : Value) (w : Z) : value_map :=
  if w =? 0 then delete order_value values else <[order_value := AValue value w]> values.

Definition value_weight (values : value_map) (order_value : Z) : Z :=
  default 0 (av_weight <$> values !! order_value).

Definition add_value_weight (e : AggregateEntry) (order_value : Z) (value : Value)
    (v_weight record_weight : Z) : result OperatorError AggregateEntry :=
  delta ← ok_or OpWeightOverflow (checked_i128 (v_weight * record_weight));
  next ← ok_or OpWeightOverflow (checked_i128 (value_weight (ae_values e) order_value + delta));
  _ ← fail_if (next <? 0) InvalidAggregateStateValue;
  Ok (AEntry (ae_key e) (ae_sum e) (ae_count e) (put_value (ae_values e) order_value value next)).

Definition add_value_weight_to_map (values : value_map) (order_value : Z) (value : Value)
    (weight_delta : Z) (reject_negative : bool) : result OperatorError value_map :=
  next ← ok_or OpWeightOverflow (checked_i128 (value_weight values order_value + weight_delta));
  _ ← fail_if (reject_negative && (next <? 0)) InvalidAggregateStateValue;
  Ok (put_value values order_value value next).

(** One element of the [values] array. *)
Definition value_entry_json (v : AggregateValueEntry) : result OperatorError Value :=
  w ← ok_or OpWeightOverflow (checked_i64 (av_weight v));
  Ok (JObject [("value", av_value v); ("weight", json_of_i64 w)]).

(** [AggregateEntry::to_record]. *)
Definition entry_to_record (e : AggregateEntry) (weight : Z) (m : AggregateValueMode) (track : bool) :
    result OperatorError DeltaRecord :=
  count ← ok_or OpWeightOverflow (checked_i64 (ae_count e));
  sum ← aggregate_sum_json_value (ae_sum e) m;
  let fields := [("sum", sum); ("count", json_of_i64 count)] in
  fields ←
    (if track then
       min ← ok_or InvalidAggregateStateValue (av_value <$> head (entries (ae_values e)).*2);
       max ← ok_or InvalidAggregateStateValue (av_value <$> last (entries (ae_values e)).*2);
       values ← try_map value_entry_json (entries (ae_values e)).*2;
       Ok (fields ++ [("min", min); ("max", max); ("values", JArray values)])
     else Ok fields);
  Ok (DRecord (ae_key e) (DValue (JObject fields)) weight).

(** * Reading a saved entry *)

(** The body of the loop over the saved [values] array. *)
Definition read_value (m : AggregateValueMode) (acc : value_map) (v : Value) : result OperatorError value_map :=
  _ ← ok_or InvalidAggregateStateValue (match v with JObject fs => Some fs | _ => None end);
  aggregate_value ← ok_or InvalidAggregateStateValue (get_field "value" v);
  order_value ← parse_state_sum m aggregate_value;
  weight ← ok_or InvalidAggregateStateValue (w ← get_field "weight" v; value_as_i64 w);
  _ ← fail_if (weight =? 0) InvalidAggregateStateValue;
  Ok (<[order_value := AValue aggregate_value weight]> acc).

Definition aggregate_state_sum_count_values (v : DeltaValue) (m : AggregateValueMode) (track : bool) :
    result OperatorError (Z * Z * value_map) :=
  let v := value_json v in
  sum_json ← ok_or InvalidAggregateStateValue (get_field "sum" v);
  sum ← parse_state_sum m sum_json;
  count ← ok_or InvalidAggregateStateValue (c ← get_field "count" v; value_as_i64 c);
  values ←
    (if track then
       vs ← ok_or InvalidAggregateStateValue (a ← get_field "values" v; value_as_array a);
       state_values ← try_fold (read_value m) ∅ vs;
       _ ← fail_if (is_empty state_values) InvalidAggregateStateValue;
       Ok state_values
     else Ok ∅);
  Ok (sum, count, values).

(** * Changes *)

Record AggregateChange := AChange { ac_key : DeltaKey; sum_delta : Z; count_delta : Z; value_deltas : value_map }.

Definition change_new (k : DeltaKey) : AggregateChange := AChange k 0 0 ∅.

Definition change_add (c : AggregateChange) (amount : Z) (value : Value) (weight : Z) :
    result OperatorError AggregateChange :=
  weighted_amount ← ok_or OpWeightOverflow (checked_i128 (amount * weight));
  s ← ok_or OpWeightOverflow (checked_i128 (sum_delta c + weighted_amount));
  n ← ok_or OpWeightOverflow (checked_i128 (count_delta c + weight));
  next ← ok_or OpWeightOverflow (checked_i128 (value_weight (value_deltas c) amount + weight));
  Ok (AChange (ac_key c) s n (put_value (value_deltas c) amount value next)).

Definition change_apply_to (c : AggregateChange) (before : option AggregateEntry) (track : bool) :
    result OperatorError (option AggregateEntry) :=
  sum ← ok_or OpWeightOverflow (checked_i128 (default 0 (ae_sum <$> before) + sum_delta c));
  count ← ok_or OpWeightOverflow (checked_i128 (default 0 (ae_count <$> before) + count_delta c));
  values ←
    (let values := default ∅ (ae_values <$> before) in
     if track then
       try_fold (fun vs p => add_value_weight_to_map vs p.1 (av_value p.2) (av_weight p.2) true)
         values (entries (value_deltas c))
     else Ok values);
  Ok (if (sum =? 0) && (count =? 0) && (negb track || is_empty values) then None
      else Some (AEntry (default (ac_key c) (ae_key <$> before)) sum count values)).

(** [==] on entries: JSON equality of the keys and values. *)
Definition json_eqb (v w : Value) : bool := bool_decide (normalize v = normalize w).

Fixpoint values_eqb (l l' : list (Z * AggregateValueEntry)) : bool :=
  match l, l' with
  | [], [] => true
  | (x, v) :: l, (x', v') :: l' =>
      (x =? x') && json_eqb (av_value v) (av_value v') && (av_weight v =? av_weight v') && values_eqb l l'
  | _, _ => false
  end.

Definition entry_eqb (e e' : AggregateEntry) : bool :=
  json_eqb (key_json (ae_key e)) (key_json (ae_key e')) && (ae_sum e =? ae_sum e')
  && (ae_count e =? ae_count e') && values_eqb (entries (ae_values e)) (entries (ae_values e')).

Definition option_entry_eqb (a b : option AggregateEntry) : bool :=
  match a, b with
  | None, None => true
  | Some e, Some e' => entry_eqb e e'
  | _, _ => false
  end.

(** * The aggregate *)

Record KeyedSumCountAggregate := Aggregate {
  agg_state : btree string AggregateEntry;
  value_mode : AggregateValueMode;
  track_extrema : bool
}.

Record PreparedAggregateChanges := PreparedAggregate {
  pa_changes : btree string (option AggregateEntry);
  pa_output : DeltaBatch
}.

Definition with_value_mode_and_extrema (m : AggregateValueMode) (track : bool) : KeyedSumCountAggregate :=
  Aggregate ∅ m track.

Section aggregate.
Context `{SerdeJson}.

(** One record of the first loop of [prepare]. *)
Definition collect_change (m : AggregateValueMode) (changes : btree string AggregateChange) (r : DeltaRecord) :
    result OperatorError (btree string AggregateChange) :=
  amount ← parse_input m (value r);
  v ← aggregate_sum_json_value amount m;
  let k := key_text (key r) in
  c ← change_add (default (change_new (key r)) (changes !! k)) amount v (weight r);
  Ok (<[k := c]> changes).

(** One changed key of the second loop. *)
Definition prepare_change (a : KeyedSumCountAggregate)
    (acc : btree string (option AggregateEntry) * list DeltaRecord) (p : string * AggregateChange) :
    result OperatorError (btree string (option AggregateEntry) * list DeltaRecord) :=
  let '(prepared, output) := acc in
  let before := agg_state a !! p.1 in
  after ← change_apply_to p.2 before (track_extrema a);
  if option_entry_eqb before after then Ok (prepared, output) else
  output ← match before with
    | Some e => r ← entry_to_record e (-1) (value_mode a) (track_extrema a); Ok (output ++ [r])
    | None => Ok output
    end;
  match after with
  | Some e =>
      r ← entry_to_record e 1 (value_mode a) (track_extrema a);
      Ok (<[p.1 := Some e]> prepared, output ++ [r])
  | None => Ok (<[p.1 := None]> prepared, output)
  end.

Definition prepare (a : KeyedSumCountAggregate) (input : DeltaBatch) :
    result OperatorError PreparedAggregateChanges :=
  changes ← try_fold (collect_change (value_mode a)) ∅ (records input);
  po ← try_fold (prepare_change a) (∅, []) (entries changes);
  Ok (PreparedAggregate po.1 (DBatch po.2)).

Definition commit_change (s : btree string AggregateEntry) (p : string * option AggregateEntry) :
    btree string AggregateEntry :=
  match p.2 with Some e => <[p.1 := e]> s | None => delete p.1 s end.

Definition commit (a : KeyedSumCountAggregate) (p : PreparedAggregateChanges) :
    KeyedSumCountAggregate * DeltaBatch :=
  (Aggregate (foldl commit_change (agg_state a) (entries (pa_changes p))) (value_mode a) (track_extrema a),
   pa_output p).

Definition aggregate_apply (a : KeyedSumCountAggregate) (input : DeltaBatch) :
    result OperatorError (KeyedSumCountAggregate * DeltaBatch) :=
  p ← prepare a input; Ok (commit a p).

(** [None] would be the panic of [expect]. *)
Definition state (a : KeyedSumCountAggregate) : option DeltaBatch :=
  match try_map (fun e => entry_to_record e 1 (value_mode a) (track_extrema a)) (entries (agg_state a)).*2 with
  | Ok rs => Some (DBatch rs)
  | Err _ => None
  end.

Definition validate_aggregate_entries (s : btree string AggregateEntry) (m : AggregateValueMode) (track : bool) :
    result OperatorError unit :=
  try_fold (fun _ e => _ ← entry_to_record e 1 m track; Ok tt) tt (entries s).*2.

(** One saved record of [from_state_with_value_mode_and_extrema]. *)
Definition load_record (m : AggregateValueMode) (track : bool) (s : btree string AggregateEntry) (r : DeltaRecord) :
    result OperatorError (btree string AggregateEntry) :=
  scv ← aggregate_state_sum_count_values (value r) m track;
  let '(sum, count, values) := scv in
  let k := key_text (key r) in
  let e := default (AEntry (key r) 0 0 ∅) (s !! k) in
  e ← add_weighted e sum count (weight r);
  e ← (if track then
         try_fold (fun e p => add_value_weight e p.1 (av_value p.2) (av_weight p.2) (weight r)) e (entries values)
       else Ok e);
  Ok (if is_zero e then delete k s else <[k := e]> s).

Definition from_state_with_value_mode_and_extrema (saved : DeltaBatch) (m : AggregateValueMode) (track : bool) :
    result OperatorError KeyedSumCountAggregate :=
  s ← try_fold (load_record m track) (agg_state (with_value_mode_and_extrema m track)) (records saved);
  _ ← validate_aggregate_entries s m track;
  Ok (Aggregate s m track).
End aggregate.
