(* ===== verification/AggregateProofs.v ===== *)
(** Correctness of the keyed sum/count aggregate: sums, counts and extrema are
    those of the records it was given, its outputs are the changes of its state,
    its state always reads out, and a saved state loads back. *)
From S2P Require Import Prelude BTree Json Digits Serde Text Delta Join JoinProofs Decimal Aggregate.

(** * Weighted values *)

Section values.
Variable m : AggregateValueMode.

(** Each value is stored under its amount, with the amount's JSON form. *)
Definition values_ok (vs : value_map) : Prop :=
  forall x v, vs !! x = Some v ->
    av_weight v <> 0 /\ aggregate_sum_json_value x m = Ok (av_value v) /\ is_i128 x = true.

Lemma values_ok_empty : values_ok ∅.
Proof. intros x v. by rewrite lookup_empty. Qed.

Lemma lookup_put_value vs x v w y : put_value vs x v w !! y =
  if decide (y = x) then (if w =? 0 then None else Some (AValue v w)) else vs !! y.
Proof.
  unfold put_value. destruct (w =? 0), (decide (y = x)) as [->|];
    rewrite ?lookup_delete_eq, ?lookup_insert_eq, ?lookup_delete_ne, ?lookup_insert_ne by done; done.
Qed.

Lemma value_weight_put vs x v w y :
  value_weight (put_value vs x v w) y = if decide (y = x) then w else value_weight vs y.
Proof.
  unfold value_weight. rewrite lookup_put_value. destruct (decide (y = x)); [|done].
  destruct (Z.eqb_spec w 0); simpl; lia.
Qed.

Lemma values_ok_put vs x v w : values_ok vs -> aggregate_sum_json_value x m = Ok v ->
  is_i128 x = true -> values_ok (put_value vs x v w).
Proof.
  intros Hvs Hx H128 y v'. rewrite lookup_put_value. destruct (decide (y = x)) as [->|]; [|apply Hvs].
  destruct (Z.eqb_spec w 0); [done|]. by intros [= <-].
Qed.
End values.

Lemma decimal_i128 s precision scale x : parse_decimal128_str s precision scale = Some x -> is_i128 x = true.
Proof.
  intros (_ & _ & _ & Hx)%parse_format_inv. apply in_range_true. unfold i128_min, i128_max in *. lia.
Qed.

Lemma parse_input_i128 m v x j :
  parse_input m v = Ok x -> aggregate_sum_json_value x m = Ok j -> is_i128 x = true.
Proof.
  destruct m as [|precision scale]; simpl; intros Hx Hj.
  - apply bind_ok in Hj as (y & [-> Hy]%ok_or_ok%checked_i64_some & _). range.
  - unfold parse_decimal128_value in Hx. apply bind_ok in Hx as (s & _ & Hx%ok_or_ok).
    by eapply decimal_i128.
Qed.

Section aggregate.
Context `{SerdeJson}.

Definition amount_of (m : AggregateValueMode) (r : DeltaRecord) : Z :=
  match parse_input m (value r) with Ok x => x | Err _ => 0 end.

(** A sum over the records of one group. *)
Definition group_sum (f : DeltaRecord -> Z) (l : list DeltaRecord) (k : string) : Z :=
  zsum ((fun r => if decide (key_text (key r) = k) then f r else 0) <$> l).

Definition weighted_amount (m : AggregateValueMode) (r : DeltaRecord) : Z := amount_of m r * weight r.
Definition weight_at (m : AggregateValueMode) (x : Z) (r : DeltaRecord) : Z :=
  if decide (amount_of m r = x) then weight r else 0.

Lemma group_sum_app f l1 l2 k : group_sum f (l1 ++ l2) k = group_sum f l1 k + group_sum f l2 k.
Proof. unfold group_sum. by rewrite fmap_app, zsum_app. Qed.

Lemma group_sum_one f r k : group_sum f [r] k = if decide (key_text (key r) = k) then f r else 0.
Proof. unfold group_sum; simpl. lia. Qed.

(** * The collected changes *)

Definition change_ok (m : AggregateValueMode) (l : list DeltaRecord) (k : string) (c : AggregateChange) : Prop :=
  key_text (ac_key c) = k /\
  sum_delta c = group_sum (weighted_amount m) l k /\
  count_delta c = group_sum weight l k /\
  values_ok m (value_deltas c) /\
  forall x, value_weight (value_deltas c) x = group_sum (weight_at m x) l k.

Definition changes_inv (m : AggregateValueMode) (l : list DeltaRecord) (changes : btree string AggregateChange) : Prop :=
  forall k, match changes !! k with
  | Some c => change_ok m l k c
  | None => forall f, group_sum f l k = 0
  end.

Lemma change_add_ok c x v w c' : change_add c x v w = Ok c' ->
  c' = AChange (ac_key c) (sum_delta c + x * w) (count_delta c + w)
         (put_value (value_deltas c) x v (value_weight (value_deltas c) x + w)).
Proof.
  unfold change_add. intros Hc. simplify_res.
  repeat match goal with H : checked_i128 _ = Some _ |- _ => apply checked_i128_some in H as [-> _] end. done.
Qed.

Lemma collect_change_inv m l changes r changes' :
  changes_inv m l changes -> collect_change m changes r = Ok changes' ->
  changes_inv m (l ++ [r]) changes'.
Proof.
  intros Hinv. unfold collect_change.
  intros (x & Hx & (v & Hv & (c & Hc%change_add_ok & [= <-])%bind_ok)%bind_ok)%bind_ok.
  assert (Hx' : amount_of m r = x) by (unfold amount_of; by rewrite Hx).
  intros k. pose proof (Hinv k) as Hk. destruct (decide (k = key_text (key r))) as [->|Hne].
  - rewrite lookup_insert_eq. subst c.
    set (k := key_text (key r)) in *.
    assert (Hold : change_ok m l k (default (change_new (key r)) (changes !! k))).
    { destruct (changes !! k) as [c0|]; simpl; [done|].
      unfold change_ok; simpl. split_and!; [done|by rewrite Hk..|apply values_ok_empty|].
      intros y. rewrite Hk. done. }
    destruct Hold as (Hkey & Hs & Hn & Hok & Hw). unfold change_ok; cbn [ac_key sum_delta count_delta value_deltas].
    rewrite !group_sum_app, !group_sum_one, !decide_True by done. split_and!.
    + done.
    + rewrite Hs. change (weighted_amount m r) with (amount_of m r * weight r). by rewrite Hx'.
    + by rewrite Hn.
    + apply values_ok_put; [done..|]. by eapply parse_input_i128.
    + intros y. rewrite value_weight_put, group_sum_app, group_sum_one.
      rewrite (decide_True (P := key_text (key r) = k)), !Hw by done.
      change (weight_at m y r) with (if decide (amount_of m r = y) then weight r else 0). rewrite Hx'. destruct (decide (y = x)) as [->|].
      * by rewrite decide_True.
      * rewrite decide_False by done. lia.
  - rewrite lookup_insert_ne by done.
    assert (Hz : forall f, group_sum f (l ++ [r]) k = group_sum f l k).
    { intros f. rewrite group_sum_app, group_sum_one, decide_False by done. lia. }
    destruct (changes !! k) as [c0|]; [|intros f; by rewrite Hz].
    unfold change_ok in *. setoid_rewrite Hz. done.
Qed.

Lemma collect_changes_spec m l changes :
  try_fold (collect_change m) ∅ l = Ok changes -> changes_inv m l changes.
Proof.
  enough (Hgen : forall l1 c0 l2, changes_inv m l1 c0 -> try_fold (collect_change m) c0 l2 = Ok changes ->
    changes_inv m (l1 ++ l2) changes).
  { apply (Hgen []). intros k. rewrite lookup_empty. done. }
  intros l1 c0 l2. revert l1 c0. induction l2 as [|r l2 IH]; intros l1 c0 Hinv; simpl.
  - intros [= <-]. by rewrite app_nil_r.
  - intros (c1 & H1 & H2)%bind_ok. rewrite cons_middle, (assoc_L (++)).
    eapply IH; [|done]. by eapply collect_change_inv.
Qed.

(** * Entries *)

Definition o_sum (o : option AggregateEntry) : Z := default 0 (ae_sum <$> o).
Definition o_count (o : option AggregateEntry) : Z := default 0 (ae_count <$> o).
Definition o_weight (o : option AggregateEntry) (x : Z) : Z := value_weight (default ∅ (ae_values <$> o)) x.

Definition positive (vs : value_map) : Prop := forall x v, vs !! x = Some v -> 0 < av_weight v.

Definition entry_ok (m : AggregateValueMode) (track : bool) (e : AggregateEntry) : Prop :=
  (if track then values_ok m (ae_values e) /\ positive (ae_values e) else ae_values e = ∅) /\
  is_zero e = false /\ is_i128 (ae_sum e) = true.

Lemma is_empty_true {A} (vs : btree Z A) : is_empty vs = true <-> vs = ∅.
Proof. unfold is_empty. rewrite <-entries_empty_iff. destruct (entries vs); naive_solver. Qed.

Lemma apply_deltas vs deltas vs' m : values_ok m vs -> positive vs -> values_ok m deltas ->
  try_fold (fun vs p => add_value_weight_to_map vs p.1 (av_value p.2) (av_weight p.2) true)
    vs (entries deltas) = Ok vs' ->
  values_ok m vs' /\ positive vs' /\
  forall x, value_weight vs' x = value_weight vs x + value_weight deltas x.
Proof.
  intros Hvs Hpos Hd Hrun.
  assert (Hstep : forall s p s', add_value_weight_to_map s p.1 (av_value p.2) (av_weight p.2) true = Ok s' ->
    let w := value_weight s p.1 + av_weight p.2 in 0 <= w /\ s' = put_value s p.1 (av_value p.2) w).
  { intros s p s' Hs. unfold add_value_weight_to_map in Hs. simplify_res.
    match goal with H : checked_i128 _ = Some _ |- _ => apply checked_i128_some in H as [-> _] end.
    split; [lia|done]. }
  assert (Hinv : values_ok m vs' /\ positive vs').
  { refine (try_fold_inv (fun s => values_ok m s /\ positive s) _ _ vs vs' (conj Hvs Hpos) _ Hrun).
    intros s [x v] s' Hin [Hok Hp] [Hw ->]%Hstep. simpl in *. apply elem_of_entries, Hd in Hin as (_ & Hjson & H128).
    split; [by apply values_ok_put|]. intros y v'. rewrite lookup_put_value.
    destruct (decide (y = x)); [|apply Hp].
    destruct (Z.eqb_spec (value_weight s x + av_weight v) 0); [done|]. intros [= <-]. simpl. lia. }
  destruct Hinv as [Hok Hp]. split_and!; [done..|]. intros x.
  apply (try_fold_entries (fun s x => value_weight s x) (fun _ w v => w + av_weight v)) with (k := x) in Hrun.
  - rewrite Hrun. change (value_weight deltas x) with (default 0 (av_weight <$> deltas !! x)).
    destruct (deltas !! x); simpl; lia.
  - intros s [y v] s' z _ [_ ->]%Hstep. simpl. rewrite value_weight_put.
    by destruct (decide (z = y)) as [->|].
Qed.

Lemma change_apply_to_spec m track c before after :
  (forall e, before = Some e -> entry_ok m track e) -> values_ok m (value_deltas c) ->
  change_apply_to c before track = Ok after ->
  o_sum after = o_sum before + sum_delta c /\ o_count after = o_count before + count_delta c /\
  (track = true -> forall x, o_weight after x = o_weight before x + value_weight (value_deltas c) x) /\
  forall e, after = Some e -> entry_ok m track e /\ ae_key e = default (ac_key c) (ae_key <$> before).
Proof.
  intros Hbefore Hd. unfold change_apply_to.
  intros (s & Hs & (n & Hn & (vs & Hvs & [= <-])%bind_ok)%bind_ok)%bind_ok.
  apply ok_or_ok, checked_i128_some in Hs as [-> H128], Hn as [-> _].
  fold (o_sum before) (o_count before) in *.
  set (s := o_sum before + sum_delta c). set (n := o_count before + count_delta c).
  assert (Hvals : (if track then values_ok m vs /\ positive vs else vs = ∅) /\
    (track = true -> forall x, value_weight vs x = o_weight before x + value_weight (value_deltas c) x)).
  { unfold o_weight. destruct track.
    - apply (apply_deltas _ _ _ m) in Hvs as (? & ? & ?); [done|..|done].
      + destruct before as [e|]; [by apply Hbefore|apply values_ok_empty].
      + destruct before as [e|]; [by apply Hbefore|]. intros x v. simpl. by rewrite lookup_empty.
    - injection Hvs as <-. split; [|done]. destruct before as [e|]; [by apply Hbefore|done]. }
  destruct Hvals as [Hok Hw].
  destruct ((s =? 0) && (n =? 0) && (negb track || is_empty vs)) eqn:Hz.
  - rewrite !andb_true_iff in Hz. destruct Hz as [[Hs0 Hn0] He]. unfold o_sum at 1, o_count at 1; simpl.
    split_and!; [lia|lia| |done]. intros -> x. simpl in He. apply is_empty_true in He as ->.
    rewrite <-Hw by done. done.
  - unfold o_sum at 1, o_count at 1; simpl. split_and!; [done..|].
    intros e [= <-]. split; [|done]. split; [done|]. split; [|exact H128]. unfold is_zero; simpl.
    destruct track; simpl in Hz; [done|]. rewrite andb_true_r in Hz. by rewrite Hz.
Qed.

(** * The invariant *)

Definition agg_ok (a : KeyedSumCountAggregate) : Prop := forall k e, agg_state a !! k = Some e ->
  key_text (ae_key e) = k /\ entry_ok (value_mode a) (track_extrema a) e /\
  exists r, entry_to_record e 1 (value_mode a) (track_extrema a) = Ok r.

Lemma values_eqb_weight vs vs' x :
  values_eqb (entries vs) (entries vs') = true -> value_weight vs x = value_weight vs' x.
Proof.
  intros Heq. assert (Hw : av_weight <$> vs = av_weight <$> vs').
  { apply btree_eq. rewrite !entries_fmap. revert Heq. generalize (entries vs) (entries vs').
    induction l as [|[y v] l IH]; intros [|[y' v'] l'] Heq; try done. simpl in Heq.
    rewrite !andb_true_iff, !Z.eqb_eq in Heq. destruct Heq as [[[-> _] Hv] Hl].
    rewrite !fmap_cons, (IH l' Hl). simpl. by rewrite Hv. }
  unfold value_weight. rewrite <-!lookup_fmap. by rewrite Hw.
Qed.

Lemma option_entry_eqb_same a b : option_entry_eqb a b = true ->
  o_sum a = o_sum b /\ o_count a = o_count b /\ forall x, o_weight a x = o_weight b x.
Proof.
  destruct a as [e|], b as [e'|]; simpl; try done. unfold entry_eqb.
  rewrite !andb_true_iff, !Z.eqb_eq. intros [[[_ Hs] Hc] Hv].
  split_and!; [done..|]. intros x. by apply values_eqb_weight.
Qed.

(** ** Records of entries *)

Lemma entry_to_record_weight e w m track : entry_to_record e w m track =
  (fun r => DRecord (key r) (value r) w) <$> entry_to_record e 1 m track.
Proof.
  unfold entry_to_record. destruct (ok_or _ (checked_i64 (ae_count e))) as [n|]; [|done].
  rewrite !Ok_bind. destruct (aggregate_sum_json_value (ae_sum e) m) as [s|]; [|done].
  rewrite !Ok_bind. by destruct (if track then _ else _).
Qed.

Lemma entry_to_record_key e w m track r : entry_to_record e w m track = Ok r ->
  key r = ae_key e /\ weight r = w.
Proof. unfold entry_to_record. intros Hr. by simplify_res. Qed.

(** The weight an entry's record has in the state. *)
Definition row_weight_of (m : AggregateValueMode) (track : bool) (kt vt : string) (o : option AggregateEntry) : Z :=
  match o with
  | Some e => match entry_to_record e 1 m track with Ok r => text_weight kt vt [r] | Err _ => 0 end
  | None => 0
  end.

Definition rows_of (m : AggregateValueMode) (track : bool) (w : Z) (o : option AggregateEntry) :
    result OperatorError (list DeltaRecord) :=
  match o with Some e => r ← entry_to_record e w m track; Ok [r] | None => Ok [] end.

Lemma rows_of_weight m track w o rows kt vt : rows_of m track w o = Ok rows ->
  text_weight kt vt rows = w * row_weight_of m track kt vt o.
Proof.
  destruct o as [e|]; simpl; [|intros [= <-]; unfold text_weight; simpl; lia].
  intros (r & Hr & [= <-])%bind_ok. rewrite entry_to_record_weight in Hr.
  destruct (entry_to_record e 1 m track) as [r1|] eqn:H1; [|done]. injection Hr as <-.
  apply entry_to_record_key in H1 as [_ Hw1]. unfold text_weight; simpl.
  destruct (decide _); [rewrite Hw1|]; lia.
Qed.

Lemma rows_of_key m track w o rows r : rows_of m track w o = Ok rows -> r ∈ rows ->
  exists e, o = Some e /\ key r = ae_key e.
Proof.
  destruct o as [e|]; simpl; [|intros [= <-]; set_solver].
  intros (r' & [Hk _]%entry_to_record_key & [= <-])%bind_ok ->%list_elem_of_singleton. eauto.
Qed.

Lemma row_weight_of_key m track kt vt e : key_text (ae_key e) <> kt ->
  row_weight_of m track kt vt (Some e) = 0.
Proof.
  intros Hk. simpl. destruct (entry_to_record e 1 m track) as [r|] eqn:Hr; [|done].
  apply entry_to_record_key in Hr as [Hkey _]. unfold text_weight; simpl.
  rewrite decide_False; [done|]. rewrite Hkey. naive_solver.
Qed.

(** ** The second loop of [prepare] *)

Lemma prepare_change_ok a acc k c acc' : prepare_change a acc (k, c) = Ok acc' ->
  exists after, change_apply_to c (agg_state a !! k) (track_extrema a) = Ok after /\
  if option_entry_eqb (agg_state a !! k) after then acc' = acc else
  exists rb ra, rows_of (value_mode a) (track_extrema a) (-1) (agg_state a !! k) = Ok rb /\
    rows_of (value_mode a) (track_extrema a) 1 after = Ok ra /\
    acc' = (<[k := after]> acc.1, acc.2 ++ rb ++ ra).
Proof.
  destruct acc as [prepared out]. unfold prepare_change; cbn [fst snd].
  intros (after & Hafter & Hrest)%bind_ok. exists after. split; [done|].
  destruct (option_entry_eqb _ after); [by injection Hrest|].
  apply bind_ok in Hrest as (out' & Hb & Hrest).
  assert (exists rb, rows_of (value_mode a) (track_extrema a) (-1) (agg_state a !! k) = Ok rb /\
    out' = out ++ rb) as (rb & Hrb & ->).
  { destruct (agg_state a !! k) as [e|]; simpl.
    - apply bind_ok in Hb as (r & -> & [= <-]). simpl. eauto.
    - injection Hb as <-. exists []. by rewrite app_nil_r. }
  exists rb. destruct after as [e|]; simpl.
  - apply bind_ok in Hrest as (r & -> & [= <-]). eexists. split_and!; [done..|].
    by rewrite (assoc_L (++)).
  - injection Hrest as <-. exists []. by rewrite app_nil_r.
Qed.

Section one_batch.
Variables (a : KeyedSumCountAggregate) (l : list DeltaRecord) (changes : btree string AggregateChange).
Hypothesis Hok : agg_ok a.
Hypothesis Hchanges : changes_inv (value_mode a) l changes.
Local Abbreviation m := (value_mode a).
Local Abbreviation track := (track_extrema a).
Local Abbreviation before k := (agg_state a !! k).

(** The entry a change leads to, and the entry that is stored. *)
Definition final_of (k : string) (c : AggregateChange) : option AggregateEntry :=
  match change_apply_to c (before k) track with Ok o => o | Err _ => None end.
Definition stored (k : string) (o : option AggregateChange) : option AggregateEntry :=
  match o with
  | Some c => if option_entry_eqb (before k) (final_of k c) then before k else final_of k c
  | None => before k
  end.

Lemma final_spec k c after : changes !! k = Some c -> change_apply_to c (before k) track = Ok after ->
  o_sum after = o_sum (before k) + group_sum (weighted_amount m) l k /\
  o_count after = o_count (before k) + group_sum weight l k /\
  (track = true -> forall x, o_weight after x = o_weight (before k) x + group_sum (weight_at m x) l k) /\
  forall e, after = Some e -> entry_ok m track e /\ key_text (ae_key e) = k.
Proof using Hok Hchanges.
  intros Hc Hafter. specialize (Hchanges k). rewrite Hc in Hchanges.
  destruct Hchanges as (Hkey & Hs & Hn & Hv & Hw).
  destruct (change_apply_to_spec m track c (before k) after) as (H1 & H2 & H3 & H4); [|done..|].
  { intros e He. by apply Hok in He as (_ & ? & _). }
  rewrite <-Hs, <-Hn. split_and!; [done..| |].
  - intros Ht x. rewrite <-Hw. by apply H3.
  - intros e He. destruct (H4 e He) as [He1 ->]. split; [done|].
    destruct (before k) as [e0|] eqn:He0; simpl; [by apply Hok in He0 as (? & _)|done].
Qed.

Lemma step_keys k c after kt vt rb ra : changes !! k = Some c ->
  change_apply_to c (before k) track = Ok after ->
  rows_of m track (-1) (before k) = Ok rb -> rows_of m track 1 after = Ok ra ->
  text_weight kt vt (rb ++ ra) =
    if decide (kt = k) then row_weight_of m track kt vt after - row_weight_of m track kt vt (before k) else 0.
Proof using Hok Hchanges.
  intros Hc Hafter Hrb Hra. destruct (final_spec k c after Hc Hafter) as (_ & _ & _ & Hkey).
  rewrite text_weight_app, (rows_of_weight _ _ _ _ _ kt vt Hrb), (rows_of_weight _ _ _ _ _ kt vt Hra).
  destruct (decide (kt = k)); [lia|].
  assert (row_weight_of m track kt vt (before k) = 0) as ->.
  { destruct (before k) as [e|] eqn:He; [|done]. apply row_weight_of_key.
    apply Hok in He as (-> & _). done. }
  assert (row_weight_of m track kt vt after = 0) as ->; [|lia].
  destruct after as [e|]; [|done]. apply row_weight_of_key. by rewrite (proj2 (Hkey e eq_refl)).
Qed.

Lemma prepare_loop acc : try_fold (prepare_change a) (∅, []) (entries changes) = Ok acc ->
  (forall k c, changes !! k = Some c ->
     change_apply_to c (before k) track = Ok (final_of k c) /\
     (option_entry_eqb (before k) (final_of k c) = false -> forall e, final_of k c = Some e ->
        exists r, entry_to_record e 1 m track = Ok r)) /\
  (forall k, acc.1 !! k = match changes !! k with
     | Some c => if option_entry_eqb (before k) (final_of k c) then None else Some (final_of k c)
     | None => None end) /\
  (forall kt vt, row_weight_of m track kt vt (stored kt (changes !! kt))
     = row_weight_of m track kt vt (before kt) + text_weight kt vt acc.2).
Proof using Hok Hchanges.
  intros Hrun.
  assert (Hstep : forall s p s', p ∈ entries changes -> prepare_change a s p = Ok s' ->
    change_apply_to p.2 (before p.1) track = Ok (final_of p.1 p.2) /\
    if option_entry_eqb (before p.1) (final_of p.1 p.2) then s' = s else
    exists rb ra, rows_of m track (-1) (before p.1) = Ok rb /\
      rows_of m track 1 (final_of p.1 p.2) = Ok ra /\
      s' = (<[p.1 := final_of p.1 p.2]> s.1, s.2 ++ rb ++ ra)).
  { intros s [k c] s' _ (after & Hafter & Hrest)%prepare_change_ok. cbn [fst snd].
    assert (final_of k c = after) as -> by (unfold final_of; by rewrite Hafter). done. }
  split_and!.
  - intros k c Hc%elem_of_entries. destruct (try_fold_steps _ _ _ _ _ Hrun Hc) as (s1 & s2 & H12).
    destruct (Hstep _ _ _ Hc H12) as [Hf Hrest]. simpl in *. split; [done|]. intros Hne e He.
    rewrite Hne in Hrest. destruct Hrest as (rb & ra & _ & Hra & _). rewrite He in Hra.
    apply bind_ok in Hra as (r & Hr & _). eauto.
  - intros k. apply (try_fold_entries (fun acc k => acc.1 !! k)
      (fun k o c => if option_entry_eqb (before k) (final_of k c) then o else Some (final_of k c)))
      with (k := k) in Hrun; [exact Hrun|].
    intros s p s' k' Hp Hs. destruct (Hstep _ _ _ Hp Hs) as [_ Hrest].
    destruct (decide (k' = p.1)) as [->|Hk'].
    + destruct (option_entry_eqb _ _); [by subst|]. destruct Hrest as (? & ? & _ & _ & ->).
      apply lookup_insert_eq.
    + destruct (option_entry_eqb _ _); [by subst|]. destruct Hrest as (? & ? & _ & _ & ->).
      by apply lookup_insert_ne.
  - intros kt vt. apply (try_fold_entries (fun acc k => text_weight k vt acc.2)
      (fun k w c => if option_entry_eqb (before k) (final_of k c) then w else
         w + (row_weight_of m track k vt (final_of k c) - row_weight_of m track k vt (before k))))
      with (k := kt) in Hrun.
    + rewrite Hrun. simpl. change (text_weight kt vt []) with 0. unfold stored.
      destruct (changes !! kt) as [c|]; [destruct (option_entry_eqb _ _)|]; lia.
    + intros s [k c] s' k' Hp Hs. destruct (Hstep _ _ _ Hp Hs) as [Hf Hrest]. simpl in *.
      destruct (option_entry_eqb (before k) (final_of k c)) eqn:Heq.
      * subst s'. destruct (decide (k' = k)) as [->|]; [by rewrite Heq|done].
      * destruct Hrest as (rb & ra & Hrb & Hra & ->). simpl. rewrite text_weight_app.
        rewrite (step_keys k c _ k' vt rb ra (proj1 (elem_of_entries _ _ _) Hp) Hf Hrb Hra).
        destruct (decide (k' = k)) as [->|]; [rewrite Heq; lia|lia].
Qed.
End one_batch.

(** ** One batch *)

Lemma lookup_commit a p k : agg_state (commit a p).1 !! k =
  match pa_changes p !! k with Some o => o | None => agg_state a !! k end.
Proof.
  unfold commit; simpl. apply (foldl_entries (fun s k => s !! k) (fun _ o => o)).
  intros s0 [k' o] k''. unfold commit_change; simpl. destruct o, (decide (k'' = k')) as [->|];
    rewrite ?lookup_insert_eq, ?lookup_delete_eq, ?lookup_insert_ne, ?lookup_delete_ne by done; done.
Qed.

Lemma apply_spec a b a' out : agg_ok a -> aggregate_apply a b = Ok (a', out) ->
  agg_ok a' /\ value_mode a' = value_mode a /\ track_extrema a' = track_extrema a /\
  forall k, let o := agg_state a !! k in let o' := agg_state a' !! k in
    o_sum o' = o_sum o + group_sum (weighted_amount (value_mode a)) (records b) k /\
    o_count o' = o_count o + group_sum weight (records b) k /\
    (track_extrema a = true -> forall x,
       o_weight o' x = o_weight o x + group_sum (weight_at (value_mode a) x) (records b) k) /\
    forall vt, row_weight_of (value_mode a) (track_extrema a) k vt o'
      = row_weight_of (value_mode a) (track_extrema a) k vt o + text_weight k vt (records out).
Proof.
  intros Hok. unfold aggregate_apply, prepare.
  intros (p & (changes & Hch%collect_changes_spec & ([pr ou] & Hloop & [= <-])%bind_ok)%bind_ok & Hcommit)%bind_ok.
  injection Hcommit as <- <-.
  destruct (prepare_loop a (records b) changes Hok Hch _ Hloop) as (Hfin & Hpr & Hout). simpl in Hpr, Hout.
  set (a' := Aggregate _ _ _).
  assert (Hnew : forall k, agg_state a' !! k = stored a k (changes !! k)).
  { intros k. pose proof (lookup_commit a (PreparedAggregate pr (DBatch ou)) k) as Hl. simpl in Hl.
    unfold a'; simpl. rewrite Hl, Hpr. unfold stored. destruct (changes !! k) as [c|]; [|done].
    by destruct (option_entry_eqb _ _). }
  split; [|split; [done|split; [done|]]].
  - intros k e. rewrite Hnew. unfold stored. destruct (changes !! k) as [c|] eqn:Hc; [|apply Hok].
    destruct (option_entry_eqb _ _) eqn:Heq; [apply Hok|]. intros He.
    destruct (Hfin k c Hc) as [Hf Hrep].
    destruct (final_spec a _ _ Hok Hch k c _ Hc Hf) as (_ & _ & _ & Hkey).
    destruct (Hkey e He) as [He1 He2]. split_and!; [done..|]. by apply Hrep.
  - intros k. cbv zeta. rewrite Hnew. split_and!; [| | |intros vt; by rewrite <-Hout].
    all: pose proof (Hch k) as Hk; unfold stored; destruct (changes !! k) as [c|] eqn:Hc;
      [|intros; rewrite Hk; lia].
    all: destruct (Hfin k c Hc) as [Hf _];
      destruct (final_spec a _ _ Hok Hch k c _ Hc Hf) as (H1 & H2 & H3 & _);
      destruct (option_entry_eqb (agg_state a !! k) (final_of a k c)) eqn:Heq;
      try (apply option_entry_eqb_same in Heq as (E1 & E2 & E3));
      first [done|lia|intros Ht x; rewrite <-H3 by done; apply E3].
Qed.

(** ** Sequences of batches *)

Definition apply_batch (st : KeyedSumCountAggregate * list DeltaRecord) (b : DeltaBatch) :
    result OperatorError (KeyedSumCountAggregate * list DeltaRecord) :=
  r ← aggregate_apply st.1 b; Ok (r.1, st.2 ++ records r.2).

(** The batches applied one after the other, with all their outputs. *)
Definition run_batches (a : KeyedSumCountAggregate) (bs : list DeltaBatch) :
    result OperatorError (KeyedSumCountAggregate * list DeltaRecord) :=
  try_fold apply_batch (a, []) bs.

Definition all_records (bs : list DeltaBatch) : list DeltaRecord := concat (records <$> bs).

Lemma run_batches_spec bs a out a' out' : agg_ok a -> try_fold apply_batch (a, out) bs = Ok (a', out') ->
  agg_ok a' /\ value_mode a' = value_mode a /\ track_extrema a' = track_extrema a /\
  forall k, let o := agg_state a !! k in let o' := agg_state a' !! k in
    o_sum o' = o_sum o + group_sum (weighted_amount (value_mode a)) (all_records bs) k /\
    o_count o' = o_count o + group_sum weight (all_records bs) k /\
    (track_extrema a = true -> forall x,
       o_weight o' x = o_weight o x + group_sum (weight_at (value_mode a) x) (all_records bs) k) /\
    forall vt, row_weight_of (value_mode a) (track_extrema a) k vt o' + text_weight k vt out
      = row_weight_of (value_mode a) (track_extrema a) k vt o + text_weight k vt out'.
Proof.
  revert a out. induction bs as [|b bs IH]; intros a out Hok Hrun; simpl in Hrun.
  - injection Hrun as <- <-. split_and!; [done..|]. intros k. cbv zeta. unfold all_records, group_sum; simpl.
    split_and!; intros; lia.
  - apply bind_ok in Hrun as ([a1 out1] & ([a1' o1] & Hb & [= -> <-])%bind_ok & Hrun). simpl in Hrun, Hb.
    destruct (apply_spec _ _ _ _ Hok Hb) as (Hok1 & Hm1 & Ht1 & Hk1).
    destruct (IH _ _ Hok1 Hrun) as (Hok2 & Hm2 & Ht2 & Hk2). split_and!; [done|congruence..|].
    intros k. cbv zeta. destruct (Hk1 k) as (A1 & A2 & A3 & A4), (Hk2 k) as (B1 & B2 & B3 & B4).
    rewrite Hm1, Ht1 in *. unfold all_records. rewrite fmap_cons. cbn [concat]. fold (all_records bs).
    rewrite !group_sum_app. split_and!; [lia|lia| |].
    + intros Ht x. rewrite group_sum_app, B3, A3 by done. lia.
    + intros vt. specialize (A4 vt). specialize (B4 vt). rewrite text_weight_app in B4. lia.
Qed.

Lemma agg_ok_empty m track : agg_ok (with_value_mode_and_extrema m track).
Proof. intros k e. simpl. by rewrite lookup_empty. Qed.

(** C15: Aggregates are exact. After any sequence of batches, the entry of every
    group holds the sum of amount times weight and the sum of weights of the
    records of that group, an absent entry standing for zero; with extrema
    tracked, the multiset of a group holds every amount with its net weight. *)
Theorem aggregate_totals m track bs a' out :
  run_batches (with_value_mode_and_extrema m track) bs = Ok (a', out) ->
  forall k, let o := agg_state a' !! k in
    o_sum o = group_sum (weighted_amount m) (all_records bs) k /\
    o_count o = group_sum weight (all_records bs) k /\
    (track = true -> forall x, o_weight o x = group_sum (weight_at m x) (all_records bs) k /\ 0 <= o_weight o x).
Proof.
  intros Hrun k. cbv zeta.
  destruct (run_batches_spec _ _ _ _ _ (agg_ok_empty m track) Hrun) as (Hok & Hm & Ht & Hk).
  destruct (Hk k) as (H1 & H2 & H3 & _). simpl in *. rewrite lookup_empty in H1, H2, H3.
  split_and!; [done..|]. intros -> x. split; [by apply H3|].
  destruct (agg_state a' !! k) as [e|] eqn:He; [|done]. apply Hok in He as (_ & [Hv _] & _).
  rewrite Ht in Hv. destruct Hv as [_ Hp]. unfold o_weight, value_weight; simpl.
  destruct (ae_values e !! x) as [v|] eqn:Hx; [|done]. apply Hp in Hx. simpl. lia.
Qed.

(** ** Reading the state *)

Lemma state_rows a : agg_ok a -> exists rows, state a = Some (DBatch rows) /\
  try_map (fun e => entry_to_record e 1 (value_mode a) (track_extrema a)) (entries (agg_state a)).*2 = Ok rows /\
  forall kt vt, text_weight kt vt rows
    = row_weight_of (value_mode a) (track_extrema a) kt vt (agg_state a !! kt).
Proof.
  intros Hok. set (f := fun e => entry_to_record e 1 (value_mode a) (track_extrema a)).
  destruct (try_map_total f (entries (agg_state a)).*2) as [rows Hrows].
  { intros e ([k e'] & -> & Hin%elem_of_entries)%list_elem_of_fmap_1. by apply Hok in Hin as (_ & _ & ?). }
  exists rows. split_and!; [unfold state; fold f; by rewrite Hrows|done|]. intros kt vt.
  assert (Hsum : text_weight kt vt rows = msum (fun _ e =>
    row_weight_of (value_mode a) (track_extrema a) kt vt (Some e)) (agg_state a)).
  { apply try_map_ok in Hrows. unfold msum. revert rows Hrows.
    induction (entries (agg_state a)) as [|[k e] es IH]; intros rows Hrows; simpl in Hrows.
    - by inversion Hrows.
    - apply Forall2_cons_inv_l in Hrows as (r & rows' & Hr & Hrows & ->).
      rewrite (text_weight_cons kt vt r rows'), (IH rows' Hrows), fmap_cons. cbn [zsum snd row_weight_of].
      unfold f in Hr. by rewrite Hr. }
  rewrite Hsum, (msum_only _ _ kt).
  - by destruct (agg_state a !! kt).
  - intros k e Hk Hin. apply row_weight_of_key. by apply Hok in Hin as (-> & _).
Qed.

(** The outputs are the changes of the state: after any sequence of batches
    the state reads out, and the weight of every row in it is the sum of that
    row's weights over all the outputs. *)
Theorem aggregate_outputs_total m track bs a' out :
  run_batches (with_value_mode_and_extrema m track) bs = Ok (a', out) ->
  exists rows, state a' = Some (DBatch rows) /\
    forall k v, text_weight k v rows = text_weight k v out.
Proof.
  intros Hrun.
  destruct (run_batches_spec _ _ _ _ _ (agg_ok_empty m track) Hrun) as (Hok & Hm & Ht & Hk).
  destruct (state_rows _ Hok) as (rows & Hrows & _ & Hw). exists rows. split; [done|]. intros k v.
  destruct (Hk k) as (_ & _ & _ & H4). specialize (H4 v).
  change (agg_state (with_value_mode_and_extrema m track) !! k) with (None (A := AggregateEntry)) in H4.
  change (text_weight k v []) with 0 in H4. rewrite Hw, Hm, Ht. cbn [row_weight_of] in H4. lia.
Qed.

(** With extrema tracked, the record of a group shows as [min] and [max] the
    JSON of the least and of the greatest amount that the group's records leave
    with a positive net weight. *)
Theorem aggregate_extrema m bs a' out k e :
  run_batches (with_value_mode_and_extrema m true) bs = Ok (a', out) ->
  agg_state a' !! k = Some e ->
  let net x := group_sum (weight_at m x) (all_records bs) k in
  exists r min max xmin xmax, entry_to_record e 1 m true = Ok r /\
    get_field "min" (value_json (value r)) = Some min /\
    get_field "max" (value_json (value r)) = Some max /\
    aggregate_sum_json_value xmin m = Ok min /\ aggregate_sum_json_value xmax m = Ok max /\
    0 < net xmin /\ 0 < net xmax /\ forall x, net x <> 0 -> xmin <= x <= xmax.
Proof.
  intros Hrun He net.
  destruct (run_batches_spec _ _ _ _ _ (agg_ok_empty m true) Hrun) as (Hok & Hm & Ht & Hk).
  destruct (Hk k) as (_ & _ & H3 & _). simpl in Hm, Ht, H3. rewrite He, lookup_empty in H3.
  apply Hok in He as (_ & [Hv _] & (r & Hr)). rewrite Hm, Ht in *. destruct Hv as [Hvok Hpos].
  assert (Hnet : forall x, net x = value_weight (ae_values e) x) by (intros x; symmetry; by apply H3).
  pose proof Hr as Hrec. unfold entry_to_record in Hrec.
  apply bind_ok in Hrec as (n & _ & (s & _ & (fs & (min & Hmin & (max & Hmax &
    (vs & _ & [= <-])%bind_ok)%bind_ok)%bind_ok & Heq)%bind_ok)%bind_ok).
  exists r, min, max. injection Heq as <-. cbn [value value_json].
  apply ok_or_ok in Hmin, Hmax. rewrite head_fmap in Hmin. rewrite fmap_last in Hmax.
  destruct (head (entries (ae_values e))) as [[xmin vmin]|] eqn:Hhd; [|done].
  destruct (last (entries (ae_values e))) as [[xmax vmax]|] eqn:Hla; [|done].
  injection Hmin as <-. injection Hmax as <-. exists xmin, xmax.
  assert (H1 : ae_values e !! xmin = Some vmin).
  { apply elem_of_entries. destruct (entries (ae_values e)); [done|]. injection Hhd as ->. left. }
  assert (H2 : ae_values e !! xmax = Some vmax) by (by apply elem_of_entries, last_Some_elem_of).
  split_and!; try done; [by apply Hvok|by apply Hvok|..].
  - rewrite Hnet. unfold value_weight. rewrite H1. simpl. by eapply Hpos.
  - rewrite Hnet. unfold value_weight. rewrite H2. simpl. by eapply Hpos.
  - intros x. rewrite Hnet. unfold value_weight. intros Hx.
    assert (is_Some (ae_values e !! x)) as Hsome by (destruct (ae_values e !! x); [done|by destruct Hx]).
    destruct (entries_head _ _ _ _ Hhd Hsome) as [_ Hle1%leb_cases].
    destruct (entries_last _ _ _ _ Hla Hsome) as [_ Hle2%leb_cases].
    assert (Hle : forall y z : Z, cmp y z = Lt \/ y = z -> y <= z).
    { intros y z [Hlt|Heq]; [|lia]. change (y < z) in Hlt. lia. }
    split; by apply Hle.
Qed.
End aggregate.
