(* ===== verification/AggregateState.v ===== *)
(** Saving and loading an aggregate: a saved state loads back to the same
    aggregate, and every aggregate a program can reach reads out without a
    panic. *)
From S2P Require Import Prelude BTree Json Digits Serde Text Delta Join JoinProofs Decimal Aggregate AggregateProofs.

(** The value modes a Decimal128 column can declare. *)
Definition mode_ok (m : AggregateValueMode) : Prop :=
  match m with Integer => True | Decimal128 precision scale => 1 <= precision <= 38 /\ Z.of_nat scale <= 38 end.

Lemma as_i64_json n : is_i64 n = true -> value_as_i64 (json_of_i64 n) = Some n.
Proof.
  intros Hn. unfold json_of_i64, value_as_i64, as_i64. destruct (n <? 0); [done|].
  by apply checked_i64_some.
Qed.

Lemma parse_json_value m x v : mode_ok m -> is_i128 x = true ->
  aggregate_sum_json_value x m = Ok v -> parse_state_sum m v = Ok x.
Proof.
  destruct m as [|precision scale]; intros Hm Hx Hv; simpl in *.
  - apply bind_ok in Hv as (y & [-> Hy]%ok_or_ok%checked_i64_some & [= <-]).
    by rewrite as_i64_json.
  - apply bind_ok in Hv as ([] & Hp & [= <-]). unfold parse_decimal128_value_for_state; simpl.
    apply in_range_true in Hx. unfold i128_min, i128_max in Hx.
    assert (Hlt : Z.abs x < 10 ^ precision) by (apply ensure_precision_spec; lia || done).
    assert (10 ^ precision <= 10 ^ 38) by (apply Z.pow_le_mono_r; lia).
    assert (10 ^ Z.of_nat scale <= 10 ^ 38) by (apply Z.pow_le_mono_r; lia).
    rewrite parse_format; [done|unfold i128_max; lia|unfold i128_max; lia|done].
Qed.

#[local] Arguments json_of_i64 : simpl never.
#[local] Arguments value_as_i64 : simpl never.

Section load.
Context `{SerdeJson}.

(** ** One saved entry *)

Lemma read_values m vs : mode_ok m -> values_ok m vs -> forall jsons,
  try_map value_entry_json (entries vs).*2 = Ok jsons -> try_fold (read_value m) ∅ jsons = Ok vs.
Proof.
  intros Hm Hvs jsons Hjsons.
  set (g := fun p : Z * AggregateValueEntry =>
    JObject [("value", av_value p.2); ("weight", json_of_i64 (av_weight p.2))]).
  assert (Hj : jsons = g <$> entries vs /\ forall x v, vs !! x = Some v -> is_i64 (av_weight v) = true).
  { apply try_map_ok in Hjsons. setoid_rewrite <-elem_of_entries. revert jsons Hjsons.
    induction (entries vs) as [|[x v] l IH]; intros jsons Hjsons; simpl in Hjsons.
    - inversion Hjsons. split; [done|set_solver].
    - apply Forall2_cons_inv_l in Hjsons as (j & jsons' & Hj & Hjsons & ->).
      destruct (IH _ Hjsons) as [-> Hin].
      apply bind_ok in Hj as (w & [-> Hw]%ok_or_ok%checked_i64_some & [= <-]).
      split; [done|]. intros y v' [[= -> ->]|Hy]%elem_of_cons; eauto. }
  destruct Hj as [-> Hw]. apply (rebuild id). intros acc x v Hx _. unfold read_value, g; simpl.
  destruct (Hvs x v Hx) as (Hnz & Hjson & H128). rewrite (parse_json_value m x) by done. simpl.
  rewrite as_i64_json by (by eapply Hw). simpl.
  assert ((av_weight v =? 0) = false) as -> by by apply Z.eqb_neq. simpl. by destruct v.
Qed.

Lemma load_sum_count_values m track e r : mode_ok m -> entry_ok m track e ->
  entry_to_record e 1 m track = Ok r ->
  aggregate_state_sum_count_values (value r) m track = Ok (ae_sum e, ae_count e, ae_values e) /\
  is_i64 (ae_count e) = true.
Proof.
  intros Hm [Hv [_ H128]] Hr. unfold entry_to_record in Hr.
  apply bind_ok in Hr as (n & [-> Hn]%ok_or_ok%checked_i64_some & (s & Hs & (fs & Hfs & [= <-])%bind_ok)%bind_ok).
  split; [|done]. unfold aggregate_state_sum_count_values; cbn [value value_json].
  destruct track.
  - destruct Hv as [Hvok Hpos].
    apply bind_ok in Hfs as (min & Hmin & (max & _ & (js & Hjs & [= <-])%bind_ok)%bind_ok). simpl.
    rewrite (parse_json_value m (ae_sum e)) by done. simpl. rewrite as_i64_json by done. simpl.
    rewrite (read_values m (ae_values e)) by done. simpl.
    assert (is_empty (ae_values e) = false) as ->; [|done].
    unfold is_empty. by destruct (entries (ae_values e)).
  - injection Hfs as <-. simpl. rewrite (parse_json_value m (ae_sum e)) by done. simpl.
    rewrite as_i64_json by done. simpl. by rewrite Hv.
Qed.

Lemma load_values vs m k s n : values_ok m vs -> positive vs ->
  (forall x v, vs !! x = Some v -> is_i128 (av_weight v) = true) ->
  try_fold (fun e p => add_value_weight e p.1 (av_value p.2) (av_weight p.2) 1) (AEntry k s n ∅) (entries vs)
    = Ok (AEntry k s n vs).
Proof.
  intros Hvs Hpos H128. rewrite <-(list_fmap_id (entries vs)).
  apply (rebuild (AEntry k s n)). intros acc x v Hx Hacc. unfold add_value_weight.
  assert (Hc : checked_i128 (av_weight v) = Some (av_weight v)) by (apply checked_i128_some; eauto).
  assert (Hold : value_weight acc x = 0) by (unfold value_weight; by rewrite Hacc).
  cbn [ae_values ae_key ae_sum ae_count fst snd id]. rewrite Z.mul_1_r, Hc. cbn [ok_or].
  rewrite Ok_bind, Hold, Z.add_0_l, Hc. cbn [ok_or]. rewrite Ok_bind.
  assert (0 < av_weight v) by by eapply Hpos. unfold put_value.
  replace (av_weight v <? 0) with false by lia. replace (av_weight v =? 0) with false by lia.
  simpl. by destruct v.
Qed.

Lemma i64_i128 x : is_i64 x = true -> is_i128 x = true.
Proof. range. Qed.

Lemma entry_weights_i64 m e r : entry_to_record e 1 m true = Ok r ->
  forall x v, ae_values e !! x = Some v -> is_i64 (av_weight v) = true.
Proof.
  unfold entry_to_record.
  intros (n & _ & (s & _ & (fs & (min & _ & (max & _ & (js & Hjs & _)%bind_ok)%bind_ok)%bind_ok & _)%bind_ok)%bind_ok)%bind_ok.
  intros x v Hx%elem_of_entries. apply try_map_ok in Hjs.
  assert (Hin : v ∈ (entries (ae_values e)).*2) by (apply list_elem_of_fmap; by exists (x, v)).
  apply list_elem_of_lookup in Hin as [i Hi]. eapply Forall2_lookup_l in Hjs as (j & _ & Hj); [|done].
  by apply bind_ok in Hj as (w & [_ Hw]%ok_or_ok%checked_i64_some & _).
Qed.

Lemma add_weighted_fresh k s n vs : is_i128 s = true -> is_i128 n = true ->
  add_weighted (AEntry k 0 0 vs) s n 1 = Ok (AEntry k s n vs).
Proof.
  intros Hs Hn. unfold add_weighted. rewrite !Z.mul_1_r.
  assert (checked_i128 s = Some s) as -> by by apply checked_i128_some.
  assert (checked_i128 n = Some n) as -> by by apply checked_i128_some.
  cbn [ok_or]. rewrite !Ok_bind. cbn [ae_sum ae_count]. rewrite !Z.add_0_l.
  assert (checked_i128 s = Some s) as -> by by apply checked_i128_some.
  assert (checked_i128 n = Some n) as -> by by apply checked_i128_some. done.
Qed.

(** A saved entry loads into an aggregate that has none for its key. *)
Lemma load_entry m track s k e r : mode_ok m -> key_text (ae_key e) = k -> entry_ok m track e ->
  entry_to_record e 1 m track = Ok r -> s !! k = None ->
  load_record m track s r = Ok (<[k := e]> s).
Proof.
  intros Hm Hk He Hr Hs. destruct (load_sum_count_values _ _ _ _ Hm He Hr) as [Hscv Hn].
  pose proof He as [Hv [Hz H128]]. pose proof (entry_to_record_key _ _ _ _ _ Hr) as [Hkey Hw].
  unfold load_record. rewrite Hscv, Ok_bind, Hkey, Hw, Hk, Hs. cbn [default option_fmap option_map].
  rewrite add_weighted_fresh, Ok_bind by (done || by apply i64_i128).
  assert (Hload : (if track then
      try_fold (fun e0 p => add_value_weight e0 p.1 (av_value p.2) (av_weight p.2) 1)
        (AEntry (ae_key e) (ae_sum e) (ae_count e) ∅) (entries (ae_values e))
    else Ok (AEntry (ae_key e) (ae_sum e) (ae_count e) ∅)) = Ok e).
  { destruct track.
    - destruct Hv as [Hvok Hpos]. rewrite (load_values _ m); [by destruct e|done|done|].
      intros x v Hx. apply i64_i128. by eapply entry_weights_i64.
    - rewrite <-Hv. by destruct e. }
  rewrite Hload, Ok_bind, Hz. done.
Qed.

Lemma from_state_saved a : mode_ok (value_mode a) -> agg_ok a ->
  exists saved, state a = Some saved /\
    from_state_with_value_mode_and_extrema saved (value_mode a) (track_extrema a) = Ok a.
Proof.
  intros Hm Hok. destruct (state_rows _ Hok) as (rows & Hrows & Hmap & _).
  exists (DBatch rows). split; [done|]. unfold from_state_with_value_mode_and_extrema; simpl.
  set (f := fun e => entry_to_record e 1 (value_mode a) (track_extrema a)) in *.
  set (g := fun p : string * AggregateEntry => match f p.2 with Ok r => r | Err _ => DRecord (ae_key p.2) (DValue JNull) 1 end).
  assert (Hg : rows = g <$> entries (agg_state a)).
  { apply try_map_ok in Hmap. clear -Hmap. revert rows Hmap.
    induction (entries (agg_state a)) as [|[k e] l IH]; intros rows Hmap; simpl in Hmap.
    - by inversion Hmap.
    - apply Forall2_cons_inv_l in Hmap as (r & rows' & Hr & Hmap & ->).
      rewrite fmap_cons, (IH _ Hmap). unfold g; simpl. by rewrite Hr. }
  assert (try_fold (load_record (value_mode a) (track_extrema a)) ∅ rows = Ok (agg_state a)) as ->.
  { rewrite Hg. apply (rebuild id g). intros acc k e Hk Hacc.
    destruct (Hok k e Hk) as (Hkey & He & (r & Hr)). unfold g, f; simpl. rewrite Hr. by apply load_entry. }
  rewrite Ok_bind.
  assert (validate_aggregate_entries (agg_state a) (value_mode a) (track_extrema a) = Ok tt) as ->;
    [|by destruct a].
  unfold validate_aggregate_entries. apply try_map_ok in Hmap. revert Hmap. fold f.
  generalize (entries (agg_state a)).*2. clear. intros l Hmap.
  induction Hmap as [|e r l rows He Hl IH]; [done|]. simpl. unfold f at 1 in He. by rewrite He.
Qed.

(** A saved state loads back: reading the state of an aggregate and building
    an aggregate from it, in the same value mode, gives the same entries. *)
Theorem from_state_round_trip a : mode_ok (value_mode a) -> agg_ok a ->
  exists saved, state a = Some saved /\
    from_state_with_value_mode_and_extrema saved (value_mode a) (track_extrema a) = Ok a.
Proof. apply from_state_saved. Qed.

(** ** What can be loaded *)

Lemma parse_state_json m v x : wf_value v = true -> parse_state_sum m v = Ok x ->
  aggregate_sum_json_value x m = Ok v /\ is_i128 x = true.
Proof.
  destruct m as [|precision scale]; simpl; intros Hwf Hx.
  - apply ok_or_ok in Hx. unfold value_as_i64 in Hx. destruct v as [| |n| | |]; try done.
    assert (Hn : is_i64 x = true /\ JNumber n = json_of_i64 x).
    { unfold json_of_i64. destruct n as [n|n|n]; cbn [as_i64 wf_value wf_number] in Hx, Hwf; [|injection Hx as ->|done].
      - apply checked_i64_some in Hx as [-> Hx]. apply in_range_true in Hwf.
        replace (n <? 0) with false by lia. done.
      - apply in_range_true in Hwf. replace (x <? 0) with true by lia. split; [|done].
        apply in_range_true. unfold i64_min, i64_max in *. lia. }
    destruct Hn as [Hn ->]. unfold checked_i64. rewrite Hn. split; [done|by apply i64_i128].
  - unfold parse_decimal128_value_for_state in Hx. apply bind_ok in Hx as (t & Ht%ok_or_ok & Hx%ok_or_ok).
    destruct v; try done. injection Ht as ->.
    pose proof (decimal_i128 _ _ _ _ Hx). apply parse_format_inv in Hx as (-> & -> & _). done.
Qed.

Lemma get_field_wf name v w : wf_value v = true -> get_field name v = Some w -> wf_value w = true.
Proof.
  destruct v as [| | | | |fs]; simpl; try done. rewrite andb_true_iff, forallb_forall. intros [_ Hwf].
  destruct (List.find _ fs) as [f|] eqn:Hf; [|done]. intros [= <-].
  apply find_some in Hf as [Hin _]. by apply Hwf.
Qed.

Lemma read_value_ok m acc v acc' : wf_value v = true -> values_ok m acc ->
  read_value m acc v = Ok acc' -> values_ok m acc'.
Proof.
  intros Hwf Hacc. unfold read_value.
  intros (fs & _ & (jv & Hjv%ok_or_ok & (x & Hx & (w & _ & (u & Hw%fail_if_ok & [= <-])%bind_ok)%bind_ok)%bind_ok)%bind_ok)%bind_ok.
  apply parse_state_json in Hx as [Hjson H128]; [|by eapply get_field_wf].
  intros y v'. destruct (decide (y = x)) as [->|].
  - rewrite lookup_insert_eq. intros [= <-]. simpl. apply Z.eqb_neq in Hw. done.
  - rewrite lookup_insert_ne by done. apply Hacc.
Qed.

Lemma saved_values_ok v m sum count vs : wf_value (value_json v) = true ->
  aggregate_state_sum_count_values v m true = Ok (sum, count, vs) -> values_ok m vs.
Proof.
  intros Hwf. unfold aggregate_state_sum_count_values.
  intros (sj & _ & (sm & _ & (cn & _ & (vs' & Hvs & [= _ _ <-])%bind_ok)%bind_ok)%bind_ok)%bind_ok.
  apply bind_ok in Hvs as (jsons & Hj%ok_or_ok & (vs2 & Hfold & (u & _ & [= <-])%bind_ok)%bind_ok).
  destruct (get_field "values" (value_json v)) as [w|] eqn:Hw; [|done].
  apply get_field_wf in Hw; [|done]. simpl in Hj. destruct w; try done. injection Hj as ->.
  simpl in Hw. rewrite forallb_forall in Hw.
  refine (try_fold_inv (values_ok m) _ _ _ _ (values_ok_empty m) _ Hfold).
  intros acc j acc' Hin Hacc. apply read_value_ok; [|done]. by apply Hw, list_elem_of_In.
Qed.

Definition loaded_ok (m : AggregateValueMode) (track : bool) (s : btree string AggregateEntry) : Prop :=
  forall k e, s !! k = Some e -> key_text (ae_key e) = k /\ entry_ok m track e.

Lemma add_weighted_ok e sum count w e' : add_weighted e sum count w = Ok e' ->
  ae_key e' = ae_key e /\ ae_values e' = ae_values e /\ is_i128 (ae_sum e') = true.
Proof.
  unfold add_weighted.
  intros (d1 & _ & (d2 & _ & (s & [-> Hs]%ok_or_ok%checked_i128_some & (n & _ & [= <-])%bind_ok)%bind_ok)%bind_ok)%bind_ok.
  done.
Qed.

Lemma load_values_ok m e deltas w e' : values_ok m (ae_values e) -> positive (ae_values e) ->
  values_ok m deltas ->
  try_fold (fun e p => add_value_weight e p.1 (av_value p.2) (av_weight p.2) w) e (entries deltas) = Ok e' ->
  values_ok m (ae_values e') /\ positive (ae_values e') /\ ae_key e' = ae_key e /\ ae_sum e' = ae_sum e.
Proof.
  intros Hv Hp Hd Hrun.
  refine (try_fold_inv (fun e' => values_ok m (ae_values e') /\ positive (ae_values e') /\
    ae_key e' = ae_key e /\ ae_sum e' = ae_sum e) _ _ e e' _ _ Hrun); [done|].
  intros e1 [x v] e2 Hin%elem_of_entries (Hv1 & Hp1 & Hk1 & Hs1). unfold add_value_weight; cbn [fst snd].
  intros (d & _ & (n & _ & (u & Hn%fail_if_ok & [= <-])%bind_ok)%bind_ok)%bind_ok. simpl.
  destruct (Hd _ _ Hin) as (_ & Hjson & H128). split_and!; [by apply values_ok_put| |done..].
  intros y v'. rewrite lookup_put_value. destruct (decide (y = x)); [|apply Hp1].
  destruct (Z.eqb_spec n 0); [done|]. intros [= <-]. simpl. lia.
Qed.

Lemma load_record_ok m track s r s' : wf_value (value_json (value r)) = true -> loaded_ok m track s ->
  load_record m track s r = Ok s' -> loaded_ok m track s'.
Proof.
  intros Hwf Hs. unfold load_record. set (k := key_text (key r)). set (e0 := default _ (s !! k)).
  intros ([[sum count] vs] & Hscv & (e1 & Hadd%add_weighted_ok & (e2 & He2 & [= <-])%bind_ok)%bind_ok)%bind_ok.
  destruct Hadd as (Hk1 & Hv1 & Hs1).
  assert (He0 : key_text (ae_key e0) = k /\
    if track then values_ok m (ae_values e0) /\ positive (ae_values e0) else ae_values e0 = ∅).
  { unfold e0. destruct (s !! k) as [e|] eqn:He; simpl.
    - apply Hs in He as (? & ? & _). done.
    - split; [done|]. destruct track; [|done]. split; [apply values_ok_empty|].
      intros x v. by rewrite lookup_empty. }
  assert (H2 : key_text (ae_key e2) = k /\ is_i128 (ae_sum e2) = true /\
    if track then values_ok m (ae_values e2) /\ positive (ae_values e2) else ae_values e2 = ∅).
  { destruct He0 as [Hk0 He0]. destruct track.
    - destruct He0 as [Hv0 Hp0]. rewrite <-Hv1 in Hv0, Hp0.
      apply (load_values_ok m) in He2 as (? & ? & Hk2 & Hs2); [|done..|by eapply saved_values_ok].
      rewrite Hk2, Hs2, Hk1. done.
    - injection He2 as <-. rewrite Hk1, Hv1. done. }
  destruct H2 as (Hk2 & Hs2 & Hv2). intros k' e. destruct (is_zero e2) eqn:Hz.
  - intros [_ He]%lookup_delete_Some. by apply Hs.
  - destruct (decide (k' = k)) as [->|].
    + rewrite lookup_insert_eq. by intros [= <-].
    + rewrite lookup_insert_ne by done. apply Hs.
Qed.

Lemma from_state_ok saved m track a :
  Forall (fun r => wf_value (value_json (value r)) = true) (records saved) ->
  from_state_with_value_mode_and_extrema saved m track = Ok a -> agg_ok a.
Proof.
  intros Hwf (s & Hload & (u & Hval & [= <-])%bind_ok)%bind_ok. rewrite Forall_forall in Hwf.
  assert (Hs : loaded_ok m track s).
  { refine (try_fold_inv (loaded_ok m track) _ _ _ _ _ _ Hload).
    - intros k e. simpl. by rewrite lookup_empty.
    - intros s1 r s2 Hr Hs1. apply load_record_ok; auto. }
  intros k e He. simpl in *. destruct (Hs k e He) as [Hk Hok]. split_and!; [done..|].
  assert (Hin : e ∈ (entries s).*2) by (apply list_elem_of_fmap; exists (k, e); by rewrite elem_of_entries).
  destruct (try_fold_steps _ _ _ _ _ Hval Hin) as (u1 & u2 & (r & Hr & _)%bind_ok). eauto.
Qed.

(** The aggregates a program can reach. *)
Inductive reachable_aggregate : KeyedSumCountAggregate -> Prop :=
| agg_new m track : reachable_aggregate (with_value_mode_and_extrema m track)
| agg_load saved m track a :
    Forall (fun r => wf_value (value_json (value r)) = true) (records saved) ->
    from_state_with_value_mode_and_extrema saved m track = Ok a -> reachable_aggregate a
| agg_step a b a' out : reachable_aggregate a -> aggregate_apply a b = Ok (a', out) -> reachable_aggregate a'.

Lemma reachable_agg_ok a : reachable_aggregate a -> agg_ok a.
Proof.
  induction 1 as [m track|saved m track a Hwf Ha|a b a' out _ IH Hb].
  - apply agg_ok_empty.
  - by eapply from_state_ok.
  - by apply (apply_spec _ _ _ _ IH) in Hb as [? _].
Qed.

(** The [expect] in [state] cannot fail: every aggregate that new, load and
    apply can produce reads out, one record per entry. *)
Theorem state_never_panics a : reachable_aggregate a -> exists b, state a = Some b /\
  length (records b) = length (entries (agg_state a)).
Proof.
  intros Ha%reachable_agg_ok. destruct (state_rows _ Ha) as (rows & Hrows & Hmap & _).
  exists (DBatch rows). split; [done|]. apply try_map_ok, Forall2_length in Hmap.
  rewrite length_fmap in Hmap. simpl. congruence.
Qed.
End load.

(** * Witnesses *)

#[local] Existing Instance plain_json.

Definition amount_row (k : string) (n w : Z) : DeltaRecord :=
  DRecord (DKey (JString k)) (DValue (json_of_i64 n)) w.
Definition demo_batches : list DeltaBatch :=
  [DBatch [amount_row "a" 5 2; amount_row "b" (-3) 1; amount_row "a" 9 1];
   DBatch [amount_row "a" 5 (-1); amount_row "b" (-3) (-1)]].

Definition demo_run : KeyedSumCountAggregate * list DeltaRecord :=
  match run_batches (with_value_mode_and_extrema Integer true) demo_batches with
  | Ok r => r | Err _ => (with_value_mode_and_extrema Integer true, []) end.
Lemma demo_run_ok : run_batches (with_value_mode_and_extrema Integer true) demo_batches
  = Ok (demo_run.1, demo_run.2).
Proof. vm_compute. reflexivity. Qed.

Definition quote (s : string) : string := canonical_json (JString s).

Lemma demo_agg_ok : agg_ok demo_run.1.
Proof. apply (run_batches_spec _ _ _ _ _ (agg_ok_empty Integer true) demo_run_ok). Qed.

Lemma aggregate_totals_witness : o_sum (agg_state demo_run.1 !! quote "a") = 14 /\
  o_sum (agg_state demo_run.1 !! quote "a")
    = group_sum (weighted_amount Integer) (all_records demo_batches) (quote "a").
Proof.
  split; [vm_compute; reflexivity|].
  exact (proj1 (@aggregate_totals plain_json Integer true demo_batches demo_run.1 demo_run.2 demo_run_ok (quote "a"))).
Defined.

Lemma aggregate_outputs_total_witness : exists rows, state demo_run.1 = Some (DBatch rows) /\
  forall k v, text_weight k v rows = text_weight k v demo_run.2.
Proof.
  apply (@aggregate_outputs_total plain_json Integer true demo_batches demo_run.1 demo_run.2 demo_run_ok).
Defined.

Definition demo_entry : AggregateEntry :=
  default (AEntry (DKey JNull) 0 0 ∅) (agg_state demo_run.1 !! quote "a").

Lemma aggregate_extrema_witness :
  agg_state demo_run.1 !! quote "b" = None /\
  exists r min max xmin xmax, entry_to_record demo_entry 1 Integer true = Ok r /\
    get_field "min" (value_json (value r)) = Some min /\
    get_field "max" (value_json (value r)) = Some max /\
    aggregate_sum_json_value xmin Integer = Ok min /\ aggregate_sum_json_value xmax Integer = Ok max /\
    0 < group_sum (weight_at Integer xmin) (all_records demo_batches) (quote "a") /\
    0 < group_sum (weight_at Integer xmax) (all_records demo_batches) (quote "a") /\
    forall x, group_sum (weight_at Integer x) (all_records demo_batches) (quote "a") <> 0 -> xmin <= x <= xmax.
Proof.
  split; [vm_compute; reflexivity|].
  apply (@aggregate_extrema plain_json Integer demo_batches demo_run.1 demo_run.2 (quote "a") demo_entry);
    [exact demo_run_ok|vm_compute; reflexivity].
Defined.

Lemma from_state_round_trip_witness : exists saved, state demo_run.1 = Some saved /\
  from_state_with_value_mode_and_extrema saved Integer true = Ok demo_run.1.
Proof. apply (@from_state_round_trip plain_json demo_run.1); [exact I|exact demo_agg_ok]. Defined.

Lemma state_never_panics_witness : exists b,
  state (with_value_mode_and_extrema (Decimal128 10 2) true) = Some b /\ length (records b) = 0%nat.
Proof.
  apply (@state_never_panics plain_json (with_value_mode_and_extrema (Decimal128 10 2) true)).
  constructor.
Defined.
