(* ===== verification/Engine.v ===== *)
(** The incremental engine of [velorix-core/src/engine.rs]: the trait
    [IncrementalEngine] as a type class with what its clients rely on, and the
    keyed-aggregate kernel that implements it.

    [next_kernel_instance_id] hands out the [instance] argument of the
    constructors. A checkpoint of a state that cannot be read out would be a
    panic, [None]. *)
From stdpp Require Import sorting.
From S2P Require Import Prelude BTree Json Digits Serde Text Delta Join JoinProofs Decimal Aggregate AggregateProofs AggregateState.

Definition ENGINE_CHECKPOINT_PAYLOAD_SCHEMA_VERSION : Z := 1.

Record EngineCheckpoint := Checkpoint { ck_epoch : Z; ck_state : DeltaBatch }.
Record EngineCheckpointPayload := Payload { schema_version : Z; pl_epoch : Z; pl_state : DeltaBatch }.

Definition to_payload (c : EngineCheckpoint) : EngineCheckpointPayload :=
  Payload ENGINE_CHECKPOINT_PAYLOAD_SCHEMA_VERSION (ck_epoch c) (ck_state c).
Definition into_checkpoint (p : EngineCheckpointPayload) : EngineCheckpoint :=
  Checkpoint (pl_epoch p) (pl_state p).

Inductive EngineError :=
| EngineOperator (e : OperatorError)
| NonMonotonicLogicalEpoch (current attempted : Z)
| PreparedEpochWrongKernel
| PreparedEpochStale (current prepared_base : Z).

(** * The interface *)

(** [trait IncrementalEngine]. *)
Class IncrementalEngine (E : Type) := {
  logical_epoch : E -> Z;
  push_changes : E -> Z -> DeltaBatch -> result EngineError (E * DeltaBatch);
  materialized_state : E -> option DeltaBatch;
  checkpoint_state : E -> option EngineCheckpoint;
  from_checkpoint : EngineCheckpoint -> result EngineError E
}.

(** What a client relies on: epochs increase, a checkpoint captures the engine up
    to what a client can observe ([eng_equiv]) and [restore] recovers it, and
    observation is deterministic. An engine may have other ways to restore a
    checkpoint than [from_checkpoint]. *)
Class IncrementalEngineLaws (E : Type) `{IncrementalEngine E} (ok : E -> Prop) (eng_equiv : relation E)
    (restore : EngineCheckpoint -> result EngineError E) : Prop := {
  equiv_equivalence :: Equivalence eng_equiv;
  push_ok e n b e' out : ok e -> push_changes e n b = Ok (e', out) -> ok e';
  push_epoch e n b e' out : push_changes e n b = Ok (e', out) -> logical_epoch e < n /\ logical_epoch e' = n;
  push_stale e n b : n <= logical_epoch e ->
    push_changes e n b = Err (NonMonotonicLogicalEpoch (logical_epoch e) n);
  push_proper e1 e2 n b : eng_equiv e1 e2 ->
    match push_changes e1 n b, push_changes e2 n b with
    | Ok (e1', out1), Ok (e2', out2) => eng_equiv e1' e2' /\ out1 = out2
    | Err x1, Err x2 => x1 = x2
    | _, _ => False
    end;
  state_proper e1 e2 : eng_equiv e1 e2 ->
    logical_epoch e1 = logical_epoch e2 /\ materialized_state e1 = materialized_state e2;
  checkpoint_restores e : ok e -> exists c e', checkpoint_state e = Some c /\
    restore c = Ok e' /\ ok e' /\ eng_equiv e' e
}.

Section client.
Context `{IncrementalEngineLaws E ok eng_equiv restore}.

(** A log of numbered batches, pushed in order; an error stops the replay. *)
Definition push_step (st : E * list DeltaBatch) (entry : Z * DeltaBatch) :
    result EngineError (E * list DeltaBatch) :=
  r ← push_changes st.1 entry.1 entry.2; Ok (r.1, st.2 ++ [r.2]).
Definition replay (e : E) (log : list (Z * DeltaBatch)) : result EngineError (E * list DeltaBatch) :=
  try_fold push_step (e, []) log.

Lemma push_step_eq e out n b : push_step (e, out) (n, b) =
  match push_changes e n b with Ok (e', o) => Ok (e', out ++ [o]) | Err x => Err x end.
Proof. unfold push_step; simpl. by destruct (push_changes e n b) as [[e' o]|]. Qed.

Lemma replay_equiv e1 e2 out log : eng_equiv e1 e2 ->
  match try_fold push_step (e1, out) log, try_fold push_step (e2, out) log with
  | Ok (e1', out1), Ok (e2', out2) => eng_equiv e1' e2' /\ out1 = out2
  | Err x1, Err x2 => x1 = x2
  | _, _ => False
  end.
Proof.
  revert e1 e2 out. induction log as [|[n b] log IH]; intros e1 e2 out He; [done|]. simpl.
  rewrite !push_step_eq. pose proof (push_proper e1 e2 n b He) as Hp.
  destruct (push_changes e1 n b) as [[e1' o1]|x1], (push_changes e2 n b) as [[e2' o2]|x2]; try done; simpl.
  destruct Hp as [He' ->]. by apply IH.
Qed.

Lemma replay_recovers e log1 log2 e1 out1 : ok e -> replay e log1 = Ok (e1, out1) ->
  exists c e1', checkpoint_state e1 = Some c /\ restore c = Ok e1' /\
    match replay e1' log2, replay e1 log2 with
    | Ok (e2', o'), Ok (e2, o) => materialized_state e2' = materialized_state e2 /\ o' = o /\
        logical_epoch e2' = logical_epoch e2
    | Err x', Err x => x' = x
    | _, _ => False
    end.
Proof.
  intros He Hrun. assert (Hok : ok e1).
  { refine (try_fold_inv (fun st => ok st.1) _ _ (e, []) (e1, out1) He _ Hrun).
    intros [s1 o1] [n b] [s2 o2] _ Hs ([s3 o3] & Hp & [= <- _])%bind_ok. by eapply push_ok. }
  destruct (checkpoint_restores e1 Hok) as (c & e1' & Hc & Hf & _ & Hequiv). exists c, e1'.
  split_and!; [done..|]. pose proof (replay_equiv e1' e1 [] log2 Hequiv) as Hr. unfold replay.
  destruct (try_fold push_step (e1', []) log2) as [[e2' o']|], (try_fold push_step (e1, []) log2) as [[e2 o]|]; try done.
  destruct Hr as [Hr ->]. by destruct (state_proper _ _ Hr) as [-> ->].
Qed.
End client.

(** * The keyed aggregate kernel *)

Record KeyedAggregateKernel := Kernel {
  k_epoch : Z;
  k_aggregate : KeyedSumCountAggregate;
  k_instance : Z
}.

Record PreparedKeyedAggregateEpoch := PreparedKernelEpoch {
  pk_epoch : Z;
  pk_base : Z;
  pk_instance : Z;
  pk_changes : PreparedAggregateChanges
}.

Definition with_aggregate_value_mode_and_extrema (instance : Z) (m : AggregateValueMode) (track : bool) :
    KeyedAggregateKernel := Kernel 0 (with_value_mode_and_extrema m track) instance.

Section kernel.
Context `{SerdeJson}.

Definition from_checkpoint_with_aggregate_value_mode_and_extrema (instance : Z) (c : EngineCheckpoint)
    (m : AggregateValueMode) (track : bool) : result EngineError KeyedAggregateKernel :=
  a ← map_err EngineOperator (from_state_with_value_mode_and_extrema (ck_state c) m track);
  Ok (Kernel (ck_epoch c) a instance).

Definition kernel_prepare_epoch (k : KeyedAggregateKernel) (n : Z) (b : DeltaBatch) :
    result EngineError PreparedKeyedAggregateEpoch :=
  _ ← fail_if (n <=? k_epoch k) (NonMonotonicLogicalEpoch (k_epoch k) n);
  changes ← map_err EngineOperator (prepare (k_aggregate k) b);
  Ok (PreparedKernelEpoch n (k_epoch k) (k_instance k) changes).

Definition kernel_validate_prepared_epoch (k : KeyedAggregateKernel) (p : PreparedKeyedAggregateEpoch) :
    result EngineError unit :=
  _ ← fail_if (negb (pk_instance p =? k_instance k)) PreparedEpochWrongKernel;
  fail_if (negb (pk_base p =? k_epoch k)) (PreparedEpochStale (k_epoch k) (pk_base p)).

Definition kernel_commit_prepared_epoch (k : KeyedAggregateKernel) (p : PreparedKeyedAggregateEpoch) :
    result EngineError (KeyedAggregateKernel * DeltaBatch) :=
  _ ← kernel_validate_prepared_epoch k p;
  let '(a, out) := commit (k_aggregate k) (pk_changes p) in
  Ok (Kernel (pk_epoch p) a (k_instance k), out).

Definition kernel_push_changes (k : KeyedAggregateKernel) (n : Z) (b : DeltaBatch) :
    result EngineError (KeyedAggregateKernel * DeltaBatch) :=
  p ← kernel_prepare_epoch k n b; kernel_commit_prepared_epoch k p.

Definition from_checkpoint_with_aggregate_value_mode (instance : Z) (c : EngineCheckpoint) (m : AggregateValueMode) :
    result EngineError KeyedAggregateKernel := from_checkpoint_with_aggregate_value_mode_and_extrema instance c m false.

(** The trait implementation, for a fresh instance id. Its [from_checkpoint] reads
    every state as one of integers without extrema. *)
#[local] Instance kernel_engine (instance : Z) : IncrementalEngine KeyedAggregateKernel := {|
  logical_epoch := k_epoch;
  push_changes := kernel_push_changes;
  materialized_state k := state (k_aggregate k);
  checkpoint_state k := Checkpoint (k_epoch k) <$> state (k_aggregate k);
  from_checkpoint c := from_checkpoint_with_aggregate_value_mode instance c Integer
|}.

(** Kernels in a given mode over reachable aggregates. *)
Definition kernel_ok (m : AggregateValueMode) (track : bool) (k : KeyedAggregateKernel) : Prop :=
  agg_ok (k_aggregate k) /\ value_mode (k_aggregate k) = m /\ track_extrema (k_aggregate k) = track.

(** Kernels that differ at most in their instance id. *)
Definition kernel_equiv (k1 k2 : KeyedAggregateKernel) : Prop :=
  k_epoch k1 = k_epoch k2 /\ k_aggregate k1 = k_aggregate k2.

(** A push is a prepare followed by its commit: the aggregate's [apply]. *)
Lemma kernel_push_eq k n b : kernel_push_changes k n b =
  if n <=? k_epoch k then Err (NonMonotonicLogicalEpoch (k_epoch k) n) else
  r ← map_err EngineOperator (aggregate_apply (k_aggregate k) b);
  Ok (Kernel n r.1 (k_instance k), r.2).
Proof.
  unfold kernel_push_changes, kernel_prepare_epoch, aggregate_apply.
  destruct (n <=? k_epoch k); [done|]. cbn [fail_if]. rewrite Ok_bind. destruct (prepare (k_aggregate k) b) as [p|e]; [|done].
  simpl. unfold kernel_commit_prepared_epoch, kernel_validate_prepared_epoch; simpl. by rewrite !Z.eqb_refl.
Qed.

Lemma kernel_push_ok k n b k' out : kernel_push_changes k n b = Ok (k', out) <->
  k_epoch k < n /\ exists a', aggregate_apply (k_aggregate k) b = Ok (a', out) /\ k' = Kernel n a' (k_instance k).
Proof.
  rewrite kernel_push_eq. destruct (Z.leb_spec n (k_epoch k)); [naive_solver lia|].
  destruct (aggregate_apply (k_aggregate k) b) as [[a' o]|]; simpl; naive_solver.
Qed.

Lemma kernel_laws instance m track : mode_ok m ->
  @IncrementalEngineLaws KeyedAggregateKernel (kernel_engine instance) (kernel_ok m track) kernel_equiv
    (fun c => from_checkpoint_with_aggregate_value_mode_and_extrema instance c m track).
Proof.
  intros Hm. split.
  - split; [by intros k|by intros k1 k2 [? ?]|]. intros k1 k2 k3 [? ?] [? ?]. split; congruence.
  - intros k n b k' out (Hok & Hmode & Ht) (_ & a' & Ha & ->)%kernel_push_ok.
    destruct (apply_spec _ _ _ _ Hok Ha) as (? & ? & ? & _). split_and!; simpl; [done|congruence..].
  - intros k n b k' out (Hn & a' & _ & ->)%kernel_push_ok. done.
  - intros k n b Hn. simpl in *. rewrite kernel_push_eq. by replace (n <=? k_epoch k) with true by lia.
  - intros k1 k2 n b [He Ha]. simpl. rewrite !kernel_push_eq, He, Ha. destruct (n <=? k_epoch k2); [done|].
    by destruct (aggregate_apply (k_aggregate k2) b) as [[a' o]|].
  - intros k1 k2 [He Ha]. simpl. by rewrite Ha.
  - intros k (Hok & Hmode & Ht). destruct (from_state_saved (k_aggregate k)) as (saved & Hs & Hf); [by rewrite Hmode|done|].
    exists (Checkpoint (k_epoch k) saved), (Kernel (k_epoch k) (k_aggregate k) instance). simpl.
    unfold from_checkpoint_with_aggregate_value_mode_and_extrema. simpl. rewrite Hs, <-Hmode, <-Ht, Hf. done.
Qed.

(** C1: Recovery. Restoring the checkpoint taken after any prefix of the log, in the
    value mode and with the extrema of the kernel, and replaying the rest gives
    the same outputs, the same materialized state and the same logical epoch as
    never having stopped, or the same error. The method [from_checkpoint] of the
    trait is that restoration for kernels of integers without extrema. *)
Theorem checkpoint_then_replay instance m track k log1 log2 k1 out1 :
  mode_ok m -> kernel_ok m track k ->
  @replay _ (kernel_engine instance) k log1 = Ok (k1, out1) ->
  exists c k1', @checkpoint_state _ (kernel_engine instance) k1 = Some c /\
    from_checkpoint_with_aggregate_value_mode_and_extrema instance c m track = Ok k1' /\
    (m = Integer -> track = false -> @from_checkpoint _ (kernel_engine instance) c = Ok k1') /\
    match @replay _ (kernel_engine instance) k1' log2, @replay _ (kernel_engine instance) k1 log2 with
    | Ok (k2', o'), Ok (k2, o) =>
        state (k_aggregate k2') = state (k_aggregate k2) /\ o' = o /\ k_epoch k2' = k_epoch k2
    | Err x', Err x => x' = x
    | _, _ => False
    end.
Proof.
  intros Hm Hk Hrun. pose proof (kernel_laws instance m track Hm) as Hlaws.
  destruct (@replay_recovers _ _ _ _ _ Hlaws k log1 log2 k1 out1 Hk Hrun) as (c & k1' & Hc & Hr & Hsame).
  exists c, k1'. split_and!; [done|done|by intros -> ->|done].
Qed.

(** A prepared epoch commits only on the kernel that prepared it and only
    while that kernel's epoch is unchanged, with the error that says which check
    failed; a successful commit is exactly the aggregate's apply, and moves the
    epoch forward. *)
Theorem kernel_epoch_fencing k n b p k' :
  kernel_prepare_epoch k n b = Ok p ->
  kernel_commit_prepared_epoch k' p =
    if negb (k_instance k =? k_instance k') then Err PreparedEpochWrongKernel else
    if negb (k_epoch k =? k_epoch k') then Err (PreparedEpochStale (k_epoch k') (k_epoch k)) else
    let '(a, out) := commit (k_aggregate k') (pk_changes p) in Ok (Kernel n a (k_instance k'), out).
Proof.
  unfold kernel_prepare_epoch. intros (u & _ & (ch & _ & [= <-])%bind_ok)%bind_ok.
  unfold kernel_commit_prepared_epoch, kernel_validate_prepared_epoch; simpl.
  by destruct (k_instance k =? k_instance k'), (k_epoch k =? k_epoch k').
Qed.

(** The epochs of a replayed log are strictly increasing and above the
    kernel's: a log entry that does not advance the epoch stops the replay and
    leaves the kernel as it was. *)
Theorem replayed_epochs_increase instance k log k' outs :
  @replay _ (kernel_engine instance) k log = Ok (k', outs) ->
  StronglySorted Z.lt (k_epoch k :: log.*1) /\ k_epoch k' = default (k_epoch k) (last log.*1).
Proof.
  unfold replay. generalize (@nil DeltaBatch) at 1. intros out. revert k out.
  induction log as [|[n b] log IH]; intros k out; simpl.
  - intros [= <- _]. split; [by repeat constructor|done].
  - rewrite push_step_eq. simpl. destruct (kernel_push_changes k n b) as [[k1 o]|] eqn:Hp; [|done]. simpl.
    apply kernel_push_ok in Hp as (Hn & a' & _ & ->). intros Hrun. apply IH in Hrun as [Hs Hlast].
    simpl in *. split.
    + constructor; [done|]. apply StronglySorted_inv in Hs as [_ Hs]. constructor; [done|].
      eapply Forall_impl; [exact Hs|]. intros x Hx. simpl in Hx. lia.
    + change (k_epoch k' = default (k_epoch k) (last (n :: log.*1))). rewrite Hlast, last_cons.
      by destruct (last log.*1).
Qed.
End kernel.

(** * Witnesses *)

#[local] Existing Instance plain_json.

Definition demo_kernel : KeyedAggregateKernel := with_aggregate_value_mode_and_extrema 1 Integer false.
Definition demo_log : list (Z * DeltaBatch) :=
  [(1, DBatch [amount_row "a" 5 2]); (4, DBatch [amount_row "a" 5 (-1); amount_row "b" 7 1])].

Definition demo_replay : KeyedAggregateKernel * list DeltaBatch :=
  match @replay _ (kernel_engine 2) demo_kernel demo_log with
  | Ok r => r | Err _ => (demo_kernel, []) end.
Lemma demo_replay_ok : @replay _ (kernel_engine 2) demo_kernel demo_log
  = Ok (demo_replay.1, demo_replay.2).
Proof. vm_compute. reflexivity. Qed.

Lemma demo_kernel_ok : kernel_ok Integer false demo_kernel.
Proof. split_and!; [apply agg_ok_empty|done|done]. Qed.

Lemma checkpoint_then_replay_witness : exists c k1',
  @checkpoint_state _ (kernel_engine 2) demo_replay.1 = Some c /\
  @from_checkpoint _ (kernel_engine 2) c = Ok k1'.
Proof.
  destruct (@checkpoint_then_replay plain_json 2 Integer false demo_kernel demo_log [(9, DBatch [])]
    demo_replay.1 demo_replay.2 I demo_kernel_ok demo_replay_ok) as (c & k1' & Hc & _ & Hk & _).
  exists c, k1'. split; [exact Hc|exact (Hk eq_refl eq_refl)].
Defined.

Definition demo_prepared : PreparedKeyedAggregateEpoch :=
  match kernel_prepare_epoch demo_kernel 1 (DBatch [amount_row "a" 5 2]) with
  | Ok p => p | Err _ => PreparedKernelEpoch 0 0 0 (PreparedAggregate ∅ (DBatch [])) end.

Lemma kernel_epoch_fencing_witness :
  kernel_commit_prepared_epoch demo_replay.1 demo_prepared = Err (PreparedEpochStale 4 0).
Proof.
  exact (@kernel_epoch_fencing plain_json demo_kernel 1 (DBatch [amount_row "a" 5 2]) demo_prepared demo_replay.1
    ltac:(vm_compute; reflexivity)).
Defined.

Lemma replayed_epochs_increase_witness : StronglySorted Z.lt [0; 1; 4].
Proof.
  exact (proj1 (@replayed_epochs_increase plain_json 2 demo_kernel demo_log demo_replay.1
    demo_replay.2 demo_replay_ok)).
Defined.
