(* ===== verification/Frontier.v ===== *)
(** Per-frontier conformance of an incremental output against a batch oracle,
    [velorix-runtime/src/frontier_conformance.rs].

    A bag maps row identities to non-zero multiplicities; the verifier accepts a
    committed frontier only when the observed delta and snapshot agree with the
    oracle's snapshot and with what it accepted before. *)
From stdpp Require Import sorting.
From S2P Require Import Prelude BTree.

Module FrontierConformance.

Abbreviation CanonicalBagV1 := (btree string Z).

Record WeightedCanonicalRowV1 := Row { row : string; weight : Z }.

Record CommittedFrontierEvidenceV1 := Evidence {
  frontier : Z;
  oracle_snapshot : list WeightedCanonicalRowV1;
  observed_delta : list WeightedCanonicalRowV1;
  observed_snapshot : list WeightedCanonicalRowV1
}.

Record FrontierConformanceVerifierV1 := Verifier {
  last_frontier : option Z;
  oracle_bag : CanonicalBagV1;
  observed_bag : CanonicalBagV1
}.

Inductive FrontierConformanceError :=
| NonMonotonicFrontier (committed actual : Z)
| EmptyRowIdentity (field : string)
| MultiplicityOverflow (field row : string)
| NegativeCommittedMultiplicity (field row : string) (weight : Z)
| DeltaMismatch (frontier : Z) (expected observed : CanonicalBagV1)
| DeltaSnapshotMismatch (frontier : Z) (delta_applied observed_snapshot : CanonicalBagV1)
| SnapshotMismatch (frontier : Z) (expected observed : CanonicalBagV1).

Definition multiplicity (b : CanonicalBagV1) (r : string) : Z := default 0 (b !! r).

(** [remove] at zero, [insert] otherwise. *)
Definition set_multiplicity (b : CanonicalBagV1) (r : string) (w : Z) : CanonicalBagV1 :=
  if w =? 0 then delete r b else <[r := w]> b.

Definition consolidate_row (field : string) (b : CanonicalBagV1) (r : WeightedCanonicalRowV1) :
    result FrontierConformanceError CanonicalBagV1 :=
  _ ← fail_if (String.eqb (row r) "") (EmptyRowIdentity field);
  next ← ok_or (MultiplicityOverflow field (row r)) (checked_i64 (multiplicity b (row r) + weight r));
  Ok (set_multiplicity b (row r) next).

Definition consolidated_bag (field : string) (rows : list WeightedCanonicalRowV1) :
    result FrontierConformanceError CanonicalBagV1 :=
  try_fold (consolidate_row field) ∅ rows.

Definition committed_bag (field : string) (rows : list WeightedCanonicalRowV1) :
    result FrontierConformanceError CanonicalBagV1 :=
  bag ← consolidated_bag field rows;
  match List.find (fun p => p.2 <? 0) (entries bag) with
  | Some (r, w) => Err (NegativeCommittedMultiplicity field r w)
  | None => Ok bag
  end.

Definition subtract_row (delta : CanonicalBagV1) (p : string * Z) :
    result FrontierConformanceError CanonicalBagV1 :=
  next ← ok_or (MultiplicityOverflow "oracle_delta" p.1) (checked_i64 (multiplicity delta p.1 - p.2));
  Ok (set_multiplicity delta p.1 next).

Definition bag_difference (current previous : CanonicalBagV1) : result FrontierConformanceError CanonicalBagV1 :=
  try_fold subtract_row current (entries previous).

Definition apply_row (next : CanonicalBagV1) (p : string * Z) : result FrontierConformanceError CanonicalBagV1 :=
  w ← ok_or (MultiplicityOverflow "observed_delta" p.1) (checked_i64 (multiplicity next p.1 + p.2));
  _ ← fail_if (w <? 0) (NegativeCommittedMultiplicity "delta_applied_snapshot" p.1 w);
  Ok (set_multiplicity next p.1 w).

Definition apply_delta (previous delta : CanonicalBagV1) : result FrontierConformanceError CanonicalBagV1 :=
  try_fold apply_row previous (entries delta).

(** [==] on maps. *)
Definition bag_eqb (a b : CanonicalBagV1) : bool := bool_decide (entries a = entries b).

Definition verify_committed_frontier (v : FrontierConformanceVerifierV1) (e : CommittedFrontierEvidenceV1) :
    result FrontierConformanceError FrontierConformanceVerifierV1 :=
  _ ← match last_frontier v with
      | Some committed => fail_if (frontier e <=? committed) (NonMonotonicFrontier committed (frontier e))
      | None => Ok tt
      end;
  oracle ← committed_bag "oracle_snapshot" (oracle_snapshot e);
  delta ← consolidated_bag "observed_delta" (observed_delta e);
  observed ← committed_bag "observed_snapshot" (observed_snapshot e);
  expected ← bag_difference oracle (oracle_bag v);
  _ ← fail_if (negb (bag_eqb delta expected)) (DeltaMismatch (frontier e) expected delta);
  delta_applied ← apply_delta (observed_bag v) delta;
  _ ← fail_if (negb (bag_eqb delta_applied observed)) (DeltaSnapshotMismatch (frontier e) delta_applied observed);
  _ ← fail_if (negb (bag_eqb observed oracle)) (SnapshotMismatch (frontier e) oracle observed);
  Ok (Verifier (Some (frontier e)) oracle observed).

Definition verifier_default : FrontierConformanceVerifierV1 := Verifier None ∅ ∅.

(** * Bags *)

Lemma multiplicity_set b r w r' :
  multiplicity (set_multiplicity b r w) r' = if decide (r' = r) then w else multiplicity b r'.
Proof.
  unfold multiplicity, set_multiplicity. destruct (Z.eqb_spec w 0) as [->|], (decide (r' = r)) as [->|];
    by rewrite ?lookup_delete_eq, ?lookup_insert_eq, ?lookup_delete_ne, ?lookup_insert_ne by done.
Qed.

(** No multiplicity is stored as zero. *)
Definition bag_ok (b : CanonicalBagV1) : Prop := forall r w, b !! r = Some w -> w <> 0.

Lemma bag_ok_empty : bag_ok ∅.
Proof. intros r w. by rewrite lookup_empty. Qed.

Lemma bag_ok_set b r w : bag_ok b -> bag_ok (set_multiplicity b r w).
Proof.
  intros Hb r' w'. unfold set_multiplicity. destruct (Z.eqb_spec w 0).
  - intros [_ ?]%lookup_delete_Some. by eapply Hb.
  - rewrite lookup_insert_Some. intros [[_ <-]|[_ ?]]; [done|by eapply Hb].
Qed.

(** Bags are their multiplicities. *)
Lemma bag_ext a b : bag_ok a -> bag_ok b -> (forall r, multiplicity a r = multiplicity b r) -> a = b.
Proof.
  intros Ha Hb Heq. apply map_eq. intros r. specialize (Heq r). unfold multiplicity in Heq.
  destruct (a !! r) as [x|] eqn:Hx, (b !! r) as [y|] eqn:Hy; simpl in Heq; [by subst|..|done].
  - by apply Ha in Hx.
  - by apply Hb in Hy.
Qed.

Lemma bag_eqb_true a b : bag_eqb a b = true <-> a = b.
Proof.
  unfold bag_eqb. rewrite bool_decide_eq_true, entries_ext. split; [apply map_eq|by intros ->].
Qed.

(** The multiplicity of a row in a list of weighted rows. *)
Definition net (rows : list WeightedCanonicalRowV1) (r : string) : Z :=
  zsum ((fun x => if decide (row x = r) then weight x else 0) <$> rows).

Lemma consolidated_spec field rows b : consolidated_bag field rows = Ok b ->
  bag_ok b /\ forall r, multiplicity b r = net rows r.
Proof.
  unfold consolidated_bag.
  enough (Hgen : forall b0, bag_ok b0 -> try_fold (consolidate_row field) b0 rows = Ok b ->
    bag_ok b /\ forall r, multiplicity b r = multiplicity b0 r + net rows r).
  { intros Hrun. destruct (Hgen ∅ bag_ok_empty Hrun) as [? Hm]. split; [done|]. intros r. rewrite Hm.
    unfold multiplicity. by rewrite lookup_empty. }
  induction rows as [|x rows IH]; intros b0 Hb0; simpl.
  - intros [= <-]. split; [done|]. intros r. unfold net; simpl. lia.
  - intros (b1 & (u & _ & (w & [-> _]%ok_or_ok%checked_i64_some & [= <-])%bind_ok)%bind_ok & Hrun)%bind_ok.
    destruct (IH _ (bag_ok_set _ _ _ Hb0) Hrun) as [Hok Hm]. split; [done|]. intros r.
    rewrite Hm, multiplicity_set. unfold net. rewrite fmap_cons. cbn [zsum].
    destruct (decide (r = row x)) as [->|]; [rewrite decide_True by done|rewrite decide_False by done]; lia.
Qed.

Lemma committed_spec field rows b : committed_bag field rows = Ok b ->
  bag_ok b /\ (forall r, multiplicity b r = net rows r) /\ forall r, 0 <= net rows r.
Proof.
  unfold committed_bag. intros (bag & Hbag & Hfind)%bind_ok.
  destruct (consolidated_spec _ _ _ Hbag) as [Hok Hm].
  destruct (List.find _ (entries bag)) as [[r w]|] eqn:Hf; [done|]. injection Hfind as <-.
  split_and!; [done..|]. intros r. rewrite <-Hm. unfold multiplicity.
  destruct (bag !! r) as [w|] eqn:Hr; [|done]. apply elem_of_entries, list_elem_of_In in Hr.
  apply (find_none _ _ Hf) in Hr. simpl in Hr. apply Z.ltb_ge in Hr. done.
Qed.

Lemma difference_spec current previous d : bag_ok current -> bag_difference current previous = Ok d ->
  bag_ok d /\ forall r, multiplicity d r = multiplicity current r - multiplicity previous r.
Proof.
  intros Hc Hrun. split.
  - refine (try_fold_inv bag_ok _ _ _ _ Hc _ Hrun).
    intros b p b' _ Hb (w & _ & [= <-])%bind_ok. by apply bag_ok_set.
  - intros r. unfold bag_difference in Hrun.
    apply (try_fold_entries multiplicity (fun _ w x => w - x)) with (k := r) in Hrun.
    + rewrite Hrun. unfold multiplicity at 4. destruct (previous !! r); simpl; lia.
    + intros b p b' k _ (w & [-> _]%ok_or_ok%checked_i64_some & [= <-])%bind_ok.
      rewrite multiplicity_set. by destruct (decide (k = p.1)) as [->|].
Qed.

Lemma apply_delta_spec previous delta b : bag_ok previous -> apply_delta previous delta = Ok b ->
  bag_ok b /\ forall r, multiplicity b r = multiplicity previous r + multiplicity delta r.
Proof.
  intros Hc Hrun. split.
  - refine (try_fold_inv bag_ok _ _ _ _ Hc _ Hrun).
    intros b0 p b' _ Hb (w & _ & (u & _ & [= <-])%bind_ok)%bind_ok. by apply bag_ok_set.
  - intros r. unfold apply_delta in Hrun.
    apply (try_fold_entries multiplicity (fun _ w x => w + x)) with (k := r) in Hrun.
    + rewrite Hrun. unfold multiplicity at 4. destruct (delta !! r); simpl; lia.
    + intros b0 p b' k _ (w & [-> _]%ok_or_ok%checked_i64_some & (u & _ & [= <-])%bind_ok)%bind_ok.
      rewrite multiplicity_set. by destruct (decide (k = p.1)) as [->|].
Qed.

(** * Verification *)

(** What the verifier holds between frontiers. *)
Definition counts_ok (b : CanonicalBagV1) : Prop :=
  bag_ok b /\ forall r, 0 <= multiplicity b r <= i64_max.
Definition verifier_ok (v : FrontierConformanceVerifierV1) : Prop :=
  oracle_bag v = observed_bag v /\ counts_ok (oracle_bag v).

Definition advances (v : FrontierConformanceVerifierV1) (f : Z) : Prop :=
  match last_frontier v with Some committed => committed < f | None => True end.

Lemma multiplicity_range field rows b r : consolidated_bag field rows = Ok b -> is_i64 (multiplicity b r) = true.
Proof.
  intros Hrun. refine (try_fold_inv (fun b => forall r, is_i64 (multiplicity b r) = true) _ _ _ _ _ _ Hrun r).
  - intros r'. unfold multiplicity. by rewrite lookup_empty.
  - intros b0 x b1 _ Hb0 (u & _ & (w & [-> Hw]%ok_or_ok%checked_i64_some & [= <-])%bind_ok)%bind_ok r'.
    rewrite multiplicity_set. by destruct (decide _).
Qed.

Lemma committed_counts field rows b : committed_bag field rows = Ok b ->
  counts_ok b /\ forall r, multiplicity b r = net rows r.
Proof.
  intros Hb. destruct (committed_spec _ _ _ Hb) as (Hok & Hm & Hpos). split; [split|]; [done| |done].
  intros r. apply bind_ok in Hb as (bag & Hbag & Hf).
  assert (bag = b) as -> by (destruct (List.find _ _) as [[? ?]|]; congruence).
  apply (multiplicity_range _ _ _ r) in Hbag. rewrite Hm in *. specialize (Hpos r). range.
Qed.

Lemma difference_total current previous : counts_ok current -> counts_ok previous ->
  exists d, bag_difference current previous = Ok d.
Proof.
  intros [_ Hc] [Hp Hp']. apply (try_fold_entries_total multiplicity).
  - intros b [r w] Hin%elem_of_entries Hb. unfold subtract_row; cbn [fst snd] in *. rewrite Hb.
    specialize (Hc r). specialize (Hp' r). unfold multiplicity in Hp' at 1 2. rewrite Hin in Hp'. simpl in Hp'.
    unfold checked_i64. replace (is_i64 (multiplicity current r - w)) with true by (symmetry; range).
    eexists. done.
  - intros b p b' k (w & _ & [= <-])%bind_ok Hk. rewrite multiplicity_set. by rewrite decide_False.
Qed.

Lemma apply_total previous delta target : counts_ok target ->
  (forall r, multiplicity previous r + multiplicity delta r = multiplicity target r) ->
  exists b, apply_delta previous delta = Ok b.
Proof.
  intros [_ Ht] Heq. apply (try_fold_entries_total multiplicity).
  - intros b [r w] Hin%elem_of_entries Hb. unfold apply_row; cbn [fst snd] in *. rewrite Hb.
    specialize (Ht r). specialize (Heq r). unfold multiplicity in Heq at 2. rewrite Hin in Heq. simpl in Heq.
    rewrite Heq. unfold checked_i64. replace (is_i64 (multiplicity target r)) with true by (symmetry; range).
    simpl. replace (multiplicity target r <? 0) with false by lia. eexists. done.
  - intros b p b' k (w & _ & (u & _ & [= <-])%bind_ok)%bind_ok Hk. rewrite multiplicity_set.
    by rewrite decide_False.
Qed.

(** What it takes to be accepted. *)
Definition conforms (v : FrontierConformanceVerifierV1) (e : CommittedFrontierEvidenceV1) : Prop :=
  advances v (frontier e) /\
  (exists o, committed_bag "oracle_snapshot" (oracle_snapshot e) = Ok o) /\
  (exists d, consolidated_bag "observed_delta" (observed_delta e) = Ok d) /\
  (exists s, committed_bag "observed_snapshot" (observed_snapshot e) = Ok s) /\
  (forall r, net (observed_snapshot e) r = net (oracle_snapshot e) r) /\
  (forall r, net (observed_delta e) r = net (oracle_snapshot e) r - multiplicity (oracle_bag v) r).

Lemma advances_iff v f :
  match last_frontier v with
  | Some committed => fail_if (f <=? committed) (NonMonotonicFrontier committed f)
  | None => Ok tt
  end = Ok tt <-> advances v f.
Proof.
  unfold advances. destruct (last_frontier v) as [c|]; [|done]. rewrite fail_if_ok. lia.
Qed.

Lemma verify_ok v e v' : verifier_ok v -> verify_committed_frontier v e = Ok v' ->
  conforms v e /\ verifier_ok v' /\ last_frontier v' = Some (frontier e) /\
  forall r, multiplicity (observed_bag v') r = net (oracle_snapshot e) r.
Proof.
  intros [Hsame Hcounts]. unfold verify_committed_frontier.
  intros ([] & Hadv & (o & Ho & (d & Hd & (s & Hs & (x & Hx & (u1 & E1 & (ap & Hap & (u2 & E2 & (u3 & E3 & [= <-])%bind_ok)%bind_ok)%bind_ok)%bind_ok)%bind_ok)%bind_ok)%bind_ok)%bind_ok)%bind_ok.
  rewrite fail_if_ok, negb_false_iff, bag_eqb_true in E1, E2, E3. subst x ap s.
  apply advances_iff in Hadv. destruct (committed_counts _ _ _ Ho) as [Hoc Hom].
  destruct (committed_counts _ _ _ Hs) as [_ Hsm]. destruct (consolidated_spec _ _ _ Hd) as [_ Hdm].
  destruct (difference_spec _ _ _ (proj1 Hoc) Hx) as [_ Hxm].
  split; [|done]. unfold conforms. split_and!; [done|eauto..| |].
  - intros r. by rewrite <-Hsm, <-Hom.
  - intros r. rewrite <-Hdm, Hxm, Hom. done.
Qed.

Lemma verify_complete v e : verifier_ok v -> conforms v e -> exists v', verify_committed_frontier v e = Ok v'.
Proof.
  intros [Hsame Hcounts] (Hadv & (o & Ho) & (d & Hd) & (s & Hs) & Hnet & Hdelta).
  apply advances_iff in Hadv. unfold verify_committed_frontier. rewrite Hadv, Ho, Hd, Hs. simpl.
  destruct (committed_counts _ _ _ Ho) as [Hoc Hom]. destruct (committed_counts _ _ _ Hs) as [Hsc Hsm].
  destruct (consolidated_spec _ _ _ Hd) as [Hdok Hdm].
  destruct (difference_total o (oracle_bag v) Hoc Hcounts) as [x Hx]. rewrite Hx. simpl.
  destruct (difference_spec _ _ _ (proj1 Hoc) Hx) as [Hxok Hxm].
  assert (d = x) as <- by (apply bag_ext; [done..|]; intros r; rewrite Hdm, Hxm, Hdelta, Hom; done).
  rewrite (proj2 (bag_eqb_true d d)) by done. simpl.
  destruct (apply_total (observed_bag v) d o Hoc) as [ap Hap].
  { intros r. rewrite Hxm, <-Hsame. lia. }
  rewrite Hap. simpl. rewrite <-Hsame in Hap. destruct (apply_delta_spec _ _ _ (proj1 Hcounts) Hap) as [Hapok Hapm].
  assert (ap = s) as -> by (apply bag_ext; [done|apply Hsc|]; intros r; rewrite Hapm, Hxm, Hsm, Hnet, Hom; lia).
  assert (s = o) as -> by (apply bag_ext; [apply Hsc|apply Hoc|]; intros r; by rewrite Hsm, Hnet, Hom).
  rewrite (proj2 (bag_eqb_true o o)) by done. simpl. eauto.
Qed.

Lemma default_ok : verifier_ok verifier_default.
Proof.
  split; [done|]. split; [apply bag_ok_empty|]. intros r. change (multiplicity _ r) with 0. done.
Qed.

(** The verifier accepts a committed frontier exactly when it conforms: the
    frontier advances, the row lists consolidate without an empty identity, an
    overflow or a negative committed count, the observed snapshot is the
    oracle's, and the observed delta is the oracle's change since the last
    accepted frontier. *)
Theorem verify_accepts_exactly v e : verifier_ok v ->
  (exists v', verify_committed_frontier v e = Ok v') <-> conforms v e.
Proof.
  intros Hv. split; [|by apply verify_complete]. intros [v' Hv']. by apply (verify_ok v e v' Hv).
Qed.

(** Along any accepted sequence of frontiers, the frontiers increase and the
    observed deltas add up, row by row, to the oracle's snapshot at the last
    frontier: nothing is lost or counted twice between frontiers. *)
Theorem accepted_deltas_total es v : try_fold verify_committed_frontier verifier_default es = Ok v ->
  StronglySorted Z.lt (frontier <$> es) /\
  (forall r, zsum ((fun e => net (observed_delta e) r) <$> es) = multiplicity (observed_bag v) r) /\
  (forall e r, last es = Some e -> multiplicity (observed_bag v) r = net (oracle_snapshot e) r).
Proof.
  enough (Hgen : forall es v0 v, verifier_ok v0 -> try_fold verify_committed_frontier v0 es = Ok v ->
    (forall e, e ∈ es -> advances v0 (frontier e)) /\ StronglySorted Z.lt (frontier <$> es) /\
    (forall r, multiplicity (observed_bag v0) r + zsum ((fun e => net (observed_delta e) r) <$> es)
       = multiplicity (observed_bag v) r) /\
    (forall e r, last es = Some e -> multiplicity (observed_bag v) r = net (oracle_snapshot e) r)).
  { intros Hrun. destruct (Hgen es _ v default_ok Hrun) as (_ & Hs & Hm & Hl). split_and!; [done| |done].
    intros r. rewrite <-Hm. change (multiplicity (observed_bag verifier_default) r) with 0. lia. }
  clear es v. induction es as [|e es IH]; intros v0 v Hv0 Hrun; simpl in Hrun.
  - injection Hrun as <-. split_and!; [set_solver|constructor| |done]. intros r. simpl. lia.
  - apply bind_ok in Hrun as (v1 & H1 & Hrun). destruct (verify_ok v0 e v1 Hv0 H1) as (Hc & Hv1 & Hf1 & Hm1).
    destruct (IH v1 v Hv1 Hrun) as (Hadv & Hs & Hm & Hl). destruct Hc as (Hadv0 & _ & _ & _ & _ & Hd).
    assert (Hlt : forall e', e' ∈ es -> frontier e < frontier e').
    { intros e' He'. apply Hadv in He'. unfold advances in He'. by rewrite Hf1 in He'. }
    split_and!.
    + intros e' [->|He']%elem_of_cons; [done|]. apply Hlt in He'. unfold advances in *.
      destruct (last_frontier v0); [lia|done].
    + rewrite fmap_cons. constructor; [done|]. apply Forall_forall.
      intros f (e' & -> & He')%list_elem_of_fmap_1. by apply Hlt.
    + intros r. rewrite fmap_cons. cbn [zsum]. rewrite Hd, <-Hm, Hm1.
      destruct Hv0 as [Hsame _]. rewrite Hsame. lia.
    + intros e' r. rewrite last_cons. destruct (last es) as [e''|] eqn:Hlast.
      * intros [= <-]. by apply Hl.
      * intros [= <-]. apply last_None in Hlast as ->. injection Hrun as <-. apply Hm1.
Qed.

(** * Witnesses *)

Definition demo_evidence : list CommittedFrontierEvidenceV1 :=
  [Evidence 3 [Row "a" 2; Row "b" 1] [Row "a" 1; Row "b" 1; Row "a" 1] [Row "b" 1; Row "a" 2];
   Evidence 7 [Row "a" 1; Row "c" 4] [Row "b" (-1); Row "c" 4; Row "a" (-1)] [Row "a" 1; Row "c" 4]].

Definition one_row : CommittedFrontierEvidenceV1 := Evidence 3 [Row "a" 2] [Row "a" 2] [Row "a" 2].

Lemma one_row_conforms : conforms verifier_default one_row.
Proof.
  split; [exact I|]. split; [apply is_ok_exists; vm_compute; reflexivity|].
  split; [apply is_ok_exists; vm_compute; reflexivity|].
  split; [apply is_ok_exists; vm_compute; reflexivity|]. split; [done|]. intros r.
  change (multiplicity (oracle_bag verifier_default) r) with 0. simpl. lia.
Qed.

Lemma verify_accepts_exactly_witness :
  exists v', verify_committed_frontier verifier_default one_row = Ok v'.
Proof. apply (verify_accepts_exactly verifier_default one_row default_ok). exact one_row_conforms. Defined.

Definition demo_verified : FrontierConformanceVerifierV1 :=
  match try_fold verify_committed_frontier verifier_default demo_evidence with
  | Ok v => v | Err _ => verifier_default end.
Lemma demo_verified_ok : try_fold verify_committed_frontier verifier_default demo_evidence = Ok demo_verified.
Proof.
  unfold demo_verified.
  assert (Hok : is_ok (try_fold verify_committed_frontier verifier_default demo_evidence) = true)
    by (vm_compute; reflexivity).
  by destruct (try_fold _ _ _).
Qed.

Lemma accepted_deltas_total_witness :
  zsum ((fun e => net (observed_delta e) "c") <$> demo_evidence) = multiplicity (observed_bag demo_verified) "c".
Proof. exact (proj1 (proj2 (accepted_deltas_total demo_evidence demo_verified demo_verified_ok)) "c"). Defined.
End FrontierConformance.
