(* ===== verification/Overlay.v ===== *)
(** The epoch-local write overlay over a committed map,
    [velorix-runtime/src/epoch_overlay.rs].

    The abstract state of an overlay is the map [commit] would produce; every
    operation is shown to act on it as the plain map operation does. A mutable
    reference into the write set is modelled by what its holder writes back. *)
From S2P Require Import Prelude BTree.

Module EpochOverlay.
Section overlay.
Context `{Ord K, EqDecision K} {V : Type} (default_value : V).

Inductive Write := Put (v : V) | Delete.

Record EpochOverlay := Overlay { base : btree K V; writes : btree K Write }.

Definition new (b : btree K V) : EpochOverlay := Overlay b ∅.

Definition get (o : EpochOverlay) (k : K) : option V :=
  match writes o !! k with
  | Some (Put v) => Some v
  | Some Delete => None
  | None => base o !! k
  end.

(** The reference to the local copy, with the overlay it points into; [None] is
    the panic of [unreachable!]. *)
Definition get_or_insert_mut (o : EpochOverlay) (k : K) : option (EpochOverlay * V) :=
  let o := match writes o !! k with
    | Some _ => o
    | None => Overlay (base o) (<[k := Put (default default_value (base o !! k))]> (writes o))
    end in
  match writes o !! k with
  | Some (Put v) => Some (o, v)
  | _ => None
  end.

(** [*overlay.get_or_insert_mut(k) = f(..)]. *)
Definition modify (o : EpochOverlay) (k : K) (f : V -> V) : option EpochOverlay :=
  '(o, v) ← get_or_insert_mut o k;
  Some (Overlay (base o) (<[k := Put (f v)]> (writes o))).

Definition insert (o : EpochOverlay) (k : K) (v : V) : EpochOverlay :=
  Overlay (base o) (<[k := Put v]> (writes o)).

Definition remove (o : EpochOverlay) (k : K) : EpochOverlay :=
  Overlay (base o) (<[k := Delete]> (writes o)).

Definition contains_key (o : EpochOverlay) (k : K) : bool :=
  match writes o !! k with
  | Some (Put _) => true
  | Some Delete => false
  | None => match base o !! k with Some _ => true | None => false end
  end.

Definition write_count (o : EpochOverlay) : nat := length (entries (writes o)).
Definition is_empty (o : EpochOverlay) : bool := match entries (writes o) with [] => true | _ => false end.

Definition commit_write (m : btree K V) (p : K * Write) : btree K V :=
  match p.2 with Put v => <[p.1 := v]> m | Delete => delete p.1 m end.

Definition commit (o : EpochOverlay) : btree K V := foldl commit_write (base o) (entries (writes o)).

(** Base entries that are not deleted, then the puts, collected into a map. *)
Definition merged_iter (o : EpochOverlay) : list (K * V) :=
  let base_iter := List.filter (fun p =>
    match writes o !! p.1 with Some Delete => false | _ => true end) (entries (base o)) in
  let write_iter := omap (fun p => match p.2 with Put v => Some (p.1, v) | Delete => None end)
    (entries (writes o)) in
  entries (foldl (fun m p => <[p.1 := p.2]> m) ∅ (base_iter ++ write_iter)).

(** * The overlay as a map *)

Lemma overlay_lookup_commit o k : commit o !! k = get o k.
Proof.
  unfold commit, get.
  rewrite (foldl_entries (fun m k => m !! k) (fun _ w => match w with Put v => Some v | Delete => None end)).
  - by destruct (writes o !! k) as [[v|]|].
  - intros m [k' [v|]] k''; unfold commit_write; simpl; destruct (decide (k'' = k')) as [->|];
      rewrite ?lookup_insert_eq, ?lookup_delete_eq, ?lookup_insert_ne, ?lookup_delete_ne by done; done.
Qed.

Lemma foldl_insert_out (l : list (K * V)) (m : btree K V) k : k ∉ l.*1 ->
  foldl (fun m p => <[p.1 := p.2]> m) m l !! k = m !! k.
Proof.
  revert m. induction l as [|[k' v] l IH]; intros m Hk; simpl; [done|].
  change (k ∉ k' :: l.*1) in Hk. apply not_elem_of_cons in Hk as [Hne Hk].
  rewrite IH by done. by apply lookup_insert_ne.
Qed.

Lemma foldl_insert_in (l : list (K * V)) (m : btree K V) k v : NoDup l.*1 -> (k, v) ∈ l ->
  foldl (fun m p => <[p.1 := p.2]> m) m l !! k = Some v.
Proof.
  revert m. induction l as [|[k' v'] l IH]; intros m Hnd Hin; [set_solver|].
  change (NoDup (k' :: l.*1)) in Hnd. apply NoDup_cons in Hnd as [Hk' Hnd]. simpl.
  apply elem_of_cons in Hin as [[= -> ->]|Hin]; [|by apply IH].
  rewrite foldl_insert_out by done. apply lookup_insert_eq.
Qed.

Lemma omap_keys {A B} (f : K * A -> option (K * B)) (l : list (K * A)) :
  (forall p q, f p = Some q -> q.1 = p.1) -> NoDup l.*1 -> NoDup (omap f l).*1 /\
  forall k, k ∈ (omap f l).*1 -> k ∈ l.*1.
Proof.
  intros Hf. induction l as [|p l IH]; intros Hnd; [done|].
  change (NoDup (p.1 :: l.*1)) in Hnd. apply NoDup_cons in Hnd as [Hp Hnd].
  destruct (IH Hnd) as [Hnd' Hsub]. csimpl. destruct (f p) as [q|] eqn:Hq.
  - csimpl. rewrite (Hf _ _ Hq). split; [constructor; [by intros ?%Hsub|done]|].
    intros k [->|Hk]%elem_of_cons; [left|right; auto].
  - split; [done|]. intros k Hk. right. auto.
Qed.

Lemma filter_omap {A} (f : A -> bool) l : List.filter f l = omap (fun x => if f x then Some x else None) l.
Proof. induction l as [|x l IH]; [done|]. csimpl. destruct (f x); by rewrite IH. Qed.

Lemma lookup_merged o k :
  foldl (fun m p => <[p.1 := p.2]> m) (∅ : btree K V)
    (List.filter (fun p => match writes o !! p.1 with Some Delete => false | _ => true end) (entries (base o))
     ++ omap (fun p => match p.2 with Put v => Some (p.1, v) | Delete => None end) (entries (writes o))) !! k
  = get o k.
Proof.
  rewrite foldl_app, filter_omap. set (fb := fun x : K * V => if match writes o !! x.1 with Some Delete => false | _ => true end then Some x else None).
  set (fw := fun p : K * Write => match p.2 with Put v => Some (p.1, v) | Delete => None end).
  destruct (omap_keys fb (entries (base o))) as [Hndb _];
    [intros p q; unfold fb; destruct (match _ with Some Delete => _ | _ => _ end); by intros [= <-]|apply entries_NoDup|].
  destruct (omap_keys fw (entries (writes o))) as [Hndw Hsubw];
    [intros [k' [v|]] q; by intros [= <-]|apply entries_NoDup|].
  unfold get. destruct (writes o !! k) as [[v|]|] eqn:Hk.
  - apply foldl_insert_in; [done|]. apply list_elem_of_omap. exists (k, Put v). by rewrite elem_of_entries.
  - rewrite !foldl_insert_out; [apply lookup_empty| |].
    + intros ([k' v] & -> & (p & _ & Hp)%list_elem_of_omap)%list_elem_of_fmap_1. unfold fb in Hp. simpl in Hk.
      destruct (match writes o !! p.1 with Some Delete => false | _ => true end) eqn:Hd; [|done].
      injection Hp as ->. simpl in Hd. by rewrite Hk in Hd.
    + intros ([k' v] & -> & ([k2 w] & Hin%elem_of_entries & Hw)%list_elem_of_omap)%list_elem_of_fmap_1.
      unfold fw in Hw. destruct w; [|done]. injection Hw as -> ->. simpl in *. congruence.
  - rewrite foldl_insert_out.
    + destruct (base o !! k) as [v|] eqn:Hb.
      * apply foldl_insert_in; [done|]. apply list_elem_of_omap. exists (k, v).
        rewrite elem_of_entries. unfold fb; simpl. by rewrite Hk.
      * rewrite foldl_insert_out; [apply lookup_empty|].
        intros ([k' v] & -> & (p & Hin & Hp)%list_elem_of_omap)%list_elem_of_fmap_1. unfold fb in Hp.
        destruct (match writes o !! p.1 with Some Delete => false | _ => true end); [|done].
        injection Hp as ->. apply elem_of_entries in Hin. simpl in *. congruence.
    + intros Hin%Hsubw. apply list_elem_of_fmap_1 in Hin as ([k' w] & -> & Hw%elem_of_entries). simpl in *. congruence.
Qed.

(** Reading through the overlay is reading the map that commit produces: a
    lookup, a membership test and the merged iteration all agree with it. *)
Theorem overlay_reads_commit o :
  (forall k, get o k = commit o !! k) /\
  (forall k, contains_key o k = true <-> is_Some (commit o !! k)) /\
  merged_iter o = entries (commit o).
Proof.
  split_and!.
  - intros k. by rewrite overlay_lookup_commit.
  - intros k. rewrite overlay_lookup_commit. unfold contains_key, get.
    destruct (writes o !! k) as [[v|]|]; [|by split; [|intros [? ?]]|];
      [|destruct (base o !! k); [|by split; [|intros [? ?]]]]; split; eauto.
  - unfold merged_iter. apply entries_ext. intros k. by rewrite lookup_merged, overlay_lookup_commit.
Qed.

(** * Refinement *)

(** What an epoch does to its state. *)
Inductive op := OpInsert (k : K) (v : V) | OpRemove (k : K) | OpModify (k : K) (f : V -> V).

(** On the overlay; [None] is a panic. *)
Definition run_op (o : EpochOverlay) (x : op) : option EpochOverlay :=
  match x with
  | OpInsert k v => Some (insert o k v)
  | OpRemove k => Some (remove o k)
  | OpModify k f => modify o k f
  end.

(** On a plain map. *)
Definition map_op (m : btree K V) (x : op) : btree K V :=
  match x with
  | OpInsert k v => <[k := v]> m
  | OpRemove k => delete k m
  | OpModify k f => <[k := f (default default_value (m !! k))]> m
  end.

Lemma get_writes_insert (b : btree K V) ws k w k' : get (Overlay b (<[k := w]> ws)) k' =
  if decide (k' = k) then match w with Put v => Some v | Delete => None end else get (Overlay b ws) k'.
Proof.
  unfold get; simpl. destruct (decide (k' = k)) as [->|]; [by rewrite lookup_insert_eq|by rewrite lookup_insert_ne].
Qed.

Lemma modify_eq o k f : modify o k f = match writes o !! k with
  | Some Delete => None
  | _ => Some (Overlay (base o) (<[k := Put (f (default default_value (get o k)))]> (writes o)))
  end.
Proof.
  unfold modify, get_or_insert_mut, get. destruct (writes o !! k) as [[v|]|] eqn:Hk; simpl.
  - by rewrite Hk.
  - by rewrite Hk.
  - rewrite lookup_insert_eq. simpl. by rewrite insert_insert_eq.
Qed.

Lemma run_op_refines o x o' : run_op o x = Some o' -> commit o' = map_op (commit o) x /\ base o' = base o.
Proof.
  intros Hx. split; [|destruct x; simpl in Hx; rewrite ?modify_eq in Hx; simplify_eq/=; repeat case_match; by simplify_eq/=].
  apply map_eq. intros k'. rewrite overlay_lookup_commit. destruct x as [k v|k|k f]; simpl in *.
  - injection Hx as <-. unfold insert. rewrite get_writes_insert. destruct (decide (k' = k)) as [->|];
      [by rewrite lookup_insert_eq|by rewrite lookup_insert_ne, overlay_lookup_commit].
  - injection Hx as <-. unfold remove. rewrite get_writes_insert. destruct (decide (k' = k)) as [->|];
      [by rewrite lookup_delete_eq|by rewrite lookup_delete_ne, overlay_lookup_commit].
  - rewrite modify_eq in Hx.
    assert (o' = Overlay (base o) (<[k := Put (f (default default_value (get o k)))]> (writes o))) as ->
      by (destruct (writes o !! k) as [[]|]; congruence).
    rewrite get_writes_insert, <-(overlay_lookup_commit o k). destruct (decide (k' = k)) as [->|];
      [by rewrite lookup_insert_eq|by rewrite lookup_insert_ne, overlay_lookup_commit].
Qed.

Fixpoint run_ops (o : EpochOverlay) (xs : list op) : option EpochOverlay :=
  match xs with [] => Some o | x :: xs => o ← run_op o x; run_ops o xs end.

(** An epoch run on an overlay refines the same epoch run on the map itself:
    unless an operation panics, commit gives the map the plain operations give,
    and the base map is untouched until then. *)
Theorem overlay_refines_map b xs o' : run_ops (new b) xs = Some o' ->
  commit o' = foldl map_op b xs /\ base o' = b.
Proof.
  enough (Hgen : forall xs o, run_ops o xs = Some o' -> commit o' = foldl map_op (commit o) xs /\ base o' = base o).
  { intros Hrun. apply Hgen in Hrun. done. }
  clear xs. induction xs as [|x xs IH]; intros o; simpl.
  - by intros [= <-].
  - destruct (run_op o x) as [o1|] eqn:Hx; [|done]. simpl. intros Hrun.
    apply run_op_refines in Hx as [<- <-]. by apply IH.
Qed.

(** The only panic is a mutable access to a key the same epoch has removed
    and not inserted again: the local copy is a deletion marker, which the code
    declares unreachable. *)
Theorem overlay_panics_exactly o x :
  run_op o x = None <-> exists k f, x = OpModify k f /\ writes o !! k = Some Delete.
Proof.
  destruct x as [k v|k|k f]; simpl; [naive_solver..|]. rewrite modify_eq.
  destruct (writes o !! k) as [[v|]|] eqn:Hk; split; try naive_solver.
Qed.
End overlay.

(** * Witnesses *)

Definition demo_base : btree string Z := <["a" := 1]> (<["b" := 2]> ∅).
Definition demo_ops : list op :=
  [OpInsert (K := string) "c" 3; OpModify "a" (fun v => v + 10); OpRemove "b"; OpModify "d" (fun v => v - 1)].

Definition demo_overlay : EpochOverlay :=
  match run_ops 0 (new demo_base) demo_ops with Some o => o | None => new demo_base end.

Lemma overlay_refines_map_witness :
  commit demo_overlay = foldl (map_op 0) demo_base demo_ops /\ base demo_overlay = demo_base.
Proof. apply (overlay_refines_map 0 demo_base demo_ops demo_overlay). reflexivity. Defined.
End EpochOverlay.
