(* ===== verification/Recursive.v ===== *)
(** The semi-naive frontier of recursive evaluation,
    [velorix-runtime/src/recursive_frontier.rs]. *)
From S2P Require Import Prelude BTree.

Module RecursiveFrontier.

Definition saturating_add (a b : Z) : Z := Z.max i128_min (Z.min i128_max (a + b)).

Record RecursiveFrontier := Frontier { all : btree string Z; delta : list string }.

Definition from_seed (seed : btree string Z) : RecursiveFrontier :=
  Frontier seed (entries seed).*1.

Definition new : RecursiveFrontier := Frontier ∅ [].

Definition add_candidate (f : RecursiveFrontier) (key : string) (weight : Z) : RecursiveFrontier * bool :=
  if weight =? 0 then (f, false)
  else
    let old_weight := default 0 (all f !! key) in
    let entry := saturating_add old_weight weight in
    let is_new := (old_weight =? 0) && negb (entry =? 0) in
    (Frontier (<[key := entry]> (all f)) (if is_new then delta f ++ [key] else delta f), is_new).

Definition advance (f : RecursiveFrontier) : RecursiveFrontier * list string :=
  (Frontier (all f) [], delta f).

Definition is_empty (f : RecursiveFrontier) : bool := match delta f with [] => true | _ => false end.
Definition len (f : RecursiveFrontier) : nat := length (entries (all f)).
Definition frontier_size (f : RecursiveFrontier) : nat := length (delta f).

Definition compact (f : RecursiveFrontier) : RecursiveFrontier :=
  Frontier (filter (fun p => p.2 <> 0) (all f)) (delta f).

(** * Evaluation *)

(** What an evaluation does with its frontier. *)
Inductive op := Candidate (key : string) (weight : Z) | Advance | Compact.

(** The frontier and the keys the evaluation has taken from it so far. *)
Definition run_op (s : RecursiveFrontier * list string) (x : op) : RecursiveFrontier * list string :=
  let '(f, visited) := s in
  match x with
  | Candidate k w => ((add_candidate f k w).1, visited)
  | Advance => let '(f, d) := advance f in (f, visited ++ d)
  | Compact => (compact f, visited)
  end.

Definition run (f : RecursiveFrontier) (xs : list op) : RecursiveFrontier * list string :=
  foldl run_op (f, []) xs.

Definition positive_op (x : op) : bool := match x with Candidate _ w => 0 <? w | _ => true end.

Definition weight_of (f : RecursiveFrontier) (k : string) : Z := default 0 (all f !! k).

(** Every stored weight is positive, and the visited keys with the frontier are
    the stored keys, each once. *)
Definition visits_once (s : RecursiveFrontier * list string) : Prop :=
  map_Forall (fun _ w => 0 < w) (all s.1) /\ s.2 ++ delta s.1 ≡ₚ (entries (all s.1)).*1.

Lemma keys_overwrite (m : btree string Z) k v e : m !! k = Some v ->
  (entries m).*1 ≡ₚ (entries (<[k := e]> m)).*1.
Proof.
  intros Hk. rewrite <-!map_to_list_entries. rewrite <-(insert_delete_eq m k e).
  rewrite <-(insert_delete_id m k v Hk) at 1.
  by rewrite !map_to_list_insert by apply lookup_delete_eq.
Qed.

Lemma add_candidate_positive f k w visited : 0 < w -> visits_once (f, visited) ->
  visits_once ((add_candidate f k w).1, visited).
Proof.
  intros Hw [Hpos Hperm]. unfold add_candidate. rewrite (proj2 (Z.eqb_neq w 0)) by lia.
  set (old := default 0 (all f !! k)). set (e := saturating_add old w).
  assert (Hold : 0 <= old).
  { unfold old. destruct (all f !! k) as [o|] eqn:Ho; simpl; [|lia]. specialize (Hpos _ _ Ho). simpl in Hpos. lia. }
  assert (He : 0 < e) by (unfold e, saturating_add, i128_min, i128_max; lia).
  rewrite (proj2 (Z.eqb_neq e 0)) by lia. rewrite andb_true_r. unfold visits_once in *; cbn [fst snd all delta] in *.
  split; [by apply map_Forall_insert_2|]. destruct (all f !! k) as [o|] eqn:Ho; unfold old; cbn [from_option id Z.eqb].
  - specialize (Hpos _ _ Ho). simpl in Hpos. rewrite (proj2 (Z.eqb_neq o 0)) by lia.
    rewrite Hperm. by apply keys_overwrite with o.
  - rewrite app_assoc, Hperm, <-!map_to_list_entries, map_to_list_insert by done. rewrite fmap_cons.
    by rewrite <-Permutation_cons_append.
Qed.

Lemma compact_positive f visited : visits_once (f, visited) -> compact f = f.
Proof.
  intros [Hpos _]. unfold compact. rewrite map_filter_id; [by destruct f|].
  intros k w Hk. specialize (Hpos _ _ Hk). simpl in *. lia.
Qed.

(** With positive candidate weights every derived row enters the frontier
    exactly once over a whole evaluation: the keys taken by the advances so far
    together with the current frontier are a permutation of the stored keys, so
    a fixpoint over finitely many rows is reached after at most that many
    non-empty frontiers, and compaction removes nothing. *)
Theorem frontier_visits_once seed xs :
  map_Forall (fun _ w => 0 < w) seed -> forallb positive_op xs = true ->
  let '(f, visited) := run (from_seed seed) xs in
  visited ++ delta f ≡ₚ (entries (all f)).*1 /\ NoDup (visited ++ delta f) /\ compact f = f.
Proof.
  intros Hseed. unfold run.
  assert (Hinit : visits_once (from_seed seed, [])) by by split.
  revert Hinit. generalize (from_seed seed, @nil string). induction xs as [|x xs IH]; intros [f visited] Hinv.
  - intros _. simpl. split_and!; [apply Hinv| |by apply compact_positive in Hinv].
    destruct Hinv as [_ ->]. apply entries_NoDup.
  - intros [Hx Hxs]%andb_true_iff. simpl. apply IH; [|done]. destruct x as [k w| |]; simpl in *.
    + apply Z.ltb_lt in Hx. by apply add_candidate_positive.
    + destruct Hinv as [Hpos Hperm]. split; [done|]. by rewrite <-Hperm; simpl; rewrite app_nil_r.
    + by rewrite (compact_positive _ _ Hinv).
Qed.

Lemma frontier_visits_once_witness :
  let '(f, visited) := run (from_seed (<["a" := 1]> ∅)) [Advance; Candidate "b" 2; Candidate "a" 1; Advance] in
  visited ++ delta f ≡ₚ (entries (all f)).*1 /\ NoDup (visited ++ delta f) /\ compact f = f.
Proof.
  apply (frontier_visits_once (<["a" := 1]> ∅) [Advance; Candidate "b" 2; Candidate "a" 1; Advance]).
  - apply map_Forall_insert_2; [lia|apply map_Forall_empty].
  - reflexivity.
Defined.

(** With weights of either sign the frontier is complete: between two
    advances, every key whose net weight goes from zero to non-zero is in it,
    and it holds only keys of the candidates. *)
Theorem frontier_complete f cs :
  let f' := foldl (fun f c => (add_candidate f c.1 c.2).1) (advance f).1 cs in
  (forall k, weight_of f k = 0 -> weight_of f' k <> 0 -> k ∈ delta f') /\
  (forall k, k ∈ delta f' -> k ∈ cs.*1).
Proof.
  enough (Hgen : forall g, let g' := foldl (fun f c => (add_candidate f c.1 c.2).1) g cs in
    (forall k, weight_of g' k <> 0 -> weight_of g k <> 0 \/ k ∈ delta g') /\
    (forall k, k ∈ delta g -> k ∈ delta g') /\ (forall k, k ∈ delta g' -> k ∈ delta g \/ k ∈ cs.*1)).
  { destruct (Hgen (advance f).1) as (H1 & _ & H3). split.
    - intros k Hz Hnz. by destruct (H1 k Hnz).
    - intros k [Hk|Hk]%H3; [by apply elem_of_nil in Hk|done]. }
  induction cs as [|[k0 w] cs IH]; intros g; [simpl; naive_solver|].
  cbn [foldl fst snd]. destruct (IH (add_candidate g k0 w).1) as (H1 & H2 & H3). clear IH.
  set (g1 := (add_candidate g k0 w).1) in *.
  assert (Hstep : (forall k, weight_of g1 k <> 0 -> weight_of g k <> 0 \/ k ∈ delta g1) /\
    (forall k, k ∈ delta g -> k ∈ delta g1) /\ (forall k, k ∈ delta g1 -> k ∈ delta g \/ k = k0)).
  { unfold g1, add_candidate, weight_of. destruct (w =? 0); [naive_solver|]. cbn [fst all delta].
    set (old := default 0 (all g !! k0)). destruct (Z.eqb_spec old 0) as [Ho|Ho]; cbn [andb].
    - split_and!.
      + intros k Hk. destruct (decide (k = k0)) as [->|]; [|rewrite lookup_insert_ne in Hk by done; by left].
        rewrite lookup_insert_eq in Hk. simpl in Hk. rewrite (proj2 (Z.eqb_neq _ _) Hk). simpl. set_solver.
      + destruct (negb _); set_solver.
      + destruct (negb _); set_solver.
    - split_and!; [|done|by left]. intros k Hk. left. destruct (decide (k = k0)) as [->|]; [done|].
      by rewrite lookup_insert_ne in Hk. }
  destruct Hstep as (S1 & S2 & S3). split_and!.
  - intros k [Hk|Hk]%H1; [|by right]. destruct (S1 k Hk); auto.
  - auto.
  - intros k [[Hk | ->]%S3|Hk]%H3; [by left|right; set_solver|right; set_solver].
Qed.
End RecursiveFrontier.
