(* ===== verification/JoinIndex.v ===== *)
(** The per-key index of an equi-join, [velorix-runtime/src/join_index.rs].

    The index is compared with the join it replaces: a nested loop over every
    row applied so far. *)
From S2P Require Import Prelude BTree Json.

Module JoinIndex.

Record WeightedRow := Row { key : string; values : btree string Value; weight : Z }.

Record JoinIndex := Index {
  left : btree string (list WeightedRow);
  right : btree string (list WeightedRow);
  join_column : string
}.

Definition new (join_column : string) : JoinIndex := Index ∅ ∅ join_column.

(** [values.get(column).and_then(as_str).unwrap_or_default()]. *)
Definition join_key (column : string) (record : WeightedRow) : string :=
  default "" (values record !! column ≫= value_as_str).

(** [Vec::dedup]: of equal neighbours the first stays. *)
Fixpoint dedup (l : list string) : list string :=
  match l with
  | x :: ((y :: _) as l') => if String.eqb x y then dedup l' else x :: dedup l'
  | _ => l
  end.

(** The loop over the records of one side: its index and the keys seen. *)
Definition push_record (column : string) (s : btree string (list WeightedRow) * list string)
    (record : WeightedRow) : btree string (list WeightedRow) * list string :=
  let '(side, affected_keys) := s in
  let k := join_key column record in
  (<[k := default [] (side !! k) ++ [record]]> side, affected_keys ++ [k]).

Definition apply_left_delta (ix : JoinIndex) (records : list WeightedRow) : JoinIndex * list string :=
  let '(side, affected_keys) := foldl (push_record (join_column ix)) (left ix, []) records in
  (Index side (right ix) (join_column ix), dedup (sort_on id affected_keys)).

Definition apply_right_delta (ix : JoinIndex) (records : list WeightedRow) : JoinIndex * list string :=
  let '(side, affected_keys) := foldl (push_record (join_column ix)) (right ix, []) records in
  (Index (left ix) side (join_column ix), dedup (sort_on id affected_keys)).

(** The body of the inner loop: the output row of a pair, when there is one. *)
Definition join_pair (k : string) (l r : WeightedRow) : list WeightedRow :=
  if weight l <=? 0 then [] else if weight r <=? 0 then [] else
  let w := default 0 (checked_i64 (weight l * weight r)) in
  if w =? 0 then [] else
  [Row k (foldl (fun m p => <[p.1 := p.2]> m) (values l) (entries (values r))) w].

Definition compute_inner_join_for_keys (ix : JoinIndex) (keys : list string)
    : list WeightedRow * list WeightedRow :=
  (keys ≫= (fun k =>
     match left ix !! k, right ix !! k with
     | Some left_rows, Some right_rows => left_rows ≫= (fun l => right_rows ≫= join_pair k l)
     | _, _ => []
     end), []).

Definition compact_side (side : btree string (list WeightedRow)) : btree string (list WeightedRow) :=
  filter (fun p => p.2 <> []) ((fun rows => List.filter (fun r => negb (weight r =? 0)) rows) <$> side).

Definition compact (ix : JoinIndex) : JoinIndex :=
  Index (compact_side (left ix)) (compact_side (right ix)) (join_column ix).

Definition row_count (side : btree string (list WeightedRow)) : nat :=
  sum_list (length <$> (entries side).*2).
Definition left_row_count (ix : JoinIndex) : nat := row_count (left ix).
Definition right_row_count (ix : JoinIndex) : nat := row_count (right ix).
Definition left_key_count (ix : JoinIndex) : nat := length (entries (left ix)).
Definition right_key_count (ix : JoinIndex) : nat := length (entries (right ix)).

(** * What the index holds *)

Section rows.
Variable column : string.

Definition has_key (k : string) (r : WeightedRow) : bool := String.eqb (join_key column r) k.

(** [side] holds the rows of [l], grouped by key in arrival order. *)
Definition indexes (side : btree string (list WeightedRow)) (l : list WeightedRow) : Prop :=
  forall k, default [] (side !! k) = List.filter (has_key k) l.

Lemma push_records side keys rs l : indexes side l ->
  let s := foldl (push_record column) (side, keys) rs in
  indexes s.1 (l ++ rs) /\ s.2 = keys ++ (join_key column <$> rs).
Proof.
  revert side keys l. induction rs as [|r rs IH]; intros side keys l Hix.
  - simpl. by rewrite !app_nil_r.
  - cbn [foldl push_record]. destruct (IH (<[join_key column r := default [] (side !! join_key column r) ++ [r]]> side)
      (keys ++ [join_key column r]) (l ++ [r])) as [H1 H2].
    + intros k. rewrite List.filter_app, <-Hix. simpl. unfold has_key at 1.
      destruct (String.eqb_spec (join_key column r) k) as [->|Hne].
      * by rewrite lookup_insert_eq.
      * rewrite lookup_insert_ne by done. by rewrite app_nil_r.
    + split; [by rewrite <-app_assoc in H1|]. rewrite H2, <-app_assoc. done.
Qed.
End rows.

(** * Grouping *)

(** The nested loop over the rows, as the text above calls it. *)
Definition nested_loop (column : string) (ls rs : list WeightedRow) : list WeightedRow :=
  ls ≫= (fun l => rs ≫= (fun r =>
    if String.eqb (join_key column l) (join_key column r) then join_pair (join_key column l) l r else [])).

Lemma bind_filter {A B} (p : A -> bool) (f : A -> list B) (l : list A) :
  List.filter p l ≫= f = l ≫= (fun x => if p x then f x else []).
Proof. induction l as [|x l IH]; [done|]. csimpl. destruct (p x); csimpl; by rewrite IH. Qed.

Lemma bind_nil {A B} (l : list A) : l ≫= (fun _ => @nil B) = [].
Proof. by induction l. Qed.

Lemma bind_one_group {B} (k0 : string) (f h : string -> list B) keys : NoDup keys ->
  keys ≫= (fun k => (if String.eqb k0 k then f k else []) ++ h k)
  ≡ₚ (if existsb (String.eqb k0) keys then f k0 else []) ++ (keys ≫= h).
Proof.
  induction 1 as [|k keys Hk Hnd IH]; [done|]. csimpl. rewrite IH. clear IH.
  destruct (String.eqb_spec k0 k) as [->|Hne]; csimpl.
  - assert (existsb (String.eqb k) keys = false) as ->; [|csimpl; by rewrite app_assoc].
    apply not_true_is_false. rewrite existsb_exists. intros (k' & Hin & <-%String.eqb_eq).
    by apply Hk, list_elem_of_In.
  - rewrite !app_assoc. f_equiv. by rewrite Permutation_app_comm.
Qed.

(** Looping over the groups of distinct keys is looping over the rows. *)
Lemma bind_groups {A B} (g : A -> string) (f : string -> A -> list B) keys (l : list A) :
  NoDup keys ->
  keys ≫= (fun k => l ≫= (fun x => if String.eqb (g x) k then f k x else []))
  ≡ₚ l ≫= (fun x => if existsb (String.eqb (g x)) keys then f (g x) x else []).
Proof.
  intros Hnd. induction l as [|x l IH]; [by apply reflexive_eq, bind_nil|]. csimpl. rewrite <-IH.
  by apply (bind_one_group (g x) (fun k => f k x) (fun k => l ≫= _)).
Qed.

Lemma join_of_groups column side_l side_r ls rs k :
  indexes column side_l ls -> indexes column side_r rs ->
  match side_l !! k, side_r !! k with
  | Some left_rows, Some right_rows => left_rows ≫= (fun l => right_rows ≫= join_pair k l)
  | _, _ => []
  end = ls ≫= (fun l => if String.eqb (join_key column l) k then
    rs ≫= (fun r => if String.eqb (join_key column r) k then join_pair k l r else []) else []).
Proof.
  intros Hl Hr. specialize (Hl k). specialize (Hr k).
  transitivity (default [] (side_l !! k) ≫= (fun l => default [] (side_r !! k) ≫= join_pair k l)).
  - destruct (side_l !! k), (side_r !! k); simpl; try done. by rewrite bind_nil.
  - rewrite Hl, Hr, bind_filter. apply list_bind_ext; [|done]. intros l. unfold has_key.
    destruct (String.eqb _ _); [|done]. by rewrite bind_filter.
Qed.

(** The indexed join equals the nested loop it replaces: after any number of
    deltas on both sides, the output for a list of distinct keys is, up to
    order, the nested loop over all applied left and right rows with one of
    those join keys. *)
Theorem indexed_join_is_nested_loop column ls rs keys : NoDup keys ->
  let ix := foldl (fun ix d => (apply_left_delta ix d).1) (new column) ls in
  let ix := foldl (fun ix d => (apply_right_delta ix d).1) ix rs in
  (compute_inner_join_for_keys ix keys).1 ≡ₚ
  nested_loop column (List.filter (fun l => existsb (String.eqb (join_key column l)) keys) (concat ls)) (concat rs).
Proof.
  intros Hnd.
  assert (HL : forall ls ix l0, join_column ix = column -> indexes column (left ix) l0 ->
    let ix' := foldl (fun ix d => (apply_left_delta ix d).1) ix ls in
    indexes column (left ix') (l0 ++ concat ls) /\ right ix' = right ix /\ join_column ix' = column).
  { clear. induction ls as [|d ls IH]; intros ix l0 <- Hix; [simpl; by rewrite app_nil_r|]. cbn [foldl concat].
    pose proof (push_records (join_column ix) (left ix) [] d l0 Hix) as [H1 _].
    rewrite (app_assoc l0). unfold apply_left_delta at 2 4 6. destruct (foldl _ (left ix, []) d) as [side ks].
    by apply (IH (Index side (right ix) (join_column ix))). }
  assert (HR : forall rs ix l0, join_column ix = column -> indexes column (right ix) l0 ->
    let ix' := foldl (fun ix d => (apply_right_delta ix d).1) ix rs in
    indexes column (right ix') (l0 ++ concat rs) /\ left ix' = left ix).
  { clear. induction rs as [|d rs IH]; intros ix l0 <- Hix; [simpl; by rewrite app_nil_r|]. cbn [foldl concat].
    pose proof (push_records (join_column ix) (right ix) [] d l0 Hix) as [H1 _].
    rewrite (app_assoc l0). unfold apply_right_delta at 2 4. destruct (foldl _ (right ix, []) d) as [side ks].
    by apply (IH (Index (left ix) side (join_column ix))). }
  intros ix1 ix2. destruct (HL ls (new column) []) as (Hl & Hr0 & Hc); [done|done|].
  destruct (HR rs ix1 []) as (Hr & Hl2); [done|unfold ix1; by rewrite Hr0|].
  fold ix1 in Hl. fold ix2 in Hr, Hl2. rewrite <-Hl2 in Hl. cbn [compute_inner_join_for_keys fst].
  erewrite list_bind_ext; [|intros k; exact (join_of_groups _ _ _ _ _ k Hl Hr)|done].
  rewrite (bind_groups (join_key column) (fun k l => _)) by done. unfold nested_loop. rewrite bind_filter.
  apply reflexive_eq, list_bind_ext; [|done]. intros l. destruct (existsb _ _); [|done].
  apply list_bind_ext; [|done]. intros r. by rewrite String.eqb_sym.
Qed.

Definition demo_row (id : string) (w : Z) : WeightedRow := Row id (<["k" := JString "a"]> ∅) w.

Lemma indexed_join_is_nested_loop_witness :
  let ix := foldl (fun ix d => (apply_left_delta ix d).1) (new "k") [[demo_row "1" 1]; [demo_row "2" 2]] in
  let ix := foldl (fun ix d => (apply_right_delta ix d).1) ix [[demo_row "3" 3]] in
  (compute_inner_join_for_keys ix ["a"]).1 ≡ₚ
  nested_loop "k" (List.filter (fun l => existsb (String.eqb (join_key "k" l)) ["a"])
    (concat [[demo_row "1" 1]; [demo_row "2" 2]])) (concat [[demo_row "3" 3]]).
Proof.
  apply (indexed_join_is_nested_loop "k" [[demo_row "1" 1]; [demo_row "2" 2]] [[demo_row "3" 3]] ["a"]).
  apply NoDup_singleton.
Defined.

(** The output for one key, read through [default]. *)
Lemma compute_default ix keys : compute_inner_join_for_keys ix keys =
  (keys ≫= (fun k => default [] (left ix !! k) ≫= (fun l => default [] (right ix !! k) ≫= join_pair k l)), []).
Proof.
  unfold compute_inner_join_for_keys. f_equal. apply list_bind_ext; [|done]. intros k.
  destruct (left ix !! k), (right ix !! k); simpl; try done. by rewrite bind_nil.
Qed.

(** Appending records appends, under each key, those with that key. *)
Lemma push_lookup column side keys rs k :
  default [] ((foldl (push_record column) (side, keys) rs).1 !! k) =
  default [] (side !! k) ++ List.filter (has_key column k) rs.
Proof.
  revert side keys. induction rs as [|r rs IH]; intros side keys; [simpl; by rewrite app_nil_r|].
  cbn [foldl push_record]. rewrite IH. cbn [List.filter]. unfold has_key at 2.
  destruct (String.eqb_spec (join_key column r) k) as [->|Hne].
  - rewrite lookup_insert_eq. simpl. by rewrite <-app_assoc.
  - by rewrite lookup_insert_ne.
Qed.

Lemma join_pair_nonpositive k l r : weight l <= 0 \/ weight r <= 0 -> join_pair k l r = [].
Proof.
  unfold join_pair. destruct (Z.leb_spec (weight l) 0); [done|]. destruct (Z.leb_spec (weight r) 0); [done|lia].
Qed.

Lemma bind_all_nil {A B} (f : A -> list B) l : Forall (fun x => f x = []) l -> l ≫= f = [].
Proof. induction 1 as [|x l Hx _ IH]; [done|]. csimpl. by rewrite Hx, IH. Qed.

Lemma Forall_list_filter {A} (P : A -> Prop) p l : Forall P l -> Forall P (List.filter p l).
Proof. induction 1; simpl; [done|]. destruct (p x); auto. Qed.

(** A retraction has no effect on the join: rows of weight zero or less are
    stored beside the rows they retract and skipped by the join, so applying
    any number of them on either side leaves the output of every key as it
    was, and no output row is ever reported as retracted. *)
Theorem retraction_is_ignored ix retractions keys :
  Forall (fun r => weight r <= 0) retractions ->
  compute_inner_join_for_keys (apply_left_delta ix retractions).1 keys = compute_inner_join_for_keys ix keys /\
  compute_inner_join_for_keys (apply_right_delta ix retractions).1 keys = compute_inner_join_for_keys ix keys /\
  (compute_inner_join_for_keys ix keys).2 = [].
Proof.
  intros Hneg. rewrite !compute_default. split_and!; [| |done]; f_equal;
    (apply list_bind_ext; [|done]); intros k; unfold apply_left_delta, apply_right_delta;
    match goal with |- context [foldl ?f ?s retractions] =>
      pose proof (push_lookup (join_column ix) s.1 s.2 retractions k) as Hk; cbn [fst snd] in Hk;
      destruct (foldl f s retractions) as [side ks] end;
    cbn [fst snd left right] in *; rewrite Hk; apply (Forall_list_filter _ (has_key (join_column ix) k)) in Hneg.
  - rewrite bind_app, (bind_all_nil _ (List.filter _ _)); [by rewrite app_nil_r|].
    eapply Forall_impl; [exact Hneg|]. intros l Hl. apply bind_all_nil, Forall_forall.
    intros r _. apply join_pair_nonpositive. by left.
  - apply list_bind_ext; [|done]. intros l. rewrite bind_app, (bind_all_nil _ (List.filter _ _)); [by rewrite app_nil_r|].
    eapply Forall_impl; [exact Hneg|]. intros r Hr. apply join_pair_nonpositive. by right.
Qed.

Definition demo_index : JoinIndex :=
  (apply_right_delta (apply_left_delta (new "k") [demo_row "1" 1]).1 [demo_row "2" 1]).1.

Lemma retraction_is_ignored_witness :
  compute_inner_join_for_keys (apply_left_delta demo_index [demo_row "1" (-1)]).1 ["a"]
    = compute_inner_join_for_keys demo_index ["a"] /\
  compute_inner_join_for_keys (apply_right_delta demo_index [demo_row "1" (-1)]).1 ["a"]
    = compute_inner_join_for_keys demo_index ["a"] /\
  (compute_inner_join_for_keys demo_index ["a"]).2 = [].
Proof. apply (retraction_is_ignored demo_index [demo_row "1" (-1)] ["a"]). repeat constructor; simpl; lia. Defined.
End JoinIndex.
