(* ===== verification/Lease.v ===== *)
(** Partition leases, [velorix-control/src/lease.rs]: the client interface, its
    fencing contract, and the in-memory client.

    A caller's clock is an argument of every call, as in the code; nothing is
    assumed about how the clocks of different callers relate. *)
From Stdlib Require Import Sorting.Sorted.
From S2P Require Import Prelude BTree Json Digits Segments.

Record PartitionLeaseKey := LeaseKey {
  namespace : string; view_id : string; stream_id : string; partition_id : Z
}.

Record PartitionLeaseGrant := Grant {
  grant_key : PartitionLeaseKey; owner_id : string; owner_epoch : Z; expires_at_unix_ms : Z
}.

Record LeaseAcquireRequest := Acquire {
  request_key : PartitionLeaseKey; request_owner : string; now_unix_ms : Z; ttl_ms : Z
}.

Inductive LeaseBackendKind := InMemoryDev | KubernetesLease.

Record ProductionOwnershipBackendConfig := BackendConfig {
  lease_backend : LeaseBackendKind; supports_durable_epoch_records : bool
}.

Inductive LeaseError :=
| InvalidLeaseKey (field : string)
| InvalidOwnerId
| InvalidTtl (ttl_ms : Z)
| LeaseTimeOverflow (now_unix_ms ttl_ms : Z)
| OwnerEpochOverflow (current : PartitionLeaseGrant)
| Conflict (current : PartitionLeaseGrant)
| NotLeaseHolder (current : PartitionLeaseGrant)
| LeaseNotHeld
| ProductionLeaseBackendNotDurable (lease_backend : LeaseBackendKind)
| ProductionOwnershipMissingDurableEpochRecords.

#[export] Instance PartitionLeaseKey_eq_dec : EqDecision PartitionLeaseKey.
Proof. solve_decision. Defined.
#[export] Instance PartitionLeaseGrant_eq_dec : EqDecision PartitionLeaseGrant.
Proof. solve_decision. Defined.
#[export] Instance LeaseBackendKind_eq_dec : EqDecision LeaseBackendKind.
Proof. solve_decision. Defined.
#[export] Instance PartitionLeaseKey_countable : Countable PartitionLeaseKey.
Proof.
  refine (inj_countable' (fun k => (namespace k, view_id k, stream_id k, partition_id k))
    (fun t => let '(n, v, s, p) := t in LeaseKey n v s p) _). by intros [].
Defined.

Definition validate_production_ownership_backend (config : ProductionOwnershipBackendConfig) :
    result LeaseError unit :=
  if bool_decide (lease_backend config = InMemoryDev)
  then Err (ProductionLeaseBackendNotDurable (lease_backend config))
  else if negb (supports_durable_epoch_records config)
  then Err ProductionOwnershipMissingDurableEpochRecords
  else Ok tt.

Definition validate_key_field (field value : string) : result LeaseError unit :=
  if is_blank value then Err (InvalidLeaseKey field) else Ok tt.

Definition validate_key (key : PartitionLeaseKey) : result LeaseError unit :=
  _ ← validate_key_field "namespace" (namespace key);
  _ ← validate_key_field "view_id" (view_id key);
  validate_key_field "stream_id" (stream_id key).

Definition validate_owner_id (owner_id : string) : result LeaseError unit :=
  if is_blank owner_id then Err InvalidOwnerId else Ok tt.

(** * The interface *)

(** The trait [PartitionLeaseClient], over the state [S] its methods act on. *)
Class PartitionLeaseClient (S : Type) := {
  acquire_or_renew : S -> LeaseAcquireRequest -> S * result LeaseError PartitionLeaseGrant;
  current : S -> PartitionLeaseKey -> Z -> result LeaseError (option PartitionLeaseGrant);
  release : S -> PartitionLeaseKey -> string -> Z -> Z -> S * result LeaseError unit
}.

(** A call that can change the leases. *)
Inductive call :=
| CallAcquire (request : LeaseAcquireRequest)
| CallRelease (key : PartitionLeaseKey) (owner_id : string) (owner_epoch now_unix_ms : Z).

Section client.
Context {S : Type} `{PartitionLeaseClient S}.

(** The state after a call, and the grant it returned, if any. *)
Definition run_call (s : S) (c : call) : S * list PartitionLeaseGrant :=
  match c with
  | CallAcquire request =>
      let '(s, r) := acquire_or_renew s request in (s, match r with Ok g => [g] | Err _ => [] end)
  | CallRelease key owner epoch now => let '(s, _) := release s key owner epoch now in (s, [])
  end.

Fixpoint run_calls (s : S) (cs : list call) : S * list PartitionLeaseGrant :=
  match cs with
  | [] => (s, [])
  | c :: cs => let '(s, gs) := run_call s c in let '(s, gs') := run_calls s cs in (s, gs ++ gs')
  end.
End client.

(** [g2] is granted after [g1]: its epoch is no older, and an equal epoch is
    the same owner's. *)
Definition fences (g1 g2 : PartitionLeaseGrant) : Prop :=
  grant_key g1 = grant_key g2 ->
  owner_epoch g1 <= owner_epoch g2 /\ (owner_epoch g1 = owner_epoch g2 -> owner_id g1 = owner_id g2).

(** The contract: in the order they are granted, epochs are fencing tokens. *)
Definition fenced (gs : list PartitionLeaseGrant) : Prop := StronglySorted fences gs.

(** ** Establishing it *)

(** What a lease store remembers of a key: the last epoch, and whose it is. *)
Definition head : Type := option (Z * option string).

(** A later head: a newer epoch, or the same one with the same owner or none. *)
Definition advances (h1 h2 : head) : Prop :=
  match h1, h2 with
  | None, _ => True
  | Some _, None => False
  | Some (e1, o1), Some (e2, o2) => e1 < e2 \/ (e1 = e2 /\ (o2 = o1 \/ o2 = None))
  end.

Definition head_of (g : PartitionLeaseGrant) : head := Some (owner_epoch g, Some (owner_id g)).

#[export] Instance advances_preorder : PreOrder advances.
Proof.
  split.
  - intros [[e o]|]; simpl; auto.
  - intros [[e1 o1]|] [[e2 o2]|] [[e3 o3]|]; simpl; try naive_solver lia.
Qed.

Lemma advances_fences g1 g2 : advances (head_of g1) (head_of g2) ->
  owner_epoch g1 <= owner_epoch g2 /\ (owner_epoch g1 = owner_epoch g2 -> owner_id g1 = owner_id g2).
Proof. simpl. intros [?|[? [[= ->]|?]]]; split; intros; try lia; done. Qed.

(** Steps on which heads only advance, and which grant only the new head, give
    fenced grants. *)
Section fencing.
Context {S : Type} (step : S -> S -> list PartitionLeaseGrant -> Prop) (head_at : S -> PartitionLeaseKey -> head).

Inductive steps : S -> S -> list PartitionLeaseGrant -> Prop :=
| steps_nil s : steps s s []
| steps_cons s1 s2 s3 gs gs' : step s1 s2 gs -> steps s2 s3 gs' -> steps s1 s3 (gs ++ gs').

Hypothesis step_advances : forall s s' gs k, step s s' gs -> advances (head_at s k) (head_at s' k).
Hypothesis step_grants : forall s s' gs, step s s' gs ->
  gs = [] \/ exists g, gs = [g] /\ head_at s' (grant_key g) = head_of g.

Lemma steps_advance s s' gs : steps s s' gs ->
  Forall (fun g => advances (head_at s (grant_key g)) (head_of g)) gs.
Proof using step_advances step_grants.
  induction 1 as [|s1 s2 s3 gs gs' Hstep Hsteps IH]; [constructor|]. apply Forall_app. split.
  - destruct (step_grants _ _ _ Hstep) as [->|(g & -> & Hg)]; [constructor|].
    constructor; [|constructor]. rewrite <-Hg. by eapply step_advances.
  - eapply Forall_impl; [exact IH|]. intros g Hg. simpl in Hg. transitivity (head_at s2 (grant_key g)); [|done].
    by eapply step_advances.
Qed.

Lemma steps_fenced s s' gs : steps s s' gs -> fenced gs.
Proof using step_advances step_grants.
  induction 1 as [|s1 s2 s3 gs gs' Hstep Hsteps IH]; [constructor|].
  destruct (step_grants _ _ _ Hstep) as [->|(g & -> & Hg)]; [done|]. constructor; [done|].
  eapply Forall_impl; [by eapply steps_advance|]. intros g' Hg' Hkey. simpl in Hg'.
  rewrite <-Hkey, Hg in Hg'. by apply advances_fences.
Qed.
End fencing.

(** * The in-memory client *)

Module InMemory.

Abbreviation leases := (gmap PartitionLeaseKey PartitionLeaseGrant).

(** The grant for a request: a renewal by the holder, a new epoch after the
    last one expired, or the first epoch. *)
Definition grant_for (state : leases) (request : LeaseAcquireRequest) (expires : Z) :
    result LeaseError PartitionLeaseGrant :=
  match state !! request_key request with
  | Some cur =>
      if expires_at_unix_ms cur >? now_unix_ms request then
        if negb (String.eqb (owner_id cur) (request_owner request)) then Err (Conflict cur)
        else Ok (Grant (request_key request) (request_owner request) (owner_epoch cur) expires)
      else
        owner_epoch ← ok_or (OwnerEpochOverflow cur) (checked_u64 (owner_epoch cur + 1));
        Ok (Grant (request_key request) (request_owner request) owner_epoch expires)
  | None => Ok (Grant (request_key request) (request_owner request) 1 expires)
  end.

Definition acquire (state : leases) (request : LeaseAcquireRequest) :
    result LeaseError PartitionLeaseGrant :=
  _ ← validate_key (request_key request);
  _ ← validate_owner_id (request_owner request);
  _ ← fail_if (ttl_ms request =? 0) (InvalidTtl (ttl_ms request));
  expires ← ok_or (LeaseTimeOverflow (now_unix_ms request) (ttl_ms request))
    (checked_u64 (now_unix_ms request + ttl_ms request));
  grant_for state request expires.

Definition acquire_or_renew (state : leases) (request : LeaseAcquireRequest) :
    leases * result LeaseError PartitionLeaseGrant :=
  match acquire state request with
  | Ok grant => (<[request_key request := grant]> state, Ok grant)
  | Err e => (state, Err e)
  end.

Definition current (state : leases) (key : PartitionLeaseKey) (now : Z) :
    result LeaseError (option PartitionLeaseGrant) :=
  _ ← validate_key key;
  Ok (match state !! key with
      | Some grant => if expires_at_unix_ms grant >? now then Some grant else None
      | None => None
      end).

Definition released (state : leases) (key : PartitionLeaseKey) (owner : string) (epoch now : Z) :
    result LeaseError PartitionLeaseGrant :=
  _ ← validate_key key;
  _ ← validate_owner_id owner;
  match state !! key with
  | Some cur =>
      if expires_at_unix_ms cur <=? now then Err LeaseNotHeld
      else if String.eqb (owner_id cur) owner && (owner_epoch cur =? epoch)
      then Ok (Grant (grant_key cur) (owner_id cur) (owner_epoch cur) now)
      else Err (NotLeaseHolder cur)
  | None => Err LeaseNotHeld
  end.

Definition release (state : leases) (key : PartitionLeaseKey) (owner : string) (epoch now : Z) :
    leases * result LeaseError unit :=
  match released state key owner epoch now with
  | Ok grant => (<[key := grant]> state, Ok tt)
  | Err e => (state, Err e)
  end.

#[export] Instance in_memory_client : PartitionLeaseClient leases := {
  acquire_or_renew := acquire_or_renew; current := current; release := release
}.

Definition head_at (state : leases) (k : PartitionLeaseKey) : head := state !! k ≫= head_of.

Definition step (state state' : leases) (gs : list PartitionLeaseGrant) : Prop :=
  exists c, run_call state c = (state', gs).

Lemma grant_for_head state request expires g : grant_for state request expires = Ok g ->
  grant_key g = request_key request /\ advances (head_at state (request_key request)) (head_of g).
Proof.
  unfold grant_for, head_at. destruct (state !! request_key request) as [cur|]; simpl.
  - destruct (_ >? _).
    + destruct (String.eqb_spec (owner_id cur) (request_owner request)) as [Heq|]; simpl; intros; simplify_res.
      split; [done|]. right. rewrite Heq. auto.
    + intros; simplify_res. split; [done|]. left. range.
  - intros; by simplify_res.
Qed.

Lemma head_at_insert state k g k' : head_at (<[k := g]> state) k' = if decide (k = k') then head_of g else head_at state k'.
Proof.
  unfold head_at. destruct (decide (k = k')) as [->|]; [by rewrite lookup_insert_eq|by rewrite lookup_insert_ne].
Qed.

Lemma step_cases state state' gs : step state state' gs ->
  (state' = state /\ gs = []) \/ exists k g, state' = <[k := g]> state /\
    advances (head_at state k) (head_of g) /\ (gs = [] \/ gs = [g] /\ grant_key g = k).
Proof.
  intros [[request|k owner epoch now] Hrun]; simpl in Hrun.
  - unfold acquire_or_renew, acquire in Hrun.
    destruct (_ ≫= _) as [g|e] eqn:Hg; [|simplify_eq/=; by left].
    simplify_eq. right. simplify_res. destruct (grant_for_head _ _ _ _ Hg) as [Hk Hadv]. eauto 8.
  - unfold release, released in Hrun.
    destruct (_ ≫= _) as [g|e] eqn:Hg; [|simplify_eq/=; by left].
    simplify_eq. right. simplify_res. exists k, g. split; [done|]. split; [|by left]. unfold head_at.
    destruct (state !! k) as [cur|]; [|done]. repeat case_match; simplify_res. right. auto.
Qed.

Lemma run_calls_steps state cs : steps step state (run_calls state cs).1 (run_calls state cs).2.
Proof.
  revert state. induction cs as [|c cs IH]; intros state; simpl; [constructor|].
  destruct (run_call state c) as [state1 gs] eqn:Hc. specialize (IH state1).
  destruct (run_calls state1 cs) as [state2 gs']. simpl in *. econstructor; [|done]. by exists c.
Qed.

(** Epochs are fencing tokens: whatever acquire, renew and release calls are
    made, by any owners and with any clocks, the epochs granted for a key never
    decrease and two grants with the same epoch have the same owner. *)
Theorem in_memory_leases_fenced state cs : fenced (run_calls state cs).2.
Proof.
  eapply (steps_fenced step head_at); [..|apply run_calls_steps].
  - intros s s' gs k [[-> ->]|(k' & g & -> & Hadv & _)]%step_cases; [done|].
    rewrite head_at_insert. by destruct (decide (k' = k)) as [<-|].
  - intros s s' gs [[-> ->]|(k & g & -> & _ & [->|[-> <-]])]%step_cases; [by left|by left|].
    right. exists g. split; [done|]. rewrite head_at_insert. by destruct (decide _).
Qed.

(** The calls that are not the holder's, made before the lease expires. *)
Definition foreign (g : PartitionLeaseGrant) (c : call) : bool :=
  match c with
  | CallAcquire request => negb (bool_decide (request_key request = grant_key g)) ||
      negb (String.eqb (owner_id g) (request_owner request)) && (now_unix_ms request <? expires_at_unix_ms g)
  | CallRelease key owner epoch now => negb (bool_decide (key = grant_key g)) ||
      negb (String.eqb (owner_id g) owner && (owner_epoch g =? epoch))
  end.

Lemma foreign_call state g c : state !! grant_key g = Some g -> foreign g c = true ->
  (run_call state c).1 !! grant_key g = Some g /\ Forall (fun g' => grant_key g' <> grant_key g) (run_call state c).2.
Proof.
  intros Hg Hc. destruct c as [request|k owner epoch now]; simpl in *.
  - unfold acquire_or_renew, acquire. destruct (_ ≫= _) as [g'|e] eqn:Hg'; simpl; [|done]. simplify_res.
    destruct (bool_decide_reflect (request_key request = grant_key g)) as [Heq|Hne]; simpl in Hc.
    + unfold grant_for in Hg'. rewrite Heq, Hg in Hg'. apply andb_true_iff in Hc as [Ho Ht].
      rewrite Z.gtb_ltb, Ht in Hg'. by rewrite Ho in Hg'.
    + rewrite lookup_insert_ne by done. split; [done|]. constructor; [|constructor].
      destruct (grant_for_head _ _ _ _ Hg') as [-> _]. done.
  - unfold release, released. destruct (_ ≫= _) as [g'|e] eqn:Hg'; simpl; [|done]. simplify_res.
    destruct (bool_decide_reflect (k = grant_key g)) as [->|Hne]; simpl in Hc.
    + rewrite Hg in Hg'. case_match; [done|]. apply negb_true_iff in Hc. by rewrite Hc in Hg'.
    + by rewrite lookup_insert_ne.
Qed.

(** A lease is exclusive until it expires: after a grant, as long as every
    call of another owner carries a time before the expiry and the holder
    neither renews nor releases, nobody else is granted the key and every
    earlier-clocked read returns the grant. *)
Theorem in_memory_lease_exclusive state request g cs now :
  acquire state request = Ok g -> forallb (foreign g) cs = true -> now < expires_at_unix_ms g ->
  let '(state', gs) := run_calls (acquire_or_renew state request).1 cs in
  Forall (fun g' => grant_key g' <> grant_key g) gs /\ current state' (grant_key g) now = Ok (Some g).
Proof.
  intros Hacq Hcs Hnow. assert (Hkey : grant_key g = request_key request /\ validate_key (request_key request) = Ok tt).
  { unfold acquire in Hacq. simplify_res. destruct (grant_for_head _ _ _ _ Hacq) as [-> _].
    split; [done|]. by destruct x. }
  destruct Hkey as [Hkey Hvalid]. unfold acquire_or_renew. rewrite Hacq, <-Hkey. simpl.
  assert (Hst : <[grant_key g := g]> state !! grant_key g = Some g) by apply lookup_insert_eq.
  revert Hst Hcs. generalize (<[grant_key g := g]> state). clear Hacq. induction cs as [|c cs IH]; intros s Hs Hcs.
  - simpl. split; [constructor|]. unfold current. rewrite Hkey, Hvalid, <-Hkey. simpl. rewrite Hs.
    by rewrite Z.gtb_ltb, (proj2 (Z.ltb_lt _ _) Hnow).
  - simpl in Hcs. apply andb_true_iff in Hcs as [Hc Hcs]. destruct (foreign_call s g c Hs Hc) as [Hs' Hgs].
    simpl. destruct (run_call s c) as [s1 gs]. simpl in *. specialize (IH s1 Hs' Hcs).
    destruct (run_calls s1 cs) as [s2 gs']. destruct IH as [IH1 IH2]. split; [by apply Forall_app|done].
Qed.

Definition demo_key : PartitionLeaseKey := LeaseKey "ns" "view" "stream" 3.
Definition demo_grant : PartitionLeaseGrant := Grant demo_key "worker-a" 1 1500.
Definition demo_calls : list call :=
  [CallAcquire (Acquire demo_key "worker-b" 1200 500); CallRelease demo_key "worker-b" 1 1300].

Lemma in_memory_lease_exclusive_witness :
  let '(state', gs) := run_calls (acquire_or_renew ∅ (Acquire demo_key "worker-a" 1000 500)).1 demo_calls in
  Forall (fun g' => grant_key g' <> grant_key demo_grant) gs /\
  current state' (grant_key demo_grant) 1400 = Ok (Some demo_grant).
Proof.
  apply (in_memory_lease_exclusive ∅ (Acquire demo_key "worker-a" 1000 500) demo_grant demo_calls 1400);
    reflexivity.
Defined.
End InMemory.
