(* ===== verification/LeasedCheckpoint.v ===== *)
(** The leased checkpoint publisher, [velorix-control/src/leased_checkpoint.rs],
    and the ownership epoch records that [velorix-k8s/src/lease.rs] persists for
    a grant. *)
From stdpp Require Import sorting.
From S2P Require Import Prelude BTree Json Digits Segments ObjectKey Hash ObjectKeyProofs Manifest Lease ObjectStore CheckpointIndex Publisher.

Record LeasedCheckpointPublisher := Leased { production_authority_validated : bool }.

Inductive LeasedCheckpointError :=
| ExpiredGrant (expires_at_unix_ms now_unix_ms : Z)
| LeasedManifest (error : ManifestError)
| MultiPartitionManifest (partitions : list Z)
| PartitionMismatch (kind object_id : string) (expected actual : Z)
| InputStreamMismatch (expected actual : string)
| LeasedStateClaimMismatch (key : ObjectKey) (expected : PartitionOwnerClaim) (actual : option PartitionOwnerClaim)
| LeasedOutputClaimMismatch (key : ObjectKey) (expected : PartitionOwnerClaim) (actual : option PartitionOwnerClaim)
| StateRefsMismatch (expected actual : list StateObjectRef)
| OutputRefsMismatch (expected actual : list OutputObjectRef)
| MissingProductionAuthorityEvidence
| LeasedPublish (error : CheckpointPublishError).

(** [PartitionOwnerClaim::from(grant)]. *)
Definition grant_claim (g : PartitionLeaseGrant) : PartitionOwnerClaim :=
  OwnerClaim (owner_id g) (owner_epoch g).

Definition grant_partition (g : PartitionLeaseGrant) : Z := partition_id (grant_key g).
Definition grant_stream (g : PartitionLeaseGrant) : string := stream_id (grant_key g).

Definition validate_grant_unexpired (g : PartitionLeaseGrant) (now_unix_ms : Z) : result LeasedCheckpointError unit :=
  fail_if (expires_at_unix_ms g <=? now_unix_ms) (ExpiredGrant (expires_at_unix_ms g) now_unix_ms).

(** [Vec::dedup]: runs of equal elements become one. *)
Fixpoint dedup (l : list Z) : list Z :=
  match l with
  | x :: (y :: _) as rest => if x =? y then dedup rest else x :: dedup rest
  | l => l
  end.

Definition manifest_partitions (m : CheckpointManifest) : list Z :=
  (in_partition_id <$> input_ranges m) ++ (sr_partition_id <$> state_objects m) ++
  (or_partition_id <$> output_objects m).

Definition validate_single_grant_partition (g : PartitionLeaseGrant) (m : CheckpointManifest) :
    result LeasedCheckpointError unit :=
  let partitions := dedup (merge_sort Z.le (manifest_partitions m)) in
  _ ← fail_if (1 <? length partitions)%nat (MultiPartitionManifest partitions);
  match partitions with
  | actual :: _ =>
      fail_if (negb (actual =? grant_partition g))
        (PartitionMismatch "manifest" (nat_to_string (checkpoint_version m)) (grant_partition g) actual)
  | [] => Ok tt
  end.

Definition validate_input_stream (g : PartitionLeaseGrant) (m : CheckpointManifest) :
    result LeasedCheckpointError unit :=
  try_fold (fun _ r =>
    fail_if (negb (String.eqb (in_stream_id r) (grant_stream g)))
      (InputStreamMismatch (grant_stream g) (in_stream_id r))) tt (input_ranges m).

Definition validate_state_writes (g : PartitionLeaseGrant) (owner_claim : PartitionOwnerClaim)
    (state_objects : list StateObjectWrite) : result LeasedCheckpointError unit :=
  try_fold (fun _ w =>
    _ ← fail_if (negb (sw_partition_id w =? grant_partition g))
      (PartitionMismatch "state" (sw_object_id w) (grant_partition g) (sw_partition_id w));
    fail_if (bool_decide (sw_owner_claim w <> Some owner_claim))
      (LeasedStateClaimMismatch (sw_object_key w) owner_claim (sw_owner_claim w))) tt state_objects.

Definition validate_output_writes (g : PartitionLeaseGrant) (owner_claim : PartitionOwnerClaim)
    (output_objects : list OutputObjectWrite) : result LeasedCheckpointError unit :=
  try_fold (fun _ w =>
    _ ← fail_if (negb (ow_partition_id w =? grant_partition g))
      (PartitionMismatch "output" (ow_object_id w) (grant_partition g) (ow_partition_id w));
    fail_if (bool_decide (ow_owner_claim w <> Some owner_claim))
      (LeasedOutputClaimMismatch (ow_object_key w) owner_claim (ow_owner_claim w))) tt output_objects.

Definition validate_manifest_refs_match_writes (m : CheckpointManifest)
    (states : list StateObjectWrite) (outputs : list OutputObjectWrite) : result LeasedCheckpointError unit :=
  let expected_state_refs := state_object_ref <$> states in
  let expected_output_refs := output_object_ref <$> outputs in
  _ ← fail_if (bool_decide (state_objects m <> expected_state_refs))
    (StateRefsMismatch expected_state_refs (state_objects m));
  fail_if (bool_decide (output_objects m <> expected_output_refs))
    (OutputRefsMismatch expected_output_refs (output_objects m)).

(** The checks of [publish] and [publish_production] before the first request. *)
Definition validate_leased_request (g : PartitionLeaseGrant) (now_unix_ms : Z)
    (states : list StateObjectWrite) (outputs : list OutputObjectWrite) (m : CheckpointManifest) :
    result LeasedCheckpointError unit :=
  _ ← validate_grant_unexpired g now_unix_ms;
  _ ← map_err LeasedManifest (validate m);
  let owner_claim := grant_claim g in
  _ ← validate_single_grant_partition g m;
  _ ← validate_input_stream g m;
  _ ← validate_state_writes g owner_claim states;
  _ ← validate_output_writes g owner_claim outputs;
  validate_manifest_refs_match_writes m states outputs.

Section leased.
Context `{Sha256, CheckpointCodec}.

(** [.await?] on a call of the publisher. *)
Definition leased {A} (p : publishing A) : prog (result LeasedCheckpointError A) :=
  bind p (fun r => Ret (map_err LeasedPublish r)).

Definition publish (g : PartitionLeaseGrant) (now_unix_ms : Z)
    (states : list StateObjectWrite) (outputs : list OutputObjectWrite) (m : CheckpointManifest) :
    prog (result LeasedCheckpointError unit) :=
  _ ←! Ret (validate_leased_request g now_unix_ms states outputs m);
  let owner_claim := grant_claim g in
  _ ←! leased (preflight_manifest_publication m);
  _ ←! for_each (fun w => _ ←! leased (write_state_object_fenced w owner_claim); Ret (Ok tt)) states;
  _ ←! for_each (fun w => _ ←! leased (write_output_object_fenced w owner_claim); Ret (Ok tt)) outputs;
  leased (publish_manifest_fenced m owner_claim).

(** The manifest with the state references the writes returned. *)
Definition with_state_objects (m : CheckpointManifest) (refs : list StateObjectRef) : CheckpointManifest :=
  Manifest (schema_version m) (checkpoint_version m) (input_ranges m) refs (output_objects m)
    (parent_checkpoint m) (created_at m) (relation_id m) (relation_version m) (schema_fingerprint m).

Definition publish_production (publisher : LeasedCheckpointPublisher) (g : PartitionLeaseGrant) (now_unix_ms : Z)
    (states : list StateObjectWrite) (outputs : list OutputObjectWrite) (m : CheckpointManifest) :
    prog (result LeasedCheckpointError unit) :=
  _ ←! Ret (fail_if (negb (production_authority_validated publisher)) MissingProductionAuthorityEvidence);
  _ ←! Ret (validate_leased_request g now_unix_ms states outputs m);
  let owner_claim := grant_claim g in
  _ ←! leased (preflight_manifest_publication m);
  produced_state_refs ←! collect (fun w =>
    leased (write_state_object_fenced_production w (grant_stream g) owner_claim)) states;
  _ ←! for_each (fun w =>
    _ ←! leased (write_output_object_fenced_production w owner_claim); Ret (Ok tt)) outputs;
  let published_manifest := with_state_objects m produced_state_refs in
  leased (publish_manifest_fenced_production published_manifest owner_claim).

(** * Records of grants *)

Definition ownership_epoch_record_from_grant (g : PartitionLeaseGrant) (lease_identity created_at : string)
    (previous_checkpoint_version : option Z) : OwnershipEpochRecord :=
  EpochRecord (grant_stream g) (grant_partition g) (owner_id g) (owner_epoch g) lease_identity created_at
    (if 1 <=? owner_epoch g then Some (owner_epoch g - 1) else None) previous_checkpoint_version.

Definition persist_ownership_epoch_record_from_grant (g : PartitionLeaseGrant) (lease_identity created_at : string)
    (previous_checkpoint_version : option Z) : publishing ObjectKey :=
  create_ownership_epoch_record
    (ownership_epoch_record_from_grant g lease_identity created_at previous_checkpoint_version).

End leased.
