(* ===== verification/Checkpoints.v ===== *)
(** Theorems about checkpoints: the history that any number of concurrent
    publishers build, what a superseded owner can still write, and what the
    readers of the history see. *)
From stdpp Require Import sorting.
From S2P Require Import Prelude BTree Json Digits Segments ObjectKey Hash ObjectKeyProofs Manifest Lease ObjectStore CheckpointIndex Publisher CheckpointAdmin PublisherProofs CheckpointAdminProofs LeasedCheckpoint.

Abbreviation refuses p := (ensures evolves quiet p (fun _ _ => False)).

Section checkpoints.
Context `{Sha256, CheckpointCodecLaws}.

(** * The leased publisher under interference *)

Lemma respects_leased {A} (p : publishing A) o : wp evolves keeps p (fun _ _ => True) o ->
  wp evolves keeps (leased p) (fun _ _ => True) o.
Proof. intros Hp. by apply respects_bind. Qed.

Lemma respects_each {E A} (f : A -> prog (result E unit)) (l : list A) o :
  (forall x o', x ∈ l -> evolves o o' -> wp evolves keeps (f x) (fun _ _ => True) o') ->
  wp evolves keeps (for_each f l) (fun _ _ => True) o.
Proof.
  intros Hf. eapply wp_mono; [|apply (wp_for_each evolves keeps keeps_evolves keeps_read f (fun _ _ => True))]; [done..|].
  intros x o' Hx Ho'. eapply wp_mono; [|by apply Hf]. done.
Qed.

(** What a request of the leased publisher can be made of. *)
Record request_typed (states : list StateObjectWrite) (outputs : list OutputObjectWrite) (m : CheckpointManifest) : Prop := {
  request_manifest : typed_manifest m;
  request_states : Forall state_write_ok states;
  request_outputs : Forall output_write_ok outputs
}.

Lemma respects_leased_publish g now states outputs m o : request_typed states outputs m ->
  wp evolves keeps (publish g now states outputs m) (fun _ _ => True) o.
Proof.
  intros [Hm Hs Ho]. rewrite Forall_forall in Hs. rewrite Forall_forall in Ho. unfold publish. apply respects_lift. intros [] _.
  apply respects_then; [by apply respects_leased, respects_read_only, read_only_preflight|]. intros [] o1 _.
  apply respects_then; [apply respects_each|].
  { intros w o2 Hw _. apply respects_then; [|done]. by apply respects_leased, respects_write_state_fenced, Hs. }
  intros [] o2 _. apply respects_then; [apply respects_each|].
  { intros w o3 Hw _. apply respects_then; [|done]. by apply respects_leased, respects_write_output_fenced, Ho. }
  intros [] o3 _. apply respects_leased. by eapply respects_ensures, establishes_publish_fenced.
Qed.

(** A state write returns the reference it was asked for. *)
Lemma establishes_state_ref w stream claim o : state_write_ok w ->
  ensures evolves keeps (leased (write_state_object_fenced_production w stream claim))
    (fun ref _ => ref = state_object_ref w) o.
Proof.
  intros Hw. assert (ensures evolves keeps (write_state_object_fenced_production w stream claim)
    (fun ref _ => ref = state_object_ref w) o) as Hp.
  { apply establishes_lift. intros [] _. eapply establishes_then with (P := fun _ _ => True).
    - eapply wp_mono; [|apply respects_read_only, read_only_production]. done.
    - intros [] o1 _ _. apply wp_bind. eapply wp_mono; [|apply respects_put].
      + intros r o2 _ ref. destruct r as [|[]]; by intros [= <-].
      + intros v Hv. destruct (state_write_located w Hw) as (a & ? & ?). by eapply payload_not_manifest. }
  apply wp_bind. eapply wp_mono; [|exact Hp]. intros [ref|e] o' Href ref'; [|done]. intros [= <-]. by apply Href.
Qed.

Lemma validate_leased_request_refs g now states outputs m :
  validate_leased_request g now states outputs m = Ok tt ->
  valid m /\ state_objects m = state_object_ref <$> states /\
  Forall (fun w => sw_partition_id w = grant_partition g) states.
Proof.
  unfold validate_leased_request, validate_manifest_refs_match_writes, validate_state_writes.
  rewrite !bind_unit, map_err_ok, validate_valid, try_fold_unit, !fail_unless.
  intros (_ & Hv & _ & _ & Hs & _ & Hrefs & _). split_and!; [done..|].
  eapply Forall_impl; [exact Hs|]. intros w. rewrite bind_unit, fail_if_ok. intros [Hp _].
  by apply Z.eqb_eq, negb_false_iff.
Qed.

Lemma with_state_objects_self m : with_state_objects m (state_objects m) = m.
Proof. by destruct m. Qed.

Lemma respects_leased_production publisher g now states outputs m o : request_typed states outputs m ->
  wp evolves keeps (publish_production publisher g now states outputs m) (fun _ _ => True) o.
Proof.
  intros [Hm Hs Ho]. rewrite Forall_forall in Hs. rewrite Forall_forall in Ho. unfold publish_production.
  apply respects_lift. intros [] _. apply respects_lift. intros [] Hreq.
  apply validate_leased_request_refs in Hreq as (_ & Hrefs & _).
  apply respects_then; [by apply respects_leased, respects_read_only, read_only_preflight|]. intros [] o1 _.
  apply wp_and_then. eapply wp_mono; [|apply (wp_collect evolves keeps keeps_evolves keeps_read _
    (fun w ref _ => ref = state_object_ref w))]; [|done|].
  2: { intros w o2 Hw _. eapply wp_mono; [|apply establishes_state_ref, Hs, Hw]. auto. }
  intros [refs|e] o2 Hrefs2; [|done]. specialize (Hrefs2 refs eq_refl).
  assert (refs = state_objects m) as ->.
  { rewrite Hrefs. clear -Hrefs2. induction Hrefs2 as [|w ref ws refs -> _ IH]; [done|]. by rewrite IH, fmap_cons. }
  rewrite with_state_objects_self. apply respects_then; [apply respects_each|].
  { intros w o3 Hw _. apply respects_then; [|done]. by apply respects_leased, respects_write_output_production, Ho. }
  intros [] o3 _. apply respects_leased. by eapply respects_ensures, establishes_publish_production.
Qed.

(** * Any number of publishers *)

Definition ignore {A} (p : prog A) : prog unit := bind p (fun _ => Ret tt).

(** The calls a process can make on the publisher and the leased publisher. *)
Inductive publisher_call : prog unit -> Prop :=
| call_write_state w : state_write_ok w -> publisher_call (ignore (write_state_object w))
| call_write_output w : output_write_ok w -> publisher_call (ignore (write_output_object w))
| call_write_state_fenced w claim : state_write_ok w ->
    publisher_call (ignore (write_state_object_fenced w claim))
| call_write_output_fenced w claim : output_write_ok w ->
    publisher_call (ignore (write_output_object_fenced w claim))
| call_write_state_production w stream claim : state_write_ok w ->
    publisher_call (ignore (write_state_object_fenced_production w stream claim))
| call_write_output_production w claim : output_write_ok w ->
    publisher_call (ignore (write_output_object_fenced_production w claim))
| call_publish m : typed_manifest m -> publisher_call (ignore (publish_manifest m))
| call_publish_fenced m claim : typed_manifest m -> publisher_call (ignore (publish_manifest_fenced m claim))
| call_publish_production m claim : typed_manifest m ->
    publisher_call (ignore (publish_manifest_fenced_production m claim))
| call_create_record r : typed_record r -> publisher_call (ignore (create_ownership_epoch_record r))
| call_leased g now states outputs m : request_typed states outputs m ->
    publisher_call (ignore (publish g now states outputs m))
| call_leased_production publisher g now states outputs m : request_typed states outputs m ->
    publisher_call (ignore (publish_production publisher g now states outputs m))
| call_list : publisher_call (ignore list_published_manifests)
| call_latest : publisher_call (ignore latest_manifest)
| call_plan policy : publisher_call (ignore (plan_garbage_collection policy))
| call_inspect : publisher_call (ignore inspect_checkpoints)
| call_write_recovery v id mode n k : is_u64 v = true -> is_u64 n = true -> is_u64 k = true ->
    publisher_call (ignore (write_checkpoint_recovery_transition_record_with_id v id mode n k))
| call_repair_marker : publisher_call (ignore repair_latest_candidate_marker)
| call_repair_lifecycle : publisher_call (ignore repair_checkpoint_lifecycle_records)
| call_repair : publisher_call (ignore repair_checkpoint_admin_records).

Lemma respects_call p o : publisher_call p -> wp evolves keeps p (fun _ _ => True) o.
Proof.
  destruct 1; (apply respects_bind; [|done]);
    try (apply respects_read_only; first [apply read_only_published|apply read_only_latest|apply read_only_plan]).
  - by apply respects_write_state.
  - by apply respects_write_output.
  - by apply respects_write_state_fenced.
  - by apply respects_write_output_fenced.
  - by apply respects_write_state_production.
  - by apply respects_write_output_production.
  - by eapply respects_ensures, establishes_publish.
  - by eapply respects_ensures, establishes_publish_fenced.
  - by eapply respects_ensures, establishes_publish_production.
  - by apply respects_create_record.
  - by apply respects_leased_publish.
  - by apply respects_leased_production.
  - by eapply respects_ensures, establishes_inspection.
  - by eapply respects_ensures, establishes_write_recovery.
  - apply respects_repair_marker.
  - apply respects_repair_lifecycle.
  - apply respects_repair.
Qed.

Context `{ObjectStoreLaws}.

Lemma publishers_evolve s s1 ps1 s2 ps2 :
  steps_to publisher_call (s, []) (s1, ps1) -> steps_to publisher_call (s1, ps1) (s2, ps2) ->
  evolves (content s) (content s1) /\ evolves (content s1) (content s2).
Proof.
  intros H01 H12.
  destruct (steps_wp publisher_call evolves keeps s [] s1 ps1) as [Hev1 Hps1]; [done|by intros; apply respects_call|done|done|].
  destruct (steps_wp publisher_call evolves keeps s1 ps1 s2 ps2) as [Hev2 _]; [done|by intros; apply respects_call|done|done|].
  done.
Qed.

(** C3: Any number of publishers run, interleaved at every request and crashing at
    will, on a store whose manifests form a chain, such as an empty one. When a
    manifest is published it stays published, and from then on every version up
    to it is published too, each valid, with all the objects it refers to, and
    with input progress that the manifest covers. *)
Theorem checkpoint_history s s1 ps1 s2 ps2 m w :
  chain (content s) ->
  steps_to publisher_call (s, []) (s1, ps1) -> steps_to publisher_call (s1, ps1) (s2, ps2) ->
  published (content s1) m -> 0 <= w <= checkpoint_version m ->
  published (content s2) m /\
  exists m', published (content s2) m' /\ checkpoint_version m' = w /\
    valid m' /\ has_objects (content s2) m' /\ progresses m' m.
Proof.
  intros Hc H01 H12 Hm Hw. destruct (publishers_evolve _ _ _ _ _ H01 H12) as [[Hg1 Hc1] [Hg2 Hc2]].
  pose proof (published_grows _ _ _ Hg2 Hm) as Hm2. split; [done|].
  destruct (chain_history (content s2) m w) as (m' & Hm' & Hver & Hprog); [by auto|done|done|].
  destruct (published_sound (content s2) m') as [Hv _ Ho _]; [by auto|done|]. eauto 6.
Qed.

(** * Superseded owners *)

Lemma refuses_leased {A} (p : publishing A) o : refuses p o -> refuses (leased p) o.
Proof. intros Hp. apply wp_bind. eapply wp_mono; [|exact Hp]. intros [a|e] o' Hr b; [by destruct (Hr a)|done]. Qed.

Lemma refuses_production stream p claim r o : recorded o stream p r ->
  is_current_claim_newer_or_conflicting (record_claim r) claim = true ->
  refuses (validate_production_owner_claim_current stream p claim) o.
Proof.
  intros Hrec Hn. apply refuses_after; [apply read_only_matching|]. intros [] o1 Hev1.
  apply refuses_after; [apply read_only_claim_current|]. intros [] o2 Hev2.
  eapply (ensures_mono evolves quiet); [apply quiet_evolves|apply quiet_read| |].
  - apply (shows_no_newer quiet quiet_evolves quiet_read). eapply recorded_grows; [|exact Hrec].
    by etransitivity; apply evolves_grows.
  - intros [] o3 _ Hf. congruence.
Qed.

Lemma refuses_publish_production publisher g now states outputs m r o :
  recorded o (grant_stream g) (grant_partition g) r ->
  is_current_claim_newer_or_conflicting (record_claim r) (grant_claim g) = true ->
  refuses (publish_production publisher g now states outputs m) o.
Proof.
  intros Hrec Hn. apply refuses_lift. intros [] _. apply refuses_lift. intros [] Hreq.
  apply validate_leased_request_refs in Hreq as (Hv & Hrefs & Hparts).
  apply refuses_after.
  { apply read_only_bind; [apply read_only_preflight|done]. }
  intros [] o1 Hev1. destruct states as [|w states]; [by destruct (valid_states m Hv)|].
  apply Forall_cons in Hparts as [Hp _]. do 2 apply refuses_then. apply refuses_leased.
  apply refuses_lift. intros [] _. apply refuses_then. rewrite Hp. eapply refuses_production; [|exact Hn].
  by eapply recorded_grows; [apply evolves_grows|].
Qed.

Lemma establishes_create_record r o : typed_record r ->
  ensures evolves keeps (create_ownership_epoch_record r)
    (fun _ o' => recorded o' (er_stream_id r) (er_partition_id r) r) o.
Proof.
  intros Ht. apply establishes_lift. intros [] _. apply establishes_lift. intros key Hk%map_err_ok.
  apply establishes_lift. intros body Hbody%ok_or_ok. apply wp_bind.
  pose proof (record_located r key Ht Hk) as Hloc. pose proof (record_round_trip r body Ht Hbody) as Hrt.
  intros o1 a o2 _ Hans.
  assert (forall v, is_u64 v = true -> as_str key <> manifest_location v) as Hne.
  { intros v Hv. eapply located_ne; [exact Hloc|by apply located_manifest|done]. }
  assert (keeps o1 (PutCreate (as_str key) body) o2 /\ (a = Ok tt -> o2 !! as_str key = Some body)) as [Hk2 Ha].
  { destruct (respects_put (as_str key) body o1 Hne o1 a o2 ltac:(reflexivity) Hans) as [HG _]. split; [done|].
    intros ->. destruct Hans as [_ ->]. apply lookup_insert_eq. }
  split; [done|]. cbn [wp]. destruct a as [[]|e].
  - intros key' _. exists key, body. destruct Ht. split_and!; auto.
  - destruct e; try done. eapply establishes_then.
    { apply (shows_record keeps keeps_evolves keeps_read). }
    intros existing o3 _ (body' & Hl & Hr) key'. destruct (decide (existing = r)) as [->|]; [|done].
    intros _. exists key, body'. destruct Ht. split_and!; auto.
Qed.

(** What other publishers may do between two requests. *)
Definition interference (s s' : store) : Prop := evolves (content s) (content s').

Lemma exec_records record s trace key s' : typed_record record ->
  exec interference (create_ownership_epoch_record record) s trace (Ok key) s' ->
  recorded (content s') (er_stream_id record) (er_partition_id record) record.
Proof.
  intros Ht Hex. eapply (exec_ensures evolves keeps) in Hex as [Hrec _];
    [exact Hrec|done|done| |by apply establishes_create_record].
  intros k o o' Hev. by apply recorded_grows, evolves_grows.
Qed.

Lemma exec_refuses {E A} (p : prog (result E A)) s trace r s' :
  refuses p (content s) -> exec interference p s trace r s' ->
  (exists e, r = Err e) /\ Forall (fun c => writes c = false) trace.
Proof.
  intros Hp Hex. 
  eapply (exec_wp evolves quiet _ _ (fun r _ => forall a, r = Ok a -> False)) in Hex as (Hr & _ & Htr);
    [|exact quiet_evolves|done|by intros ????|exact Hp]. split.
  - destruct r as [a|e]; [by destruct (Hr a)|eauto].
  - eapply Forall_impl; [exact Htr|]. by intros c (o & o' & ? & _).
Qed.

(** C13: When the ownership record of a grant has been persisted, a publisher that
    still holds an earlier grant of the partition, whatever its clock says, gets
    an error from [publish_production] and writes nothing at all: no state, no
    output and no manifest. *)
Theorem superseded_grant_writes_nothing publisher g_old g_new identity created previous key
    now states outputs m s trace1 s1 trace2 r s2 :
  grant_key g_old = grant_key g_new -> owner_epoch g_old < owner_epoch g_new ->
  is_u32 (grant_partition g_new) = true -> is_u64 (owner_epoch g_new) = true ->
  exec interference (persist_ownership_epoch_record_from_grant g_new identity created previous) s trace1 (Ok key) s1 ->
  exec interference (publish_production publisher g_old now states outputs m) s1 trace2 r s2 ->
  (exists e, r = Err e) /\ Forall (fun c => writes c = false) trace2.
Proof.
  intros Hkey Hlt Hp He Hpersist Hpublish.
  set (record := ownership_epoch_record_from_grant g_new identity created previous).
  assert (recorded (content s1) (grant_stream g_old) (grant_partition g_old) record) as Hrec.
  { unfold grant_stream, grant_partition in *. rewrite Hkey. eapply (exec_records record); [done|exact Hpersist]. }
  assert (is_current_claim_newer_or_conflicting (record_claim record) (grant_claim g_old) = true) as Hn.
  { apply orb_true_intro. left. by apply Z.ltb_lt. }
  eapply exec_refuses; [|exact Hpublish]. by eapply refuses_publish_production.
Qed.

(** When a published manifest refers to a partition under a claim that supersedes
    or contradicts the attempted one, [publish_manifest_fenced] with state of that
    partition ends in an error and writes nothing. *)
Theorem superseded_claim_not_published s m_new p current m claim trace r s' :
  published (content s) m_new -> (p, Some current) ∈ references m_new ->
  is_current_claim_newer_or_conflicting current claim = true -> p ∈ sr_partition_id <$> state_objects m ->
  exec interference (publish_manifest_fenced m claim) s trace r s' ->
  (exists e, r = Err e) /\ Forall (fun c => writes c = false) trace.
Proof.
  intros Hpub Href Hn Hp. apply exec_refuses. do 3 (apply refuses_lift; intros [] _). apply refuses_then.
  eapply (ensures_mono evolves quiet); [apply quiet_evolves|apply quiet_read| |].
  - apply (shows_claim_current quiet quiet_evolves quiet_read).
  - intros [] o' _ Hc. apply (Hc m_new (p, Some current) Hpub Href). exists p, current.
    split_and!; [done| |done]. by apply elem_of_list_to_set.
Qed.

(** * The latest manifest *)

Lemma published_known_key o key m body : key = manifest_key m -> o !! as_str key = Some body ->
  manifest_from_slice body = Some m -> published o m.
Proof. intros -> Hl Hm. by exists body. Qed.

Lemma establishes_no_future key o :
  ensures evolves keeps (future_checkpoint_manifest_exists key)
    (fun future _ => future = false -> forall l, is_Some (o !! l) -> under CHECKPOINT_PREFIX l = true ->
      ~ replaceable l -> cmp (as_str key) l <> Lt) o.
Proof.
  apply wp_bind. apply (wp_read evolves keeps keeps_evolves keeps_read); [done|]. intros r o1 Hev [_ Hr] future.
  destruct r as [ls|e]; [|done]. intros [= <-]. destruct ls as [|l0 ls]; [|done]. intros _ l [body Hl] Hu Hne Hlt.
  destruct Hr as [_ Hr]. apply (not_elem_of_nil l), Hr. split_and!; [|done..].
  exists body. by apply (evolves_grows _ _ Hev).
Qed.

(** The newest of the manifests published before: published itself, with its
    objects. *)
Definition newest (o o' : objects) (m : CheckpointManifest) : Prop :=
  published o' m /\ has_objects o' m /\
  forall m', published o m' -> checkpoint_version m' <= checkpoint_version m.

Lemma newest_evolves o o1 o2 m : valid m -> evolves o1 o2 -> newest o o1 m -> newest o o2 m.
Proof.
  intros Hv Hev (Hm & Ho & Hn). split_and!; [|eapply has_objects_grows; [done|by eapply published_typed| |done]|done].
  - by eapply published_grows; [apply evolves_grows|].
  - by apply evolves_grows.
Qed.

Lemma establishes_objects {B} (k : publishing B) m Q o : valid m -> typed_manifest m ->
  (forall o', evolves o o' -> has_objects o' m -> ensures evolves keeps k Q o') ->
  ensures evolves keeps (_ ←! validate_state_objects_exist m; _ ←! validate_output_objects_exist m; k) Q o.
Proof.
  intros Hv Ht Hf. eapply establishes_then; [by apply establishes_states_exist|]. intros [] o1 Hev1 Hs.
  eapply establishes_then; [by apply establishes_outputs_exist|]. intros [] o2 Hev2 Ho.
  apply Hf; [by etransitivity|]. apply has_objects_of; [|done]. intros s Hin. eapply object_there_evolves; eauto.
Qed.

Lemma establishes_marked o :
  ensures evolves keeps try_latest_manifest_from_candidate_marker
    (fun r o' => forall m, r = Some m -> valid m /\ newest o o' m) o.
Proof.
  apply wp_bind. apply (wp_read evolves keeps keeps_evolves keeps_read); [done|]. intros [mb|e] o1 Hev1 _; [|by destruct e; intros ? [= <-]].
  apply establishes_lift. intros marker _. destruct (negb _); [by intros ? [= <-]|].
  case_bool_decide as Hkey; [by intros ? [= <-]|]. eapply establishes_then; [apply establishes_fetch|].
  intros body o2 Hev2 Hbody. destruct (negb _); [by intros ? [= <-]|].
  apply establishes_lift. intros m Hm%ok_or_ok. apply establishes_lift. intros [] Hv%map_err_ok%validate_valid.
  case_bool_decide as Hmk; [by intros ? [= <-]|]. case_bool_decide; [by intros ? [= <-]|].
  assert (published o2 m) as Hpub by exact (published_known_key _ _ _ _ Hmk Hbody Hm).
  pose proof (published_typed _ _ Hpub) as Ht.
  eapply establishes_then; [by apply establishes_parent_visible|]. intros [] o3 Hev3 _.
  apply establishes_objects; [done..|]. intros o4 Hev4 Ho.
  eapply establishes_then; [apply establishes_no_future|]. intros future o5 Hev5 Hf r [= <-] m0 [= Hm0].
  destruct future; [done|]. injection Hm0 as <-. split; [done|].
  assert (evolves o2 o4) as Hev24 by by transitivity o3.
  eapply newest_evolves; [done|exact Hev5|]. split_and!; [|done|].
  { by eapply published_grows; [apply evolves_grows|exact Hpub]. }
  intros m' Hm'. assert (published o4 m') as (body' & Hl' & _).
  { eapply published_grows; [apply evolves_grows|exact Hm']. transitivity o1; [done|]. by transitivity o2. }
  pose proof (published_typed _ _ Hm') as [Hv' _]. rewrite Hmk in Hf.
  specialize (Hf eq_refl (manifest_location (checkpoint_version m')) (ex_intro _ _ Hl') (manifest_location_under _)
    (manifest_fixed _ Hv')). change cmp with string_cmp in Hf. unfold manifest_location, manifest_key in Hf.
  rewrite manifest_keys_cmp in Hf by (done || apply Ht). by rewrite Z.compare_lt_iff, Z.nlt_ge in Hf.
Qed.

Lemma latest_of_acc ms b :
  exists m, foldl (fun best m => match best with
    | Some b => if checkpoint_version m <? checkpoint_version b then Some b else Some m
    | None => Some m
    end) (Some b) ms = Some m /\ m ∈ b :: ms /\ Forall (fun m' => checkpoint_version m' <= checkpoint_version m) (b :: ms).
Proof.
  revert b. induction ms as [|x ms IH]; intros b; cbn [foldl].
  { exists b. split_and!; [done|left|]. by repeat constructor. }
  destruct (Z.ltb_spec (checkpoint_version x) (checkpoint_version b)) as [Hlt|Hge];
    [destruct (IH b) as (m & -> & Hin & Hall)|destruct (IH x) as (m & -> & Hin & Hall)];
    exists m; (split; [done|]); apply Forall_cons in Hall as [Hfirst Hall]; (split; [set_solver|]);
    repeat constructor; try done; lia.
Qed.

Lemma latest_of_greatest ms : match latest_of ms with
  | Some m => m ∈ ms /\ forall m', m' ∈ ms -> checkpoint_version m' <= checkpoint_version m
  | None => ms = []
  end.
Proof.
  destruct ms as [|b ms]; [done|]. unfold latest_of. cbn [foldl].
  destruct (latest_of_acc ms b) as (m & -> & Hin & Hall). split; [done|]. by apply Forall_forall.
Qed.

(** What a reader concludes from the answer. *)
Definition newest_answer (o : objects) (r : option CheckpointManifest) (o' : objects) : Prop :=
  match r with
  | Some m => newest o o' m
  | None => forall m, ~ published o m
  end.

Lemma establishes_latest o : chain o ->
  ensures evolves keeps latest_manifest (fun r o' => (forall m, r = Some m -> valid m) /\ newest_answer o r o') o.
Proof.
  intros Hc. eapply establishes_then with (P := fun r o' => forall m, r = Some m -> valid m /\ newest o o' m).
  { apply wp_bind. eapply wp_mono; [|apply establishes_marked]. intros [r|[]] o' Hr; intros r' [= <-]; try done. by apply Hr. }
  intros [m|] o1 Hev1 Hmark.
  { intros r [= <-]. destruct (Hmark m eq_refl). split; [by intros ? [= <-]|done]. }
  eapply establishes_then; [apply (shows_manifests keeps keeps_evolves keeps_read)|]. intros ms o2 Hev2 (Hall & Hpub & _).
  pose proof (latest_of_greatest ms) as Hl. destruct (latest_of ms) as [m|].
  - destruct Hl as [Hin Hmax]. pose proof (published_sound o2 m) as [Hv Ht _ _];
      [by apply Hev2, Hev1|by apply Hpub|].
    apply establishes_objects; [done..|]. intros o3 Hev3 Ho r [= <-]. split; [by intros ? [= <-]|].
    split_and!; [|done|].
    + eapply published_grows; [apply evolves_grows, Hev3|by apply Hpub].
    + intros m' Hm'. apply Hmax, Hall. by eapply published_grows; [apply evolves_grows|].
  - intros r [= <-]. split; [done|]. intros m Hm. subst ms. apply (not_elem_of_nil m), Hall.
    by eapply published_grows; [apply evolves_grows|].
Qed.

(** C27: [latest_manifest], by the marker or by the listing, while other publishers
    run: a manifest it returns is published with all its objects and no manifest
    published before the call is newer; when it returns none, none was. *)
Theorem latest_manifest_current s trace r s' :
  chain (content s) -> exec interference latest_manifest s trace (Ok r) s' ->
  match r with
  | Some m => published (content s') m /\ has_objects (content s') m /\
      forall m', published (content s) m' -> checkpoint_version m' <= checkpoint_version m
  | None => forall m, ~ published (content s) m
  end.
Proof.
  intros Hc Hex. pose proof (establishes_latest _ Hc) as Hp.
  eapply (exec_ensures evolves keeps _ _ _ _ _ _ _ keeps_evolves (fun _ _ Hs => Hs)) in Hp as [[_ Hr] _];
    [exact Hr| |exact Hex].
  intros a o o' Hev [Hv Ha]. split; [done|]. destruct a as [m|]; [|done]. by eapply newest_evolves; eauto.
Qed.

(** * Garbage collection *)

Lemma referenced_spec ms key : key ∈ referenced_keys ms <-> exists m ref, m ∈ ms /\ ref ∈ object_refs m /\ key = ref.2.
Proof.
  unfold referenced_keys. rewrite elem_of_list_to_set, list_elem_of_bind. unfold object_refs.
  setoid_rewrite elem_of_app. setoid_rewrite list_elem_of_fmap. naive_solver.
Qed.

(** The object is listed for collection: of the kind, with a key of a known
    layout, and not referenced. *)
Definition collectable (kind : GarbageCollectionCandidateKind) (referenced : gset ObjectKey) (l : string) : Prop :=
  parse l = Ok (Key l) /\ matches_key kind (Key l) = true /\ Key l ∉ referenced.

Lemma unreferenced_candidate_spec kind referenced l c :
  unreferenced_candidate kind referenced l = Some c <-> c = GcCandidate (Key l) kind /\ collectable kind referenced l.
Proof.
  unfold unreferenced_candidate, collectable. destruct (parse l) as [key|e] eqn:Hp; [|naive_solver].
  pose proof (parse_ok _ _ Hp) as ->. case_bool_decide as Hin; destruct (matches_key _ _); cbn; naive_solver.
Qed.

Lemma establishes_candidates prefix kind referenced acc o :
  ensures evolves keeps (add_unreferenced_candidates prefix kind referenced acc)
    (fun cs o' => forall c, c ∈ cs <-> c ∈ acc \/ exists l, c = GcCandidate (Key l) kind /\
      collectable kind referenced l /\ is_Some (o' !! l) /\ under prefix l = true) o.
Proof.
  eapply establishes_then; [apply (shows_listing keeps keeps_evolves keeps_read)|].
  intros ls o1 _ Hls cs [= <-] c. cbv beta in Hls. rewrite elem_of_app, list_elem_of_omap. setoid_rewrite unreferenced_candidate_spec.
  setoid_rewrite Hls. naive_solver.
Qed.

(** The newest [n] of the manifests: published, and every other manifest
    published before is older than all of them. *)
Definition newest_manifests (o : objects) (n : nat) (retained : list CheckpointManifest) (o' : objects) : Prop :=
  Forall (published o') retained /\
  forall m, published o m -> m ∈ retained \/
    (length retained = n /\ Forall (fun m' => checkpoint_version m <= checkpoint_version m') retained).

Lemma sorted_split (ms : list CheckpointManifest) k m : StronglySorted version_le ms -> m ∈ take k ms ->
  Forall (fun m' => checkpoint_version m <= checkpoint_version m') (drop k ms).
Proof.
  intros Hs Hm. rewrite <-(take_drop k ms) in Hs. apply Forall_forall. intros m' Hm'.
  by eapply (StronglySorted_app_1_elem_of version_le).
Qed.

Lemma drop_newest o o' n ms : (forall m, published o m -> m ∈ ms) -> (forall m, m ∈ ms -> published o' m) ->
  StronglySorted version_le ms -> newest_manifests o n (drop (length ms - n) ms) o'.
Proof.
  intros Hall Hpub Hs. split.
  - apply Forall_forall. intros m Hm. apply Hpub. rewrite <-(take_drop (length ms - n) ms). set_solver.
  - intros m Hm%Hall. rewrite <-(take_drop (length ms - n) ms) in Hm. apply elem_of_app in Hm as [Hm|Hm]; [|by left].
    right. split; [|by apply sorted_split].
    rewrite length_drop. assert (length ms - n <> 0)%nat; [|lia]. by intros Hz; rewrite Hz, take_0 in Hm; apply not_elem_of_nil in Hm.
Qed.

(** What the plan lists: the collectable objects, all that were stored before
    and only stored ones. *)
Definition plan_exact (o : objects) (retained : list CheckpointManifest) (plan : GarbageCollectionPlan) (o' : objects) : Prop :=
  retained_manifest_versions plan = checkpoint_version <$> retained /\
  forall l kind, let c := GcCandidate (Key l) kind in
    (c ∈ candidates plan -> collectable kind (referenced_keys retained) l /\ is_Some (o' !! l)) /\
    (collectable kind (referenced_keys retained) l -> is_Some (o !! l) -> c ∈ candidates plan).

Lemma collectable_fixed kind referenced l : collectable kind referenced l -> ~ replaceable l.
Proof.
  intros (_ & Hk & _) (a & Ha & _ & Hb).
  assert (exists r, l = (match kind with RawStateObject => "v1/state/" | OutputObjectKind => "v1/outputs/" end) +:+ r) as [r ->].
  { by destruct kind; apply starts_with_true in Hk. }
  destruct a; try done; cbn [build] in Hb; injection Hb as Hb; destruct kind;
    unfold checkpoint_latest_candidate_marker, checkpoint_lifecycle_record in Hb; cbn [as_str] in Hb;
    rewrite ?append_cons in Hb; discriminate.
Qed.

Lemma collectable_stays kind referenced l o o' : evolves o o' -> collectable kind referenced l ->
  is_Some (o !! l) -> is_Some (o' !! l).
Proof.
  intros Hev Hc [body Hl]. exists body. apply (evolves_grows _ _ Hev); [done|]. by eapply collectable_fixed.
Qed.

Lemma collectable_under kind referenced l : collectable kind referenced l ->
  under (match kind with RawStateObject => STATE_PREFIX | OutputObjectKind => OUTPUT_PREFIX end) l = true.
Proof. intros (_ & Hk & _). by destruct kind. Qed.

Lemma establishes_plan policy o :
  ensures evolves keeps (plan_garbage_collection policy) (fun plan o' => exists retained,
    newest_manifests o (retain_latest_manifests policy) retained o' /\ plan_exact o retained plan o') o.
Proof.
  apply establishes_lift. intros [] _.
  eapply establishes_then; [apply (shows_manifests keeps keeps_evolves keeps_read)|]. intros ms o1 Hev1 (Hall & Hpub & Hs).
  set (retained := drop _ ms). set (referenced := referenced_keys retained).
  eapply establishes_then; [apply establishes_candidates|]. intros acc o2 Hev2 Hacc.
  eapply establishes_then; [apply establishes_candidates|]. intros acc' o3 Hev3 Hacc' plan [= <-].
  exists retained. split; [|split; [done|]].
  { apply drop_newest; [done| |done]. intros m Hm. eapply published_grows; [apply evolves_grows|by apply Hpub].
    by transitivity o2. }
  intros l kind c. unfold c. cbn [candidates]. cbv beta in Hacc, Hacc'. rewrite merge_sort_Permutation, Hacc', Hacc, elem_of_nil. split.
  - intros [[[]|(l' & [= <- ->] & Hc & Hl & _)]|(l' & [= <- ->] & Hc & Hl & _)]; (split; [done|]); [|done].
    by eapply collectable_stays.
  - intros Hc Hl. pose proof (collectable_under _ _ _ Hc) as Hu.
    pose proof (collectable_stays _ _ _ _ _ Hev1 Hc Hl) as Hl1.
    pose proof (collectable_stays _ _ _ _ _ Hev2 Hc Hl1) as Hl2.
    pose proof (collectable_stays _ _ _ _ _ Hev3 Hc Hl2) as Hl3. destruct kind; eauto 10.
Qed.

(** C28: A garbage collection plan, made while other publishers run. The manifests it
    retains are published and are the newest ones: a manifest published before
    that is not retained is older than as many retained ones as the policy asks
    for. A candidate is a stored state or output object whose key can be read
    and that no retained manifest refers to, and every such object stored before
    is a candidate. *)
Theorem gc_plan_exact policy s trace plan s' :
  exec interference (plan_garbage_collection policy) s trace (Ok plan) s' ->
  exists retained,
    retained_manifest_versions plan = checkpoint_version <$> retained /\
    Forall (published (content s')) retained /\
    (forall m, published (content s) m -> m ∈ retained \/
      (length retained = retain_latest_manifests policy /\
       Forall (fun m' => checkpoint_version m <= checkpoint_version m') retained)) /\
    (forall l kind, GcCandidate (Key l) kind ∈ candidates plan ->
      parse l = Ok (Key l) /\ matches_key kind (Key l) = true /\ is_Some (content s' !! l) /\
      forall m ref, m ∈ retained -> ref ∈ object_refs m -> Key l <> ref.2) /\
    (forall l kind, parse l = Ok (Key l) -> matches_key kind (Key l) = true -> is_Some (content s !! l) ->
      GcCandidate (Key l) kind ∈ candidates plan \/
      exists m ref, m ∈ retained /\ ref ∈ object_refs m /\ Key l = ref.2).
Proof.
  intros Hex. pose proof (establishes_plan policy (content s)) as Hp.
  eapply (exec_ensures evolves keeps _ _ _ _ _ _ _ keeps_evolves (fun _ _ Hs => Hs)) in Hp as [Hr _]; [| |exact Hex].
  - destruct Hr as (retained & [Hpub Hnew] & Hvers & Hplan). exists retained. split_and!; [done..| |].
    + intros l kind Hc. apply Hplan in Hc as [(? & ? & Hn) Hl]. split_and!; [done..|]. intros m ref Hm Href Heq.
      apply Hn, referenced_spec. by exists m, ref.
    + intros l kind Hparse Hk Hl. destruct (decide (Key l ∈ referenced_keys retained)) as [Hin|Hn].
      * right. by apply referenced_spec.
      * left. by apply Hplan.
  - intros a o o' Hev (retained & [Hpub Hnew] & Hvers & Hplan). exists retained. split; (split; [|try done]); [|done|].
    + eapply Forall_impl; [exact Hpub|]. intros m. by apply published_grows, evolves_grows.
    + intros l kind c. destruct (Hplan l kind) as [Hc1 Hc2]. split; [|done]. intros Hc.
      destruct (Hc1 Hc) as [Hcol Hl]. split; [done|]. by eapply collectable_stays.
Qed.

(** A run of a collection plan with evidence always ends in an error and writes
    nothing: no object is deleted and no evidence is recorded. *)
Theorem gc_run_refused id policy plan s trace r s' :
  exec interference (execute_garbage_collection_plan_with_evidence id policy plan) s trace r s' ->
  (exists e, r = Err e) /\ Forall (fun c => writes c = false) trace.
Proof. apply exec_refuses, refuses_run. Qed.

(** * Administration *)

(** An inspection, made while other publishers run, lists manifests in the order
    of their versions and every manifest published before. A manifest that it
    calls valid is published with all its objects. The latest valid checkpoint
    it names is a valid one, and no valid one is newer. *)
Theorem inspection_sound s trace i s' :
  exec interference inspect_checkpoints s trace (Ok i) s' ->
  StronglySorted Z.le (ci_checkpoint_version <$> inspected_manifests i) /\
  (forall m, published (content s) m -> checkpoint_version m ∈ ci_checkpoint_version <$> inspected_manifests i) /\
  (forall x, x ∈ inspected_manifests i -> is_valid x = true ->
    exists m, published (content s') m /\ checkpoint_version m = ci_checkpoint_version x /\
      has_objects (content s') m) /\
  match latest_valid_checkpoint i with
  | Some v =>
      (exists x, x ∈ inspected_manifests i /\ is_valid x = true /\ ci_checkpoint_version x = v) /\
      forall x, x ∈ inspected_manifests i -> is_valid x = true -> ci_checkpoint_version x <= v
  | None => forall x, x ∈ inspected_manifests i -> is_valid x = false
  end.
Proof.
  intros Hex. pose proof (establishes_inspection (content s)) as Hp.
  eapply (exec_ensures evolves keeps _ _ _ _ _ _ _ keeps_evolves (fun _ _ Hs => Hs)) in Hp as [[Hs Ha Hv Hl] _]; [| |exact Hex].
  - split_and!; [done|done| |].
    + intros x Hx Hxv. destruct (Hv x Hx Hxv) as (m & ? & ? & _ & ?). eauto.
    + rewrite Hl. by apply latest_valid_spec.
  - intros a o o' Hev. apply reports_evolves, Hev.
Qed.

(** A recovery record that was written is the one that is read back, by anyone
    and at any later time; the checkpoint it names is published with all its
    objects. *)
Theorem recovery_record_round_trip v id mode n k s trace1 r s1 trace2 r' s2 :
  is_u64 v = true -> is_u64 n = true -> is_u64 k = true ->
  exec interference (write_checkpoint_recovery_transition_record_with_id v id mode n k) s trace1 (Ok r) s1 ->
  exec interference (read_checkpoint_recovery_transition_record v id) s1 trace2 (Ok r') s2 ->
  r' = r /\ rv_checkpoint_version r = v /\ rv_transition_id r = id /\
  exists m, published (content s1) m /\ checkpoint_version m = v /\ has_objects (content s1) m.
Proof.
  intros Hv Hn Hk Hw Hr. pose proof (establishes_write_recovery v id mode n k (content s) Hv Hn Hk) as Hp.
  eapply (exec_ensures evolves keeps _ _ _ _ _ _ _ keeps_evolves (fun _ _ Hs => Hs)) in Hp as [(Hrec & Hver & Hid & m & Hm & Hmv & _ & Ho) _];
    [| |exact Hw].
  - split_and!; [|done|done|by exists m; split_and!].
    eapply (exec_ensures evolves quiet _ _ (fun r' _ => r' = r) _ _ _ _ quiet_evolves (fun _ _ Hs => Hs)) in Hr as [Heq _];
      [exact Heq|by intros ????|by apply shows_recovery].
  - intros a o o' Hev. by apply recovery_of_evolves.
Qed.
End checkpoints.
