(* ===== verification/CheckpointSamples.v ===== *)
(** A view that is checkpointed twice on a store in memory, and what the theorems
    about checkpoints say of it. *)
From stdpp Require Import sorting.
From S2P Require Import Prelude BTree Json Digits Segments ObjectKey Hash ObjectKeyProofs Manifest Lease ObjectStore CheckpointIndex Publisher CheckpointAdmin PublisherProofs CheckpointAdminProofs LeasedCheckpoint Checkpoints.

(** * Samples *)

(** A view over partition 3 of [orders], checkpointed by its owner. *)
Definition sample_grant (epoch : Z) : PartitionLeaseGrant :=
  Grant (LeaseKey "prod" "totals" "orders" 3) "worker-a" epoch 2000000000000.

Definition sample_write (version epoch : Z) : StateObjectWrite :=
  StateWrite "totals" 3 version "state-0" [version]
    (match state_object "totals" 3 version "state-0" with Ok key => key | Err _ => Key "" end)
    (Some (grant_claim (sample_grant epoch))).

Definition sample_manifest (version epoch : Z) : CheckpointManifest :=
  Manifest 1 version [Input "orders" 3 0 (10 * version + 10)] [state_object_ref (sample_write version epoch)] []
    (if version =? 0 then None else Some (version - 1)) "2026-01-01T00:00:00Z" None None None.

Definition sample_record (epoch : Z) : OwnershipEpochRecord :=
  ownership_epoch_record_from_grant (sample_grant epoch) "lease-a" "2026-01-01T00:00:00Z" None.

#[local] Instance CheckpointManifest_eq_dec : EqDecision CheckpointManifest.
Proof. solve_decision. Defined.
#[local] Instance CheckpointLifecycleStatus_eq_dec : EqDecision CheckpointLifecycleStatus.
Proof. solve_decision. Defined.
#[local] Instance CheckpointLifecycleRecord_eq_dec : EqDecision CheckpointLifecycleRecord.
Proof. solve_decision. Defined.
#[local] Instance CheckpointRecoveryMode_eq_dec : EqDecision CheckpointRecoveryMode.
Proof. solve_decision. Defined.
#[local] Instance CheckpointRecoveryTransitionRecordV1_eq_dec : EqDecision CheckpointRecoveryTransitionRecordV1.
Proof. solve_decision. Defined.
#[local] Instance LatestCandidateMarker_eq_dec : EqDecision LatestCandidateMarker.
Proof. solve_decision. Defined.

(** Documents of the sample by number. *)
Definition table_to {A} `{EqDecision A} (table : list A) (x : A) : option bytes :=
  (fun i => [Z.of_nat i.1]) <$> list_find (x =.) table.
Definition table_from {A} (table : list A) (body : bytes) : option A :=
  match body with [i] => table !! Z.to_nat i | _ => None end.

Lemma table_round_trip {A} `{EqDecision A} (table : list A) x body :
  table_to table x = Some body -> table_from table body = Some x.
Proof.
  unfold table_to. intros ([i y] & (Hi & <- & _)%list_find_Some & ->)%fmap_Some. cbn [table_from fst].
  by rewrite Nat2Z.id.
Qed.

#[local] Instance sample_digest : Sha256 := { sha256 body := [Z.of_nat (length body)] }.

Definition sample_manifests : list CheckpointManifest := [sample_manifest 0 1; sample_manifest 1 1].
Definition sample_records : list OwnershipEpochRecord := [sample_record 1; sample_record 2].
Definition sample_markers : list LatestCandidateMarker :=
  (fun m => marker_for_manifest m (default [] (table_to sample_manifests m)) "unix:1700000000.000000000") <$> sample_manifests.

Definition sample_lifecycles : list CheckpointLifecycleRecord :=
  (fun m => lifecycle_published m (default [] (table_to sample_manifests m)) "unix:1700000000.000000000") <$> sample_manifests.
Definition sample_recoveries : list CheckpointRecoveryTransitionRecordV1 :=
  (fun m => recovery_for_manifest m (default [] (table_to sample_manifests m)) "restart" LatestCandidate 1 0
    "unix:1700000000.000000000") <$> sample_manifests.

#[local] Instance sample_codec : CheckpointCodec := {
  manifest_to_vec := table_to sample_manifests;
  manifest_from_slice := table_from sample_manifests;
  record_to_vec := table_to sample_records;
  record_from_slice := table_from sample_records;
  marker_to_vec := table_to sample_markers;
  marker_from_slice := table_from sample_markers;
  lifecycle_to_vec := table_to sample_lifecycles;
  lifecycle_from_slice := table_from sample_lifecycles;
  retention_to_vec _ := None;
  retention_from_slice _ := None;
  gc_transition_to_vec _ := None;
  gc_transition_from_slice _ := None;
  recovery_to_vec := table_to sample_recoveries;
  recovery_from_slice := table_from sample_recoveries;
  gc_run_to_vec _ := None;
  gc_run_from_slice _ := None
}.

#[local] Instance sample_codec_laws : CheckpointCodecLaws.
Proof.
  constructor.
  - intros body m Hm. destruct body as [|i [|]]; try done. apply list_elem_of_lookup_2 in Hm.
    revert m Hm. apply Forall_forall. repeat constructor.
  - intros m body _ _. apply table_round_trip.
  - intros r body _. apply table_round_trip.
  - intros r body _. apply table_round_trip.
Qed.

(** The store after the owner has published one and two checkpoints. *)
Definition sample_publish (version epoch : Z) : prog unit :=
  ignore (publish (sample_grant epoch) 0 [sample_write version epoch] [] (sample_manifest version epoch)).
Definition sample_store1 : objects := (run (sample_publish 0 1) ∅).2.
Definition sample_store2 : objects := (run (sample_publish 1 1) sample_store1).2.

Lemma sample_call version : is_u64 version = true -> state_write_ok (sample_write version 1) ->
  publisher_call (sample_publish version 1).
Proof. intros Hv Hw. apply call_leased. repeat constructor; try apply Hw; done. Qed.

Lemma empty_chain : chain ∅.
Proof. intros v body. by rewrite lookup_empty. Qed.

Lemma sample_steps :
  steps_to (H := memory_store) publisher_call (∅, []) (sample_store2, [Ret tt; Ret tt]).
Proof.
  etransitivity; [apply (run_steps publisher_call (sample_publish 0 1)), sample_call; vm_compute; auto|].
  apply (run_steps publisher_call (sample_publish 1 1) sample_store1 [Ret tt]), sample_call; vm_compute; auto.
Qed.

Lemma sample_chain : chain sample_store2.
Proof.
  destruct (@publishers_evolve _ _ _ memory_store _ _ _ _ _ _ sample_steps (rtc_refl _ _)) as [[_ Hc] _].
  apply Hc, empty_chain.
Qed.

Lemma checkpoint_history_witness :
  published sample_store2 (sample_manifest 1 1) /\
  exists m', published sample_store2 m' /\ checkpoint_version m' = 0 /\ progresses m' (sample_manifest 1 1).
Proof.
  destruct (@checkpoint_history sample_digest sample_codec sample_codec_laws memory_store memory_store_laws
    ∅ sample_store2 [Ret tt; Ret tt] sample_store2 [Ret tt; Ret tt] (sample_manifest 1 1) 0)
    as [Hm (m' & Hm' & Hv & _ & _ & Hp)];
    [apply empty_chain|apply sample_steps|apply rtc_refl|exists [1]; by vm_compute|done|].
  split; [exact Hm|]. by exists m'.
Defined.

(** The owner has persisted its record, and then the next owner. *)
Definition sample_persist (epoch : Z) : publishing ObjectKey :=
  persist_ownership_epoch_record_from_grant (sample_grant epoch) "lease-a" "2026-01-01T00:00:00Z" None.
Definition sample_owned : objects := (run (sample_persist 1) sample_store1).2.
Definition sample_superseded : objects := (run (sample_persist 2) sample_owned).2.
Definition sample_late : prog (result LeasedCheckpointError unit) :=
  publish_production (Leased true) (sample_grant 1) 0 [sample_write 1 1] [] (sample_manifest 1 1).

Lemma sample_late_refused : (run sample_late sample_superseded).1 =
  Err (LeasedPublish (StaleOwnerClaim 3 (grant_claim (sample_grant 2)) (grant_claim (sample_grant 1)))).
Proof. vm_compute. reflexivity. Qed.

Lemma superseded_grant_writes_nothing_witness :
  exists trace r s', exec (H := memory_store) interference sample_late sample_superseded trace r s' /\
    (exists e, r = Err e) /\ Forall (fun c => writes c = false) trace.
Proof.
  destruct (run_exec interference (sample_persist 2) sample_owned) as [trace1 Hpersist].
  destruct (run_exec interference sample_late sample_superseded) as [trace2 Hlate].
  exists trace2, (run sample_late sample_superseded).1, (run sample_late sample_superseded).2. split; [exact Hlate|].
  eapply (@superseded_grant_writes_nothing sample_digest sample_codec sample_codec_laws memory_store memory_store_laws
    (Leased true) (sample_grant 1) (sample_grant 2) "lease-a" "2026-01-01T00:00:00Z" None
    (match (run (sample_persist 2) sample_owned).1 with Ok key => key | Err _ => Key "" end));
    [done|done|done|done| |exact Hlate].
  exact Hpersist.
Defined.

Lemma sample_latest : (run latest_manifest sample_store2).1 = Ok (Some (sample_manifest 1 1)).
Proof. vm_compute. reflexivity. Qed.

Lemma latest_manifest_current_witness :
  exists trace s', exec (H := memory_store) interference latest_manifest sample_store2 trace
    (Ok (Some (sample_manifest 1 1))) s' /\ published s' (sample_manifest 1 1).
Proof.
  destruct (run_exec interference latest_manifest sample_store2) as [trace Hrun]. rewrite sample_latest in Hrun.
  exists trace, (run latest_manifest sample_store2).2. split; [exact Hrun|].
  destruct (@latest_manifest_current sample_digest sample_codec sample_codec_laws memory_store memory_store_laws
    _ _ _ _ sample_chain Hrun) as [Hm _]. exact Hm.
Defined.

(** With one manifest retained, the state of the other may go. *)
Lemma sample_plan : (run (plan_garbage_collection (GcPolicy 1)) sample_store2).1 =
  Ok (GcPlan [1] [GcCandidate (sw_object_key (sample_write 0 1)) RawStateObject]).
Proof. vm_compute. reflexivity. Qed.

Lemma gc_plan_exact_witness : exists (retained : list CheckpointManifest) s',
  checkpoint_version <$> retained = [1] /\ is_Some (content (ObjectStore := memory_store) s' !! as_str (sw_object_key (sample_write 0 1))) /\
  forall m ref, m ∈ retained -> ref ∈ object_refs m -> sw_object_key (sample_write 0 1) <> ref.2.
Proof.
  destruct (run_exec interference (plan_garbage_collection (GcPolicy 1)) sample_store2) as [trace Hrun].
  rewrite sample_plan in Hrun.
  destruct (@gc_plan_exact sample_digest sample_codec sample_codec_laws memory_store memory_store_laws
    (GcPolicy 1) _ _ _ _ Hrun) as (retained & Hv & _ & _ & Hc & _).
  destruct (Hc (as_str (sw_object_key (sample_write 0 1))) RawStateObject) as (_ & _ & Hs & Hr); [left|].
  exists retained, (run (plan_garbage_collection (GcPolicy 1)) sample_store2).2. split; [by rewrite <-Hv|]. split; [exact Hs|exact Hr].
Defined.

Definition sample_run : publishing GarbageCollectionRunV1 :=
  execute_garbage_collection_plan_with_evidence "run-1" (GcPolicy 1)
    (GcPlan [1] [GcCandidate (sw_object_key (sample_write 0 1)) RawStateObject]).

Lemma sample_run_refused : (run sample_run sample_store2).1 = Err GarbageCollectionCoordinationRequired.
Proof. vm_compute. reflexivity. Qed.

Lemma gc_run_refused_witness : exists trace s',
  exec (H := memory_store) interference sample_run sample_store2 trace (Err GarbageCollectionCoordinationRequired) s' /\
  Forall (fun c => writes c = false) trace.
Proof.
  destruct (run_exec interference sample_run sample_store2) as [trace Hrun]. rewrite sample_run_refused in Hrun.
  exists trace, (run sample_run sample_store2).2. split; [exact Hrun|].
  apply (@gc_run_refused sample_digest sample_codec memory_store memory_store_laws _ _ _ _ _ _ _ Hrun).
Defined.

Definition sample_inspection : CheckpointAdminInspection :=
  match (run inspect_checkpoints sample_store2).1 with Ok i => i | Err _ => AdminInspection None [] end.

Lemma sample_inspected : (run inspect_checkpoints sample_store2).1 = Ok sample_inspection /\
  latest_valid_checkpoint sample_inspection = Some 1.
Proof. split; vm_compute; reflexivity. Qed.

Lemma inspection_sound_witness :
  exists x, x ∈ inspected_manifests sample_inspection /\ is_valid x = true /\ ci_checkpoint_version x = 1.
Proof.
  destruct sample_inspected as [Hi Hv]. destruct (run_exec interference inspect_checkpoints sample_store2) as [trace Hrun].
  rewrite Hi in Hrun.
  destruct (@inspection_sound sample_digest sample_codec sample_codec_laws memory_store memory_store_laws _ _ _ _ Hrun)
    as (_ & _ & _ & Hl). rewrite Hv in Hl. apply Hl.
Defined.

Definition sample_recover : publishing CheckpointRecoveryTransitionRecordV1 :=
  write_checkpoint_recovery_transition_record_with_id 1 "restart" LatestCandidate 1 0.
Definition sample_recovered : objects := (run sample_recover sample_store2).2.
Definition sample_recovery : CheckpointRecoveryTransitionRecordV1 :=
  recovery_for_manifest (sample_manifest 1 1) [1] "restart" LatestCandidate 1 0 "unix:1700000000.000000000".

Lemma sample_recovery_kept : (run sample_recover sample_store2).1 = Ok sample_recovery /\
  (run (read_checkpoint_recovery_transition_record 1 "restart") sample_recovered).1 = Ok sample_recovery.
Proof. split; vm_compute; reflexivity. Qed.

Lemma recovery_record_round_trip_witness :
  exists m, published sample_recovered m /\ checkpoint_version m = 1 /\ has_objects sample_recovered m.
Proof.
  destruct sample_recovery_kept as [Hw Hr].
  destruct (run_exec interference sample_recover sample_store2) as [trace1 Hwrite]. rewrite Hw in Hwrite.
  destruct (run_exec interference (read_checkpoint_recovery_transition_record 1 "restart") sample_recovered)
    as [trace2 Hread]. rewrite Hr in Hread.
  destruct (@recovery_record_round_trip sample_digest sample_codec sample_codec_laws memory_store memory_store_laws
    1 "restart" LatestCandidate 1 0 _ _ _ _ _ _ _ eq_refl eq_refl eq_refl Hwrite Hread) as (_ & _ & _ & Hm).
  exact Hm.
Defined.

(** An owner of an earlier epoch comes back. *)
Definition sample_stale : publishing unit :=
  publish_manifest_fenced (sample_manifest 1 0) (grant_claim (sample_grant 0)).

Lemma sample_stale_refused : (run sample_stale sample_store1).1 =
  Err (StaleOwnerClaim 3 (grant_claim (sample_grant 1)) (grant_claim (sample_grant 0))).
Proof. vm_compute. reflexivity. Qed.

Lemma superseded_claim_not_published_witness : exists trace s',
  exec (H := memory_store) interference sample_stale sample_store1 trace
    (Err (StaleOwnerClaim 3 (grant_claim (sample_grant 1)) (grant_claim (sample_grant 0)))) s' /\
  Forall (fun c => writes c = false) trace.
Proof.
  destruct (run_exec interference sample_stale sample_store1) as [trace Hrun]. rewrite sample_stale_refused in Hrun.
  exists trace, (run sample_stale sample_store1).2. split; [exact Hrun|].
  eapply (@superseded_claim_not_published sample_digest sample_codec sample_codec_laws memory_store memory_store_laws
    sample_store1 (sample_manifest 0 1) 3 (grant_claim (sample_grant 1)) (sample_manifest 1 0)
    (grant_claim (sample_grant 0)) trace _ _); [exists [0]; by vm_compute|left|done|left|exact Hrun].
Defined.
