(* ===== verification/KubeLease.v ===== *)
(** The Kubernetes lease client, [velorix-k8s/src/lease.rs].

    The API server and the clock library are not part of the repository: they
    are the parameters [KubeApi] and [Jiff], with what the Kubernetes API
    documents about optimistic concurrency in [KubeApiLaws]. Fields of a lease
    that the client neither reads nor writes are not represented.

    A call of the client is a read of the lease, a computation, and a
    conditional write. Between the two requests any other client can run, so
    the correctness theorems are about interleavings of such halves. *)
From S2P Require Import Prelude BTree Json Digits Serde Lease.

(** * Objects *)

(** [jiff::Timestamp]. *)
Class Jiff := {
  Timestamp : Type;
  from_millisecond : Z -> option Timestamp;
  as_millisecond : Timestamp -> Z
}.

(** A timestamp keeps the milliseconds it was built from, and every time from
    the epoch to the end of the year 9999 can be built. *)
Class JiffLaws `{Jiff} : Prop := {
  as_from_millisecond ms t : from_millisecond ms = Some t -> as_millisecond t = ms;
  from_millisecond_range ms : 0 <= ms <= 253402207200999 -> is_Some (from_millisecond ms)
}.

Section objects.
Context `{Jiff}.

Record ObjectMeta := Meta {
  meta_name : option string;
  meta_namespace : option string;
  resource_version : option string;
  annotations : option (btree string string)
}.

Record LeaseSpec := Spec {
  acquire_time : option Timestamp;
  holder_identity : option string;
  lease_duration_seconds : option Z;
  lease_transitions : option Z;
  renew_time : option Timestamp
}.

Record Lease := LeaseObject { metadata : ObjectMeta; spec : option LeaseSpec }.

Inductive KubernetesLeaseError :=
| LeaseFailure (error : LeaseError)
| ApiFailure (operation message : string)
| WriteConflict
| InvalidLeaseBody (field : string)
| InvalidTimestamp (field : string).

Definition into_partition_lease_error (e : KubernetesLeaseError) : LeaseError :=
  match e with
  | LeaseFailure error => error
  | WriteConflict | ApiFailure _ _ | InvalidLeaseBody _ | InvalidTimestamp _ => LeaseNotHeld
  end.

(** [?] on a [LeaseError], through [From]. *)
Definition lift_lease {A} (r : result LeaseError A) : result KubernetesLeaseError A := map_err LeaseFailure r.

(** * Names *)

(** [stable_hash]: FNV-1a at 64 bits. *)
Definition stable_hash (value : string) : Z :=
  foldl (fun hash byte => (Z.lxor hash byte * 0x100000001b3) mod 2 ^ 64) 0xcbf29ce484222325 (as_bytes value).

(** The loop of [dns_label_piece] over one byte. *)
Definition dns_label_push (max_len : nat) (piece : bytes) (byte : Z) : bytes :=
  let next := if in_range 97 122 byte || in_range 48 57 byte then byte
    else if in_range 65 90 byte then byte + 32 else 45 in
  if (Nat.ltb (length piece) max_len) &&
     (negb (next =? 45) || negb (match last piece with Some b => b =? 45 | None => false end))
  then piece ++ [next] else piece.

Fixpoint drop_dashes (l : bytes) : bytes :=
  match l with 45 :: l => drop_dashes l | _ => l end.

(** [trim_matches('-')]. *)
Definition trim_dashes (l : bytes) : bytes := rev (drop_dashes (rev (drop_dashes l))).

Definition dns_label_piece (value : string) (max_len : nat) : string :=
  let piece := trim_dashes (foldl (dns_label_push max_len) [] (as_bytes value)) in
  match piece with [] => "partition" | _ => string_of_bytes piece end.

(** [{:016x}] of a [u64]. *)
Definition hex16 (n : Z) : string :=
  string_of_bytes ((fun i => hex_digit (n / 16 ^ i mod 16)) <$> [15; 14; 13; 12; 11; 10; 9; 8; 7; 6; 5; 4; 3; 2; 1; 0]).

Definition lease_name (key : PartitionLeaseKey) : string :=
  let view := dns_label_piece (view_id key) 40 in
  let stream := dns_label_piece (stream_id key) 40 in
  "velorix-" +:+ view +:+ "-" +:+ stream +:+ "-p" +:+ nat_to_string (partition_id key) +:+ "-" +:+
  hex16 (stable_hash (view_id key +:+ "/" +:+ stream_id key +:+ "/" +:+ nat_to_string (partition_id key))).

Definition partition_lease_identity (key : PartitionLeaseKey) : string :=
  "coordination.k8s.io/v1/namespaces/" +:+ namespace key +:+ "/leases/" +:+ lease_name key.

(** * Reading a lease *)

Definition VIEW_ID_ANNOTATION : string := "control.velorix.io/view-id".
Definition STREAM_ID_ANNOTATION : string := "control.velorix.io/stream-id".
Definition PARTITION_ID_ANNOTATION : string := "control.velorix.io/partition-id".

Definition annotation (annotations : btree string string) (key : string) : result KubernetesLeaseError string :=
  match annotations !! key with
  | Some value => if String.eqb value "" then Err (InvalidLeaseBody key) else Ok value
  | None => Err (InvalidLeaseBody key)
  end.

(** [str::parse::<u32>]. *)
Definition parse_u32 (s : string) : option Z :=
  let s := match s with String c s' => if byte_of_ascii c =? 43 then s' else s | _ => s end in
  if String.eqb s "" || negb (all_digits s) then None
  else let n := undigits (string_digits s) in if n <=? u32_max then Some n else None.

Definition request_key_from_lease (lease : Lease) : result KubernetesLeaseError PartitionLeaseKey :=
  ns ← ok_or (InvalidLeaseBody "metadata.namespace") (meta_namespace (metadata lease));
  anns ← ok_or (InvalidLeaseBody "metadata.annotations") (annotations (metadata lease));
  partition ← annotation anns PARTITION_ID_ANNOTATION;
  partition_id ← ok_or (InvalidLeaseBody PARTITION_ID_ANNOTATION) (parse_u32 partition);
  view ← annotation anns VIEW_ID_ANNOTATION;
  stream ← annotation anns STREAM_ID_ANNOTATION;
  Ok (LeaseKey ns view stream partition_id).

Definition validate_lease_key (lease : Lease) (key : PartitionLeaseKey) : result KubernetesLeaseError unit :=
  body_key ← request_key_from_lease lease;
  if bool_decide (body_key = key) then Ok tt else Err (InvalidLeaseBody "metadata.annotations").

Definition lease_spec (lease : Lease) : result KubernetesLeaseError LeaseSpec :=
  ok_or (InvalidLeaseBody "spec") (spec lease).

(** [u64::try_from] of an [i32]. *)
Definition lease_epoch (lease : Lease) : result KubernetesLeaseError Z :=
  s ← lease_spec lease;
  transitions ← ok_or (InvalidLeaseBody "spec.leaseTransitions") (lease_transitions s);
  if transitions <? 0 then Err (InvalidLeaseBody "spec.leaseTransitions") else Ok transitions.

Definition lease_duration_ms (s : LeaseSpec) : result KubernetesLeaseError Z :=
  seconds ← ok_or (InvalidLeaseBody "spec.leaseDurationSeconds") (lease_duration_seconds s);
  _ ← fail_if (seconds <=? 0) (InvalidLeaseBody "spec.leaseDurationSeconds");
  ok_or (InvalidLeaseBody "spec.leaseDurationSeconds") (checked_u64 (seconds * 1000)).

Definition i32_max : Z := 2 ^ 31 - 1.

Definition ttl_seconds (ttl_ms : Z) : result KubernetesLeaseError Z :=
  sum ← ok_or (LeaseFailure (LeaseTimeOverflow 0 ttl_ms)) (checked_u64 (ttl_ms + 999));
  let rounded := sum / 1000 in
  if rounded <=? i32_max then Ok rounded else Err (LeaseFailure (InvalidTtl ttl_ms)).

Definition micro_time_from_unix_ms (unix_ms : Z) : result KubernetesLeaseError Timestamp :=
  ms ← ok_or (InvalidTimestamp "request.now_unix_ms") (checked_i64 unix_ms);
  ok_or (InvalidTimestamp "request.now_unix_ms") (from_millisecond ms).

Definition unix_ms_from_micro_time (time : Timestamp) (field : string) : result KubernetesLeaseError Z :=
  ok_or (InvalidTimestamp field) (checked_u64 (as_millisecond time)).

(** [holder_identity.filter(|owner| !owner.is_empty())]. *)
Definition holder (s : LeaseSpec) : option string :=
  match holder_identity s with
  | Some owner => if String.eqb owner "" then None else Some owner
  | None => None
  end.

Definition current_grant_from_lease (key : PartitionLeaseKey) (lease : Lease) (now : Z) :
    result KubernetesLeaseError (option PartitionLeaseGrant) :=
  _ ← validate_lease_key lease key;
  s ← lease_spec lease;
  duration_ms ← lease_duration_ms s;
  epoch ← lease_epoch lease;
  match holder s with
  | None => Ok None
  | Some owner =>
      _ ← fail_if (epoch =? 0) (InvalidLeaseBody "spec.leaseTransitions");
      renewed ← ok_or (InvalidLeaseBody "spec.renewTime") (renew_time s);
      renewed_at ← unix_ms_from_micro_time renewed "spec.renewTime";
      expires ← ok_or (InvalidLeaseBody "spec.leaseDurationSeconds") (checked_u64 (renewed_at + duration_ms));
      if expires <=? now then Ok None else Ok (Some (Grant key owner epoch expires))
  end.

(** * Writing a lease *)

Definition set_partition_annotations (lease : Lease) (key : PartitionLeaseKey) : Lease :=
  let m := metadata lease in
  let anns := default ∅ (annotations m) in
  let anns := <[VIEW_ID_ANNOTATION := view_id key]> anns in
  let anns := <[STREAM_ID_ANNOTATION := stream_id key]> anns in
  let anns := <[PARTITION_ID_ANNOTATION := nat_to_string (partition_id key)]> anns in
  LeaseObject (Meta (meta_name m) (meta_namespace m) (resource_version m) (Some anns)) (spec lease).

Definition new_lease (request : LeaseAcquireRequest) (name : string) : result KubernetesLeaseError Lease :=
  ttl ← ttl_seconds (ttl_ms request);
  acquired ← micro_time_from_unix_ms (now_unix_ms request);
  renewed ← micro_time_from_unix_ms (now_unix_ms request);
  Ok (set_partition_annotations
    (LeaseObject (Meta (Some name) (Some (namespace (request_key request))) None None)
      (Some (Spec (Some acquired) (Some (request_owner request)) (Some ttl) (Some 1) (Some renewed))))
    (request_key request)).

(** The epoch a request gets on a lease whose current grant is [previous]. *)
Definition next_epoch (request : LeaseAcquireRequest) (previous : option PartitionLeaseGrant) (previous_epoch : Z) :
    result KubernetesLeaseError Z :=
  match previous with
  | Some cur =>
      if negb (String.eqb (owner_id cur) (request_owner request)) then Err (LeaseFailure (Conflict cur))
      else Ok (owner_epoch cur)
  | None => ok_or (InvalidLeaseBody "spec.leaseTransitions") (checked_u64 (previous_epoch + 1))
  end.

Definition renew_or_reacquire_lease (request : LeaseAcquireRequest) (lease : Lease) : result KubernetesLeaseError Lease :=
  _ ← validate_lease_key lease (request_key request);
  previous ← current_grant_from_lease (request_key request) lease (now_unix_ms request);
  previous_epoch ← lease_epoch lease;
  epoch ← next_epoch request previous previous_epoch;
  s ← lease_spec lease;
  ttl ← ttl_seconds (ttl_ms request);
  transitions ← (if epoch <=? i32_max then Ok epoch else Err (InvalidLeaseBody "spec.leaseTransitions"));
  renewed ← micro_time_from_unix_ms (now_unix_ms request);
  acquired ← match acquire_time s, previous with
    | Some acquired, Some _ => Ok (Some acquired)
    | _, _ => Some <$> micro_time_from_unix_ms (now_unix_ms request)
    end;
  Ok (LeaseObject (metadata lease)
    (Some (Spec acquired (Some (request_owner request)) (Some ttl) (Some transitions) (Some renewed)))).

Definition with_version (v : string) (lease : Lease) : Lease :=
  let m := metadata lease in
  LeaseObject (Meta (meta_name m) (meta_namespace m) (Some v) (annotations m)) (spec lease).

(** [holder_identity = None] and a new [renew_time], by the holder's release. *)
Definition released_lease (lease : Lease) (now : Z) : result KubernetesLeaseError Lease :=
  s ← lease_spec lease;
  renewed ← micro_time_from_unix_ms now;
  Ok (LeaseObject (metadata lease)
    (Some (Spec (acquire_time s) None (lease_duration_seconds s) (lease_transitions s) (Some renewed)))).

Definition validate_request (request : LeaseAcquireRequest) : result KubernetesLeaseError unit :=
  _ ← lift_lease (validate_key (request_key request));
  _ ← lift_lease (validate_owner_id (request_owner request));
  _ ← fail_if (ttl_ms request =? 0) (LeaseFailure (InvalidTtl (ttl_ms request)));
  _ ← ok_or (LeaseFailure (LeaseTimeOverflow (now_unix_ms request) (ttl_ms request)))
    (checked_u64 (now_unix_ms request + ttl_ms request));
  Ok tt.
End objects.

(** * The lease API *)

(** The trait [LeaseApi], over the state [S] of the server. *)
Class LeaseApi `{Jiff} (S : Type) := {
  get : S -> string -> string -> result KubernetesLeaseError (option Lease);
  create : S -> Lease -> S * result KubernetesLeaseError Lease;
  replace : S -> string -> Lease -> S * result KubernetesLeaseError Lease
}.

(** [kube::Error]: the status code when the server answered, and its text. *)
Record kube_error := KubeError { code : option Z; message : string }.

(** [kube::Api<Lease>], namespaced: what the library and the server do. *)
Class KubeApi `{Jiff} (S : Type) := {
  kube_get : S -> string -> string -> result kube_error Lease;
  kube_create : S -> string -> Lease -> S * result kube_error Lease;
  kube_replace : S -> string -> string -> Lease -> S * result kube_error Lease
}.

Section kube_lease_api.
Context `{Jiff} {S : Type} `{!KubeApi S}.

Definition has_code (n : Z) (e : kube_error) : bool := match code e with Some c => c =? n | None => false end.

Definition kube_lease_get (s : S) (ns name : string) : result KubernetesLeaseError (option Lease) :=
  match kube_get s ns name with
  | Ok lease => Ok (Some lease)
  | Err e => if has_code 404 e then Ok None else Err (ApiFailure "get" (message e))
  end.

Definition write_error (operation : string) (e : kube_error) : KubernetesLeaseError :=
  if has_code 409 e then WriteConflict else ApiFailure operation (message e).

Definition kube_lease_create (s : S) (lease : Lease) : S * result KubernetesLeaseError Lease :=
  match meta_namespace (metadata lease) with
  | None => (s, Err (InvalidLeaseBody "metadata.namespace"))
  | Some ns => let '(s, r) := kube_create s ns lease in (s, map_err (write_error "create") r)
  end.

Definition kube_lease_replace (s : S) (name : string) (lease : Lease) : S * result KubernetesLeaseError Lease :=
  match meta_namespace (metadata lease) with
  | None => (s, Err (InvalidLeaseBody "metadata.namespace"))
  | Some ns => let '(s, r) := kube_replace s ns name lease in (s, map_err (write_error "replace") r)
  end.

#[export] Instance KubeLeaseApi : LeaseApi S := {
  get := kube_lease_get; create := kube_lease_create; replace := kube_lease_replace
}.
End kube_lease_api.

(** * The client *)

Section client.
Context `{Jiff} {S : Type} `{!LeaseApi S}.

(** The first half of [acquire_or_renew_kubernetes]: the lease to write. *)
Definition begin_acquire (s : S) (request : LeaseAcquireRequest) : result KubernetesLeaseError (string * Lease) :=
  _ ← validate_request request;
  let name := lease_name (request_key request) in
  existing ← get s (namespace (request_key request)) name;
  lease ← match existing with
    | Some lease => renew_or_reacquire_lease request lease
    | None => new_lease request name
    end;
  Ok (name, lease).

(** The second half: the write, and the grant read back from what was written. *)
Definition write_lease (s : S) (name : string) (lease : Lease) : S * result KubernetesLeaseError Lease :=
  match resource_version (metadata lease) with
  | Some _ => replace s name lease
  | None => create s lease
  end.

Definition finish_acquire (s : S) (request : LeaseAcquireRequest) (name : string) (lease : Lease) :
    S * result KubernetesLeaseError PartitionLeaseGrant :=
  let '(s, r) := write_lease s name lease in
  (s, written ← r;
      grant ← current_grant_from_lease (request_key request) written (now_unix_ms request);
      ok_or (InvalidLeaseBody "spec.holderIdentity") grant).

Definition acquire_or_renew_kubernetes (s : S) (request : LeaseAcquireRequest) :
    S * result KubernetesLeaseError PartitionLeaseGrant :=
  match begin_acquire s request with
  | Ok (name, lease) => finish_acquire s request name lease
  | Err e => (s, Err e)
  end.

Definition current_kubernetes (s : S) (key : PartitionLeaseKey) (now : Z) :
    result KubernetesLeaseError (option PartitionLeaseGrant) :=
  _ ← lift_lease (validate_key key);
  existing ← get s (namespace key) (lease_name key);
  match existing with
  | Some lease => current_grant_from_lease key lease now
  | None => Ok None
  end.

Definition begin_release (s : S) (key : PartitionLeaseKey) (owner : string) (epoch now : Z) :
    result KubernetesLeaseError (string * Lease) :=
  _ ← lift_lease (validate_key key);
  _ ← lift_lease (validate_owner_id owner);
  let name := lease_name key in
  existing ← get s (namespace key) name;
  lease ← ok_or (LeaseFailure LeaseNotHeld) existing;
  grant ← current_grant_from_lease key lease now;
  cur ← ok_or (LeaseFailure LeaseNotHeld) grant;
  _ ← fail_if (negb (String.eqb (owner_id cur) owner) || negb (owner_epoch cur =? epoch))
    (LeaseFailure (NotLeaseHolder cur));
  lease ← released_lease lease now;
  Ok (name, lease).

Definition finish_release (s : S) (name : string) (lease : Lease) : S * result KubernetesLeaseError unit :=
  let '(s, r) := replace s name lease in (s, (fun _ => tt) <$> r).

Definition release_kubernetes (s : S) (key : PartitionLeaseKey) (owner : string) (epoch now : Z) :
    S * result KubernetesLeaseError unit :=
  match begin_release s key owner epoch now with
  | Ok (name, lease) => finish_release s name lease
  | Err e => (s, Err e)
  end.

#[export] Instance KubernetesPartitionLeaseClient : PartitionLeaseClient S := {
  acquire_or_renew s request :=
    let '(s, r) := acquire_or_renew_kubernetes s request in (s, map_err into_partition_lease_error r);
  current s key now := map_err into_partition_lease_error (current_kubernetes s key now);
  release s key owner epoch now :=
    let '(s, r) := release_kubernetes s key owner epoch now in (s, map_err into_partition_lease_error r)
}.
End client.
