(* ===== verification/KubeLeaseProofs.v ===== *)
(** Correctness of the Kubernetes lease client under interleaving.

    [KubeApiLaws] states the optimistic concurrency the Kubernetes API
    documents; [kube_lease_laws] shows that the program's adapter gives its
    client the same contract, [LeaseApiLaws], against which the theorems are
    proved. *)
From stdpp Require Import gmap.
From S2P Require Import Prelude BTree Json Digits Segments Serde Lease KubeLease.

(** * What the server promises *)

Section laws.
Context `{Jiff} {S : Type}.
Variable objects : S -> gmap (string * string) Lease.
Variable issued : S -> gset string.

(** The server stored [lease] under a version it had never issued. *)
Definition stored (s s' : S) (at_ : string * string) (lease w : Lease) : Prop :=
  exists v, (v ∉ issued s) /\ w = with_version v lease /\
    objects s' = <[at_ := w]> (objects s) /\ issued s' = {[v]} ∪ issued s.

Definition unchanged (s s' : S) : Prop := objects s' = objects s /\ issued s' = issued s.

(** The outcomes of a write: refused; or stored, and then either reported or
    lost on the way back. *)
Definition write_outcome {E} (may : option Lease -> Prop) (s s' : S) (at_ : string * string) (lease : Lease)
    (r : result E Lease) : Prop :=
  (unchanged s s' /\ is_ok r = false) \/
  exists w, may (objects s !! at_) /\ stored s s' at_ lease w /\ (r = Ok w \/ is_ok r = false).

(** A replacement names the version it replaces. *)
Definition same_version (lease : Lease) (old : option Lease) : Prop :=
  exists o, old = Some o /\ resource_version (metadata o) = resource_version (metadata lease).
End laws.

(** The Kubernetes API: a read returns the stored object, an object is created
    only where there is none, an update that names a resource version is
    refused unless it is the stored one, and every stored object carries a
    version that was issued for it alone. *)
Class KubeApiLaws `{Jiff} (S : Type) `{!KubeApi S} := {
  kube_objects : S -> gmap (string * string) Lease;
  kube_issued : S -> gset string;
  kube_get_stored s ns name lease : kube_get s ns name = Ok lease -> kube_objects s !! (ns, name) = Some lease;
  kube_create_outcome s ns name lease s' r :
    meta_name (metadata lease) = Some name -> kube_create s ns lease = (s', r) ->
    write_outcome kube_objects kube_issued (fun old => old = None) s s' (ns, name) lease r;
  kube_replace_outcome s ns name lease s' r :
    resource_version (metadata lease) <> None -> kube_replace s ns name lease = (s', r) ->
    write_outcome kube_objects kube_issued (same_version lease) s s' (ns, name) lease r;
  kube_versions s at_ lease : kube_objects s !! at_ = Some lease ->
    exists v, resource_version (metadata lease) = Some v /\ v ∈ kube_issued s
}.

(** The same contract, as the lease client relies on it. *)
Class LeaseApiLaws `{Jiff} (S : Type) `{!LeaseApi S} := {
  objects : S -> gmap (string * string) Lease;
  issued : S -> gset string;
  get_stored s ns name lease : get s ns name = Ok (Some lease) -> objects s !! (ns, name) = Some lease;
  create_outcome s ns name lease s' r :
    meta_namespace (metadata lease) = Some ns -> meta_name (metadata lease) = Some name -> create s lease = (s', r) ->
    write_outcome objects issued (fun old => old = None) s s' (ns, name) lease r;
  replace_outcome s ns name lease s' r :
    meta_namespace (metadata lease) = Some ns -> resource_version (metadata lease) <> None ->
    replace s name lease = (s', r) ->
    write_outcome objects issued (same_version lease) s s' (ns, name) lease r;
  versions s at_ lease : objects s !! at_ = Some lease ->
    exists v, resource_version (metadata lease) = Some v /\ v ∈ issued s
}.

Section adapter.
Context `{Jiff} {S : Type} `{!KubeApi S} `{!KubeApiLaws S}.

Lemma write_outcome_map_err {E F} (f : E -> F) objs iss may (s s' : S) at_ lease (r : result E Lease) :
  write_outcome objs iss may s s' at_ lease r -> write_outcome objs iss may s s' at_ lease (map_err f r).
Proof.
  intros [[Hu Hr]|(w & Hm & Hs & Hr)]; [left|right].
  - split; [done|]. by destruct r.
  - exists w. split_and!; [done..|]. destruct Hr as [->|Hr]; [by left|right; by destruct r].
Qed.

(** The adapter of the program passes the server's contract on. *)
#[export] Instance kube_lease_laws : LeaseApiLaws S.
Proof.
  refine {| objects := kube_objects; issued := kube_issued |}.
  - intros s ns name lease. simpl. unfold kube_lease_get. destruct (kube_get s ns name) eqn:Hg.
    + intros [= <-]. by apply kube_get_stored.
    + by destruct (has_code 404 e).
  - intros s ns name lease s' r Hns Hname. simpl. unfold kube_lease_create. rewrite Hns.
    destruct (kube_create s ns lease) as [s1 r1] eqn:Hc. intros [= <- <-].
    by eapply write_outcome_map_err, kube_create_outcome.
  - intros s ns name lease s' r Hns Hv. simpl. unfold kube_lease_replace. rewrite Hns.
    destruct (kube_replace s ns name lease) as [s1 r1] eqn:Hc. intros [= <- <-].
    by eapply write_outcome_map_err, kube_replace_outcome.
  - apply kube_versions.
Defined.
End adapter.

(** * Interleavings *)

Section interleaving.
Context `{Jiff} {S : Type} `{!LeaseApi S} `{!LeaseApiLaws S}.

(** A call between its read and its write. *)
Inductive pending :=
| PendingAcquire (request : LeaseAcquireRequest) (name : string) (lease : Lease)
| PendingRelease (key : PartitionLeaseKey) (now : Z) (name : string) (lease : Lease).

(** The server and the calls under way, of any number of clients. *)
Record system := System { server : S; inflight : list pending }.

(** A call starts, a call finishes, or a client dies between the two. *)
Inductive step : system -> system -> list PartitionLeaseGrant -> Prop :=
| step_begin_acquire s ps request name lease :
    begin_acquire s request = Ok (name, lease) ->
    step (System s ps) (System s (PendingAcquire request name lease :: ps)) []
| step_begin_release s ps key owner epoch now name lease :
    begin_release s key owner epoch now = Ok (name, lease) ->
    step (System s ps) (System s (PendingRelease key now name lease :: ps)) []
| step_finish_acquire s ps1 ps2 request name lease s' r :
    finish_acquire s request name lease = (s', r) ->
    step (System s (ps1 ++ PendingAcquire request name lease :: ps2)) (System s' (ps1 ++ ps2))
      (match r with Ok g => [g] | Err _ => [] end)
| step_finish_release s ps1 ps2 key now name lease s' r :
    finish_release s name lease = (s', r) ->
    step (System s (ps1 ++ PendingRelease key now name lease :: ps2)) (System s' (ps1 ++ ps2)) []
| step_crash s ps1 p ps2 : step (System s (ps1 ++ p :: ps2)) (System s (ps1 ++ ps2)) [].

(** ** What a pending call has read *)

(** [l0] was read at [at_]: unless it is still there, another version is. *)
Definition read (s : S) (at_ : string * string) (l0 : Lease) : Prop :=
  exists v, resource_version (metadata l0) = Some v /\ v ∈ issued s /\
    forall cur, objects s !! at_ = Some cur -> resource_version (metadata cur) = Some v -> cur = l0.

Definition location (key : PartitionLeaseKey) : string * string := (namespace key, lease_name key).

Definition pending_ok (s : S) (p : pending) : Prop :=
  match p with
  | PendingAcquire request name lease =>
      name = lease_name (request_key request) /\
      (new_lease request name = Ok lease \/
       exists l0, read s (location (request_key request)) l0 /\ renew_or_reacquire_lease request l0 = Ok lease)
  | PendingRelease key now name lease =>
      name = lease_name key /\ exists l0 cur, read s (location key) l0 /\
        current_grant_from_lease key l0 now = Ok (Some cur) /\ released_lease l0 now = Ok lease
  end.

Definition system_ok (x : system) : Prop := Forall (pending_ok (server x)) (inflight x).

Lemma get_read s ns name lease : get s ns name = Ok (Some lease) -> read s (ns, name) lease.
Proof.
  intros Hg%get_stored. destruct (versions _ _ _ Hg) as (v & Hv & Hin).
  exists v. split_and!; [done..|]. intros cur Hcur _. congruence.
Qed.

Lemma begin_acquire_ok s request name lease :
  begin_acquire s request = Ok (name, lease) -> pending_ok s (PendingAcquire request name lease).
Proof.
  unfold begin_acquire. intros Hb. simplify_res. split; [done|].
  destruct x0 as [l0|]; [|by left]. right. exists l0. split; [by apply get_read|done].
Qed.

Lemma begin_release_ok s key owner epoch now name lease :
  begin_release s key owner epoch now = Ok (name, lease) -> pending_ok s (PendingRelease key now name lease).
Proof.
  unfold begin_release. intros Hb. simplify_res. split; [done|].
  eexists _, _. split_and!; [by apply get_read|done..].
Qed.

(** A write keeps what other calls have read: its version is new. *)
Lemma read_stored s s' at1 at2 lease w l0 :
  stored objects issued s s' at1 lease w -> read s at2 l0 -> read s' at2 l0.
Proof.
  intros (v & Hnew & -> & Hobj & Hiss) (v0 & Hv0 & Hin & Hread). exists v0.
  split_and!; [done|rewrite Hiss; set_solver|]. intros cur. rewrite Hobj.
  destruct (decide (at1 = at2)) as [->|]; [rewrite lookup_insert_eq|rewrite lookup_insert_ne by done; auto].
  intros [= <-] [= ->]. done.
Qed.

Lemma pending_stored s s' at1 lease w p :
  stored objects issued s s' at1 lease w -> pending_ok s p -> pending_ok s' p.
Proof.
  intros Hst. destruct p as [request name l|key now name l]; simpl.
  - intros [-> [Hn|(l0 & Hr & Hl)]]; split; [done|by left|done|]. right. exists l0. eauto using read_stored.
  - intros (-> & l0 & cur & Hr & Hc). split; [done|]. exists l0, cur. eauto using read_stored.
Qed.

Lemma pending_unchanged s s' p : unchanged objects issued s s' -> pending_ok s p -> pending_ok s' p.
Proof.
  intros [Hobj Hiss]. destruct p as [request name l|key now name l]; simpl; unfold read; by rewrite Hobj, Hiss.
Qed.

(** ** What a write does to the lease *)

(** What a stored lease says of a key: nothing, when it is another key's. *)
Definition lease_head (key : PartitionLeaseKey) (lease : Lease) : head :=
  match validate_lease_key lease key with
  | Err _ => None
  | Ok _ => s ← spec lease; epoch ← lease_transitions s; Some (epoch, holder s)
  end.

Definition head_at (x : system) (key : PartitionLeaseKey) : head :=
  objects (server x) !! location key ≫= lease_head key.

Lemma validate_version v lease key : validate_lease_key (with_version v lease) key = validate_lease_key lease key.
Proof. done. Qed.

Lemma lease_head_version v lease key : lease_head key (with_version v lease) = lease_head key lease.
Proof. done. Qed.

Lemma validate_same_meta l1 l2 key : metadata l1 = metadata l2 -> validate_lease_key l1 key = validate_lease_key l2 key.
Proof. unfold validate_lease_key, request_key_from_lease. by intros ->. Qed.

Lemma validate_key_unique lease k1 k2 u1 u2 :
  validate_lease_key lease k1 = Ok u1 -> validate_lease_key lease k2 = Ok u2 -> k1 = k2.
Proof.
  unfold validate_lease_key. destruct (request_key_from_lease lease) as [k|]; simpl; [|done].
  do 2 (case_bool_decide; [|done]). congruence.
Qed.

Lemma validate_namespace lease key u :
  validate_lease_key lease key = Ok u -> meta_namespace (metadata lease) = Some (namespace key).
Proof.
  unfold validate_lease_key, request_key_from_lease. intros Hv. simplify_res.
  case_bool_decide; simplify_res. done.
Qed.

Lemma lease_epoch_ok lease e : lease_epoch lease = Ok e ->
  exists s, spec lease = Some s /\ lease_transitions s = Some e /\ 0 <= e.
Proof.
  unfold lease_epoch, lease_spec. intros He. simplify_res.
  match type of He with (if ?b then _ else _) = _ => destruct b eqn:Hb end; [done|].
  simplify_res. apply Z.ltb_ge in Hb. eauto.
Qed.

Lemma current_grant_head key lease now g :
  current_grant_from_lease key lease now = Ok (Some g) -> lease_head key lease = head_of g /\ grant_key g = key.
Proof.
  unfold current_grant_from_lease, lease_head. intros (u & -> & Hg)%bind_ok.
  apply bind_ok in Hg as (s & Hs & Hg). apply ok_or_ok in Hs. apply bind_ok in Hg as (d & _ & Hg).
  apply bind_ok in Hg as (e & He & Hg). apply lease_epoch_ok in He as (s' & Hs' & Ht & _).
  rewrite Hs in Hs'. injection Hs' as <-. rewrite Hs. simpl. rewrite Ht. simpl.
  destruct (holder s) as [owner|]; [|done].
  simplify_res. match goal with H : context [if ?b then _ else _] |- _ => destruct b end; by simplify_res.
Qed.

Lemma current_grant_valid key lease now r : current_grant_from_lease key lease now = Ok r ->
  exists u, validate_lease_key lease key = Ok u.
Proof. unfold current_grant_from_lease. intros Hg. simplify_res. eauto. Qed.

(** A takeover needs a lease whose grant is over at the caller's time; a renewal
    needs the caller's own grant. *)
Lemma renew_facts request l0 lease : renew_or_reacquire_lease request l0 = Ok lease ->
  metadata lease = metadata l0 /\
  ((current_grant_from_lease (request_key request) l0 (now_unix_ms request) = Ok None /\
    exists e h, lease_head (request_key request) l0 = Some (e, h) /\
      lease_head (request_key request) lease = Some (e + 1, if String.eqb (request_owner request) "" then None else Some (request_owner request)))
   \/ exists cur, current_grant_from_lease (request_key request) l0 (now_unix_ms request) = Ok (Some cur) /\
      owner_id cur = request_owner request /\
      lease_head (request_key request) lease = lease_head (request_key request) l0).
Proof.
  unfold renew_or_reacquire_lease. intros (u & Hval & Hr)%bind_ok.
  apply bind_ok in Hr as (previous & Hprev & Hr). apply bind_ok in Hr as (pe & Hpe & Hr).
  apply lease_epoch_ok in Hpe as (s0 & Hs0 & Ht0 & _).
  apply bind_ok in Hr as (epoch & Hep & Hr). apply bind_ok in Hr as (s1 & Hs1 & Hr).
  apply bind_ok in Hr as (ttl & _ & Hr). apply bind_ok in Hr as (tr & Htr & Hr).
  destruct (epoch <=? i32_max); [|done]. injection Htr as <-.
  apply bind_ok in Hr as (renewed & _ & Hr). apply bind_ok in Hr as (acq & _ & [= <-]).
  split; [done|].
  assert (Hnew : forall sp, lease_head (request_key request) (LeaseObject (metadata l0) (Some sp)) =
    (e ← lease_transitions sp; Some (e, holder sp))).
  { intros sp. unfold lease_head. by rewrite (validate_same_meta _ l0), Hval. }
  rewrite Hnew. assert (Hold : lease_head (request_key request) l0 = Some (pe, holder s0)).
  { unfold lease_head. rewrite Hval, Hs0. simpl. by rewrite Ht0. }
  rewrite Hold. destruct previous as [cur|]; simpl in Hep.
  - right. exists cur. destruct (String.eqb_spec (owner_id cur) (request_owner request)) as [Ho|]; [|done].
    injection Hep as <-. split_and!; [done..|]. apply current_grant_head in Hprev as [Hhead _].
    rewrite Hold in Hhead. injection Hhead as -> Hh. simpl. rewrite Hh, Ho. unfold holder; simpl.
    revert Hh. unfold holder. destruct (holder_identity s0) as [o|]; [|done].
    destruct (String.eqb_spec o ""); [done|]. intros [= ->]. rewrite <-Ho.
    by destruct (String.eqb_spec (owner_id cur) "").
  - left. split; [done|]. apply ok_or_ok, checked_u64_some in Hep as [-> _]. eauto.
Qed.

Lemma new_lease_meta request name lease : new_lease request name = Ok lease ->
  meta_name (metadata lease) = Some name /\ meta_namespace (metadata lease) = Some (namespace (request_key request)) /\
  resource_version (metadata lease) = None.
Proof. unfold new_lease. intros Hn. by simplify_res. Qed.

(** A conditional write takes effect only on the lease that was read. *)
Lemma replace_effect {s ns name l0 lease s' r} :
  meta_namespace (metadata lease) = Some ns -> metadata lease = metadata l0 -> read s (ns, name) l0 ->
  replace s name lease = (s', r) ->
  (unchanged objects issued s s' /\ is_ok r = false) \/
  exists w, stored objects issued s s' (ns, name) lease w /\ (r = Ok w \/ is_ok r = false) /\
    objects s !! (ns, name) = Some l0.
Proof.
  intros Hns Hm (v & Hv & _ & Hread) Hrep. rewrite <-Hm in Hv.
  destruct (replace_outcome s ns name lease s' r) as [Hu|(w & (o & Ho & Hver) & Hst & Hr)];
    [done|by rewrite Hv|done|by left|right].
  exists w. split_and!; [done..|]. rewrite Ho. f_equal. apply Hread; [done|congruence].
Qed.

Lemma acquire_effect s request name lease s' r :
  pending_ok s (PendingAcquire request name lease) -> write_lease s name lease = (s', r) ->
  (unchanged objects issued s s' /\ is_ok r = false) \/
  exists w, stored objects issued s s' (location (request_key request)) lease w /\ (r = Ok w \/ is_ok r = false) /\
    (objects s !! location (request_key request) = None \/
     exists l0, objects s !! location (request_key request) = Some l0 /\ renew_or_reacquire_lease request l0 = Ok lease).
Proof.
  intros [-> [Hn|(l0 & Hread & Hl)]]; unfold write_lease.
  - destruct (new_lease_meta _ _ _ Hn) as (Hname & Hns & ->). intros Hc.
    destruct (create_outcome s _ _ lease s' r Hns Hname Hc) as [Hu|(w & Ho & Hst & Hr)]; [by left|right].
    exists w. split_and!; [done..|]. by left.
  - destruct (renew_facts _ _ _ Hl) as [Hm _].
    assert (Hns : meta_namespace (metadata lease) = Some (namespace (request_key request))).
    { rewrite Hm. unfold renew_or_reacquire_lease in Hl. apply bind_ok in Hl as (u & Hv & _). by eapply validate_namespace. }
    destruct Hread as (v & Hv & Hread). rewrite Hm, Hv. intros Hrep.
    destruct (replace_effect Hns Hm (ex_intro _ v (conj Hv Hread)) Hrep) as [Hu|(w & Hst & Hr & Ho)]; [by left|right].
    exists w. split_and!; [done..|]. right. by exists l0.
Qed.

Lemma release_effect s key now name lease s' r :
  pending_ok s (PendingRelease key now name lease) -> finish_release s name lease = (s', r) ->
  unchanged objects issued s s' \/
  exists w l0 cur, stored objects issued s s' (location key) lease w /\
    objects s !! location key = Some l0 /\ current_grant_from_lease key l0 now = Ok (Some cur) /\
    released_lease l0 now = Ok lease.
Proof.
  intros (-> & l0 & cur & Hread & Hcur & Hrel). unfold finish_release.
  destruct (replace s (lease_name key) lease) as [s1 r1] eqn:Hrep. intros [= <- <-].
  assert (Hm : metadata lease = metadata l0) by (unfold released_lease in Hrel; by simplify_res).
  assert (Hns : meta_namespace (metadata lease) = Some (namespace key)).
  { rewrite Hm. destruct (current_grant_valid _ _ _ _ Hcur) as [u Hu]. by eapply validate_namespace. }
  destruct (replace_effect Hns Hm Hread Hrep) as [[Hu _]|(w & Hst & Hr & Ho)]; [by left|right].
  exists w, l0, cur. done.
Qed.

(** ** Heads advance *)

Lemma released_head key l0 now cur lease :
  current_grant_from_lease key l0 now = Ok (Some cur) -> released_lease l0 now = Ok lease ->
  lease_head key lease = Some (owner_epoch cur, None) /\ metadata lease = metadata l0.
Proof.
  intros Hcur Hrel. destruct (current_grant_valid _ _ _ _ Hcur) as [u Hval].
  apply current_grant_head in Hcur as [Hhead _]. unfold released_lease, lease_spec in Hrel.
  apply bind_ok in Hrel as (s0 & Hs0%ok_or_ok & Hrel). apply bind_ok in Hrel as (t & _ & [= <-]). split; [|done].
  unfold lease_head in *. rewrite (validate_same_meta _ l0), Hval by done. rewrite Hval, Hs0 in Hhead. simpl in *.
  destruct (lease_transitions s0); [|done]. simpl in *. by injection Hhead as -> _.
Qed.

Lemma stored_advances s s' ps ps' key lease w :
  stored objects issued s s' (location key) lease w ->
  (objects s !! location key = None \/ exists l0, objects s !! location key = Some l0 /\
     (exists u, validate_lease_key l0 key = Ok u) /\ advances (lease_head key l0) (lease_head key lease)) ->
  forall k, advances (head_at (System s ps) k) (head_at (System s' ps') k).
Proof.
  intros (v & _ & -> & Hobj & _) Hold k. unfold head_at; cbn [server]. rewrite Hobj.
  destruct (decide (location key = location k)) as [Hloc|]; [|by rewrite lookup_insert_ne].
  rewrite <-Hloc, lookup_insert_eq. destruct Hold as [->|(l0 & -> & [u Hu] & Hadv)]; [done|]. simpl.
  rewrite lease_head_version. destruct (decide (key = k)) as [<-|Hne]; [done|].
  unfold lease_head at 1. destruct (validate_lease_key l0 k) eqn:Hk; [|done].
  by destruct Hne; eapply validate_key_unique.
Qed.

Lemma renew_advances request l0 lease : renew_or_reacquire_lease request l0 = Ok lease ->
  (exists u, validate_lease_key l0 (request_key request) = Ok u) /\
  advances (lease_head (request_key request) l0) (lease_head (request_key request) lease).
Proof.
  intros Hl. split.
  - unfold renew_or_reacquire_lease in Hl. apply bind_ok in Hl as (u & Hv & _). eauto.
  - destruct (renew_facts _ _ _ Hl) as [_ [(_ & e & h & -> & ->)|(cur & _ & _ & ->)]]; [simpl; left; lia|done].
Qed.

Lemma step_advances x x' gs k : system_ok x -> step x x' gs -> advances (head_at x k) (head_at x' k).
Proof.
  intros Hok Hstep. destruct Hstep as [| |s ps1 ps2 request name lease s' r Hf|s ps1 ps2 key now name lease s' r Hf|];
    try done; apply Forall_app in Hok as [_ [Hp _]%Forall_cons]; cbn [server] in Hp.
  - unfold finish_acquire in Hf. destruct (write_lease s name lease) as [s1 r1] eqn:Hw. injection Hf as <- _.
    destruct (acquire_effect _ _ _ _ _ _ Hp Hw) as [[[Ho _] _]|(w & Hst & _ & Hold)].
    { unfold head_at; simpl. by rewrite Ho. }
    eapply stored_advances; [exact Hst|]. destruct Hold as [?|(l0 & Hl0 & Hl)]; [by left|right].
    exists l0. split; [done|]. by apply renew_advances.
  - destruct (release_effect _ _ _ _ _ _ _ Hp Hf) as [[Ho _]|(w & l0 & cur & Hst & Hl0 & Hcur & Hrel)].
    { unfold head_at; simpl. by rewrite Ho. }
    eapply stored_advances; [exact Hst|]. right. exists l0. split; [done|].
    split; [by eapply current_grant_valid|]. destruct (released_head _ _ _ _ _ Hcur Hrel) as [-> _].
    apply current_grant_head in Hcur as [-> _]. simpl. auto.
Qed.

Lemma step_grants x x' gs : system_ok x -> step x x' gs ->
  gs = [] \/ exists g, gs = [g] /\ head_at x' (grant_key g) = head_of g.
Proof.
  intros Hok Hstep. destruct Hstep as [| |s ps1 ps2 request name lease s' r Hf| |]; [by left|by left| |by left|by left].
  apply Forall_app in Hok as [_ [Hp _]%Forall_cons]; cbn [server] in Hp.
  destruct r as [g|]; [right|by left]. exists g. split; [done|].
  unfold finish_acquire in Hf. destruct (write_lease s name lease) as [s1 r1] eqn:Hw. injection Hf as <- Hg.
  apply bind_ok in Hg as (w' & -> & Hg). apply bind_ok in Hg as (og & Hog & Hg%ok_or_ok). subst og.
  destruct (acquire_effect _ _ _ _ _ _ Hp Hw) as [[_ ?]|(w & (v & _ & -> & Hobj & _) & [[= ->]|?] & _)]; [done| |done].
  apply current_grant_head in Hog as [Hhead Hkey]. unfold head_at; cbn [server]. rewrite Hkey, Hobj, lookup_insert_eq. done.
Qed.

Lemma step_ok x x' gs : system_ok x -> step x x' gs -> system_ok x'.
Proof.
  intros Hok Hstep. destruct Hstep as [s ps request name lease Hb|s ps key owner epoch now name lease Hb
    |s ps1 ps2 request name lease s' r Hf|s ps1 ps2 key now name lease s' r Hf|s ps1 p ps2]; unfold system_ok in *; cbn [server inflight] in *.
  - constructor; [by apply begin_acquire_ok|done].
  - constructor; [by eapply begin_release_ok|done].
  - apply Forall_app in Hok as [H1 [Hp H2]%Forall_cons].
    unfold finish_acquire in Hf. destruct (write_lease s name lease) as [s1 r1] eqn:Hw. injection Hf as <- _.
    assert (forall q, pending_ok s q -> pending_ok s1 q) as Himpl.
    { destruct (acquire_effect _ _ _ _ _ _ Hp Hw) as [[Hu _]|(w & Hst & _)]; eauto using pending_unchanged, pending_stored. }
    apply Forall_app; split; eapply Forall_impl; eauto.
  - apply Forall_app in Hok as [H1 [Hp H2]%Forall_cons].
    assert (forall q, pending_ok s q -> pending_ok s' q) as Himpl.
    { destruct (release_effect _ _ _ _ _ _ _ Hp Hf) as [Hu|(w & l0 & cur & Hst & _)]; eauto using pending_unchanged, pending_stored. }
    apply Forall_app; split; eapply Forall_impl; eauto.
  - apply Forall_app in Hok as [H1 [Hp H2]%Forall_cons]. by apply Forall_app.
Qed.

(** The lease to write names the caller. *)
Lemma pending_holder s request name lease : pending_ok s (PendingAcquire request name lease) ->
  exists sp, spec lease = Some sp /\ holder_identity sp = Some (request_owner request).
Proof.
  intros [_ [Hn|(l0 & _ & Hl)]].
  - unfold new_lease in Hn. simplify_res. eauto.
  - unfold renew_or_reacquire_lease in Hl. do 8 (apply bind_ok in Hl as (? & _ & Hl)).
    apply bind_ok in Hl as (? & _ & [= <-]). eauto.
Qed.

Lemma head_holder key lease sp owner g :
  spec lease = Some sp -> holder_identity sp = Some owner -> lease_head key lease = head_of g -> owner_id g = owner.
Proof.
  unfold lease_head, holder. intros -> Ho. simpl. destruct (validate_lease_key lease key); [|done].
  destruct (lease_transitions sp); [|done]. simpl. rewrite Ho. by destruct (String.eqb owner ""); intros [= _ ->].
Qed.

(** The steps of a system whose invariant holds. *)
Definition ok_step (x x' : system) (gs : list PartitionLeaseGrant) : Prop := system_ok x /\ step x x' gs.

Lemma steps_ok x x' gs : system_ok x -> steps step x x' gs -> steps ok_step x x' gs /\ system_ok x'.
Proof.
  intros Hok Hsteps. induction Hsteps as [|s1 s2 s3 gs gs' Hstep Hsteps IH]; [split; [constructor|done]|].
  destruct IH as [IH Hok3]; [by eapply step_ok|]. split; [|done]. econstructor; [by split|done].
Qed.

(** C2: Epochs of Kubernetes leases are fencing tokens under any interleaving:
    with any number of clients whose acquire, renew and release calls overlap,
    crash half-way or lose the server's answer, and with any clocks, the
    epochs granted for a key never decrease in the order of their grants and
    two grants with the same epoch have the same owner. *)
Theorem kube_leases_fenced s x' gs : steps step (System s []) x' gs -> fenced gs.
Proof.
  intros Hsteps. apply steps_ok in Hsteps as [Hsteps _]; [|by apply Forall_nil].
  eapply (steps_fenced ok_step head_at); [| |exact Hsteps].
  - intros y y' gs' k [Hok Hstep]. by eapply step_advances.
  - intros y y' gs' [Hok Hstep]. by eapply step_grants.
Qed.

(** The lease a write replaced: none, one that holds no grant at the time of the
    request, or one whose grant is the same owner's and epoch's. *)
Definition free_or_own (old : option Lease) (request : LeaseAcquireRequest) (g : PartitionLeaseGrant) : Prop :=
  match old with
  | None => True
  | Some l0 => exists cur, current_grant_from_lease (request_key request) l0 (now_unix_ms request) = Ok cur /\
      match cur with
      | None => True
      | Some c => owner_id c = owner_id g /\ owner_epoch c = owner_epoch g
      end
  end.

(** No takeover of a running lease: when a call is granted a lease, the
    object that its write replaced was absent, held no grant at the call's
    time (released or expired), or was the caller's own grant, which keeps its
    epoch; whatever happened between the call's read and its write. *)
Theorem kube_no_takeover s x gs0 x' g :
  steps step (System s []) x gs0 -> step x x' [g] ->
  exists request, grant_key g = request_key request /\ owner_id g = request_owner request /\
    free_or_own (objects (server x) !! location (grant_key g)) request g.
Proof.
  intros Hsteps Hstep. apply steps_ok in Hsteps as [_ Hok]; [|by apply Forall_nil].
  inversion Hstep as [| |s1 ps1 ps2 request name lease s' r Hf Hx Hx' Hr| |]; subst.
  apply Forall_app in Hok as [_ [Hp _]%Forall_cons]; cbn [server] in *.
  destruct r as [g'|]; [|done]. injection Hr as ->. exists request.
  unfold finish_acquire in Hf. destruct (write_lease s1 name lease) as [s2 r1] eqn:Hw. injection Hf as <- Hg.
  apply bind_ok in Hg as (w' & -> & Hg). apply bind_ok in Hg as (og & Hog & Hg%ok_or_ok). subst og.
  destruct (acquire_effect _ _ _ _ _ _ Hp Hw) as [[_ ?]|(w & (v & _ & -> & _) & [[= ->]|?] & Hold)]; [done| |done].
  apply current_grant_head in Hog as [Hhead Hkey]. rewrite Hkey in *. rewrite lease_head_version in Hhead. unfold free_or_own.
  destruct (pending_holder _ _ _ _ Hp) as (sp & Hsp & Hown).
  assert (Howner : owner_id g = request_owner request) by by eapply head_holder.
  split_and!; [done..|]. destruct Hold as [->|(l0 & -> & Hl)]; [done|].
  destruct (renew_facts _ _ _ Hl) as [_ [(Hnone & _)|(cur & Hcur & Ho & Hsame)]]; [by exists None|].
  exists (Some cur). split; [done|]. apply current_grant_head in Hcur as [Hc _].
  rewrite Hsame, Hc in Hhead. injection Hhead as He Hi. done.
Qed.
End interleaving.

(** * The first grant *)

Lemma parse_u32_nat_to_string n : is_u32 n = true -> parse_u32 (nat_to_string n) = Some n.
Proof.
  intros Hn. assert (Hr : 0 <= n < 10 ^ 39) by range.
  destruct (digits_spec n Hr) as [Hd Hu]. pose proof (digits_nonempty n Hr) as Hne.
  unfold parse_u32, nat_to_string.
  destruct (digits n) as [|d l] eqn:Hl; [done|]. cbn [digits_string]. apply Forall_cons in Hd as [Hd Hds].
  rewrite digit_char_byte by done. assert ((48 + d =? 43) = false) as -> by (apply Z.eqb_neq; unfold digit in Hd; lia).
  change (String (digit_char d) (digits_string l)) with (digits_string (d :: l)).
  rewrite all_digits_string by by constructor. rewrite string_digits_string by by constructor.
  rewrite Hu. simpl. by rewrite (proj2 (Z.leb_le _ _)) by range.
Qed.

Lemma nat_to_string_nonempty n : 0 <= n < 10 ^ 39 -> nat_to_string n <> "".
Proof.
  intros Hn. unfold nat_to_string. pose proof (digits_nonempty n Hn) as Hne. by destruct (digits n).
Qed.

Lemma nonblank_nonempty s : is_blank s = false -> s <> "".
Proof. by intros Hb ->. Qed.

Lemma validate_request_ok request : validate_request request = Ok tt ->
  view_id (request_key request) <> "" /\ stream_id (request_key request) <> "" /\ request_owner request <> "" /\
  ttl_ms request <> 0.
Proof.
  unfold validate_request, lift_lease, validate_key, validate_owner_id, validate_key_field. intros Hv.
  destruct (is_blank (namespace _)); [done|]. simpl in Hv. destruct (is_blank (view_id _)) eqn:H1; [done|]. simpl in Hv.
  destruct (is_blank (stream_id _)) eqn:H2; [done|]. simpl in Hv. destruct (is_blank (request_owner _)) eqn:H3; [done|].
  simpl in Hv. destruct (Z.eqb_spec (ttl_ms request) 0); [done|]. split_and!; by try apply nonblank_nonempty.
Qed.

Section first_grant.
Context `{Jiff} `{!JiffLaws} {S : Type} `{!LeaseApi S} `{!LeaseApiLaws S}.

Lemma validate_annotated m sp key : meta_namespace m = Some (namespace key) ->
  view_id key <> "" -> stream_id key <> "" -> is_u32 (partition_id key) = true ->
  validate_lease_key (set_partition_annotations (LeaseObject m sp) key) key = Ok tt.
Proof.
  intros Hns Hv Hs Hp. unfold validate_lease_key, request_key_from_lease, set_partition_annotations.
  cbn [metadata meta_namespace annotations]. rewrite Hns. cbn [ok_or]. rewrite !Ok_bind. unfold annotation.
  rewrite lookup_insert_eq. rewrite (lookup_insert_ne _ PARTITION_ID_ANNOTATION VIEW_ID_ANNOTATION) by done.
  rewrite (lookup_insert_ne _ STREAM_ID_ANNOTATION VIEW_ID_ANNOTATION) by done. rewrite lookup_insert_eq.
  rewrite (lookup_insert_ne _ PARTITION_ID_ANNOTATION STREAM_ID_ANNOTATION) by done. rewrite lookup_insert_eq.
  destruct (String.eqb_spec (nat_to_string (partition_id key)) "") as [He|_];
    [by apply nat_to_string_nonempty in He; [|range]|].
  destruct (String.eqb_spec (view_id key) ""); [done|]. destruct (String.eqb_spec (stream_id key) ""); [done|].
  rewrite Ok_bind, parse_u32_nat_to_string by done. cbn [ok_or]. rewrite !Ok_bind.
  rewrite bool_decide_true; [done|]. by destruct key.
Qed.

(** The lease of a first request, at its time and whole seconds. *)
Definition first_lease (request : LeaseAcquireRequest) (t : Timestamp) (ttl : Z) : Lease :=
  set_partition_annotations (LeaseObject (Meta (Some (lease_name (request_key request)))
    (Some (namespace (request_key request))) None None)
    (Some (Spec (Some t) (Some (request_owner request)) (Some ttl) (Some 1) (Some t)))) (request_key request).

Lemma new_lease_first request t : from_millisecond (now_unix_ms request) = Some t ->
  0 <= now_unix_ms request <= 253402207200999 -> 0 <= ttl_ms request <= 1000 * i32_max ->
  new_lease request (lease_name (request_key request)) = Ok (first_lease request t ((ttl_ms request + 999) / 1000)).
Proof.
  intros Ht Hnow Httl. unfold new_lease, ttl_seconds, micro_time_from_unix_ms.
  assert (checked_u64 (ttl_ms request + 999) = Some (ttl_ms request + 999)) as -> by
    (apply checked_u64_some; unfold i32_max in *; split; [done|range]).
  assert (checked_i64 (now_unix_ms request) = Some (now_unix_ms request)) as -> by
    (apply checked_i64_some; split; [done|range]).
  cbn [ok_or]. rewrite !Ok_bind. rewrite (proj2 (Z.leb_le ((ttl_ms request + 999) / 1000) _)); [by rewrite Ht|].
  unfold i32_max in *. apply Z.lt_succ_r, Z.div_lt_upper_bound; lia.
Qed.

Lemma first_lease_grant request t ttl v : validate_request request = Ok tt ->
  is_u32 (partition_id (request_key request)) = true -> as_millisecond t = now_unix_ms request ->
  0 <= now_unix_ms request <= 253402207200999 -> 1 <= ttl <= i32_max ->
  current_grant_from_lease (request_key request) (with_version v (first_lease request t ttl)) (now_unix_ms request) =
    Ok (Some (Grant (request_key request) (request_owner request) 1 (now_unix_ms request + 1000 * ttl))).
Proof.
  intros Hreq Hp Ht Hnow Httl. destruct (validate_request_ok _ Hreq) as (Hv & Hs & Ho & _).
  unfold current_grant_from_lease, first_lease. rewrite validate_version, validate_annotated by done.
  rewrite Ok_bind. unfold lease_spec, lease_epoch, lease_spec. cbn [spec with_version set_partition_annotations ok_or].
  rewrite !Ok_bind. cbn [lease_transitions ok_or]. rewrite Ok_bind. change (1 <? 0) with false. cbn match.
  unfold lease_duration_ms. cbn [lease_duration_seconds ok_or]. rewrite Ok_bind, (proj2 (Z.leb_gt ttl 0)) by lia.
  cbn [fail_if]. rewrite Ok_bind. unfold i32_max in Httl.
  assert (checked_u64 (ttl * 1000) = Some (ttl * 1000)) as -> by (apply checked_u64_some; split; [done|range]).
  cbn [ok_or]. rewrite !Ok_bind. unfold holder. cbn [holder_identity].
  destruct (String.eqb_spec (request_owner request) ""); [done|]. change (1 =? 0) with false. cbn [fail_if renew_time ok_or].
  rewrite !Ok_bind. unfold unix_ms_from_micro_time. rewrite Ht.
  assert (checked_u64 (now_unix_ms request) = Some (now_unix_ms request)) as -> by
    (apply checked_u64_some; split; [done|range]).
  cbn [ok_or]. rewrite Ok_bind.
  assert (checked_u64 (now_unix_ms request + ttl * 1000) = Some (now_unix_ms request + ttl * 1000)) as -> by
    (apply checked_u64_some; split; [done|range]).
  cbn [ok_or]. rewrite Ok_bind, (proj2 (Z.leb_gt _ _)) by lia. do 3 f_equal. lia.
Qed.

(** A first acquire succeeds and says what was asked: when no lease exists
    and the server accepts the new one, a valid request with a time up to the
    year 9999 and a duration that fits the API's seconds is granted epoch 1 and
    an expiry of at least the time asked for, rounded up to whole seconds. *)
Theorem kube_first_grant s request :
  validate_request request = Ok tt -> is_u32 (partition_id (request_key request)) = true ->
  0 <= now_unix_ms request <= 253402207200999 -> 0 <= ttl_ms request <= 1000 * i32_max ->
  get s (namespace (request_key request)) (lease_name (request_key request)) = Ok None ->
  (forall lease, new_lease request (lease_name (request_key request)) = Ok lease -> is_ok (create s lease).2 = true) ->
  (acquire_or_renew_kubernetes s request).2 =
    Ok (Grant (request_key request) (request_owner request) 1
         (now_unix_ms request + 1000 * ((ttl_ms request + 999) / 1000))).
Proof.
  intros Hreq Hp Hnow Httl Hget Hcreate. destruct (validate_request_ok _ Hreq) as (_ & _ & _ & Hnz).
  destruct (from_millisecond_range _ Hnow) as [t Ht]. pose proof (new_lease_first _ _ Ht Hnow Httl) as Hnew.
  set (ttl := (ttl_ms request + 999) / 1000) in *.
  assert (Httl' : 1 <= ttl <= i32_max).
  { unfold ttl, i32_max in *. split; [apply Z.div_le_lower_bound; lia|].
    apply Z.lt_succ_r, Z.div_lt_upper_bound; lia. }
  unfold acquire_or_renew_kubernetes, begin_acquire. rewrite Hreq, Ok_bind, Hget, Ok_bind, Hnew, Ok_bind.
  unfold finish_acquire, write_lease. specialize (Hcreate _ Hnew).
  change (resource_version (metadata (first_lease request t ttl))) with (@None string). cbn match.
  destruct (create s (first_lease request t ttl)) as [s' r] eqn:Hc. cbn [snd] in *.
  destruct (create_outcome s (namespace (request_key request)) (lease_name (request_key request))
    (first_lease request t ttl) s' r eq_refl eq_refl Hc) as [[_ Hr]|(w & _ & (v & _ & -> & _) & [->|Hr])];
    [congruence| |congruence].
  rewrite Ok_bind, first_lease_grant; [done..|by apply as_from_millisecond|done|done].
Qed.
End first_grant.

(** * Lease names *)

Section names.
Definition label_byte (b : Z) : bool := in_range 97 122 b || in_range 48 57 b || (b =? 45).

(** The object names the Kubernetes API accepts: a DNS subdomain without dots. *)
Definition dns_name (s : string) : bool :=
  let b := as_bytes s in
  forallb label_byte b && Nat.leb (length b) 253 &&
  match hd_error b, last b with Some x, Some y => negb (x =? 45) && negb (y =? 45) | _, _ => false end.

Lemma label_byte_range b : label_byte b = true -> 0 <= b < 256.
Proof. unfold label_byte, in_range. lia. Qed.

Lemma dns_label_push_inv max_len piece b :
  forallb label_byte piece = true /\ (length piece <= max_len)%nat ->
  forallb label_byte (dns_label_push max_len piece b) = true /\ (length (dns_label_push max_len piece b) <= max_len)%nat.
Proof.
  intros [Hp Hl]. unfold dns_label_push. cbv zeta.
  match goal with |- context [if in_range 97 122 b || in_range 48 57 b then ?x else ?y] =>
    set (next := if in_range 97 122 b || in_range 48 57 b then x else y) end.
  assert (label_byte next = true).
  { unfold next, label_byte, in_range. repeat case_match; lia. }
  match goal with |- context [if ?c then piece ++ _ else _] => destruct c eqn:Hc end; [|done].
  apply andb_true_iff in Hc as [Hc%Nat.ltb_lt _].
  rewrite length_app, forallb_app. cbn [forallb length]. split; [|lia]. by rewrite Hp, H.
Qed.

Lemma drop_dashes_suffix l : exists l', l = l' ++ drop_dashes l.
Proof.
  induction l as [|b l [l' IH]]; [by exists []|]. simpl. destruct b as [|b|]; [by exists []| |by exists []].
  repeat (destruct b as [b|b|]; try by exists []). exists (45 :: l'). simpl. by rewrite <-IH.
Qed.

Lemma trim_dashes_inv max_len l : forallb label_byte l = true /\ (length l <= max_len)%nat ->
  forallb label_byte (trim_dashes l) = true /\ (length (trim_dashes l) <= max_len)%nat.
Proof.
  intros [Hp Hl]. unfold trim_dashes. destruct (drop_dashes_suffix l) as [l1 H1].
  destruct (drop_dashes_suffix (rev (drop_dashes l))) as [l2 H2].
  assert (H3 : drop_dashes l = rev (drop_dashes (rev (drop_dashes l))) ++ rev l2).
  { rewrite <-rev_app_distr, <-H2, rev_involutive. done. }
  rewrite H1, H3, forallb_app, forallb_app in Hp. rewrite H1, H3, !length_app in Hl.
  apply andb_true_iff in Hp as [_ [Hp _]%andb_true_iff]. split; [done|lia].
Qed.

Lemma forallb_label_range l : forallb label_byte l = true -> Forall (fun b => 0 <= b < 256) l.
Proof.
  intros Hl. apply Forall_forall. intros b Hb. apply label_byte_range.
  rewrite forallb_forall in Hl. by apply Hl, list_elem_of_In.
Qed.

Lemma dns_label_piece_inv value max_len : (9 <= max_len)%nat ->
  forallb label_byte (as_bytes (dns_label_piece value max_len)) = true /\
  (length (as_bytes (dns_label_piece value max_len)) <= max_len)%nat.
Proof.
  intros Hm. unfold dns_label_piece. set (folded := foldl _ _ _).
  assert (Hf : forallb label_byte folded = true /\ (length folded <= max_len)%nat).
  { unfold folded. assert (H0 : forallb label_byte [] = true /\ (length (@nil Z) <= max_len)%nat) by (simpl; split; [done|lia]).
    revert H0. generalize (@nil Z). induction (as_bytes value) as [|b l IH]; intros piece Hp; [done|].
    simpl. apply IH. by apply dns_label_push_inv. }
  apply trim_dashes_inv in Hf as [Hf1 Hf2]. destruct (trim_dashes folded) as [|b l] eqn:Ht.
  - split; [done|]. simpl. lia.
  - rewrite as_bytes_of_bytes by by apply forallb_label_range. done.
Qed.

Lemma hex16_bytes n : as_bytes (hex16 n) =
  (fun i => hex_digit (n / 16 ^ i mod 16)) <$> [15; 14; 13; 12; 11; 10; 9; 8; 7; 6; 5; 4; 3; 2; 1; 0].
Proof.
  unfold hex16. apply as_bytes_of_bytes. apply Forall_fmap, Forall_forall. intros i _. simpl.
  pose proof (Z.mod_pos_bound (n / 16 ^ i) 16 ltac:(lia)). unfold hex_digit. case_match; lia.
Qed.

Lemma hex_digit_label n : label_byte (hex_digit (n mod 16)) = true /\ hex_digit (n mod 16) <> 45.
Proof.
  pose proof (Z.mod_pos_bound n 16 ltac:(lia)). unfold hex_digit, label_byte, in_range.
  destruct (Z.ltb_spec (n mod 16) 10); split; lia.
Qed.

Lemma partition_digits n : is_u32 n = true ->
  forallb label_byte (as_bytes (nat_to_string n)) = true /\ (length (as_bytes (nat_to_string n)) <= 10)%nat.
Proof.
  intros Hn. assert (Hr : 0 <= n < 10 ^ 39) by range. destruct (digits_spec n Hr) as [Hd _]. split.
  - unfold nat_to_string. induction Hd as [|d l Hd _ IH]; [done|]. unfold as_bytes in *. simpl.
    rewrite digit_char_byte by done. apply andb_true_iff. split; [|exact IH].
    unfold digit in Hd. unfold label_byte, in_range. lia.
  - rewrite length_as_bytes. apply length_nat_to_string; [done| |done]. assert (10 ^ 10 = 10000000000) by reflexivity. range.
Qed.

(** A lease name is a name the Kubernetes API accepts, whatever the view and
    stream are called: at most 118 characters, lower-case letters, digits and
    dashes only, and no dash at either end. *)
Theorem lease_name_is_dns_name key : is_u32 (partition_id key) = true ->
  dns_name (lease_name key) = true /\ (length (as_bytes (lease_name key)) <= 118)%nat.
Proof.
  intros Hp. unfold lease_name.
  destruct (dns_label_piece_inv (view_id key) 40) as [Hv1 Hv2]; [lia|].
  destruct (dns_label_piece_inv (stream_id key) 40) as [Hs1 Hs2]; [lia|].
  destruct (partition_digits _ Hp) as [Hp1 Hp2]. set (h := hex16 _).
  assert (Hh : exists l x, as_bytes h = l ++ [x] /\ length l = 15%nat /\ forallb label_byte l = true /\
    label_byte x = true /\ x <> 45).
  { unfold h. rewrite hex16_bytes. eexists (_ <$> [15; 14; 13; 12; 11; 10; 9; 8; 7; 6; 5; 4; 3; 2; 1]), _.
    split; [reflexivity|]. split; [done|]. split; [|apply hex_digit_label].
    apply forallb_forall. intros b (i & -> & _)%list_elem_of_In%list_elem_of_fmap. apply hex_digit_label. }
  destruct Hh as (l & x & Hh & Hl & Hl1 & Hx1 & Hx2). unfold dns_name.
  rewrite !as_bytes_app, Hh, !app_assoc, last_snoc, !length_app, !forallb_app, Hv1, Hs1, Hp1, Hl1. simpl.
  rewrite Hx1. simpl. rewrite (proj2 (Z.eqb_neq x 45)) by done.
  split; [|lia]. rewrite andb_true_r. apply Nat.leb_le. lia.
Qed.

Lemma lease_name_is_dns_name_witness :
  let key := LeaseKey "prod" "Orders--By_Region!" "EVENTS" 4294967295 in
  dns_name (lease_name key) = true /\ (length (as_bytes (lease_name key)) <= 118)%nat.
Proof. apply (lease_name_is_dns_name (LeaseKey "prod" "Orders--By_Region!" "EVENTS" 4294967295)). reflexivity. Defined.
End names.
