(* ===== verification/KubeServer.v ===== *)
(** A lease server that satisfies the assumptions of the Kubernetes lease
    client, and the witnesses of its theorems. *)
From stdpp Require Import gmap.
From S2P Require Import Prelude BTree Json Digits Segments Serde Decimal Lease KubeLease KubeLeaseProofs.

(** Times from the epoch to the end of the year 9999, by their milliseconds. *)
Definition plain_jiff : Jiff := {|
  Timestamp := Z;
  from_millisecond ms := if in_range 0 253402207200999 ms then Some ms else None;
  as_millisecond t := t
|}.
#[export] Existing Instance plain_jiff.

#[export] Instance plain_jiff_laws : JiffLaws.
Proof.
  split.
  - intros ms t. simpl. destruct (in_range 0 253402207200999 ms); congruence.
  - intros ms Hms. simpl. rewrite (proj2 (in_range_true _ _ _) Hms). eauto.
Qed.

(** Objects with their versions, and the versions of overwritten objects. *)
Record plain_server := Server {
  stored_objects : gmap (string * string) (string * Lease);
  old_versions : list string
}.

Definition object_versions (s : plain_server) : list string := (fst ∘ snd) <$> map_to_list (stored_objects s).
Definition all_versions (s : plain_server) : list string := old_versions s ++ object_versions s.

(** A version longer than all others. *)
Definition next_version (s : plain_server) : string :=
  zeros (S (foldr (fun v n => Nat.max (String.length v) n) O (all_versions s))).

Definition put_object (s : plain_server) (at_ : string * string) (lease : Lease) : plain_server * result kube_error Lease :=
  let v := next_version s in
  (Server (<[at_ := (v, lease)]> (stored_objects s)) (all_versions s), Ok (with_version v lease)).

#[export] Instance plain_kube : KubeApi plain_server := {
  kube_get s ns name :=
    match stored_objects s !! (ns, name) with
    | Some (v, lease) => Ok (with_version v lease)
    | None => Err (KubeError (Some 404) "not found")
    end;
  kube_create s ns lease :=
    match meta_name (metadata lease) with
    | None => (s, Err (KubeError (Some 422) "name required"))
    | Some name =>
        match stored_objects s !! (ns, name) with
        | Some _ => (s, Err (KubeError (Some 409) "already exists"))
        | None => put_object s (ns, name) lease
        end
    end;
  kube_replace s ns name lease :=
    match stored_objects s !! (ns, name) with
    | None => (s, Err (KubeError (Some 404) "not found"))
    | Some (v, _) =>
        if bool_decide (resource_version (metadata lease) = Some v) then put_object s (ns, name) lease
        else (s, Err (KubeError (Some 409) "conflict"))
    end
}.

Lemma length_zeros n : String.length (zeros n) = n.
Proof. induction n; simpl; congruence. Qed.

Lemma next_version_new s : next_version s ∉ all_versions s.
Proof.
  unfold next_version. set (m := foldr _ _ _). intros Hin.
  assert (forall l v, v ∈ l -> (String.length v <= foldr (fun v n => Nat.max (String.length v) n) O l)%nat) as Hmax.
  { clear. induction l as [|w l IH]; intros v; [set_solver|]. simpl. intros [->|Hv]%elem_of_cons; [lia|].
    specialize (IH v Hv). lia. }
  apply Hmax in Hin. rewrite length_zeros in Hin. unfold m in Hin. lia.
Qed.

Definition plain_objects (s : plain_server) : gmap (string * string) Lease :=
  (fun p => with_version p.1 p.2) <$> stored_objects s.
Definition plain_issued (s : plain_server) : gset string := list_to_set (all_versions s).

Lemma put_object_stored s at_ lease :
  stored plain_objects plain_issued s (put_object s at_ lease).1 at_ lease (with_version (next_version s) lease).
Proof.
  exists (next_version s). split_and!.
  - unfold plain_issued. rewrite elem_of_list_to_set. apply next_version_new.
  - done.
  - unfold plain_objects; simpl. by rewrite fmap_insert.
  - unfold plain_issued, put_object; simpl. unfold all_versions at 1; simpl. apply set_eq. intros x.
    rewrite !elem_of_union, !elem_of_list_to_set, elem_of_app, elem_of_singleton. split.
    + intros [?|Hx]; [by right|]. unfold object_versions in Hx; simpl in Hx.
      apply list_elem_of_fmap in Hx as ([a [v l]] & -> & Hin%elem_of_map_to_list). simpl.
      destruct (decide (at_ = a)) as [->|]; [rewrite lookup_insert_eq in Hin; left; congruence|].
      rewrite lookup_insert_ne in Hin by done. right. unfold all_versions. apply elem_of_app. right.
      apply list_elem_of_fmap. exists (a, (v, l)). by rewrite elem_of_map_to_list.
    + intros [->|?]; [|by left]. right. apply list_elem_of_fmap. exists (at_, (next_version s, lease)).
      rewrite elem_of_map_to_list. simpl. by rewrite lookup_insert_eq.
Qed.

Lemma lookup_plain_objects s at_ :
  plain_objects s !! at_ = (fun p => with_version p.1 p.2) <$> stored_objects s !! at_.
Proof. apply lookup_fmap. Qed.

#[export] Instance plain_kube_laws : KubeApiLaws plain_server.
Proof.
  refine {| kube_objects := plain_objects; kube_issued := plain_issued |}.
  - intros s ns name lease. simpl. rewrite lookup_plain_objects.
    destruct (stored_objects s !! (ns, name)) as [[v l]|]; [|done]. by intros [= <-].
  - intros s ns name lease s' r Hname. simpl. rewrite Hname.
    destruct (stored_objects s !! (ns, name)) as [[v l]|] eqn:Hs.
    + intros [= <- <-]. by left.
    + intros [= <- <-]. right. eexists. split_and!; [|apply put_object_stored|by left].
      by rewrite lookup_plain_objects, Hs.
  - intros s ns name lease s' r _. simpl.
    destruct (stored_objects s !! (ns, name)) as [[v l]|] eqn:Hs; [|intros [= <- <-]; by left].
    case_bool_decide as Hv; intros [= <- <-]; [|by left].
    right. eexists. split_and!; [|apply put_object_stored|by left].
    exists (with_version v l). by rewrite lookup_plain_objects, Hs, Hv.
  - intros s at_ lease. rewrite lookup_plain_objects.
    destruct (stored_objects s !! at_) as [[v l]|] eqn:Hs; [|done]. intros [= <-]. exists v. split; [done|].
    unfold plain_issued. rewrite elem_of_list_to_set. apply elem_of_app. right.
    apply list_elem_of_fmap. exists (at_, (v, l)). by rewrite elem_of_map_to_list.
Defined.

(** * A race for a lease *)

(** Both workers find no lease; the first to write gets it, the second is
    refused, and takes over once the first worker's time has run out. *)
Section race.
Definition race_key : PartitionLeaseKey := LeaseKey "prod" "Orders/View" "orders" 7.
Definition request_a : LeaseAcquireRequest := Acquire race_key "worker-a" 1000 1500.
Definition request_b : LeaseAcquireRequest := Acquire race_key "worker-b" 1001 1500.
Definition request_b' : LeaseAcquireRequest := Acquire race_key "worker-b" 3000 1500.

Definition begun (s : plain_server) (request : LeaseAcquireRequest) : string * Lease :=
  match begin_acquire s request with
  | Ok p => p
  | Err _ => ("", LeaseObject (Meta None None None None) None)
  end.
Definition finished (s : plain_server) (request : LeaseAcquireRequest) (p : string * Lease) :
    plain_server * result KubernetesLeaseError PartitionLeaseGrant :=
  finish_acquire s request p.1 p.2.
Definition granted {E} (r : result E PartitionLeaseGrant) : list PartitionLeaseGrant :=
  match r with Ok g => [g] | Err _ => [] end.

Definition server0 : plain_server := Server ∅ [].
Definition finish_a := finished server0 request_a (begun server0 request_a).
Definition finish_b := finished finish_a.1 request_b (begun server0 request_b).
Definition finish_b' := finished finish_b.1 request_b' (begun finish_b.1 request_b').

Lemma begun_step s ps request : is_ok (begin_acquire s request) = true ->
  step (System s ps) (System s (PendingAcquire request (begun s request).1 (begun s request).2 :: ps)) [].
Proof.
  intros Hok. apply step_begin_acquire. unfold begun. by destruct (begin_acquire s request) as [[name lease]|].
Qed.

Lemma finished_step s ps1 ps2 request p :
  step (System s (ps1 ++ PendingAcquire request p.1 p.2 :: ps2)) (System (finished s request p).1 (ps1 ++ ps2))
    (granted (finished s request p).2).
Proof. apply step_finish_acquire. unfold finished. by destruct (finish_acquire s request p.1 p.2). Qed.

Lemma race_begins : is_ok (begin_acquire server0 request_a) = true /\
  is_ok (begin_acquire server0 request_b) = true /\ is_ok (begin_acquire finish_b.1 request_b') = true.
Proof. split_and!; vm_compute; reflexivity. Qed.

Lemma race_grants : granted finish_a.2 = [Grant race_key "worker-a" 1 3000] /\ granted finish_b.2 = [] /\
  granted finish_b'.2 = [Grant race_key "worker-b" 2 5000].
Proof. split_and!; vm_compute; reflexivity. Qed.

Definition race_system : system :=
  System finish_b.1 [PendingAcquire request_b' (begun finish_b.1 request_b').1 (begun finish_b.1 request_b').2].
Definition grant_a : PartitionLeaseGrant := Grant race_key "worker-a" 1 3000.
Definition grant_b : PartitionLeaseGrant := Grant race_key "worker-b" 2 5000.

Lemma race_started : steps step (System server0 []) race_system [grant_a].
Proof.
  destruct race_begins as (Ha & Hb & Hb'), race_grants as (Ga & Gb & _).
  assert (Hs : steps step (System server0 []) race_system
    ([] ++ [] ++ granted finish_a.2 ++ granted finish_b.2 ++ [] ++ [])).
  { eapply steps_cons; [exact (begun_step server0 [] request_a Ha)|].
    eapply steps_cons; [exact (begun_step server0 _ request_b Hb)|].
    eapply steps_cons; [exact (finished_step server0 [_] [] request_a _)|].
    eapply steps_cons; [exact (finished_step finish_a.1 [] [] request_b _)|].
    eapply steps_cons; [exact (begun_step finish_b.1 [] request_b' Hb')|]. constructor. }
  rewrite Ga, Gb in Hs. exact Hs.
Qed.

Lemma race_finished : step race_system (System finish_b'.1 []) [grant_b].
Proof. unfold grant_b. destruct race_grants as (_ & _ & <-). apply (finished_step finish_b.1 [] []). Qed.

Lemma steps_snoc {S} (st : S -> S -> list PartitionLeaseGrant -> Prop) s1 s2 s3 gs gs' :
  steps st s1 s2 gs -> st s2 s3 gs' -> steps st s1 s3 (gs ++ gs').
Proof.
  induction 1 as [|t1 t2 t3 hs hs' Hst Hsteps IH]; intros Hlast.
  - cbn [app]. rewrite <-(app_nil_r gs'). eapply steps_cons; [exact Hlast|constructor].
  - rewrite <-app_assoc. eapply steps_cons; [exact Hst|auto].
Qed.

Lemma kube_leases_fenced_witness : fenced ([grant_a] ++ [grant_b]).
Proof.
  apply (kube_leases_fenced server0 (System finish_b'.1 [])).
  exact (steps_snoc _ _ _ _ _ _ race_started race_finished).
Defined.

Lemma kube_no_takeover_witness :
  exists request, grant_key grant_b = request_key request /\ owner_id grant_b = request_owner request /\
    free_or_own (objects (server race_system) !! location (grant_key grant_b)) request grant_b.
Proof. exact (kube_no_takeover server0 race_system [grant_a] _ grant_b race_started race_finished). Defined.

Lemma kube_first_grant_witness :
  (acquire_or_renew_kubernetes server0 request_a).2 = Ok (Grant race_key "worker-a" 1 (1000 + 1000 * ((1500 + 999) / 1000))).
Proof.
  apply (kube_first_grant server0 request_a); [reflexivity|reflexivity|simpl; lia|unfold i32_max; simpl; lia|reflexivity|].
  intros lease Hl. apply new_lease_meta in Hl as (Hname & Hns & _). cbn [create KubeLeaseApi]. unfold kube_lease_create.
  rewrite Hns. cbn [kube_create plain_kube]. rewrite Hname. reflexivity.
Defined.
End race.
