(* ===== verification/Window.v ===== *)
(** The partition-local ordered rows of window and Top-K operators,
    [velorix-runtime/src/window_partition_state.rs].

    [sort_by] is a stable sort when its comparison is a total order; the
    theorems ask for order values and keys of one JSON type, where it is one. *)
From stdpp Require Import sorting.
From S2P Require Import Prelude BTree Json Serde Text.

Module Window.

Record OrderedRow := Row {
  key : Value; partition_value : Value; order_value : Value; values : btree string Value; weight : Z
}.

Record WindowPartitionState := State { partitions : btree string (list OrderedRow); order_descending : bool }.

Definition new (order_descending : bool) : WindowPartitionState := State ∅ order_descending.

(** A finite [f64] by its place in the order: sign and magnitude. *)
Definition f64_key (bits : Z) : Z := if bits <? 2 ^ 63 then bits else 2 ^ 63 - bits.

Definition bool_cmp (a b : bool) : comparison :=
  match a, b with false, true => Lt | true, false => Gt | _, _ => Eq end.

Definition compare_values (a b : Value) : comparison :=
  match a, b with
  | JNull, JNull => Eq
  | JNull, _ => Lt
  | _, JNull => Gt
  | JNumber a, JNumber b => cmp (f64_key (default 0 (as_f64 a))) (f64_key (default 0 (as_f64 b)))
  | JString a, JString b => cmp a b
  | JBool a, JBool b => bool_cmp a b
  | _, _ => Eq
  end.

(** The comparison of the sort: [ord.reverse()] and [then_with]. *)
Definition compare_rows (descending : bool) (a b : OrderedRow) : comparison :=
  let ord := compare_values (order_value a) (order_value b) in
  let ord := if descending then CompOpp ord else ord in
  match ord with Eq => compare_values (key a) (key b) | _ => ord end.

Definition row_le (descending : bool) (a b : OrderedRow) : bool :=
  match compare_rows descending a b with Gt => false | _ => true end.

Section state.
Context `{SerdeJson}.

(** This module's canonical text: the fields sorted by name before printing. *)
Fixpoint canonical_json (value : Value) : string :=
  match value with
  | JNull => "null"
  | JBool false => "false"
  | JBool true => "true"
  | JNumber n => ser_number n
  | JString s => ser_string s
  | JArray values => "[" +:+ commas (canonical_json <$> values) +:+ "]"
  | JObject object =>
      let fields := sort_on fst ((fun f => (f.1, ser_string f.1 +:+ ":" +:+ canonical_json f.2)) <$> object) in
      "{" +:+ commas fields.*2 +:+ "}"
  end.

Definition partition_key (row : OrderedRow) : string := canonical_json (partition_value row).

(** The first loop, over one row: the set of affected keys is sorted. *)
Definition push_row (s : btree string (list OrderedRow) * btree string unit) (row : OrderedRow) :
    btree string (list OrderedRow) * btree string unit :=
  let '(ps, affected) := s in
  let k := partition_key row in
  (<[k := default [] (ps !! k) ++ [row]]> ps, <[k := tt]> affected).

(** The second loop, over one affected key. *)
Definition resort (descending : bool) (ps : btree string (list OrderedRow)) (k : string) : btree string (list OrderedRow) :=
  match ps !! k with
  | Some rows => <[k := sort_by (row_le descending) rows]> ps
  | None => ps
  end.

Definition apply_delta (st : WindowPartitionState) (rows : list OrderedRow) : WindowPartitionState * list string :=
  let '(ps, affected) := foldl push_row (partitions st, ∅) rows in
  (State (foldl (resort (order_descending st)) ps (entries affected).*1) (order_descending st), (entries affected).*1).

Definition get_partition (st : WindowPartitionState) (k : string) : option (list OrderedRow) := partitions st !! k.
Definition partition_keys (st : WindowPartitionState) : list string := (entries (partitions st)).*1.
Definition total_row_count (st : WindowPartitionState) : nat := sum_list (length <$> (entries (partitions st)).*2).
Definition partition_count (st : WindowPartitionState) : nat := length (entries (partitions st)).

Definition top_k (st : WindowPartitionState) (k : string) (n : nat) : list OrderedRow :=
  match partitions st !! k with
  | Some rows => take n rows
  | None => []
  end.

Definition compact (st : WindowPartitionState) : WindowPartitionState :=
  State (filter (fun p => p.2 <> []) ((fun rows => List.filter (fun r => negb (weight r =? 0)) rows) <$> partitions st))
    (order_descending st).

(** * The order of rows *)

(** The type of a value. *)
Definition kind (v : Value) : Z :=
  match v with
  | JNull => 0 | JBool _ => 1 | JNumber _ => 2 | JString _ => 3 | JArray _ => 4 | JObject _ => 5
  end.

(** A value of one type, or null. *)
Definition of_kind (c : Z) (v : Value) : bool := (kind v =? 0) || (kind v =? c).

Definition comparable (co ck : Z) (r : OrderedRow) : bool := of_kind co (order_value r) && of_kind ck (key r).

(** The place of a value in the order, among those of its type. *)
Definition value_key (v : Value) : Z * (Z * string) :=
  match v with
  | JNull => (0, (0, ""))
  | JNumber n => (1, (f64_key (default 0 (as_f64 n)), ""))
  | JString s => (1, (0, s))
  | JBool b => (1, (if b then 1 else 0, ""))
  | _ => (1, (0, ""))
  end.

Lemma compare_values_key c a b : of_kind c a = true -> of_kind c b = true ->
  compare_values a b = cmp (value_key a) (value_key b).
Proof.
  unfold of_kind. intros Ha Hb.
  assert (Hnn : kind a = 0 \/ kind b = 0 \/ kind a = kind b) by lia. clear Ha Hb.
  destruct a as [|x|n|s|l|fs], b as [|y|m|t|l'|fs']; simpl in Hnn; try lia; try reflexivity.
  - by destruct x, y.
  - transitivity (lex (cmp (f64_key (default 0 (as_f64 n))) (f64_key (default 0 (as_f64 m)))) Eq); [|reflexivity].
    cbn [compare_values]. by destruct (cmp _ _).
Qed.

(** [Reverse]. *)
Definition reverse_ord {K} (o : Ord K) : Ord K.
Proof.
  refine {| cmp := fun x y => @cmp K o y x |}.
  - intros x y. rewrite cmp_eq. by split.
  - intros x y. apply cmp_antisym.
  - intros x y z H1 H2. exact (@cmp_lt_trans K o z y x H2 H1).
Defined.

Definition direction (d : bool) : Ord (Z * (Z * string)) := if d then reverse_ord prod_ord else prod_ord.
Definition row_key (r : OrderedRow) : (Z * (Z * string)) * (Z * (Z * string)) :=
  (value_key (order_value r), value_key (key r)).

(** Among comparable rows the sort compares keys in a total order. *)
Lemma row_le_key d co ck a b : comparable co ck a = true -> comparable co ck b = true ->
  row_le d a b = @leb _ (@prod_ord _ (direction d) _ prod_ord) (row_key a) (row_key b).
Proof.
  intros [Ha1 Ha2]%andb_true_iff [Hb1 Hb2]%andb_true_iff. unfold row_le, compare_rows.
  rewrite (compare_values_key co _ _ Ha1 Hb1), (compare_values_key ck _ _ Ha2 Hb2).
  destruct d; [rewrite <-(cmp_antisym (value_key (order_value a)))|]; reflexivity.
Qed.

Lemma sort_by_agree {A} (p : A -> bool) le1 le2 (l : list A) :
  (forall x y, p x = true -> p y = true -> le1 x y = le2 x y) -> forallb p l = true -> sort_by le1 l = sort_by le2 l.
Proof.
  intros Hle. unfold sort_by. induction l as [|x l IH]; simpl; [done|]. intros [Hx Hl]%andb_true_iff. rewrite IH by done.
  assert (Hp : forallb p (sort_by le2 l) = true).
  { apply forallb_forall. intros y Hy. rewrite forallb_forall in Hl. apply Hl.
    rewrite <-list_elem_of_In in *. by rewrite sort_by_perm in Hy. }
  fold (sort_by le2 l). induction (sort_by le2 l) as [|y l' IH']; [done|]. simpl in *.
  apply andb_true_iff in Hp as [Hy Hp]. rewrite Hle by done. destruct (le2 x y); [done|]. by rewrite IH'.
Qed.

Lemma sort_rows_sorted d co ck rows : forallb (comparable co ck) rows = true ->
  StronglySorted (fun a b => row_le d a b = true) (sort_by (row_le d) rows).
Proof.
  intros Hok. pose (le2 := fun a b => @leb _ (@prod_ord _ (direction d) _ prod_ord) (row_key a) (row_key b)).
  rewrite (sort_by_agree (comparable co ck) (row_le d) le2) by (done || apply row_le_key).
  pose proof (@sort_on_sorted _ _ (@prod_ord _ (direction d) _ prod_ord) row_key rows) as Hs.
  change (sort_on row_key rows) with (sort_by le2 rows) in Hs.
  assert (Hp : Forall (fun r => comparable co ck r = true) (sort_by le2 rows)).
  { rewrite sort_by_perm. apply Forall_forall. intros r Hr. rewrite forallb_forall in Hok. by apply Hok, list_elem_of_In. }
  revert Hs Hp. generalize (sort_by le2 rows). induction 1 as [|a l Hs IH Ha]; intros Hp; [constructor|].
  apply Forall_cons in Hp as [Hpa Hp]. constructor; [auto|]. rewrite Forall_forall in *.
  intros b Hb. rewrite (row_le_key d co ck) by auto. by apply Ha.
Qed.

(** * The state *)

Lemma push_rows ps affected rows k :
  let s := foldl push_row (ps, affected) rows in
  default [] (s.1 !! k) = default [] (ps !! k) ++ List.filter (fun r => String.eqb (partition_key r) k) rows /\
  (is_Some (s.2 !! k) <-> is_Some (affected !! k) \/ k ∈ (partition_key <$> rows)) /\
  (k ∉ (partition_key <$> rows) -> s.1 !! k = ps !! k).
Proof.
  revert ps affected. induction rows as [|r rows IH]; intros ps affected.
  - simpl. rewrite app_nil_r. split; [done|]. split; [|done]. rewrite elem_of_nil. naive_solver.
  - cbn [foldl push_row List.filter]. destruct (IH (<[partition_key r := default [] (ps !! partition_key r) ++ [r]]> ps)
      (<[partition_key r := tt]> affected)) as (-> & -> & Hsame).
    rewrite fmap_cons, not_elem_of_cons, elem_of_cons. destruct (String.eqb_spec (partition_key r) k) as [<-|Hne].
    + rewrite !lookup_insert_eq. simpl. rewrite <-app_assoc. split; [done|]. split; [naive_solver|]. by intros [? _].
    + rewrite !lookup_insert_ne in * by done. split; [done|]. split; [naive_solver|]. intros [_ Hk]. auto.
Qed.

Lemma resort_lookup d ps ks k : NoDup ks -> foldl (resort d) ps ks !! k =
  if decide (k ∈ ks) then sort_by (row_le d) <$> ps !! k else ps !! k.
Proof.
  intros Hnd. revert ps. induction Hnd as [|k' ks Hk' Hnd IH]; intros ps; [done|]. cbn [foldl]. rewrite IH.
  assert (Hl : resort d ps k' !! k = if decide (k = k') then sort_by (row_le d) <$> ps !! k else ps !! k).
  { unfold resort. destruct (decide (k = k')) as [->|Hne].
    - destruct (ps !! k') eqn:Hp; [by rewrite lookup_insert_eq|done].
    - destruct (ps !! k'); [by rewrite lookup_insert_ne|done]. }
  rewrite Hl. destruct (decide (k = k')) as [->|Hne].
  - by rewrite (decide_False (P := k' ∈ ks)), (decide_True (P := k' ∈ k' :: ks)) by (done || left).
  - destruct (decide (k ∈ ks)).
    + by rewrite decide_True by by right.
    + by rewrite decide_False by by apply not_elem_of_cons.
Qed.

(** Every partition is sorted. *)
Definition sorted_state (st : WindowPartitionState) : Prop :=
  forall k, StronglySorted (fun a b => row_le (order_descending st) a b = true) (default [] (partitions st !! k)).

(** A delta keeps every partition sorted: with order values and keys of one
    JSON type each (or null), the rows of a partition after a delta are the old
    rows and the delta's rows for it, in order; partitions the delta does not
    name keep their rows as they are; the keys returned are those it names; and
    the top rows of a partition come before all the others. *)
Theorem window_delta_sorted co ck st rows :
  sorted_state st ->
  (forall k, forallb (comparable co ck) (default [] (partitions st !! k)) = true) ->
  forallb (comparable co ck) rows = true ->
  let '(st', affected) := apply_delta st rows in
  sorted_state st' /\
  (forall k, k ∈ affected <-> k ∈ (partition_key <$> rows)) /\
  (forall k, default [] (partitions st' !! k) ≡ₚ
     default [] (partitions st !! k) ++ List.filter (fun r => String.eqb (partition_key r) k) rows) /\
  (forall k, k ∉ affected -> partitions st' !! k = partitions st !! k) /\
  (forall k n a b, a ∈ top_k st' k n -> b ∈ drop n (default [] (partitions st' !! k)) ->
     row_le (order_descending st') a b = true).
Proof.
  intros Hst Hcmp Hrows. unfold apply_delta.
  pose proof (push_rows (partitions st) ∅ rows) as Hpush.
  destruct (foldl push_row (partitions st, ∅) rows) as [ps affected]. cbn [fst snd] in Hpush.
  assert (Haff : forall k, k ∈ (entries affected).*1 <-> k ∈ (partition_key <$> rows)).
  { intros k. destruct (Hpush k) as (_ & Hk & _). rewrite lookup_empty in Hk.
    transitivity (is_Some (affected !! k)); [rewrite list_elem_of_fmap; split|rewrite Hk; split; [by intros [[? ?]|]|by right]].
    - intros ([k' u] & -> & Hin%elem_of_entries). eauto.
    - intros [u Hu]. exists (k, u). by rewrite elem_of_entries. }
  assert (Hcmp' : forall k, forallb (comparable co ck) (default [] (ps !! k)) = true).
  { intros k. destruct (Hpush k) as (-> & _). rewrite forallb_app, Hcmp. simpl. apply forallb_forall.
    intros r [Hr _]%filter_In. rewrite forallb_forall in Hrows. auto. }
  set (st' := State (foldl (resort (order_descending st)) ps (entries affected).*1) (order_descending st)).
  assert (Hlook : forall k, partitions st' !! k = if decide (k ∈ (entries affected).*1)
    then sort_by (row_le (order_descending st)) <$> ps !! k else partitions st !! k).
  { intros k. unfold st'; cbn [partitions]. rewrite resort_lookup by apply entries_NoDup.
    destruct (decide _) as [|Hk]; [done|]. rewrite Haff in Hk. by apply Hpush. }
  assert (Hsorted : sorted_state st').
  { intros k. rewrite Hlook. specialize (Hcmp' k). destruct (decide _); [|apply Hst].
    destruct (ps !! k); [by eapply sort_rows_sorted|constructor]. }
  split_and!; [done|done| | |].
  - intros k. rewrite Hlook. destruct (Hpush k) as (Hd & _ & Hs). rewrite <-Hd.
    destruct (decide _) as [|Hk]; [|by rewrite Haff in Hk; rewrite Hs]. destruct (ps !! k); [apply sort_by_perm|done].
  - intros k Hk. rewrite Hlook. by rewrite decide_False.
  - intros k n a b Ha Hb. specialize (Hsorted k). unfold top_k in Ha.
    destruct (partitions st' !! k) as [l|]; [|by apply elem_of_nil in Ha]. cbn [from_option id] in *.
    rewrite <-(take_drop n l) in Hsorted. by apply (StronglySorted_app_1_elem_of _ _ _ a b Hsorted).
Qed.

(** Across types the comparison is not an order: a string equals every number. *)
Lemma compare_values_mixed :
  let one := JNumber (PosInt 1) in let two := JNumber (PosInt 2) in
  compare_values one (JString "a") = Eq /\ compare_values (JString "a") two = Eq /\ compare_values one two = Lt.
Proof. split_and!; reflexivity. Qed.
End state.

Section witness.
#[local] Existing Instance plain_json.

Definition demo_row (id : string) (p n : Z) : OrderedRow :=
  Row (JString id) (JNumber (PosInt p)) (JNumber (PosInt n)) ∅ 1.
Definition demo_rows : list OrderedRow := [demo_row "a" 1 10; demo_row "b" 2 20; demo_row "c" 1 30].

Lemma window_delta_sorted_witness :
  let '(st', affected) := apply_delta (new true) demo_rows in
  sorted_state st' /\
  (forall k, k ∈ affected <-> k ∈ (partition_key <$> demo_rows)) /\
  (forall k, default [] (partitions st' !! k) ≡ₚ
     default [] (partitions (new true) !! k) ++ List.filter (fun r => String.eqb (partition_key r) k) demo_rows) /\
  (forall k, k ∉ affected -> partitions st' !! k = partitions (new true) !! k) /\
  (forall k n a b, a ∈ top_k st' k n -> b ∈ drop n (default [] (partitions st' !! k)) ->
     row_le (order_descending st') a b = true).
Proof.
  apply (window_delta_sorted 2 3 (new true) demo_rows).
  - intros k. constructor.
  - intros k. reflexivity.
  - reflexivity.
Defined.
End witness.
End Window.
