(* ===== verification/Reachability.v ===== *)
(** Garbage collection by reachability, [velorix-storage/src/reachability_gc.rs].

    The traversal keeps a stack of keys whose references are still to be
    followed. It is a loop with fuel, [None] when the fuel runs out; the fuel is the
    number of keys that can ever be on the stack, and [reachable_exact] shows that
    the loop ends within it. *)
From stdpp Require Import gmap sorting.
From S2P Require Import Prelude BTree.

Module ReachabilityGraph.

Inductive ObjectKind := CheckpointManifest | StateObject | OutputObject | LifecycleRecord | AdmissionRecord.

Record ReachabilityGraph := Graph {
  roots : btree string unit;
  edges : btree string (gset string);
  objects : btree string ObjectKind;
  grace_period_secs : Z;
  unreachable_at : btree string Z
}.

Definition new (grace_period_secs : Z) : ReachabilityGraph := Graph ∅ ∅ ∅ grace_period_secs ∅.

Definition add_root (g : ReachabilityGraph) (key : string) : ReachabilityGraph :=
  Graph (<[key := tt]> (roots g)) (edges g) (objects g) (grace_period_secs g) (unreachable_at g).

Definition remove_root (g : ReachabilityGraph) (key : string) : ReachabilityGraph :=
  Graph (delete key (roots g)) (edges g) (objects g) (grace_period_secs g) (unreachable_at g).

Definition register_object (g : ReachabilityGraph) (key : string) (kind : ObjectKind) : ReachabilityGraph :=
  Graph (roots g) (edges g) (<[key := kind]> (objects g)) (grace_period_secs g) (unreachable_at g).

Definition add_reference (g : ReachabilityGraph) (from to : string) : ReachabilityGraph :=
  Graph (roots g) (<[from := {[to]} ∪ default ∅ (edges g !! from)]> (edges g)) (objects g)
    (grace_period_secs g) (unreachable_at g).

(** [if reachable.insert(k) { queue.push(k) }]; the stack's top is the head. *)
Definition visit (s : gset string * list string) (k : string) : gset string * list string :=
  let '(reachable, queue) := s in
  if decide (k ∈ reachable) then s else ({[k]} ∪ reachable, k :: queue).

(** The loop over the roots. *)
Definition start (g : ReachabilityGraph) : gset string * list string :=
  foldl (fun s root => match objects g !! root with
           | Some _ => ({[root]} ∪ s.1, root :: s.2)
           | None => s
           end) (∅, []) (entries (roots g)).*1.

Definition references (g : ReachabilityGraph) (k : string) : gset string := default ∅ (edges g !! k).

(** The [while] loop. The order in which a hash set is iterated is unspecified;
    [elements] is one order, and the result does not depend on it. *)
Fixpoint traverse (fuel : nat) (g : ReachabilityGraph) (reachable : gset string) (queue : list string) :
    option (gset string) :=
  match queue, fuel with
  | [], _ => Some reachable
  | _, O => None
  | current :: queue, S fuel =>
      let '(reachable, queue) := foldl visit (reachable, queue) (elements (references g current)) in
      traverse fuel g reachable queue
  end.

(** Every key that can be visited. *)
Definition universe (g : ReachabilityGraph) : gset string :=
  list_to_set (entries (roots g)).*1 ∪ ⋃ ((entries (edges g)).*2).

(** The loop with a bound on its rounds. *)
Definition compute_within (fuel : nat) (g : ReachabilityGraph) : option (gset string) :=
  let '(reachable, queue) := start g in traverse fuel g reachable queue.

Definition compute_reachable (g : ReachabilityGraph) : gset string := default ∅ (compute_within (size (universe g)) g).

Definition find_garbage (g : ReachabilityGraph) (current_time_secs : Z) : list string :=
  let reachable := compute_reachable g in
  sort_on id (List.filter (fun key =>
    if decide (key ∈ reachable) then false else
    let unreachable_since := default current_time_secs (unreachable_at g !! key) in
    grace_period_secs g <=? saturating_sub_u64 current_time_secs unreachable_since) (entries (objects g)).*1).

(** The loop of [mark_unreachable] over one key. *)
Definition mark_key (reachable : gset string) (now : Z) (since : btree string Z) (key : string) : btree string Z :=
  if decide (key ∈ reachable) then delete key since
  else match since !! key with Some _ => since | None => <[key := now]> since end.

Definition mark_unreachable (g : ReachabilityGraph) (now : Z) : ReachabilityGraph :=
  Graph (roots g) (edges g) (objects g) (grace_period_secs g)
    (foldl (mark_key (compute_reachable g) now) (unreachable_at g) (entries (objects g)).*1).

Definition object_count (g : ReachabilityGraph) : nat := length (entries (objects g)).
Definition root_count (g : ReachabilityGraph) : nat := length (entries (roots g)).
Definition reachable_count (g : ReachabilityGraph) : nat := size (compute_reachable g).

(** * Reachability *)

(** What the traversal should find: registered roots, and what they refer to. *)
Inductive reachable (g : ReachabilityGraph) : string -> Prop :=
| reachable_root k : is_Some (roots g !! k) -> is_Some (objects g !! k) -> reachable g k
| reachable_reference k k' : reachable g k -> k' ∈ references g k -> reachable g k'.

Section traversal.
Variable g : ReachabilityGraph.

(** Visited keys are reachable and in the universe, the stack holds visited
    keys, and the references of the others are visited. *)
Record traversal_ok (seen : gset string) (queue : list string) : Prop := {
  ok_reachable k : k ∈ seen -> reachable g k;
  ok_universe : seen ⊆ universe g;
  ok_queue k : k ∈ queue -> k ∈ seen;
  ok_closed k k' : k ∈ seen -> k ∉ queue -> k' ∈ references g k -> k' ∈ seen
}.

Lemma references_universe k : references g k ⊆ universe g.
Proof.
  unfold references, universe. destruct (edges g !! k) as [s|] eqn:Hk; simpl; [|set_solver].
  apply elem_of_entries in Hk. intros k' Hk'. apply elem_of_union_r, elem_of_union_list.
  exists s. split; [|done]. apply list_elem_of_fmap. by exists (k, s).
Qed.

(** Visiting a list of keys: they are all seen, the new ones are stacked, and
    what is unseen or stacked does not grow. *)
Lemma visit_all ks seen queue :
  let '(seen', queue') := foldl visit (seen, queue) ks in
  (forall k, k ∈ seen' <-> k ∈ seen \/ k ∈ ks) /\
  (forall k, k ∈ queue' <-> k ∈ queue \/ (k ∈ ks /\ k ∉ seen)) /\
  (list_to_set ks ⊆ universe g -> seen ⊆ universe g ->
   (size (universe g ∖ seen') + length queue' = size (universe g ∖ seen) + length queue)%nat).
Proof.
  revert seen queue. induction ks as [|k ks IH]; intros seen queue; [simpl; set_solver|].
  cbn [foldl visit]. destruct (decide (k ∈ seen)) as [Hk|Hk].
  - specialize (IH seen queue). destruct (foldl visit (seen, queue) ks) as [seen' queue'].
    destruct IH as (IH1 & IH2 & IH3). split_and!; [set_solver|set_solver|]. intros Hks Hs. apply IH3; set_solver.
  - specialize (IH ({[k]} ∪ seen) (k :: queue)). destruct (foldl visit _ ks) as [seen' queue'].
    destruct IH as (IH1 & IH2 & IH3). split_and!.
    + set_solver.
    + intros k'. rewrite IH2, !elem_of_cons, not_elem_of_union, not_elem_of_singleton.
      destruct (decide (k' = k)) as [->|]; naive_solver.
    + intros Hks Hs. rewrite IH3 by set_solver. cbn [length].
      assert (Hsz : universe g ∖ seen = {[k]} ∪ universe g ∖ ({[k]} ∪ seen)).
      { apply set_eq. intros x. destruct (decide (x = k)); set_solver. }
      rewrite Hsz, (size_union {[k]}) by set_solver. rewrite size_singleton. lia.
Qed.

Lemma traverse_ok fuel seen queue : traversal_ok seen queue ->
  (size (universe g ∖ seen) + length queue <= fuel)%nat ->
  exists seen', traverse fuel g seen queue = Some seen' /\ traversal_ok seen' [] /\ seen ⊆ seen'.
Proof.
  revert seen queue. induction fuel as [|fuel IH]; intros seen [|k queue] Hok Hf; try (by exists seen); simpl in Hf; [lia|].
  cbn [traverse]. pose proof (visit_all (elements (references g k)) seen queue) as Hv.
  destruct (foldl visit (seen, queue) _) as [seen' queue']. destruct Hv as (H1 & H2 & H3).
  setoid_rewrite elem_of_elements in H1. setoid_rewrite elem_of_elements in H2.
  assert (Hks : list_to_set (elements (references g k)) ⊆ universe g)
    by (rewrite list_to_set_elements; apply references_universe).
  specialize (H3 Hks (ok_universe _ _ Hok)).
  destruct (IH seen' queue') as (seen'' & Ht & Hok' & Hsub); [|lia|exists seen''; split_and!; [done|done|set_solver]].
  destruct Hok as [O1 O2 O3 O4].
  assert (k ∈ seen) by set_solver. pose proof (references_universe k). split.
  - intros k' [?|?]%H1; [auto|]. by eapply reachable_reference; [apply O1|].
  - intros k' [?|?]%H1; set_solver.
  - intros k' [?|[? _]]%H2; apply H1; [left; apply O3; by right|by right].
  - intros k1 k2 Hk1 Hq Hr. apply H1. rewrite H2 in Hq. apply H1 in Hk1.
    destruct (decide (k1 = k)) as [->|]; [by right|]. left. apply (O4 k1); [|set_solver|done].
    destruct Hk1 as [?|?]; [done|]. destruct (decide (k1 ∈ seen)); [done|]. tauto.
Qed.

(** The roots the traversal starts from. *)
Definition live_roots : list string :=
  List.filter (fun k => match objects g !! k with Some _ => true | None => false end) (entries (roots g)).*1.

Lemma start_live : start g = (list_to_set live_roots, rev live_roots).
Proof.
  unfold start, live_roots. generalize (entries (roots g)).*1. intros ks.
  enough (Hgen : forall (seen : gset string) queue, foldl (fun s root => match objects g !! root with
      | Some _ => ({[root]} ∪ s.1, root :: s.2) | None => s end) (seen, queue) ks =
    (list_to_set (List.filter (fun k => match objects g !! k with Some _ => true | None => false end) ks) ∪ seen,
     rev (List.filter (fun k => match objects g !! k with Some _ => true | None => false end) ks) ++ queue)).
  { rewrite Hgen, app_nil_r. f_equal. set_solver. }
  induction ks as [|k ks IH]; intros seen queue; cbn [foldl List.filter].
  - f_equal. set_solver.
  - destruct (objects g !! k); cbn [fst snd]; rewrite IH; [|done]. cbn [rev list_to_set]. f_equal; [set_solver|].
    by rewrite <-app_assoc.
Qed.

Lemma elem_of_live_roots k : k ∈ live_roots <-> is_Some (roots g !! k) /\ is_Some (objects g !! k).
Proof.
  unfold live_roots. rewrite list_elem_of_In, filter_In, <-list_elem_of_In, list_elem_of_fmap. split.
  - intros [([k' u] & -> & Hu%elem_of_entries) Hk]. simpl in *. destruct (objects g !! k'); [eauto|done].
  - intros [[u Hu] [o ->]]. split; [|done]. exists (k, u). by rewrite elem_of_entries.
Qed.

Lemma NoDup_live_roots : NoDup live_roots.
Proof.
  unfold live_roots. apply NoDup_ListNoDup, List.NoDup_filter, NoDup_ListNoDup, entries_NoDup.
Qed.

Lemma start_ok : traversal_ok (list_to_set live_roots) (rev live_roots) /\
  (size (universe g ∖ list_to_set live_roots) + length (rev live_roots) <= size (universe g))%nat.
Proof.
  assert (Hsub : list_to_set live_roots ⊆ universe g).
  { intros k [[u Hu] _]%elem_of_list_to_set%elem_of_live_roots. apply elem_of_union_l, elem_of_list_to_set.
    apply list_elem_of_fmap. exists (k, u). by rewrite elem_of_entries. }
  split; [split|].
  - intros k [? ?]%elem_of_list_to_set%elem_of_live_roots. by constructor.
  - done.
  - intros k Hk. apply elem_of_list_to_set. by apply list_elem_of_In, in_rev, list_elem_of_In in Hk.
  - intros k k' Hk Hq. destruct Hq. apply list_elem_of_In, in_rev. rewrite rev_involutive.
    rewrite elem_of_list_to_set in Hk. by apply list_elem_of_In.
  - rewrite length_rev, size_difference by done. rewrite size_list_to_set by apply NoDup_live_roots.
    apply subseteq_size in Hsub. rewrite size_list_to_set in Hsub by apply NoDup_live_roots. lia.
Qed.

(** The traversal ends, and finds the reachable keys. *)
Lemma compute_within_exact fuel : (size (universe g) <= fuel)%nat ->
  exists seen, compute_within fuel g = Some seen /\ forall k, k ∈ seen <-> reachable g k.
Proof.
  intros Hfuel. unfold compute_within. rewrite start_live. destruct start_ok as [Hok Hsize].
  destruct (traverse_ok fuel _ _ Hok) as (seen & Ht & [T1 T2 T3 T4] & Hroots); [lia|]. exists seen. split; [done|]. intros k.
  split; [apply T1|]. induction 1 as [k Hr Ho|k k' Hk IH Hk'].
  - apply Hroots, elem_of_list_to_set, elem_of_live_roots. done.
  - apply (T4 k); [done|apply not_elem_of_nil|done].
Qed.

Lemma elem_of_compute_reachable k : k ∈ compute_reachable g <-> reachable g k.
Proof. unfold compute_reachable. by destruct (compute_within_exact (size (universe g))) as (seen & -> & Hs). Qed.
End traversal.

(** C35: The traversal ends, on every graph, cycles included: its loop is done after at
    most as many rounds as there are keys that roots and references name, and what
    it returns then, however many more rounds it may have, is exactly the set of keys
    that are reachable from a registered root through references. *)
Theorem reachable_exact g fuel : (size (universe g) <= fuel)%nat ->
  compute_within fuel g = Some (compute_reachable g) /\ forall k, k ∈ compute_reachable g <-> reachable g k.
Proof.
  intros Hfuel. destruct (compute_within_exact g fuel Hfuel) as (seen & Hs & Hk). split; [|apply elem_of_compute_reachable].
  rewrite Hs. f_equal. apply set_eq. intros k. by rewrite Hk, elem_of_compute_reachable.
Qed.

(** * The life of an object *)

Inductive op :=
| AddRoot (key : string) | RemoveRoot (key : string) | Register (key : string) (kind : ObjectKind)
| AddReference (from to : string) | Mark (now : Z).

Definition run_op (g : ReachabilityGraph) (x : op) : ReachabilityGraph :=
  match x with
  | AddRoot k => add_root g k
  | RemoveRoot k => remove_root g k
  | Register k kind => register_object g k kind
  | AddReference from to => add_reference g from to
  | Mark now => mark_unreachable g now
  end.

Definition run (grace : Z) (ops : list op) : ReachabilityGraph := foldl run_op (new grace) ops.

Definition registered (g : ReachabilityGraph) (k : string) : Prop := is_Some (objects g !! k).

Lemma mark_keys R now ks since k : NoDup ks ->
  foldl (mark_key R now) since ks !! k =
  if decide (k ∈ ks) then if decide (k ∈ R) then None else Some (default now (since !! k)) else since !! k.
Proof.
  intros Hnd. revert since. induction Hnd as [|k' ks Hk' Hnd IH]; intros since; [done|]. cbn [foldl]. rewrite IH. clear IH.
  assert (Hl : mark_key R now since k' !! k = if decide (k = k') then
      if decide (k ∈ R) then None else Some (default now (since !! k)) else since !! k).
  { unfold mark_key. destruct (decide (k = k')) as [->|Hne], (decide (k' ∈ R)).
    - apply lookup_delete_eq.
    - destruct (since !! k') eqn:Hs; [done|]. apply lookup_insert_eq.
    - by apply lookup_delete_ne.
    - destruct (since !! k'); [done|]. by apply lookup_insert_ne. }
  rewrite Hl. destruct (decide (k = k')) as [->|Hne].
  - by rewrite (decide_False (P := k' ∈ ks)), (decide_True (P := k' ∈ k' :: ks)) by (done || left).
  - destruct (decide (k ∈ ks)).
    + by rewrite (decide_True (P := k ∈ k' :: ks)) by by right.
    + by rewrite (decide_False (P := k ∈ k' :: ks)) by by apply not_elem_of_cons.
Qed.

Lemma registered_entries g k : k ∈ (entries (objects g)).*1 <-> registered g k.
Proof.
  rewrite list_elem_of_fmap. split.
  - intros ([k' o] & -> & Ho%elem_of_entries). by exists o.
  - intros [o Ho]. exists (k, o). by rewrite elem_of_entries.
Qed.

(** After a pass: cleared when reachable, kept or set when not. *)
Lemma unreachable_at_mark g now k : registered g k ->
  (reachable g k -> unreachable_at (mark_unreachable g now) !! k = None) /\
  (~ reachable g k -> unreachable_at (mark_unreachable g now) !! k = Some (default now (unreachable_at g !! k))).
Proof.
  intros Hreg. cbn [mark_unreachable unreachable_at]. rewrite mark_keys by apply entries_NoDup.
  rewrite (decide_True (P := k ∈ (entries (objects g)).*1)) by by apply registered_entries. split; intros Hr.
  - by rewrite decide_True by by apply elem_of_compute_reachable.
  - by rewrite decide_False by by rewrite elem_of_compute_reachable.
Qed.

Lemma unreachable_at_unregistered g now k : ~ registered g k ->
  unreachable_at (mark_unreachable g now) !! k = unreachable_at g !! k.
Proof.
  intros Hreg. cbn [mark_unreachable unreachable_at]. rewrite mark_keys by apply entries_NoDup.
  by rewrite decide_False by by rewrite registered_entries.
Qed.
(** The last passes saw [k] unreachable, from the one at [t] on. *)
Definition unreachable_since (grace : Z) (ops : list op) (k : string) (t : Z) : Prop :=
  exists before after, ops = before ++ Mark t :: after /\ ~ reachable (run grace before) k /\
    forall a t' b, after = a ++ Mark t' :: b -> ~ reachable (run grace (before ++ Mark t :: a)) k.

Lemma run_snoc grace ops x : run grace (ops ++ [x]) = run_op (run grace ops) x.
Proof. unfold run. by rewrite foldl_app. Qed.

Lemma unreachable_since_snoc grace ops x k t : unreachable_since grace ops k t ->
  (forall t', x = Mark t' -> ~ reachable (run grace ops) k) -> unreachable_since grace (ops ++ [x]) k t.
Proof.
  intros (before & after & -> & Hb & Ha) Hx. exists before, (after ++ [x]). split_and!; [by rewrite <-app_assoc|done|].
  intros a t' b Hab. destruct (exists_last (l := Mark t' :: b)) as (b' & y & Hb'); [done|].
  rewrite Hb' in Hab. rewrite app_assoc in Hab. apply app_inj_tail in Hab as [Hafter <-].
  destruct b' as [|z b']; simpl in Hb'; simplify_eq.
  - rewrite app_nil_r in *. by apply (Hx t').
  - eapply Ha. done.
Qed.

Lemma unreachable_at_run grace ops k t :
  unreachable_at (run grace ops) !! k = Some t -> registered (run grace ops) k /\ unreachable_since grace ops k t.
Proof.
  revert t. induction ops as [|x ops IH] using rev_ind; intros t; [done|]. rewrite run_snoc.
  assert (Hkeep : (forall t', x <> Mark t') -> unreachable_at (run_op (run grace ops) x) !! k = Some t ->
    registered (run_op (run grace ops) x) k /\ unreachable_since grace (ops ++ [x]) k t).
  { intros Hx Ht. assert (Hold : unreachable_at (run grace ops) !! k = Some t).
    { destruct x as [| | | |now]; [exact Ht..|by destruct (Hx now)]. }
    destruct (IH t Hold) as [Hreg Hsince].
    split; [|by apply unreachable_since_snoc; [|intros t' ->; destruct (Hx t')]].
    unfold registered in *. destruct x as [| |k' kind| |now]; [done|done| |done|by destruct (Hx now)].
    cbn [run_op register_object objects]. destruct (decide (k' = k)) as [->|]; [rewrite lookup_insert_eq; eauto|by rewrite lookup_insert_ne]. }
  destruct x as [| | | |now]; try (apply Hkeep; by intros ?). clear Hkeep. cbn [run_op]. intros Ht.
  destruct (decide (registered (run grace ops) k)) as [Hreg|Hreg]; [|rewrite unreachable_at_unregistered in Ht by done;
    by destruct (IH t Ht)]. split; [done|].
  destruct (unreachable_at_mark (run grace ops) now k Hreg) as [Hr Hnr].
  destruct (decide (k ∈ compute_reachable (run grace ops))) as [Hin|Hin]; rewrite elem_of_compute_reachable in Hin;
    [rewrite Hr in Ht by done; done|].
  rewrite Hnr in Ht by done. injection Ht as Ht. destruct (unreachable_at (run grace ops) !! k) as [t0|] eqn:H0; simpl in Ht; subst.
  - apply unreachable_since_snoc; [by apply IH|done].
  - exists ops, []. split_and!; [done..|]. by intros [].
Qed.

(** C36: Only garbage is collected, and only after the grace period: a key that
    the collector offers for deletion is registered, cannot be reached, and,
    when there is a grace period, a pass at least that long ago already saw it
    unreachable, as did every pass since. *)
Theorem garbage_is_old grace ops now k :
  k ∈ find_garbage (run grace ops) now ->
  registered (run grace ops) k /\ ~ reachable (run grace ops) k /\
  (0 < grace -> exists t, t + grace <= now /\ unreachable_since grace ops k t).
Proof.
  assert (Hgrace : grace_period_secs (run grace ops) = grace).
  { unfold run. rewrite <-(eq_refl : grace_period_secs (new grace) = grace) at 2. generalize (new grace).
    induction ops as [|x ops IH]; intros g; [done|]. simpl. rewrite IH. by destruct x. }
  unfold find_garbage. rewrite sort_on_perm, list_elem_of_In, filter_In, <-list_elem_of_In, registered_entries, Hgrace.
  intros [Hreg Hk]. destruct (decide _) as [|Hr]; [done|]. rewrite elem_of_compute_reachable in Hr.
  split_and!; [done..|]. intros Hpos. apply Z.leb_le in Hk. unfold saturating_sub_u64 in Hk.
  destruct (unreachable_at (run grace ops) !! k) as [t|] eqn:Ht; simpl in Hk; [|lia].
  exists t. split; [lia|]. by apply unreachable_at_run.
Qed.

Definition demo_ops : list op :=
  [Register "ckpt-1" CheckpointManifest; Register "state-1" StateObject; Register "ckpt-2" CheckpointManifest;
   AddReference "ckpt-1" "state-1"; AddRoot "ckpt-1"; AddRoot "ckpt-2"; RemoveRoot "ckpt-1"; Mark 100; Mark 200].

(** Two checkpoints that refer to each other. *)
Definition demo_cycle : ReachabilityGraph :=
  run 60 [Register "ckpt-1" CheckpointManifest; AddReference "ckpt-1" "ckpt-2"; AddReference "ckpt-2" "ckpt-1"; AddRoot "ckpt-1"].

Lemma reachable_exact_witness :
  compute_within 2 demo_cycle = Some (compute_reachable demo_cycle) /\
  forall k, k ∈ compute_reachable demo_cycle <-> reachable demo_cycle k.
Proof. exact (reachable_exact demo_cycle 2 ltac:(vm_compute; lia)). Defined.

Lemma garbage_is_old_witness :
  registered (run 60 demo_ops) "state-1" /\ ~ reachable (run 60 demo_ops) "state-1" /\
  (0 < 60 -> exists t, t + 60 <= 160 /\ unreachable_since 60 demo_ops "state-1" t).
Proof.
  apply (garbage_is_old 60 demo_ops 160 "state-1"). vm_compute. right. left.
Defined.
End ReachabilityGraph.
